(* ===== verification/_CoqProject ===== *)
-Q . S2P
Prelude.v
GoStrings.v
Regex.v
Utf8.v
GoPath.v
DBusPolicy.v
HostActions.v
Filesystem.v
Override.v
Applications.v
Composition.v
Hex.v
Base64.v
Json.v
Decimal.v
GoTime.v
TrustedFiles.v
Enforcement.v
Reputation.v
ReputationStore.v
TrustPolicy.v
ReputationPolicy.v
AppTrust.v
BusAuth.v
Integrity.v
Roots.v
SignedState.v
Evidence.v
Anchor.v
RecordPaths.v
Confirmation.v
Ledger.v
LedgerFloor.v
LedgerReach.v
Admission.v
AuthorityWire.v
Authority.v
Launch.v
Checkout.v
CheckoutWalk.v
Bindings.v
CheckoutVerify.v
OciReference.v
Repository.v
DesktopEntry.v
DesktopAlias.v
Manifest.v
Updates.v
Ceiling.v
Intersection.v
NestedAuth.v
Addons.v
Storage.v
Removal.v
ContainerCli.v
ContainerBroker.v
BusWire.v
BusMessages.v
BusProxy.v
