(* ===== verification/Prelude.v ===== *)
(** * cpak: a verified model of its permission, trust and desktop-bus core

    cpak runs applications in containers with the permissions their manifest
    asks for and the administrator allows.  This development models, in
    executable Gallina, the parts of its Go source that decide what an
    application may do and what the host believes about it, and proves what
    those decisions promise.  File names below are under [src/].

    ** The parts and how they interact

    Permissions ([pkg/types], [pkg/integrity]).  An [Override] is the record of
    what an application is granted.  [DBusPolicy.v], [HostActions.v] and
    [Filesystem.v] model the grants of [dbus.go], [host_action.go] and
    [filesystem.go] - validation, comparison, intersection, canonical form, path
    resolution and the refusal of cpak's own state - and [Override.v] the record
    itself, its migration and its [Additions].  [Integrity.v] is [policy.go]:
    [Restricts], the order an update is judged by, and the canonical policy;
    [Roots.v] is [root.go]: the JSON encoding ([Json.v]) and the digests that bind a
    launch to a package and a policy.

    Trust ([pkg/reputation], [pkg/trustpolicy], [pkg/applicationtrust]).
    [Reputation.v] verifies a signed snapshot of publishers and looks one up;
    [TrustPolicy.v] decides what an administrator's policy allows, and
    [ReputationPolicy.v] its reputation stage; [AppTrust.v] is the record of a
    decision, its validation and the text shown for it.

    The system authority's files ([pkg/systemauthority]).  [TrustedFiles.v] is a
    world of files in which any system call may fail, with [readTrusted],
    [ensureDirectory] and [writeAtomic] in a state-and-error monad;
    [Enforcement.v] and [ReputationStore.v] are the two stores over it, and the
    second uses [Reputation.v].

    Signatures ([pkg/signature]).  [SignedState.v] is the canonical form of what a
    publisher signs and the identity that may publish an origin; [Evidence.v] the
    evidence, the Sigstore verifier around the check of the bundle, and the
    projection older callers see.

    The ledger ([pkg/systemauthority]).  [Anchor.v] is the data of a record -
    anchor, enrolment, tombstone - its validation, its order and the
    authorization it needs; [RecordPaths.v] the file it lies in;
    [Confirmation.v] the confirmations a reputation warning waits for.
    [Ledger.v] is [anchor.go] and [trust.go] over the world of files and that
    store: admission, recording, forgetting, clearing.  [LedgerFloor.v] proves
    what no sequence of calls lowers, [LedgerReach.v] which files a call can touch
    at all, and [Admission.v] what a record went through.  [AuthorityWire.v] and [Authority.v] are the two transports, the
    socket and the bus: who may ask, what the owner of the machine is asked.

    The launch ([pkg/cpak]).  [Composition.v] is [composition.go]: what an application
    is built on, and the layers that are mounted for it.  [Launch.v] is [verify.go] and
    [measure.go]: what a launch is, what the store says of it, and whether the
    ledger and the enforcement level let it start.  It reads the ledger of
    [Ledger.v] and the roots of [Roots.v], and reaches the store through the class
    [LaunchStore].  [Bindings.v] is what a pull binds a layer to ([bindings.go],
    [binding.go]); [Checkout.v] the shape a state gives a prepared checkout,
    [CheckoutWalk.v] the walk that measures one and [CheckoutVerify.v] what a launch, a
    preparation and a full check make of the two ([checkout.go], [measure.go]).

    Who narrows whom ([pkg/cpak], [pkg/systemauthority]).  [Ceiling.v] is the store of
    the host ceiling ([ceiling.go]); [Intersection.v] the intersection of two
    policies and what a ceiling holds, and [NestedAuth.v] the file of the owner, the
    policy of a launch and the authorization of a nested run ([nested_auth.go],
    [nested_identity.go], [override.go]).  Their policies are the ones [Launch.v]
    starts an application under.

    Packages ([pkg/oci], [pkg/cpak], [pkg/types]).  [OciReference.v] is the parser and
    the printer of image references; [Repository.v] the names a repository gives to
    directories, URLs, tags and launchers; [Manifest.v] the validation and migration
    of a manifest; [Applications.v] the record of an installation.  [Updates.v] is
    the store of those records, the transaction around a replacement, its recovery,
    the rollback history, [Rollback] and a whole update with its approvals.
    [DesktopEntry.v] and [DesktopAlias.v] are what an installation exports: entries and
    their aliases, wrappers, spans of files, and the entries of the host
    ([desktop_*.go], [installer.go], [application_catalog.go]).  [Addons.v] is the file
    an owner keeps of addons and which of them are active ([addon.go],
    [addon_environment.go]); [Storage.v] which layers are needed, their removal and the
    collection of garbage ([fvs_storage.go], [storage_maintenance.go], [gc.go]);
    [Removal.v] the removal of an installation ([installer.go]).

    The container provider ([pkg/systembroker]).  [ContainerCli.v] parses the command
    line a container is given, [ContainerBroker.v] validates the request that comes
    of it and makes the arguments the backend is run with.

    The desktop bus proxy ([pkg/desktopbus]).  [BusAuth.v] is the SASL exchange
    of [wire.go]; [BusWire.v] its framing, canonical packets and file
    descriptors; [BusMessages.v] what [proxy.go] reads from and makes of
    messages; [BusProxy.v] its decisions, its state, and runs of any number of
    connections.  It decides with the policy of [DBusPolicy.v].

    ** How steps are cut

    A request of the socket or the bus is one atomic step of [Authority.v], and a history
    a list of them.  In the source a mutex of the socket ([socket.go]) does that for its
    enrolments; the handlers of the bus ([service.go]) take no lock, and one that runs
    next to an enrolment of the socket is outside the model.  Calls of [Bind] do
    interleave, system call by system call.  A message and its delivery are one step of
    [BusProxy.v]: that the write of a reply may fail after the reply was let through is
    not told apart.  A call of [os.WriteFile] or [os.RemoveAll] works as a whole or not
    at all where an alias is written and where layers are removed; the writes of the
    authority and of the store are cut at every system call.  The store
    [Composition.v] resolves over holds the records that can be loaded: one that cannot
    be read is to [visit] one that is not there, and the error is the same.

    Below these, [GoStrings.v], [Regex.v], [Utf8.v], [GoPath.v], [Hex.v],
    [Base64.v], [Decimal.v] and [GoTime.v] model what the code uses of Go's standard library, and this file
    holds the results, loops and automation everything shares.

    ** Conventions

    A Go string is a [string] of bytes.  A function returning an error returns
    [result E T], the constructors of [E] being the error sites in the order of
    the code; a file operation is [M E T], a function of the world.  A record has
    the fields of the struct, prefixed when two structs share a name; a map is a
    [gmap].  Integers are [Z] or [N]; where the width matters the wrap is written
    ([BusWire.wrap32]).

    Loops over slices are structural.  The others carry fuel that is proved
    enough: decoding runes takes the length of the string ([runes_fuel_enough]),
    [sort.Search] the length of the slice, [readAuthLine] the 4096 bytes of its
    loop, [auth_loop] the bytes left plus one, each line consuming two
    ([auth_loop_fuel]), [read_bytes] and [write_all] a round per byte, and [%x] of
    a [uint32] sixteen digits.  Resolving what an application is built on takes the
    number of records of the store ([composition_resolves]), taking out empty
    directories the length of the path, comparing two paths and adding the parents of a
    name its length, and walking a checkout the height of the tree
    ([measurement_total]).

    The ledger's calls need no fuel; the oldest confirmation is found by a fold
    over the order [range] happens to visit the map in, which is a parameter.

    Parameters stand for code that is not in the repository: SHA-256, Ed25519,
    sigstore-go, the JSON codecs, RFC 8785, [url.Parse] and [%q]; [godbus]'s
    encoder, decoder, [Store] and [SignatureOf]; polkit and the account behind a
    bus name; and the user's home and configured directories.  Three stand for
    code that is only called here: the X.509 verifier, the approval check, and the
    store of layer states and checkouts ([LaunchStore]).  Theorems that need the
    codec to read back what it wrote say so ([counts_read_back],
    [wire_read_back], [UpdateCodecLaws]), and their witnesses give a codec that does.
    Further classes of functions are [CeilingCodec], [OverrideCodec] and
    [ManifestCodec] (JSON), [ManifestChecks] (URLs and the JSON schema), [NetText]
    (Unicode case and textual addresses), [ContainerHost] (links, owners and the
    backend's answers), [ApplicationStore] and [Engine] (the database, with its laws in
    [EngineLaws]); [updateDeps] is the record of functions an update is given in the
    source too, and [DepsElsewhere] says that they leave the store alone.  So are
    [addonDeps], [storageDeps] and [removalDeps] records of what those operations call,
    [DriverIndex] what the storage driver prepared, [AddonCodec] and [BindingCodec] JSON
    with its laws, [FvsKinds] and [StateStore] the states of a repository, and
    [CheckoutHost] the calls a checkout is opened and read with.

    A nil and an empty slice are one value, and the times of a record are left out.

    ** What the theorems show

    - permissions: [Restricts] answers yes exactly when nothing more is asked for, and
      agrees with [Additions]; the fields the comparisons walk are all the struct has
      ([fields_determine]); the intersections of host actions and of bus policies are
      meets; a canonical policy is stable; a resolved path stays in its scope; no grant
      reaches cpak's state, whose directories are named;
    - roots: two launches with one root have one package and one policy, up to a
      SHA-256 collision;
    - trust: the decisions of a policy, exactly; a verified snapshot answers with
      the signed entries; the reputation stage follows the mode; a validated
      decision was earned; shown text is safe;
    - stores: whatever calls fail, a write takes effect or changes nothing, the
      strict setting is assumed when none can be read, and through imports,
      configurations and clearings the sequence of snapshots of a provider falls only
      where the caller named its key or cleared it;
    - signatures: a document parses exactly when it is canonical; accepted evidence
      covers its own state and names the publisher that was proved;
    - ledger: a generation or a signature once recorded is a floor for every later
      record, over both transports and through removals and failing calls; what
      is recorded was admitted by the policies of the host at that moment, and the
      file holds the decision that was made; two records never share a file; a confirmation is used once, for the enrolment
      it was issued for, and the pending ones are bounded;
    - transports: an account that is not root changes no file but its own record and
      what a removal leaves, and never widens it; the bus changes nothing the owner was
      not asked about;
    - launch: a measurement is clean exactly when the store holds what it recorded;
      what the gate lets through is what the level allows; a recognised launch is
      the package and the policy that were enrolled, with every layer as recorded;
      what an application is built on is resolved once and in order; a layer is bound
      once however calls interleave; a checkout measures as its state exactly when it
      holds what the state describes;
    - nested runs: the ceiling of the host and the policy of every package with a say
      in it bound a launch; a nested run is one its caller declared, narrowed to the
      caller; the intersection of policies permits nothing either denies;
    - packages: references, origins and paths have one spelling and stay apart; a
      validated manifest holds no control character where one line is shown, asks
      for no raw access and always installs; what a source is mapped to is a tag;
    - updates: whichever call fails, recovery comes to the old record or the new one
      and never to a mixture; a rollback undoes an update; no record of an update gives
      a permission - field, session, or field of a session - that was not asked about
      and agreed to;
    - exports: an exported entry is the publisher's, line for line, but for the keys that
      name a program, which run the launcher on the application; an alias takes no file
      of another; a wrapper is read by the shell as it was meant;
    - addons, storage and removal: which addons are active, and what they export; no
      layer in use is removed or collected, whatever fails; an installation goes only
      when nothing depends on it;
    - containers: what the backend runs is the request that was validated, word for
      word, within the grants and the capabilities; what is changed or entered are
      containers of the application, what is only read any container;
    - bus: only the user of the proxy is let in; messages are framed and bounded
      and lose no descriptor after their header; the canonical packet is the
      header decided on with the body sent; calls are denied by default and
      answered once; what is let through follows the order on policies; a
      Bluetooth client answers each call once, and request contexts are used once.

    Where the code does something its comments or its own other paths deny, a
    closed lemma shows it: [header_failure_leaks], [header_length_wraps],
    [rejected_yet_authorized], [reused_handle_stays_open],
    [publisher_status_unsanitized], [interrupted_change_wedges],
    [host_not_checked], [oversized_record_locks], [session_roots_unchecked],
    [base64_strict_iff], [home_subpath_dropped], [oversized_ceiling_lifts],
    [refused_override_widens], [image_read_as_option], [bounds_unchecked],
    [session_legacy_fields_unchecked], [image_drives_terminal],
    [slash_in_identifier], [removed_application_returns], [failed_update_observed],
    [enabled_again_unselected], [dropped_addon_stops_removal],
    [single_quotes_swallow_separator], [form_feed_hides_exec], [launcher_unquoted].

    ** Not modelled

    The command line, containers, mounts, registries, prompts and the listening
    side of the services are calls of the kernel, of processes and of libraries.
    Of the bus proxy, [Serve], the resolvers of names and the sockets are inputs of
    a run.  Issuing a snapshot ([Sign]), decoding JSON, CMS and certificate chains
    are not modelled, and of the authority the session registry and the client side.
    Of the packages, fetching, unpacking and mounting them, the lock and the enrolment
    an installation asks for; of the broker its server and the providers other than
    containers. *)
From stdpp Require Import base strings list gmap sorting.
From stdpp Require Import options.

(** ** Results of fallible Go code

    A Go function returning [(T, error)] is modelled by [result E T]: [Err e]
    when the error is not nil, where [E] enumerates the error sites of the
    component, and [Ok v] otherwise. *)
Inductive result (E A : Type) : Type :=
  | Ok (a : A)
  | Err (e : E).
Arguments Ok {E A} a.
Arguments Err {E A} e.

#[export] Instance result_ret {E} : MRet (result E) := λ A a, Ok a.
#[export] Instance result_bind {E} : MBind (result E) := λ A B f r,
  match r with Ok a => f a | Err e => Err e end.

#[export] Instance Ok_inj {E A} : Inj (=) (=) (@Ok E A).
Proof. by intros ?? [=]. Qed.

#[export] Instance result_eq_dec {E A} `{EqDecision E, EqDecision A} :
  EqDecision (result E A).
Proof. solve_decision. Defined.

Declare Scope cpak_scope.
Delimit Scope cpak_scope with cpak.

(** [refuse_if b e ;; k] is Go's [if b { return e }; k]. *)
Definition refuse_if {E} (b : bool) (e : E) : result E unit :=
  if b then Err e else Ok tt.

(** [check_that b e ;; k] is Go's [if !b { return e }; k]. *)
Definition check_that {E} (b : bool) (e : E) : result E unit :=
  if b then Ok tt else Err e.

Notation "e1 ;;; e2" := (mbind (λ _, e2) e1)
  (at level 100, right associativity, only parsing) : cpak_scope.
#[global] Open Scope cpak_scope.

(** The error of an inner call wrapped by the caller ([fmt.Errorf] with [%w]). *)
Definition wrap {E F A} (f : E → F) (r : result E A) : result F A :=
  match r with Ok a => Ok a | Err e => Err (f e) end.

Definition is_ok {E A} (r : result E A) : bool :=
  match r with Ok _ => true | Err _ => false end.

(** ** Loops over slices *)

(** [for _, x := range l { if err := f(x); err != nil { return err } }]. *)
Fixpoint for_each {E A} (f : A → result E unit) (l : list A) : result E unit :=
  match l with
  | [] => Ok tt
  | x :: l => f x ;;; for_each f l
  end.

(** The same loop over a slice with a [seen] map: each element is checked by
    [pre], refused when its key was already seen, checked by [post], and its
    key recorded. *)
Fixpoint for_seen `{Countable K} {E A} (key : A → K)
    (pre post : A → result E unit) (dup : A → E)
    (seen : gset K) (l : list A) : result E unit :=
  match l with
  | [] => Ok tt
  | x :: l =>
      pre x ;;;
      refuse_if (bool_decide (key x ∈ seen)) (dup x) ;;;
      post x ;;;
      for_seen key pre post dup ({[key x]} ∪ seen) l
  end.

(** [range] with the index. *)
Fixpoint for_each_from {E A} (i : nat) (f : nat → A → result E unit)
    (l : list A) : result E unit :=
  match l with
  | [] => Ok tt
  | x :: l => f i x ;;; for_each_from (S i) f l
  end.

Lemma bind_ok {E A B} (f : A → result E B) (r : result E A) (b : B) :
  r ≫= f = Ok b ↔ ∃ a, r = Ok a ∧ f a = Ok b.
Proof. destruct r; cbn; naive_solver. Qed.

Lemma bind_unit_ok {E B} (r : result E unit) (k : result E B) (b : B) :
  (r ;;; k) = Ok b ↔ r = Ok tt ∧ k = Ok b.
Proof. destruct r as [[]|]; cbn; naive_solver. Qed.

Lemma wrap_ok {E F A} (f : E → F) (r : result E A) a :
  wrap f r = Ok a ↔ r = Ok a.
Proof. destruct r; cbn; naive_solver. Qed.

Lemma refuse_if_ok {E} b (e : E) u : refuse_if b e = Ok u ↔ b = false.
Proof. destruct b, u; cbn; naive_solver. Qed.

Lemma check_that_ok {E} b (e : E) u : check_that b e = Ok u ↔ b = true.
Proof. destruct b, u; cbn; naive_solver. Qed.

Lemma is_ok_true {E} (r : result E unit) : is_ok r = true ↔ r = Ok tt.
Proof. destruct r as [[]|]; cbn; naive_solver. Qed.

Lemma for_each_ok {E A} (f : A → result E unit) l u :
  for_each f l = Ok u ↔ ∀ x, x ∈ l → f x = Ok tt.
Proof.
  destruct u. induction l as [|x l IH]; simpl.
  - split; [intros _ x Hx; by apply elem_of_nil in Hx|done].
  - rewrite bind_unit_ok, IH. set_solver.
Qed.

Lemma for_each_from_ok {E A} (f : nat → A → result E unit) l i u :
  for_each_from i f l = Ok u ↔ ∀ k x, l !! k = Some x → f (i + k) x = Ok tt.
Proof.
  destruct u. revert i. induction l as [|x l IH]; intros i; simpl.
  - split; [by intros _ k y Hy|done].
  - rewrite bind_unit_ok, IH. split.
    + intros [Hx Hl] [|k] y ?; simplify_eq/=; [by rewrite Nat.add_0_r|].
      rewrite <-Nat.add_succ_comm. eauto.
    + intros H. split; [rewrite <-(Nat.add_0_r i); by apply H|].
      intros k y Hk. rewrite Nat.add_succ_comm. by apply H.
Qed.

Lemma for_seen_ok `{Countable K} {E A} (key : A → K) pre post (dup : A → E) seen l u :
  for_seen key pre post dup seen l = Ok u ↔
    (∀ x, x ∈ l → pre x = Ok tt ∧ post x = Ok tt ∧ key x ∉ seen) ∧
    NoDup (key <$> l).
Proof.
  destruct u. revert seen. induction l as [|x l IH]; intros seen; simpl.
  - split; [intros _; split; [set_solver|constructor]|done].
  - rewrite !bind_unit_ok, refuse_if_ok, bool_decide_eq_false, IH, NoDup_cons,
      list_elem_of_fmap. set_solver.
Qed.

(** ** Booleans *)

Create HintDb bools discriminated.
#[export] Hint Rewrite andb_true_iff orb_true_iff negb_true_iff andb_false_iff
  orb_false_iff negb_false_iff @bool_decide_eq_true @bool_decide_eq_false
  @refuse_if_ok @check_that_ok @bind_unit_ok @wrap_ok
  Z.leb_le Z.ltb_lt Z.eqb_eq Z.leb_gt Z.ltb_ge Z.eqb_neq
  Nat.leb_le Nat.ltb_lt Nat.eqb_eq Nat.leb_gt Nat.ltb_ge Nat.eqb_neq
  N.leb_le N.ltb_lt N.eqb_eq N.leb_gt N.ltb_ge N.eqb_neq : bools.

(** Turn boolean equations into propositions, in the goal or everywhere. *)
Ltac bools := autorewrite with bools.
Ltac bools_in H := autorewrite with bools in H.
Ltac bools_all := autorewrite with bools in *.

(** Case analysis on the outermost boolean test of the goal. *)
Ltac case_if :=
  match goal with
  | |- context [if ?b then _ else _] =>
      match type of b with bool => destruct b eqn:? end
  end.

Lemma bool_iff (a b : bool) : (a = true ↔ b = true) → a = b.
Proof. destruct a, b; naive_solver. Qed.

Lemma forallb_elem {A} (f : A → bool) l :
  forallb f l = true ↔ ∀ x, x ∈ l → f x = true.
Proof. rewrite forallb_forall. by setoid_rewrite <-list_elem_of_In. Qed.

Lemma existsb_elem {A} (f : A → bool) l :
  existsb f l = true ↔ ∃ x, x ∈ l ∧ f x = true.
Proof. rewrite existsb_exists. by setoid_rewrite <-list_elem_of_In. Qed.

Lemma existsb_none {A} (f : A → bool) l :
  existsb f l = false ↔ ∀ x, x ∈ l → f x = false.
Proof.
  rewrite <-not_true_iff_false, existsb_elem. split.
  - intros H x Hx. apply not_true_iff_false. eauto.
  - intros H (x & Hx & Hf). by rewrite H in Hf.
Qed.
#[export] Hint Rewrite @forallb_elem @existsb_elem @existsb_none : bools.

(** [find] returns the first element satisfying the test. *)
Lemma find_elem {A} (f : A → bool) l x :
  List.find f l = Some x → x ∈ l ∧ f x = true.
Proof. rewrite list_elem_of_In. apply find_some. Qed.

(** ** Sorting

    [sort.Strings] and [sort.Slice] by a total order: any sorting algorithm
    returns the same list, so the model uses merge sort. *)
Definition sort_strings (l : list string) : list string := merge_sort String.le l.

Lemma sort_strings_perm l : sort_strings l ≡ₚ l.
Proof. apply merge_sort_Permutation. Qed.

Lemma sort_strings_elem x l : x ∈ sort_strings l ↔ x ∈ l.
Proof. by rewrite sort_strings_perm. Qed.

Lemma sort_strings_sorted l : StronglySorted String.le (sort_strings l).
Proof. apply (StronglySorted_merge_sort _); apply _. Qed.

Lemma sort_strings_proper l1 l2 : l1 ≡ₚ l2 → sort_strings l1 = sort_strings l2.
Proof.
  intros Hp. apply (StronglySorted_unique String.le); [apply sort_strings_sorted..|].
  by rewrite !sort_strings_perm.
Qed.

#[export] Instance sort_strings_permutation : Proper ((≡ₚ) ==> (=)) sort_strings.
Proof. intros l1 l2. apply sort_strings_proper. Qed.

Lemma sort_strings_idemp l : sort_strings (sort_strings l) = sort_strings l.
Proof. apply sort_strings_proper, sort_strings_perm. Qed.
#[export] Hint Rewrite sort_strings_elem sort_strings_idemp : sorts.
