(* ===== verification/GoStrings.v ===== *)
(** * Go strings

    A Go [string] is a sequence of bytes, so it is modelled by Rocq's [string]
    of 8-bit [ascii] characters.  This file gives the functions of the package
    [strings] the modelled code calls, and their lemmas. *)
From Stdlib Require Import Ascii.
From stdpp Require Import base strings list sets.
From S2P Require Import Prelude.
From stdpp Require Import options.

#[global] Arguments String.append !_ _ /.

(** The value of a byte. *)
Definition byte (c : ascii) : N := N_of_ascii c.

(** [len(s)]. *)
Definition slen (s : string) : nat := String.length s.

Fixpoint str_forall (f : ascii → bool) (s : string) : bool :=
  match s with "" => true | String c s => f c && str_forall f s end.

Definition str_exists (f : ascii → bool) (s : string) : bool :=
  negb (str_forall (λ c, negb (f c)) s).

(** [s[:n]] and [s[n:]], for [n <= len(s)]. *)
Fixpoint str_take (n : nat) (s : string) : string :=
  match n, s with S n, String c s => String c (str_take n s) | _, _ => "" end.
Fixpoint str_drop (n : nat) (s : string) : string :=
  match n, s with S n, String _ s => str_drop n s | 0, s => s | _, _ => "" end.

(** [strings.HasPrefix(s, p)] and [strings.TrimPrefix(s, p)]. *)
Definition has_prefix (p s : string) : bool := String.prefix p s.
Definition trim_prefix (p s : string) : string :=
  if has_prefix p s then str_drop (slen p) s else s.

(** [strings.HasSuffix(s, p)] and [strings.TrimSuffix(s, p)]. *)
Fixpoint has_suffix (p s : string) : bool :=
  bool_decide (s = p) ||
  match s with "" => false | String _ s => has_suffix p s end.
Definition trim_suffix (p s : string) : string :=
  if has_suffix p s then str_take (slen s - slen p) s else s.

(** [strings.Split(s, sep)] for a separator of one byte, and [strings.Join]. *)
Fixpoint split_byte (c : ascii) (s : string) : list string :=
  match s with
  | "" => [""]
  | String a s' =>
      if bool_decide (a = c) then "" :: split_byte c s'
      else match split_byte c s' with
           | h :: t => String a h :: t
           | [] => [String a ""]
           end
  end.
Definition concat_strings (l : list string) : string := foldr String.append "" l.
Definition join (sep : string) (l : list string) : string := String.concat sep l.

(** [string(filepath.Separator)], and the NUL byte the code joins keys with. *)
Notation slash := "/"%char (only parsing).
Definition nul : string := String "000"%char "".

(** Whether a byte occurs in a string. *)
Definition has_byte (c : ascii) (s : string) : bool :=
  str_exists (λ a, bool_decide (a = c)) s.

(** [strings.Contains(s, sub)]. *)
Fixpoint contains (sub s : string) : bool :=
  has_prefix sub s || match s with "" => false | String _ s => contains sub s end.

(** [strings.ToLower(s)] of an ASCII string. *)
Definition lower_byte (c : ascii) : ascii :=
  if ((65 <=? byte c) && (byte c <=? 90))%N then ascii_of_N (byte c + 32) else c.
Fixpoint lower (s : string) : string :=
  match s with "" => "" | String c s => String (lower_byte c) (lower s) end.

(** [strings.Cut(s, sep)] for a separator of one byte: what is before it, and what
    is after it when it is there. *)
Fixpoint cut (sep : ascii) (s : string) : string * option string :=
  match s with
  | "" => ("", None)
  | String c s =>
      if bool_decide (c = sep) then ("", Some s)
      else let '(before, after) := cut sep s in (String c before, after)
  end.

(** [strings.LastIndexByte(s, c)]. *)
Fixpoint last_index (c : ascii) (s : string) : Z :=
  match s with
  | "" => -1
  | String a s =>
      let i := last_index c s in
      if (0 <=? i)%Z then i + 1 else if bool_decide (a = c) then 0 else -1
  end.

(** [s1 < s2] on strings is the lexicographic order of their bytes. *)
Definition str_lt (s1 s2 : string) : bool := String.ltb s1 s2.
Definition str_leb (s1 s2 : string) : bool := String.leb s1 s2.

(** ** Lemmas *)

Lemma app_nil_str s : s +:+ "" = s.
Proof. induction s; simpl; congruence. Qed.

Lemma app_assoc_str s1 s2 s3 : (s1 +:+ s2) +:+ s3 = s1 +:+ (s2 +:+ s3).
Proof. induction s1; simpl; congruence. Qed.

Lemma slen_app s1 s2 : slen (s1 +:+ s2) = slen s1 + slen s2.
Proof. induction s1; simpl; [done|]. unfold slen in *. simpl. lia. Qed.

Lemma app_inv_head_str s t1 t2 : s +:+ t1 = s +:+ t2 → t1 = t2.
Proof. induction s; simpl; [done|]. intros [=]. auto. Qed.

Lemma str_forall_app f s1 s2 :
  str_forall f (s1 +:+ s2) = str_forall f s1 && str_forall f s2.
Proof. induction s1; simpl; [done|]. by rewrite IHs1, andb_assoc. Qed.

Lemma str_forall_impl (f g : ascii → bool) s :
  (∀ c, f c = true → g c = true) → str_forall f s = true → str_forall g s = true.
Proof. intros Hfg. induction s; simpl; [done|]. bools. naive_solver. Qed.

Lemma str_take_drop n s : str_take n s +:+ str_drop n s = s.
Proof. revert s. induction n; intros [|c s]; simpl; f_equal; auto. Qed.

Lemma str_drop_app s1 s2 : str_drop (slen s1) (s1 +:+ s2) = s2.
Proof. induction s1; simpl; auto. Qed.

Lemma str_take_app s1 s2 : str_take (slen s1) (s1 +:+ s2) = s1.
Proof. induction s1; simpl; f_equal; auto. Qed.

Lemma slen_take n s : slen (str_take n s) = min n (slen s).
Proof. revert s; induction n; intros [|c s]; simpl; f_equal; auto. Qed.

Lemma has_prefix_iff p s : has_prefix p s = true ↔ ∃ t, s = p +:+ t.
Proof.
  unfold has_prefix. revert s. induction p as [|c p IH]; intros s.
  - simpl. destruct s; naive_solver.
  - destruct s as [|d s]; cbn [String.prefix String.append]; [naive_solver|].
    destruct (Ascii.ascii_dec c d) as [->|Hne]; [rewrite IH|]; naive_solver.
Qed.

Lemma has_prefix_app p s : has_prefix p (p +:+ s) = true.
Proof. apply has_prefix_iff. eauto. Qed.

Lemma has_prefix_trans p q s :
  has_prefix p q = true → has_prefix q s = true → has_prefix p s = true.
Proof.
  rewrite !has_prefix_iff. intros (t1 & ->) (t2 & ->). exists (t1 +:+ t2).
  by rewrite app_assoc_str.
Qed.

Lemma trim_prefix_app p s : trim_prefix p (p +:+ s) = s.
Proof. unfold trim_prefix. by rewrite has_prefix_app, str_drop_app. Qed.

Lemma has_suffix_iff p s : has_suffix p s = true ↔ ∃ t, s = t +:+ p.
Proof.
  induction s as [|c s IH]; simpl.
  - rewrite orb_false_r, bool_decide_eq_true. split; [by exists ""; subst|].
    intros ([|] & ?); naive_solver.
  - rewrite orb_true_iff, bool_decide_eq_true, IH. split.
    + intros [<-|(t & ->)]; [by exists ""|by exists (String c t)].
    + intros ([|d t] & Ht); simpl in *; simplify_eq; eauto.
Qed.

Lemma trim_suffix_app p s : trim_suffix p (s +:+ p) = s.
Proof.
  unfold trim_suffix. assert (has_suffix p (s +:+ p) = true) as ->.
  { apply has_suffix_iff. eauto. }
  rewrite slen_app, Nat.add_sub. apply str_take_app.
Qed.

Lemma trim_suffix_none p s : has_suffix p s = false → trim_suffix p s = s.
Proof. unfold trim_suffix. by intros ->. Qed.

(** The two shapes [trim_suffix] can leave. *)
Lemma trim_suffix_cases p s :
  (trim_suffix p s = s ∧ has_suffix p s = false) ∨ s = trim_suffix p s +:+ p.
Proof.
  destruct (has_suffix p s) eqn:E; [right|left; by rewrite trim_suffix_none].
  apply has_suffix_iff in E as (t & ->). by rewrite trim_suffix_app.
Qed.

Lemma split_byte_cons c s : ∃ h t, split_byte c s = h :: t.
Proof. destruct s as [|a s]; simpl; [eauto|]. repeat case_match; eauto. Qed.

Lemma join_split c s : join (String c "") (split_byte c s) = s.
Proof.
  unfold join. induction s as [|a s IH]; [done|]. simpl.
  destruct (split_byte_cons c s) as (h & t & E). rewrite E in *.
  case_bool_decide; subst.
  - cbn. by f_equal.
  - destruct t; simpl in *; f_equal; done.
Qed.

Lemma str_exists_cons f c s : str_exists f (String c s) = f c || str_exists f s.
Proof. unfold str_exists. simpl. by rewrite negb_andb, negb_involutive. Qed.

Lemma has_byte_cons c a s :
  has_byte c (String a s) = bool_decide (a = c) || has_byte c s.
Proof. apply str_exists_cons. Qed.

Lemma has_byte_app c s1 s2 : has_byte c (s1 +:+ s2) = has_byte c s1 || has_byte c s2.
Proof.
  induction s1 as [|a s1 IH]; [done|]. simpl.
  by rewrite !has_byte_cons, IH, orb_assoc.
Qed.

Lemma split_byte_no_sep c s h : h ∈ split_byte c s → has_byte c h = false.
Proof.
  revert h. induction s as [|a s IH]; intros h; simpl.
  - intros ->%list_elem_of_singleton. done.
  - destruct (split_byte_cons c s) as (h' & t & E). rewrite E in *.
    case_bool_decide; rewrite elem_of_cons.
    + intros [->|?]; [done|auto].
    + intros [->|?]; [|set_solver]. rewrite has_byte_cons. bools. set_solver.
Qed.

Lemma split_byte_none c s : has_byte c s = false → split_byte c s = [s].
Proof.
  induction s as [|a s IH]; [done|]. rewrite has_byte_cons. bools. intros [? ?].
  simpl. rewrite bool_decide_eq_false_2, IH by done. done.
Qed.

Lemma split_byte_app c s1 s2 :
  has_byte c s1 = false →
  split_byte c (s1 +:+ String c s2) = s1 :: split_byte c s2.
Proof.
  induction s1 as [|a s1 IH]; simpl.
  - by rewrite bool_decide_eq_true_2.
  - rewrite has_byte_cons. bools. intros [? ?].
    by rewrite bool_decide_eq_false_2, IH.
Qed.

Lemma split_join c l :
  l ≠ [] → (∀ x, x ∈ l → has_byte c x = false) →
  split_byte c (join (String c "") l) = l.
Proof.
  induction l as [|x [|y l] IH]; intros Hne Hl; [done| |].
  - apply split_byte_none, Hl. set_solver.
  - change (join _ _) with (x +:+ String c (join (String c "") (y :: l))).
    rewrite split_byte_app, IH by set_solver. done.
Qed.

Lemma has_byte_join c sep l :
  has_byte c sep = false → (∀ x, x ∈ l → has_byte c x = false) →
  has_byte c (join sep l) = false.
Proof.
  intros Hs. induction l as [|x [|y l] IH]; intros Hl; [done|apply Hl; set_solver|].
  change (join _ _) with (x +:+ (sep +:+ join sep (y :: l))).
  rewrite !has_byte_app, Hs, IH by set_solver. bools. split; [|done]. set_solver.
Qed.

Lemma cut_none c s : has_byte c s = false → cut c s = (s, None).
Proof.
  induction s as [|a s IH]; [done|]. rewrite has_byte_cons. bools. intros [? ?].
  cbn [cut]. by rewrite bool_decide_eq_false_2, IH by done.
Qed.

Lemma cut_some c s1 s2 : has_byte c s1 = false → cut c (s1 +:+ String c s2) = (s1, Some s2).
Proof.
  induction s1 as [|a s1 IH]; cbn [cut String.append].
  - by rewrite bool_decide_eq_true_2.
  - rewrite has_byte_cons. bools. intros [? ?]. by rewrite bool_decide_eq_false_2, IH by done.
Qed.

(** What [cut] answers puts the string together again. *)
Lemma cut_spec c s :
  match cut c s with
  | (t, None) => t = s ∧ has_byte c s = false
  | (t, Some u) => s = t +:+ String c u ∧ has_byte c t = false
  end.
Proof.
  induction s as [|a s IH]; [done|]. cbn [cut]. case_bool_decide as Ha; [by subst|].
  destruct (cut c s) as [t [u|]]; destruct IH as [IH Ht]; cbn [String.append]; rewrite has_byte_cons;
    (split; [by rewrite IH|]); by rewrite bool_decide_eq_false_2, ?Ht by done.
Qed.

Lemma last_index_none c s : has_byte c s = false → last_index c s = (-1)%Z.
Proof.
  induction s as [|a s IH]; [done|]. rewrite has_byte_cons. bools. intros [? ?].
  cbn [last_index]. by rewrite IH, bool_decide_eq_false_2 by done.
Qed.

Lemma last_index_some c s1 s2 :
  has_byte c s2 = false → last_index c (s1 +:+ String c s2) = Z.of_nat (slen s1).
Proof.
  intros Hs. induction s1 as [|a s1 IH]; cbn [last_index String.append].
  - by rewrite last_index_none, bool_decide_eq_true_2.
  - rewrite IH, (proj2 (Z.leb_le _ _)) by lia. unfold slen. cbn [String.length]. lia.
Qed.

Lemma compare_refl_str s : String.compare s s = Eq.
Proof.
  pose proof (String.compare_antisym s s) as Ha.
  by destruct (String.compare s s).
Qed.

Lemma str_lt_leb s1 s2 : str_lt s1 s2 = true ↔ String.le s1 s2 ∧ s1 ≠ s2.
Proof.
  unfold str_lt, String.le, String.ltb, String.leb.
  destruct (String.compare s1 s2) eqn:E.
  - apply String.compare_eq_iff in E. naive_solver.
  - split; [|done]. intros _. split; [done|]. intros ->.
    by rewrite compare_refl_str in E.
  - split; [done|]. by intros [[] _].
Qed.

#[export] Hint Rewrite app_assoc_str app_nil_str slen_app str_forall_app
  has_byte_app : strs.
