(* ===== verification/Regex.v ===== *)
(** * Regular expressions

    The program checks names, origins and digests with [regexp.MatchString] on
    patterns anchored at both ends, over ASCII classes only.  Such a pattern is
    a [regex] here; [matches] decides it by derivatives and is proved against
    the language [lang] of the pattern ([matches_lang]).  A byte above 0x7f is in
    no class of these patterns, so matching bytes and matching runes agree. *)
From Stdlib Require Import Ascii.
From stdpp Require Import base strings list.
From S2P Require Import Prelude.
From S2P Require Import GoStrings.
From stdpp Require Import options.

Inductive regex : Type :=
  | RNone
  | REps
  | RSet (ranges : list (ascii * ascii))
  | RSeq (r1 r2 : regex)
  | RAlt (r1 r2 : regex)
  | RStar (r : regex).

(** A class such as [a-z0-9]: a list of inclusive ranges of bytes. *)
Definition in_set (ranges : list (ascii * ascii)) (c : ascii) : bool :=
  existsb (λ '(lo, hi), (byte lo <=? byte c)%N && (byte c <=? byte hi)%N) ranges.

Definition RPlus (r : regex) : regex := RSeq r (RStar r).
Definition ROpt (r : regex) : regex := RAlt r REps.
Definition RChar (c : ascii) : regex := RSet [(c, c)].
Fixpoint RTimes (n : nat) (r : regex) : regex :=
  match n with 0 => REps | S n => RSeq r (RTimes n r) end.
Fixpoint RUpTo (n : nat) (r : regex) : regex :=
  match n with 0 => REps | S n => ROpt (RSeq r (RUpTo n r)) end.
Fixpoint RLit (s : string) : regex :=
  match s with "" => REps | String c s => RSeq (RChar c) (RLit s) end.

(** ** The language of a pattern *)
Inductive lang : regex → string → Prop :=
  | lang_eps : lang REps ""
  | lang_set rs c : in_set rs c = true → lang (RSet rs) (String c "")
  | lang_seq r1 r2 s1 s2 : lang r1 s1 → lang r2 s2 → lang (RSeq r1 r2) (s1 +:+ s2)
  | lang_alt_l r1 r2 s : lang r1 s → lang (RAlt r1 r2) s
  | lang_alt_r r1 r2 s : lang r2 s → lang (RAlt r1 r2) s
  | lang_star_nil r : lang (RStar r) ""
  | lang_star_app r s1 s2 :
      lang r s1 → lang (RStar r) s2 → lang (RStar r) (s1 +:+ s2).
Create HintDb regex.
#[export] Hint Constructors lang : regex.

(** ** Matching by derivatives *)
Fixpoint nullable (r : regex) : bool :=
  match r with
  | RNone | RSet _ => false
  | REps | RStar _ => true
  | RSeq r1 r2 => nullable r1 && nullable r2
  | RAlt r1 r2 => nullable r1 || nullable r2
  end.

(** Simplifying constructors keep the derivatives small. *)
Definition seq (r1 r2 : regex) : regex :=
  match r1, r2 with
  | RNone, _ | _, RNone => RNone
  | REps, r => r
  | _, _ => RSeq r1 r2
  end.
Definition alt (r1 r2 : regex) : regex :=
  match r1, r2 with RNone, r | r, RNone => r | _, _ => RAlt r1 r2 end.

Fixpoint deriv (c : ascii) (r : regex) : regex :=
  match r with
  | RNone | REps => RNone
  | RSet rs => if in_set rs c then REps else RNone
  | RSeq r1 r2 =>
      if nullable r1 then alt (seq (deriv c r1) r2) (deriv c r2)
      else seq (deriv c r1) r2
  | RAlt r1 r2 => alt (deriv c r1) (deriv c r2)
  | RStar r => seq (deriv c r) (RStar r)
  end.

Fixpoint matches (r : regex) (s : string) : bool :=
  match s with "" => nullable r | String c s => matches (deriv c r) s end.

(** ** Correctness of the matcher *)
Lemma nullable_lang r : nullable r = true ↔ lang r "".
Proof.
  split.
  - induction r; simpl; bools; try done; eauto with regex.
    + intros [??]. change "" with ("" +:+ ""). eauto with regex.
    + intros [?|?]; eauto with regex.
  - remember "" as s eqn:Hs. induction 1; simpl; bools; try done; eauto.
    destruct s1; naive_solver.
Qed.

Lemma seq_lang r1 r2 s : lang (seq r1 r2) s ↔ lang (RSeq r1 r2) s.
Proof.
  split.
  - assert (lang r2 s → lang (RSeq REps r2) s) as Heps
      by (intros; change s with ("" +:+ s); eauto with regex).
    destruct r1, r2; simpl; auto; by inversion 1.
  - inversion 1 as [| |? ? s1 s2 H1 H2| | | |]; subst.
    destruct r1, r2; simpl; auto;
      try (by inversion H1); try (by inversion H2); by inversion H1; subst.
Qed.

Lemma alt_lang r1 r2 s : lang (alt r1 r2) s ↔ lang (RAlt r1 r2) s.
Proof.
  split; destruct r1, r2; simpl; eauto with regex;
    inversion 1; subst; auto with regex;
    match goal with H : lang RNone _ |- _ => by inversion H end.
Qed.

Lemma lang_star_cons r c s :
  lang (RStar r) (String c s) →
  ∃ s1 s2, s = s1 +:+ s2 ∧ lang r (String c s1) ∧ lang (RStar r) s2.
Proof.
  remember (RStar r) as q eqn:Hq. remember (String c s) as t eqn:Ht.
  induction 1 as [| | | | | |? s1 s2 H1 _ H2 IH2]; simplify_eq.
  destruct s1 as [|a s1]; simplify_eq/=; [by auto|]. eauto.
Qed.

Lemma deriv_lang c r s : lang (deriv c r) s ↔ lang r (String c s).
Proof.
  revert s. induction r as [| |rs|r1 IH1 r2 IH2|r1 IH1 r2 IH2|r IH]; intros s; simpl.
  - split; by inversion 1.
  - split; by inversion 1.
  - case_if; split; inversion 1; subst; auto with regex; congruence.
  - assert (lang (seq (deriv c r1) r2) s ↔
      ∃ s1 s2, s = s1 +:+ s2 ∧ lang r1 (String c s1) ∧ lang r2 s2) as Hseq.
    { rewrite seq_lang. split.
      - inversion 1; subst. setoid_rewrite <-IH1. eauto.
      - intros (s1 & s2 & -> & ? & ?). constructor; [by apply IH1|done]. }
    assert (lang (RSeq r1 r2) (String c s) ↔
      (∃ s1 s2, s = s1 +:+ s2 ∧ lang r1 (String c s1) ∧ lang r2 s2) ∨
      (lang r1 "" ∧ lang r2 (String c s))) as ->.
    { split.
      - inversion 1 as [| |? ? [|a s1] s2 H1 H2 Hr Hs| | | |]; simplify_eq/=;
          [by right|left]. eauto 10.
      - intros [(s1 & s2 & -> & H1 & H2)|[H1 H2]].
        + change (String c (s1 +:+ s2)) with (String c s1 +:+ s2). by constructor.
        + change (String c s) with ("" +:+ String c s). by constructor. }
    destruct (nullable r1) eqn:E; [|].
    + apply nullable_lang in E. rewrite alt_lang, <-Hseq, <-IH2. split.
      * inversion 1; subst; eauto.
      * intros [?|[_ ?]]; eauto with regex.
    + assert (¬ lang r1 "") by (rewrite <-nullable_lang; congruence). naive_solver.
  - rewrite alt_lang. split; inversion 1; subst; naive_solver eauto with regex.
  - rewrite seq_lang. split.
    + inversion 1 as [| |? ? s1 s2 H1 H2| | | |]; subst.
      change (String c (s1 +:+ s2)) with (String c s1 +:+ s2).
      constructor; [by apply IH|done].
    + intros (s1 & s2 & -> & ? & ?)%lang_star_cons. constructor; [by apply IH|done].
Qed.

Theorem matches_lang r s : matches r s = true ↔ lang r s.
Proof.
  revert r. induction s as [|c s IH]; intros r; simpl; [apply nullable_lang|].
  by rewrite IH, deriv_lang.
Qed.

(** ** What a match says about the matched string *)

(** The bytes a pattern can consume. *)
Fixpoint uses (r : regex) (c : ascii) : bool :=
  match r with
  | RNone | REps => false
  | RSet rs => in_set rs c
  | RSeq r1 r2 | RAlt r1 r2 => uses r1 c || uses r2 c
  | RStar r => uses r c
  end.

Lemma lang_uses r s : lang r s → str_forall (uses r) s = true.
Proof.
  induction 1; simpl; rewrite ?str_forall_app; bools; split_and?; auto;
    eapply str_forall_impl; try eassumption; intros ?; simpl; bools; auto.
Qed.

Lemma matches_uses r (f : ascii → bool) s :
  (∀ c, uses r c = true → f c = true) → matches r s = true → str_forall f s = true.
Proof. rewrite matches_lang. eauto using str_forall_impl, lang_uses. Qed.

(** A byte no part of the pattern can consume is in no match. *)
Lemma matches_lacks r a s :
  (∀ c, uses r c = true → negb (bool_decide (c = a)) = true) →
  matches r s = true → has_byte a s = false.
Proof.
  intros Hr Hs. unfold has_byte, str_exists. apply negb_false_iff.
  eapply matches_uses, Hs. exact Hr.
Qed.

(** The shortest and the longest match. *)
Fixpoint min_len (r : regex) : nat :=
  match r with
  | RNone | REps | RStar _ => 0
  | RSet _ => 1
  | RSeq r1 r2 => min_len r1 + min_len r2
  | RAlt r1 r2 => min (min_len r1) (min_len r2)
  end.
Fixpoint max_len (r : regex) : option nat :=
  match r with
  | RNone | REps => Some 0
  | RSet _ => Some 1
  | RSeq r1 r2 => n1 ← max_len r1; n2 ← max_len r2; Some (n1 + n2)
  | RAlt r1 r2 => n1 ← max_len r1; n2 ← max_len r2; Some (max n1 n2)
  | RStar _ => None
  end.

Lemma lang_min_len r s : lang r s → min_len r ≤ slen s.
Proof. induction 1; simpl; rewrite ?slen_app; lia. Qed.

Lemma lang_max_len r s n : lang r s → max_len r = Some n → slen s ≤ n.
Proof.
  intros Hl. revert n.
  induction Hl; intros n; simpl; intros ?; simplify_option_eq;
    rewrite ?slen_app; try done;
    repeat match goal with H : ∀ _, _ → _ |- _ => specialize (H _ eq_refl) end; lia.
Qed.

Lemma matches_nonempty r s : 0 < min_len r → matches r s = true → s ≠ "".
Proof. intros Hr ?%matches_lang%lang_min_len ->. simpl in *. lia. Qed.

Lemma matches_max_len r s n : max_len r = Some n → matches r s = true → slen s ≤ n.
Proof. intros ? ?%matches_lang. eauto using lang_max_len. Qed.


(** Close a goal about every byte by looking at the 256 of them. *)
Ltac by_bytes :=
  let c := fresh "c" in
  intros c; destruct c as [[] [] [] [] [] [] [] []]; vm_compute; try done;
  try (intros; discriminate).
