(* ===== verification/Utf8.v ===== *)
(** * UTF-8

    [range] over a string, [utf8.Valid], [strings.Map], [strings.ToValidUTF8]
    and [strings.ContainsFunc] look at the runes of a string.  This file
    decodes and encodes runes as Go does: a byte that starts no well-formed
    sequence is the rune U+FFFD of width 1. *)
From Stdlib Require Import Ascii.
From stdpp Require Import base strings list sets.
From S2P Require Import Prelude.
From S2P Require Import GoStrings.
From stdpp Require Import options.

Local Open Scope N_scope.

Definition rune_error : N := 0xFFFD.

Definition within (lo hi x : N) : bool := (lo <=? x) && (x <=? hi).

(** A Unicode scalar value: what [utf8.ValidRune] accepts. *)
Definition scalar (r : N) : bool := (r <? 0xD800) || within 0xE000 0x10FFFF r.

(** [utf8.DecodeRuneInString]: the first rune and its width in bytes. *)
Definition decode_rune (s : string) : N * nat :=
  match s with
  | "" => (rune_error, 0%nat)
  | String a s1 =>
      let x := byte a in
      if x <? 0x80 then (x, 1%nat)
      else if within 0xC2 0xDF x then
        match s1 with
        | String b _ =>
            if within 0x80 0xBF (byte b)
            then (x mod 32 * 64 + byte b mod 64, 2%nat) else (rune_error, 1%nat)
        | _ => (rune_error, 1%nat)
        end
      else if within 0xE0 0xEF x then
        match s1 with
        | String b (String c _) =>
            if within (if x =? 0xE0 then 0xA0 else 0x80)
                 (if x =? 0xED then 0x9F else 0xBF) (byte b) &&
               within 0x80 0xBF (byte c)
            then (x mod 16 * 4096 + byte b mod 64 * 64 + byte c mod 64, 3%nat)
            else (rune_error, 1%nat)
        | _ => (rune_error, 1%nat)
        end
      else if within 0xF0 0xF4 x then
        match s1 with
        | String b (String c (String d _)) =>
            if within (if x =? 0xF0 then 0x90 else 0x80)
                 (if x =? 0xF4 then 0x8F else 0xBF) (byte b) &&
               within 0x80 0xBF (byte c) && within 0x80 0xBF (byte d)
            then (x mod 8 * 262144 + byte b mod 64 * 4096 + byte c mod 64 * 64
                  + byte d mod 64, 4%nat)
            else (rune_error, 1%nat)
        | _ => (rune_error, 1%nat)
        end
      else (rune_error, 1%nat)
  end.

Definition bytes (l : list N) : string :=
  foldr (λ n s, String (ascii_of_N n) s) "" l.

(** [utf8.AppendRune]. *)
Definition encode_rune (r : N) : string :=
  let r := if scalar r then r else rune_error in
  if r <? 0x80 then bytes [r]
  else if r <? 0x800 then bytes [0xC0 + r / 64; 0x80 + r mod 64]
  else if r <? 0x10000 then
    bytes [0xE0 + r / 4096; 0x80 + r / 64 mod 64; 0x80 + r mod 64]
  else bytes [0xF0 + r / 262144; 0x80 + r / 4096 mod 64;
              0x80 + r / 64 mod 64; 0x80 + r mod 64].

(** The runes of a string with their widths: what [range] iterates over. Every
    iteration consumes at least a byte, so [slen s] of them are enough. *)
Fixpoint runes_fuel (fuel : nat) (s : string) : list (N * string) :=
  match fuel, s with
  | S fuel, String _ _ =>
      let '(r, w) := decode_rune s in
      (r, str_take w s) :: runes_fuel fuel (str_drop w s)
  | _, _ => []
  end.
Definition runes (s : string) : list (N * string) := runes_fuel (slen s) s.

Definition invalid_item (x : N * string) : bool :=
  (x.1 =? rune_error) && (slen x.2 =? 1)%nat.

(** [utf8.ValidString]. *)
Definition valid_utf8 (s : string) : bool :=
  forallb (λ x, negb (invalid_item x)) (runes s).

(** [strings.Map]; [None] is a negative rune, which drops the character. *)
Definition strings_map (f : N → option N) (s : string) : string :=
  foldr (λ x acc, from_option encode_rune "" (f x.1) +:+ acc) "" (runes s).

(** [strings.ToValidUTF8] with the empty replacement. *)
Definition to_valid_utf8 (s : string) : string :=
  foldr (λ x acc, (if invalid_item x then "" else x.2) +:+ acc) "" (runes s).

(** [strings.ContainsFunc], and the loop over the runes of a string. *)
Definition contains_rune (f : N → bool) (s : string) : bool :=
  existsb (λ x, f x.1) (runes s).

(** [unicode.IsControl]: the category Cc. *)
Definition is_control (r : N) : bool := (r <? 0x20) || within 0x7F 0x9F r.

(** ** Decoding *)
Lemma decode_width c s :
  let w := (decode_rune (String c s)).2 in (1 ≤ w ≤ slen (String c s))%nat.
Proof. simpl. repeat case_match; unfold slen; simpl; lia. Qed.

Lemma runes_fuel_enough n s :
  (slen s ≤ n)%nat → runes_fuel n s = runes s.
Proof.
  unfold runes. remember (slen s) as m eqn:Hm. rewrite Hm.
  revert n s Hm. induction (lt_wf m) as [m _ IH].
  intros [|n] [|c s] Hm Hn; try done; [simpl in Hn; lia|].
  pose proof (decode_width c s) as Hw.
  assert (slen (String c s) = S (slen s)) as Hl by done.
  rewrite Hl. cbn [runes_fuel].
  destruct (decode_rune (String c s)) as [r w]. cbn [snd] in Hw. f_equal.
  assert (slen (str_drop w (String c s)) + w = slen (String c s))%nat as Hd.
  { rewrite <-(str_take_drop w (String c s)) at 2.
    rewrite slen_app, slen_take. lia. }
  rewrite (IH (slen (str_drop w (String c s))) ltac:(lia)) by lia.
  symmetry. apply (IH (slen (str_drop w (String c s)))); lia.
Qed.

Lemma runes_cons c s :
  let '(r, w) := decode_rune (String c s) in
  runes (String c s) = (r, str_take w (String c s)) :: runes (str_drop w (String c s)).
Proof.
  pose proof (decode_width c s) as Hw.
  unfold runes at 1. change (slen (String c s)) with (S (slen s)). cbn [runes_fuel].
  destruct (decode_rune (String c s)) as [r w]. cbn [snd] in Hw. f_equal.
  apply runes_fuel_enough.
  pose proof (slen_take w (String c s)) as Ht.
  pose proof (slen_app (str_take w (String c s)) (str_drop w (String c s))) as Hd.
  rewrite str_take_drop in Hd. unfold slen in *. simpl String.length in *. lia.
Qed.

(** Induction on a string, a rune at a time. *)
Lemma runes_ind (P : string → list (N * string) → Prop) :
  P "" [] →
  (∀ s r w, s ≠ "" → decode_rune s = (r, w) → (1 ≤ w ≤ slen s)%nat →
     P (str_drop w s) (runes (str_drop w s)) →
     P s ((r, str_take w s) :: runes (str_drop w s))) →
  ∀ s, P s (runes s).
Proof.
  intros H0 HS s. remember (slen s) as m eqn:Hm. revert s Hm.
  induction (lt_wf m) as [m _ IH]. intros [|c s] Hm; [done|].
  pose proof (runes_cons c s) as Hr. pose proof (decode_width c s) as Hw.
  destruct (decode_rune (String c s)) as [r w] eqn:E. cbn [snd] in Hw. rewrite Hr.
  apply HS; [done|done|done|]. eapply IH; [|done].
  pose proof (slen_app (str_take w (String c s)) (str_drop w (String c s))) as Hd.
  rewrite str_take_drop, slen_take in Hd. lia.
Qed.

(** The pieces of the decoding are the string. *)
Lemma runes_concat s : foldr (λ x acc, x.2 +:+ acc) "" (runes s) = s.
Proof.
  apply (runes_ind (λ s l, foldr (λ x acc, x.2 +:+ acc) "" l = s)); [done|].
  intros t r w _ _ _ IH. simpl. rewrite IH. apply str_take_drop.
Qed.

(** ** ASCII strings *)
Definition ascii_byte (c : ascii) : bool := byte c <? 0x80.

Lemma runes_ascii s :
  str_forall ascii_byte s = true →
  runes s = (λ c, (byte c, String c "")) <$> String.list_ascii_of_string s.
Proof.
  induction s as [|c s IH]; [done|].
  simpl. bools. intros [Hc Hs]. pose proof (runes_cons c s) as Hr.
  unfold ascii_byte in Hc. bools_in Hc. simpl decode_rune in Hr.
  rewrite (proj2 (N.ltb_lt _ _)) in Hr by done.
  rewrite Hr. simpl. by rewrite IH.
Qed.

Lemma encode_ascii c : ascii_byte c = true → encode_rune (byte c) = String c "".
Proof. revert c. unfold ascii_byte. intros c. destruct c as [[][][][][][][][]]; by vm_compute. Qed.

(** [strings.Map] leaves an ASCII string its function fixes alone. *)
Lemma strings_map_ascii_id f s :
  str_forall (λ c, ascii_byte c && bool_decide (f (byte c) = Some (byte c))) s = true →
  strings_map f s = s.
Proof.
  intros Hs. unfold strings_map. rewrite runes_ascii.
  2: { eapply str_forall_impl; [|exact Hs]. intros c. bools. naive_solver. }
  induction s as [|c s IH]; [done|]. simpl in *. bools_in Hs.
  destruct Hs as [[Hc Hf] Hs]. rewrite Hf. simpl.
  rewrite encode_ascii by done. simpl. f_equal. auto.
Qed.

(** ** Encoding and decoding are inverse *)
Lemma byte_of_N n : n < 256 → byte (ascii_of_N n) = n.
Proof. apply N_ascii_embedding. Qed.

Lemma byte_bound c : byte c < 256.
Proof. apply N_ascii_bounded. Qed.

#[local] Ltac Zify.zify_post_hook ::= Z.to_euclidean_division_equations.

(** Evaluate the range tests of a decoder goal. *)
Ltac ranges :=
  repeat match goal with
  | |- context [?a <? ?b] =>
      first [ rewrite (proj2 (N.ltb_lt a b)) by lia
            | rewrite (proj2 (N.ltb_ge a b)) by lia ]
  | |- context [?a <=? ?b] =>
      first [ rewrite (proj2 (N.leb_le a b)) by lia
            | rewrite (proj2 (N.leb_gt a b)) by lia ]
  end; simpl andb; cbv iota.

Lemma decode_encode r s :
  scalar r = true →
  decode_rune (encode_rune r +:+ s) = (r, slen (encode_rune r)).
Proof.
  intros Hr. unfold encode_rune. rewrite Hr.
  assert (r < 0xD800 ∨ 0xE000 <= r <= 0x10FFFF) as Hs.
  { unfold scalar, within in Hr. bools_in Hr. lia. }
  destruct (r <? 0x80) eqn:E1; bools_in E1.
  { simpl. rewrite byte_of_N by lia. by ranges. }
  destruct (r <? 0x800) eqn:E2; bools_in E2.
  { simpl. rewrite !byte_of_N by lia. unfold within. ranges. f_equal. lia. }
  destruct (r <? 0x10000) eqn:E3; bools_in E3.
  - simpl. rewrite !byte_of_N by lia. unfold within.
    destruct (0xE0 + r / 4096 =? 0xE0) eqn:Ea; bools_in Ea;
    destruct (0xE0 + r / 4096 =? 0xED) eqn:Eb; bools_in Eb;
    ranges; f_equal; lia.
  - simpl. rewrite !byte_of_N by lia. unfold within.
    destruct (0xF0 + r / 262144 =? 0xF0) eqn:Ea; bools_in Ea;
    destruct (0xF0 + r / 262144 =? 0xF4) eqn:Eb; bools_in Eb;
    ranges; f_equal; lia.
Qed.

Lemma encode_rune_cons r : ∃ c s, encode_rune r = String c s.
Proof. unfold encode_rune, bytes. repeat case_match; simpl; eauto. Qed.

Lemma slen_cons c s : slen (String c s) = S (slen s).
Proof. done. Qed.

(** A decoded rune is a scalar value. *)
Lemma decode_scalar s r w : decode_rune s = (r, w) → scalar r = true.
Proof.
  destruct s as [|a s]; simpl; [by intros [= <- _]|].
  pose proof (byte_bound a). unfold scalar, within.
  repeat case_match; intros [= <- <-]; try reflexivity; bools_all;
    repeat match goal with H : context [N.eqb ?a ?b] |- _ =>
      destruct (N.eqb_spec a b) end; try lia.
Qed.

(** A rune outside ASCII consumes only bytes outside ASCII. *)
Lemma decode_high a s r w :
  ascii_byte a = false → decode_rune (String a s) = (r, w) →
  0x80 <= r ∧ str_forall (λ c, negb (ascii_byte c)) (str_take w (String a s)) = true.
Proof.
  intros Ha. unfold ascii_byte in *. simpl. rewrite Ha. unfold within.
  repeat case_match; intros [= <- <-]; simpl; bools_all; unfold rune_error;
    split_and?; try done; try lia.
Qed.

Lemma decode_low a s :
  ascii_byte a = true → decode_rune (String a s) = (byte a, 1%nat).
Proof. unfold ascii_byte. simpl. by intros ->. Qed.

(** The encoding of a rune outside ASCII starts with such a byte. *)
Lemma encode_high r :
  scalar r = true → (0x80 <= r)%N →
  ∃ c s, encode_rune r = String c s ∧ ascii_byte c = false.
Proof.
  intros Hr Hh. pose proof (decode_encode r "" Hr) as Hd.
  destruct (encode_rune_cons r) as (c & s & E). exists c, s. split; [done|].
  apply not_true_iff_false. intros Hc. rewrite E in Hd.
  change (String c s +:+ "") with (String c (s +:+ "")) in Hd.
  rewrite decode_low in Hd by done. injection Hd as Hb _. unfold ascii_byte in Hc.
  bools_in Hc. lia.
Qed.

(** A test that holds of ASCII runes only is a test on bytes. *)
Lemma contains_rune_bytes f s :
  (∀ r, f r = true → r < 0x80) →
  contains_rune f s = str_exists (λ c, f (byte c)) s.
Proof.
  intros Hf. unfold contains_rune.
  apply (runes_ind (λ s l, existsb (λ x, f x.1) l = str_exists (λ c, f (byte c)) s));
    [done|].
  intros [|a t] r w Hne Hd _ IH; [done|]. simpl existsb. rewrite IH.
  destruct (ascii_byte a) eqn:Ha.
  - rewrite decode_low in Hd by done. injection Hd as <- <-. simpl.
    by rewrite str_exists_cons.
  - apply decode_high in Hd as [Hr Hb]; [|done].
    assert (f r = false) as ->.
    { apply not_true_iff_false. intros ?%Hf. lia. }
    rewrite <-(str_take_drop w (String a t)) at 2. unfold str_exists.
    rewrite str_forall_app. simpl. replace (str_forall _ (str_take w _)) with true; [done|symmetry].
    eapply str_forall_impl; [|exact Hb]. intros c Hc. unfold ascii_byte in Hc.
    bools_in Hc. bools. apply not_true_iff_false. intros ?%Hf. lia.
Qed.

(** ** What encoding produces *)
Definition repaired (r : N) : N := if scalar r then r else rune_error.

Lemma encode_repaired r : encode_rune r = encode_rune (repaired r).
Proof. unfold encode_rune, repaired. by destruct (scalar r) eqn:E; [rewrite E|]. Qed.

Lemma repaired_scalar r : scalar (repaired r) = true.
Proof. unfold repaired. by destruct (scalar r) eqn:E. Qed.

Lemma runes_encode_app r s :
  runes (encode_rune r +:+ s) = (repaired r, encode_rune r) :: runes s.
Proof.
  rewrite encode_repaired. pose proof (repaired_scalar r) as Hr.
  generalize dependent (repaired r). clear r. intros r Hr.
  pose proof (decode_encode r s Hr) as Hd.
  destruct (encode_rune_cons r) as (c & t & E). rewrite E in *.
  pose proof (runes_cons c (t +:+ s)) as Hc.
  change (String c t +:+ s) with (String c (t +:+ s)) in *. rewrite Hd in Hc.
  rewrite Hc. change (String c (t +:+ s)) with (String c t +:+ s).
  by rewrite str_take_app, str_drop_app.
Qed.

Lemma encode_not_invalid r : invalid_item (repaired r, encode_rune r) = false.
Proof.
  unfold invalid_item. rewrite encode_repaired. simpl.
  destruct (N.eqb_spec (repaired r) rune_error) as [->|]; [|done]. done.
Qed.

Lemma valid_strings_map f s : valid_utf8 (strings_map f s) = true.
Proof.
  unfold strings_map. induction (runes s) as [|[r t] l IH]; [done|]. simpl.
  destruct (f r) as [r'|]; simpl; [|done].
  unfold valid_utf8 in *. rewrite runes_encode_app. cbn [forallb].
  by rewrite encode_not_invalid.
Qed.

(** Encoding an ASCII rune gives its byte, any other rune gives high bytes. *)
Lemma encode_bytes r (f : ascii → bool) :
  (∀ c, ascii_byte c = false → f c = true) →
  (∀ c, byte c = r → f c = true) →
  str_forall f (encode_rune r) = true.
Proof.
  intros Hhigh Hr. unfold encode_rune.
  assert (∀ n, 0x80 <= n < 256 → f (ascii_of_N n) = true) as Hn.
  { intros n ?. apply Hhigh. unfold ascii_byte. bools. rewrite byte_of_N; lia. }
  assert (∀ q, repaired r = q → q < 0x80 → f (ascii_of_N q) = true) as Hlow.
  { unfold repaired. intros q. destruct (scalar r); intros <- ?; [|done].
    apply Hr, byte_of_N. lia. }
  fold (repaired r). pose proof (repaired_scalar r) as Hs. unfold scalar, within in Hs.
  bools_in Hs. destruct (repaired r <? 0x80) eqn:E1; bools_in E1.
  { simpl. bools. eauto. }
  repeat case_match; simpl; bools_all; split_and?; try done; apply Hn; lia.
Qed.

Lemma strings_map_bytes (g : N → option N) (f : ascii → bool) s :
  (∀ c, ascii_byte c = false → f c = true) →
  (∀ r r' c, g r = Some r' → byte c = r' → f c = true) →
  str_forall f (strings_map g s) = true.
Proof.
  intros Hhigh Hg. unfold strings_map. induction (runes s) as [|[r t] l IH]; [done|].
  simpl. rewrite str_forall_app, IH, andb_true_r.
  destruct (g r) as [r'|] eqn:E; [|done]. apply encode_bytes; eauto.
Qed.

(** A well-formed sequence is the encoding of the rune it decodes to. *)
Lemma ascii_of_byte n c : n = byte c → ascii_of_N n = c.
Proof. intros ->. apply ascii_N_embedding. Qed.

Lemma encode_decoded s r w :
  s ≠ "" → decode_rune s = (r, w) → invalid_item (r, str_take w s) = false →
  str_take w s = encode_rune r.
Proof.
  destruct s as [|a s]; [done|]. intros _ Hd. pose proof (decode_scalar _ _ _ Hd) as Hr.
  revert Hd. unfold invalid_item, encode_rune. rewrite Hr. clear Hr. simpl decode_rune.
  pose proof (byte_bound a) as Ha.
  destruct (byte a <? 0x80)%N eqn:E0.
  { intros [= <- <-] _. rewrite E0. symmetry. simpl. by rewrite ascii_N_embedding. }
  unfold within. repeat case_match; intros [= <- <-]; simpl; try done; intros _; bools_all;
    repeat match goal with H : context [N.eqb ?x ?y] |- _ => destruct (N.eqb_spec x y) end;
    try lia; ranges; unfold bytes; simpl foldr; repeat f_equal;
    symmetry; apply ascii_of_byte; lia.
Qed.

(** [strings.ToValidUTF8] and a [strings.Map] that keeps every rune leave a
    valid string alone. *)
Lemma to_valid_id s : valid_utf8 s = true → to_valid_utf8 s = s.
Proof.
  unfold valid_utf8, to_valid_utf8.
  apply (runes_ind (λ s l, forallb (λ x, negb (invalid_item x)) l = true →
    foldr (λ x acc, (if invalid_item x then "" else x.2) +:+ acc) "" l = s)); [done|].
  intros t r w _ _ _ IH. cbn [forallb foldr snd]. rewrite andb_true_iff, negb_true_iff.
  intros [-> Hv]. rewrite IH by done. apply str_take_drop.
Qed.

Lemma strings_map_valid_id f s :
  valid_utf8 s = true → (∀ x, x ∈ runes s → f x.1 = Some x.1) → strings_map f s = s.
Proof.
  unfold valid_utf8, strings_map.
  apply (runes_ind (λ s l, forallb (λ x, negb (invalid_item x)) l = true →
    (∀ x, x ∈ l → f x.1 = Some x.1) →
    foldr (λ x acc, from_option encode_rune "" (f x.1) +:+ acc) "" l = s)); [done|].
  intros t r w Hne Hd _ IH. cbn [forallb foldr]. rewrite andb_true_iff, negb_true_iff.
  intros [Hi Hv] Hf. rewrite IH; [|done|intros x Hx; apply Hf; by right].
  rewrite (Hf (r, str_take w t)) by apply list_elem_of_here. cbn [from_option fst].
  rewrite <-(encode_decoded t r w) by done. apply str_take_drop.
Qed.

(** [unicode.IsSpace] and [strings.TrimSpace]. *)
Definition is_space (r : N) : bool :=
  within 0x09 0x0D r || (r =? 0x20) || (r =? 0x85) || (r =? 0xA0) || (r =? 0x1680) ||
  within 0x2000 0x200A r || within 0x2028 0x2029 r || (r =? 0x202F) || (r =? 0x205F) ||
  (r =? 0x3000).

Fixpoint drop_spaces (l : list (N * string)) : list (N * string) :=
  match l with
  | x :: l' => if is_space x.1 then drop_spaces l' else l
  | [] => []
  end.
Definition trim_space (s : string) : string :=
  foldr (λ x acc, x.2 +:+ acc) ""
    (reverse (drop_spaces (reverse (drop_spaces (runes s))))).
