(* ===== verification/GoPath.v ===== *)
(** * Slash-separated paths

    [filepath.Clean], [filepath.IsAbs] and [filepath.Join] of Go on Unix, which
    are purely lexical, with the laws the filesystem component relies on. *)
From Stdlib Require Import Ascii.
From stdpp Require Import base strings list sets.
From S2P Require Import Prelude.
From S2P Require Import GoStrings.
From stdpp Require Import options.

Definition is_abs (p : string) : bool := has_prefix "/" p.

(** One path element on the stack of the elements kept so far, innermost
    first: an empty element and a dot go, a double dot removes the element
    before it, is dropped at the root and kept at the start of a relative path. *)
Definition clean_step (rooted : bool) (stack : list string) (x : string) : list string :=
  if bool_decide (x = "" ∨ x = ".") then stack
  else if bool_decide (x = "..") then
    match stack with
    | [] => if rooted then [] else [x]
    | top :: rest => if bool_decide (top = "..") then x :: stack else rest
    end
  else x :: stack.

Definition clean_stack (p : string) : list string :=
  foldl (clean_step (is_abs p)) [] (split_byte slash p).

(** The elements of the cleaned path, outermost first. *)
Definition path_parts (p : string) : list string := reverse (clean_stack p).

(** [filepath.Clean]. *)
Definition clean (p : string) : string :=
  let parts := path_parts p in
  if is_abs p then "/" +:+ join "/" parts
  else if bool_decide (parts = []) then "." else join "/" parts.

(** [filepath.Join]. *)
Fixpoint path_join (elems : list string) : string :=
  match elems with
  | [] => ""
  | e :: rest => if bool_decide (e = "") then path_join rest else clean (join "/" elems)
  end.

(** ** Normal stacks *)
Fixpoint normal (rooted : bool) (st : list string) : Prop :=
  match st with
  | [] => True
  | x :: st =>
      x ≠ "" ∧ x ≠ "." ∧ has_byte slash x = false ∧
      (x = ".." → rooted = false ∧ ∀ y, y ∈ st → y = "..") ∧
      normal rooted st
  end.

Lemma clean_step_normal rooted st x :
  has_byte slash x = false → normal rooted st → normal rooted (clean_step rooted st x).
Proof.
  intros Hx Hst. unfold clean_step. case_bool_decide as H1; [done|].
  case_bool_decide as H2; [subst|simpl; naive_solver].
  destruct st as [|top st].
  - destruct rooted; simpl; [done|]. split_and?; try done. set_solver.
  - destruct Hst as (?&?&?&Htop&?). case_bool_decide; [|done]. subst.
    simpl. split_and?; try done; intros _; destruct (Htop eq_refl); set_solver.
Qed.

Lemma clean_foldl_normal rooted st l :
  (∀ x, x ∈ l → has_byte slash x = false) → normal rooted st →
  normal rooted (foldl (clean_step rooted) st l).
Proof.
  revert st. induction l as [|x l IH]; intros st Hl Hst; [done|]. simpl.
  apply IH; [set_solver|]. apply clean_step_normal; set_solver.
Qed.

Lemma clean_stack_normal p : normal (is_abs p) (clean_stack p).
Proof.
  apply clean_foldl_normal; [|done]. intros x. apply split_byte_no_sep.
Qed.

(** Pushing the elements of a normal stack again rebuilds it. *)
Lemma clean_normal_id rooted st :
  normal rooted st → foldl (clean_step rooted) [] (reverse st) = st.
Proof.
  induction st as [|x st IH]; [done|]. intros (H1&H2&_&H4&Hst).
  rewrite reverse_cons, foldl_snoc, IH by done. unfold clean_step.
  rewrite bool_decide_eq_false_2 by naive_solver.
  case_bool_decide as Hx; [|done]. destruct (H4 Hx) as [-> Hall]. subst.
  destruct st as [|top st]; [done|].
  rewrite bool_decide_eq_true_2; [done|]. apply Hall. set_solver.
Qed.

Lemma normal_elem rooted st x :
  normal rooted st → x ∈ st → x ≠ "" ∧ has_byte slash x = false.
Proof.
  induction st as [|y st IH]; [by intros _ ?%elem_of_nil|].
  intros (?&?&?&?&?) [->|?]%elem_of_cons; auto.
Qed.

Lemma path_parts_elem p x : x ∈ path_parts p → x ≠ "" ∧ has_byte slash x = false.
Proof.
  unfold path_parts. rewrite elem_of_reverse. apply normal_elem with (is_abs p).
  apply clean_stack_normal.
Qed.

Lemma is_abs_cons c s : is_abs (String c s) = bool_decide (c = slash).
Proof.
  apply bool_iff. unfold is_abs. rewrite has_prefix_iff, bool_decide_eq_true.
  split; [by intros (? & [= -> _])|]. intros ->. by exists s.
Qed.

Lemma split_abs p : split_byte slash ("/" +:+ p) = "" :: split_byte slash p.
Proof. done. Qed.

Lemma split_join_parts p :
  path_parts p ≠ [] → split_byte slash (join "/" (path_parts p)) = path_parts p.
Proof. intros Hne. apply (split_join slash); [done|]. apply path_parts_elem. Qed.

Lemma clean_abs p : is_abs (clean p) = is_abs p.
Proof.
  unfold clean. destruct (is_abs p) eqn:E; [apply has_prefix_app|]. case_bool_decide as Hp; [done|].
  destruct (path_parts p) as [|x l] eqn:El; [done|].
  destruct (path_parts_elem p x) as [Hx Hs]; [rewrite El; set_solver|].
  destruct x as [|c x]; [done|].
  assert (∃ t, join "/" (String c x :: l) = String c t) as (t & ->).
  { unfold join. destruct l; simpl; eauto. }
  rewrite is_abs_cons. rewrite has_byte_cons in Hs. bools_in Hs.
  apply bool_decide_eq_false_2. naive_solver.
Qed.

Lemma path_parts_clean p : path_parts (clean p) = path_parts p.
Proof.
  unfold path_parts at 1, clean_stack. rewrite clean_abs.
  pose proof (clean_stack_normal p) as Hn.
  assert (foldl (clean_step (is_abs p)) [] (path_parts p) = clean_stack p) as Hid
    by by apply clean_normal_id.
  enough (foldl (clean_step (is_abs p)) [] (split_byte slash (clean p)) = clean_stack p)
    as -> by done.
  unfold clean. destruct (decide (path_parts p = [])) as [E|E].
  - rewrite E in *. destruct (is_abs p); simpl; rewrite <-Hid; done.
  - destruct (is_abs p).
    + rewrite split_abs, split_join_parts by done. cbn [foldl].
      exact Hid.
    + rewrite bool_decide_eq_false_2, split_join_parts by done. exact Hid.
Qed.

(** Cleaning is idempotent. *)
Lemma clean_idemp p : clean (clean p) = clean p.
Proof. unfold clean at 1. rewrite clean_abs, path_parts_clean. by unfold clean. Qed.

Lemma clean_abs_eq p :
  is_abs p = true → clean p = "/" +:+ join "/" (path_parts p).
Proof. unfold clean. by intros ->. Qed.

(** An absolute clean path is determined by its elements. *)
Lemma clean_parts_inj p q :
  is_abs p = true → is_abs q = true → path_parts p = path_parts q → clean p = clean q.
Proof. intros. rewrite !clean_abs_eq by done. congruence. Qed.

(** No element of an absolute path is a double dot. *)
Lemma abs_parts_no_dotdot p x :
  is_abs p = true → x ∈ path_parts p → x ≠ ".." ∧ x ≠ ".".
Proof.
  intros Ha. unfold path_parts. rewrite elem_of_reverse.
  pose proof (clean_stack_normal p) as Hn. rewrite Ha in Hn. revert Hn.
  induction (clean_stack p) as [|y st IH]; [by intros _ ?%elem_of_nil|].
  intros (?&?&?&Hdd&?) [->|?]%elem_of_cons; [|auto].
  split; [|done]. intros ->. by destruct (Hdd eq_refl).
Qed.

(** ** Containment

    The string test [strings.HasPrefix(path, dir + "/")] on clean absolute
    paths is containment of the path's elements. *)
Lemma join_parts_app l1 l2 :
  l1 ≠ [] → l2 ≠ [] → join "/" (l1 ++ l2) = join "/" l1 +:+ "/" +:+ join "/" l2.
Proof.
  induction l1 as [|x [|y l1] IH]; intros H1 H2; [done| |].
  - destruct l2; [done|]. done.
  - change (join "/" ((x :: y :: l1) ++ l2)) with
      (x +:+ ("/" +:+ join "/" ((y :: l1) ++ l2))).
    rewrite IH by done.
    change (join "/" (x :: y :: l1)) with (x +:+ ("/" +:+ join "/" (y :: l1))).
    by autorewrite with strs.
Qed.

Lemma inside_parts dir p :
  is_abs dir = true → is_abs p = true → path_parts dir ≠ [] →
  has_prefix (clean dir +:+ "/") (clean p) = true ↔
    ∃ rest, rest ≠ [] ∧ path_parts p = path_parts dir ++ rest.
Proof.
  intros Hd Hp Hne. rewrite has_prefix_iff, !clean_abs_eq by done. split.
  - intros (t & Ht). autorewrite with strs in Ht. simpl in Ht. injection Ht as Ht.
    destruct (decide (path_parts p = [])) as [E|E].
    { exfalso. rewrite E in Ht. simpl in Ht.
      destruct (join "/" (path_parts dir)); by simpl in Ht. }
    pose proof (f_equal (split_byte slash) Ht) as Hs.
    rewrite split_join_parts in Hs by done.
    exists (split_byte slash t).
    destruct (split_byte_cons slash t) as (h & t' & Et). split; [by rewrite Et|].
    rewrite Hs. clear -Hne. pose proof (path_parts_elem dir) as He. revert Hne He.
    induction (path_parts dir) as [|x [|y l] IH]; intros Hne He; [done| |].
    + change (join "/" [x] +:+ "/" +:+ t) with (x +:+ String slash t).
      by rewrite split_byte_app by (apply He; set_solver).
    + change (join "/" (x :: y :: l)) with (x +:+ String slash (join "/" (y :: l))).
      autorewrite with strs. simpl.
      rewrite split_byte_app by (apply He; set_solver). simpl in IH.
      f_equal. apply IH; [done|]. set_solver.
  - intros (rest & Hr & ->). exists (join "/" rest).
    rewrite join_parts_app by done. by autorewrite with strs.
Qed.

(** ** Appending a relative path *)
Lemma split_byte_app_sep c s1 s2 :
  split_byte c (s1 +:+ String c s2) = split_byte c s1 ++ split_byte c s2.
Proof.
  induction s1 as [|a s1 IH]; simpl; [by rewrite bool_decide_eq_true_2|].
  rewrite IH. case_bool_decide; [done|].
  destruct (split_byte_cons c s1) as (h & t & ->). done.
Qed.

(** Elements that are neither empty nor dots are pushed. *)
Lemma clean_foldl_push rooted st l :
  (∀ x, x ∈ l → x ≠ "" ∧ x ≠ "." ∧ x ≠ "..") →
  foldl (clean_step rooted) st l = reverse l ++ st.
Proof.
  revert st. induction l as [|x l IH]; intros st Hl; [done|]. simpl.
  rewrite IH by set_solver. rewrite reverse_cons, <-(assoc_L (++)). f_equal.
  destruct (Hl x) as (?&?&?); [set_solver|]. unfold clean_step.
  by rewrite !bool_decide_eq_false_2 by naive_solver.
Qed.

Lemma normal_dotdot_last rooted st :
  normal rooted st → ".." ∈ st → last st = Some "..".
Proof.
  induction st as [|x st IH]; [by intros _ ?%elem_of_nil|].
  intros (?&?&?&Hx&Hst) Hin. destruct st as [|y st].
  - apply list_elem_of_singleton in Hin. by subst.
  - rewrite last_cons_cons. apply IH; [done|].
    apply elem_of_cons in Hin as [<-|?]; [|done].
    destruct (Hx eq_refl) as [_ Hall]. rewrite (Hall y) by set_solver. set_solver.
Qed.

(** A clean relative path that is not a double dot and does not start with one
    holds no double dot. *)
Lemma clean_rel_no_dotdot p x :
  clean p = p → is_abs p = false → p ≠ ".." → has_prefix "../" p = false →
  x ∈ path_parts p → x ≠ "" ∧ x ≠ "." ∧ x ≠ "..".
Proof.
  intros Hc Ha Hne Hpre Hx. pose proof (clean_stack_normal p) as Hn. rewrite Ha in Hn.
  assert (".." ∉ path_parts p) as Hdd.
  { intros Hin. unfold path_parts in Hin. rewrite elem_of_reverse in Hin.
    apply normal_dotdot_last with (rooted := false) in Hin; [|done].
    destruct (path_parts p) as [|h t] eqn:E.
    { unfold path_parts in E. apply (f_equal reverse) in E.
      rewrite reverse_involutive in E. by rewrite E in Hin. }
    assert (h = "..") as ->.
    { unfold path_parts in E. apply (f_equal reverse) in E.
      rewrite reverse_involutive, reverse_cons in E. rewrite E, last_snoc in Hin.
      by injection Hin. }
    unfold clean in Hc. rewrite Ha, E, bool_decide_eq_false_2 in Hc by done.
    destruct t as [|h' t]; [by rewrite <-Hc in Hne|].
    rewrite <-not_true_iff_false in Hpre. apply Hpre, has_prefix_iff.
    exists (join "/" (h' :: t)). rewrite <-Hc. done. }
  destruct (path_parts_elem p x Hx) as [? _]. split_and!; [done| |naive_solver].
  revert Hx. unfold path_parts. rewrite elem_of_reverse. revert Hn.
  clear. induction (clean_stack p) as [|y st IH]; [by intros _ ?%elem_of_nil|].
  intros (?&?&?&?&?) [->|?]%elem_of_cons; auto.
Qed.

Lemma clean_rel_split p :
  clean p = p → is_abs p = false → p ≠ "." → split_byte slash p = path_parts p.
Proof.
  intros Hc Ha Hdot. unfold clean in Hc. rewrite Ha in Hc.
  case_bool_decide as E; [naive_solver|].
  rewrite <-Hc at 1. by apply split_join_parts.
Qed.

(** Joining such a path below an absolute directory appends its elements. *)
Lemma join_below dir p :
  is_abs dir = true → clean p = p → is_abs p = false → p ≠ "" → p ≠ "." → p ≠ ".." →
  has_prefix "../" p = false →
  is_abs (path_join [dir; p]) = true ∧
  clean (path_join [dir; p]) = path_join [dir; p] ∧
  path_parts (path_join [dir; p]) = path_parts dir ++ path_parts p.
Proof.
  intros Hd Hc Ha Hne Hdot Hdd Hpre. simpl.
  rewrite bool_decide_eq_false_2 by (by intros ->).
  change (join "/" [dir; p]) with (dir +:+ String slash p).
  assert (is_abs (dir +:+ String slash p) = true) as Habs.
  { apply has_prefix_iff in Hd as (t & ->). apply has_prefix_iff.
    exists (t +:+ String slash p). by autorewrite with strs. }
  rewrite clean_abs, clean_idemp, path_parts_clean. split_and!; [done..|].
  unfold path_parts, clean_stack. rewrite Habs, split_byte_app_sep, foldl_app.
  pose proof (clean_rel_split p Hc Ha Hdot) as Hs. rewrite Hs.
  rewrite clean_foldl_push by (intros x; by apply clean_rel_no_dotdot).
  rewrite reverse_app. fold (clean_stack p). rewrite Hd. f_equal.
  rewrite reverse_involutive. by rewrite <-Hs at 2.
Qed.

#[global] Arguments path_join : simpl never.
