(* ===== verification/DBusPolicy.v ===== *)
(** * Session bus policies ([pkg/types/dbus.go])

    The filtered session bus an application may reach: the method calls it may
    make and the names it may own.  The file models validation, the two
    permission tests, the comparison, the intersection and the canonical form. *)
From Stdlib Require Import Ascii.
From stdpp Require Import base strings list gmap sorting.
From S2P Require Import Prelude.
From S2P Require Import GoStrings.
From S2P Require Import Regex.
From stdpp Require Import options.

(** ** Data *)
Record DBusCallGrant : Type := mkCall {
  dc_name : string;
  dc_path : string;
  dc_interface : string;
  dc_members : list string
}.
Record DBusPolicy : Type := mkPolicy {
  dp_talk : list DBusCallGrant;
  dp_own : list string
}.
#[export] Instance call_eq_dec : EqDecision DBusCallGrant.
Proof. solve_decision. Defined.
#[export] Instance policy_eq_dec : EqDecision DBusPolicy.
Proof. solve_decision. Defined.

Definition no_policy : DBusPolicy := mkPolicy [] [].

(** The error sites of [ValidateDBusPolicy], in the order of the code. *)
Inductive dbus_error : Type :=
  | DTooLarge
  | DOwnName (name : string)
  | DOwnTwice (name : string)
  | DDestination (name : string)
  | DPath (path : string)
  | DInterface (interface : string)
  | DMemberCount (name : string)
  | DMember (member : string)
  | DMemberTwice (member : string)
  | DRuleTwice (name path interface : string).

(** ** Patterns *)
Definition word_first : regex := RSet [("A", "Z"); ("a", "z"); ("_", "_")]%char.
Definition word : regex := RSet [("A", "Z"); ("a", "z"); ("0", "9"); ("_", "_")]%char.
Definition word_dash : regex :=
  RSet [("A", "Z"); ("a", "z"); ("0", "9"); ("_", "_"); ("-", "-")]%char.
Definition word_path : regex := RSet [("A", "Z"); ("a", "z"); ("0", "9"); ("_", "_")]%char.

Definition dbusNamePattern : regex :=
  RSeq (RSeq word_first (RStar word_dash))
       (RPlus (RSeq (RChar ".") (RSeq word_first (RStar word_dash)))).
Definition dbusInterfacePattern : regex :=
  RSeq (RSeq word_first (RStar word))
       (RPlus (RSeq (RChar ".") (RSeq word_first (RStar word)))).
Definition dbusMemberPattern : regex := RSeq word_first (RStar word).
Definition dbusPathPattern : regex :=
  RSeq (RChar "/")
    (ROpt (RSeq (RPlus word_path) (RStar (RSeq (RChar "/") (RPlus word_path))))).

(** ** Operations *)
Definition Enabled (p : DBusPolicy) : bool :=
  bool_decide (dp_talk p ≠ []) || bool_decide (dp_own p ≠ []).

Definition validDBusName (name : string) : bool :=
  (slen name <=? 255) && matches dbusNamePattern name.

(** The key a rule is declared once under. *)
Definition rule_key (r : DBusCallGrant) : string :=
  dc_name r +:+ nul +:+ dc_path r +:+ nul +:+ dc_interface r.

Definition validate_member (member : string) : result dbus_error unit :=
  check_that ((slen member <=? 255) && matches dbusMemberPattern member) (DMember member).

(** One iteration of the loop over the rules, up to the duplicate check. *)
Definition validate_rule (r : DBusCallGrant) : result dbus_error unit :=
  check_that (validDBusName (dc_name r)) (DDestination (dc_name r)) ;;;
  check_that ((slen (dc_path r) <=? 255) && matches dbusPathPattern (dc_path r))
    (DPath (dc_path r)) ;;;
  check_that ((slen (dc_interface r) <=? 255) &&
    matches dbusInterfacePattern (dc_interface r)) (DInterface (dc_interface r)) ;;;
  refuse_if ((length (dc_members r) =? 0) || (64 <? length (dc_members r)))
    (DMemberCount (dc_name r)) ;;;
  for_seen id validate_member (λ _, Ok tt) DMemberTwice ∅ (dc_members r).

Definition ValidateDBusPolicy (p : DBusPolicy) : result dbus_error unit :=
  refuse_if ((64 <? length (dp_talk p)) || (32 <? length (dp_own p))) DTooLarge ;;;
  for_seen id (λ name, check_that (validDBusName name) (DOwnName name))
    (λ _, Ok tt) DOwnTwice ∅ (dp_own p) ;;;
  for_seen rule_key validate_rule (λ _, Ok tt)
    (λ r, DRuleTwice (dc_name r) (dc_path r) (dc_interface r)) ∅ (dp_talk p).

Definition AllowsCall (p : DBusPolicy) (name path interface member : string) : bool :=
  existsb (λ r,
    bool_decide (dc_name r = name) && bool_decide (dc_path r = path) &&
    bool_decide (dc_interface r = interface) &&
    existsb (λ allowed, bool_decide (allowed = member)) (dc_members r)) (dp_talk p).

Definition AllowsOwn (p : DBusPolicy) (name : string) : bool :=
  existsb (λ allowed, bool_decide (allowed = name)) (dp_own p).

Definition DBusPolicyRestricts (current candidate : DBusPolicy) : bool :=
  forallb (AllowsOwn current) (dp_own candidate) &&
  forallb (λ r, forallb
    (AllowsCall current (dc_name r) (dc_path r) (dc_interface r)) (dc_members r))
    (dp_talk candidate).

Definition rule_le (r1 r2 : DBusCallGrant) : Prop := String.le (rule_key r1) (rule_key r2).
#[export] Instance rule_le_dec : RelDecision rule_le := λ r1 r2, String.le_dec _ _.

Definition sort_members (r : DBusCallGrant) : DBusCallGrant :=
  mkCall (dc_name r) (dc_path r) (dc_interface r) (sort_strings (dc_members r)).

(** [sort.Slice] orders the rules by their keys.  The algorithm is not stable,
    but two rules of a valid policy never share a key ([rule_key_inj]). *)
Definition CanonicalDBusPolicy (p : DBusPolicy) : DBusPolicy :=
  mkPolicy (merge_sort rule_le (sort_members <$> dp_talk p)) (sort_strings (dp_own p)).

(** The rule the two policies share, kept when a member is left. *)
Definition shared_rule (right : DBusPolicy) (r : DBusCallGrant) : DBusCallGrant :=
  mkCall (dc_name r) (dc_path r) (dc_interface r)
    (filter (λ m, AllowsCall right (dc_name r) (dc_path r) (dc_interface r) m = true)
      (dc_members r)).

Definition IntersectDBusPolicies (left right : DBusPolicy) : DBusPolicy :=
  CanonicalDBusPolicy (mkPolicy
    (filter (λ r, dc_members r ≠ []) (shared_rule right <$> dp_talk left))
    (filter (λ name, AllowsOwn right name = true) (dp_own left))).

(** ** What the tests mean *)
Lemma AllowsOwn_iff p name : AllowsOwn p name = true ↔ name ∈ dp_own p.
Proof.
  unfold AllowsOwn. rewrite existsb_elem. setoid_rewrite bool_decide_eq_true.
  naive_solver.
Qed.

Definition grants (p : DBusPolicy) (name path interface member : string) : Prop :=
  ∃ r, r ∈ dp_talk p ∧ dc_name r = name ∧ dc_path r = path ∧
    dc_interface r = interface ∧ member ∈ dc_members r.

Lemma AllowsCall_iff p n pa i m : AllowsCall p n pa i m = true ↔ grants p n pa i m.
Proof.
  unfold AllowsCall, grants. rewrite existsb_elem. setoid_rewrite andb_true_iff.
  setoid_rewrite andb_true_iff. setoid_rewrite andb_true_iff.
  setoid_rewrite existsb_elem. setoid_rewrite bool_decide_eq_true. naive_solver.
Qed.

(** The specification of the comparison: everything the candidate permits, the
    current policy permits. *)
Definition narrower (current candidate : DBusPolicy) : Prop :=
  (∀ name, AllowsOwn candidate name = true → AllowsOwn current name = true) ∧
  (∀ n pa i m, AllowsCall candidate n pa i m = true → AllowsCall current n pa i m = true).

Lemma restricts_narrower current candidate :
  DBusPolicyRestricts current candidate = true ↔ narrower current candidate.
Proof.
  unfold DBusPolicyRestricts, narrower. bools.
  setoid_rewrite (AllowsOwn_iff candidate). setoid_rewrite (AllowsCall_iff candidate).
  setoid_rewrite forallb_elem. unfold grants. naive_solver.
Qed.

#[export] Instance narrower_preorder : PreOrder narrower.
Proof. split; [done|]. intros p q r [H1 H2] [H3 H4]. split; naive_solver. Qed.

(** ** Canonical form *)
Lemma canonical_own p name : AllowsOwn (CanonicalDBusPolicy p) name = AllowsOwn p name.
Proof. apply bool_iff. by rewrite !AllowsOwn_iff; simpl; rewrite sort_strings_elem. Qed.

Lemma canonical_call p n pa i m :
  AllowsCall (CanonicalDBusPolicy p) n pa i m = AllowsCall p n pa i m.
Proof.
  apply bool_iff. rewrite !AllowsCall_iff. unfold grants. simpl.
  setoid_rewrite merge_sort_Permutation. setoid_rewrite list_elem_of_fmap. split.
  - intros (r & (r' & -> & ?) & Hr). simpl in Hr. rewrite sort_strings_elem in Hr. eauto.
  - intros (r & ? & Hr). exists (sort_members r). simpl.
    rewrite sort_strings_elem. eauto.
Qed.

(** ** Validation as a proposition *)
Record valid_rule (r : DBusCallGrant) : Prop := {
  vr_name : slen (dc_name r) ≤ 255 ∧ matches dbusNamePattern (dc_name r) = true;
  vr_path : slen (dc_path r) ≤ 255 ∧ matches dbusPathPattern (dc_path r) = true;
  vr_interface : slen (dc_interface r) ≤ 255 ∧
    matches dbusInterfacePattern (dc_interface r) = true;
  vr_count : 0 < length (dc_members r) ≤ 64;
  vr_members : ∀ m, m ∈ dc_members r → slen m ≤ 255 ∧ matches dbusMemberPattern m = true;
  vr_unique : NoDup (dc_members r)
}.
Record valid_policy (p : DBusPolicy) : Prop := {
  vp_talk : length (dp_talk p) ≤ 64;
  vp_own : length (dp_own p) ≤ 32;
  vp_names : ∀ name, name ∈ dp_own p →
    slen name ≤ 255 ∧ matches dbusNamePattern name = true;
  vp_names_unique : NoDup (dp_own p);
  vp_rules : ∀ r, r ∈ dp_talk p → valid_rule r;
  vp_rules_unique : NoDup (rule_key <$> dp_talk p)
}.

Lemma validDBusName_iff name :
  validDBusName name = true ↔ slen name ≤ 255 ∧ matches dbusNamePattern name = true.
Proof. unfold validDBusName. by bools. Qed.

Lemma validate_member_ok m u :
  validate_member m = Ok u ↔ slen m ≤ 255 ∧ matches dbusMemberPattern m = true.
Proof. unfold validate_member. by bools. Qed.

Lemma validate_rule_ok r u : validate_rule r = Ok u ↔ valid_rule r.
Proof.
  unfold validate_rule. rewrite !bind_unit_ok, !check_that_ok, refuse_if_ok, for_seen_ok,
    list_fmap_id, orb_false_iff, Nat.eqb_neq, Nat.ltb_ge, validDBusName_iff,
    !andb_true_iff, !Nat.leb_le.
  setoid_rewrite validate_member_ok. split.
  - intros (?&?&?&?&Hm&?). split; try done; [lia|]. intros m Hin. by apply Hm.
  - intros [[] [] [] ? Hm ?]. split_and!; try done; try lia; intros m Hin;
      split; [by apply Hm|set_solver].
Qed.

Lemma validate_policy_ok p u : ValidateDBusPolicy p = Ok u ↔ valid_policy p.
Proof.
  unfold ValidateDBusPolicy. rewrite !bind_unit_ok, refuse_if_ok, !for_seen_ok,
    list_fmap_id, orb_false_iff, !Nat.ltb_ge.
  setoid_rewrite check_that_ok. setoid_rewrite validDBusName_iff.
  setoid_rewrite validate_rule_ok. split.
  - intros (?&[Hn ?]&[Hr ?]). split; try lia; try done; intros x Hx; [by apply Hn|by apply Hr].
  - intros [? ? Hn ? Hr ?]. split_and!; try done; try lia; intros x Hx;
      split_and?; auto; set_solver.
Qed.

(** ** Rule keys are injective on valid rules *)
Notation nul_byte := "000"%char (only parsing).

Lemma name_no_nul s : matches dbusNamePattern s = true → has_byte nul_byte s = false.
Proof. apply matches_lacks. by_bytes. Qed.
Lemma path_no_nul s : matches dbusPathPattern s = true → has_byte nul_byte s = false.
Proof. apply matches_lacks. by_bytes. Qed.
Lemma interface_no_nul s :
  matches dbusInterfacePattern s = true → has_byte nul_byte s = false.
Proof. apply matches_lacks. by_bytes. Qed.

Lemma split_rule_key r :
  valid_rule r →
  split_byte nul_byte (rule_key r) = [dc_name r; dc_path r; dc_interface r].
Proof.
  intros [[_ ?%name_no_nul] [_ ?%path_no_nul] [_ ?%interface_no_nul] _ _ _].
  unfold rule_key, nul. simpl.
  rewrite split_byte_app, split_byte_app, split_byte_none by done. done.
Qed.

Lemma rule_key_inj r1 r2 :
  valid_rule r1 → valid_rule r2 → rule_key r1 = rule_key r2 →
  dc_name r1 = dc_name r2 ∧ dc_path r1 = dc_path r2 ∧ dc_interface r1 = dc_interface r2.
Proof.
  intros H1 H2 E. apply (f_equal (split_byte nul_byte)) in E.
  rewrite !split_rule_key in E by done. naive_solver.
Qed.

(** ** The canonical order *)
#[export] Instance rule_le_total : Total rule_le.
Proof. intros r1 r2. unfold rule_le. apply (total String.le). Qed.
#[export] Instance rule_le_trans : Transitive rule_le.
Proof. intros r1 r2 r3. unfold rule_le. apply (transitivity (R := String.le)). Qed.

Lemma sort_rules_unique l1 l2 :
  l1 ≡ₚ l2 → NoDup (rule_key <$> l1) → merge_sort rule_le l1 = merge_sort rule_le l2.
Proof.
  intros Hp Hnd.
  apply (StronglySorted_unique_strong rule_le);
    [|apply StronglySorted_merge_sort; apply _..|by rewrite !merge_sort_Permutation].
  intros r1 r2. rewrite merge_sort_Permutation, (merge_sort_Permutation _ l2), <-Hp.
  intros [i Hi]%list_elem_of_lookup [j Hj]%list_elem_of_lookup Hle1 Hle2.
  assert (rule_key r1 = rule_key r2) as Hk by by apply (anti_symm String.le).
  assert (i = j) as ->.
  { eapply NoDup_lookup; [exact Hnd| |]; rewrite list_lookup_fmap;
      [by rewrite Hi|]. rewrite Hj. simpl. by rewrite Hk. }
  congruence.
Qed.

(** Two policies that differ in the order of their lists only. *)
Definition same_rule (r1 r2 : DBusCallGrant) : Prop :=
  dc_name r1 = dc_name r2 ∧ dc_path r1 = dc_path r2 ∧
  dc_interface r1 = dc_interface r2 ∧ dc_members r1 ≡ₚ dc_members r2.
Definition same_policy (p q : DBusPolicy) : Prop :=
  dp_own p ≡ₚ dp_own q ∧ ∃ l, dp_talk p ≡ₚ l ∧ Forall2 same_rule l (dp_talk q).

Lemma sort_members_same l1 l2 :
  Forall2 same_rule l1 l2 → sort_members <$> l1 = sort_members <$> l2.
Proof.
  induction 1 as [|r1 r2 l1 l2 (Hn & Hp & Hi & Hm)]; [done|]. simpl. f_equal; [|done].
  unfold sort_members. by rewrite Hn, Hp, Hi, Hm.
Qed.

Lemma sort_members_key r : rule_key (sort_members r) = rule_key r.
Proof. done. Qed.

Lemma sort_members_keys (l : list DBusCallGrant) :
  rule_key <$> (sort_members <$> l) = rule_key <$> l.
Proof. rewrite <-list_fmap_compose. by apply list_fmap_ext. Qed.

Lemma sort_members_idemp r : sort_members (sort_members r) = sort_members r.
Proof. unfold sort_members. simpl. by rewrite sort_strings_idemp. Qed.

Lemma canonical_same p q :
  NoDup (rule_key <$> dp_talk p) → same_policy p q →
  CanonicalDBusPolicy p = CanonicalDBusPolicy q.
Proof.
  intros Hnd (Hown & l & Hp & Hl). unfold CanonicalDBusPolicy.
  rewrite Hown. f_equal. rewrite <-(sort_members_same _ _ Hl).
  apply sort_rules_unique; [by rewrite Hp|]. by rewrite sort_members_keys.
Qed.

Lemma same_policy_keys p q :
  same_policy p q → rule_key <$> dp_talk p ≡ₚ rule_key <$> dp_talk q.
Proof.
  intros (_ & l & -> & HF). enough (rule_key <$> l = rule_key <$> dp_talk q) as -> by done.
  induction HF as [|r1 r2 l1 l2 (Hn & Hp & Hi & _)]; [done|]. simpl.
  f_equal; [|done]. unfold rule_key. congruence.
Qed.

Lemma canonical_same_policy p : same_policy (CanonicalDBusPolicy p) p.
Proof.
  split; [apply sort_strings_perm|].
  exists (sort_members <$> dp_talk p). split; [apply merge_sort_Permutation|].
  induction (dp_talk p) as [|r l IH]; constructor; [|done].
  split_and!; try done. apply sort_strings_perm.
Qed.

Lemma canonical_keys p :
  rule_key <$> dp_talk (CanonicalDBusPolicy p) ≡ₚ rule_key <$> dp_talk p.
Proof. simpl. by rewrite merge_sort_Permutation, sort_members_keys. Qed.

(** Sorting the members of a rule or the lists of a policy keeps it valid. *)
Lemma sort_members_valid r : valid_rule r → valid_rule (sort_members r).
Proof.
  intros [? ? ? ? Hm ?]. split; simpl; try done; rewrite ?sort_strings_perm; try done.
  intros m. rewrite sort_strings_elem. apply Hm.
Qed.

Lemma canonical_valid p : valid_policy p → valid_policy (CanonicalDBusPolicy p).
Proof.
  intros [Ht Ho Hn Hnd Hr Hk].
  split; rewrite ?canonical_keys; simpl; rewrite ?sort_strings_perm, ?merge_sort_Permutation;
    try done.
  - by rewrite length_fmap.
  - intros name. rewrite sort_strings_elem. apply Hn.
  - intros r. rewrite merge_sort_Permutation, list_elem_of_fmap.
    intros (r' & -> & ?). apply sort_members_valid. auto.
Qed.

(** ** Intersection *)
Lemma shared_rule_members right r m :
  m ∈ dc_members (shared_rule right r) ↔
    m ∈ dc_members r ∧
    AllowsCall right (dc_name r) (dc_path r) (dc_interface r) m = true.
Proof. simpl. rewrite list_elem_of_filter. naive_solver. Qed.

Lemma intersect_call left right n pa i m :
  AllowsCall (IntersectDBusPolicies left right) n pa i m =
  AllowsCall left n pa i m && AllowsCall right n pa i m.
Proof.
  unfold IntersectDBusPolicies. rewrite canonical_call. apply bool_iff.
  rewrite andb_true_iff, !(AllowsCall_iff left), AllowsCall_iff. unfold grants. simpl.
  setoid_rewrite list_elem_of_filter. setoid_rewrite list_elem_of_fmap. split.
  - intros (r & (_ & r' & -> & ?) & <- & <- & <- & Hm).
    apply shared_rule_members in Hm as [??]. eauto 10.
  - intros [(r & ? & <- & <- & <- & ?) Hr].
    assert (m ∈ dc_members (shared_rule right r)) by by apply shared_rule_members.
    exists (shared_rule right r). split_and!; try done; [|by eauto].
    intros E. rewrite E in *. set_solver.
Qed.

Lemma intersect_own left right name :
  AllowsOwn (IntersectDBusPolicies left right) name =
  AllowsOwn left name && AllowsOwn right name.
Proof.
  unfold IntersectDBusPolicies. rewrite canonical_own. apply bool_iff.
  rewrite andb_true_iff, (AllowsOwn_iff left), AllowsOwn_iff. simpl.
  rewrite list_elem_of_filter. naive_solver.
Qed.

Lemma shared_rule_valid right r :
  valid_rule r → dc_members (shared_rule right r) ≠ [] → valid_rule (shared_rule right r).
Proof.
  intros [? ? ? ? Hm ?] Hne. split; try done.
  - split; [|etrans; [apply length_filter|lia]].
    destruct (dc_members (shared_rule right r)); [done|simpl; lia].
  - intros m [? _]%shared_rule_members. auto.
  - by apply NoDup_filter.
Qed.

Lemma intersect_valid_policy left right :
  valid_policy left → valid_policy (IntersectDBusPolicies left right).
Proof.
  intros [Ht Ho Hn Hnd Hr Hk]. apply canonical_valid. split; simpl.
  - etrans; [apply length_filter|]. by rewrite length_fmap.
  - etrans; [apply length_filter|done].
  - intros name. rewrite list_elem_of_filter. naive_solver.
  - by apply NoDup_filter.
  - intros r. rewrite list_elem_of_filter, list_elem_of_fmap.
    intros (Hne & r' & -> & ?). apply shared_rule_valid; auto.
  - clear -Hk. induction (dp_talk left) as [|r l IH]; [constructor|].
    simpl in *. apply NoDup_cons in Hk as [Hr Hl]. rewrite filter_cons.
    case_decide; [|auto]. simpl. constructor; [|auto].
    change (rule_key (shared_rule right r)) with (rule_key r). contradict Hr.
    rewrite list_elem_of_fmap in *. destruct Hr as (x & -> & Hx).
    apply list_elem_of_filter in Hx as [_ Hx].
    apply list_elem_of_fmap in Hx as (y & -> & Hy). by exists y.
Qed.

(** ** Properties *)

(** The intersection of two session bus policies permits exactly the calls
    and the names both permit, and is the widest policy that restricts both. *)
Theorem dbus_intersection_meet left right :
  let both := IntersectDBusPolicies left right in
  (∀ n pa i m, AllowsCall both n pa i m = AllowsCall left n pa i m && AllowsCall right n pa i m) ∧
  (∀ name, AllowsOwn both name = AllowsOwn left name && AllowsOwn right name) ∧
  (∀ candidate, DBusPolicyRestricts both candidate =
     DBusPolicyRestricts left candidate && DBusPolicyRestricts right candidate).
Proof.
  split_and!; [apply intersect_call|apply intersect_own|].
  intros q. apply bool_iff. rewrite andb_true_iff, !restricts_narrower.
  unfold narrower. setoid_rewrite intersect_call. setoid_rewrite intersect_own.
  setoid_rewrite andb_true_iff. naive_solver.
Qed.

(** A policy [ValidateDBusPolicy] accepts stays acceptable when it is
    intersected with any other policy: the bounds, the patterns, the member
    counts and the declared-once rules all survive. *)
Theorem dbus_intersection_valid left right :
  ValidateDBusPolicy left = Ok tt →
  ValidateDBusPolicy (IntersectDBusPolicies left right) = Ok tt.
Proof. rewrite !validate_policy_ok. apply intersect_valid_policy. Qed.

Definition bus_example : DBusPolicy :=
  mkPolicy
    [mkCall "org.example.Player" "/org/example/Player" "org.example.Player" ["Stop"; "Play"];
     mkCall "org.example.Files" "/" "org.example.Files" ["Open"]]
    ["org.example.App"; "org.example.App-2"].

Lemma dbus_intersection_valid_witness :
  ValidateDBusPolicy (IntersectDBusPolicies bus_example
    (mkPolicy [mkCall "org.example.Player" "/org/example/Player" "org.example.Player" ["Play"]]
      [])) = Ok tt.
Proof. apply dbus_intersection_valid. vm_compute. reflexivity. Defined.

(** The canonical form of a valid policy depends on what it grants only:
    reordering names, rules or members gives the same canonical policy, which
    is valid, is its own canonical form and grants what the policy grants. *)
Theorem dbus_canonical_form p q :
  ValidateDBusPolicy p = Ok tt → same_policy p q →
  let c := CanonicalDBusPolicy p in
  CanonicalDBusPolicy q = c ∧ ValidateDBusPolicy c = Ok tt ∧
  CanonicalDBusPolicy c = c ∧ DBusPolicyRestricts c p = true ∧ DBusPolicyRestricts p c = true.
Proof.
  rewrite validate_policy_ok. intros Hv Hs. pose proof (vp_rules_unique p Hv) as Hk.
  split_and!.
  - symmetry. by apply canonical_same.
  - apply validate_policy_ok. by apply canonical_valid.
  - apply canonical_same; [by rewrite canonical_keys|]. apply canonical_same_policy.
  - apply restricts_narrower. split; intros *; by rewrite ?canonical_own, ?canonical_call.
  - apply restricts_narrower. split; intros *; by rewrite ?canonical_own, ?canonical_call.
Qed.

Lemma dbus_canonical_form_witness :
  CanonicalDBusPolicy (mkPolicy (reverse (dp_talk bus_example)) (reverse (dp_own bus_example)))
  = CanonicalDBusPolicy bus_example.
Proof.
  apply (dbus_canonical_form bus_example).
  - vm_compute. reflexivity.
  - split; [symmetry; apply reverse_Permutation|].
    exists (reverse (dp_talk bus_example)). split; [symmetry; apply reverse_Permutation|].
    repeat constructor.
Defined.
