(* ===== verification/HostActions.v ===== *)
(** * Host action grants ([pkg/types/host_action.go])

    The typed host service capabilities of an application: validation, the set
    of capabilities of a provider and the intersection of a parent's grants with
    the ones a nested application asks for. *)
From stdpp Require Import base strings list gmap.
From S2P Require Import Prelude.
From S2P Require Import GoStrings.
From stdpp Require Import options.

Record HostActionGrant : Type := mkAction {
  ha_provider : string;
  ha_capabilities : list string
}.
#[export] Instance action_eq_dec : EqDecision HostActionGrant.
Proof. solve_decision. Defined.

Definition HostActionProviderContainers : string := "containers".
Definition HostActionContainersRead : string := "read".
Definition HostActionContainersManageOwned : string := "manage-owned".
Definition HostActionContainersExecOwned : string := "exec-owned".

Definition validContainerCapability (capability : string) : bool :=
  bool_decide (capability = HostActionContainersRead) ||
  bool_decide (capability = HostActionContainersManageOwned) ||
  bool_decide (capability = HostActionContainersExecOwned).

Inductive host_action_error : Type :=
  | HProvider (provider : string)
  | HProviderTwice (provider : string)
  | HNoCapabilities (provider : string)
  | HCapability (provider capability : string)
  | HCapabilityTwice (provider capability : string).

(** What the loop checks of a grant after its provider was recorded. *)
Definition validate_capabilities (g : HostActionGrant) : result host_action_error unit :=
  refuse_if (length (ha_capabilities g) =? 0) (HNoCapabilities (ha_provider g)) ;;;
  for_seen id
    (λ c, check_that (validContainerCapability c) (HCapability (ha_provider g) c))
    (λ _, Ok tt) (HCapabilityTwice (ha_provider g)) ∅ (ha_capabilities g).

Definition ValidateHostActions (grants : list HostActionGrant) : result host_action_error unit :=
  for_seen ha_provider
    (λ g, check_that (bool_decide (ha_provider g = HostActionProviderContainers))
            (HProvider (ha_provider g)))
    validate_capabilities (λ g, HProviderTwice (ha_provider g)) ∅ grants.

(** The first grant naming the provider decides; [None] is the nil map. *)
Fixpoint HostActionCapabilities (grants : list HostActionGrant) (provider : string) :
    option (gset string) :=
  match grants with
  | [] => None
  | g :: grants =>
      if bool_decide (ha_provider g ≠ provider)
      then HostActionCapabilities grants provider
      else Some (list_to_set (ha_capabilities g))
  end.

(** A lookup in the nil map is false. *)
Definition held_capability (m : option (gset string)) (c : string) : bool :=
  match m with Some s => bool_decide (c ∈ s) | None => false end.

Fixpoint IntersectHostActions (parent child : list HostActionGrant) : list HostActionGrant :=
  match child with
  | [] => []
  | requested :: child =>
      let allowed := HostActionCapabilities parent (ha_provider requested) in
      let capabilities :=
        filter (λ c, held_capability allowed c = true) (ha_capabilities requested) in
      if length capabilities =? 0 then IntersectHostActions parent child
      else mkAction (ha_provider requested) (sort_strings capabilities)
             :: IntersectHostActions parent child
  end.

(** ** Lemmas *)

(** A capability some grant of the list gives. *)
Definition holds (l : list HostActionGrant) (provider capability : string) : Prop :=
  ∃ g, g ∈ l ∧ ha_provider g = provider ∧ capability ∈ ha_capabilities g.

Lemma capabilities_held l p c :
  held_capability (HostActionCapabilities l p) c = true → holds l p c.
Proof.
  unfold holds. induction l as [|g l IH]; simpl; [done|]. case_bool_decide as Hp.
  - intros (g' & ? & ?)%IH. exists g'. set_solver.
  - simpl. bools. rewrite elem_of_list_to_set. intros ?. exists g.
    split_and!; [set_solver|by destruct (decide (ha_provider g = p))|done].
Qed.

Lemma capabilities_held_unique l p c :
  NoDup (ha_provider <$> l) →
  (held_capability (HostActionCapabilities l p) c = true ↔ holds l p c).
Proof.
  intros Hnd. split; [apply capabilities_held|]. unfold holds.
  induction l as [|g l IH]; simpl; [by intros (? & ?%elem_of_nil & _)|].
  apply NoDup_cons in Hnd as [Hg Hnd].
  intros (g' & [->|Hin]%elem_of_cons & Hp & Hc).
  - rewrite bool_decide_eq_false_2 by naive_solver. simpl. bools.
    by rewrite elem_of_list_to_set.
  - rewrite bool_decide_eq_true_2; [apply IH; eauto|].
    intros Heq. apply Hg. rewrite Heq, <-Hp. by apply list_elem_of_fmap_2.
Qed.

Lemma intersect_elem parent child g :
  g ∈ IntersectHostActions parent child ↔
    ∃ r, r ∈ child ∧ ha_provider g = ha_provider r ∧ ha_capabilities g ≠ [] ∧
      ha_capabilities g = sort_strings
        (filter (λ c, held_capability
           (HostActionCapabilities parent (ha_provider r)) c = true) (ha_capabilities r)).
Proof.
  induction child as [|r child IH]; simpl; [set_solver|].
  set (caps := filter _ _).
  assert (sort_strings caps = [] ↔ caps = []) as Hnil.
  { split; [|by intros ->]. intros E. apply Permutation_nil.
    by rewrite <-E, sort_strings_perm. }
  destruct (Nat.eqb_spec (length caps) 0) as [E|E].
  - apply nil_length_inv in E. rewrite IH. split.
    + intros (r' & ? & ?). exists r'. set_solver.
    + intros (r' & [->|?]%elem_of_cons & Hp & Hne & Hc); [|eauto].
      exfalso. apply Hne. rewrite Hc. fold caps. by apply Hnil.
  - rewrite elem_of_cons, IH. split.
    + intros [->|(r' & ? & ?)]; [exists r|exists r'; set_solver]. simpl.
      split_and!; [set_solver|done| |done]. intros Hn%Hnil. by rewrite Hn in E.
    + intros (r' & [->|?]%elem_of_cons & Hp & Hne & Hc); [left|right; eauto].
      destruct g as [gp gc]; simpl in *. by subst.
Qed.

Lemma intersect_holds parent child p c :
  NoDup (ha_provider <$> parent) →
  (holds (IntersectHostActions parent child) p c ↔ holds parent p c ∧ holds child p c).
Proof.
  intros Hnd. unfold holds at 1. setoid_rewrite intersect_elem. split.
  - intros (g & (r & Hr & Hp & _ & Hc) & <- & Hin). rewrite Hc in Hin.
    apply sort_strings_elem, list_elem_of_filter in Hin as [Hh Hin].
    rewrite <-Hp in Hh. split; [by apply capabilities_held|]. exists r. eauto.
  - intros [Hpar (r & Hr & <- & Hin)].
    apply capabilities_held_unique in Hpar; [|done].
    set (caps := sort_strings (filter (λ c, held_capability
      (HostActionCapabilities parent (ha_provider r)) c = true) (ha_capabilities r))).
    assert (c ∈ caps) as Hcaps by by apply sort_strings_elem, list_elem_of_filter.
    exists (mkAction (ha_provider r) caps). split_and!; simpl; try done.
    exists r. split_and!; try done. simpl. intros Hn. rewrite Hn in Hcaps.
    by apply elem_of_nil in Hcaps.
Qed.

Lemma validate_capabilities_ok g u :
  validate_capabilities g = Ok u ↔
    ha_capabilities g ≠ [] ∧ NoDup (ha_capabilities g) ∧
    ∀ c, c ∈ ha_capabilities g → validContainerCapability c = true.
Proof.
  unfold validate_capabilities. rewrite bind_unit_ok, refuse_if_ok, for_seen_ok, list_fmap_id.
  setoid_rewrite check_that_ok. rewrite Nat.eqb_neq. split.
  - intros (Hl & Hc & Hnd). split_and!; [by destruct (ha_capabilities g)|done|].
    intros c Hin. by apply Hc.
  - intros (Hne & Hnd & Hc). split_and!; [by destruct (ha_capabilities g)| |done].
    intros c Hin. split_and!; [by apply Hc|done|set_solver].
Qed.

Lemma validate_actions_ok l u :
  ValidateHostActions l = Ok u ↔
    NoDup (ha_provider <$> l) ∧
    ∀ g, g ∈ l → ha_provider g = HostActionProviderContainers ∧
      ha_capabilities g ≠ [] ∧ NoDup (ha_capabilities g) ∧
      ∀ c, c ∈ ha_capabilities g → validContainerCapability c = true.
Proof.
  unfold ValidateHostActions. rewrite for_seen_ok. setoid_rewrite check_that_ok.
  setoid_rewrite validate_capabilities_ok. setoid_rewrite bool_decide_eq_true.
  split.
  - intros [Hg Hnd]. split; [done|]. intros g Hin. by destruct (Hg g Hin) as (?&?&?).
  - intros [Hnd Hg]. split; [|done]. intros g Hin. destruct (Hg g Hin) as [??].
    split; [done|]. split; [done|set_solver].
Qed.

Lemma intersect_providers parent child :
  sublist (ha_provider <$> IntersectHostActions parent child) (ha_provider <$> child).
Proof.
  induction child as [|r child IH]; simpl; [done|].
  destruct (_ =? 0); [by constructor|simpl; by constructor].
Qed.

(** ** Property *)

(** Intersecting a parent's grants with valid requested grants gives grants
    that are valid again and hold exactly the capabilities both sides hold. *)
Theorem host_actions_intersection parent child :
  ValidateHostActions parent = Ok tt → ValidateHostActions child = Ok tt →
  ValidateHostActions (IntersectHostActions parent child) = Ok tt ∧
  ∀ provider capability,
    holds (IntersectHostActions parent child) provider capability ↔
      holds parent provider capability ∧ holds child provider capability.
Proof.
  rewrite !validate_actions_ok. intros [Hnd Hp] [Hndc Hc]. split.
  - split; [by eapply sublist_NoDup; [exact Hndc|apply intersect_providers]|].
    intros g (r & Hr & Heq & Hne & Hcap)%intersect_elem.
    destruct (Hc r Hr) as (Hprov & _ & Hnodup & Hvalid). rewrite Heq, Hcap.
    split_and!; [done|by rewrite <-Hcap| |].
    + rewrite sort_strings_perm. by apply NoDup_filter.
    + intros c. rewrite sort_strings_elem, list_elem_of_filter. naive_solver.
  - intros. by apply intersect_holds.
Qed.

Lemma host_actions_intersection_witness :
  let parent := [mkAction "containers" ["exec-owned"; "read"]] in
  let child := [mkAction "containers" ["read"; "manage-owned"]] in
  ValidateHostActions (IntersectHostActions parent child) = Ok tt ∧
  IntersectHostActions parent child = [mkAction "containers" ["read"]].
Proof.
  split; [|vm_compute; reflexivity].
  apply host_actions_intersection; vm_compute; reflexivity.
Defined.
