(* ===== verification/Filesystem.v ===== *)
(** * Filesystem permissions ([pkg/types/filesystem.go])

    What part of the host an application sees: validation of the grants, where
    a grant resolves to on this host, and the refusal of a grant that resolves
    inside cpak's own state. *)
From Stdlib Require Import Ascii.
From stdpp Require Import base strings list gmap.
From S2P Require Import Prelude.
From S2P Require Import GoStrings.
From S2P Require Import Utf8.
From S2P Require Import GoPath.
From stdpp Require Import options.

Record FilesystemPermission : Type := mkPerm {
  fp_path : string;
  fp_access : string
}.
#[export] Instance perm_eq_dec : EqDecision FilesystemPermission.
Proof. solve_decision. Defined.

Definition assoc (key : string) (l : list (string * string)) : option string :=
  snd <$> List.find (λ kv, bool_decide (kv.1 = key)) l.

Definition xdgDirectoryKeys : list (string * string) :=
  [("xdg-desktop", "DESKTOP"); ("xdg-documents", "DOCUMENTS");
   ("xdg-download", "DOWNLOAD"); ("xdg-music", "MUSIC"); ("xdg-pictures", "PICTURES");
   ("xdg-public-share", "PUBLICSHARE"); ("xdg-templates", "TEMPLATES");
   ("xdg-videos", "VIDEOS")].

Definition xdgDirectoryDefaults : list (string * string) :=
  [("DESKTOP", "Desktop"); ("DOCUMENTS", "Documents"); ("DOWNLOAD", "Downloads");
   ("MUSIC", "Music"); ("PICTURES", "Pictures"); ("PUBLICSHARE", "Public");
   ("TEMPLATES", "Templates"); ("VIDEOS", "Videos")].

Inductive fs_error : Type :=
  | FPath (path : string)
  | FAccess (access : string)
  | FHostWritable
  | FTwice (path : string)
  | FHomeUnknown
  | FHomeUnusable
  | FXdgUnknown (scope : string)
  | FXdgRead
  | FXdgUnavailable (scope : string)
  | FState (path : string).

(** The part of [path] below [home/], or a dot for the home itself. *)
Definition homeFilesystemSubpath (path : string) : option string :=
  if bool_decide (path = "home") then Some "."
  else if negb (has_prefix "home/" path) then None
  else
    let relative := trim_prefix "home/" path in
    if bool_decide (relative = "") || is_abs relative ||
       negb (bool_decide (clean relative = relative)) || bool_decide (relative = ".") ||
       bool_decide (relative = "..") || has_prefix "../" relative
    then None else Some relative.

Definition validFilesystemPath (path : string) : bool :=
  if bool_decide (path = "host") then true
  else if homeFilesystemSubpath path then true
  else if assoc path xdgDirectoryKeys then true
  else bool_decide (path ≠ "/") && is_abs path && bool_decide (clean path = path).

Definition validate_permission (p : FilesystemPermission) : result fs_error unit :=
  check_that (validFilesystemPath (fp_path p)) (FPath (fp_path p)) ;;;
  refuse_if (negb (bool_decide (fp_access p = "read-only")) &&
    negb (bool_decide (fp_access p = "read-write"))) (FAccess (fp_access p)) ;;;
  refuse_if (bool_decide (fp_path p = "host") &&
    negb (bool_decide (fp_access p = "read-only"))) FHostWritable.

Definition ValidateFilesystemPermissions (l : list FilesystemPermission) :
    result fs_error unit :=
  for_seen fp_path validate_permission (λ _, Ok tt) (λ p, FTwice (fp_path p)) ∅ l.

(** ** The host *)

(** What reading a file of the host gives. *)
Inductive file_read : Type :=
  | FileData (data : string)
  | FileMissing
  | FileUnreadable.

(** What the resolution asks of the host: [os.UserHomeDir], [os.Getenv] and
    [os.ReadFile]; and [strconv.Unquote], a parameter like them. *)
Record host : Type := mkHost {
  h_home : option string;
  h_env : string → string;
  h_read : string → file_read;
  h_unquote : string → option string
}.

(** The home directory as both resolutions accept it. *)
Definition usable_home (home : string) : bool :=
  negb (bool_decide (home = "") || negb (is_abs home) ||
        negb (bool_decide (clean home = home)) || bool_decide (home = "/")).

Section Resolve.
Context (h : host).

(** The configured directory for a key of the XDG user directories file. *)
Definition parse_xdg_line (key home line : string) : option (option string) :=
  let prefix := "XDG_" +:+ key +:+ "_DIR=" in
  let line := trim_space line in
  if negb (has_prefix prefix line) then None
  else Some (
    value ← h_unquote h (trim_space (trim_prefix prefix line));
    if bool_decide (value = "$HOME") then Some home
    else if has_prefix "$HOME/" value
    then Some (path_join [home; trim_prefix "$HOME/" value])
    else Some value).

Fixpoint parse_xdg_lines (key home : string) (lines : list string) : option string :=
  match lines with
  | [] => None
  | line :: lines =>
      match parse_xdg_line key home line with
      | None => parse_xdg_lines key home lines
      | Some found => found
      end
  end.

Definition parseXDGUserDirectory (data key home : string) : option string :=
  parse_xdg_lines key home (split_byte "010"%char data).

Definition resolveXDGUserDirectory (scope : string) : result fs_error string :=
  match h_home h with
  | None => Err FHomeUnknown
  | Some home =>
      check_that (usable_home home) FHomeUnusable ;;;
      match assoc scope xdgDirectoryKeys with
      | None => Err (FXdgUnknown scope)
      | Some key =>
          let config_home :=
            if bool_decide (h_env h "XDG_CONFIG_HOME" = "")
            then path_join [home; ".config"] else h_env h "XDG_CONFIG_HOME" in
          let fallback := path_join [home; default "" (assoc key xdgDirectoryDefaults)] in
          path ← match h_read h (path_join [config_home; "user-dirs.dirs"]) with
                 | FileData data => Ok (default fallback (parseXDGUserDirectory data key home))
                 | FileMissing => Ok fallback
                 | FileUnreadable => Err FXdgRead
                 end;
          let path := clean path in
          refuse_if (bool_decide (path = home) || bool_decide (path = "/") ||
            negb (is_abs path)) (FXdgUnavailable scope) ;;;
          Ok path
      end
  end.

(** The source on the host and the target in the container. *)
Definition ResolveFilesystemPermission (p : FilesystemPermission) :
    result fs_error (string * string) :=
  ValidateFilesystemPermissions [p] ;;;
  if bool_decide (fp_path p = "host") then Ok ("/", "/run/host")
  else match homeFilesystemSubpath (fp_path p) with
  | Some relative =>
      match h_home h with
      | None => Err FHomeUnknown
      | Some home =>
          check_that (usable_home home) FHomeUnusable ;;;
          if bool_decide (relative = ".") then Ok (home, home)
          else let path := path_join [home; relative] in Ok (path, path)
      end
  | None =>
      match assoc (fp_path p) xdgDirectoryKeys with
      | Some _ => path ← resolveXDGUserDirectory (fp_path p); Ok (path, path)
      | None => Ok (fp_path p, fp_path p)
      end
  end.

(** ** cpak's own state *)
Definition usableAbsolutePath (path : string) : bool :=
  bool_decide (path ≠ "") && is_abs path && bool_decide (clean path ≠ "/").

Definition appendStateDirectory (directories : list string) (path : string) : list string :=
  if negb (usableAbsolutePath path) then directories
  else if existsb (λ existing, bool_decide (existing = clean path)) directories
  then directories
  else directories ++ [clean path].

Definition CpakStateDirectories (home : string) (roots : list string) : list string :=
  let directories := foldl appendStateDirectory [] roots in
  if usableAbsolutePath home then
    appendStateDirectory
      (appendStateDirectory directories (path_join [home; ".config"; "cpak"]))
      (path_join [home; ".local"; "share"; "applications"])
  else directories.

Definition PathIsCpakState (path : string) (directories : list string) : bool :=
  if bool_decide (path = "") then false
  else
    let path := clean path in
    existsb (λ directory,
      bool_decide (path = directory) ||
      has_prefix (trim_suffix "/" directory +:+ "/") path) directories.

Definition RefuseCpakStateGrants (l : list FilesystemPermission) (directories : list string) :
    result fs_error unit :=
  for_each (λ p,
    match ResolveFilesystemPermission p with
    | Err _ => Ok tt
    | Ok (source, _) =>
        refuse_if (PathIsCpakState source directories) (FState (fp_path p))
    end) l.
End Resolve.

(** ** Validation *)
Definition valid_access (p : FilesystemPermission) : Prop :=
  (fp_access p = "read-only" ∨ fp_access p = "read-write") ∧
  (fp_path p = "host" → fp_access p = "read-only").

Lemma validate_permission_ok p u :
  validate_permission p = Ok u ↔ validFilesystemPath (fp_path p) = true ∧ valid_access p.
Proof.
  unfold validate_permission, valid_access. rewrite !bind_unit_ok, check_that_ok, !refuse_if_ok,
    !andb_false_iff, !negb_false_iff, !bool_decide_eq_true, bool_decide_eq_false.
  destruct (decide (fp_path p = "host")); naive_solver.
Qed.

Lemma validate_permissions_ok l u :
  ValidateFilesystemPermissions l = Ok u ↔
    NoDup (fp_path <$> l) ∧
    ∀ p, p ∈ l → validFilesystemPath (fp_path p) = true ∧ valid_access p.
Proof.
  unfold ValidateFilesystemPermissions. rewrite for_seen_ok.
  setoid_rewrite validate_permission_ok. set_solver.
Qed.

Lemma home_subpath_cases path relative :
  homeFilesystemSubpath path = Some relative →
  (path = "home" ∧ relative = ".") ∨
  (path = "home/" +:+ relative ∧ clean relative = relative ∧ is_abs relative = false ∧
   relative ≠ "" ∧ relative ≠ "." ∧ relative ≠ ".." ∧ has_prefix "../" relative = false).
Proof.
  unfold homeFilesystemSubpath. case_bool_decide as Hp; [intros [= <-]; by left|].
  destruct (has_prefix "home/" path) eqn:Hpre; [simpl|done].
  apply has_prefix_iff in Hpre as (t & ->). rewrite trim_prefix_app.
  destruct (bool_decide (t = "") || _ || _ || _ || _ || _) eqn:E; [done|].
  intros [= <-]. right. bools_in E.
  naive_solver.
Qed.

Lemma usable_home_iff home :
  usable_home home = true ↔
    home ≠ "" ∧ is_abs home = true ∧ clean home = home ∧ home ≠ "/".
Proof.
  unfold usable_home. bools. naive_solver.
Qed.

Definition root_path (p : string) : Prop := is_abs p = true ∧ clean p = p.

Lemma resolve_xdg_ok h scope path :
  resolveXDGUserDirectory h scope = Ok path → root_path path ∧ path ≠ "/" ∧ Some path ≠ h_home h.
Proof.
  unfold resolveXDGUserDirectory. destruct (h_home h) as [home|]; [|done].
  rewrite bind_unit_ok. intros [_ H]. destruct (assoc _ _); [|done].
  apply bind_ok in H as (q & _ & H). apply bind_unit_ok in H as [Hr [= <-]].
  bools_in Hr. unfold root_path. rewrite clean_idemp.
  naive_solver.
Qed.

Lemma resolve_spec h p source target :
  ResolveFilesystemPermission h p = Ok (source, target) →
  root_path source ∧ root_path target ∧
  (fp_path p = "host" → source = "/" ∧ target = "/run/host" ∧ fp_access p = "read-only") ∧
  (fp_path p ≠ "host" → source = target ∧ source ≠ "/") ∧
  (∀ relative, homeFilesystemSubpath (fp_path p) = Some relative →
     ∃ home, h_home h = Some home ∧ path_parts home `prefix_of` path_parts source).
Proof.
  unfold ResolveFilesystemPermission. rewrite bind_unit_ok, validate_permissions_ok.
  intros [[_ Hv] H]. destruct (Hv p) as [Hpath Hacc]; [set_solver|]. clear Hv.
  case_bool_decide as Hhost.
  { simplify_eq. rewrite Hhost. split_and!; try done; try (by vm_compute).
    intros _. split_and!; [done..|]. by apply Hacc. }
  destruct (homeFilesystemSubpath (fp_path p)) as [relative|] eqn:Erel.
  - destruct (h_home h) as [home|]; [|done]. apply bind_unit_ok in H as [Hu H].
    apply check_that_ok, usable_home_iff in Hu as (?&?&?&?).
    destruct (home_subpath_cases _ _ Erel) as [[_ ->]|(_&?&?&?&?&?&?)].
    + rewrite bool_decide_eq_true_2 in H by done. simplify_eq.
      unfold root_path. split_and!; try done. intros ? _. eauto.
    + rewrite bool_decide_eq_false_2 in H by done. simplify_eq.
      destruct (join_below home relative) as (?&?&Hparts); try done.
      assert (path_parts (path_join [home; relative]) ≠ []) as Hne.
      { rewrite Hparts. intros [E _]%app_eq_nil.
        assert (clean home = "/") by (by rewrite clean_abs_eq, E). congruence. }
      unfold root_path. split_and!; try done.
      * intros _. split; [done|]. intros E. apply Hne. by rewrite E.
      * intros ? _. exists home. split; [done|]. rewrite Hparts. by apply prefix_app_r.
  - destruct (assoc (fp_path p) xdgDirectoryKeys) eqn:Ex.
    + apply bind_ok in H as (q & (?&?&?)%resolve_xdg_ok & [= <- <-]). by split_and!.
    + simplify_eq. unfold validFilesystemPath in Hpath.
      rewrite bool_decide_eq_false_2, Erel, Ex in Hpath by done. bools_in Hpath.
      unfold root_path. naive_solver.
Qed.

Lemma resolve_root h p source target :
  ResolveFilesystemPermission h p = Ok (source, target) →
  root_path source ∧ root_path target.
Proof. by intros (?&?&_)%resolve_spec. Qed.

(** What a filesystem grant resolves to.  Every source and target is an
    absolute clean path.  Only the [host] scope resolves to the root, read-only
    and below [/run/host]; every other grant appears at its own path, and a grant
    of [home] or of a path below it never leaves the home directory. *)
Theorem resolve_permission_contained h p source target :
  ResolveFilesystemPermission h p = Ok (source, target) →
  root_path source ∧ root_path target ∧
  (fp_path p = "host" → source = "/" ∧ target = "/run/host" ∧ fp_access p = "read-only") ∧
  (fp_path p ≠ "host" → source = target ∧ source ≠ "/") ∧
  (∀ relative, homeFilesystemSubpath (fp_path p) = Some relative →
     ∃ home, h_home h = Some home ∧ path_parts home `prefix_of` path_parts source).
Proof. apply resolve_spec. Qed.

Definition example_host : host :=
  mkHost (Some "/home/ada") (λ _, "") (λ _, FileMissing) (λ _, None).

Lemma resolve_permission_contained_witness :
  ∃ home, h_home example_host = Some home ∧
    path_parts home `prefix_of` path_parts "/home/ada/Music/live".
Proof.
  apply (resolve_permission_contained example_host
    (mkPerm "home/Music/live" "read-write") _ "/home/ada/Music/live") with "Music/live";
    vm_compute; reflexivity.
Defined.

(** ** cpak's own state directories *)
Definition state_directory (d : string) : Prop := root_path d ∧ path_parts d ≠ [].

Lemma root_parts p : is_abs p = true → path_parts p = [] → clean p = "/".
Proof. intros ? E. by rewrite clean_abs_eq, E. Qed.

Lemma append_state_directories l path :
  NoDup l ∧ (∀ d, d ∈ l → state_directory d) →
  NoDup (appendStateDirectory l path) ∧
  ∀ d, d ∈ appendStateDirectory l path → state_directory d.
Proof.
  intros [Hnd Hl]. unfold appendStateDirectory.
  destruct (usableAbsolutePath path) eqn:E; [simpl|done].
  unfold usableAbsolutePath in E. bools_in E. destruct E as [[_ Ha] Hroot].
  destruct (existsb _ l) eqn:Ex; [done|]. rewrite existsb_none in Ex. split.
  - apply NoDup_app. split_and!; [done| |apply NoDup_singleton].
    intros d Hd ->%list_elem_of_singleton. apply Ex in Hd. bools_in Hd. done.
  - intros d [?| ->%list_elem_of_singleton]%elem_of_app; [auto|].
    unfold state_directory, root_path. rewrite clean_abs, clean_idemp, path_parts_clean.
    split; [done|]. contradict Hroot. by apply root_parts.
Qed.

Lemma state_directories_spec home roots :
  NoDup (CpakStateDirectories home roots) ∧
  ∀ d, d ∈ CpakStateDirectories home roots → state_directory d.
Proof.
  unfold CpakStateDirectories.
  assert (∀ l, NoDup l ∧ (∀ d, d ∈ l → state_directory d) →
    NoDup (foldl appendStateDirectory l roots) ∧
    ∀ d, d ∈ foldl appendStateDirectory l roots → state_directory d) as Hfold.
  { induction roots as [|r roots IH]; [done|]. intros l Hl. simpl.
    apply IH. by apply append_state_directories. }
  specialize (Hfold []). case_if; auto using append_state_directories, NoDup_nil, elem_of_nil.
  - apply append_state_directories, append_state_directories, Hfold.
    split; [constructor|set_solver].
  - apply Hfold. split; [constructor|set_solver].
Qed.

(** What cpak keeps of its own, whatever way it is spelt: the directories of the caller,
    and under a home that is not the root the configuration of cpak and the desktop
    entries. *)
Definition kept_by_cpak (home : string) (roots : list string) (d : string) : Prop :=
  is_abs d = true ∧ path_parts d ≠ [] ∧
  (d ∈ roots ∨ is_abs home = true ∧ path_parts home ≠ [] ∧
    d ∈ [path_join [home; ".config"; "cpak"]; path_join [home; ".local"; "share"; "applications"]]).

Lemma usable_iff p : usableAbsolutePath p = true ↔ is_abs p = true ∧ path_parts p ≠ [].
Proof.
  unfold usableAbsolutePath. rewrite !andb_true_iff, !bool_decide_eq_true. split.
  - intros [[_ Ha] Hc]. split; [done|]. contradict Hc. by apply root_parts.
  - intros [Ha Hne]. split_and!; [by intros ->|done|]. contradict Hne. by rewrite <-path_parts_clean, Hne.
Qed.

Lemma append_state_keeps l path d : d ∈ l → d ∈ appendStateDirectory l path.
Proof. intros Hd. unfold appendStateDirectory. repeat case_match; try done. apply elem_of_app. by left. Qed.

Lemma append_state_adds l path : usableAbsolutePath path = true → clean path ∈ appendStateDirectory l path.
Proof.
  intros Hu. unfold appendStateDirectory. rewrite Hu. cbn [negb]. destruct (existsb _ l) eqn:E.
  - apply existsb_exists in E as (d & Hd & ->%bool_decide_eq_true). by apply list_elem_of_In.
  - apply elem_of_app. right. by left.
Qed.

Lemma fold_state_directories roots l d :
  d ∈ l ∨ (∃ r, r ∈ roots ∧ usableAbsolutePath r = true ∧ d = clean r) → d ∈ foldl appendStateDirectory l roots.
Proof.
  revert l. induction roots as [|r roots IH]; intros l.
  - intros [?|(r & Hr & _)]; [done|]. by apply not_elem_of_nil in Hr.
  - intros H. cbn [foldl]. apply IH. destruct H as [H|(r' & [->|Hr]%elem_of_cons & Hu & ->)].
    + left. by apply append_state_keeps.
    + left. by apply append_state_adds.
    + right. by exists r'.
Qed.

(** Each of them is among the directories. *)
Lemma kept_by_cpak_listed home roots d : kept_by_cpak home roots d → clean d ∈ CpakStateDirectories home roots.
Proof.
  intros (Ha & Hne & Hd). assert (usableAbsolutePath d = true) as Hu by by apply usable_iff.
  unfold CpakStateDirectories. destruct Hd as [Hd|(Hh & Hn & Hd)].
  - assert (clean d ∈ foldl appendStateDirectory [] roots) as H by (apply fold_state_directories; right; by exists d).
    case_match; [|done]. by apply append_state_keeps, append_state_keeps.
  - rewrite (proj2 (usable_iff home)) by done. apply elem_of_cons in Hd as [->|Hd%list_elem_of_singleton]; [|subst d].
    + by apply append_state_keeps, append_state_adds.
    + by apply append_state_adds.
Qed.

(** A state directory does not end in a separator. *)
Lemma state_directory_trim d : state_directory d → trim_suffix "/" d = d.
Proof.
  intros [[Ha Hc] Hne]. apply trim_suffix_none, not_true_iff_false.
  rewrite has_suffix_iff. intros (t & Ht).
  assert (split_byte slash d = "" :: path_parts d) as Hs.
  { rewrite <-Hc at 1. rewrite clean_abs_eq by done.
    rewrite split_abs, split_join_parts by done. done. }
  rewrite Ht in Hs at 1. rewrite split_byte_app_sep in Hs. simpl in Hs.
  destruct (path_parts d) as [|x l] eqn:E; [done|].
  apply (f_equal last) in Hs. rewrite last_snoc, last_cons_cons in Hs.
  symmetry in Hs. apply last_Some_elem_of in Hs. rewrite <-E in Hs.
  by apply path_parts_elem in Hs as [? _].
Qed.

Lemma path_in_state_directory d p :
  state_directory d → is_abs p = true →
  (bool_decide (clean p = d) || has_prefix (trim_suffix "/" d +:+ "/") (clean p) = true ↔
   path_parts d `prefix_of` path_parts p).
Proof.
  intros Hd Ha. rewrite state_directory_trim by done. destruct Hd as [[Hda Hc] Hne].
  pose proof (inside_parts d p Hda Ha Hne) as Hin. rewrite Hc in Hin.
  bools. rewrite Hin. split.
  - intros [<-|(rest & _ & ->)]; [by rewrite path_parts_clean|by apply prefix_app_r].
  - intros [rest E]. destruct (decide (rest = [])) as [->|]; [left|right; eauto].
    rewrite app_nil_r in E. rewrite <-Hc. by apply clean_parts_inj.
Qed.

Lemma path_is_state_iff dirs path :
  (∀ d, d ∈ dirs → state_directory d) →
  (PathIsCpakState path dirs = true ↔
    is_abs path = true ∧ ∃ d, d ∈ dirs ∧ path_parts d `prefix_of` path_parts path).
Proof.
  intros Hdirs.
  unfold PathIsCpakState. case_bool_decide as He; [subst; split; [done|]|].
  { by intros [?%has_prefix_iff _]; naive_solver. }
  rewrite existsb_elem. destruct (is_abs path) eqn:Ha.
  - split.
    + intros (d & Hd & Ht). split; [done|]. exists d. split; [done|].
      by apply path_in_state_directory in Ht; auto.
    + intros (_ & d & Hd & Hp). exists d. split; [done|].
      by apply path_in_state_directory; auto.
  - split; [|by intros []]. intros (d & Hd & Ht). exfalso.
    destruct (Hdirs d Hd) as [[Hda Hc] _].
    assert (is_abs (clean path) = true) as Habs; [|by rewrite clean_abs, Ha in Habs].
    bools_in Ht. destruct Ht as [->|Hp]; [done|].
    rewrite state_directory_trim in Hp by auto. eapply has_prefix_trans, Hp.
    eapply has_prefix_trans; [exact Hda|]. apply has_prefix_iff. eauto.
Qed.

(** The test that keeps a grant out of cpak's own state is containment of
    path elements: for the directories [CpakStateDirectories] returns, a path is
    state exactly when it is absolute and its elements start with the elements of
    one of them.  No look-alike sibling is caught and no spelling escapes. *)
Theorem state_test_is_containment home roots path :
  PathIsCpakState path (CpakStateDirectories home roots) = true ↔
    is_abs path = true ∧
    ∃ d, d ∈ CpakStateDirectories home roots ∧ path_parts d `prefix_of` path_parts path.
Proof. apply path_is_state_iff, state_directories_spec. Qed.

(** C32: when [RefuseCpakStateGrants] accepts a list of grants, none of them
    resolves to a path inside cpak's own state: inside a directory the list names, or
    inside one of the caller's, the configuration of cpak or the desktop entries of the
    home. *)
Theorem no_grant_reaches_state h home roots l p source target d :
  RefuseCpakStateGrants h l (CpakStateDirectories home roots) = Ok tt →
  p ∈ l → ResolveFilesystemPermission h p = Ok (source, target) →
  d ∈ CpakStateDirectories home roots ∨ kept_by_cpak home roots d →
  ¬ path_parts d `prefix_of` path_parts source.
Proof.
  unfold RefuseCpakStateGrants. rewrite for_each_ok. intros Hl Hp Hr Hd Hpre.
  specialize (Hl p Hp). rewrite Hr in Hl. apply refuse_if_ok in Hl.
  apply not_true_iff_false in Hl. apply Hl, path_is_state_iff; [apply state_directories_spec|].
  split; [by apply resolve_root in Hr as [[? _] _]|].
  destruct Hd as [Hd|Hd%kept_by_cpak_listed]; [eauto|]. exists (clean d). by rewrite path_parts_clean.
Qed.

Lemma no_grant_reaches_state_witness :
  ¬ path_parts "/home/ada/.config/cpak" `prefix_of` path_parts "/home/ada/Music".
Proof.
  apply (no_grant_reaches_state example_host "/home/ada" ["/var/lib/cpak"]
    [mkPerm "home/Music" "read-only"; mkPerm "/srv" "read-write"]
    (mkPerm "home/Music" "read-only") "/home/ada/Music" "/home/ada/Music").
  - vm_compute. reflexivity.
  - left.
  - vm_compute. reflexivity.
  - right. split; [vm_compute; reflexivity|]. split; [vm_compute; discriminate|]. right.
    split; [vm_compute; reflexivity|]. split; [vm_compute; discriminate|].
    apply (bool_decide_unpack _). vm_compute. exact I.
Defined.
