(* ===== verification/Override.v ===== *)
(** * Application permissions ([pkg/types/override.go])

    The permission set of an application: its default, the migration of the
    legacy filesystem fields, and the comparison that names what an update
    newly asks for.  A Go slice is a list here, so a nil slice and an empty one
    are the same value. *)
From stdpp Require Import base strings list gmap.
From S2P Require Import Prelude.
From S2P Require Import GoStrings.
From S2P Require Import GoPath.
From S2P Require Import DBusPolicy.
From S2P Require Import HostActions.
From S2P Require Import Filesystem.
From stdpp Require Import options.

(** ** File picker grants *)
Record FilePickerGrant : Type := mkPicker {
  OpenFile : bool;
  OpenFolder : bool;
  SaveFile : bool;
  Persistent : bool;
  ContainingFolder : bool
}.
#[export] Instance picker_eq_dec : EqDecision FilePickerGrant.
Proof. solve_decision. Defined.

Definition picker_enabled (g : FilePickerGrant) : bool := OpenFile g || OpenFolder g || SaveFile g.

Inductive picker_error : Type := PickerOptions | PickerFolder.

Definition ValidateFilePickerGrant (g : FilePickerGrant) : result picker_error unit :=
  refuse_if (negb (picker_enabled g) && (Persistent g || ContainingFolder g)) PickerOptions ;;;
  refuse_if (ContainingFolder g && negb (OpenFile g)) PickerFolder.

Definition filePickerHasAdditions (current next : FilePickerGrant) : bool :=
  negb (OpenFile current) && OpenFile next || negb (OpenFolder current) && OpenFolder next ||
  negb (SaveFile current) && SaveFile next || negb (Persistent current) && Persistent next ||
  negb (ContainingFolder current) && ContainingFolder next.

(** ** The permission set *)
Record Override : Type := mkOverride {
  SocketX11 : bool;
  DisplayX11 : bool;
  SocketWayland : bool;
  SocketPulseAudio : bool;
  SocketSessionBus : bool;
  SocketSystemBus : bool;
  SocketSshAgent : bool;
  SocketCups : bool;
  SocketGpgAgent : bool;
  SocketAtSpiBus : bool;
  SocketBluetooth : bool;
  Bluetooth : bool;
  DeviceDri : bool;
  DeviceKvm : bool;
  DeviceShm : bool;
  DeviceAlsa : bool;
  DeviceVideo : bool;
  DeviceFuse : bool;
  DeviceTun : bool;
  DeviceUsb : bool;
  DeviceSerial : bool;
  DeviceInput : bool;
  DeviceTTY : bool;
  DeviceAll : bool;
  Notification : bool;
  OpenURI : bool;
  HostApplications : bool;
  HostActions : list HostActionGrant;
  FilePicker : FilePickerGrant;
  SessionBus : DBusPolicy;
  Filesystem : list FilesystemPermission;
  FsHost : bool;
  FsHostEtc : bool;
  FsHostHome : bool;
  FsExtra : list string;
  Env : list string;
  Network : bool;
  Process : bool;
  UserNamespaces : bool;
  MemoryMaxMB : Z;
  CPUQuota : Z;
  PidsMax : Z;
  AsRoot : bool;
  AllowedHostCommands : list string
}.

(** A manifest that mentions nothing is granted nothing. *)
Definition NewOverride : Override := {|
  SocketX11 := false;
  DisplayX11 := false;
  SocketWayland := false;
  SocketPulseAudio := false;
  SocketSessionBus := false;
  SocketSystemBus := false;
  SocketSshAgent := false;
  SocketCups := false;
  SocketGpgAgent := false;
  SocketAtSpiBus := false;
  SocketBluetooth := false;
  Bluetooth := false;
  DeviceDri := false;
  DeviceKvm := false;
  DeviceShm := false;
  DeviceAlsa := false;
  DeviceVideo := false;
  DeviceFuse := false;
  DeviceTun := false;
  DeviceUsb := false;
  DeviceSerial := false;
  DeviceInput := false;
  DeviceTTY := false;
  DeviceAll := false;
  Notification := false;
  OpenURI := false;
  HostApplications := false;
  HostActions := [];
  FilePicker := mkPicker false false false false false;
  SessionBus := no_policy;
  Filesystem := [];
  FsHost := false;
  FsHostEtc := false;
  FsHostHome := false;
  FsExtra := [];
  Env := [];
  Network := false;
  Process := false;
  UserNamespaces := false;
  MemoryMaxMB := 0%Z;
  CPUQuota := 0%Z;
  PidsMax := 0%Z;
  AsRoot := false;
  AllowedHostCommands := []
|}.

Definition with_lists (o : Override) (actions : list HostActionGrant) (bus : DBusPolicy)
    (filesystem : list FilesystemPermission) (fs_host fs_etc fs_home : bool)
    (extra commands : list string) : Override := {|
  SocketX11 := SocketX11 o;
  DisplayX11 := DisplayX11 o;
  SocketWayland := SocketWayland o;
  SocketPulseAudio := SocketPulseAudio o;
  SocketSessionBus := SocketSessionBus o;
  SocketSystemBus := SocketSystemBus o;
  SocketSshAgent := SocketSshAgent o;
  SocketCups := SocketCups o;
  SocketGpgAgent := SocketGpgAgent o;
  SocketAtSpiBus := SocketAtSpiBus o;
  SocketBluetooth := SocketBluetooth o;
  Bluetooth := Bluetooth o;
  DeviceDri := DeviceDri o;
  DeviceKvm := DeviceKvm o;
  DeviceShm := DeviceShm o;
  DeviceAlsa := DeviceAlsa o;
  DeviceVideo := DeviceVideo o;
  DeviceFuse := DeviceFuse o;
  DeviceTun := DeviceTun o;
  DeviceUsb := DeviceUsb o;
  DeviceSerial := DeviceSerial o;
  DeviceInput := DeviceInput o;
  DeviceTTY := DeviceTTY o;
  DeviceAll := DeviceAll o;
  Notification := Notification o;
  OpenURI := OpenURI o;
  HostApplications := HostApplications o;
  HostActions := actions;
  FilePicker := FilePicker o;
  SessionBus := bus;
  Filesystem := filesystem;
  FsHost := fs_host;
  FsHostEtc := fs_etc;
  FsHostHome := fs_home;
  FsExtra := extra;
  Env := Env o;
  Network := Network o;
  Process := Process o;
  UserNamespaces := UserNamespaces o;
  MemoryMaxMB := MemoryMaxMB o;
  CPUQuota := CPUQuota o;
  PidsMax := PidsMax o;
  AsRoot := AsRoot o;
  AllowedHostCommands := commands
|}.

(** ** Reflection over the fields

    The comparisons walk the fields of the Go struct in their order, by the kind
    of each and the key of its JSON tag. *)
Inductive field_kind : Type :=
  | KBool (get : Override → bool)
  | KInt (get : Override → Z)
  | KStrings (get : Override → list string)
  | KActions (get : Override → list HostActionGrant)
  | KPermissions (get : Override → list FilesystemPermission)
  | KFilePicker (get : Override → FilePickerGrant)
  | KSessionBus (get : Override → DBusPolicy).
Record field : Type := mkField { f_key : string; f_omitempty : bool; f_kind : field_kind }.

Definition fields : list field :=
  [mkField "socketX11" false (KBool SocketX11);
   mkField "displayX11" false (KBool DisplayX11);
   mkField "socketWayland" false (KBool SocketWayland);
   mkField "socketPulseAudio" false (KBool SocketPulseAudio);
   mkField "socketSessionBus" false (KBool SocketSessionBus);
   mkField "socketSystemBus" false (KBool SocketSystemBus);
   mkField "socketSshAgent" false (KBool SocketSshAgent);
   mkField "socketCups" false (KBool SocketCups);
   mkField "socketGpgAgent" false (KBool SocketGpgAgent);
   mkField "socketAtSpiBus" false (KBool SocketAtSpiBus);
   mkField "socketBluetooth" false (KBool SocketBluetooth);
   mkField "bluetooth" false (KBool Bluetooth);
   mkField "deviceDri" false (KBool DeviceDri);
   mkField "deviceKvm" false (KBool DeviceKvm);
   mkField "deviceShm" false (KBool DeviceShm);
   mkField "deviceAlsa" false (KBool DeviceAlsa);
   mkField "deviceVideo" false (KBool DeviceVideo);
   mkField "deviceFuse" false (KBool DeviceFuse);
   mkField "deviceTun" false (KBool DeviceTun);
   mkField "deviceUsb" false (KBool DeviceUsb);
   mkField "deviceSerial" false (KBool DeviceSerial);
   mkField "deviceInput" false (KBool DeviceInput);
   mkField "deviceTTY" false (KBool DeviceTTY);
   mkField "deviceAll" false (KBool DeviceAll);
   mkField "notification" false (KBool Notification);
   mkField "openURI" false (KBool OpenURI);
   mkField "hostApplications" false (KBool HostApplications);
   mkField "hostActions" true (KActions HostActions);
   mkField "filePicker" true (KFilePicker FilePicker);
   mkField "sessionBus" true (KSessionBus SessionBus);
   mkField "filesystem" true (KPermissions Filesystem);
   mkField "fsHost" true (KBool FsHost);
   mkField "fsHostEtc" true (KBool FsHostEtc);
   mkField "fsHostHome" true (KBool FsHostHome);
   mkField "fsExtra" true (KStrings FsExtra);
   mkField "env" true (KStrings Env);
   mkField "network" false (KBool Network);
   mkField "process" false (KBool Process);
   mkField "userNamespaces" false (KBool UserNamespaces);
   mkField "memoryMaxMB" false (KInt MemoryMaxMB);
   mkField "cpuQuota" false (KInt CPUQuota);
   mkField "pidsMax" false (KInt PidsMax);
   mkField "asRoot" false (KBool AsRoot);
   mkField "allowedHostCommands" true (KStrings AllowedHostCommands)].

(** The fields are all the struct has: two values that agree on each are the same. *)
Definition same_field (o next : Override) (k : field_kind) : Prop :=
  match k with
  | KBool get => get o = get next
  | KInt get => get o = get next
  | KStrings get => get o = get next
  | KActions get => get o = get next
  | KPermissions get => get o = get next
  | KFilePicker get => get o = get next
  | KSessionBus get => get o = get next
  end.

Lemma fields_determine o next : Forall (λ f, same_field o next (f_kind f)) fields → o = next.
Proof.
  intros H. destruct o, next. unfold fields in H.
  repeat (apply list.Forall_cons in H as [?Hf H]; cbn in Hf; subst). reflexivity.
Qed.

(** Whether [updated] holds an element [current] does not hold. *)
Definition slice_additions {A} `{EqDecision A} (current updated : list A) : bool :=
  existsb (λ item, negb (existsb (λ held, bool_decide (held = item)) current)) updated.

Definition field_added (o next : Override) (k : field_kind) : bool :=
  match k with
  | KBool get => negb (get o) && get next
  | KInt _ => false
  | KStrings get => slice_additions (get o) (get next)
  | KActions get => slice_additions (get o) (get next)
  | KPermissions get => slice_additions (get o) (get next)
  | KFilePicker get => filePickerHasAdditions (get o) (get next)
  | KSessionBus get => negb (DBusPolicyRestricts (get o) (get next))
  end.

Definition Additions (o next : Override) : list string :=
  f_key <$> filter (λ f, field_added o next (f_kind f) = true) fields.

(** [UngrantedPermissions], on what it decodes of the manifest: its version and
    the keys written in its permission object. *)
Definition manifestV3RemovedPermission (key : string) : bool :=
  bool_decide (key ∈ ["socketX11"; "socketSessionBus"; "socketSystemBus"; "socketAtSpiBus";
                      "socketBluetooth"]).

Definition is_bool_field (f : field) : bool :=
  match f_kind f with KBool _ => true | _ => false end.

Definition UngrantedPermissions (version : string) (written : gset string) : list string :=
  f_key <$> filter (λ f,
    is_bool_field f && negb (f_omitempty f) &&
    negb (bool_decide (version = "3.0") && manifestV3RemovedPermission (f_key f)) &&
    negb (bool_decide (f_key f ∈ written)) = true) fields.

(** ** Migration of the legacy filesystem fields *)
Definition LegacyFilesystemGrant (path : string) : option FilesystemPermission :=
  let cleaned := clean path in
  if negb (is_abs cleaned) || bool_decide (cleaned = "/") || negb (validFilesystemPath cleaned)
  then None
  else Some (mkPerm cleaned "read-write").

(** One iteration of the fold: the grants kept so far, and the index of each
    path among them. *)
Definition widen_step (st : list FilesystemPermission * gmap string nat)
    (p : FilesystemPermission) : list FilesystemPermission * gmap string nat :=
  let '(folded, at_index) := st in
  match at_index !! fp_path p with
  | None => (folded ++ [p], <[fp_path p := length folded]> at_index)
  | Some index =>
      if bool_decide (fp_access p = "read-write")
      then (alter (λ q, mkPerm (fp_path q) "read-write") index folded, at_index)
      else (folded, at_index)
  end.

Definition widestPerPath (permissions : list FilesystemPermission) : list FilesystemPermission :=
  (foldl widen_step ([], ∅) permissions).1.

(** The typed grants followed by the ones the legacy fields stand for. *)
Definition legacy_grants (o : Override) : list FilesystemPermission :=
  Filesystem o ++
  (if FsHost o then [mkPerm "host" "read-only"] else []) ++
  (if FsHostEtc o then [mkPerm "/etc" "read-only"] else []) ++
  (if FsHostHome o then [mkPerm "home" "read-write"] else []) ++
  omap LegacyFilesystemGrant (FsExtra o).

Definition has_legacy (o : Override) : bool :=
  FsHost o || FsHostEtc o || FsHostHome o || negb (length (FsExtra o) =? 0).

Definition WithMigratedFilesystem (o : Override) : Override :=
  if negb (has_legacy o) then o
  else with_lists o (HostActions o) (SessionBus o) (widestPerPath (legacy_grants o))
         false false false [] (AllowedHostCommands o).

(** ** The fold keeps one grant per path, the widest *)
Definition widen_inv (l folded : list FilesystemPermission) (at_index : gmap string nat) : Prop :=
  (∀ path i, at_index !! path = Some i ↔ fp_path <$> folded !! i = Some path) ∧
  (∀ p, p ∈ folded → p ∈ l) ∧
  (∀ p, p ∈ l → fp_path p ∈ fp_path <$> folded) ∧
  (∀ p, p ∈ l → fp_access p = "read-write" → p ∈ folded).

Lemma alter_path (f : FilesystemPermission → FilesystemPermission) (i : nat)
    (l : list FilesystemPermission) :
  (∀ p, fp_path (f p) = fp_path p) → fp_path <$> alter f i l = fp_path <$> l.
Proof.
  intros Hf. apply list_eq. intros j. rewrite !list_lookup_fmap, list_lookup_alter.
  case_decide; [subst|done]. destruct (l !! j); simpl; by rewrite ?Hf.
Qed.

Lemma perm_eta p a : fp_access p = a → mkPerm (fp_path p) a = p.
Proof. by destruct p; intros <-. Qed.

Lemma widen_keep l folded at_index p i :
  widen_inv l folded at_index → at_index !! fp_path p = Some i →
  fp_access p ≠ "read-write" → widen_inv (l ++ [p]) folded at_index.
Proof.
  intros (Hi & Ha & Hb & Hc) Hp Hne. apply Hi, fmap_Some in Hp as (q & Hq & E).
  split_and!; [done|set_solver| |set_solver].
  intros x [?| ->%list_elem_of_singleton]%elem_of_app; [auto|]. rewrite E.
  by eapply list_elem_of_fmap_2, list_elem_of_lookup_2.
Qed.

Lemma widen_append l folded at_index p :
  widen_inv l folded at_index → at_index !! fp_path p = None →
  widen_inv (l ++ [p]) (folded ++ [p]) (<[fp_path p := length folded]> at_index).
Proof.
  intros (Hi & Ha & Hb & Hc) Hp. split_and!; [|set_solver..].
  intros path i. destruct (decide (path = fp_path p)) as [->|Hne].
  - rewrite lookup_insert_eq. split.
    + intros [= <-]. by rewrite lookup_app_r, Nat.sub_diag by lia.
    + rewrite fmap_Some. intros (q & Hq & E). rewrite lookup_snoc_Some in Hq.
      destruct Hq as [[_ Hq]|[-> _]]; [|done].
      exfalso. assert (at_index !! fp_path p = Some i) as Hs; [|by rewrite Hp in Hs].
      apply Hi. by rewrite Hq, E.
  - rewrite lookup_insert_ne by done. rewrite Hi, !fmap_Some.
    setoid_rewrite lookup_snoc_Some. split.
    + intros (q & Hq & ->). exists q. split; [left|done]. split; [|done].
      by eapply lookup_lt_Some.
    + intros (q & [[_ ?]|[_ ->]] & ?); [eauto|done].
Qed.

Lemma widen_raise l folded at_index p i :
  widen_inv l folded at_index → at_index !! fp_path p = Some i →
  fp_access p = "read-write" →
  widen_inv (l ++ [p]) (alter (λ q, mkPerm (fp_path q) "read-write") i folded) at_index.
Proof.
  intros (Hi & Ha & Hb & Hc) Hp Hrw.
  assert (fp_path <$> alter (λ q, mkPerm (fp_path q) "read-write") i folded =
    fp_path <$> folded) as Hpaths by by apply alter_path.
  pose proof (proj1 (Hi _ _) Hp) as (q & Hq & E)%fmap_Some.
  assert (p ∈ alter (λ q, mkPerm (fp_path q) "read-write") i folded) as Hin.
  { apply list_elem_of_lookup. exists i. rewrite list_lookup_alter, decide_True by done.
    rewrite Hq. simpl. by rewrite <-E, perm_eta. }
  split_and!.
  - intros path j. by rewrite Hi, <-!list_lookup_fmap, Hpaths.
  - intros x [j Hj]%list_elem_of_lookup. rewrite list_lookup_alter in Hj.
    case_decide as Hij; [subst|by apply elem_of_app; left; eapply Ha, list_elem_of_lookup_2].
    rewrite Hq in Hj. injection Hj as <-. rewrite <-E, perm_eta by done. set_solver.
  - rewrite Hpaths. intros x [?| ->%list_elem_of_singleton]%elem_of_app; [auto|].
    rewrite E. by eapply list_elem_of_fmap_2, list_elem_of_lookup_2.
  - intros x [Hx| ->%list_elem_of_singleton]%elem_of_app Hxrw; [|done].
    specialize (Hc x Hx Hxrw) as [j Hj]%list_elem_of_lookup. apply list_elem_of_lookup.
    exists j. rewrite list_lookup_alter. case_decide; [subst|done].
    rewrite Hj. simpl. by rewrite perm_eta.
Qed.

Lemma widen_foldl l :
  let '(folded, at_index) := foldl widen_step ([], ∅) l in widen_inv l folded at_index.
Proof.
  induction l as [|p l IH] using rev_ind; simpl.
  - split_and!; set_solver.
  - rewrite foldl_snoc. destruct (foldl widen_step ([], ∅) l) as [folded at_index].
    unfold widen_step. destruct (at_index !! fp_path p) as [i|] eqn:E.
    + case_bool_decide; [by apply widen_raise|by eapply widen_keep].
    + by apply widen_append.
Qed.

Lemma widest_elem l p : p ∈ widestPerPath l → p ∈ l.
Proof.
  unfold widestPerPath. pose proof (widen_foldl l) as H.
  destruct (foldl _ _ _). by apply H.
Qed.

Lemma widest_path l p : p ∈ l → fp_path p ∈ fp_path <$> widestPerPath l.
Proof.
  unfold widestPerPath. pose proof (widen_foldl l) as H.
  destruct (foldl _ _ _). by apply H.
Qed.

Lemma widest_rw l p : p ∈ l → fp_access p = "read-write" → p ∈ widestPerPath l.
Proof.
  unfold widestPerPath. pose proof (widen_foldl l) as H.
  destruct (foldl _ _ _). by apply H.
Qed.

Lemma widest_nodup l : NoDup (fp_path <$> widestPerPath l).
Proof.
  unfold widestPerPath. pose proof (widen_foldl l) as H.
  destruct (foldl _ _ _) as [folded at_index]. destruct H as [Hi _].
  apply NoDup_alt. intros i j path. rewrite !list_lookup_fmap, <-!Hi. congruence.
Qed.

(** ** Migration *)
Lemma legacy_grant_valid path g :
  LegacyFilesystemGrant path = Some g →
  fp_path g = clean path ∧ fp_access g = "read-write" ∧ is_abs (fp_path g) = true ∧
  fp_path g ≠ "/" ∧ validFilesystemPath (fp_path g) = true.
Proof.
  unfold LegacyFilesystemGrant. case_if; [done|]. intros [= <-]. simpl. bools_all.
  naive_solver.
Qed.

Lemma abs_not_host path : is_abs path = true → path ≠ "host".
Proof. by intros ? ->. Qed.

Lemma legacy_grants_elem o p :
  p ∈ legacy_grants o ↔
    p ∈ Filesystem o ∨ (FsHost o = true ∧ p = mkPerm "host" "read-only") ∨
    (FsHostEtc o = true ∧ p = mkPerm "/etc" "read-only") ∨
    (FsHostHome o = true ∧ p = mkPerm "home" "read-write") ∨
    ∃ path, path ∈ FsExtra o ∧ LegacyFilesystemGrant path = Some p.
Proof.
  unfold legacy_grants. rewrite !elem_of_app, list_elem_of_omap.
  destruct (FsHost o), (FsHostEtc o), (FsHostHome o); set_solver.
Qed.

(** A policy whose typed grants validation accepts. *)
Definition valid_grants (o : Override) : Prop :=
  ValidateFilesystemPermissions (Filesystem o) = Ok tt.

Lemma legacy_grants_valid o p :
  valid_grants o → p ∈ legacy_grants o →
  validFilesystemPath (fp_path p) = true ∧ valid_access p.
Proof.
  unfold valid_grants, valid_access. rewrite validate_permissions_ok. intros [_ Hv].
  rewrite legacy_grants_elem.
  intros [?|[[_ ->]|[[_ ->]|[[_ ->]|(path & _ & Hg)]]]]; [by apply Hv|..].
  - by vm_compute; eauto.
  - split; [by vm_compute|simpl; naive_solver].
  - split; [by vm_compute|simpl; naive_solver].
  - apply legacy_grant_valid in Hg as (_&->&Habs&_&?).
    split_and!; [done|by right|]. intros E. by apply abs_not_host in Habs.
Qed.

Lemma no_legacy_grants o : has_legacy o = false → legacy_grants o = Filesystem o.
Proof.
  unfold has_legacy, legacy_grants. bools. intros [[[-> ->] ->] E].
  apply nil_length_inv in E as ->. simpl. by rewrite !app_nil_r.
Qed.

(** The migrated grants, in both branches of the migration. *)
Lemma migrated_elem o p : p ∈ Filesystem (WithMigratedFilesystem o) → p ∈ legacy_grants o.
Proof.
  unfold WithMigratedFilesystem. destruct (has_legacy o) eqn:E; simpl.
  - apply widest_elem.
  - by rewrite no_legacy_grants.
Qed.

Lemma migrated_path o p :
  p ∈ legacy_grants o → fp_path p ∈ fp_path <$> Filesystem (WithMigratedFilesystem o).
Proof.
  unfold WithMigratedFilesystem. destruct (has_legacy o) eqn:E; simpl.
  - apply widest_path.
  - rewrite no_legacy_grants by done. apply list_elem_of_fmap_2.
Qed.

Lemma migrated_rw o p :
  p ∈ legacy_grants o → fp_access p = "read-write" →
  p ∈ Filesystem (WithMigratedFilesystem o).
Proof.
  unfold WithMigratedFilesystem. destruct (has_legacy o) eqn:E; simpl.
  - apply widest_rw.
  - by rewrite no_legacy_grants.
Qed.

Lemma migrated_no_legacy o : has_legacy (WithMigratedFilesystem o) = false.
Proof. unfold WithMigratedFilesystem. by destruct (has_legacy o) eqn:E. Qed.

Lemma migrated_valid o : valid_grants o → valid_grants (WithMigratedFilesystem o).
Proof.
  intros Hv. unfold valid_grants. apply validate_permissions_ok. split.
  - unfold WithMigratedFilesystem. destruct (has_legacy o); [apply widest_nodup|].
    by apply validate_permissions_ok in Hv as [? _].
  - intros p ?%migrated_elem. by eapply legacy_grants_valid.
Qed.

(** Every grant a valid policy stands for is kept at its access or wider. *)
Lemma migrated_wider o p :
  valid_grants o → p ∈ legacy_grants o →
  ∃ q, q ∈ Filesystem (WithMigratedFilesystem o) ∧ fp_path q = fp_path p ∧
    (fp_access q = fp_access p ∨ fp_access q = "read-write" ∧ fp_access p = "read-only").
Proof.
  intros Hv Hp. pose proof (migrated_path o p Hp) as Hpath.
  apply list_elem_of_fmap in Hpath as (q & Hpq & Hq).
  pose proof (legacy_grants_valid o p Hv Hp) as [_ [Ha _]].
  destruct Ha as [Ha|Ha]; [|exists p; split_and!; [by apply migrated_rw|done|by left]].
  exists q. split_and!; [done..|]. pose proof (migrated_elem o q Hq) as Hql.
  apply legacy_grants_valid in Hql as [_ [[?|?] _]]; [left; congruence|by right|done].
Qed.

Lemma with_lists_id o :
  with_lists o (HostActions o) (SessionBus o) (Filesystem o) (FsHost o) (FsHostEtc o)
    (FsHostHome o) (FsExtra o) (AllowedHostCommands o) = o.
Proof. by destruct o. Qed.

(** The migration changes the filesystem fields only. *)
Lemma migrated_shape o :
  WithMigratedFilesystem o = with_lists o (HostActions o) (SessionBus o)
    (Filesystem (WithMigratedFilesystem o)) false false false [] (AllowedHostCommands o).
Proof.
  unfold WithMigratedFilesystem. destruct (has_legacy o) eqn:E; simpl; [done|].
  rewrite <-(with_lists_id o) at 1. unfold has_legacy in E. bools_in E.
  destruct E as [[[-> ->] ->] E]. by apply nil_length_inv in E as ->.
Qed.

(** ** Property *)

(** The migration of the legacy filesystem fields keeps a valid policy
    valid, leaves no legacy field and nothing else changed, and is idempotent.
    Its grants are grants the policy stood for, one per path, and every grant the
    policy stood for is kept at its access or at a wider one. *)
Theorem migration_exact o :
  valid_grants o →
  let m := WithMigratedFilesystem o in
  valid_grants m ∧ WithMigratedFilesystem m = m ∧
  m = with_lists o (HostActions o) (SessionBus o) (Filesystem m) false false false []
        (AllowedHostCommands o) ∧
  (∀ p, p ∈ Filesystem m → p ∈ legacy_grants o) ∧
  (∀ p, p ∈ legacy_grants o → ∃ q, q ∈ Filesystem m ∧ fp_path q = fp_path p ∧
     (fp_access q = fp_access p ∨ fp_access q = "read-write")).
Proof.
  intros Hv m. subst m. split_and!.
  - by apply migrated_valid.
  - unfold WithMigratedFilesystem at 1. by rewrite migrated_no_legacy.
  - apply migrated_shape.
  - intros p. apply migrated_elem.
  - intros p (q & ? & ? & ?)%migrated_wider; [|done]. naive_solver.
Qed.

Definition legacy_example : Override :=
  with_lists NewOverride [] no_policy [mkPerm "/etc" "read-only"; mkPerm "/srv/data" "read-only"]
    false true true ["/etc/"; "relative/path"; "/opt//games/."] [].

Lemma migration_exact_witness :
  Filesystem (WithMigratedFilesystem legacy_example) =
    [mkPerm "/etc" "read-write"; mkPerm "/srv/data" "read-only";
     mkPerm "home" "read-write"; mkPerm "/opt/games" "read-write"] ∧
  valid_grants (WithMigratedFilesystem legacy_example).
Proof.
  split; [vm_compute; reflexivity|]. apply migration_exact. vm_compute. reflexivity.
Defined.
