(* ===== verification/Applications.v ===== *)
(** * Installed applications ([pkg/types/application.go], [addon.go], [manifest.go])

    The record of an installation, the dependencies, login sessions, addons and
    runtime sources it declares. *)
From Stdlib Require Import Ascii.
From stdpp Require Import base strings list numbers.
From S2P Require Import Prelude.
From S2P Require Import GoStrings.
From S2P Require Import DBusPolicy.
From S2P Require Import HostActions.
From S2P Require Import Filesystem.
From S2P Require Import Override.
From stdpp Require Import options.

Record Dependency : Type := mkDependency {
  de_Id : string;
  de_Origin : string;
  de_Branch : string;
  de_Release : string;
  de_Commit : string;
  de_Mode : string
}.
#[export] Instance dependency_eq_dec : EqDecision Dependency.
Proof. solve_decision. Defined.

Record Session : Type := mkSession {
  ss_ID : string;
  ss_Name : string;
  ss_Description : string;
  ss_Kind : string;
  ss_Entrypoint : string;
  ss_Override : Override
}.
#[export] Instance override_eq_dec : EqDecision Override.
Proof. solve_decision. Defined.
#[export] Instance session_eq_dec : EqDecision Session.
Proof. solve_decision. Defined.

Record RuntimeSource : Type := mkSource {
  rs_Name : string;
  rs_URL : string;
  rs_SHA256 : string;
  rs_Size : Z;
  rs_Installer : string;
  rs_Destination : string;
  rs_Architecture : string
}.
#[export] Instance source_eq_dec : EqDecision RuntimeSource.
Proof. solve_decision. Defined.

Record AddonExports : Type := mkExports {
  ex_Path : list string;
  ex_LibraryPath : list string;
  ex_IncludePath : list string;
  ex_PkgConfigPath : list string;
  ex_CMakePrefixPath : list string;
  ex_Environment : list string
}.
#[export] Instance exports_eq_dec : EqDecision AddonExports.
Proof. solve_decision. Defined.

Record AddonProvider : Type := mkProvider {
  pr_ID : string;
  pr_Slot : string;
  pr_Mode : string;
  pr_Exports : AddonExports
}.
#[export] Instance provider_eq_dec : EqDecision AddonProvider.
Proof. solve_decision. Defined.

Definition AddonSlotExclusive : string := "exclusive".
Definition AddonSlotMultiple : string := "multiple".

(** The fields of [types.Application] the packages read, less its times. *)
Record Application : Type := mkApplication {
  ap_CpakId : string;
  ap_Name : string;
  ap_Version : string;
  ap_Branch : string;
  ap_Release : string;
  ap_Commit : string;
  ap_Origin : string;
  ap_Config : string;
  ap_Image : string;
  ap_ImageDigest : string;
  ap_ManifestDigest : string;
  ap_ParsedLayers : list string;
  ap_ParsedDependencies : list Dependency;
  ap_ParsedBinaries : list string;
  ap_ParsedDesktopEntries : list string;
  ap_ParsedSessions : list Session;
  ap_ParsedAddons : list string;
  ap_ParsedAddonProvider : option AddonProvider;
  ap_IdleTime : Z;
  ap_RuntimeSources : list RuntimeSource;
  ap_ParsedOverride : Override;
  ap_PulledIn : bool;
  ap_PulledInBy : string
}.
Definition IsLayer (d : Dependency) : bool := bool_decide (de_Mode d = "layer").

Definition IsNested (d : Dependency) : bool :=
  bool_decide (de_Mode d = "") || bool_decide (de_Mode d = "nested").

Definition SourceType (a : Application) : string :=
  if negb (bool_decide (ap_Branch a = "")) then "branch"
  else if negb (bool_decide (ap_Release a = "")) then "release"
  else if negb (bool_decide (ap_Commit a = "")) then "commit" else "unknown".
