(* ===== verification/Composition.v ===== *)
(** * The layers an application is composed of ([pkg/cpak/composition.go])

    The depth-first resolution of layer dependencies over the records of the store, and
    the layers that are mounted: the resolution ends, answers every component below the
    application once and after what it is built on, and fails only for a component that
    cannot be loaded, a record of another origin, or a cycle. *)
From stdpp Require Import base strings list numbers gmap relations.
From S2P Require Import Prelude.
From S2P Require Import GoStrings.
From S2P Require Import Override.
From S2P Require Import Applications.
From stdpp Require Import options.

#[local] Open Scope nat_scope.

(** ** The resolution *)
Inductive composition_error : Type :=
  | ComponentMissing (origin : string) | ComponentMismatch (origin : string) | LayerCycle (origin : string).
#[export] Instance composition_error_eq_dec : EqDecision composition_error.
Proof. solve_decision. Defined.

(** [states] of the code: a component is being visited (1), or was (2). *)
Inductive visit_state : Type := Visiting | Done.
#[export] Instance visit_state_eq_dec : EqDecision visit_state.
Proof. solve_decision. Defined.

Record progress : Type := mkProgress { pg_states : gmap string visit_state; pg_components : list Application }.
Definition enter (id : string) (st : progress) : progress := mkProgress (<[id := Visiting]> (pg_states st)) (pg_components st).
Definition leave (component : Application) (st : progress) : progress :=
  mkProgress (<[ap_CpakId component := Done]> (pg_states st)) (pg_components st ++ [component]).

(** The records the store can load: a lookup that fails, because there is no record or
    because it cannot be read, ends the resolution with the same error, so both are a
    record this map does not have. *)
Section Composition.
Context (store : gmap string Application).

(** The closure [visit], whose recursion is bounded by [fuel]: no answer when it runs
    out. *)
Fixpoint visit (fuel : nat) : list Dependency → progress → option (result composition_error progress) :=
  fix loop dependencies st :=
    match dependencies with
    | [] => Some (Ok st)
    | dependency :: dependencies =>
        if negb (IsLayer dependency) then loop dependencies st
        else match store !! de_Id dependency with
        | None => Some (Err (ComponentMissing (de_Origin dependency)))
        | Some component =>
            if negb (bool_decide (ap_Origin component = de_Origin dependency))
            then Some (Err (ComponentMismatch (de_Origin dependency)))
            else match pg_states st !! ap_CpakId component with
            | Some Visiting => Some (Err (LayerCycle (ap_Origin component)))
            | Some Done => loop dependencies st
            | None =>
                match fuel with
                | 0 => None
                | S fuel =>
                    match visit fuel (ap_ParsedDependencies component) (enter (ap_CpakId component) st) with
                    | Some (Ok st) => loop dependencies (leave component st)
                    | other => other
                    end
                end
            end
        end
    end.

Definition resolve_fuel (fuel : nat) (app : Application) : option (result composition_error (list Application)) :=
  if bool_decide (ap_ParsedDependencies app = []) then Some (Ok [])
  else match visit fuel (ap_ParsedDependencies app) (mkProgress {[ap_CpakId app := Visiting]} []) with
  | Some (Ok st) => Some (Ok (pg_components st))
  | Some (Err e) => Some (Err e)
  | None => None
  end.
(** Every visit marks a record of the store, so there are no more of them. *)
Definition resolveLayerDependenciesFromStore (app : Application) : option (result composition_error (list Application)) :=
  resolve_fuel (size store) app.
End Composition.

(** ** The layers *)
Fixpoint append_layers (seen values : list string) : list string :=
  match values with
  | [] => []
  | layer :: values =>
      if bool_decide (layer = "") || bool_decide (layer ∈ seen) then append_layers seen values
      else layer :: append_layers (layer :: seen) values
  end.
(** The loop over the lists shares what was seen. *)
Definition composedLayers (app : Application) (components addons : list Application) : list string :=
  append_layers [] (concat (ap_ParsedLayers <$> components) ++ ap_ParsedLayers app ++ concat (ap_ParsedLayers <$> addons)).
Definition combinedLayers (app : Application) (addons : list Application) : list string :=
  append_layers [] (ap_ParsedLayers app ++ concat (ap_ParsedLayers <$> addons)).

(** ** The graph of layer dependencies *)
Section Resolution.
Context (store : gmap string Application) (app : Application).
Let root := ap_CpakId app.

(** The engine files a record under its identifier. *)
Definition keyed : Prop := map_Forall (λ id a, ap_CpakId a = id) store.

Definition record_of (id : string) : option Application := if bool_decide (id = root) then Some app else store !! id.
Definition layer_ids (a : Application) : list string := de_Id <$> filter (λ d, IsLayer d = true) (ap_ParsedDependencies a).
Definition edge (parent child : string) : Prop := ∃ a, record_of parent = Some a ∧ child ∈ layer_ids a.
Definition ids (l : list Application) : list string := ap_CpakId <$> l.

Lemma record_root : record_of root = Some app.
Proof. unfold record_of. by rewrite bool_decide_eq_true_2. Qed.
Lemma record_store id a : id ≠ root → store !! id = Some a → record_of id = Some a.
Proof. intros H. unfold record_of. by rewrite bool_decide_eq_false_2. Qed.

Lemma layer_ids_elem a d : d ∈ ap_ParsedDependencies a → IsLayer d = true → de_Id d ∈ layer_ids a.
Proof. intros Hd Hl. apply list_elem_of_fmap. exists d. split; [done|]. by apply list_elem_of_filter. Qed.

(** What is wrong when there is no answer. *)
Definition defect (e : composition_error) : Prop :=
  match e with
  | ComponentMissing origin => ∃ p a d, rtc edge root p ∧ record_of p = Some a ∧ d ∈ ap_ParsedDependencies a ∧
      IsLayer d = true ∧ de_Origin d = origin ∧ store !! de_Id d = None
  | ComponentMismatch origin => ∃ p a d c, rtc edge root p ∧ record_of p = Some a ∧ d ∈ ap_ParsedDependencies a ∧
      IsLayer d = true ∧ de_Origin d = origin ∧ store !! de_Id d = Some c ∧ ap_Origin c ≠ origin
  | LayerCycle origin => ∃ id c, rtc edge root id ∧ tc edge id id ∧ store !! id = Some c ∧ ap_Origin c = origin
  end.

(** *** What holds along the way *)
Record sound (parent : string) (path : list string) (st : progress) : Prop := {
  so_visiting : ∀ id, pg_states st !! id = Some Visiting ↔ id ∈ path;
  so_done : ∀ id, pg_states st !! id = Some Done ↔ id ∈ ids (pg_components st);
  so_nodup : NoDup (ids (pg_components st));
  so_stored : ∀ c, c ∈ pg_components st → store !! ap_CpakId c = Some c ∧ tc edge root (ap_CpakId c);
  so_order : ∀ l1 c l2, pg_components st = l1 ++ c :: l2 → ∀ id, id ∈ layer_ids c → id ∈ ids l1;
  so_path : ∀ id, id ∈ path → rtc edge id parent ∧ rtc edge root id;
  so_root : root ∈ path ∧ parent ∈ path
}.

Lemma visit_cons fuel d ds st :
  visit store fuel (d :: ds) st =
    if negb (IsLayer d) then visit store fuel ds st
    else match store !! de_Id d with
    | None => Some (Err (ComponentMissing (de_Origin d)))
    | Some component =>
        if negb (bool_decide (ap_Origin component = de_Origin d)) then Some (Err (ComponentMismatch (de_Origin d)))
        else match pg_states st !! ap_CpakId component with
        | Some Visiting => Some (Err (LayerCycle (ap_Origin component)))
        | Some Done => visit store fuel ds st
        | None =>
            match fuel with
            | 0 => None
            | S fuel' =>
                match visit store fuel' (ap_ParsedDependencies component) (enter (ap_CpakId component) st) with
                | Some (Ok st) => visit store fuel ds (leave component st)
                | other => other
                end
            end
        end
    end.
Proof. by destruct fuel. Qed.

Lemma visit_nil fuel st : visit store fuel [] st = Some (Ok st).
Proof. by destruct fuel. Qed.

Lemma sound_enter parent path st id :
  sound parent path st → edge parent id → pg_states st !! id = None → sound id (id :: path) (enter id st).
Proof.
  intros [H1 H2 H3 H4 H5 H6 H7] He Hid.
  assert (rtc edge root id) as Hroot by (eapply rtc_r; [by apply H6, H7|done]).
  split; cbn [enter pg_states pg_components]; [| |done..| |].
  - intros x. rewrite elem_of_cons. destruct (decide (x = id)) as [->|Hx]; [by rewrite lookup_insert_eq; tauto|].
    rewrite lookup_insert_ne, H1 by done. tauto.
  - intros x. rewrite <- H2. destruct (decide (x = id)) as [->|Hx]; [by rewrite lookup_insert_eq, Hid|].
    by rewrite lookup_insert_ne.
  - intros x [->|Hx]%elem_of_cons; [by split|]. split; [|by apply H6]. eapply rtc_r; [by apply H6|done].
  - split; [right; apply H7|left].
Qed.

Lemma sound_leave parent path st c :
  sound parent path st → path = ap_CpakId c :: tail path → NoDup path → ap_CpakId c ≠ root →
  store !! ap_CpakId c = Some c → tc edge root (ap_CpakId c) →
  (∀ id, id ∈ layer_ids c → id ∈ ids (pg_components st)) →
  ∀ parent', parent' ∈ tail path → (∀ id, id ∈ tail path → rtc edge id parent') →
  sound parent' (tail path) (leave c st).
Proof.
  intros [H1 H2 H3 H4 H5 H6 H7] Hp Hnd Hr Hc Ht Hd parent' Hin Hpath.
  assert (∀ x, x ∈ path ↔ x = ap_CpakId c ∨ x ∈ tail path) as Hx by (intros x; rewrite Hp at 1; apply elem_of_cons).
  rewrite Hp in Hnd. apply NoDup_cons in Hnd as [Hnot _].
  assert (ap_CpakId c ∉ ids (pg_components st)) as Hnew.
  { rewrite <- H2. intros E. assert (pg_states st !! ap_CpakId c = Some Visiting) as E' by (apply H1, Hx; by left). congruence. }
  split; unfold ids in *; cbn [leave pg_states pg_components].
  - intros x. destruct (decide (x = ap_CpakId c)) as [->|Hne].
    + rewrite lookup_insert_eq. split; [done|]. by intros ?%Hnot.
    + rewrite lookup_insert_ne, H1, Hx by done. tauto.
  - intros x. rewrite fmap_app, elem_of_app, <- H2. cbn [fmap list_fmap]. rewrite list_elem_of_singleton.
    destruct (decide (x = ap_CpakId c)) as [->|Hne]; [rewrite lookup_insert_eq; tauto|].
    rewrite lookup_insert_ne by done. tauto.
  - rewrite fmap_app. apply NoDup_app. split; [done|]. split; [|by apply NoDup_singleton].
    intros x Hx1 ->%list_elem_of_singleton. done.
  - intros x [Hx'| ->%list_elem_of_singleton]%elem_of_app; [by apply H4|done].
  - intros l1 x l2 E id Hid. destruct (decide (l2 = [])) as [->|Hl].
    + apply app_inj_tail in E as [<- <-]. by apply Hd.
    + destruct (exists_last Hl) as (l2' & y & ->). rewrite app_comm_cons, app_assoc in E.
      apply app_inj_tail in E as [E _]. by eapply H5.
  - intros id Hid. split; [by apply Hpath|]. apply H6, Hx. by right.
  - split; [|done]. destruct H7 as [Hr' _]. apply Hx in Hr' as [Hr'|Hr']; [by rewrite <- Hr' in Hr|done].
Qed.

Lemma visit_sound fuel ds st parent path a r :
  keyed → NoDup path → record_of parent = Some a → (∀ d, d ∈ ds → d ∈ ap_ParsedDependencies a) →
  sound parent path st → visit store fuel ds st = Some r →
  match r with
  | Ok st' => sound parent path st' ∧ (∃ new, pg_components st' = pg_components st ++ new) ∧
      ∀ d, d ∈ ds → IsLayer d = true → de_Id d ∈ ids (pg_components st')
  | Err e => defect e
  end.
Proof.
  intros Hkey. revert ds st parent path a r. induction fuel as [fuel IHfuel] using lt_wf_ind.
  induction ds as [|d ds IH]; intros st parent path a r Hpath Hnode Hin Hs.
  { rewrite visit_nil. intros [= <-]. split; [done|]. split; [by exists []; rewrite app_nil_r|]. by intros d ?%elem_of_nil. }
  assert (rtc edge root parent) as Hparent by (apply (so_path _ _ _ Hs), (so_root _ _ _ Hs)).
  assert (∀ d, d ∈ ds → d ∈ ap_ParsedDependencies a) as Hin' by (intros; apply Hin; by right).
  assert (∀ st1, sound parent path st1 → (∃ new, pg_components st1 = pg_components st ++ new) →
    (IsLayer d = true → de_Id d ∈ ids (pg_components st1)) → visit store fuel ds st1 = Some r →
    match r with
    | Ok st' => sound parent path st' ∧ (∃ new, pg_components st' = pg_components st ++ new) ∧
        ∀ d', d' ∈ d :: ds → IsLayer d' = true → de_Id d' ∈ ids (pg_components st')
    | Err e => defect e
    end) as Hrest.
  { intros st1 Hs1 (new1 & E1) Hd1 H. specialize (IH st1 parent path a r Hpath Hnode Hin' Hs1 H). destruct r as [st'|e]; [|done].
    destruct IH as (Hs' & (new & E) & Hds). split; [done|]. split; [exists (new1 ++ new); by rewrite E, E1, app_assoc|].
    intros d' [->|Hd']%elem_of_cons Hl; [|by apply Hds]. rewrite E. unfold ids. rewrite fmap_app. apply elem_of_app. left. by apply Hd1. }
  rewrite visit_cons. destruct (IsLayer d) eqn:Hl; cbn [negb]; [|apply Hrest; [done|by exists []; rewrite app_nil_r|done]].
  assert (d ∈ ap_ParsedDependencies a) as Hda by (apply Hin; left).
  destruct (store !! de_Id d) as [c|] eqn:Ec; [|intros [= <-]; by exists parent, a, d].
  pose proof (Hkey _ _ Ec) as Hid. cbn beta in Hid. rewrite Hid.
  case_bool_decide as Ho; cbn [negb]; [|intros [= <-]; by exists parent, a, d, c].
  assert (edge parent (de_Id d)) as He by (exists a; split; [done|by apply layer_ids_elem]).
  destruct (pg_states st !! de_Id d) as [[]|] eqn:Est.
  - intros [= <-]. exists (de_Id d), c. apply (so_visiting _ _ _ Hs), (so_path _ _ _ Hs) in Est as [E1 E2].
    split; [done|]. split; [by eapply tc_rtc_l; [|apply tc_once]|]. by rewrite Ec.
  - apply Hrest; [done|by exists []; rewrite app_nil_r|]. intros _. by apply (so_done _ _ _ Hs).
  - destruct fuel as [|fuel]; [done|].
    assert (de_Id d ∉ path) as Hnew by (intros E%(so_visiting _ _ _ Hs); congruence).
    assert (de_Id d ≠ root) as Hroot by (intros E; apply Hnew; rewrite E; apply (so_root _ _ _ Hs)).
    destruct (visit store fuel (ap_ParsedDependencies c) (enter (de_Id d) st)) as [[st1|e]|] eqn:Ev; [| |done].
    + apply (IHfuel fuel ltac:(lia) _ _ (de_Id d) (de_Id d :: path) c) in Ev as (Hs1 & (new & E1) & Hd1);
        [|by apply NoDup_cons|by apply record_store|done|by eapply sound_enter].
      apply Hrest.
      * rewrite <- Hid in Hs1, Ec, Hroot, He, Hnew. eapply (sound_leave _ _ _ c Hs1); [done|..].
        -- by apply NoDup_cons.
        -- done.
        -- exact Ec.
        -- by eapply tc_rtc_l; [exact Hparent|apply tc_once].
        -- intros id (d' & -> & [Hl' Hd']%list_elem_of_filter)%list_elem_of_fmap. by apply Hd1.
        -- apply (so_root _ _ _ Hs).
        -- intros id Hid'. by apply (so_path _ _ _ Hs).
      * exists (new ++ [c]). cbn [leave pg_components]. rewrite E1. cbn [enter pg_components]. by rewrite app_assoc.
      * intros _. unfold ids. cbn [leave pg_components]. rewrite fmap_app. apply elem_of_app. right. cbn. rewrite Hid. by left.
    + intros [= <-]. apply (IHfuel fuel ltac:(lia) _ _ (de_Id d) (de_Id d :: path) c) in Ev;
        [done|by apply NoDup_cons|by apply record_store|done|by eapply sound_enter].
Qed.

(** *** The recursion ends *)
Definition visited (st : progress) : gset string := dom (pg_states st).
Definition unvisited (st : progress) : nat := size (dom store ∖ visited st).

Lemma unvisited_less st st' : visited st ⊆ visited st' → unvisited st' ≤ unvisited st.
Proof. intros H. unfold unvisited. apply subseteq_size. set_solver. Qed.

Lemma unvisited_enter st id : is_Some (store !! id) → pg_states st !! id = None → unvisited (enter id st) < unvisited st.
Proof.
  intros Hs Hn. unfold unvisited. apply subset_size. unfold visited, enter. cbn [pg_states]. rewrite dom_insert_L.
  apply elem_of_dom in Hs. apply not_elem_of_dom in Hn. set_solver.
Qed.

Lemma visit_total fuel ds st :
  keyed → unvisited st ≤ fuel →
  ∃ r, visit store fuel ds st = Some r ∧ ∀ st', r = Ok st' → visited st ⊆ visited st'.
Proof.
  intros Hkey. revert ds st. induction fuel as [fuel IHfuel] using lt_wf_ind.
  induction ds as [|d ds IH]; intros st Hst.
  { rewrite visit_nil. eexists. split; [done|]. by intros st' [= <-]. }
  rewrite visit_cons. destruct (IsLayer d); cbn [negb]; [|by apply IH].
  destruct (store !! de_Id d) as [c|] eqn:Ec; [|by eexists]. pose proof (Hkey _ _ Ec) as Hid. cbn beta in Hid. rewrite Hid.
  case_bool_decide; cbn [negb]; [|by eexists].
  destruct (pg_states st !! de_Id d) as [[]|] eqn:Est; [by eexists|by apply IH|].
  pose proof (unvisited_enter st (de_Id d) ltac:(by eexists) Est) as Hless.
  destruct fuel as [|fuel]; [lia|].
  destruct (IHfuel fuel ltac:(lia) (ap_ParsedDependencies c) (enter (de_Id d) st) ltac:(lia)) as (r & -> & Hr).
  destruct r as [st1|e]; [|by eexists]. specialize (Hr st1 eq_refl).
  assert (visited st ⊆ visited (leave c st1)) as Hmono.
  { unfold visited, enter, leave in *. cbn [pg_states] in *. rewrite dom_insert_L in *. set_solver. }
  destruct (IH (leave c st1)) as (r & -> & Hr'); [pose proof (unvisited_less _ _ Hmono); lia|].
  eexists. split; [done|]. intros st' E. specialize (Hr' st' E). etrans; [exact Hmono|exact Hr'].
Qed.

Lemma sound_start : sound root [root] (mkProgress {[root := Visiting]} []).
Proof.
  split; cbn [pg_states pg_components].
  - intros id. rewrite list_elem_of_singleton, lookup_singleton_Some. naive_solver.
  - intros id. rewrite lookup_singleton_Some. split; [by intros [_ ?]|by intros ?%elem_of_nil].
  - by apply NoDup_nil.
  - by intros c ?%elem_of_nil.
  - intros l1 c l2 E. by destruct l1.
  - by intros id ->%list_elem_of_singleton.
  - split; by left.
Qed.

(** C22: Resolving the layers an application is built on always ends, within as many
    nested visits as the store has records.  It answers every component that layer
    dependencies reach from the application and nothing else, each once, as the store
    holds it, after everything it is itself built on, and never the application; and
    it fails only because a dependency that is reached cannot be loaded from the store,
    is there under another origin, or is part of a cycle. *)
Theorem composition_resolves :
  keyed →
  ∃ r, resolveLayerDependenciesFromStore store app = Some r ∧
  match r with
  | Ok components =>
      NoDup (ids components) ∧ root ∉ ids components ∧
      (∀ id, id ∈ ids components ↔ tc edge root id) ∧
      (∀ c, c ∈ components → store !! ap_CpakId c = Some c) ∧
      (∀ before c after, components = before ++ c :: after → ∀ id, id ∈ layer_ids c → id ∈ ids before)
  | Err e => defect e
  end.
Proof.
  intros Hkey. unfold resolveLayerDependenciesFromStore, resolve_fuel.
  case_bool_decide as Hnil.
  { eexists. split; [done|]. cbn. split; [by apply NoDup_nil|]. split; [by apply not_elem_of_nil|].
    split; [|split; [by intros c ?%elem_of_nil|by intros [] ]].
    assert (∀ id, ¬ edge root id) as Hno.
    { intros id (a & Ha & Hid). rewrite record_root in Ha. injection Ha as <-. unfold layer_ids in Hid. rewrite Hnil in Hid. by apply elem_of_nil in Hid. }
    intros id. split; [by intros ?%elem_of_nil|]. intros H. exfalso. by inversion H as [? ? He|? ? ? He]; apply Hno in He. }
  set (st := mkProgress {[ap_CpakId app := Visiting]} []).
  destruct (visit_total (size store) (ap_ParsedDependencies app) st Hkey) as (r & Hr & _).
  { rewrite <- (size_dom (D:=gset string)). unfold unvisited. apply subseteq_size. set_solver. }
  rewrite Hr. apply (visit_sound _ _ _ root [root] app) in Hr; [|done|by apply NoDup_singleton|apply record_root|done|apply sound_start].
  destruct r as [st'|e]; [|by eexists]. destruct Hr as (Hs & _ & Hall). eexists. split; [done|]. cbn beta iota.
  assert (∀ id, edge root id → id ∈ ids (pg_components st')) as Hfirst.
  { intros id (a & Ha & Hid). rewrite record_root in Ha. injection Ha as <-.
    apply list_elem_of_fmap in Hid as (d & -> & [Hl Hd]%list_elem_of_filter). by apply Hall. }
  assert (root ∉ ids (pg_components st')) as Hnot.
  { rewrite <- (so_done _ _ _ Hs). intros E. assert (pg_states st' !! root = Some Visiting) as E' by (apply (so_visiting _ _ _ Hs); by left). congruence. }
  split; [apply (so_nodup _ _ _ Hs)|]. split; [exact Hnot|]. split; [|split; [intros c Hc; by apply (so_stored _ _ _ Hs)|apply (so_order _ _ _ Hs)]].
  intros id. split.
  - intros (c & -> & Hc)%list_elem_of_fmap. by apply (so_stored _ _ _ Hs).
  - revert id. refine (tc_ind_r (λ id, id ∈ ids (pg_components st')) root Hfirst _). intros x id Hx He IH.
    apply list_elem_of_fmap in IH as (c & -> & Hc). pose proof Hc as (l1 & l2 & E)%list_elem_of_split.
    destruct He as (a & Ha & Hid).
    assert (ap_CpakId c ≠ root) as Hne by (intros E'; apply Hnot; rewrite <- E'; by apply list_elem_of_fmap_2).
    rewrite (record_store _ c Hne) in Ha by (by apply (so_stored _ _ _ Hs)). injection Ha as <-.
    unfold ids. rewrite E, fmap_app. apply elem_of_app. left. by eapply (so_order _ _ _ Hs).
Qed.
End Resolution.

(** ** The layers *)
Lemma append_layers_elem seen l x : x ∈ append_layers seen l ↔ x ∈ l ∧ x ≠ "" ∧ x ∉ seen.
Proof.
  revert seen. induction l as [|y l IH]; intros seen; cbn [append_layers].
  - split; [by intros ?%elem_of_nil|by intros [?%elem_of_nil _]].
  - destruct (bool_decide (y = "") || bool_decide (y ∈ seen)) eqn:E; bools_in E.
    + rewrite IH, elem_of_cons. naive_solver.
    + rewrite elem_of_cons, IH, !elem_of_cons. destruct (decide (x = y)); naive_solver.
Qed.

Lemma append_layers_nodup seen l : NoDup (append_layers seen l).
Proof.
  revert seen. induction l as [|y l IH]; intros seen; cbn [append_layers]; [by apply NoDup_nil|].
  case_match; [done|]. apply NoDup_cons. split; [|done]. rewrite append_layers_elem, elem_of_cons. tauto.
Qed.

Lemma append_layers_first seen l1 x l2 :
  x ≠ "" → x ∉ l1 → x ∉ seen → ∃ rest, append_layers seen (l1 ++ x :: l2) = append_layers seen l1 ++ x :: rest.
Proof.
  intros Hx. revert seen. induction l1 as [|y l1 IH]; intros seen Hl Hs; cbn [app append_layers].
  - rewrite !bool_decide_eq_false_2 by done. by eexists.
  - apply not_elem_of_cons in Hl as [Hy Hl]. case_match; [by apply IH|].
    destruct (IH (y :: seen) Hl) as (rest & ->); [by rewrite not_elem_of_cons|]. by eexists.
Qed.

Lemma append_layers_app seen xs ys : ∃ more, append_layers seen (xs ++ ys) = append_layers seen xs ++ more.
Proof.
  revert seen. induction xs as [|x xs IH]; intros seen; cbn [app append_layers]; [by eexists|]. case_match; [apply IH|].
  destruct (IH (x :: seen)) as (more & ->). by exists more.
Qed.

(** A launch is composed of every layer of its components, of the application
    and of its addons, each once and none of them empty, and adding addons adds
    layers after the others without moving one. *)
Theorem composed_layers_spec app components addons :
  let layers := composedLayers app components addons in
  NoDup layers ∧ "" ∉ layers ∧
  (∀ x, x ∈ layers ↔ x ≠ "" ∧
    ((∃ c, c ∈ components ∧ x ∈ ap_ParsedLayers c) ∨ x ∈ ap_ParsedLayers app ∨
     ∃ a, a ∈ addons ∧ x ∈ ap_ParsedLayers a)) ∧
  ∃ more, layers = composedLayers app components [] ++ more.
Proof.
  cbv zeta. unfold composedLayers.
  assert (∀ x (l : list Application), x ∈ concat (ap_ParsedLayers <$> l) ↔ ∃ a, a ∈ l ∧ x ∈ ap_ParsedLayers a) as Hin.
  { intros x l. induction l as [|a l IH]; cbn [fmap list_fmap concat].
    - split; [by intros ?%elem_of_nil|by intros (a & ?%elem_of_nil & _)].
    - rewrite elem_of_app, IH. setoid_rewrite elem_of_cons. split.
      + intros [Hx|(c & Hc & Hx)]; [exists a; by split; [left|]|exists c; by split; [right|]].
      + intros (c & [->|Hc] & Hx); [by left|right; by exists c]. }
  split; [apply append_layers_nodup|]. split; [rewrite append_layers_elem; tauto|]. split.
  - intros x. rewrite append_layers_elem, !elem_of_app, !Hin. pose proof (not_elem_of_nil x). tauto.
  - rewrite fmap_nil. cbn [concat]. rewrite app_nil_r, (assoc_L (++)). apply append_layers_app.
Qed.

(** The layers that are mounted are those of the components, of the application and
    of its addons: each that has a name once, in the order in which they first appear,
    so that a layer of a component lies below every layer that only what is built on
    it has. *)
Theorem composed_layers_ordered app components addons :
  let all := concat (ap_ParsedLayers <$> components) ++ ap_ParsedLayers app ++ concat (ap_ParsedLayers <$> addons) in
  NoDup (composedLayers app components addons) ∧
  (∀ x, x ∈ composedLayers app components addons ↔ x ≠ "" ∧ x ∈ all) ∧
  (∀ l1 x l2, all = l1 ++ x :: l2 → x ∉ l1 → x ≠ "" →
     ∃ below above, composedLayers app components addons = below ++ x :: above ∧ ∀ y, y ∈ below ↔ y ≠ "" ∧ y ∈ l1).
Proof.
  intros all. unfold composedLayers. fold all. split; [apply append_layers_nodup|]. split.
  - intros x. rewrite append_layers_elem. pose proof (not_elem_of_nil x). tauto.
  - intros l1 x l2 -> Hl Hx. destruct (append_layers_first [] l1 x l2 Hx Hl (not_elem_of_nil x)) as (rest & ->).
    exists (append_layers [] l1), rest. split; [done|]. intros y. rewrite append_layers_elem. pose proof (not_elem_of_nil y). tauto.
Qed.

(** ** Examples *)
Definition example_component (id : string) (dependencies : list string) : Application :=
  mkApplication id id "1" "" "v1" "" id "" "" "" "" [id +:+ "-layer"]
    ((λ d, mkDependency d d "" "" "" "layer") <$> dependencies) [] [] [] [] None 0 [] NewOverride false "".
Definition example_store (l : list Application) : gmap string Application := list_to_map ((λ a, (ap_CpakId a, a)) <$> l).

Example diamond :
  let store := example_store [example_component "base" []; example_component "gtk" ["base"]; example_component "qt" ["base"]] in
  match resolveLayerDependenciesFromStore store (example_component "app" ["gtk"; "qt"]) with
  | Some (Ok l) => ids l = ["base"; "gtk"; "qt"]
  | _ => False
  end.
Proof. vm_compute. reflexivity. Qed.

Lemma composition_resolves_witness :
  ∃ r, resolveLayerDependenciesFromStore
      (example_store [example_component "gtk" ["base"]; example_component "base" ["gtk"]]) (example_component "app" ["gtk"]) = Some r ∧
    r = Err (LayerCycle "gtk").
Proof.
  destruct (composition_resolves (example_store [example_component "gtk" ["base"]; example_component "base" ["gtk"]])
    (example_component "app" ["gtk"])) as (r & Hr & _).
  - apply map_Forall_to_list. vm_compute. repeat constructor.
  - exists r. split; [exact Hr|]. vm_compute in Hr. injection Hr as <-. reflexivity.
Defined.
