(* ===== verification/Hex.v ===== *)
(** * Hexadecimal

    The digits of [encoding/hex], which also appear in the escapes of JSON. *)
From Stdlib Require Import Ascii.
From stdpp Require Import base strings list.
From S2P Require Import Prelude.
From S2P Require Import GoStrings.
From S2P Require Import Utf8.
From stdpp Require Import options.

Definition hex_digit (n : N) : ascii :=
  ascii_of_N (if (n <? 10)%N then n + 48 else n + 87).

Definition hex_value (c : ascii) : N :=
  let n := byte c in if (n <? 58)%N then n - 48 else n - 87.

(** [hex.EncodeToString]. *)
Fixpoint hex_encode (s : string) : string :=
  match s with
  | "" => ""
  | String c s =>
      String (hex_digit (byte c / 16)) (String (hex_digit (byte c mod 16)) (hex_encode s))
  end.

(** A property of the sixteen nibbles is checked on each. *)
Lemma nibbles (P : N → Prop) n : Forall P (N.of_nat <$> seq 0 16) → (n < 16)%N → P n.
Proof.
  rewrite Forall_forall. intros HP Hn. apply HP, list_elem_of_fmap.
  exists (N.to_nat n). rewrite elem_of_seq. lia.
Qed.

Lemma hex_value_digit n : (n < 16)%N → hex_value (hex_digit n) = n.
Proof. apply (nibbles (λ n, hex_value (hex_digit n) = n)). repeat constructor. Qed.

Lemma high_nibble c : (byte c / 16 < 16)%N.
Proof. pose proof (byte_bound c). apply N.Div0.div_lt_upper_bound; lia. Qed.
Lemma low_nibble c : (byte c mod 16 < 16)%N.
Proof. by apply N.mod_lt. Qed.
#[export] Hint Resolve high_nibble low_nibble : core.

Lemma hex_digit_inj m n : (m < 16)%N → (n < 16)%N → hex_digit m = hex_digit n → m = n.
Proof. intros Hm Hn E. by rewrite <-(hex_value_digit m Hm), E, hex_value_digit. Qed.

Lemma byte_inj a b : byte a = byte b → a = b.
Proof. unfold byte. intros E. by rewrite <-(ascii_N_embedding a), E, ascii_N_embedding. Qed.

Lemma hex_encode_inj s t : hex_encode s = hex_encode t → s = t.
Proof.
  revert t. induction s as [|a s IH]; intros [|b t]; try done. cbn [hex_encode]. intros E.
  injection E as E1 E2 E3.
  apply hex_digit_inj in E1; [|done..]. apply hex_digit_inj in E2; [|done..].
  rewrite (IH t E3), (byte_inj a b); [done|].
  rewrite (N.div_mod (byte a) 16), (N.div_mod (byte b) 16) by done. by rewrite E1, E2.
Qed.

(** A byte that is not a digit does not appear. *)
Lemma hex_no_byte c s : hex_digit (hex_value c) ≠ c → has_byte c (hex_encode s) = false.
Proof.
  intros Hc. unfold has_byte, str_exists. apply negb_false_iff.
  induction s as [|a s IH]; [done|]. cbn [hex_encode str_forall]. rewrite IH, andb_true_r.
  assert (∀ n, (n < 16)%N → negb (bool_decide (hex_digit n = c)) = true) as Hd.
  { intros n Hn. apply negb_true_iff, bool_decide_eq_false. intros <-. apply Hc. by rewrite hex_value_digit. }
  by rewrite !Hd.
Qed.

Lemma hex_no_newline s : has_byte "010" (hex_encode s) = false.
Proof. by apply hex_no_byte. Qed.

(** ** Decoding *)
Definition hex_nibble (c : ascii) : option N :=
  let n := byte c in
  if within 48 57 n then Some (n - 48)%N
  else if within 97 102 n then Some (n - 87)%N
  else if within 65 70 n then Some (n - 55)%N
  else None.

(** [hex.DecodeString]. *)
Fixpoint hex_decode (s : string) : option string :=
  match s with
  | "" => Some ""
  | String a (String b s) =>
      x ← hex_nibble a; y ← hex_nibble b; rest ← hex_decode s;
      Some (String (ascii_of_N (16 * x + y)) rest)
  | String _ "" => None
  end.

Lemma hex_nibble_digit n : (n < 16)%N → hex_nibble (hex_digit n) = Some n.
Proof. apply (nibbles (λ n, hex_nibble (hex_digit n) = Some n)). repeat constructor. Qed.

Lemma hex_round_trip s : hex_decode (hex_encode s) = Some s.
Proof.
  induction s as [|a s IH]; [done|]. cbn [hex_encode hex_decode].
  rewrite !hex_nibble_digit, IH by done.
  simpl. do 2 f_equal. rewrite <-N.div_mod by done. apply ascii_N_embedding.
Qed.
