(* ===== verification/Base64.v ===== *)
(** * Base 64 ([encoding/base64])

    The standard encoding, as the bus carries evidence: the encoder and the strict
    decoder, which takes one text per sequence of bytes but for the line breaks
    it passes over. *)
From Stdlib Require Import Ascii.
From stdpp Require Import base strings list numbers.
From S2P Require Import Prelude.
From S2P Require Import GoStrings.
From S2P Require Import Regex.
From stdpp Require Import options.

#[local] Ltac Zify.zify_post_hook ::= Z.to_euclidean_division_equations.

Definition base64_std_char (n : N) : ascii :=
  ascii_of_N (if n <? 26 then n + 65 else if n <? 52 then n + 71
    else if n <? 62 then n - 4 else if n =? 62 then 43 else 47)%N.
Definition base64_value (c : ascii) : option N :=
  let n := byte c in
  (if (65 <=? n) && (n <=? 90) then Some (n - 65) else
   if (97 <=? n) && (n <=? 122) then Some (n - 71) else
   if (48 <=? n) && (n <=? 57) then Some (n + 4) else
   if n =? 43 then Some 62 else if n =? 47 then Some 63 else None)%N.

Definition pad : ascii := "=".

(** Three bytes as one number, and its four digits. *)
Definition three (a b c : N) : N := (a * 65536 + b * 256 + c)%N.
Definition four (a b c d : N) : N := (a * 262144 + b * 4096 + c * 64 + d)%N.
Definition digit (k n : N) : ascii := base64_std_char (n / 64 ^ k mod 64).
Definition octet (k n : N) : ascii := ascii_of_N (n / 256 ^ k mod 256).

Fixpoint base64_encode (s : string) : string :=
  match s with
  | String a (String b (String c s)) =>
      let n := three (byte a) (byte b) (byte c) in
      String (digit 3 n) (String (digit 2 n) (String (digit 1 n) (String (digit 0 n) (base64_encode s))))
  | String a (String b "") =>
      let n := three (byte a) (byte b) 0 in
      String (digit 3 n) (String (digit 2 n) (String (digit 1 n) (String pad "")))
  | String a "" =>
      let n := three (byte a) 0 0 in
      String (digit 3 n) (String (digit 2 n) (String pad (String pad "")))
  | "" => ""
  end.

Definition is_break (c : ascii) : bool := (byte c =? 10)%N || (byte c =? 13)%N.
Fixpoint strip_breaks (s : string) : string :=
  match s with
  | "" => ""
  | String c s => if is_break c then strip_breaks s else String c (strip_breaks s)
  end.

Fixpoint base64_groups (s : string) : option string :=
  match s with
  | "" => Some ""
  | String a (String b (String c (String d rest))) =>
      if bool_decide (c = pad) && bool_decide (d = pad) && bool_decide (rest = "") then
        va ← base64_value a; vb ← base64_value b;
        if (vb mod 16 =? 0)%N then Some (String (octet 2 (four va vb 0 0)) "") else None
      else if bool_decide (d = pad) && bool_decide (rest = "") then
        va ← base64_value a; vb ← base64_value b; vc ← base64_value c;
        if (vc mod 4 =? 0)%N
        then Some (String (octet 2 (four va vb vc 0)) (String (octet 1 (four va vb vc 0)) "")) else None
      else
        va ← base64_value a; vb ← base64_value b; vc ← base64_value c; vd ← base64_value d;
        more ← base64_groups rest;
        let n := four va vb vc vd in
        Some (String (octet 2 n) (String (octet 1 n) (String (octet 0 n) more)))
  | _ => None
  end.

(** [StdEncoding.Strict().DecodeString]. *)
Definition base64_strict_decode (s : string) : option string := base64_groups (strip_breaks s).

(** ** Round trips *)
Lemma char_value v : (v < 64)%N → base64_value (base64_std_char v) = Some v.
Proof.
  assert (forallb (λ k, let v := N.of_nat k in
    bool_decide (base64_value (base64_std_char v) = Some v)) (List.seq 0 64) = true) as Hall
    by (vm_compute; reflexivity).
  rewrite forallb_elem in Hall. intros Hv.
  assert (N.to_nat v ∈ List.seq 0 64) as Hin by (apply elem_of_seq; lia).
  apply Hall in Hin. cbv zeta in Hin. rewrite N2Nat.id in Hin. by apply bool_decide_eq_true in Hin.
Qed.

Lemma value_char c v : base64_value c = Some v → (v < 64)%N ∧ base64_std_char v = c.
Proof.
  assert (∀ c, match base64_value c with Some v => (v <? 64)%N && bool_decide (base64_std_char v = c)
    | None => true end = true) as H by by_bytes.
  specialize (H c). intros E. rewrite E in H. bools_in H. done.
Qed.

(** The digits of a number below 2^24 are its digits, and so are its octets. *)
Lemma four_digits n : (n < 16777216)%N →
  four (n / 64 ^ 3 mod 64) (n / 64 ^ 2 mod 64) (n / 64 ^ 1 mod 64) (n / 64 ^ 0 mod 64) = n.
Proof. unfold four. change (64 ^ 3)%N with 262144%N. change (64 ^ 2)%N with 4096%N.
  change (64 ^ 1)%N with 64%N. change (64 ^ 0)%N with 1%N. lia. Qed.

Lemma digits_four a b c d : (a < 64)%N → (b < 64)%N → (c < 64)%N → (d < 64)%N →
  let n := four a b c d in (n < 16777216)%N ∧
  (n / 64 ^ 3 mod 64 = a ∧ n / 64 ^ 2 mod 64 = b ∧ n / 64 ^ 1 mod 64 = c ∧ n / 64 ^ 0 mod 64 = d)%N.
Proof. unfold four. change (64 ^ 3)%N with 262144%N. change (64 ^ 2)%N with 4096%N.
  change (64 ^ 1)%N with 64%N. change (64 ^ 0)%N with 1%N. lia. Qed.

Lemma octets_three n : (n < 16777216)%N →
  three (n / 256 ^ 2 mod 256) (n / 256 ^ 1 mod 256) (n / 256 ^ 0 mod 256) = n.
Proof. unfold three. change (256 ^ 2)%N with 65536%N. change (256 ^ 1)%N with 256%N.
  change (256 ^ 0)%N with 1%N. lia. Qed.

Lemma three_octets a b c : (a < 256)%N → (b < 256)%N → (c < 256)%N →
  let n := three a b c in (n < 16777216)%N ∧
  (n / 256 ^ 2 mod 256 = a ∧ n / 256 ^ 1 mod 256 = b ∧ n / 256 ^ 0 mod 256 = c)%N.
Proof. unfold three. change (256 ^ 2)%N with 65536%N. change (256 ^ 1)%N with 256%N.
  change (256 ^ 0)%N with 1%N. lia. Qed.

Lemma digit_value k n : base64_value (digit k n) = Some (n / 64 ^ k mod 64)%N.
Proof. apply char_value, N.mod_lt. lia. Qed.
Lemma digit_not_pad k n : bool_decide (digit k n = pad) = false.
Proof. apply bool_decide_eq_false. intros E. pose proof (digit_value k n) as H. rewrite E in H. done. Qed.
Lemma octet_byte k n : byte (octet k n) = (n / 256 ^ k mod 256)%N.
Proof. unfold byte, octet. apply N_ascii_embedding, N.mod_lt. lia. Qed.
Lemma byte_lt c : (byte c < 256)%N.
Proof. apply N_ascii_bounded. Qed.
Lemma ascii_byte c n : n = byte c → ascii_of_N n = c.
Proof. intros ->. apply ascii_N_embedding. Qed.

(** A group of four digits, and the two that are padded. *)
Lemma group_octets a b c :
  let n := three (byte a) (byte b) (byte c) in
  (n < 16777216)%N ∧ octet 2 n = a ∧ octet 1 n = b ∧ octet 0 n = c.
Proof.
  intros n. destruct (three_octets _ _ _ (byte_lt a) (byte_lt b) (byte_lt c)) as (Hn & H2 & H1 & H0).
  fold n in Hn, H2, H1, H0. unfold octet. rewrite H2, H1, H0. by split_and!; try apply ascii_N_embedding.
Qed.

Lemma group_digits va vb vc vd a b c d :
  base64_value a = Some va → base64_value b = Some vb → base64_value c = Some vc → base64_value d = Some vd →
  let n := four va vb vc vd in
  (n < 16777216)%N ∧ digit 3 n = a ∧ digit 2 n = b ∧ digit 1 n = c ∧ digit 0 n = d.
Proof.
  intros [Ha Ea]%value_char [Hb Eb]%value_char [Hc Ec]%value_char [Hd Ed]%value_char n.
  destruct (digits_four _ _ _ _ Ha Hb Hc Hd) as (Hn & H3 & H2 & H1 & H0). fold n in Hn, H3, H2, H1, H0.
  unfold digit. rewrite H3, H2, H1, H0. done.
Qed.

Lemma groups_encode s : base64_groups (base64_encode s) = Some s.
Proof.
  induction s as [s IH] using (induction_ltof1 _ slen). unfold ltof in IH.
  destruct s as [|a [|b [|c s]]]; [done|..]; cbn [base64_encode base64_groups].
  - destruct (group_octets a zero zero) as (Hn & H2 & _). change (byte zero) with 0%N in *.
    set (n := three (byte a) 0 0) in *.
    rewrite !(bool_decide_eq_true_2 (pad = pad)), (bool_decide_eq_true_2 ("" = "")) by done. cbn [andb].
    rewrite !digit_value. cbn [mbind option_bind].
    assert (n / 64 ^ 1 mod 64 = 0 ∧ n / 64 ^ 0 mod 64 = 0 ∧ (n / 64 ^ 2 mod 64) mod 16 = 0)%N as (E1 & E0 & ->).
    { subst n. unfold three. change (64 ^ 2)%N with 4096%N. change (64 ^ 1)%N with 64%N. change (64 ^ 0)%N with 1%N. lia. }
    rewrite N.eqb_refl. pose proof (four_digits n Hn) as Hf. rewrite E1, E0 in Hf. by rewrite Hf, H2.
  - destruct (group_octets a b zero) as (Hn & H2 & H1 & _). change (byte zero) with 0%N in *.
    set (n := three (byte a) (byte b) 0) in *.
    rewrite digit_not_pad, (bool_decide_eq_true_2 (pad = pad)), (bool_decide_eq_true_2 ("" = "")) by done.
    cbn [andb]. rewrite !digit_value. cbn [mbind option_bind].
    assert (n / 64 ^ 0 mod 64 = 0 ∧ (n / 64 ^ 1 mod 64) mod 4 = 0)%N as (E0 & ->).
    { subst n. unfold three. change (64 ^ 1)%N with 64%N. change (64 ^ 0)%N with 1%N. lia. }
    rewrite N.eqb_refl. pose proof (four_digits n Hn) as Hf. rewrite E0 in Hf. by rewrite Hf, H2, H1.
  - destruct (group_octets a b c) as (Hn & H2 & H1 & H0). set (n := three (byte a) (byte b) (byte c)) in *.
    rewrite !digit_not_pad. cbn [andb]. rewrite !digit_value, IH by (unfold slen; cbn; lia). cbn [mbind option_bind].
    by rewrite four_digits, H2, H1, H0.
Qed.

Lemma groups_canonical s b : base64_groups s = Some b → s = base64_encode b.
Proof.
  revert b. induction s as [s IH] using (induction_ltof1 _ slen). unfold ltof in IH. intros out.
  destruct s as [|a [|b [|c [|d rest]]]]; try done; [by intros [= <-]|]. cbn [base64_groups].
  assert (∀ k n, (n < 16777216)%N → byte (octet k n) = (n / 256 ^ k mod 256)%N) as Hoct by (intros; apply octet_byte).
  destruct (bool_decide (c = pad) && bool_decide (d = pad) && bool_decide (rest = "")) eqn:E1;
    [|destruct (bool_decide (d = pad) && bool_decide (rest = "")) eqn:E2].
  - bools_in E1. destruct E1 as [[-> ->] ->].
    destruct (base64_value a) as [va|] eqn:Ea; [|done]. destruct (base64_value b) as [vb|] eqn:Eb; [|done].
    cbn [mbind option_bind]. destruct (N.eqb_spec (vb mod 16) 0) as [Hm|]; [|done]. intros [= <-].
    pose proof (value_char _ _ Ea) as [Hva _]. pose proof (value_char _ _ Eb) as [Hvb _].
    destruct (group_digits va vb 0 0 a b "A" "A" Ea Eb eq_refl eq_refl) as (Hn & H3 & H2 & _).
    set (n := four va vb 0 0) in *. cbn [base64_encode].
    assert (three (byte (octet 2 n)) 0 0 = n) as ->; [|by rewrite H3, H2].
    rewrite octet_byte. subst n. unfold three, four in *. change (256 ^ 2)%N with 65536%N. lia.
  - bools_in E2. destruct E2 as [-> ->].
    destruct (base64_value a) as [va|] eqn:Ea; [|done]. destruct (base64_value b) as [vb|] eqn:Eb; [|done].
    destruct (base64_value c) as [vc|] eqn:Ec; [|done].
    cbn [mbind option_bind]. destruct (N.eqb_spec (vc mod 4) 0) as [Hm|]; [|done]. intros [= <-].
    pose proof (value_char _ _ Ea) as [Hva _]. pose proof (value_char _ _ Eb) as [Hvb _].
    pose proof (value_char _ _ Ec) as [Hvc _].
    destruct (group_digits va vb vc 0 a b c "A" Ea Eb Ec eq_refl) as (Hn & H3 & H2 & H1 & _).
    set (n := four va vb vc 0) in *. cbn [base64_encode].
    assert (three (byte (octet 2 n)) (byte (octet 1 n)) 0 = n) as ->; [|by rewrite H3, H2, H1].
    rewrite !octet_byte. subst n. unfold three, four in *.
    change (256 ^ 2)%N with 65536%N. change (256 ^ 1)%N with 256%N. lia.
  - destruct (base64_value a) as [va|] eqn:Ea; [|done]. destruct (base64_value b) as [vb|] eqn:Eb; [|done].
    destruct (base64_value c) as [vc|] eqn:Ec; [|done]. destruct (base64_value d) as [vd|] eqn:Ed; [|done].
    cbn [mbind option_bind]. destruct (base64_groups rest) as [more|] eqn:Er; [|done]. intros [= <-].
    apply IH in Er; [|unfold slen; cbn; lia]. subst rest.
    destruct (group_digits _ _ _ _ _ _ _ _ Ea Eb Ec Ed) as (Hn & H3 & H2 & H1 & H0).
    set (n := four va vb vc vd) in *. cbn [base64_encode]. rewrite !octet_byte, octets_three by done.
    by rewrite H3, H2, H1, H0.
Qed.

(** What the encoder writes: no line breaks, and four characters for three bytes. *)
Lemma digit_not_break k n : is_break (digit k n) = false.
Proof.
  assert (∀ c, match base64_value c with Some _ => is_break c | None => false end = false) as H by by_bytes.
  specialize (H (digit k n)). by rewrite digit_value in H.
Qed.

Lemma strip_encode s : strip_breaks (base64_encode s) = base64_encode s.
Proof.
  induction s as [s IH] using (induction_ltof1 _ slen). unfold ltof in IH.
  destruct s as [|a [|b [|c s]]]; [done|..]; cbn [base64_encode strip_breaks];
    rewrite !digit_not_break; [done..|]. by rewrite IH by (unfold slen; cbn; lia).
Qed.

Lemma encode_length s : N.of_nat (slen (base64_encode s)) = ((N.of_nat (slen s) + 2) / 3 * 4)%N.
Proof.
  induction s as [s IH] using (induction_ltof1 _ slen). unfold ltof in IH.
  destruct s as [|a [|b [|c s]]]; [done..|]. cbn [base64_encode].
  assert (slen s < slen (String a (String b (String c s)))) as Hs by (unfold slen; cbn; lia).
  specialize (IH s Hs). unfold slen in *. cbn [String.length]. lia.
Qed.

(** Strict decoding accepts exactly the encodings: a text decodes to some
    bytes if and only if, line breaks left out, it is what the encoder makes of
    those bytes.  Two texts of the same bytes differ in their line breaks only. *)
Theorem base64_strict_iff s b : base64_strict_decode s = Some b ↔ strip_breaks s = base64_encode b.
Proof.
  unfold base64_strict_decode. split; [apply groups_canonical|]. intros ->. apply groups_encode.
Qed.
