(* ===== verification/Json.v ===== *)
(** * JSON

    The documents the code hashes and signs are written by [encoding/json].
    This file is its encoder: compact output, members in the order of the
    struct's fields, strings with the HTML escapes [json.Marshal] applies.  The
    encoding of valid UTF-8 is injective, also when more text follows it, which
    is what makes a digest of it speak for the value. *)
From Stdlib Require Import Ascii.
From stdpp Require Import base strings list pretty sets.
From S2P Require Import Prelude.
From S2P Require Import GoStrings.
From S2P Require Import Utf8.
From S2P Require Import Hex.
From stdpp Require Import options.

Inductive json : Type :=
  | JNull
  | JBool (b : bool)
  | JInt (z : Z)
  | JString (s : string)
  | JArray (l : list json)
  | JObject (l : list (string * json)).

Definition dquote : string := String "034"%char "".
Definition backslash : ascii := "092"%char.

(** The escape of one rune: the quote and the backslash, the control characters,
    the three characters HTML gives a meaning to, and the two line separators. *)
Definition esc_rune (r : N) : string :=
  if (r <? 0x80)%N then
    if (r =? 34)%N || (r =? 92)%N then String backslash (String (ascii_of_N r) "")
    else if (r =? 8)%N then String backslash "b"
    else if (r =? 12)%N then String backslash "f"
    else if (r =? 10)%N then String backslash "n"
    else if (r =? 13)%N then String backslash "r"
    else if (r =? 9)%N then String backslash "t"
    else if (r <? 32)%N || (r =? 60)%N || (r =? 62)%N || (r =? 38)%N then
      String backslash ("u00" +:+ String (hex_digit (r / 16)) (String (hex_digit (r mod 16)) ""))
    else String (ascii_of_N r) ""
  else if (r =? 0x2028)%N then String backslash "u2028"
  else if (r =? 0x2029)%N then String backslash "u2029"
  else encode_rune r.

(** A byte that is not UTF-8 is written as the replacement character. *)
Definition esc_item (x : N * string) : string :=
  if invalid_item x then String backslash "ufffd" else esc_rune x.1.

Definition quote (s : string) : string :=
  dquote +:+ foldr (λ x acc, esc_item x +:+ acc) dquote (runes s).

Fixpoint encode (v : json) : string :=
  match v with
  | JNull => "null"
  | JBool b => if b then "true" else "false"
  | JInt z => pretty z
  | JString s => quote s
  | JArray l => "[" +:+ join "," (map encode l) +:+ "]"
  | JObject l => "{" +:+ join "," (map (λ m, quote m.1 +:+ ":" +:+ encode m.2) l) +:+ "}"
  end.

(** ** The escapes can be read back *)
Definition unesc (s : string) : N * string :=
  match s with
  | String "092" (String "u" (String a (String b (String c (String d t))))) =>
      (hex_value a * 4096 + hex_value b * 256 + hex_value c * 16 + hex_value d, t)%N
  | String "092" (String "b" t) => (8%N, t)
  | String "092" (String "f" t) => (12%N, t)
  | String "092" (String "n" t) => (10%N, t)
  | String "092" (String "r" t) => (13%N, t)
  | String "092" (String "t" t) => (9%N, t)
  | String "092" (String c t) => (byte c, t)
  | _ => let '(r, w) := decode_rune s in (r, str_drop w s)
  end.

Lemma unesc_byte c t :
  ascii_byte c = true → unesc (esc_rune (byte c) +:+ t) = (byte c, t).
Proof. destruct c as [[][][][][][][][]]; by vm_compute. Qed.

Lemma unesc_high c s : ascii_byte c = false →
  unesc (String c s) = let '(r, w) := decode_rune (String c s) in (r, str_drop w (String c s)).
Proof. destruct c as [[][][][][][][][]]; try done. Qed.

Lemma unesc_esc r t : scalar r = true → unesc (esc_rune r +:+ t) = (r, t).
Proof.
  intros Hr. destruct (N.ltb_spec r 0x80) as [Hl|Hh].
  - rewrite <-(byte_of_N r) by lia. apply unesc_byte. unfold ascii_byte.
    rewrite byte_of_N by lia. bools. lia.
  - unfold esc_rune. rewrite (proj2 (N.ltb_ge _ _)) by done.
    destruct (N.eqb_spec r 0x2028) as [->|_]; [done|].
    destruct (N.eqb_spec r 0x2029) as [->|_]; [done|].
    pose proof (decode_encode r t Hr) as Hd.
    destruct (encode_high r Hr Hh) as (c & s & E & Hc). rewrite E in *.
    change (String c s +:+ t) with (String c (s +:+ t)) in *.
    rewrite unesc_high, Hd by done. change (String c (s +:+ t)) with (String c s +:+ t).
    by rewrite str_drop_app.
Qed.

Lemma esc_not_quote r s t :
  scalar r = true → esc_rune r +:+ s = dquote +:+ t → False.
Proof.
  intros Hr E. pose proof (unesc_esc r s Hr) as H. rewrite E in H. simpl in H.
  injection H as <- <-. apply (f_equal slen) in E. revert E.
  change (esc_rune 34) with (String backslash dquote). rewrite !slen_app. simpl. lia.
Qed.

(** ** A valid string is the encoding of its runes *)
Definition concat_runes (l : list N) : string := foldr (λ r acc, encode_rune r +:+ acc) "" l.
Definition escapes (l : list N) : string := foldr (λ r acc, esc_rune r +:+ acc) dquote l.

Lemma valid_runes s :
  valid_utf8 s = true →
  ∃ l, Forall (λ r, scalar r = true) l ∧ s = concat_runes l ∧
    quote s = dquote +:+ escapes l.
Proof.
  intros Hv. cut (∃ l, Forall (λ r, scalar r = true) l ∧ s = concat_runes l ∧
    foldr (λ x acc, esc_item x +:+ acc) dquote (runes s) = escapes l).
  { intros (l & ? & ? & E). exists l. unfold quote. by rewrite E. }
  revert Hv. unfold valid_utf8.
  apply (runes_ind (λ s xs, forallb (λ x, negb (invalid_item x)) xs = true →
    ∃ l, Forall (λ r, scalar r = true) l ∧ s = concat_runes l ∧
      foldr (λ x acc, esc_item x +:+ acc) dquote xs = escapes l)).
  { intros _. by exists []. }
  intros t r w Hne Hd _ IH. cbn [forallb].
  rewrite andb_true_iff, negb_true_iff. intros [Hi Hv].
  destruct (IH Hv) as (l & Hl & Ht & He). exists (r :: l). split_and!.
  - constructor; [by eapply decode_scalar|done].
  - simpl. rewrite <-(str_take_drop w t) at 1. rewrite Ht. f_equal. by apply encode_decoded.
  - simpl. rewrite He. unfold esc_item. by rewrite Hi.
Qed.

Lemma escapes_inj l1 l2 r1 r2 :
  Forall (λ r, scalar r = true) l1 → Forall (λ r, scalar r = true) l2 →
  escapes l1 +:+ r1 = escapes l2 +:+ r2 → l1 = l2 ∧ r1 = r2.
Proof.
  intros H1. revert l2. induction H1 as [|x l1 Hx _ IH]; intros l2 H2 E.
  - destruct H2 as [|y l2 Hy _]; cbn [escapes foldr] in E.
    + split; [done|]. by apply app_inv_head_str in E.
    + symmetry in E. rewrite app_assoc_str in E. by apply esc_not_quote in E.
  - destruct H2 as [|y l2 Hy H2]; cbn [escapes foldr] in E.
    + rewrite app_assoc_str in E. by apply esc_not_quote in E.
    + rewrite !app_assoc_str in E. pose proof (f_equal unesc E) as E2.
      rewrite !unesc_esc in E2 by done. injection E2 as -> E3.
      apply IH in E3 as [-> ->]; done.
Qed.

Lemma quote_inj s1 s2 r1 r2 :
  valid_utf8 s1 = true → valid_utf8 s2 = true →
  quote s1 +:+ r1 = quote s2 +:+ r2 → s1 = s2 ∧ r1 = r2.
Proof.
  intros (l1 & H1 & -> & ->)%valid_runes (l2 & H2 & -> & ->)%valid_runes.
  rewrite !app_assoc_str. intros E%app_inv_head_str.
  by apply escapes_inj in E as [-> ->].
Qed.

(** ** Numbers *)
Definition numeric (c : ascii) : bool :=
  ((48 <=? byte c) && (byte c <=? 57))%N || bool_decide (c = "-"%char).

Lemma pretty_go_numeric x s :
  str_forall numeric s = true → s ≠ "" ∨ (0 < x)%N →
  str_forall numeric (pretty_N_go x s) = true ∧ pretty_N_go x s ≠ "".
Proof.
  revert s. induction (N.lt_wf_0 x) as [x _ IH]. intros s Hs Hne.
  destruct (decide (x = 0%N)) as [->|Hx].
  { rewrite pretty_N_go_0. destruct Hne as [?|?%N.lt_irrefl]; done. }
  rewrite pretty_N_go_step by lia. apply IH; [by apply N.div_lt; lia| |by left].
  cbn [str_forall]. rewrite Hs, andb_true_r. unfold pretty_N_char. by repeat case_match.
Qed.

Lemma pretty_numeric (z : Z) : str_forall numeric (pretty z) = true ∧ pretty z ≠ "".
Proof.
  destruct z as [|p|p]; [done|..]; unfold pretty, pretty_Z, pretty, pretty_positive, pretty,
    pretty_N; rewrite decide_False by done;
    destruct (pretty_go_numeric (N.pos p) "") as [H1 H2]; try done; by right.
Qed.

(** What may follow an encoded value: nothing, or the punctuation of JSON. *)
Definition delimited (r : string) : Prop :=
  match r with "" => True | String c _ => numeric c = false end.

Lemma numeric_prefix a b r1 r2 :
  str_forall numeric a = true → str_forall numeric b = true →
  delimited r1 → delimited r2 → a +:+ r1 = b +:+ r2 → a = b ∧ r1 = r2.
Proof.
  intros Ha Hb H1 H2. revert b Hb. induction a as [|c a IH]; intros [|d b] Hb E; simpl in *.
  - done.
  - subst r1. simpl in H1. rewrite H1 in Hb. done.
  - subst r2. simpl in H2. rewrite H2 in Ha. done.
  - injection E as -> E. bools_in Ha. bools_in Hb.
    destruct Ha as [_ Ha], Hb as [_ Hb]. destruct (IH Ha b Hb E). by subst.
Qed.

(** ** Sequences of encoded items *)
Section Items.
Context {A : Type} (enc : A → string) (ok : A → bool).

(** The encoding of [x] can be told from that of any other item. *)
Definition decodable (x : A) : Prop :=
  ∀ y r1 r2, ok y = true → delimited r1 → delimited r2 →
    enc x +:+ r1 = enc y +:+ r2 → x = y ∧ r1 = r2.

Definition more_items (close : string) (l : list A) : string :=
  foldr (λ y acc, "," +:+ enc y +:+ acc) close l.

Lemma join_items x l close :
  join "," (map enc (x :: l)) +:+ close = enc x +:+ more_items close l.
Proof.
  revert x. induction l as [|y l IH]; intros x; [done|].
  change (join "," (map enc (x :: y :: l))) with
    (enc x +:+ "," +:+ join "," (map enc (y :: l))).
  cbn [more_items foldr]. autorewrite with strs. do 2 f_equal. apply IH.
Qed.

Context (c : ascii) (Hnum : numeric c = false) (Hcomma : c ≠ ","%char)
  (Hclose : ∀ x t t', ok x = true → enc x +:+ t ≠ String c t').

Lemma more_delimited r l : delimited (more_items (String c r) l).
Proof using Hnum. by destruct l. Qed.

Lemma more_items_inj l1 l2 r1 r2 :
  Forall decodable l1 → forallb ok l2 = true →
  more_items (String c r1) l1 = more_items (String c r2) l2 → l1 = l2 ∧ r1 = r2.
Proof using Hnum Hcomma.
  intros H1. revert l2. induction H1 as [|x l1 Hx _ IH]; intros [|y l2] H2 E.
  - by injection E.
  - by injection E as E _.
  - by injection E as E _.
  - cbn [more_items foldr] in E. apply app_inv_head_str in E.
    cbn [forallb] in H2. apply andb_true_iff in H2 as [Hy H2].
    apply Hx in E as [-> E]; [|done|apply more_delimited..].
    by apply IH in E as [-> ->].
Qed.

Lemma items_inj l1 l2 r1 r2 :
  Forall decodable l1 → forallb ok l1 = true → forallb ok l2 = true →
  join "," (map enc l1) +:+ String c r1 = join "," (map enc l2) +:+ String c r2 →
  l1 = l2 ∧ r1 = r2.
Proof using Hnum Hcomma Hclose.
  intros H1 Ho H2 E. destruct H1 as [|x l1 Hx H1], l2 as [|y l2];
    rewrite ?join_items in E; cbn [forallb] in Ho, H2.
  - by injection E.
  - symmetry in E. apply andb_true_iff in H2 as [Hy _]. by apply Hclose in E.
  - apply andb_true_iff in Ho as [Hx' _]. by apply Hclose in E.
  - apply andb_true_iff in H2 as [Hy H2].
    apply Hx in E as [-> E]; [|done|apply more_delimited..].
    by apply more_items_inj in E as [-> ->].
Qed.
End Items.

(** ** The encoding is injective *)
Fixpoint json_valid (v : json) : bool :=
  match v with
  | JString s => valid_utf8 s
  | JArray l => forallb json_valid l
  | JObject l => forallb (λ m, valid_utf8 m.1 && json_valid m.2) l
  | _ => true
  end.

Lemma json_induction (P : json → Prop) :
  P JNull → (∀ b, P (JBool b)) → (∀ z, P (JInt z)) → (∀ s, P (JString s)) →
  (∀ l, Forall P l → P (JArray l)) → (∀ l, Forall (λ m, P m.2) l → P (JObject l)) →
  ∀ v, P v.
Proof.
  intros Hn Hb Hz Hs Ha Ho. fix IH 1. intros [|b|z|s|l|l]; [done|auto..| |].
  - apply Ha. induction l; constructor; auto.
  - apply Ho. induction l; constructor; auto.
Qed.

(** The first byte of an encoding tells the constructor. *)
Definition head_ok (v : json) (c : ascii) : bool :=
  match v with
  | JNull => bool_decide (c = "n"%char)
  | JBool b => bool_decide (c = if b then "t"%char else "f"%char)
  | JInt _ => numeric c
  | JString _ => bool_decide (c = "034"%char)
  | JArray _ => bool_decide (c = "["%char)
  | JObject _ => bool_decide (c = "{"%char)
  end.

Lemma encode_head v : ∃ c s, encode v = String c s ∧ head_ok v c = true.
Proof.
  destruct v as [|[]|z|s|l|l]; try (eexists _, _; split; [reflexivity|reflexivity]).
  destruct (pretty_numeric z) as [H1 H2]. simpl. destruct (pretty z) as [|c s]; [done|].
  exists c, s. split; [done|]. cbn [str_forall] in H1. by apply andb_true_iff in H1 as [? _].
Qed.

Lemma encode_not_close v c t t' :
  c = "]"%char ∨ c = "}"%char → encode v +:+ t ≠ String c t'.
Proof.
  intros Hc E. destruct (encode_head v) as (d & s & Ed & Hd). rewrite Ed in E.
  injection E as -> _. destruct v as [|[]|z|s'|l|l]; destruct Hc as [-> | ->]; by vm_compute in Hd.
Qed.

Definition member (m : string * json) : string := quote m.1 +:+ ":" +:+ encode m.2.

Lemma encode_object l : encode (JObject l) = "{" +:+ join "," (map member l) +:+ "}".
Proof. done. Qed.

Lemma member_decodable k v :
  valid_utf8 k = true → decodable encode json_valid v →
  decodable member (λ m, valid_utf8 m.1 && json_valid m.2) (k, v).
Proof.
  intros Hk Hv [k' v'] r1 r2. simpl. rewrite andb_true_iff. intros [Hk' Hv'] Hr1 Hr2.
  unfold member. cbn [fst snd]. rewrite !app_assoc_str. intros E.
  apply quote_inj in E as [-> E]; [|done..]. injection E as E.
  by apply Hv in E as [-> ->].
Qed.

Lemma same_head v w r1 r2 :
  encode v +:+ r1 = encode w +:+ r2 → ∃ c, head_ok v c = true ∧ head_ok w c = true.
Proof.
  destruct (encode_head v) as (c & s & -> & Hv), (encode_head w) as (d & t & -> & Hw).
  intros E. injection E as <- _. eauto.
Qed.

(** Two encodings that agree, whatever follows them, are of the same value. *)
Lemma encode_decodable v : json_valid v = true → decodable encode json_valid v.
Proof.
  induction v as [|b|z|s|l IH|l IH] using json_induction; intros Hv w r1 r2 Hw Hr1 Hr2 E;
    destruct (same_head _ _ _ _ E) as (c & Hcv & Hcw);
    destruct w as [|b'|z'|s'|l'|l']; cbn [head_ok] in Hcv, Hcw;
    try (bools_in Hcv; bools_in Hcw; subst; try done; repeat case_match; done).
  - by apply app_inv_head_str in E.
  - assert (b = b') as <- by (bools_in Hcv; bools_in Hcw; subst; by destruct b, b').
    by apply app_inv_head_str in E.
  - apply numeric_prefix in E as [E ->]; [by apply pretty_Z_inj in E as ->|apply pretty_numeric..|done|done].
  - by apply quote_inj in E as [-> ->].
  - cbn [encode] in E. rewrite !app_assoc_str in E. injection E as E.
    apply (items_inj encode json_valid) in E as [-> ->]; try done.
    + intros x t t' _. apply encode_not_close. by left.
    + rewrite Forall_forall in IH |- *. intros x Hx. apply IH; [done|].
      cbn [json_valid] in Hv. rewrite forallb_elem in Hv. auto.
  - rewrite !encode_object, !app_assoc_str in E. injection E as E.
    apply (items_inj member (λ m, valid_utf8 m.1 && json_valid m.2)) in E as [-> ->]; try done.
    rewrite Forall_forall in IH |- *. intros [k v] Hx.
    cbn [json_valid] in Hv. rewrite forallb_elem in Hv. specialize (Hv _ Hx).
    apply andb_true_iff in Hv as [Hk Hv]. apply member_decodable; [done|].
    by apply (IH (k, v)).
Qed.

Lemma encode_inj v w :
  json_valid v = true → json_valid w = true → encode v = encode w → v = w.
Proof.
  intros Hv Hw E. apply (encode_decodable v Hv w "" ""); try done.
  by rewrite !app_nil_str.
Qed.
