(* ===== verification/Decimal.v ===== *)
(** * Decimal integers ([strconv])

    What the code uses of [strconv.Atoi] and [strconv.ParseUint] in base ten, and
    that they read back what [%d] prints. *)
From Stdlib Require Import Ascii.
From stdpp Require Import base strings list numbers pretty.
From S2P Require Import Prelude.
From S2P Require Import GoStrings.
From S2P Require Import Json.
From stdpp Require Import options.

Open Scope N_scope.

Definition digit_value (c : ascii) : option N :=
  if (48 <=? byte c) && (byte c <=? 57) then Some (byte c - 48) else None.

Fixpoint digits_value (acc : N) (s : string) : option N :=
  match s with
  | "" => Some acc
  | String c s => d ← digit_value c; digits_value (acc * 10 + d) s
  end.

Definition uint64_limit : N := 2 ^ 64.

(** [strconv.ParseUint(s, 10, 64)]: no sign, at least one digit, no overflow. *)
Definition parse_uint (s : string) : option N :=
  match s with
  | "" => None
  | _ => n ← digits_value 0 s; if n <? uint64_limit then Some n else None
  end.

(** [strconv.Atoi] on a 64-bit machine: an optional sign, and the range of [int]. *)
Definition atoi (s : string) : option Z :=
  let '(negative, digits) :=
    match s with
    | String "-" t => (true, t)
    | String "+" t => (false, t)
    | _ => (false, s)
    end in
  n ← parse_uint digits;
  if negative then if n <=? 2 ^ 63 then Some (- Z.of_N n)%Z else None
  else if n <? 2 ^ 63 then Some (Z.of_N n) else None.

(** ** Reading back *)
Lemma digit_char m : m < 10 → digit_value (pretty_N_char m) = Some m.
Proof.
  intros Hm. destruct m as [|p]; [done|].
  do 4 (destruct p as [p|p|]; try reflexivity; try lia).
Qed.

Lemma digits_go x s :
  ∃ k, ∀ acc, digits_value acc (pretty_N_go x s) = digits_value (acc * 10 ^ k + x) s.
Proof.
  revert s. induction (N.lt_wf_0 x) as [x _ IH]. intros s.
  destruct (decide (x = 0)) as [->|Hx].
  - exists 0. intros acc. rewrite pretty_N_go_0. f_equal. lia.
  - rewrite pretty_N_go_step by lia.
    destruct (IH (x `div` 10) ltac:(apply N.div_lt; lia)
      (String (pretty_N_char (x `mod` 10)) s)) as [k Hk].
    exists (N.succ k). intros acc. rewrite Hk. cbn [digits_value].
    rewrite digit_char by by apply N.mod_lt. cbn [mbind option_bind]. f_equal.
    rewrite N.pow_succ_r'. pose proof (N.div_mod' x 10). nia.
Qed.

Lemma digits_pretty (n : N) : digits_value 0 (pretty n) = Some n.
Proof.
  unfold pretty, pretty_N. case_decide as Hn; [by subst|].
  destruct (digits_go n "") as [k Hk]. rewrite Hk. cbn. by rewrite N.mul_0_l.
Qed.

Lemma parse_uint_pretty (n : N) : n < uint64_limit → parse_uint (pretty n) = Some n.
Proof.
  intros Hn. pose proof (digits_pretty n) as Hd. unfold parse_uint.
  destruct (pretty n) as [|c s] eqn:E.
  - exfalso. destruct (pretty_numeric (Z.of_N n)) as [_ Hne]. destruct n; done.
  - rewrite Hd. cbn. by rewrite (proj2 (N.ltb_lt _ _) Hn).
Qed.

Lemma pretty_no_newline (n : N) : has_byte "010" (pretty n) = false.
Proof.
  assert (str_forall numeric (pretty n) = true) as Hn.
  { destruct n as [|p]; [done|]. apply (pretty_numeric (Z.pos p)). }
  unfold has_byte, str_exists. apply negb_false_iff. revert Hn. apply str_forall_impl.
  intros c Hc. apply negb_true_iff, bool_decide_eq_false. by intros ->.
Qed.

Lemma pretty_digit (n : N) : ∃ c s, pretty n = String c s ∧ is_Some (digit_value c).
Proof.
  pose proof (digits_pretty n) as Hd. destruct (pretty n) as [|c s] eqn:E.
  - exfalso. destruct (pretty_numeric (Z.of_N n)) as [_ Hne]. by destruct n.
  - exists c, s. split; [done|]. cbn in Hd. destruct (digit_value c); [by eexists|done].
Qed.

(** [strconv.Atoi] reads back what [strconv.Itoa] prints. *)
Lemma atoi_pretty (z : Z) : (0 ≤ z < 2 ^ 63)%Z → atoi (pretty z) = Some z.
Proof.
  intros [H0 Hz]. assert (pretty z = pretty (Z.to_N z)) as -> by (by destruct z).
  assert (Z.of_N (Z.to_N z) = z) as E by lia. set (n := Z.to_N z) in *. clearbody n. subst z.
  destruct (pretty_digit n) as (c & s & E & [d Hd]).
  assert (parse_uint (pretty n) = Some n) as Hp.
  { apply parse_uint_pretty. unfold uint64_limit. change (2 ^ 63)%Z with (Z.of_N (2 ^ 63)) in Hz. lia. }
  unfold atoi. rewrite E in Hp |- *.
  assert (n < 2 ^ 63) as Hn by (change (2 ^ 63)%Z with (Z.of_N (2 ^ 63)) in Hz; lia).
  destruct c as [[] [] [] [] [] [] [] []]; try discriminate Hd; cbn beta iota; rewrite Hp;
    cbn [mbind option_bind]; by rewrite (proj2 (N.ltb_lt _ _) Hn).
Qed.
