(* ===== verification/GoTime.v ===== *)
(** * Time

    [time.Time] as the code uses it: an instant, in nanoseconds since the zero
    [time.Time] (0001-01-01T00:00:00Z), compared by [Before] and [After], and
    read from the one canonical spelling the code accepts. *)
From Stdlib Require Import Ascii.
From stdpp Require Import base strings list numbers.
From S2P Require Import Prelude.
From S2P Require Import GoStrings.
From stdpp Require Import options.

Local Open Scope Z_scope.

Notation time := Z (only parsing).
Definition is_zero (t : time) : bool := t =? 0.
Definition after (t u : time) : bool := u <? t.
Definition before (t u : time) : bool := t <? u.

Definition second : Z := 1000000000.

Definition leap (y : Z) : bool :=
  (y mod 4 =? 0) && (negb (y mod 100 =? 0) || (y mod 400 =? 0)).
Definition days_in_month (y m : Z) : Z :=
  if m =? 2 then if leap y then 29 else 28
  else if bool_decide (m ∈ [4; 6; 9; 11]) then 30 else 31.
Definition days_before_month (y m : Z) : Z :=
  foldr Z.add 0 ((λ k, days_in_month y (Z.of_nat k)) <$> seq 1 (Z.to_nat (m - 1))).
(** Days between 0001-01-01 and a date of the proleptic Gregorian calendar. *)
Definition days (y m d : Z) : Z :=
  let y' := y - 1 in
  365 * y' + y' / 4 - y' / 100 + y' / 400 + days_before_month y m + (d - 1).

Definition digit (c : ascii) : option Z :=
  let n := Z.of_N (byte c) in
  if (48 <=? n) && (n <=? 57) then Some (n - 48) else None.
Definition number (l : list ascii) : option Z :=
  foldl (λ acc c, n ← acc; d ← digit c; Some (10 * n + d)) (Some 0) l.

(** [time.Parse(time.RFC3339, s)] followed by the test that the result is in UTC,
    has no fraction of a second and is formatted back to [s]: the accepted
    strings are the dates of the calendar written [YYYY-MM-DDThh:mm:ssZ]. *)
Definition parse_canonical (s : string) : option time :=
  match String.list_ascii_of_string s with
  | [y1; y2; y3; y4; "-"; m1; m2; "-"; d1; d2; "T";
     h1; h2; ":"; n1; n2; ":"; s1; s2; "Z"]%char =>
      y ← number [y1; y2; y3; y4]; m ← number [m1; m2]; d ← number [d1; d2];
      h ← number [h1; h2]; n ← number [n1; n2]; sec ← number [s1; s2];
      if (1 <=? m) && (m <=? 12) && (1 <=? d) && (d <=? days_in_month y m) &&
         (h <? 24) && (n <? 60) && (sec <? 60)
      then Some ((((days y m d * 24 + h) * 60 + n) * 60 + sec) * second)
      else None
  | _ => None
  end.

Example epoch_2026 :
  parse_canonical "2026-03-01T12:30:45Z" = Some (63907965045 * second).
Proof. reflexivity. Qed.
Example not_a_date : parse_canonical "2025-02-29T00:00:00Z" = None.
Proof. reflexivity. Qed.
