(* ===== verification/TrustedFiles.v ===== *)
(** * Files of the system authority ([session.go], [anchor.go])

    The authority keeps its settings in files it owns.  A [world] is the part of
    the file system the code names, with the system calls that will fail: each
    call takes one entry of [w_faults], and fails when it is [true], so that a
    theorem about every list of faults is a theorem about every point at which an
    operation can be interrupted. *)
From Stdlib Require Import Ascii.
From stdpp Require Import base strings list gmap numbers.
From S2P Require Import Prelude.
From S2P Require Import GoStrings.
From stdpp Require Import options.

(** ** The world *)
Inductive node : Type :=
  | File (uid mode : N) (data : string)
  | Directory (uid mode : N)
  | Other (uid mode : N).

Record world : Type := mkWorld {
  w_fs : gmap string node;
  w_uid : N;
  w_faults : list bool
}.

Inductive file_error : Type :=
  | Missing | Failed | Untrusted | UnexpectedOwner | TooLarge | InvalidDirectory.
#[export] Instance file_error_eq_dec : EqDecision file_error.
Proof. solve_decision. Defined.

(** ** Operations that read and change a state and can fail *)
Definition SM (S E A : Type) : Type := S → result E A * S.

#[export] Instance M_ret {S E} : MRet (SM S E) := λ A a w, (Ok a, w).
#[export] Instance M_bind {S E} : MBind (SM S E) := λ A B f m w,
  match m w with
  | (Ok a, w') => f a w'
  | (Err e, w') => (Err e, w')
  end.

Definition lift {S E A} (r : result E A) : SM S E A := λ w, (r, w).
Definition fail {S E A} (e : E) : SM S E A := lift (Err e).
Definition map_error {S E F A} (f : E → F) (m : SM S E A) : SM S F A := λ w,
  let '(r, w') := m w in (wrap f r, w').
(** Continue with the error as a value ([if err == nil { .. } else { .. }]). *)
Definition try {S E F A} (m : SM S E A) : SM S F (result E A) := λ w,
  let '(r, w') := m w in (Ok r, w').

(** Operations on files. *)
Notation M := (SM world).

(** ** System calls *)
Definition next_fault (w : world) : bool * world :=
  match w_faults w with
  | [] => (false, w)
  | b :: faults => (b, mkWorld (w_fs w) (w_uid w) faults)
  end.
Definition set_fs (w : world) (fs : gmap string node) : world := mkWorld fs (w_uid w) (w_faults w).

(** A call that only reads, or that only touches files the code does not name. *)
Definition call : M file_error () := λ w,
  let '(b, w') := next_fault w in (if b then Err Failed else Ok (), w').

Definition lstat (path : string) : M file_error node := λ w,
  let '(b, w') := next_fault w in
  (if b then Err Failed
   else match w_fs w !! path with None => Err Missing | Some n => Ok n end, w').

Definition read_file (path : string) : M file_error string := λ w,
  let '(b, w') := next_fault w in
  (if b then Err Failed
   else match w_fs w !! path with Some (File _ _ data) => Ok data | _ => Err Failed end, w').

Definition mkdir_all (path : string) : M file_error () := λ w,
  let '(b, w') := next_fault w in
  if b then (Err Failed, w')
  else match w_fs w !! path with
  | Some (Directory _ _) => (Ok (), w')
  | Some _ => (Err Failed, w')
  | None => (Ok (), set_fs w' (<[path := Directory (w_uid w) 493]> (w_fs w)))
  end.

Definition rename_over (path : string) (n : node) : M file_error () := λ w,
  let '(b, w') := next_fault w in
  if b then (Err Failed, w')
  else match w_fs w !! path with
  | Some (Directory _ _) => (Err Failed, w')
  | _ => (Ok (), set_fs w' (<[path := n]> (w_fs w)))
  end.

Definition remove (path : string) : M file_error () := λ w,
  let '(b, w') := next_fault w in
  if b then (Err Failed, w')
  else match w_fs w !! path with
  | None => (Err Missing, w')
  | Some _ => (Ok (), set_fs w' (delete path (w_fs w)))
  end.

(** ** The helpers of the authority *)

(** Not writable by the group or by others ([Perm()&0022 == 0]). *)
Definition private_mode (mode : N) : bool := (N.land mode 18 =? 0)%N.

Definition readTrusted (path : string) (owner : N) (limit : N) : M file_error (option string) :=
  info ← try (lstat path);
  match info with
  | Err Missing => mret None
  | Err e => fail e
  | Ok (File uid mode _) =>
      if negb (private_mode mode) then fail Untrusted
      else if negb (uid =? owner)%N then fail UnexpectedOwner
      else
        data ← read_file path;
        if (limit <? N.of_nat (slen data))%N then fail TooLarge else mret (Some data)
  | Ok _ => fail Untrusted
  end.

Definition validateExistingDirectory (path : string) (owner : N) : M file_error () :=
  info ← lstat path;
  match info with
  | Directory uid mode =>
      if negb (uid =? owner)%N || negb (private_mode mode) then fail Untrusted else mret ()
  | _ => fail InvalidDirectory
  end.

Definition ensureDirectory (path : string) (owner : N) : M file_error () :=
  mkdir_all path ;;;
  validateExistingDirectory path owner.

Definition rename_new (path data : string) (mode : N) : M file_error () := λ w,
  rename_over path (File (w_uid w) mode data) w.

(** The temporary file is created, given its mode, written, synced and closed;
    only the rename touches [path]. *)
Definition writeAtomic (path data : string) (mode : N) : M file_error () :=
  call ;;; call ;;; call ;;; call ;;; call ;;;
  rename_new path data mode.

(** ** What the operations do to the world *)

(** The same files and the same account; some faults were taken. *)
Definition only_read (w w' : world) : Prop := w_fs w' = w_fs w ∧ w_uid w' = w_uid w.

#[export] Instance only_read_preorder : PreOrder only_read.
Proof. split; [done|]. intros w1 w2 w3 [] []. split; congruence. Qed.

(** No fault is left, and none appears. *)
Definition quiet (w : world) : Prop := w_faults w = [].

Lemma next_fault_spec w b w' :
  next_fault w = (b, w') → only_read w w' ∧ (quiet w → b = false ∧ w' = w).
Proof.
  unfold next_fault, quiet. destruct (w_faults w) eqn:E; intros [= <- <-]; [done|].
  by split.
Qed.

Lemma bind_M {S E A B} (m : SM S E A) (f : A → SM S E B) w r w' :
  (m ≫= f) w = (r, w') →
  (∃ a w1, m w = (Ok a, w1) ∧ f a w1 = (r, w')) ∨ (∃ e, m w = (Err e, w') ∧ r = Err e).
Proof.
  unfold mbind, M_bind. destruct (m w) as [[a|e] w1]; [by eauto|intros [= <- <-]; eauto].
Qed.

Lemma bind_try {S E F A B} (m : SM S E A) (f : result E A → SM S F B) w :
  (try m ≫= f) w = let '(r, w') := m w in f r w'.
Proof. unfold mbind, M_bind, try. by destruct (m w). Qed.

Lemma bind_lift {S E A B} (x : result E A) (f : A → SM S E B) w :
  (lift x ≫= f) w = match x with Ok a => f a w | Err e => (Err e, w) end.
Proof. by destruct x. Qed.

Lemma bind_map_error {S E F A B} (h : E → F) (m : SM S E A) (f : A → SM S F B) w :
  (map_error h m ≫= f) w =
    let '(r, w') := m w in match r with Ok a => f a w' | Err e => (Err (h e), w') end.
Proof. unfold mbind, M_bind, map_error. by destruct (m w) as [[] ?]. Qed.

Lemma call_spec w r w' : call w = (r, w') → only_read w w' ∧ (quiet w → r = Ok () ∧ w' = w).
Proof.
  unfold call. destruct (next_fault w) as [b w1] eqn:E. intros [= <- <-].
  apply next_fault_spec in E as [? Hq]. split; [done|]. intros Hx. by destruct (Hq Hx) as [-> ->].
Qed.

Lemma lstat_spec path w r w' :
  lstat path w = (r, w') → only_read w w' ∧
  match r with
  | Ok n => w_fs w !! path = Some n
  | Err Missing => w_fs w !! path = None
  | Err _ => ¬ quiet w
  end ∧ (quiet w → w' = w).
Proof.
  unfold lstat. destruct (next_fault w) as [b w1] eqn:E. intros [= <- <-].
  apply next_fault_spec in E as [? Hq]. split; [done|]. split; [|intros Hx; by destruct (Hq Hx) as [_ ->]].
  destruct b; [intros Hx; by destruct (Hq Hx)|]. by destruct (w_fs w !! path) eqn:El.
Qed.

Lemma read_file_spec path w r w' :
  read_file path w = (r, w') → only_read w w' ∧
  (∀ data, r = Ok data → ∃ uid mode, w_fs w !! path = Some (File uid mode data)) ∧
  (quiet w → w' = w ∧ ∀ uid mode data, w_fs w !! path = Some (File uid mode data) → r = Ok data).
Proof.
  unfold read_file. destruct (next_fault w) as [b w1] eqn:E. intros [= <- <-].
  apply next_fault_spec in E as [? Hq]. split_and!; [done| |].
  - intros data. destruct b; [done|]. destruct (w_fs w !! path) as [[]|]; naive_solver.
  - intros Hx. destruct (Hq Hx) as [-> ->]. split; [done|]. intros uid mode data Hl.
    by rewrite Hl.
Qed.

(** Take the first step of a computation in a hypothesis. *)
Ltac step H :=
  let S := fresh "Hstep" in
  apply bind_M in H as [(? & ? & S & H)|(? & S & ->)].

Lemma bind_M_ok {S E A B} (m : SM S E A) (f : A → SM S E B) w b w' :
  (m ≫= f) w = (Ok b, w') → ∃ x w1, m w = (Ok x, w1) ∧ f x w1 = (Ok b, w').
Proof. intros [(x & w1 & ? & ?)|(e & _ & ?)]%bind_M; [|done]. by exists x, w1. Qed.
Ltac step_ok H :=
  let S := fresh "Hstep" in apply bind_M_ok in H as (? & ? & S & H).

(** A file the owner alone can write. *)
Definition trusted_file (fs : gmap string node) (path : string) (owner : N) (data : string) : Prop :=
  ∃ mode, fs !! path = Some (File owner mode data) ∧ private_mode mode = true.

(** The file is there and is refused. *)
Ltac refused Hi :=
  let Hq := fresh in intros Hq; split; [auto|]; split; [by rewrite Hi|];
  intros ? (? & ? & ?) ?; simplify_eq; congruence.

Lemma read_trusted_spec path owner limit w r w' :
  readTrusted path owner limit w = (r, w') →
  only_read w w' ∧
  match r with
  | Ok (Some data) => trusted_file (w_fs w) path owner data ∧ (N.of_nat (slen data) ≤ limit)%N
  | Ok None => w_fs w !! path = None
  | Err _ => True
  end ∧
  (quiet w → w' = w ∧ (r = Ok None ↔ w_fs w !! path = None) ∧
    ∀ data, trusted_file (w_fs w) path owner data → (N.of_nat (slen data) ≤ limit)%N →
      r = Ok (Some data)).
Proof.
  unfold readTrusted, fail, lift. rewrite bind_try.
  destruct (lstat path w) as [info w1] eqn:E. apply lstat_spec in E as (Hr1 & Hi & Hq1).
  unfold trusted_file.
  destruct info as [[uid mode d|uid mode|uid mode]|e]; simpl.
  - destruct (private_mode mode) eqn:Hm; simpl;
      [|intros [= <- <-]; split_and!; [done|done|refused Hi]].
    destruct (N.eqb_spec uid owner) as [->|Hne]; simpl;
      [|intros [= <- <-]; split_and!; [done|done|refused Hi]].
    intros H. apply bind_M in H as [(data & w2 & Hrd & H)|(e & Hrd & ->)].
    + apply read_file_spec in Hrd as (Hr2 & Hd & Hq2).
      destruct (Hd data eq_refl) as (u & m & Hdata). rewrite (proj1 Hr1), Hi in Hdata.
      injection Hdata as <- <- <-.
      destruct (N.ltb_spec limit (N.of_nat (slen d))); simpl in H; injection H as <- <-.
      * split_and!; [by etrans|done|]. intros Hq. rewrite (Hq1 Hq) in *. destruct (Hq2 Hq) as [-> _].
        split; [done|]. split; [by rewrite Hi|]. intros ? (? & Hx & _) ?. simplify_eq. lia.
      * split; [by etrans|]. split; [eauto|]. intros Hq. rewrite (Hq1 Hq) in *. destruct (Hq2 Hq) as [-> _].
        split; [done|]. split; [by rewrite Hi|]. intros ? (? & Hx & _) ?. by simplify_eq.
    + apply read_file_spec in Hrd as (Hr2 & _ & Hq2). split_and!; [by etrans|done|].
      intros Hq. rewrite (Hq1 Hq) in *. destruct (Hq2 Hq) as [_ Hno].
      by specialize (Hno _ _ _ Hi).
  - intros [= <- <-]. split_and!; [done|done|refused Hi].
  - intros [= <- <-]. split_and!; [done|done|refused Hi].
  - destruct e; intros [= <- <-]; (split_and!; [done|done|]); intros Hq; try done.
    split; [auto|]. split; [done|]. intros data (? & Hx & _). congruence.
Qed.

Lemma validate_directory_spec path owner w r w' :
  validateExistingDirectory path owner w = (r, w') →
  only_read w w' ∧ (quiet w → w' = w) ∧
  (r = Err Missing → w_fs w !! path = None) ∧
  (quiet w → ∀ mode, w_fs w !! path = Some (Directory owner mode) → private_mode mode = true →
    r = Ok ()).
Proof.
  unfold validateExistingDirectory, fail, lift. intros H. apply bind_M in H as [(n & w1 & Hl & H)|(e & Hl & ->)].
  - apply lstat_spec in Hl as (Hr & Hn & Hq).
    destruct n as [| uid mode |]; [|destruct (negb _ || negb _) eqn:E|]; injection H as <- <-;
      (split_and!; [done|done|done|]); try naive_solver.
    intros Hquiet mode' Hm Hp. simplify_eq. rewrite N.eqb_refl, Hp in E. done.
  - apply lstat_spec in Hl as (Hr & He & Hq). split_and!; [done|done|by intros [= ->]|].
    intros Hquiet mode Hm. destruct e; [congruence|done..].
Qed.

(** A computation that replaces the whole of a file or leaves it as it was. *)
Definition writes (path data : string) (mode : N) (m : M file_error ()) : Prop :=
  ∀ w r w', m w = (r, w') →
  w_uid w' = w_uid w ∧
  match r with
  | Ok _ => w_fs w' = <[path := File (w_uid w) mode data]> (w_fs w)
  | Err _ => w_fs w' = w_fs w
  end ∧
  (quiet w → quiet w' ∧ ((∀ u m, w_fs w !! path ≠ Some (Directory u m)) → r = Ok ())).

Lemma rename_new_writes path data mode : writes path data mode (rename_new path data mode).
Proof.
  intros w r w'. unfold rename_new, rename_over.
  destruct (next_fault w) as [b w1] eqn:E. apply next_fault_spec in E as [[Hf Hu] Hq].
  destruct b; [intros [= <- <-]; split_and!; [done..|intros Hx; by destruct (Hq Hx)]|].
  destruct (w_fs w !! path) as [[]|] eqn:El; intros [= <- <-]; (split_and!; [done..|]);
    intros Hx; destruct (Hq Hx) as [_ ->]; split; try done; naive_solver.
Qed.

Lemma call_writes path data mode m : writes path data mode m → writes path data mode (call ;;; m).
Proof.
  intros Hm w r w' H. apply bind_M in H as [([] & w1 & Hc & H)|(e & Hc & ->)];
    apply call_spec in Hc as [[Hf Hu] Hq].
  - apply Hm in H as (Hu' & Hr & Hq'). rewrite Hf, Hu in *. split_and!; [done|done|].
    intros Hx. destruct (Hq Hx) as [_ ->]. auto.
  - split_and!; [done|done|]. intros Hx. by destruct (Hq Hx).
Qed.

Lemma write_atomic_writes path data mode : writes path data mode (writeAtomic path data mode).
Proof. do 5 apply call_writes. apply rename_new_writes. Qed.

(** ** Without faults the answers are functions of the files *)
Definition calm (w : world) : world := mkWorld (w_fs w) (w_uid w) [].

Definition read_result (n : option node) (owner limit : N) : result file_error (option string) :=
  match n with
  | None => Ok None
  | Some (File uid mode data) =>
      if negb (private_mode mode) then Err Untrusted
      else if negb (uid =? owner)%N then Err UnexpectedOwner
      else if (limit <? N.of_nat (slen data))%N then Err TooLarge else Ok (Some data)
  | Some _ => Err Untrusted
  end.

Definition directory_result (n : option node) (owner : N) : result file_error () :=
  match n with
  | None => Err Missing
  | Some (Directory uid mode) =>
      if negb (uid =? owner)%N || negb (private_mode mode) then Err Untrusted else Ok ()
  | Some _ => Err InvalidDirectory
  end.

Lemma lstat_quiet path w :
  quiet w → lstat path w = (match w_fs w !! path with None => Err Missing | Some n => Ok n end, w).
Proof. unfold lstat, next_fault, quiet. by intros ->. Qed.

Lemma read_trusted_quiet path owner limit w :
  quiet w → readTrusted path owner limit w = (read_result (w_fs w !! path) owner limit, w).
Proof.
  intros Hq. unfold readTrusted, fail, lift. rewrite bind_try, lstat_quiet by done.
  destruct (w_fs w !! path) as [[uid mode data| |]|] eqn:E; try done. simpl.
  destruct (private_mode mode); [|done]. destruct (uid =? owner)%N; [|done]. simpl.
  assert (read_file path w = (Ok data, w)) as Hr.
  { unfold read_file, next_fault. by rewrite Hq, E. }
  unfold mbind, M_bind. rewrite Hr. by destruct (limit <? _)%N.
Qed.

Lemma validate_directory_quiet path owner w :
  quiet w →
  validateExistingDirectory path owner w = (directory_result (w_fs w !! path) owner, w).
Proof.
  intros Hq. unfold validateExistingDirectory, mbind, M_bind, fail, lift.
  rewrite lstat_quiet by done. destruct (w_fs w !! path) as [[]|]; try done. simpl.
  by destruct (negb _ || negb _).
Qed.

(** A directory that is there stays as it is. *)
Lemma ensure_directory_spec path owner mode w r w' :
  w_fs w !! path = Some (Directory owner mode) → private_mode mode = true →
  ensureDirectory path owner w = (r, w') → only_read w w' ∧ (quiet w → r = Ok () ∧ w' = w).
Proof.
  intros Hn Hp H. unfold ensureDirectory in H.
  assert (∀ r1 w1, mkdir_all path w = (r1, w1) →
    only_read w w1 ∧ (quiet w → r1 = Ok () ∧ w1 = w)) as Hmk.
  { intros r1 w1. unfold mkdir_all. rewrite Hn.
    destruct (next_fault w) as [b w2] eqn:E. apply next_fault_spec in E as [Hr Hq].
    destruct b; intros [= <- <-]; (split; [done|]); intros Hx; by destruct (Hq Hx) as [? ->]. }
  apply bind_M in H as [([] & w1 & Hs & H)|(e & Hs & ->)]; apply Hmk in Hs as [Hr Hq].
  - apply validate_directory_spec in H as (Hr2 & Hq2 & _ & Hok). rewrite (proj1 Hr) in Hok.
    split; [by etrans|]. intros Hx. destruct (Hq Hx) as [_ ->]. split; [by eapply Hok|auto].
  - split; [done|]. intros Hx. by destruct (Hq Hx).
Qed.

(** ** Operations that only add *)
Lemma validate_directory_present path owner w w' :
  validateExistingDirectory path owner w = (Ok (), w') →
  ∃ uid mode, w_fs w !! path = Some (Directory uid mode).
Proof.
  unfold validateExistingDirectory, fail, lift.
  intros [(n & w1 & Hl & H)|(e & _ & ?)]%bind_M; [|done].
  apply lstat_spec in Hl as (_ & Hn & _). destruct n; [done| |done]. eauto.
Qed.

(** Creating a directory keeps every file there is. *)
Lemma ensure_directory_grows path owner w r w' :
  ensureDirectory path owner w = (r, w') →
  w_uid w' = w_uid w ∧ w_fs w ⊆ w_fs w' ∧
  (∀ p, p ≠ path → w_fs w' !! p = w_fs w !! p) ∧
  (r = Ok () → ∃ uid mode, w_fs w' !! path = Some (Directory uid mode)).
Proof.
  unfold ensureDirectory. intros H.
  assert (∀ r1 w1, mkdir_all path w = (r1, w1) → w_uid w1 = w_uid w ∧ w_fs w ⊆ w_fs w1 ∧
    (∀ p, p ≠ path → w_fs w1 !! p = w_fs w !! p)) as Hmk.
  { intros r1 w1. unfold mkdir_all. destruct (next_fault w) as [b w2] eqn:E.
    apply next_fault_spec in E as [[Hf Hu] _].
    destruct b; [intros [= <- <-]; rewrite Hf; done|].
    destruct (w_fs w !! path) as [[]|] eqn:Ep; intros [= <- <-]; rewrite ?Hf; try done.
    cbn. split_and!; [done|by apply insert_subseteq|]. intros p Hp. by rewrite lookup_insert_ne. }
  apply bind_M in H as [([] & w1 & Hs & H)|(e & Hs & ->)]; apply Hmk in Hs as (Hu & Hsub & Hne); [|done].
  pose proof (validate_directory_spec _ _ _ _ _ H) as ([Hf Hu2] & _). rewrite Hf, Hu2.
  split_and!; [done..|]. intros ->. by eapply validate_directory_present.
Qed.

Lemma remove_spec path w r w' :
  remove path w = (r, w') →
  w_uid w' = w_uid w ∧
  match r with
  | Ok _ => w_fs w' = delete path (w_fs w)
  | Err e => w_fs w' = w_fs w ∧ (e = Missing → w_fs w !! path = None)
  end.
Proof.
  unfold remove. destruct (next_fault w) as [b w1] eqn:E. apply next_fault_spec in E as [[Hf Hu] _].
  destruct b; [by intros [= <- <-]|].
  destruct (w_fs w !! path) eqn:El; intros [= <- <-]; cbn; auto.
Qed.
