(* ===== verification/Enforcement.v ===== *)
(** * The enforcement settings ([pkg/systemauthority/enforcement.go])

    The level that decides what happens to a launch the ledger does not answer
    for, and the policy about unsigned packages: two files of the authority, read
    so that the first fails open and the second fails closed. *)
From Stdlib Require Import Ascii.
From stdpp Require Import base strings list gmap.
From S2P Require Import Prelude.
From S2P Require Import GoStrings.
From S2P Require Import Utf8.
From S2P Require Import GoPath.
From S2P Require Import TrustedFiles.
From stdpp Require Import options.

(** The two settings are strings, as on disk. *)
Definition EnforcementOff : string := "off".
Definition EnforcementWarn : string := "warn".
Definition EnforcementRefuse : string := "refuse".
Definition valid_level (level : string) : bool :=
  bool_decide (level ∈ [EnforcementOff; EnforcementWarn; EnforcementRefuse]).

Definition SignaturesOptional : string := "optional".
Definition SignaturesRequired : string := "required".
Definition valid_signatures (policy : string) : bool :=
  bool_decide (policy ∈ [SignaturesOptional; SignaturesRequired]).

Definition enforcementFileName : string := "enforcement".
Definition signaturePolicyFileName : string := "signatures".
Definition settingSizeLimit : N := 64.

Inductive setting_error : Type :=
  | InvalidSetting | NotRecordable | RelativePath | ReadError (e : file_error)
  | DirectoryError (e : file_error) | WriteError (e : file_error).

Record EnforcementStore : Type := mkStore { Directory_ : string; OwnerUID : N }.

Definition setting_path (s : EnforcementStore) (name : string) : result setting_error string :=
  check_that (is_abs (Directory_ s)) RelativePath ;;;
  Ok (path_join [Directory_ s; name]).

Definition line (value : string) : string := value +:+ String "010" "".

(** [setting]: [None] when nothing was recorded. *)
Definition setting (s : EnforcementStore) (name : string) : M setting_error (option string) :=
  path ← lift (setting_path s name);
  checked ← try (validateExistingDirectory (Directory_ s) (OwnerUID s));
  match checked with
  | Err Missing => mret None
  | Err e => fail (DirectoryError e)
  | Ok _ =>
      data ← map_error ReadError (readTrusted path (OwnerUID s) settingSizeLimit);
      mret (trim_space <$> data)
  end.

Definition write (s : EnforcementStore) (name value : string) : M setting_error () :=
  path ← lift (setting_path s name);
  map_error DirectoryError (ensureDirectory (Directory_ s) (OwnerUID s)) ;;;
  map_error WriteError (writeAtomic path (line value) 420).

(** [Level] returns a level beside its error; the level is what the first
    component of the pair holds. *)
Definition Level (s : EnforcementStore) : M setting_error (string * option setting_error) :=
  recorded ← try (setting s enforcementFileName);
  mret match recorded with
  | Err e => (EnforcementOff, Some e)
  | Ok None => (EnforcementOff, None)
  | Ok (Some value) =>
      if valid_level value then (value, None) else (EnforcementOff, Some NotRecordable)
  end.

Definition Set_ (s : EnforcementStore) (level : string) : M setting_error () :=
  lift (check_that (valid_level level) InvalidSetting) ;;;
  write s enforcementFileName level.

Definition SignaturePolicy (s : EnforcementStore) : M setting_error (string * option setting_error) :=
  recorded ← try (setting s signaturePolicyFileName);
  mret match recorded with
  | Err e => (SignaturesOptional, Some e)
  | Ok None => (SignaturesOptional, None)
  | Ok (Some value) =>
      if valid_signatures value then (value, None) else (SignaturesOptional, Some NotRecordable)
  end.

Definition SetSignaturePolicy (s : EnforcementStore) (policy : string) : M setting_error () :=
  lift (check_that (valid_signatures policy) InvalidSetting) ;;;
  write s signaturePolicyFileName policy.

(** What a launch and an enrolment ask: an answer, never a failure. *)
Definition Enforcement (s : EnforcementStore) : M setting_error string :=
  answer ← Level s;
  mret match answer.2 with Some _ => EnforcementOff | None => answer.1 end.

Definition Signatures (s : EnforcementStore) : M setting_error string :=
  answer ← SignaturePolicy s;
  mret match answer.2 with Some _ => SignaturesRequired | None => answer.1 end.

(** ** What the settings say *)

(** The store's directory is there and is the owner's alone. *)
Definition trusted_directory (s : EnforcementStore) (fs : gmap string node) : Prop :=
  ∃ mode, fs !! Directory_ s = Some (Directory (OwnerUID s) mode) ∧ private_mode mode = true.

Definition setting_file (s : EnforcementStore) (name : string) : string :=
  path_join [Directory_ s; name].

(** [value] is what a file the owner alone can write says. *)
Definition recorded (s : EnforcementStore) (name : string) (fs : gmap string node)
    (value : string) : Prop :=
  ∃ data, trusted_file fs (setting_file s name) (OwnerUID s) data ∧
    (N.of_nat (slen data) ≤ settingSizeLimit)%N ∧ trim_space data = value.

Lemma setting_spec s name w r w' :
  setting s name w = (r, w') →
  only_read w w' ∧ (quiet w → w' = w) ∧
  match r with
  | Ok (Some value) => recorded s name (w_fs w) value
  | Ok None => w_fs w !! setting_file s name = None ∨ w_fs w !! Directory_ s = None
  | Err _ => True
  end ∧
  (quiet w → is_abs (Directory_ s) = true → trusted_directory s (w_fs w) →
    ∀ value, recorded s name (w_fs w) value → r = Ok (Some value)).
Proof.
  unfold setting, setting_path, fail. rewrite bind_lift.
  destruct (is_abs (Directory_ s)) eqn:Ha; [|by intros [= <- <-]].
  cbn [check_that mbind result_bind]. rewrite bind_try. destruct (validateExistingDirectory _ _ w) as [checked w1] eqn:E.
  apply validate_directory_spec in E as (Hr1 & Hq1 & Hm & Hd).
  destruct checked as [[]|e].
  - rewrite bind_map_error. destruct (readTrusted _ _ _ w1) as [data w2] eqn:E. intros H.
    apply read_trusted_spec in E as (Hr2 & Hdata & Hq2). rewrite (proj1 Hr1) in *.
    destruct data as [[d|]|e]; cbn in H; injection H as <- <-.
    + split; [by etrans|]. split; [intros Hq; rewrite (Hq1 Hq) in *; by apply Hq2|].
      destruct Hdata as [Ht Hl]. split; [by exists d|].
      intros Hq _ _ value (d' & Ht' & Hl' & <-). rewrite (Hq1 Hq) in *.
      destruct (Hq2 Hq) as (_ & _ & Hok). by specialize (Hok d' Ht' Hl') as [= ->].
    + split; [by etrans|]. split; [intros Hq; rewrite (Hq1 Hq) in *; by apply Hq2|].
      split; [by left|]. intros _ _ _ value (d' & (m & Hx & _) & _). unfold setting_file in *.
      congruence.
    + split; [by etrans|]. split; [intros Hq; rewrite (Hq1 Hq) in *; by apply Hq2|].
      split; [done|]. intros Hq _ _ value (d' & Ht' & Hl' & _). rewrite (Hq1 Hq) in *.
      destruct (Hq2 Hq) as (_ & _ & Hok). by specialize (Hok d' Ht' Hl').
  - intros H. assert (only_read w w' ∧ (quiet w → w' = w) ∧
      match r with Ok (Some _) => False | Ok None => e = Missing | Err _ => True end) as (? & ? & Hres)
      by by destruct e; injection H as <- <-.
    split; [done|]. split; [done|]. split.
    + destruct r as [[value|]|]; [done| |done]. subst e. right. by apply Hm.
    + intros Hq _ (mode & Hx & Hp). by specialize (Hd Hq mode Hx Hp).
Qed.

(** ** Properties *)
Lemma level_answer s w :
  ∃ level w', Enforcement s w = (Ok level, w') ∧ only_read w w' ∧
    (level = EnforcementOff ∨
     valid_level level = true ∧ recorded s enforcementFileName (w_fs w) level).
Proof.
  unfold Enforcement, Level, mbind, M_bind, try.
  destruct (setting s enforcementFileName w) as [r w'] eqn:E.
  apply setting_spec in E as (Hr & _ & Hs & _). exists (match r with
    | Ok (Some value) => if valid_level value then value else EnforcementOff
    | _ => EnforcementOff end), w'.
  destruct r as [[value|]|e]; [destruct (valid_level value) eqn:Ev|..]; auto 6.
Qed.

Lemma signatures_answer s w :
  ∃ policy w', Signatures s w = (Ok policy, w') ∧ only_read w w' ∧
    (policy = SignaturesRequired ∨
     policy = SignaturesOptional ∧
       (recorded s signaturePolicyFileName (w_fs w) SignaturesOptional ∨
        w_fs w !! setting_file s signaturePolicyFileName = None ∨ w_fs w !! Directory_ s = None)).
Proof.
  unfold Signatures, SignaturePolicy, mbind, M_bind, try.
  destruct (setting s signaturePolicyFileName w) as [r w'] eqn:E.
  apply setting_spec in E as (Hr & _ & Hs & _). exists (match r with
    | Ok (Some value) => if valid_signatures value then value else SignaturesRequired
    | Ok None => SignaturesOptional | Err _ => SignaturesRequired end), w'.
  destruct r as [[value|]|e]; [destruct (valid_signatures value) eqn:Ev|..];
    (split_and!; [done|done|]); auto.
  unfold valid_signatures in Ev. apply bool_decide_eq_true in Ev.
  apply elem_of_cons in Ev as [->|Ev%list_elem_of_singleton]; auto.
Qed.

(** Whatever fails on the way, a launch gets a level and an enrolment gets a
    policy, and reading them changes no file.  The level is off unless a file
    the owner alone can write records another, so nothing unvouched for can turn
    refusals on; unsigned packages are acceptable only when such a file says so
    or nothing was ever recorded, so a broken file never permits them. *)
Theorem settings_fail_modes s w :
  (∃ level w', Enforcement s w = (Ok level, w') ∧ only_read w w' ∧
    (level = EnforcementOff ∨
     valid_level level = true ∧ recorded s enforcementFileName (w_fs w) level)) ∧
  (∃ policy w', Signatures s w = (Ok policy, w') ∧ only_read w w' ∧
    (policy = SignaturesRequired ∨
     policy = SignaturesOptional ∧
       (recorded s signaturePolicyFileName (w_fs w) SignaturesOptional ∨
        w_fs w !! setting_file s signaturePolicyFileName = None ∨ w_fs w !! Directory_ s = None))).
Proof. split; [apply level_answer|apply signatures_answer]. Qed.

(** A setting is a file of its own, below the store's directory. *)
Lemma setting_parts s name :
  is_abs (Directory_ s) = true →
  name = enforcementFileName ∨ name = signaturePolicyFileName →
  path_parts (setting_file s name) = path_parts (Directory_ s) ++ [name].
Proof.
  intros Ha Hn. unfold setting_file.
  assert (clean name = name ∧ is_abs name = false ∧ name ≠ "" ∧ name ≠ "." ∧ name ≠ ".." ∧
    has_prefix "../" name = false ∧ path_parts name = [name]) as (H1 & H2 & H3 & H4 & H5 & H6 & H7)
    by (destruct Hn as [-> | ->]; split_and!; vm_compute; done).
  destruct (join_below (Directory_ s) name) as (_ & _ & E); try done. by rewrite E, H7.
Qed.

Lemma setting_not_directory s name :
  is_abs (Directory_ s) = true →
  name = enforcementFileName ∨ name = signaturePolicyFileName →
  setting_file s name ≠ Directory_ s.
Proof.
  intros Ha Hn E. pose proof (setting_parts s name Ha Hn) as Hp. rewrite E in Hp.
  apply (f_equal length) in Hp. rewrite length_app in Hp. simpl in Hp. lia.
Qed.

Lemma settings_differ s :
  is_abs (Directory_ s) = true →
  setting_file s enforcementFileName ≠ setting_file s signaturePolicyFileName.
Proof.
  intros Ha E. pose proof (setting_parts s enforcementFileName Ha (or_introl eq_refl)) as H1.
  pose proof (setting_parts s signaturePolicyFileName Ha (or_intror eq_refl)) as H2.
  rewrite E, H2 in H1. apply app_inv_head in H1. by injection H1.
Qed.

(** A setting read without faults depends on its own file and on the directory. *)
Lemma setting_frame s name w1 w2 :
  quiet w1 → quiet w2 → w_fs w1 !! Directory_ s = w_fs w2 !! Directory_ s →
  w_fs w1 !! setting_file s name = w_fs w2 !! setting_file s name →
  (setting s name w1).1 = (setting s name w2).1.
Proof.
  intros Hq1 Hq2 Hd Hf. unfold setting, setting_path, fail. rewrite !bind_lift.
  destruct (is_abs (Directory_ s)); [|done]. cbn [check_that mbind result_bind].
  rewrite !bind_try, !validate_directory_quiet, Hd by done.
  destruct (directory_result _ _) as [[]|[]]; try done.
  rewrite !bind_map_error, !read_trusted_quiet by done. fold (setting_file s name). rewrite Hf.
  by destruct (read_result _ _ _).
Qed.

Lemma write_spec s name value w r w' :
  is_abs (Directory_ s) = true → trusted_directory s (w_fs w) →
  name = enforcementFileName ∨ name = signaturePolicyFileName →
  (∀ u m, w_fs w !! setting_file s name ≠ Some (Directory u m)) →
  write s name value w = (r, w') →
  match r with
  | Ok _ => w_fs w' = <[setting_file s name := File (w_uid w) 420 (line value)]> (w_fs w)
  | Err _ => w_fs w' = w_fs w
  end ∧ (quiet w → r = Ok ()).
Proof.
  intros Ha (mode & Hd & Hp) Hn Hf. unfold write, setting_path. rewrite bind_lift, Ha.
  cbn [check_that mbind result_bind]. rewrite bind_map_error.
  destruct (ensureDirectory _ _ w) as [r1 w1] eqn:E.
  apply (ensure_directory_spec _ _ mode) in E as [[Hfs Hu] Hq]; [|done..].
  destruct r1 as [[]|e]; [|intros [= <- <-]; split; [done|intros Hx; by destruct (Hq Hx)]].
  unfold map_error. destruct (writeAtomic _ _ _ w1) as [r2 w2] eqn:E2.
  apply write_atomic_writes in E2 as (_ & Hw & Hok). rewrite Hfs, Hu in *.
  intros [= <- <-]. split; [by destruct r2|]. intros Hx. destruct (Hq Hx) as [_ ->].
  destruct (Hok Hx) as [_ ->]; done.
Qed.

(** Setting the level is atomic: in a directory that is the owner's alone,
    an interrupted call leaves every file as it was, and a completed one makes
    the level the answer of the next launch, without touching what enrolments are
    told about unsigned packages.  Without faults a valid level is always set. *)
Theorem set_level_atomic s level w r w' :
  is_abs (Directory_ s) = true → trusted_directory s (w_fs w) → w_uid w = OwnerUID s →
  (∀ u m, w_fs w !! setting_file s enforcementFileName ≠ Some (Directory u m)) →
  Set_ s level w = (r, w') →
  (r ≠ Ok () → w_fs w' = w_fs w) ∧
  (r = Ok () → (Enforcement s (calm w')).1 = Ok level ∧
    (setting s signaturePolicyFileName (calm w')).1 = (setting s signaturePolicyFileName (calm w)).1) ∧
  (quiet w → valid_level level = true → r = Ok ()).
Proof.
  intros Ha Ht Hu Hf H. unfold Set_ in H. rewrite bind_lift in H.
  destruct (valid_level level) eqn:Hv; [|by injection H as <- <-]. cbn [check_that] in H.
  apply write_spec in H as [Hw Hq]; [|auto..]. split_and!; [|intros ->|auto].
  { intros Hr. destruct r as [[]|]; done. }
  destruct Ht as (mode & Hd & Hp). split.
  - assert (recorded s enforcementFileName (w_fs w') level) as Hrec.
    { exists (line level). rewrite Hw, Hu. split_and!; [| |].
      - exists 420%N. by rewrite lookup_insert_eq.
      - unfold valid_level in Hv. apply bool_decide_eq_true in Hv.
        repeat (apply elem_of_cons in Hv as [->|Hv]; [vm_compute; done|]). by apply elem_of_nil in Hv.
      - unfold valid_level in Hv. apply bool_decide_eq_true in Hv.
        repeat (apply elem_of_cons in Hv as [->|Hv]; [vm_compute; done|]). by apply elem_of_nil in Hv. }
    unfold Enforcement, Level, mbind, M_bind, try.
    destruct (setting s enforcementFileName (calm w')) as [x wx] eqn:E.
    apply setting_spec in E as (_ & _ & _ & Hs).
    rewrite (Hs eq_refl Ha) with (value := level); [simpl; by rewrite Hv| |done].
    exists mode. simpl. rewrite Hw, lookup_insert_ne; [done|]. apply setting_not_directory; auto.
  - apply setting_frame; try done; simpl; rewrite Hw.
    + rewrite lookup_insert_ne; [done|]. apply setting_not_directory; auto.
    + rewrite lookup_insert_ne; [done|]. by apply settings_differ.
Qed.

Definition store_example : EnforcementStore := mkStore "/var/lib/cpak" 0.
Definition world_example (faults : list bool) : world :=
  mkWorld {[ "/var/lib/cpak" := Directory 0 493 ]} 0 faults.

Lemma set_level_atomic_witness :
  (Enforcement store_example (calm (Set_ store_example EnforcementRefuse (world_example [])).2)).1 =
    Ok EnforcementRefuse.
Proof.
  apply (set_level_atomic store_example EnforcementRefuse (world_example [])
    (Set_ store_example EnforcementRefuse (world_example [])).1
    (Set_ store_example EnforcementRefuse (world_example [])).2); try (vm_compute; reflexivity).
  - exists 493%N. split; vm_compute; reflexivity.
  - intros u m. vm_compute. discriminate.
Defined.
