(* ===== verification/Reputation.v ===== *)
(** * Publisher reputation ([pkg/reputation])

    The configured authority, the signed snapshot it publishes, the checks that
    turn a document into a snapshot, and the lookup of a publisher in it.  The
    JSON decoders, RFC 8785 canonicalisation, SHA-256 and Ed25519 are parameters
    gathered in a record. *)
From Stdlib Require Import Ascii.
From stdpp Require Import base strings list numbers sorting sets.
From S2P Require Import Prelude.
From S2P Require Import GoStrings.
From S2P Require Import Regex.
From S2P Require Import Hex.
From S2P Require Import Json.
From S2P Require Import GoTime.
From stdpp Require Import options.

(** ** Names and limits *)
Definition lower_alnum : list (ascii * ascii) := [("a", "z"); ("0", "9")]%char.
Definition name_rest : list (ascii * ascii) :=
  (lower_alnum ++ [(".", "."); ("_", "_"); ("-", "-")])%char.

Definition namePattern : regex := RSeq (RSet lower_alnum) (RUpTo 63 (RSet name_rest)).
Definition publisherPattern : regex :=
  RSeq (RAlt (RLit "oidc-v1-sha256") (RLit "x509-spki-sha256"))
    (RSeq (RChar ":") (RTimes 64 (RSet [("0", "9"); ("a", "f")]%char))).

Definition SnapshotABIVersion : Z := 1.
Definition MaxSnapshotSize : N := N.shiftl 16 20.
Definition MaxAuthoritySize : N := N.shiftl 64 10.
Definition MaxEntries : N := 100000.
Definition MaxSequence : N := N.shiftl 1 53 - 1.
Definition MaxReasonCode : nat := 64.
Definition PublicKeySize : nat := 32.
Definition SignatureSize : nat := 64.

Definition ValidPublisherID (value : string) : bool := matches publisherPattern value.

(** [Status] is a string; the wire can carry any. *)
Inductive Status : Type := Unknown | Established | Caution | Blocked | Unavailable
  | OtherStatus (text : string).
#[export] Instance status_eq_dec : EqDecision Status.
Proof. solve_decision. Defined.

Definition validEntryStatus (s : Status) : bool :=
  match s with Unknown | Established | Caution | Blocked => true | _ => false end.

(** ** Data *)
Record Authority : Type := mkAuthority {
  a_ProviderID : string;
  a_KeyID : string;
  PublicKey : string
}.
#[export] Instance authority_eq_dec : EqDecision Authority.
Proof. solve_decision. Defined.

Record authorityDocument : Type := mkAuthorityDocument {
  ad_ABI : Z;
  ad_ProviderID : string;
  ad_KeyID : string;
  ad_PublicKey : string
}.

Record Entry : Type := mkEntry {
  e_PublisherID : string;
  e_Status : Status;
  e_ReasonCode : string
}.

Record Signed : Type := mkSigned {
  sg_Sequence : N;
  sg_IssuedAt : string;
  sg_ExpiresAt : string;
  sg_Entries : list Entry
}.

Record Snapshot : Type := mkSnapshot {
  s_ProviderID : string;
  s_KeyID : string;
  s_Sequence : N;
  s_IssuedAt : Z;
  s_ExpiresAt : Z;
  s_entries : list Entry
}.

Record Result : Type := mkResult {
  r_ProviderID : string;
  r_PublisherID : string;
  r_Status : Status;
  r_IssuedAt : Z;
  r_ExpiresAt : Z;
  r_Sequence : N;
  r_ReasonCode : string
}.

Record envelope : Type := mkEnvelope {
  env_ABI : Z;
  env_ProviderID : string;
  env_KeyID : string;
  env_Signed : string;
  env_Signature : string
}.

Inductive rep_error : Type :=
  (* authority *)
  | AuthoritySize | DecodeAuthority | UnsupportedAuthorityABI (abi : Z)
  | ProviderName | KeyNotEd25519 | KeyIDMismatch
  (* document *)
  | DocumentSize | ConfigureAuthority (e : rep_error) | DuplicateKeys | DecodeEnvelope
  | SignedMissing | SignedSize | DecodeSigned | Canonicalize | UnsupportedABI (abi : Z)
  | WrongProvider | WrongKey | BadSignature
  (* signed contents *)
  | SequenceRange | IssuedAtFormat | ExpiresAtFormat | ExpiresBeforeIssued | TooManyEntries
  | EntryPublisher (i : nat) | EntryStatus (i : nat) | EntryReason (i : nat) | NotSorted
  (* freshness *)
  | IssuedInFuture | Expired
  (* results *)
  | ResultProvider | ResultPublisher | ResultStatus | ResultReason | ResultMetadata
  | ResultIncomplete.

(** ** Results *)
Definition UnavailableResult (providerID publisherID reasonCode : string) : Result :=
  mkResult providerID publisherID Unavailable 0 0 0 reasonCode.

Definition validate_result (r : Result) : result rep_error unit :=
  refuse_if (negb (bool_decide (r_ProviderID r = "")) && negb (matches namePattern (r_ProviderID r)))
    ResultProvider ;;;
  check_that (ValidPublisherID (r_PublisherID r)) ResultPublisher ;;;
  refuse_if (negb (bool_decide (r_Status r = Unavailable)) && negb (validEntryStatus (r_Status r)))
    ResultStatus ;;;
  check_that (matches namePattern (r_ReasonCode r)) ResultReason ;;;
  if bool_decide (r_Status r = Unavailable) then
    refuse_if (negb (is_zero (r_IssuedAt r)) || negb (is_zero (r_ExpiresAt r)) ||
      negb (r_Sequence r =? 0)%N) ResultMetadata
  else
    refuse_if (bool_decide (r_ProviderID r = "") || (r_Sequence r =? 0)%N ||
      (MaxSequence <? r_Sequence r)%N || is_zero (r_IssuedAt r) ||
      negb (after (r_ExpiresAt r) (r_IssuedAt r))) ResultIncomplete.

(** ** Signed contents *)
Definition parseTimestamp (e : rep_error) (value : string) : result rep_error Z :=
  match parse_canonical value with Some t => Ok t | None => Err e end.

(** The loop over the entries; [previous] starts as the empty string. *)
Fixpoint validate_entries (index : nat) (previous : string) (l : list Entry) :
    result rep_error unit :=
  match l with
  | [] => Ok tt
  | entry :: l =>
      check_that (matches publisherPattern (e_PublisherID entry)) (EntryPublisher index) ;;;
      check_that (validEntryStatus (e_Status entry)) (EntryStatus index) ;;;
      refuse_if (negb (matches namePattern (e_ReasonCode entry)) ||
        (MaxReasonCode <? slen (e_ReasonCode entry))) (EntryReason index) ;;;
      refuse_if (negb (bool_decide (previous = "")) && str_leb (e_PublisherID entry) previous)
        NotSorted ;;;
      validate_entries (S index) (e_PublisherID entry) l
  end.

Definition validateSigned (signed : Signed) : result rep_error (Z * Z) :=
  refuse_if ((sg_Sequence signed =? 0)%N || (MaxSequence <? sg_Sequence signed)%N) SequenceRange ;;;
  issued ← parseTimestamp IssuedAtFormat (sg_IssuedAt signed);
  expires ← parseTimestamp ExpiresAtFormat (sg_ExpiresAt signed);
  check_that (after expires issued) ExpiresBeforeIssued ;;;
  refuse_if (MaxEntries <? N.of_nat (length (sg_Entries signed)))%N TooManyEntries ;;;
  validate_entries 0 "" (sg_Entries signed) ;;;
  Ok (issued, expires).

(** ** Lookup *)

(** [sort.Search]: the bisection of [0, n). *)
Fixpoint search_fuel (fuel : nat) (f : nat → bool) (i j : nat) : nat :=
  match fuel with
  | 0 => i
  | S fuel =>
      if i <? j then
        let h := (i + j) / 2 in
        if negb (f h) then search_fuel fuel f (S h) j else search_fuel fuel f i h
      else i
  end.
Definition search (n : nat) (f : nat → bool) : nat := search_fuel n f 0 n.

Definition answer (s : Snapshot) (publisherID : string) (status : Status) (code : string) : Result :=
  mkResult (s_ProviderID s) publisherID status (s_IssuedAt s) (s_ExpiresAt s) (s_Sequence s) code.

Definition Lookup (snapshot : Snapshot) (publisherID : string) : Result :=
  let entries := s_entries snapshot in
  let index := search (length entries) (λ i,
    match entries !! i with
    | Some e => str_leb publisherID (e_PublisherID e)
    | None => true
    end) in
  match entries !! index with
  | Some entry =>
      if bool_decide (e_PublisherID entry = publisherID)
      then answer snapshot publisherID (e_Status entry) (e_ReasonCode entry)
      else answer snapshot publisherID Unknown "publisher-not-listed"
  | None => answer snapshot publisherID Unknown "publisher-not-listed"
  end.

(** ** Documents *)

(** What the code calls of [encoding/json], of the RFC 8785 library and of
    [crypto]: the tokens of a document that is exactly one JSON value, the strict
    decoders of the three documents, the indented encoder of one, and the
    primitives. *)
Record codec : Type := mkCodec {
  json_value : string → option json;
  decode_envelope : string → option envelope;
  decode_signed : string → option Signed;
  canonicalize : string → option string;
  decode_authority : string → option authorityDocument;
  encode_authority : authorityDocument → string;
  sha256 : string → string;
  ed25519_verify : string → string → string → bool
}.

(** [walk]: no object of the value repeats a key. *)
Fixpoint unique_keys (v : json) : bool :=
  match v with
  | JArray l => forallb unique_keys l
  | JObject l => bool_decide (NoDup l.*1) && forallb (λ m, unique_keys m.2) l
  | _ => true
  end.

Section Documents.
Context (c : codec).

Definition rejectDuplicateKeys (document : string) : result rep_error unit :=
  check_that (from_option unique_keys false (json_value c document)) DuplicateKeys.

Definition KeyID (publicKey : string) : string :=
  "ed25519-sha256:" +:+ hex_encode (sha256 c publicKey).

Definition validate_authority (a : Authority) : result rep_error unit :=
  check_that (matches namePattern (a_ProviderID a)) ProviderName ;;;
  check_that (slen (PublicKey a) =? PublicKeySize) KeyNotEd25519 ;;;
  check_that (bool_decide (a_KeyID a = KeyID (PublicKey a))) KeyIDMismatch.

Definition from_decoder {A} (o : option A) (e : rep_error) : result rep_error A :=
  match o with Some x => Ok x | None => Err e end.

Definition NewAuthority (providerID publicKey : string) : result rep_error Authority :=
  let authority := mkAuthority providerID (KeyID publicKey) publicKey in
  validate_authority authority ;;;
  Ok authority.

Definition MarshalAuthority (authority : Authority) : result rep_error string :=
  validate_authority authority ;;;
  Ok (encode_authority c (mkAuthorityDocument SnapshotABIVersion (a_ProviderID authority)
    (a_KeyID authority) (PublicKey authority)) +:+ String "010" "").

Definition ParseAuthority (document : string) : result rep_error Authority :=
  refuse_if (bool_decide (document = "") || (MaxAuthoritySize <? N.of_nat (slen document))%N)
    AuthoritySize ;;;
  rejectDuplicateKeys document ;;;
  wire ← from_decoder (decode_authority c document) DecodeAuthority;
  check_that (ad_ABI wire =? SnapshotABIVersion)%Z (UnsupportedAuthorityABI (ad_ABI wire)) ;;;
  let authority := mkAuthority (ad_ProviderID wire) (ad_KeyID wire) (ad_PublicKey wire) in
  validate_authority authority ;;;
  Ok authority.

Definition outside (document : string) : bool :=
  bool_decide (document = "") || (MaxSnapshotSize <? N.of_nat (slen document))%N.

Definition ParseSigned (document : string) : result rep_error Signed :=
  refuse_if (outside document) SignedSize ;;;
  rejectDuplicateKeys document ;;;
  signed ← from_decoder (decode_signed c document) DecodeSigned;
  _ ← validateSigned signed;
  Ok signed.

Definition parseEnvelope (document : string) :
    result rep_error (envelope * Signed * string) :=
  rejectDuplicateKeys document ;;;
  parsed ← from_decoder (decode_envelope c document) DecodeEnvelope;
  refuse_if (bool_decide (env_Signed parsed = "") || bool_decide (env_Signed parsed = "null"))
    SignedMissing ;;;
  signed ← ParseSigned (env_Signed parsed);
  canonical ← from_decoder (canonicalize c (env_Signed parsed)) Canonicalize;
  Ok (parsed, signed, canonical).

Definition Authenticate (document : string) (authority : Authority) : result rep_error Snapshot :=
  refuse_if (outside document) DocumentSize ;;;
  wrap ConfigureAuthority (validate_authority authority) ;;;
  '(parsed, signed, canonical) ← parseEnvelope document;
  check_that (env_ABI parsed =? SnapshotABIVersion)%Z (UnsupportedABI (env_ABI parsed)) ;;;
  check_that (bool_decide (env_ProviderID parsed = a_ProviderID authority)) WrongProvider ;;;
  check_that (bool_decide (env_KeyID parsed = a_KeyID authority)) WrongKey ;;;
  refuse_if (negb (slen (env_Signature parsed) =? SignatureSize) ||
    negb (ed25519_verify c (PublicKey authority) canonical (env_Signature parsed)))
    BadSignature ;;;
  '(issued, expires) ← validateSigned signed;
  Ok (mkSnapshot (env_ProviderID parsed) (env_KeyID parsed) (sg_Sequence signed) issued expires
    (sg_Entries signed)).

Definition Verify (document : string) (authority : Authority) (now : Z) : result rep_error Snapshot :=
  snapshot ← Authenticate document authority;
  refuse_if (after (s_IssuedAt snapshot) now) IssuedInFuture ;;;
  check_that (before now (s_ExpiresAt snapshot)) Expired ;;;
  Ok snapshot.
End Documents.

(** ** The bisection *)
Lemma search_fuel_spec fuel f i j n :
  (∀ a b, a ≤ b → b < n → f a = true → f b = true) →
  i ≤ j ≤ n → j - i ≤ fuel →
  (∀ k, k < i → f k = false) → (∀ k, j ≤ k → k < n → f k = true) →
  let r := search_fuel fuel f i j in
  r ≤ n ∧ (∀ k, k < r → f k = false) ∧ (∀ k, r ≤ k → k < n → f k = true).
Proof.
  intros Hm. revert i j. induction fuel as [|fuel IH]; intros i j Hij Hf Hl Hr; cbn [search_fuel]; cbv zeta.
  { assert (i = j) as -> by lia. split; [lia|done]. }
  destruct (Nat.ltb_spec i j) as [Hlt|]; [|split; [lia|split; [done|]]].
  2: { intros k ? ?. apply Hr; lia. }
  pose proof (Nat.div_mod_eq (i + j) 2). pose proof (Nat.mod_upper_bound (i + j) 2).
  destruct (f ((i + j) / 2)) eqn:E; cbn [negb].
  - apply IH; [lia..|done|]. intros k ? ?. apply (Hm ((i + j) / 2)); [lia..|done].
  - apply IH; [lia..| |done]. intros k Hk. apply not_true_iff_false. intros Hfk.
    apply (Hm k ((i + j) / 2)) in Hfk; [congruence|lia..].
Qed.

(** [sort.Search] finds the first index of a monotone test. *)
Lemma search_spec n f :
  (∀ a b, a ≤ b → b < n → f a = true → f b = true) →
  search n f ≤ n ∧ (∀ k, k < search n f → f k = false) ∧
  (∀ k, search n f ≤ k → k < n → f k = true).
Proof. intros Hm. apply search_fuel_spec; try done; intros; lia. Qed.

(** ** Validated entries are strictly sorted *)
Definition entry_lt (x y : Entry) : Prop :=
  String.le (e_PublisherID x) (e_PublisherID y) ∧ e_PublisherID x ≠ e_PublisherID y.

Definition valid_entry (e : Entry) : Prop :=
  ValidPublisherID (e_PublisherID e) = true ∧ validEntryStatus (e_Status e) = true ∧
  matches namePattern (e_ReasonCode e) = true.

Lemma str_leb_le a b : str_leb a b = true ↔ String.le a b.
Proof. unfold str_leb, String.le. symmetry. apply Is_true_true. Qed.

Lemma str_leb_false a b : str_leb a b = false ↔ str_lt b a = true.
Proof.
  rewrite <-not_true_iff_false, str_leb_le, str_lt_leb. split.
  - intros E. destruct (total String.le a b) as [H|H]; [done|]. split; [done|]. by intros ->.
  - intros [H Hne] H'. apply Hne. by apply (anti_symm String.le).
Qed.

Lemma publisher_nonempty p : ValidPublisherID p = true → p ≠ "".
Proof. apply matches_nonempty. vm_compute. lia. Qed.

Lemma validate_entries_ok i previous l :
  validate_entries i previous l = Ok tt →
  Forall valid_entry l ∧ StronglySorted entry_lt l ∧
  (previous ≠ "" → ∀ e, e ∈ l → String.le previous (e_PublisherID e) ∧ e_PublisherID e ≠ previous).
Proof.
  revert i previous. induction l as [|e l IH]; intros i previous; cbn [validate_entries].
  { intros _. split_and!; [constructor..|set_solver]. }
  rewrite !bind_unit_ok, !check_that_ok, !refuse_if_ok. intros (Hp & Hs & Hr & Hn & Hl).
  apply IH in Hl as (Hf & Hss & Hgt). bools_in Hr. destruct Hr as [Hr _].
  specialize (Hgt (publisher_nonempty _ Hp)).
  split_and!.
  - constructor; [split_and!; done|done].
  - constructor; [done|]. apply Forall_forall. intros x Hx. destruct (Hgt x Hx). by split.
  - intros Hne. bools_in Hn. destruct Hn as [?|Hn]; [done|].
    apply str_leb_false, str_lt_leb in Hn as [Hle Hne'].
    intros x [->|Hx]%elem_of_cons; [done|]. destruct (Hgt x Hx) as [Hlt Hd].
    split; [by etrans|]. intros Heq. apply Hne'. apply (anti_symm String.le); [done|].
    by rewrite <-Heq.
Qed.

Lemma sorted_lookup_lt l i j x y :
  StronglySorted entry_lt l → i < j → l !! i = Some x → l !! j = Some y → entry_lt x y.
Proof.
  intros Hs. revert i j. induction Hs as [|z l Hs IH Hz]; intros [|i] [|j] Hij Hx Hy;
    simplify_eq/=; try lia; [|by eapply (IH i j); [lia|..]].
  rewrite Forall_forall in Hz. eapply Hz, list_elem_of_lookup_2, Hy.
Qed.

(** The bisection finds the entry the linear search finds. *)
Lemma lookup_find s id :
  StronglySorted entry_lt (s_entries s) →
  Lookup s id =
    match List.find (λ e, bool_decide (e_PublisherID e = id)) (s_entries s) with
    | Some e => answer s id (e_Status e) (e_ReasonCode e)
    | None => answer s id Unknown "publisher-not-listed"
    end.
Proof.
  intros Hs. unfold Lookup. cbv zeta. set (l := s_entries s) in *.
  set (f := λ i, match l !! i with Some e => str_leb id (e_PublisherID e) | None => true end).
  assert (∀ a b, a ≤ b → b < length l → f a = true → f b = true) as Hm.
  { intros a b Hab Hb. unfold f.
    destruct (lookup_lt_is_Some_2 l b Hb) as [y Hy]. rewrite Hy.
    destruct (decide (a = b)) as [->|Hne]; [by rewrite Hy|].
    destruct (lookup_lt_is_Some_2 l a ltac:(lia)) as [x Hx]. rewrite Hx, !str_leb_le.
    intros Hle. etrans; [done|]. by apply (sorted_lookup_lt l a b x y Hs); [lia|..]. }
  destruct (search_spec (length l) f Hm) as (Hn & Hlt & Hge). set (k := search (length l) f) in *.
  assert (∀ e, e ∈ l → e_PublisherID e = id → l !! k = Some e) as Hfound.
  { intros e (i & Hi)%list_elem_of_lookup_1 He.
    pose proof (lookup_lt_Some _ _ _ Hi) as Hil.
    destruct (decide (i < k)) as [Hik|Hik].
    { specialize (Hlt i Hik). unfold f in Hlt. rewrite Hi, <-He in Hlt.
      apply str_leb_false, str_lt_leb in Hlt as [_ Hd]. done. }
    destruct (decide (i = k)) as [<-|Hne]; [done|].
    destruct (lookup_lt_is_Some_2 l k ltac:(lia)) as [x Hx].
    specialize (Hge k ltac:(lia) ltac:(lia)). unfold f in Hge. rewrite Hx in Hge.
    apply str_leb_le in Hge.
    destruct (sorted_lookup_lt l k i x e Hs ltac:(lia) Hx Hi) as [Hle Hd].
    destruct Hd. rewrite He in *. by apply (anti_symm String.le). }
  destruct (List.find _ l) as [e|] eqn:Hfind.
  - apply find_elem in Hfind as [He Hid]. bools_in Hid. rewrite (Hfound e He Hid).
    by rewrite bool_decide_eq_true_2.
  - destruct (l !! k) as [x|] eqn:Hx; [|done]. case_bool_decide as Hxid; [|done].
    apply list_elem_of_lookup_2, list_elem_of_In in Hx.
    pose proof (find_none _ _ Hfind x Hx) as Hno. simpl in Hno. by rewrite bool_decide_eq_true_2 in Hno.
Qed.

(** ** What an authenticated snapshot guarantees *)
Lemma from_decoder_ok {A} (o : option A) e x : from_decoder o e = Ok x ↔ o = Some x.
Proof. destruct o; cbn; naive_solver. Qed.

Lemma validate_signed_ok signed issued expires :
  validateSigned signed = Ok (issued, expires) →
  (0 < sg_Sequence signed ≤ MaxSequence)%N ∧ (issued < expires)%Z ∧
  Forall valid_entry (sg_Entries signed) ∧ StronglySorted entry_lt (sg_Entries signed).
Proof.
  unfold validateSigned. rewrite bind_unit_ok, bind_ok. intros (Hs & i & _ & Hi).
  rewrite bind_ok in Hi. destruct Hi as (x & _ & Hx). rewrite !bind_unit_ok in Hx.
  destruct Hx as (Ha & _ & He & [= -> ->]). unfold after in Ha. bools_in Hs. bools_in Ha.
  apply validate_entries_ok in He as (? & ? & _). split_and!; [lia..|done|done].
Qed.

Record authentic (c : codec) (a : Authority) (s : Snapshot) : Prop := {
  au_authority : validate_authority c a = Ok tt;
  au_provider : s_ProviderID s = a_ProviderID a;
  au_sequence : (0 < s_Sequence s ≤ MaxSequence)%N;
  au_times : (s_IssuedAt s < s_ExpiresAt s)%Z;
  au_valid : Forall valid_entry (s_entries s);
  au_sorted : StronglySorted entry_lt (s_entries s);
  au_signed : ∃ text canonical signature signed,
    decode_signed c text = Some signed ∧ canonicalize c text = Some canonical ∧
    ed25519_verify c (PublicKey a) canonical signature = true ∧
    sg_Entries signed = s_entries s ∧ sg_Sequence signed = s_Sequence s
}.

Lemma authenticate_ok c document a s :
  Authenticate c document a = Ok s → authentic c a s.
Proof.
  unfold Authenticate. rewrite !bind_unit_ok, wrap_ok, bind_ok.
  intros (_ & Ha & [[parsed signed] canonical] & Hp & Hr).
  rewrite !bind_unit_ok, !check_that_ok, bind_ok in Hr.
  destruct Hr as (_ & Hprov & _ & Hsig & [issued expires] & Hv & [= <-]).
  bools_in Hprov. bools_in Hsig. destruct Hsig as [_ Hsig].
  unfold parseEnvelope in Hp. rewrite bind_unit_ok, bind_ok in Hp.
  destruct Hp as (_ & p & _ & Hp). rewrite bind_unit_ok, bind_ok in Hp.
  destruct Hp as (_ & sg & Hps & Hp). rewrite bind_ok in Hp.
  destruct Hp as (can & Hcan%from_decoder_ok & [= -> -> ->]).
  unfold ParseSigned in Hps. rewrite !bind_unit_ok, bind_ok in Hps.
  destruct Hps as (_ & _ & sg & Hdec%from_decoder_ok & Hps).
  rewrite bind_ok in Hps. destruct Hps as (? & _ & [= ->]).
  apply validate_signed_ok in Hv as (? & ? & ? & ?).
  split; try done. eauto 10.
Qed.

Lemma authority_named c a :
  validate_authority c a = Ok tt → matches namePattern (a_ProviderID a) = true.
Proof. unfold validate_authority. by rewrite bind_unit_ok, check_that_ok; intros []. Qed.

Lemma name_nonempty n : matches namePattern n = true → n ≠ "".
Proof. apply matches_nonempty. vm_compute. lia. Qed.

(** An answer with a listed status and a name for a code is well formed. *)
Lemma answer_valid c a s id status code :
  authentic c a s → ValidPublisherID id = true → s_IssuedAt s ≠ 0%Z →
  validEntryStatus status = true → matches namePattern code = true →
  validate_result (answer s id status code) = Ok tt.
Proof.
  intros [Ha Hp Hq Ht _ _ _] Hid Hi Hs Hc. apply authority_named in Ha.
  unfold validate_result, answer. cbn [r_ProviderID r_PublisherID r_Status r_ReasonCode r_IssuedAt
    r_ExpiresAt r_Sequence]. rewrite Hp, Hid, Hs, Hc, Ha.
  rewrite !andb_false_r. cbn [refuse_if check_that mbind result_bind].
  case_bool_decide as Hu; [by subst|]. apply name_nonempty in Ha.
  apply refuse_if_ok. unfold is_zero, after. rewrite bool_decide_eq_false_2 by done. bools.
  split_and!; try done; lia.
Qed.

(** A snapshot that verifies was signed by the configured authority and is
    fresh, and every lookup in it is a well-formed answer whose status is either
    the one the signed document lists for that publisher or, for a publisher it
    does not list, unknown.  [Result.Validate] accepts the answer unless the
    snapshot says it was issued at the zero time. *)
Theorem verified_lookup c document a now s id :
  Verify c document a now = Ok s → ValidPublisherID id = true →
  let r := Lookup s id in
  r_ProviderID r = a_ProviderID a ∧ (r_IssuedAt r ≤ now < r_ExpiresAt r)%Z ∧
  (r_IssuedAt r ≠ 0%Z → validate_result r = Ok tt) ∧
  ∃ text canonical signature signed,
    decode_signed c text = Some signed ∧ canonicalize c text = Some canonical ∧
    ed25519_verify c (PublicKey a) canonical signature = true ∧
    r_Sequence r = sg_Sequence signed ∧
    (mkEntry id (r_Status r) (r_ReasonCode r) ∈ sg_Entries signed ∨
     r_Status r = Unknown ∧ r_ReasonCode r = "publisher-not-listed" ∧
     ∀ e, e ∈ sg_Entries signed → e_PublisherID e ≠ id).
Proof.
  unfold Verify. rewrite bind_ok. intros (s' & Hs%authenticate_ok & H) Hid.
  rewrite !bind_unit_ok, refuse_if_ok, check_that_ok in H. destruct H as (Hi & Hx & [= ->]).
  unfold after, before in *. bools_in Hi. bools_in Hx.
  cbv zeta. rewrite (lookup_find s id (au_sorted c a s Hs)).
  pose proof (au_provider c a s Hs).
  destruct (au_signed c a s Hs) as (text & can & sig & sg & Hdec & Hcan & Hver & Hen & Hsq).
  destruct (List.find _ _) as [e|] eqn:Hf.
  - apply find_elem in Hf as [He Heid]. bools_in Heid. subst id.
    pose proof (au_valid c a s Hs) as Hval. rewrite Forall_forall in Hval.
    destruct (Hval e He) as (_ & Hst & Hrc).
    split_and!; [done|done|done|intros ?; by eapply answer_valid|].
    exists text, can, sig, sg. split_and!; try done. left. rewrite Hen. by destruct e.
  - split_and!; [done|done|done|intros ?; by eapply answer_valid|].
    exists text, can, sig, sg. split_and!; try done. right. split_and!; try done.
    intros e He. rewrite Hen, list_elem_of_In in He. pose proof (find_none _ _ Hf e He) as Hn.
    by bools_in Hn.
Qed.

Definition id_example : string :=
  "oidc-v1-sha256:0123456789abcdef0123456789abcdef0123456789abcdef0123456789abcdef".
Definition key_example : string := "0123456789abcdef0123456789abcdef".
Definition signed_example : Signed :=
  mkSigned 7 "2026-01-01T00:00:00Z" "2026-02-01T00:00:00Z"
    [mkEntry id_example Established "long-history"].
(** A codec for one document, whose only valid signature is sixty-four zeros. *)
Definition codec_example : codec := {|
  json_value := λ _, Some (JObject []);
  decode_envelope := λ _, Some (mkEnvelope 1 "acme" ("ed25519-sha256:" +:+ hex_encode key_example)
    "{}" (hex_encode key_example));
  decode_signed := λ _, Some signed_example;
  canonicalize := Some;
  decode_authority := λ _, None;
  encode_authority := λ _, "";
  sha256 := id;
  ed25519_verify := λ _ _ signature, bool_decide (signature = hex_encode key_example)
|}.
Definition authority_example : Authority :=
  mkAuthority "acme" ("ed25519-sha256:" +:+ hex_encode key_example) key_example.

Lemma verified_lookup_witness :
  ∃ s, Verify codec_example "x" authority_example (63904000000 * second) = Ok s ∧
    r_ProviderID (Lookup s id_example) = "acme" ∧ r_Status (Lookup s id_example) = Established.
Proof.
  eexists. split; [vm_compute; reflexivity|]. split; [|vm_compute; reflexivity].
  eapply (verified_lookup codec_example "x" authority_example (63904000000 * second));
    vm_compute; reflexivity.
Defined.
