(* ===== verification/ReputationStore.v ===== *)
(** * The reputation store ([pkg/systemauthority/reputation.go])

    The configured provider and its active signed snapshot: two files of the
    authority.  Importing replaces the snapshot by a newer one of the same
    provider; configuring another provider removes it.  Every operation is the
    sequence of system calls the code makes, so that a list of faults is a point
    of interruption. *)
From Stdlib Require Import Ascii.
From stdpp Require Import base strings list gmap.
From S2P Require Import Prelude.
From S2P Require Import GoStrings.
From S2P Require Import GoPath.
From S2P Require Import Hex.
From S2P Require Import Reputation.
From S2P Require Import TrustedFiles.
From stdpp Require Import options.

Definition reputationAuthorityFile : string := "provider.json".
Definition reputationSnapshotFile : string := "snapshot.json".

Inductive rstore_error : Type :=
  | RelativeStore | StoreDirectory (e : file_error) | StoreRead (e : file_error)
  | BadAuthority (e : rep_error) | KeyNotConfirmed | StoreWrite (e : file_error)
  | StoreSync (e : file_error) | StoreRemove (e : file_error)
  | NotConfigured | BadSnapshot (e : rep_error) | ActiveUnreadable (e : rep_error)
  | Rollback (active offered : N).

Record ReputationStore : Type := mkRepStore { Directory_ : string; OwnerUID : N }.

Section Store.
Context (c : codec) (s : ReputationStore).

Definition store_path (name : string) : result rstore_error string :=
  check_that (is_abs (Directory_ s)) RelativeStore ;;;
  Ok (path_join [Directory_ s; name]).

(** [Authority]: [None] when no provider is configured. *)
Definition StoredAuthority : M rstore_error (option Authority) :=
  path ← lift (store_path reputationAuthorityFile);
  checked ← try (validateExistingDirectory (Directory_ s) (OwnerUID s));
  match checked with
  | Err Missing => mret None
  | Err e => fail (StoreDirectory e)
  | Ok _ =>
      document ← map_error StoreRead (readTrusted path (OwnerUID s) MaxAuthoritySize);
      match document with
      | None => mret None
      | Some document =>
          authority ← lift (wrap BadAuthority (ParseAuthority c document));
          mret (Some authority)
      end
  end.

(** [syncReputationDirectory]: open the directory and sync it. *)
Definition sync_directory : M rstore_error () := map_error StoreSync (call ;;; call).

(** [os.Remove], for which a missing file is not an error. *)
Definition remove_if_present (path : string) : M rstore_error () :=
  removed ← try (remove path);
  match removed with
  | Ok _ | Err Missing => mret ()
  | Err e => fail (StoreRemove e)
  end.

Definition SetAuthority (document expectedKeyID : string) : M rstore_error Authority :=
  authority ← lift (wrap BadAuthority (ParseAuthority c document));
  lift (refuse_if (bool_decide (expectedKeyID = "") ||
    negb (bool_decide (expectedKeyID = a_KeyID authority))) KeyNotConfirmed) ;;;
  map_error StoreDirectory (ensureDirectory (Directory_ s) (OwnerUID s)) ;;;
  current ← try StoredAuthority;
  let replace : M rstore_error Authority :=
    authorityPath ← lift (store_path reputationAuthorityFile);
    canonical ← lift (wrap BadAuthority (MarshalAuthority c authority));
    map_error StoreWrite (writeAtomic authorityPath canonical 420) ;;;
    sync_directory ;;;
    snapshotPath ← lift (store_path reputationSnapshotFile);
    remove_if_present snapshotPath ;;;
    sync_directory ;;;
    mret authority in
  match current with
  | Ok (Some current) =>
      if bool_decide (a_ProviderID current = a_ProviderID authority) &&
         bool_decide (a_KeyID current = a_KeyID authority)
      then mret current else replace
  | _ => replace
  end.

Definition Clear : M rstore_error () :=
  lift (store_path reputationAuthorityFile) ;;;
  checked ← try (validateExistingDirectory (Directory_ s) (OwnerUID s));
  match checked with
  | Err Missing => mret ()
  | Err e => fail (StoreDirectory e)
  | Ok _ =>
      remove_if_present (path_join [Directory_ s; reputationSnapshotFile]) ;;;
      remove_if_present (path_join [Directory_ s; reputationAuthorityFile]) ;;;
      sync_directory
  end.

Definition Import (document : string) (now : Z) : M rstore_error Snapshot :=
  configured ← StoredAuthority;
  match configured with
  | None => fail NotConfigured
  | Some authority =>
      candidate ← lift (wrap BadSnapshot (Verify c document authority now));
      path ← lift (store_path reputationSnapshotFile);
      activeDocument ← map_error StoreRead (readTrusted path (OwnerUID s) MaxSnapshotSize);
      match activeDocument with
      | Some activeDocument =>
          active ← lift (wrap ActiveUnreadable (Authenticate c activeDocument authority));
          lift (refuse_if (s_Sequence candidate <=? s_Sequence active)%N
            (Rollback (s_Sequence active) (s_Sequence candidate)))
      | None => mret ()
      end ;;;
      map_error StoreWrite (writeAtomic path document 420) ;;;
      sync_directory ;;;
      mret candidate
  end.

Definition Current (now : Z) : M rstore_error (option Snapshot) :=
  configured ← StoredAuthority;
  match configured with
  | None => mret None
  | Some authority =>
      path ← lift (store_path reputationSnapshotFile);
      document ← map_error StoreRead (readTrusted path (OwnerUID s) MaxSnapshotSize);
      match document with
      | None => mret None
      | Some document =>
          snapshot ← lift (wrap BadSnapshot (Verify c document authority now));
          mret (Some snapshot)
      end
  end.

(** [Lookup] always answers; the error, if any, is returned beside the answer. *)
Definition StoreLookup (publisherID : string) (now : Z) :
    M rstore_error (Result * option rstore_error) :=
  configured ← try StoredAuthority;
  match configured with
  | Err e => mret (UnavailableResult "" publisherID "provider-configuration-invalid", Some e)
  | Ok None => mret (UnavailableResult "" publisherID "provider-not-configured", None)
  | Ok (Some authority) =>
      snapshot ← try (Current now);
      mret match snapshot with
      | Err e =>
          (UnavailableResult (a_ProviderID authority) publisherID "snapshot-unavailable", Some e)
      | Ok None =>
          (UnavailableResult (a_ProviderID authority) publisherID "snapshot-not-installed", None)
      | Ok (Some snapshot) => (Lookup snapshot publisherID, None)
      end
  end.
End Store.

(** ** What the two files hold *)
Section Properties.
Context (c : codec) (s : ReputationStore).

Definition authority_path : string := path_join [Directory_ s; reputationAuthorityFile].
Definition snapshot_path : string := path_join [Directory_ s; reputationSnapshotFile].

(** [a] is the provider a trusted file configures. *)
Definition configures (fs : gmap string node) (a : Authority) : Prop :=
  ∃ document, trusted_file fs authority_path (OwnerUID s) document ∧
    (N.of_nat (slen document) ≤ MaxAuthoritySize)%N ∧ ParseAuthority c document = Ok a.

Definition active_document (fs : gmap string node) (document : string) : Prop :=
  trusted_file fs snapshot_path (OwnerUID s) document ∧
  (N.of_nat (slen document) ≤ MaxSnapshotSize)%N.

(** The active snapshot is authentic and has sequence number [n]. *)
Definition active_sequence (fs : gmap string node) (a : Authority) (n : N) : Prop :=
  configures fs a ∧ ∃ document snapshot,
    active_document fs document ∧ Authenticate c document a = Ok snapshot ∧ s_Sequence snapshot = n.

Lemma trusted_file_fun fs path owner d1 d2 :
  trusted_file fs path owner d1 → trusted_file fs path owner d2 → d1 = d2.
Proof. intros (m1 & H1 & _) (m2 & H2 & _). congruence. Qed.

Lemma configures_fun fs a b : configures fs a → configures fs b → a = b.
Proof.
  intros (d1 & H1 & _ & P1) (d2 & H2 & _ & P2).
  pose proof (trusted_file_fun _ _ _ _ _ H1 H2) as <-. congruence.
Qed.

Lemma stored_authority_spec w r w' :
  StoredAuthority c s w = (r, w') →
  only_read w w' ∧
  match r with Ok (Some a) => is_abs (Directory_ s) = true ∧ configures (w_fs w) a | _ => True end ∧
  (quiet w → ∀ a, is_abs (Directory_ s) = true →
    directory_result (w_fs w !! Directory_ s) (OwnerUID s) = Ok () → configures (w_fs w) a →
    r = Ok (Some a) ∧ w' = w).
Proof.
  unfold StoredAuthority, store_path, fail. rewrite bind_lift.
  destruct (is_abs (Directory_ s)) eqn:Ha; [|by intros [= <- <-]].
  cbn [check_that mbind result_bind]. rewrite bind_try.
  destruct (validateExistingDirectory _ _ w) as [checked w1] eqn:E.
  assert (quiet w → checked = directory_result (w_fs w !! Directory_ s) (OwnerUID s) ∧ w1 = w) as Hd.
  { intros Hq. rewrite validate_directory_quiet in E by done. by injection E as <- <-. }
  apply validate_directory_spec in E as (Hr1 & _).
  destruct checked as [[]|e].
  2: { intros H. assert (only_read w w' ∧ match r with Ok (Some _) => False | _ => True end) as [? ?]
         by by destruct e; injection H as <- <-.
       split; [done|]. split; [by destruct r as [[]|]|].
       intros Hq a _ Hok _. destruct (Hd Hq) as [E _]. congruence. }
  rewrite bind_map_error. destruct (readTrusted _ _ _ w1) as [data w2] eqn:E.
  fold authority_path in E. apply read_trusted_spec in E as (Hr2 & Hdata & Hq2).
  rewrite (proj1 Hr1) in *. destruct data as [[d|]|e].
  - rewrite bind_lift. destruct (ParseAuthority c d) as [a|e] eqn:Hp; cbn [wrap];
      intros H; injection H as <- <-.
    + split; [by etrans|]. destruct Hdata as [Ht Hl].
      split; [split; [done|by exists d]|]. intros Hq b _ _ Hb.
      destruct (Hd Hq) as [_ ->]. destruct (Hq2 Hq) as [-> _].
      assert (configures (w_fs w) a) as Hac by by exists d.
      by rewrite (configures_fun _ _ _ Hac Hb).
    + split; [by etrans|]. split; [done|]. intros Hq b _ _ (d' & Ht & Hl & Hp').
      destruct Hdata as [Ht' _]. pose proof (trusted_file_fun _ _ _ _ _ Ht Ht') as ->. congruence.
  - intros H; injection H as <- <-. split; [by etrans|]. split; [done|].
    intros Hq b _ _ (d' & (m & Hx & _) & _). congruence.
  - intros H; injection H as <- <-. split; [by etrans|]. split; [done|].
    intros Hq b _ _ (d' & Ht & Hl & _). destruct (Hd Hq) as [_ ->].
    destruct (Hq2 Hq) as (_ & _ & Hok). by specialize (Hok d' Ht Hl).
Qed.

Lemma paths_differ : is_abs (Directory_ s) = true → snapshot_path ≠ authority_path.
Proof.
  intros Ha E. apply (f_equal path_parts) in E.
  destruct (join_below (Directory_ s) reputationSnapshotFile) as (_ & _ & E1); try done.
  destruct (join_below (Directory_ s) reputationAuthorityFile) as (_ & _ & E2); try done.
  unfold snapshot_path, authority_path in E. rewrite E1, E2 in E. by apply app_inv_head in E.
Qed.

(** What an import may do to the files. *)
Definition imported (fs fs' : gmap string node) (uid : N) (document : string) (now : Z)
    (candidate : Snapshot) : Prop :=
  ∃ a, configures fs a ∧ Verify c document a now = Ok candidate ∧
    fs' = <[snapshot_path := File uid 420 document]> fs ∧
    (fs !! snapshot_path = None ∨
     ∃ old active, active_document fs old ∧ Authenticate c old a = Ok active ∧
       (s_Sequence active < s_Sequence candidate)%N).

(** The steps of an import once the active snapshot was compared. *)
Lemma install_spec path document (candidate : Snapshot) w r w' :
  (map_error StoreWrite (writeAtomic path document 420) ;;;
   sync_directory ;;; mret candidate) w = (r, w') →
  w_uid w' = w_uid w ∧
  (w_fs w' = <[path := File (w_uid w) 420 document]> (w_fs w) ∧
     (∀ x, r = Ok x → x = candidate) ∨
   w_fs w' = w_fs w ∧ is_ok r = false).
Proof.
  rewrite bind_map_error. destruct (writeAtomic _ _ _ w) as [x w1] eqn:E.
  apply write_atomic_writes in E as (Hu & Hw & _).
  destruct x as [[]|e]; [|intros [= <- <-]; by auto].
  intros H. unfold sync_directory in H. rewrite bind_map_error in H.
  destruct ((call ;;; call) w1) as [y w2] eqn:E.
  assert (only_read w1 w2) as [Hf2 Hu2].
  { apply bind_M in E as [([] & w3 & H1 & H2)|(e & H1 & _)].
    - apply call_spec in H1 as [? _], H2 as [? _]. by etrans.
    - by apply call_spec in H1 as [? _]. }
  destruct y as [[]|e]; injection H as <- <-; rewrite Hf2, Hu2, Hw, Hu; (split; [done|left]);
    split; try done. by intros x [= ->].
Qed.

Lemma import_spec document now w r w' :
  Import c s document now w = (r, w') →
  w_uid w' = w_uid w ∧
  ((∃ candidate, imported (w_fs w) (w_fs w') (w_uid w) document now candidate ∧
      ∀ x, r = Ok x → x = candidate) ∨
   w_fs w' = w_fs w ∧ is_ok r = false) ∧ is_abs (Directory_ s) || negb (is_ok r) = true.
Proof.
  unfold Import. intros H. apply bind_M in H as [(configured & w1 & Ha & H)|(e & Ha & ->)].
  2: { apply stored_authority_spec in Ha as ([Hf Hu] & _ & _). rewrite orb_true_r. auto. }
  apply stored_authority_spec in Ha as ([Hf Hu] & Hc & _).
  destruct configured as [a|]; [|injection H as <- <-; rewrite orb_true_r; by auto].
  destruct Hc as [Habs Hc]. rewrite Habs. rewrite bind_lift in H.
  destruct (Verify c document a now) as [candidate|e] eqn:Hv; cbn [wrap] in H;
    [|injection H as <- <-; by auto].
  rewrite bind_lift in H. unfold store_path in H. rewrite Habs in H.
  cbn [check_that mbind result_bind] in H. rewrite bind_map_error in H.
  destruct (readTrusted _ _ _ w1) as [old w2] eqn:E. fold snapshot_path in E, H.
  apply read_trusted_spec in E as ([Hf2 Hu2] & Hold & _). rewrite Hf, Hu in *.
  destruct old as [[old|]|e]; [| |injection H as <- <-; rewrite Hf2, Hu2; by auto].
  - apply bind_M in H as [([] & w3 & Hs & H)|(e & Hs & ->)].
    + rewrite bind_lift in Hs.
      destruct (Authenticate c old a) as [active|e] eqn:Hact; cbn [wrap] in Hs; [|done].
      injection Hs as Hseq <-. apply refuse_if_ok in Hseq. apply N.leb_gt in Hseq.
      apply install_spec in H as [Hu3 [[Hf3 Hr]|[Hf3 Hr]]]; rewrite Hf2, Hu2 in *;
        (split; [done|]); [|by auto]. split; [left|done]. exists candidate. split; [|done].
      exists a. split_and!; try done. right. exists old, active. by destruct Hold.
    + assert (w' = w2) as ->.
      { rewrite bind_lift in Hs. by destruct (Authenticate c old a); injection Hs as _ <-. }
      rewrite Hf2, Hu2. by auto.
  - apply bind_M in H as [([] & w3 & [= <-] & H)|(e & [=] & _)].
    apply install_spec in H as [Hu3 [[Hf3 Hr]|[Hf3 Hr]]]; rewrite Hf2, Hu2 in *;
      (split; [done|]); [|by auto]. split; [left|done]. exists candidate. split; [|done].
    exists a. split_and!; try done. by left.
Qed.

Lemma authenticate_size document a snapshot :
  Authenticate c document a = Ok snapshot → (N.of_nat (slen document) ≤ MaxSnapshotSize)%N.
Proof.
  unfold Authenticate. rewrite bind_unit_ok, refuse_if_ok. intros [H _].
  unfold outside in H. apply orb_false_iff in H as [_ H]. by apply N.ltb_ge in H.
Qed.

Lemma verify_authentic document a now snapshot :
  Verify c document a now = Ok snapshot → Authenticate c document a = Ok snapshot.
Proof.
  unfold Verify. rewrite bind_ok. intros (x & Hx & H). rewrite !bind_unit_ok in H.
  destruct H as (_ & _ & [= ->]). done.
Qed.

(** An import keeps the provider and never lowers the active sequence. *)
Lemma imported_sequence fs fs' document now candidate a n :
  is_abs (Directory_ s) = true →
  imported fs fs' (OwnerUID s) document now candidate →
  (configures fs a → configures fs' a) ∧
  (configures fs a → active_sequence fs' a (s_Sequence candidate)) ∧
  (active_sequence fs a n → (n < s_Sequence candidate)%N).
Proof.
  intros Habs (b & Hb & Hv%verify_authentic & -> & Hold).
  pose proof (paths_differ Habs) as Hne.
  assert (configures fs a → configures (<[snapshot_path := File (OwnerUID s) 420 document]> fs) a)
    as Hkeep.
  { intros (d & (m & Hd & Hm) & Hl & Hp). exists d. split_and!; [|done|done].
    exists m. by rewrite lookup_insert_ne. }
  split_and!; [done| |].
  - intros Ha. split; [by apply Hkeep|]. pose proof (configures_fun _ _ _ Ha Hb) as ->.
    exists document, candidate. split_and!; [|done|done].
    split; [|by eapply authenticate_size]. exists 420%N. by rewrite lookup_insert_eq.
  - intros [Ha (d & snap & [Hd _] & Hsnap & <-)]. pose proof (configures_fun _ _ _ Ha Hb) as ->.
    destruct Hold as [Hnone|(old & active & [Hold _] & Hact & Hlt)].
    + destruct Hd as (m & Hd & _). unfold snapshot_path in *. congruence.
    + pose proof (trusted_file_fun _ _ _ _ _ Hd Hold) as ->. congruence.
Qed.

(** An active snapshot the provider did not sign stops every import. *)
Lemma import_blocked document now w r w' a old e :
  configures (w_fs w) a → active_document (w_fs w) old → Authenticate c old a = Err e →
  Import c s document now w = (r, w') → w_fs w' = w_fs w ∧ is_ok r = false.
Proof.
  intros Ha [Hold _] He H. apply import_spec in H as (_ & [[cand [Hi _]]|H] & _); [exfalso|done].
  destruct Hi as (b & Hb & _ & _ & Hcase). pose proof (configures_fun _ _ _ Ha Hb) as ->.
  destruct Hcase as [Hnone|(old' & act & [Hold' _] & Hact & _)].
  - destruct Hold as (m & Hm & _). congruence.
  - pose proof (trusted_file_fun _ _ _ _ _ Hold Hold') as ->. congruence.
Qed.

Lemma current_spec now w r w' :
  Current c s now w = (r, w') → only_read w w' ∧
  ∀ snapshot, r = Ok (Some snapshot) → ∃ a document, configures (w_fs w) a ∧
    active_document (w_fs w) document ∧ Verify c document a now = Ok snapshot.
Proof.
  unfold Current. intros H. apply bind_M in H as [(configured & w1 & Ha & H)|(e & Ha & ->)];
    apply stored_authority_spec in Ha as (Hr & Hc & _); [|done].
  destruct configured as [a|]; [|by injection H as <- <-].
  destruct Hc as [Habs Hc]. rewrite bind_lift in H. unfold store_path in H. rewrite Habs in H.
  cbn [check_that mbind result_bind] in H. rewrite bind_map_error in H.
  destruct (readTrusted _ _ _ w1) as [d w2] eqn:E. fold snapshot_path in E.
  apply read_trusted_spec in E as (Hr2 & Hd & _). rewrite (proj1 Hr) in Hd.
  destruct d as [[d|]|e]; [|injection H as <- <-; split; [by etrans|done]..].
  rewrite bind_lift in H. destruct (Verify c d a now) as [snap|e] eqn:Hv; cbn [wrap] in H;
    injection H as <- <-; (split; [by etrans|]); [|done].
  intros x [= <-]. exists a, d. by destruct Hd.
Qed.

(** *** Configuring another provider *)
Lemma directory_ne name : name ∈ [reputationAuthorityFile; reputationSnapshotFile] → is_abs (Directory_ s) = true →
  path_join [Directory_ s; name] ≠ Directory_ s.
Proof.
  intros Hn Ha E.
  assert (∀ x, x ∈ [reputationAuthorityFile; reputationSnapshotFile] → path_parts x ≠ [] ∧
    path_parts (path_join [Directory_ s; x]) = path_parts (Directory_ s) ++ path_parts x) as Hp.
  { intros x [->|Hx%list_elem_of_singleton]%elem_of_cons; [|subst x];
      (split; [by vm_compute|]); apply join_below; done. }
  destruct (Hp name Hn) as [H1 H2]. rewrite E in H2. apply (f_equal length) in H2. rewrite length_app in H2.
  destruct (path_parts name); [done|]. cbn in H2. lia.
Qed.

Lemma ensure_directory_quiet path owner w w' :
  quiet w → ensureDirectory path owner w = (Ok tt, w') →
  quiet w' ∧ directory_result (w_fs w' !! path) owner = Ok tt.
Proof.
  unfold ensureDirectory. intros Hq H. apply bind_M_ok in H as ([] & w1 & H1 & H).
  assert (quiet w1) as Hq1.
  { unfold mkdir_all in H1. destruct (next_fault w) as [b w2] eqn:E. apply next_fault_spec in E as [_ Hx].
    destruct (Hx Hq) as [-> ->]. destruct (w_fs w !! path) as [[]|]; simplify_eq; done. }
  rewrite validate_directory_quiet in H by done. injection H as Hd <-. by split.
Qed.

(** Nothing but the directory of the store changed. *)
Definition store_same (fs fs' : gmap string node) : Prop := ∀ p, p ≠ Directory_ s → fs' !! p = fs !! p.
#[export] Instance store_same_preorder : PreOrder store_same.
Proof. split; [by intros fs p|]. intros f1 f2 f3 H1 H2 p Hp. by rewrite H2, H1. Qed.

Lemma store_same_configures fs fs' a :
  is_abs (Directory_ s) = true → store_same fs fs' → configures fs a → configures fs' a.
Proof.
  intros Ha Hs (d & (m & Hd & Hm) & Hl & Hp). exists d. split_and!; [|done|done]. exists m.
  rewrite Hs; [done|]. apply directory_ne; [left|done].
Qed.

Lemma store_same_sequence fs fs' a n :
  is_abs (Directory_ s) = true → store_same fs fs' → active_sequence fs a n → active_sequence fs' a n.
Proof.
  intros Ha Hs [Hc (d & snap & [(m & Hd & Hm) Hl] & Hauth & Hn)]. split; [by eapply store_same_configures|].
  exists d, snap. split; [|done]. split; [|done]. exists m. rewrite Hs; [done|]. apply directory_ne; [right; left|done].
Qed.

Lemma sync_reads w r w' : sync_directory w = (r, w') → only_read w w'.
Proof.
  unfold sync_directory, map_error. destruct ((call ;;; call) w) as [x w1] eqn:E. intros [= _ <-].
  apply bind_M in E as [([] & w3 & H1 & H2)|(e & H1 & _)].
  - apply call_spec in H1 as [? _], H2 as [? _]. by etrans.
  - by apply call_spec in H1 as [? _].
Qed.

Lemma remove_present_spec path w r w' :
  remove_if_present path w = (r, w') →
  w_uid w' = w_uid w ∧ (w_fs w' = w_fs w ∨ w_fs w' = delete path (w_fs w)) ∧ (r = Ok tt → w_fs w' !! path = None).
Proof.
  unfold remove_if_present, fail, lift. rewrite bind_try. destruct (remove path w) as [x w1] eqn:E.
  apply remove_spec in E as [Hu Hf]. destruct x as [[]|e].
  - intros [= <- <-]. rewrite Hf. split_and!; [done|by right|]. intros _. apply lookup_delete_eq.
  - destruct Hf as [Hf Hm].
    destruct e; intros [= <- <-]; rewrite Hf; (split_and!; [done|by left|]); try done. auto.
Qed.

(** A document that names a provider, with its key repeated. *)
Definition confirms (document key : string) (b : Authority) : Prop :=
  ParseAuthority c document = Ok b ∧ key ≠ "" ∧ key = a_KeyID b.
Definition same_identity (a b : Authority) : Prop := a_ProviderID a = a_ProviderID b ∧ a_KeyID a = a_KeyID b.

(** Configuring keeps what is configured, or goes over to the provider it was given,
    which without faults is another one; done, it leaves no snapshot. *)
Lemma set_authority_spec document key w r w' :
  is_abs (Directory_ s) = true → SetAuthority c s document key w = (r, w') →
  (store_same (w_fs w) (w_fs w') ∧ (∀ b, r = Ok b → configures (w_fs w) b)) ∨
  ∃ b, confirms document key b ∧
    (quiet w → ∀ a, configures (w_fs w) a → ¬ same_identity a b) ∧
    (∀ x, r = Ok x → x = b ∧ w_fs w' !! snapshot_path = None ∧
      ∃ canonical, MarshalAuthority c b = Ok canonical ∧
        w_fs w' !! authority_path = Some (File (w_uid w) 420 canonical)).
Proof.
  intros Habs. unfold SetAuthority. rewrite bind_lift.
  destruct (ParseAuthority c document) as [b|err] eqn:Ep; cbn [wrap]; [|by intros [= <- <-]; left].
  rewrite bind_lift. destruct (refuse_if _ _) as [[]|err] eqn:Ek; [|by intros [= <- <-]; left].
  apply refuse_if_ok in Ek. bools_in Ek. destruct Ek as [Hk1 Hk2].
  rewrite bind_map_error. destruct (ensureDirectory _ _ w) as [made w1] eqn:E1.
  pose proof (ensure_directory_grows _ _ _ _ _ E1) as (Hu1 & _ & Hsame & _).
  destruct made as [[]|err]; [|by intros [= <- <-]; left].
  rewrite bind_try. destruct (StoredAuthority c s w1) as [current w2] eqn:E2.
  pose proof E2 as ([Hf2 Hu2] & Hcur & Hq2)%stored_authority_spec. cbv zeta.
  assert (confirms document key b) as Hconf by by split_and!.
  intros H.
  assert ((∃ a, current = Ok (Some a) ∧ same_identity a b ∧ r = Ok a ∧ w' = w2) ∨
    ((∀ a, current = Ok (Some a) → ¬ same_identity a b) ∧ 
     (authorityPath ← lift (store_path s reputationAuthorityFile);
      canonical ← lift (wrap BadAuthority (MarshalAuthority c b));
      map_error StoreWrite (writeAtomic authorityPath canonical 420) ;;;
      sync_directory ;;;
      snapshotPath ← lift (store_path s reputationSnapshotFile);
      remove_if_present snapshotPath ;;;
      sync_directory ;;;
      mret b) w2 = (r, w'))) as [(a & -> & Hid & -> & ->)|[Hno Hrep]].
  { unfold same_identity. destruct current as [[a|]|e]; [|right; split; [|exact H]; naive_solver..].
    case_bool_decide as B1; [case_bool_decide as B2|]; cbn [andb] in H.
    - left. exists a. by injection H as <- <-.
    - right. split; [|exact H]. intros ? [= <-]. tauto.
    - right. split; [|exact H]. intros ? [= <-]. tauto. }
  - left. rewrite Hf2. split; [done|]. intros b0 [= <-]. destruct Hcur as [_ Hcur].
    eapply store_same_configures; [done| |exact Hcur]. intros p Hp. by rewrite Hsame.
  - right. exists b. split; [done|]. split.
    { intros Hq a Ha. destruct (ensure_directory_quiet _ _ _ _ Hq E1) as [Hq1 Hdir].
      apply Hno. apply (Hq2 Hq1); [done|done|]. eapply store_same_configures; [done|exact Hsame|done]. }
    clear H. intros x ->. unfold store_path in Hrep. rewrite Habs in Hrep. cbn [check_that mbind result_bind] in Hrep.
    rewrite bind_lift in Hrep. rewrite bind_lift in Hrep. destruct (MarshalAuthority c b) as [canonical|] eqn:Em; cbn [wrap] in Hrep; [|done].
    rewrite bind_map_error in Hrep. destruct (writeAtomic _ _ _ w2) as [y w3] eqn:E3.
    apply write_atomic_writes in E3 as (_ & Hw3 & _). destruct y as [[]|]; [|done].
    step_ok Hrep. apply sync_reads in Hstep as [Hf4 _]. rewrite bind_lift in Hrep.
    step_ok Hrep. apply remove_present_spec in Hstep as (_ & Hf5 & Hgone). destruct x2. specialize (Hgone eq_refl).
    step_ok Hrep. apply sync_reads in Hstep as [Hf6 _]. injection Hrep as <- <-.
    split; [done|]. rewrite Hf6. split; [done|]. exists canonical. split; [done|].
    pose proof (paths_differ Habs) as Hne. fold authority_path in Hw3. fold snapshot_path in Hf5.
    assert (w_fs x1 !! authority_path = Some (File (w_uid w) 420 canonical)) as Hauth.
    { rewrite Hf4, Hw3, lookup_insert_eq. do 2 f_equal. congruence. }
    destruct Hf5 as [-> | ->]; [done|]. by rewrite lookup_delete_ne.
Qed.
Lemma clear_spec w w' :
  is_abs (Directory_ s) = true → Clear s w = (Ok tt, w') →
  w_fs w' !! snapshot_path = None ∨ w_fs w' = w_fs w.
Proof.
  intros Habs. unfold Clear, store_path. rewrite Habs. cbn [check_that mbind result_bind]. rewrite bind_lift, bind_try.
  destruct (validateExistingDirectory _ _ w) as [checked w1] eqn:E.
  apply validate_directory_spec in E as ([Hf _] & _).
  destruct checked as [[]|[]]; try done; [|by intros [= <-]; right]. intros H. left.
  step_ok H. apply remove_present_spec in Hstep as (_ & _ & H1). destruct x. specialize (H1 eq_refl).
  step_ok H. apply remove_present_spec in Hstep as (_ & H2 & _). apply sync_reads in H as [-> _].
  fold snapshot_path in H1. fold authority_path in H2. destruct H2 as [-> | ->]; [done|].
  apply lookup_delete_None. by right.
Qed.

(** ** Uses of the store *)
Inductive store_call : Type :=
  | CallImport (document : string) (now : Z)
  | CallCurrent (now : Z)
  | CallSetAuthority (document expectedKeyID : string)
  | CallClear.

(** One use, interrupted anywhere or not at all: whether it answered without an
    error, and the files after it. *)
Definition store_exec (use : store_call * list bool) (fs : gmap string node) : bool * gmap string node :=
  let w := mkWorld fs (OwnerUID s) use.2 in
  match use.1 with
  | CallImport document now => let '(r, w) := Import c s document now w in (is_ok r, w_fs w)
  | CallCurrent now => let '(r, w) := Current c s now w in (is_ok r, w_fs w)
  | CallSetAuthority document key => let '(r, w) := SetAuthority c s document key w in (is_ok r, w_fs w)
  | CallClear => let '(r, w) := Clear s w in (is_ok r, w_fs w)
  end.
Definition store_run (uses : list (store_call * list bool)) (fs : gmap string node) : gmap string node :=
  foldl (λ fs use, (store_exec use fs).2) fs uses.

(** The uses that may let a lower sequence in: clearing the configuration, and
    configuring a provider with its key repeated - another one, or the same one when a
    call of it fails. *)
Definition resets (a : Authority) (use : store_call * list bool) : Prop :=
  match use.1 with
  | CallImport _ _ | CallCurrent _ => False
  | CallSetAuthority document key => ∃ b, confirms document key b ∧ (same_identity a b → use.2 ≠ [])
  | CallClear => True
  end.

(** The snapshot of a provider is at [n] or above; at [n], nothing changed. *)
Definition at_least (fs fs' : gmap string node) (a : Authority) (n : N) : Prop :=
  ∃ m, (n ≤ m)%N ∧ active_sequence fs' a m ∧ (m = n → store_same fs fs').

Lemma store_use use fs a n :
  is_abs (Directory_ s) = true → active_sequence fs a n →
  at_least fs (store_exec use fs).2 a n ∨
  resets a use ∧ ((store_exec use fs).1 = true →
    (store_exec use fs).2 !! snapshot_path = None ∨ store_same fs (store_exec use fs).2).
Proof.
  intros Habs Hn. assert (∀ fs', store_same fs fs' → at_least fs fs' a n) as Hsame.
  { intros fs' Hs. exists n. split; [done|]. split; [by eapply store_same_sequence|done]. }
  unfold store_exec, resets. destruct use as [[document now|now|document key|] faults]; cbn [fst snd].
  - destruct (Import c s document now _) as [r w] eqn:H. left.
    apply import_spec in H as (_ & [[cand [Hi _]]|[Hf _]] & _); cbn in *.
    + destruct (imported_sequence _ _ _ _ _ a n Habs Hi) as (_ & Hs & Hlt).
      exists (s_Sequence cand). specialize (Hlt Hn). split; [lia|]. split; [by apply Hs, Hn|lia].
    + apply Hsame. by rewrite Hf.
  - destruct (Current c s now _) as [r w] eqn:H. apply current_spec in H as ([Hf _] & _). cbn in *. left.
    apply Hsame. by rewrite Hf.
  - destruct (SetAuthority c s document key _) as [r w] eqn:H.
    apply set_authority_spec in H as [[Hs _]|(b & Hb & Hq & Hok)]; [left; by apply Hsame| |done]. right. split.
    + exists b. split; [done|]. intros Hid ->. apply (Hq eq_refl a); [apply Hn|done].
    + cbn. intros Hr. destruct r as [x|]; [|done]. left. by destruct (Hok x eq_refl) as (_ & ? & _).
  - destruct (Clear s _) as [r w] eqn:H. right. split; [done|]. cbn. intros Hr. destruct r as [[]|]; [|done].
    apply clear_spec in H as [?|Hf]; [by left| |done]. right. cbn in Hf. by rewrite Hf.
Qed.

Lemma store_uses uses fs a n :
  is_abs (Directory_ s) = true → active_sequence fs a n →
  at_least fs (store_run uses fs) a n ∨
  ∃ before use after, uses = before ++ use :: after ∧ at_least fs (store_run before fs) a n ∧ resets a use ∧
    let '(answered, fs') := store_exec use (store_run before fs) in
    answered = true → fs' !! snapshot_path = None ∨ store_same (store_run before fs) fs'.
Proof.
  intros Habs. revert fs n. induction uses as [|use uses IH]; intros fs n Hn.
  { left. by exists n. }
  destruct (store_use use fs a n Habs Hn) as [(k & Hk & Hak & Hsame)|[Hr Ha]].
  2: { right. exists [], use, uses. split; [done|]. split; [by exists n|]. split; [done|]. cbn.
       by destruct (store_exec use fs). }
  assert (∀ fs', at_least (store_exec use fs).2 fs' a k → at_least fs fs' a n) as Hup.
  { intros fs' (m & Hm & Ham & Hs). exists m. split; [lia|]. split; [done|]. intros ->.
    assert (k = n) as -> by lia. etrans; [by apply Hsame|by apply Hs]. }
  destruct (IH (store_exec use fs).2 k Hak) as [H|(before & u & after & -> & H & Hrest)]; [left; by apply Hup|].
  right. exists (use :: before), u, after. split; [done|]. split; [by apply Hup|done].
Qed.
End Properties.

(** ** Properties *)

(** C10: the store never rolls back by itself.  Through any sequence of imports, reads,
    configurations and clearings, each interrupted at any system call, the active
    snapshot of the configured provider stays authentic and its sequence number never
    decreases, and if it is unchanged nothing else is changed either - until the
    configuration is cleared, or a provider is configured whose key the caller
    repeated: another one, or the same one in a call that was interrupted.  Up to that
    very use the sequence did not decrease, and if that use answers yes it leaves no
    snapshot to compare with, or left everything as it was. *)
Theorem sequence_never_rolls_back c s uses fs a n :
  is_abs (Directory_ s) = true → active_sequence c s fs a n →
  at_least c s fs (store_run c s uses fs) a n ∨
  ∃ before use after, uses = before ++ use :: after ∧
    at_least c s fs (store_run c s before fs) a n ∧ resets c a use ∧
    let '(answered, fs') := store_exec c s use (store_run c s before fs) in
    answered = true → fs' !! snapshot_path s = None ∨ store_same s (store_run c s before fs) fs'.
Proof. apply store_uses. Qed.

Lemma store_lookup_spec c s publisherID now w :
  ∃ answer error w', StoreLookup c s publisherID now w = (Ok (answer, error), w') ∧
    only_read w w' ∧ r_PublisherID answer = publisherID ∧
    (r_Status answer = Unavailable ∨
     ∃ a document snapshot, configures c s (w_fs w) a ∧ active_document s (w_fs w) document ∧
       Verify c document a now = Ok snapshot ∧ answer = Lookup snapshot publisherID).
Proof.
  unfold StoreLookup. rewrite bind_try.
  destruct (StoredAuthority c s w) as [configured w1] eqn:E.
  apply stored_authority_spec in E as (Hr & _ & _).
  destruct configured as [[a|]|e]; [|by eauto 10..]. rewrite bind_try.
  destruct (Current c s now w1) as [snap w2] eqn:E. apply current_spec in E as (Hr2 & Hs).
  assert (only_read w w2) by by etrans. rewrite (proj1 Hr) in Hs.
  destruct snap as [[snap|]|e]; [|by eauto 10..].
  destruct (Hs snap eq_refl) as (b & d & Hb & Hd & Hv).
  eexists _, _, _. split; [reflexivity|]. split_and!; [done| |right; eauto 10].
  unfold Lookup. cbv zeta. by repeat case_match.
Qed.

(** A lookup always answers and changes no file.  The answer is either
    unavailable, or what a snapshot says that the configured provider signed and
    that is fresh at the time of asking. *)
Theorem store_lookup_total c s publisherID now w :
  ∃ answer error w', StoreLookup c s publisherID now w = (Ok (answer, error), w') ∧
    only_read w w' ∧ r_PublisherID answer = publisherID ∧
    (r_Status answer = Unavailable ∨
     ∃ a document snapshot, configures c s (w_fs w) a ∧ active_document s (w_fs w) document ∧
       Verify c document a now = Ok snapshot ∧ answer = Lookup snapshot publisherID).
Proof. apply store_lookup_spec. Qed.

Definition rep_store_example : ReputationStore := mkRepStore "/var/lib/cpak/reputation" 0.

(** Two providers: documents that start with their names. *)
Definition two_providers : codec := {|
  json_value := json_value codec_example;
  decode_envelope := decode_envelope codec_example;
  decode_signed := decode_signed codec_example;
  canonicalize := canonicalize codec_example;
  decode_authority := λ d,
    Some (mkAuthorityDocument 1 (if has_prefix "acme" d then "acme" else "other")
      ("ed25519-sha256:" +:+ hex_encode key_example) key_example);
  encode_authority := ad_ProviderID;
  sha256 := sha256 codec_example;
  ed25519_verify := ed25519_verify codec_example
|}.

Definition rep_world_example (faults : list bool) : world :=
  mkWorld (<[ "/var/lib/cpak/reputation" := Directory 0 493 ]>
    (<[ "/var/lib/cpak/reputation/provider.json" := File 0 420 "acme" ]>
    {[ "/var/lib/cpak/reputation/snapshot.json" := File 0 420 "x" ]})) 0 faults.

Lemma example_active : active_sequence two_providers rep_store_example
  (w_fs (rep_world_example [])) authority_example 7.
Proof.
  split.
  - exists "acme". split_and!; [|vm_compute; done|vm_compute; reflexivity].
    exists 420%N. split; vm_compute; reflexivity.
  - eexists "x", _. split; [|split; [vm_compute; reflexivity|reflexivity]].
    split; [|vm_compute; done]. exists 420%N. split; vm_compute; reflexivity.
Qed.

(** A read that fails, the same provider again, and another one. *)
Definition same_provider : store_call := CallSetAuthority "acme" ("ed25519-sha256:" +:+ hex_encode key_example).
Definition other_provider : store_call := CallSetAuthority "other" ("ed25519-sha256:" +:+ hex_encode key_example).

Lemma sequence_never_rolls_back_witness :
  let fs := w_fs (rep_world_example []) in
  let keeping := [(CallCurrent 0, [true]); (same_provider, [])] in
  at_least two_providers rep_store_example fs (store_run two_providers rep_store_example keeping fs) authority_example 7 ∧
  store_run two_providers rep_store_example (keeping ++ [(other_provider, [])]) fs !! snapshot_path rep_store_example = None.
Proof.
  intros fs keeping. split; [|vm_compute; reflexivity].
  destruct (sequence_never_rolls_back two_providers rep_store_example keeping fs authority_example 7 eq_refl example_active)
    as [H|(before & use & after & E & _ & Hr & _)]; [exact H|exfalso].
  assert (use ∈ keeping) as Hin by (rewrite E; apply elem_of_app; right; left).
  apply elem_of_cons in Hin as [->|Hin%list_elem_of_singleton]; [exact Hr|subst use].
  destruct Hr as (b & (Hb & _ & _) & Hne). apply Hne; [|reflexivity].
  vm_compute in Hb. injection Hb as <-. split; vm_compute; reflexivity.
Defined.

(** A change of provider that is interrupted between the two files leaves the
    snapshot of the old provider beside the authority of the new one.  Repeating
    the change then reports success without removing it, and every import fails
    until the configuration is cleared. *)
Theorem interrupted_change_wedges :
  ∃ c s key w, let w1 := (SetAuthority c s "other" key w).2 in
    is_ok (SetAuthority c s "other" key w).1 = false ∧
    is_ok (SetAuthority c s "other" key (calm w1)).1 = true ∧
    (SetAuthority c s "other" key (calm w1)).2 = calm w1 ∧
    ∀ document now faults r w', Import c s document now (mkWorld (w_fs w1) 0 faults) = (r, w') →
      is_ok r = false ∧ w_fs w' = w_fs w1.
Proof.
  exists two_providers, rep_store_example, ("ed25519-sha256:" +:+ hex_encode key_example),
    (rep_world_example (replicate 13 false ++ [true])). cbv zeta.
  split; [vm_compute; reflexivity|]. split; [vm_compute; reflexivity|].
  split; [vm_compute; reflexivity|]. intros document now faults r w' H.
  eapply (import_blocked _ _ _ _ _ _ _
    (mkAuthority "other" ("ed25519-sha256:" +:+ hex_encode key_example) key_example) "x") in H
    as [? ?]; [done|..].
  - exists ("other" +:+ String "010" ""). split_and!; [|vm_compute; done|vm_compute; reflexivity].
    exists 420%N. split; vm_compute; reflexivity.
  - split; [|vm_compute; done]. exists 420%N. split; vm_compute; reflexivity.
  - vm_compute. reflexivity.
Qed.
