(* ===== verification/TrustPolicy.v ===== *)
(** * The administrator's trust policy ([pkg/trustpolicy])

    The policy, its validation and the decisions of [decide.go] and [origin.go]:
    which origins may be installed, who may publish and approve, and what was
    revoked.  The reputation stage is in [ReputationPolicy.v].  [url.Parse] is a
    parameter; the sentences a decision prints are an inductive type that keeps
    their arguments. *)
From Stdlib Require Import Ascii.
From stdpp Require Import base strings list gmap sorting.
From S2P Require Import Prelude.
From S2P Require Import GoStrings.
From S2P Require Import Regex.
From S2P Require Import Utf8.
From S2P Require Import GoTime.
From S2P Require Import Reputation.
From stdpp Require Import options.

(** ** Origins *)
Definition host_inner : regex := RSet [("a", "z"); ("0", "9"); ("-", "-")]%char.
Definition host_edge : regex := RSet [("a", "z"); ("0", "9")]%char.
Definition host_label : regex := RSeq host_edge (ROpt (RSeq (RStar host_inner) host_edge)).
Definition hostPattern : regex := RSeq host_label (RPlus (RSeq (RChar ".") host_label)).
Definition segmentPattern : regex :=
  RSeq host_edge (RStar (RSet [("a", "z"); ("0", "9"); (".", "."); ("_", "_"); ("-", "-")]%char)).

Definition fold_rune (r : N) : N :=
  if ((65 <=? r) && (r <=? 90))%N then (r + 32)%N else r.
Definition foldASCII (value : string) : string := strings_map (λ r, Some (fold_rune r)) value.

Definition canonicalOrigin (value : string) : option string :=
  let value := foldASCII value in
  match split_byte slash value with
  | [host; owner; repository] =>
      if matches hostPattern host && matches segmentPattern owner &&
         matches segmentPattern repository
      then Some value else None
  | _ => None
  end.

Definition sameOrigin (first second : string) : bool :=
  match canonicalOrigin first, canonicalOrigin second with
  | Some a, Some b => bool_decide (a = b)
  | _, _ => false
  end.

(** ** Data *)
Record Signer : Type := mkSigner { si_Issuer : string; si_Repo : string }.
Record Revocation : Type := mkRevocation {
  rv_Origin : string;
  rv_Generation : N;
  rv_Reason : string
}.
Record ReputationException : Type := mkException {
  ex_PublisherID : string;
  ex_Origins : list string;
  ex_Statuses : list Status;
  ex_ExpiresAt : string;
  ex_ReasonCode : string
}.
(** [ReputationMode] is a string; a document can carry any. *)
Inductive ReputationMode : Type :=
  | ReputationOff | ReputationAudit | ReputationWarn | ReputationRequireEstablished
  | OtherMode (text : string).
#[export] Instance mode_eq_dec : EqDecision ReputationMode.
Proof. solve_decision. Defined.

Record ReputationPolicy : Type := mkReputation {
  rp_Mode : ReputationMode;
  rp_ProviderID : string;
  rp_Exceptions : list ReputationException
}.
Record X509Policy : Type := mkX509 { x_Revocation : string }.

Record Policy : Type := mkTrust {
  ABI : Z;
  RequirePublisher : bool;
  RequireApproval : bool;
  ApprovedSigners : list Signer;
  ApprovedOrigins : list string;
  ApprovalSigners : list Signer;
  Revoked : list Revocation;
  ApprovedPublisherIDs : list string;
  X509 : option X509Policy;
  Reputation : option ReputationPolicy
}.

Definition ABIVersion : Z := 1.
Definition CurrentABIVersion : Z := 2.
Definition reasonLimit : nat := 200.

Definition empty {A} (l : list A) : bool := match l with [] => true | _ => false end.
Definition is_nil {A} (o : option A) : bool := match o with None => true | _ => false end.

Definition Empty (p : Policy) : bool :=
  negb (RequirePublisher p) && negb (RequireApproval p) && empty (ApprovedSigners p) &&
  empty (ApprovedOrigins p) && empty (ApprovalSigners p) && empty (Revoked p) &&
  empty (ApprovedPublisherIDs p) && is_nil (X509 p) && is_nil (Reputation p).

(** ** Decisions *)

(** The sentences of the decisions, with what they are formatted from. *)
Inductive reason : Type :=
  | UnreadableABI (abi : Z) | MissingSection | NoPolicy | NotAnOrigin (value : string)
  | RevokedEvery (origin why : string) | RevokedGeneration (generation : N) (origin why : string)
  | NotRevokedEvery (origin : string) | NotRevoked (generation : N) (origin : string)
  | OriginsOpen | OriginApproved (origin : string) | OriginNotApproved (origin : string) (n : nat)
  | Unsigned (origin : string) | NobodyCanPublish (origin : string) | PublishersOpen
  | PublisherApproved (issuer repo : string) | PublisherIsOrigin (issuer repo origin : string)
  | PublisherOfOther (issuer repo origin : string)
  | PublisherNotApproved (issuer repo : string) (n : nat)
  | PublisherIDApproved (publisher : string) | NoPublisherID (origin : string)
  | PublisherIDNotApproved (publisher : string) (n : nat)
  | NotCountersigned | NobodyCanApprove | NoApprovalExpected
  | MayApprove (issuer repo : string) | MayNotApprove (issuer repo : string) (n : nat).

Record Decision : Type := mkDecision { Allowed : bool; Reason : reason }.
Definition allow (r : reason) : Decision := mkDecision true r.
Definition refuse (r : reason) : Decision := mkDecision false r.

(** [settled]: [Some] decision when the answer does not depend on the question. *)
Definition settled (p : Policy) : option Decision :=
  if negb (ABI p =? 0)%Z && negb (ABI p =? ABIVersion)%Z && negb (ABI p =? CurrentABIVersion)%Z
  then Some (refuse (UnreadableABI (ABI p)))
  else if (ABI p =? CurrentABIVersion)%Z && (is_nil (X509 p) || is_nil (Reputation p))
  then Some (refuse MissingSection)
  else if Empty p then Some (allow NoPolicy)
  else None.

(** [matches] of a signer entry. *)
Definition signer_matches (s : Signer) (issuer repo : string) : bool :=
  if negb (bool_decide (si_Issuer s = "")) && negb (bool_decide (si_Issuer s = issuer)) then false
  else if bool_decide (si_Repo s = "") then true
  else sameOrigin (si_Repo s) repo.

Definition AllowsOrigin (p : Policy) (origin : string) : Decision :=
  match settled p with
  | Some decision => decision
  | None =>
      match canonicalOrigin origin with
      | None => refuse (NotAnOrigin origin)
      | Some wanted =>
          match List.find (λ r, (rv_Generation r =? 0)%N && sameOrigin (rv_Origin r) wanted)
                  (Revoked p) with
          | Some r => refuse (RevokedEvery wanted (rv_Reason r))
          | None =>
              if empty (ApprovedOrigins p) then allow OriginsOpen
              else if existsb (λ approved, sameOrigin approved wanted) (ApprovedOrigins p)
              then allow (OriginApproved wanted)
              else refuse (OriginNotApproved wanted (length (ApprovedOrigins p)))
          end
      end
  end.

(** The loop of [AllowsPublisher] over the approved signers. *)
Fixpoint publisher_loop (issuer repo wanted : string) (n : nat) (openEntry : bool)
    (l : list Signer) : Decision :=
  match l with
  | [] =>
      if openEntry then refuse (PublisherOfOther issuer repo wanted)
      else refuse (PublisherNotApproved issuer repo n)
  | signer :: l =>
      if negb (signer_matches signer issuer repo) then publisher_loop issuer repo wanted n openEntry l
      else if negb (bool_decide (si_Repo signer = "")) then allow (PublisherApproved issuer repo)
      else if sameOrigin repo wanted then allow (PublisherIsOrigin issuer repo wanted)
      else publisher_loop issuer repo wanted n true l
  end.

Definition AllowsPublisher (p : Policy) (issuer repo origin : string) : Decision :=
  match settled p with
  | Some decision => decision
  | None =>
      match canonicalOrigin origin with
      | None => refuse (NotAnOrigin origin)
      | Some wanted =>
          if bool_decide (issuer = "") && bool_decide (repo = "") then refuse (Unsigned wanted)
          else if empty (ApprovedSigners p) then
            if RequirePublisher p then refuse (NobodyCanPublish wanted) else allow PublishersOpen
          else publisher_loop issuer repo wanted (length (ApprovedSigners p)) false
                 (ApprovedSigners p)
      end
  end.

Definition AllowsNormalizedPublisher (p : Policy) (publisherID issuer repo origin : string) :
    Decision :=
  match settled p with
  | Some decision => decision
  | None =>
      if negb (bool_decide (publisherID = "")) &&
         existsb (λ approved, bool_decide (approved = publisherID)) (ApprovedPublisherIDs p)
      then allow (PublisherIDApproved publisherID)
      else if negb (empty (ApprovedSigners p)) then AllowsPublisher p issuer repo origin
      else if empty (ApprovedPublisherIDs p) && negb (RequirePublisher p) then allow PublishersOpen
      else if bool_decide (publisherID = "") then refuse (NoPublisherID origin)
      else refuse (PublisherIDNotApproved publisherID (length (ApprovedPublisherIDs p)))
  end.

Definition AllowsApproval (p : Policy) (issuer repo : string) : Decision :=
  match settled p with
  | Some decision => decision
  | None =>
      if bool_decide (issuer = "") && bool_decide (repo = "") then refuse NotCountersigned
      else if empty (ApprovalSigners p) then
        if RequireApproval p then refuse NobodyCanApprove else allow NoApprovalExpected
      else if existsb (λ signer, signer_matches signer issuer repo) (ApprovalSigners p)
      then allow (MayApprove issuer repo)
      else refuse (MayNotApprove issuer repo (length (ApprovalSigners p)))
  end.

(** The loop of [IsRevoked] over the revocations. *)
Fixpoint revoked_loop (wanted : string) (generation : N) (l : list Revocation) : option Decision :=
  match l with
  | [] => None
  | r :: l =>
      if negb (sameOrigin (rv_Origin r) wanted) then revoked_loop wanted generation l
      else if (rv_Generation r =? 0)%N then Some (refuse (RevokedEvery wanted (rv_Reason r)))
      else if negb (generation =? 0)%N && (rv_Generation r =? generation)%N
      then Some (refuse (RevokedGeneration generation wanted (rv_Reason r)))
      else revoked_loop wanted generation l
  end.

Definition IsRevoked (p : Policy) (origin : string) (generation : N) : Decision :=
  match settled p with
  | Some decision => decision
  | None =>
      match canonicalOrigin origin with
      | None => refuse (NotAnOrigin origin)
      | Some wanted =>
          match revoked_loop wanted generation (Revoked p) with
          | Some decision => decision
          | None =>
              if (generation =? 0)%N then allow (NotRevokedEvery wanted)
              else allow (NotRevoked generation wanted)
          end
      end
  end.

(** ** Validation *)
Definition policyNamePattern : regex :=
  RSeq (RSet lower_alnum) (RUpTo 63 (RSet name_rest)).

Inductive policy_error : Type :=
  | BadABI (abi : Z) | ABI1Fields | ABI2Sections
  | PublisherUnsatisfiable | ApprovalUnsatisfiable
  | NamesNobody (field : string) | BadIssuer (field issuer : string) | NamesNoRepo (field : string)
  | BadOrigin (field origin : string) | NotCanonical (field origin canonical : string)
  | ReasonTooLong (n : nat) | ReasonControl (why : string)
  | BadX509 | OffNames | BadProvider (mode : ReputationMode) | BadMode (mode : ReputationMode)
  | BadPublisherID | DuplicatePublisherID | BadException (index : nat) (e : policy_error)
  | DuplicateException
  | ExceptionPublisher | ScopeEmpty | DuplicateOrigin | BadStatus (s : Status) | DuplicateStatus
  | BadExpiry | BadReasonCode.

(** What [url.Parse] reports of an issuer. *)
Record url : Type := mkURL {
  Scheme : string;
  Host : string;
  has_user : bool;
  RawQuery : string;
  Fragment : string
}.

Definition status_text (s : Status) : string :=
  match s with
  | Unknown => "unknown" | Established => "established" | Caution => "caution"
  | Blocked => "blocked" | Unavailable => "unavailable" | OtherStatus text => text
  end.

(** [fmt.Sprint] of a slice of strings. *)
Definition sprint (l : list string) : string := "[" +:+ join " " l +:+ "]".

Definition exception_key (e : ReputationException) : string :=
  ex_PublisherID e +:+ nul +:+ sprint (sort_strings (ex_Origins e)) +:+ nul +:+
  sprint (sort_strings (status_text <$> ex_Statuses e)) +:+ nul +:+ ex_ExpiresAt e.

Definition validateOrigin (field origin : string) : result policy_error unit :=
  match canonicalOrigin origin with
  | None => Err (BadOrigin field origin)
  | Some canonical =>
      check_that (bool_decide (canonical = origin)) (NotCanonical field origin canonical)
  end.

Definition validateReason (why : string) : result policy_error unit :=
  refuse_if (reasonLimit <? slen why) (ReasonTooLong (slen why)) ;;;
  refuse_if (contains_rune is_control why) (ReasonControl why).

Definition validateReputationException (e : ReputationException) : result policy_error unit :=
  check_that (ValidPublisherID (ex_PublisherID e)) ExceptionPublisher ;;;
  refuse_if (empty (ex_Origins e) || empty (ex_Statuses e)) ScopeEmpty ;;;
  for_seen (λ o, o) (validateOrigin "reputation exception") (λ _, Ok tt) (λ _, DuplicateOrigin) ∅
    (ex_Origins e) ;;;
  for_seen status_text
    (λ s, refuse_if (negb (bool_decide (s = Unknown)) && negb (bool_decide (s = Caution)))
      (BadStatus s)) (λ _, Ok tt) (λ _, DuplicateStatus) ∅ (ex_Statuses e) ;;;
  refuse_if (negb (bool_decide (ex_ExpiresAt e = "")) && is_nil (parse_canonical (ex_ExpiresAt e)))
    BadExpiry ;;;
  check_that (matches policyNamePattern (ex_ReasonCode e)) BadReasonCode.

(** The exceptions in order, each with its index and the keys seen so far. *)
Fixpoint validate_exceptions (index : nat) (seen : gset string) (l : list ReputationException) :
    result policy_error unit :=
  match l with
  | [] => Ok tt
  | e :: l =>
      wrap (BadException index) (validateReputationException e) ;;;
      refuse_if (bool_decide (exception_key e ∈ seen)) DuplicateException ;;;
      validate_exceptions (S index) ({[exception_key e]} ∪ seen) l
  end.

Definition validateV2 (p : Policy) (x : X509Policy) (r : ReputationPolicy) :
    result policy_error unit :=
  refuse_if (negb (bool_decide (x_Revocation x = "allow-unknown")) &&
    negb (bool_decide (x_Revocation x = "require-good"))) BadX509 ;;;
  match rp_Mode r with
  | ReputationOff =>
      refuse_if (negb (bool_decide (rp_ProviderID r = "")) || negb (empty (rp_Exceptions r))) OffNames
  | ReputationAudit | ReputationWarn | ReputationRequireEstablished =>
      check_that (matches policyNamePattern (rp_ProviderID r)) (BadProvider (rp_Mode r))
  | OtherMode _ => Err (BadMode (rp_Mode r))
  end ;;;
  for_seen (λ i, i) (λ i, check_that (ValidPublisherID i) BadPublisherID) (λ _, Ok tt)
    (λ _, DuplicatePublisherID) ∅ (ApprovedPublisherIDs p) ;;;
  validate_exceptions 0 ∅ (rp_Exceptions r).

Section Validation.
Context (url_parse : string → option url).

Definition validIssuer (value : string) : bool :=
  if bool_decide (value = "") || negb (bool_decide (value = trim_space value)) then false
  else match url_parse value with
  | None => false
  | Some parsed =>
      if negb (bool_decide (Scheme parsed = "https")) || bool_decide (Host parsed = "") ||
         has_user parsed then false
      else bool_decide (RawQuery parsed = "") && bool_decide (Fragment parsed = "")
  end.

Definition validate_signer (field : string) (repoRequired : bool) (s : Signer) :
    result policy_error unit :=
  refuse_if (bool_decide (si_Issuer s = "") && bool_decide (si_Repo s = "")) (NamesNobody field) ;;;
  refuse_if (negb (bool_decide (si_Issuer s = "")) && negb (validIssuer (si_Issuer s)))
    (BadIssuer field (si_Issuer s)) ;;;
  if bool_decide (si_Repo s = "") then refuse_if repoRequired (NamesNoRepo field)
  else validateOrigin field (si_Repo s).

Definition validateSigners (field : string) (signers : list Signer) (repoRequired : bool) :
    result policy_error unit :=
  for_each (validate_signer field repoRequired) signers.

Definition Validate (p : Policy) : result policy_error unit :=
  if (ABI p =? 0)%Z && Empty p then Ok tt
  else
    refuse_if (negb (ABI p =? ABIVersion)%Z && negb (ABI p =? CurrentABIVersion)%Z)
      (BadABI (ABI p)) ;;;
    refuse_if ((ABI p =? ABIVersion)%Z && (negb (empty (ApprovedPublisherIDs p)) ||
      negb (is_nil (X509 p)) || negb (is_nil (Reputation p)))) ABI1Fields ;;;
    (if (ABI p =? CurrentABIVersion)%Z then
       match X509 p, Reputation p with
       | Some x, Some r => validateV2 p x r
       | _, _ => Err ABI2Sections
       end
     else Ok tt) ;;;
    refuse_if (RequirePublisher p && empty (ApprovedSigners p) && empty (ApprovedPublisherIDs p))
      PublisherUnsatisfiable ;;;
    refuse_if (RequireApproval p && empty (ApprovalSigners p)) ApprovalUnsatisfiable ;;;
    validateSigners "approved_signers" (ApprovedSigners p) false ;;;
    validateSigners "approval_signers" (ApprovalSigners p) true ;;;
    for_each (validateOrigin "approved_origins") (ApprovedOrigins p) ;;;
    for_each (λ r, validateOrigin "revoked" (rv_Origin r) ;;; validateReason (rv_Reason r))
      (Revoked p).
End Validation.

(** ** Folding *)
Lemma fold_ascii s : str_forall ascii_byte s = true → foldASCII s = lower s.
Proof.
  intros Hs. unfold foldASCII, strings_map. rewrite runes_ascii by done.
  induction s as [|c s IH]; [done|]. cbn [String.list_ascii_of_string fmap list_fmap foldr
    from_option str_forall lower fst] in *.
  bools_in Hs. destruct Hs as [Hc Hs]. rewrite IH by done.
  assert (encode_rune (fold_rune (byte c)) = String (lower_byte c) "") as ->; [|done].
  clear -Hc. revert c Hc. by_bytes.
Qed.

(** Only an ASCII string folds to an ASCII string. *)
Lemma fold_ascii_inv s :
  str_forall ascii_byte (foldASCII s) = true → str_forall ascii_byte s = true.
Proof.
  unfold foldASCII, strings_map.
  apply (runes_ind (λ s l, str_forall ascii_byte
    (foldr (λ x acc, from_option encode_rune "" (Some (fold_rune x.1)) +:+ acc) "" l) = true →
    str_forall ascii_byte s = true)); [done|].
  intros [|a t] r w Hne Hd _ IH; [done|]. cbn [foldr from_option fst].
  rewrite str_forall_app, andb_true_iff. intros [Hr Hrest]. specialize (IH Hrest).
  destruct (ascii_byte a) eqn:Ha.
  - rewrite decode_low in Hd by done. injection Hd as <- <-. simpl in *. by rewrite Ha.
  - exfalso. pose proof (decode_scalar _ _ _ Hd) as Hsc. apply decode_high in Hd as [Hh _]; [|done].
    assert (fold_rune r = r) as E.
    { unfold fold_rune. destruct ((65 <=? r) && (r <=? 90))%N eqn:Er; [|done].
      bools_in Er. lia. }
    rewrite E in Hr. destruct (encode_high r Hsc Hh) as (c & s' & Ec & Hc).
    rewrite Ec in Hr. simpl in Hr. by rewrite Hc in Hr.
Qed.

Definition origin_byte (c : ascii) : bool :=
  ascii_byte c && bool_decide (lower_byte c = c).

Lemma canonical_origin_bytes value c :
  canonicalOrigin value = Some c → c = foldASCII value ∧ str_forall origin_byte c = true.
Proof.
  unfold canonicalOrigin.
  pose proof (join_split slash (foldASCII value)) as Hj.
  destruct (split_byte slash (foldASCII value)) as [|h [|o [|r [|]]]] eqn:E; try done.
  case_if; [|done]. bools_all. destruct Heqb as [[Hh Ho] Hr]. intros [= <-]. split; [done|].
  apply (matches_uses _ origin_byte) in Hh, Ho, Hr; [|by_bytes..].
  rewrite <-Hj. change (join (String slash "") [h; o; r]) with (h +:+ "/" +:+ o +:+ "/" +:+ r).
  rewrite !str_forall_app, Hh, Ho, Hr. done.
Qed.

Lemma origin_bytes_lower c : str_forall origin_byte c = true → lower c = c.
Proof.
  induction c as [|a c IH]; [done|]. simpl. unfold origin_byte at 1. bools.
  intros [[_ Ha] Hc]. by rewrite Ha, IH.
Qed.

Lemma origin_bytes_ascii c : str_forall origin_byte c = true → str_forall ascii_byte c = true.
Proof. apply str_forall_impl. intros a. unfold origin_byte. rewrite andb_true_iff. by intros []. Qed.

(** A canonical origin is the ASCII lower case of what it was read from. *)
Lemma canonical_origin_lower value c :
  canonicalOrigin value = Some c →
  str_forall ascii_byte value = true ∧ c = lower value ∧ foldASCII c = c.
Proof.
  intros [-> Hc]%canonical_origin_bytes. pose proof (origin_bytes_ascii _ Hc) as Ha.
  pose proof (fold_ascii_inv _ Ha) as Hv. split_and!; [done|by apply fold_ascii|].
  rewrite (fold_ascii (foldASCII value)) by done. by apply origin_bytes_lower.
Qed.

Lemma canonical_origin_idemp value c :
  canonicalOrigin value = Some c → canonicalOrigin c = Some c.
Proof.
  intros H. destruct (canonical_origin_lower _ _ H) as (_ & _ & E).
  destruct (canonical_origin_bytes _ _ H) as [-> _].
  unfold canonicalOrigin in *. by rewrite E.
Qed.

Lemma sameOrigin_iff a b :
  sameOrigin a b = true ↔ ∃ c, canonicalOrigin a = Some c ∧ canonicalOrigin b = Some c.
Proof.
  unfold sameOrigin. destruct (canonicalOrigin a) as [x|]; [|split; [done|by intros (? & ? & _)]].
  destruct (canonicalOrigin b) as [y|]; [|split; [done|by intros (? & _ & ?)]].
  rewrite bool_decide_eq_true. split; [intros ->; eauto|by intros (c & [= ->] & [= ->])].
Qed.

Lemma sameOrigin_canonical a c :
  canonicalOrigin c = Some c → sameOrigin a c = true ↔ canonicalOrigin a = Some c.
Proof.
  intros Hc. rewrite sameOrigin_iff, Hc. split; [by intros (? & ? & [= ->])|eauto].
Qed.

(** ** The decisions, declaratively *)

(** A policy this build can read and in which something was decided. *)
Definition in_force (p : Policy) : Prop := settled p = None.

(** [s] names the identity, each half it fills in compared whole. *)
Definition names (s : Signer) (issuer repo : string) : Prop :=
  (si_Issuer s = "" ∨ si_Issuer s = issuer) ∧
  (si_Repo s = "" ∨ sameOrigin (si_Repo s) repo = true).

Lemma signer_matches_iff s issuer repo : signer_matches s issuer repo = true ↔ names s issuer repo.
Proof.
  unfold signer_matches, names. repeat case_bool_decide; simpl; intuition congruence.
Qed.

Definition origin_revoked (p : Policy) (wanted : string) : Prop :=
  ∃ r, r ∈ Revoked p ∧ rv_Generation r = 0%N ∧ canonicalOrigin (rv_Origin r) = Some wanted.

Lemma allows_origin_iff p origin :
  in_force p →
  Allowed (AllowsOrigin p origin) = true ↔
    ∃ wanted, canonicalOrigin origin = Some wanted ∧ ¬ origin_revoked p wanted ∧
      (ApprovedOrigins p = [] ∨ ∃ a, a ∈ ApprovedOrigins p ∧ canonicalOrigin a = Some wanted).
Proof.
  intros Hf. unfold AllowsOrigin. rewrite Hf.
  destruct (canonicalOrigin origin) as [wanted|] eqn:Ho; [|split; [done|by intros (? & ? & _)]].
  pose proof (canonical_origin_idemp _ _ Ho) as Hw.
  transitivity (¬ origin_revoked p wanted ∧
    (ApprovedOrigins p = [] ∨ ∃ a, a ∈ ApprovedOrigins p ∧ canonicalOrigin a = Some wanted));
    [|naive_solver].
  destruct (List.find _ (Revoked p)) as [r|] eqn:Hr.
  - apply find_elem in Hr as [Hin Hr]. bools_in Hr. destruct Hr as [Hg Hs].
    apply sameOrigin_canonical in Hs; [|done].
    split; [done|intros [Hn _]]. destruct Hn. by exists r.
  - assert (¬ origin_revoked p wanted) as Hn.
    { intros (r & Hin & Hg & Hs). apply list_elem_of_In in Hin.
      pose proof (find_none _ _ Hr r Hin) as Hno. simpl in Hno. rewrite Hg in Hno.
      by rewrite (proj2 (sameOrigin_canonical _ _ Hw) Hs) in Hno. }
    destruct (ApprovedOrigins p) as [|a l]; [simpl; tauto|].
    cbn [empty]. set (l' := a :: l). destruct (existsb _ l') eqn:E; bools_in E; simpl.
    + destruct E as (x & Hx & Hsx%sameOrigin_canonical); [|done]. split; [|done]. eauto.
    + split; [done|]. intros [_ [[=]|(x & Hx & Hsx)]].
      specialize (E x Hx). by rewrite (proj2 (sameOrigin_canonical _ _ Hw) Hsx) in E.
Qed.

Lemma publisher_loop_iff issuer repo wanted n b l :
  Allowed (publisher_loop issuer repo wanted n b l) = true ↔
    ∃ s, s ∈ l ∧ names s issuer repo ∧ (si_Repo s = "" → sameOrigin repo wanted = true).
Proof.
  revert b. induction l as [|s l IH]; intros b; cbn [publisher_loop].
  { destruct b; split; try done; intros (s & []%elem_of_nil & _). }
  setoid_rewrite elem_of_cons.
  destruct (signer_matches s issuer repo) eqn:Hm; cbn [negb].
  - apply signer_matches_iff in Hm. case_bool_decide as Hrep; cbn [negb].
    + destruct (sameOrigin repo wanted) eqn:Hs.
      * split; [|done]. intros _. exists s. tauto.
      * rewrite IH. split; [intros (x & ? & ?); eauto|].
        intros (x & [->|Hx] & Hn & Himp); [by specialize (Himp Hrep)|eauto].
    + split; [|done]. intros _. exists s. tauto.
  - rewrite IH. split; [intros (x & ? & ?); eauto|].
    intros (x & [->|Hx] & Hn & Himp); [|eauto].
    apply signer_matches_iff in Hn. congruence.
Qed.

(** [issuer] and [repo] may publish [wanted] under the approved signers. *)
Definition signer_approved (p : Policy) (issuer repo wanted : string) : Prop :=
  ∃ s, s ∈ ApprovedSigners p ∧ names s issuer repo ∧
    (si_Repo s = "" → canonicalOrigin repo = Some wanted).

Lemma allows_publisher_iff p issuer repo origin :
  in_force p →
  Allowed (AllowsPublisher p issuer repo origin) = true ↔
    ∃ wanted, canonicalOrigin origin = Some wanted ∧ (issuer ≠ "" ∨ repo ≠ "") ∧
      (ApprovedSigners p = [] ∧ RequirePublisher p = false ∨ signer_approved p issuer repo wanted).
Proof.
  intros Hf. unfold AllowsPublisher. rewrite Hf.
  destruct (canonicalOrigin origin) as [wanted|] eqn:Ho; [|split; [done|by intros (? & ? & _)]].
  pose proof (canonical_origin_idemp _ _ Ho) as Hw.
  transitivity ((issuer ≠ "" ∨ repo ≠ "") ∧
    (ApprovedSigners p = [] ∧ RequirePublisher p = false ∨ signer_approved p issuer repo wanted));
    [|naive_solver].
  destruct (bool_decide (issuer = "") && bool_decide (repo = "")) eqn:E; bools_in E.
  { split; [done|]. naive_solver. }
  assert (issuer ≠ "" ∨ repo ≠ "") as Hne by tauto.
  unfold signer_approved. destruct (ApprovedSigners p) as [|s l] eqn:El; cbn [empty].
  - destruct (RequirePublisher p); simpl; [|by split; [intros _; auto|]].
    split; [done|]. intros [_ [[_ [=]]|(? & []%elem_of_nil & _)]].
  - rewrite publisher_loop_iff. setoid_rewrite (sameOrigin_canonical repo wanted Hw).
    naive_solver.
Qed.

Lemma allows_approval_iff p issuer repo :
  in_force p →
  Allowed (AllowsApproval p issuer repo) = true ↔
    (issuer ≠ "" ∨ repo ≠ "") ∧
    (ApprovalSigners p = [] ∧ RequireApproval p = false ∨
     ∃ s, s ∈ ApprovalSigners p ∧ names s issuer repo).
Proof.
  intros Hf. unfold AllowsApproval. rewrite Hf.
  destruct (bool_decide (issuer = "") && bool_decide (repo = "")) eqn:E; bools_in E.
  { split; [done|]. naive_solver. }
  assert (issuer ≠ "" ∨ repo ≠ "") as Hne by tauto.
  destruct (ApprovalSigners p) as [|s l]; cbn [empty].
  - destruct (RequireApproval p); simpl; [|by split; [intros _; auto|]].
    split; [done|]. intros [_ [[_ [=]]|(? & []%elem_of_nil & _)]].
  - set (l' := s :: l). destruct (existsb _ l') eqn:Ex; bools_in Ex; simpl.
    + destruct Ex as (x & Hx & Hm%signer_matches_iff). split; [|done]. eauto.
    + split; [done|]. intros [_ [[[=] _]|(x & Hx & Hm%signer_matches_iff)]].
      by rewrite (Ex x Hx) in Hm.
Qed.

(** A revocation of the origin that answers for the generation. *)
Definition revoked (p : Policy) (wanted : string) (generation : N) : Prop :=
  ∃ r, r ∈ Revoked p ∧ canonicalOrigin (rv_Origin r) = Some wanted ∧
    (rv_Generation r = 0%N ∨ generation ≠ 0%N ∧ rv_Generation r = generation).

Lemma revoked_loop_spec wanted generation l :
  canonicalOrigin wanted = Some wanted →
  match revoked_loop wanted generation l with
  | Some d => Allowed d = false ∧ ∃ r, r ∈ l ∧ canonicalOrigin (rv_Origin r) = Some wanted ∧
      (rv_Generation r = 0%N ∨ generation ≠ 0%N ∧ rv_Generation r = generation)
  | None => ∀ r, r ∈ l → canonicalOrigin (rv_Origin r) = Some wanted →
      rv_Generation r ≠ 0%N ∧ (generation ≠ 0%N → rv_Generation r ≠ generation)
  end.
Proof.
  intros Hw. induction l as [|r l IH]; cbn [revoked_loop]; [set_solver|].
  destruct (sameOrigin (rv_Origin r) wanted) eqn:Hs; cbn [negb].
  - apply sameOrigin_canonical in Hs; [|done].
    destruct (N.eqb_spec (rv_Generation r) 0) as [Hz|Hz]; [set_solver|].
    destruct (N.eqb_spec generation 0) as [Hg|Hg]; cbn [negb andb].
    + destruct (revoked_loop _ _ _); set_solver.
    + destruct (N.eqb_spec (rv_Generation r) generation) as [He|He]; [set_solver|].
      destruct (revoked_loop _ _ _); set_solver.
  - assert (canonicalOrigin (rv_Origin r) ≠ Some wanted) as Hno.
    { intros H%(sameOrigin_canonical _ _ Hw). congruence. }
    destruct (revoked_loop _ _ _); set_solver.
Qed.

Lemma is_revoked_iff p origin generation :
  in_force p →
  Allowed (IsRevoked p origin generation) = true ↔
    ∃ wanted, canonicalOrigin origin = Some wanted ∧ ¬ revoked p wanted generation.
Proof.
  intros Hf. unfold IsRevoked. rewrite Hf.
  destruct (canonicalOrigin origin) as [wanted|] eqn:Ho; [|split; [done|by intros (? & ? & _)]].
  pose proof (revoked_loop_spec wanted generation (Revoked p) (canonical_origin_idemp _ _ Ho)) as Hl.
  transitivity (¬ revoked p wanted generation); [|naive_solver]. unfold revoked.
  destruct (revoked_loop _ _ _) as [d|].
  - destruct Hl as [-> Hr]. split; [done|]. intros []. exact Hr.
  - split.
    + intros _ (r & Hin & Hc & Hg). destruct (Hl r Hin Hc) as [H0 Hg']. intuition congruence.
    + intros _. by destruct (generation =? 0)%N.
Qed.

Lemma normalized_publisher_iff p publisher issuer repo origin :
  in_force p →
  Allowed (AllowsNormalizedPublisher p publisher issuer repo origin) = true ↔
    (publisher ≠ "" ∧ publisher ∈ ApprovedPublisherIDs p) ∨
    (ApprovedSigners p ≠ [] ∧ Allowed (AllowsPublisher p issuer repo origin) = true) ∨
    (ApprovedSigners p = [] ∧ ApprovedPublisherIDs p = [] ∧ RequirePublisher p = false).
Proof.
  intros Hf. unfold AllowsNormalizedPublisher. rewrite Hf.
  destruct (negb (bool_decide (publisher = "")) && existsb _ _) eqn:E.
  { bools_in E. destruct E as [Hne (x & Hx & He)]. bools_in He. subst x. split; [|done].
    intros _. by left. }
  assert (¬ (publisher ≠ "" ∧ publisher ∈ ApprovedPublisherIDs p)) as Hno.
  { intros [Hne Hin]. apply andb_false_iff in E as [E|E].
    - by apply negb_false_iff, bool_decide_eq_true in E.
    - rewrite existsb_none in E. specialize (E publisher Hin). by bools_in E. }
  destruct (ApprovedSigners p) as [|s l]; cbn [empty negb]; [|naive_solver].
  destruct (ApprovedPublisherIDs p) as [|x xs]; destruct (RequirePublisher p); cbn [empty negb andb];
    try case_bool_decide; simpl; naive_solver.
Qed.

(** ** Validated policies *)
Lemma validate_origin_ok field origin u :
  validateOrigin field origin = Ok u ↔ canonicalOrigin origin = Some origin.
Proof.
  unfold validateOrigin. destruct (canonicalOrigin origin) as [c|]; [|done].
  rewrite check_that_ok, bool_decide_eq_true. naive_solver.
Qed.

Record valid_trust (url_parse : string → option url) (p : Policy) : Prop := {
  vt_publisher : RequirePublisher p = true → ApprovedSigners p ≠ [] ∨ ApprovedPublisherIDs p ≠ [];
  vt_approval : RequireApproval p = true → ApprovalSigners p ≠ [];
  vt_ids : ∀ i, i ∈ ApprovedPublisherIDs p → ValidPublisherID i = true;
  vt_signers : ∀ s, s ∈ ApprovedSigners p → validate_signer url_parse "approved_signers" false s = Ok tt;
  vt_approvers : ∀ s, s ∈ ApprovalSigners p → validate_signer url_parse "approval_signers" true s = Ok tt;
  vt_origins : ∀ o, o ∈ ApprovedOrigins p → canonicalOrigin o = Some o;
  vt_revoked : ∀ r, r ∈ Revoked p → canonicalOrigin (rv_Origin r) = Some (rv_Origin r) ∧
    validateReason (rv_Reason r) = Ok tt
}.

Lemma empty_iff {A} (l : list A) : empty l = true ↔ l = [].
Proof. by destruct l. Qed.

Lemma empty_false {A} (l : list A) : empty l = false ↔ l ≠ [].
Proof. by destruct l. Qed.

Lemma validate_v2_ids p x r i :
  validateV2 p x r = Ok tt → i ∈ ApprovedPublisherIDs p → ValidPublisherID i = true.
Proof.
  unfold validateV2. rewrite !bind_unit_ok, for_seen_ok. intros (_ & _ & [H _] & _) Hi.
  destruct (H i Hi) as (Hv & _). by apply check_that_ok in Hv.
Qed.

Lemma validate_abi_ids url_parse p i :
  Validate url_parse p = Ok tt → Empty p = false → i ∈ ApprovedPublisherIDs p →
  ValidPublisherID i = true.
Proof.
  unfold Validate. intros H He Hi. rewrite He, andb_false_r in H.
  rewrite !bind_unit_ok, !refuse_if_ok in H. destruct H as (Ha & H1 & H2 & _).
  destruct (ABI p =? CurrentABIVersion)%Z eqn:E.
  - destruct (X509 p), (Reputation p); try done. by eapply validate_v2_ids.
  - destruct (ABI p =? ABIVersion)%Z; [|done]. cbn [andb] in H1.
    rewrite !orb_false_iff, negb_false_iff, empty_iff in H1. destruct H1 as [[H1 _] _].
    rewrite H1 in Hi. by apply elem_of_nil in Hi.
Qed.

Lemma validate_trust_ok url_parse p :
  Validate url_parse p = Ok tt → Empty p = false → valid_trust url_parse p.
Proof.
  intros H He. pose proof (λ i, validate_abi_ids url_parse p i H He) as Hids.
  unfold Validate in H. rewrite He, andb_false_r in H.
  unfold validateSigners in H. rewrite !bind_unit_ok, !refuse_if_ok, !for_each_ok in H.
  destruct H as (_ & _ & _ & Hp & Ha & Hs & Has & Ho & Hr).
  rewrite !andb_false_iff, !empty_false in Hp. rewrite andb_false_iff, empty_false in Ha.
  split; try done.
  - intros E. rewrite E in Hp. intuition congruence.
  - intros E. rewrite E in Ha. intuition congruence.
  - intros o Hin. specialize (Ho o Hin). by apply validate_origin_ok in Ho.
  - intros r Hin. specialize (Hr r Hin). rewrite bind_unit_ok, validate_origin_ok in Hr. done.
Qed.

Lemma validate_signer_ok url_parse field required s :
  validate_signer url_parse field required s = Ok tt →
  (si_Issuer s ≠ "" ∨ si_Repo s ≠ "") ∧
  (si_Repo s ≠ "" → canonicalOrigin (si_Repo s) = Some (si_Repo s)) ∧
  (required = true → si_Repo s ≠ "").
Proof.
  unfold validate_signer. rewrite !bind_unit_ok, !refuse_if_ok. intros (H1 & _ & H2).
  bools_in H1. case_bool_decide as Hr.
  - apply refuse_if_ok in H2. split_and!; [tauto|done|congruence].
  - apply validate_origin_ok in H2. split_and!; [by right|done|done].
Qed.

Lemma in_force_not_empty p : in_force p → Empty p = false.
Proof. unfold in_force, settled. repeat case_if; congruence. Qed.

Lemma approval_satisfiable url_parse p :
  in_force p → valid_trust url_parse p →
  ∃ issuer repo, Allowed (AllowsApproval p issuer repo) = true.
Proof.
  intros Hf [_ Hreq _ _ Happ _ _].
  destruct (ApprovalSigners p) as [|s l] eqn:E.
  + exists "i", "". apply allows_approval_iff; [done|]. split; [by left|left].
    split; [done|]. destruct (RequireApproval p); [by destruct Hreq|done].
  + destruct (validate_signer_ok _ _ _ _ (Happ s (list_elem_of_here _ _))) as (_ & Hc & Hr).
    specialize (Hr eq_refl). exists (si_Issuer s), (si_Repo s).
    apply allows_approval_iff; [done|]. split; [by right|right]. exists s.
    rewrite E. split; [apply list_elem_of_here|]. split; [by right|right].
    apply sameOrigin_iff. eauto.
Qed.

Lemma publisher_satisfiable url_parse p :
  in_force p → valid_trust url_parse p →
  ∃ publisher issuer repo origin,
    Allowed (AllowsNormalizedPublisher p publisher issuer repo origin) = true.
Proof.
  intros Hf [Hpub _ Hids Hsig _ _ _].
  destruct (ApprovedPublisherIDs p) as [|i l] eqn:Ei.
  2: { exists i, "", "", "". apply normalized_publisher_iff; [done|]. left. rewrite Ei.
       split; [|apply list_elem_of_here].
       apply publisher_nonempty, Hids. apply list_elem_of_here. }
  destruct (ApprovedSigners p) as [|s l] eqn:Es.
  { exists "", "", "", "". apply normalized_publisher_iff; [done|]. right; right.
    split_and!; [done..|]. destruct (RequirePublisher p); [by destruct Hpub|done]. }
  destruct (validate_signer_ok _ _ _ _ (Hsig s (list_elem_of_here _ _))) as (Hne & Hc & _).
  destruct (decide (si_Repo s = "")) as [Hr|Hr].
  + exists "", (si_Issuer s), "github.com/o/r", "github.com/o/r".
    apply normalized_publisher_iff; [done|]. right; left. split; [by rewrite Es|].
    apply allows_publisher_iff; [done|]. exists "github.com/o/r".
    split; [vm_compute; reflexivity|]. split; [by right|right]. exists s.
    rewrite Es. split; [apply list_elem_of_here|]. split; [|done]. split; [by right|by left].
  + exists "", (si_Issuer s), (si_Repo s), (si_Repo s).
    apply normalized_publisher_iff; [done|]. right; left. split; [by rewrite Es|].
    apply allows_publisher_iff; [done|]. exists (si_Repo s). split; [auto|].
    split; [by right|right]. exists s. rewrite Es. split; [apply list_elem_of_here|].
    split; [|done]. split; [by right|right]. apply sameOrigin_iff. eauto.
Qed.

(** ** Properties *)

(** C34: once a readable policy decides anything, an origin may be installed
    exactly when it is well formed, no revocation withdraws the whole of it, and
    it is approved or no list restricts origins; an identity may publish exactly
    when an approved signer names it, a signer without a repository speaking for
    its own repository only; a publisher id or a counter-signer is accepted
    exactly when it is listed; and a generation may launch exactly when no
    revocation of its origin answers for it.  Approval never overrides
    revocation. *)
Theorem trust_decisions p :
  in_force p →
  (∀ origin, Allowed (AllowsOrigin p origin) = true ↔
    ∃ wanted, canonicalOrigin origin = Some wanted ∧ ¬ origin_revoked p wanted ∧
      (ApprovedOrigins p = [] ∨ ∃ a, a ∈ ApprovedOrigins p ∧ canonicalOrigin a = Some wanted)) ∧
  (∀ issuer repo origin, Allowed (AllowsPublisher p issuer repo origin) = true ↔
    ∃ wanted, canonicalOrigin origin = Some wanted ∧ (issuer ≠ "" ∨ repo ≠ "") ∧
      (ApprovedSigners p = [] ∧ RequirePublisher p = false ∨ signer_approved p issuer repo wanted)) ∧
  (∀ publisher issuer repo origin,
    Allowed (AllowsNormalizedPublisher p publisher issuer repo origin) = true ↔
    (publisher ≠ "" ∧ publisher ∈ ApprovedPublisherIDs p) ∨
    (ApprovedSigners p ≠ [] ∧ Allowed (AllowsPublisher p issuer repo origin) = true) ∨
    (ApprovedSigners p = [] ∧ ApprovedPublisherIDs p = [] ∧ RequirePublisher p = false)) ∧
  (∀ issuer repo, Allowed (AllowsApproval p issuer repo) = true ↔
    (issuer ≠ "" ∨ repo ≠ "") ∧ (ApprovalSigners p = [] ∧ RequireApproval p = false ∨
      ∃ s, s ∈ ApprovalSigners p ∧ names s issuer repo)) ∧
  (∀ origin generation, Allowed (IsRevoked p origin generation) = true ↔
    ∃ wanted, canonicalOrigin origin = Some wanted ∧ ¬ revoked p wanted generation).
Proof.
  intros Hf. split_and!; intros.
  - by apply allows_origin_iff.
  - by apply allows_publisher_iff.
  - by apply normalized_publisher_iff.
  - by apply allows_approval_iff.
  - by apply is_revoked_iff.
Qed.

Definition trust_example : Policy :=
  mkTrust 1 true false [mkSigner "https://issuer.example" ""] ["github.com/o/r"] []
    [mkRevocation "github.com/o/r" 3 "bad release"] [] None None.

Lemma trust_decisions_witness :
  Allowed (AllowsOrigin trust_example "GitHub.com/O/R") = true ∧
  Allowed (AllowsPublisher trust_example "https://issuer.example" "github.com/o/x"
    "github.com/o/r") ≠ true.
Proof.
  pose proof (trust_decisions trust_example eq_refl) as (Ho & Hp & _). split.
  - apply Ho. exists "github.com/o/r". split; [vm_compute; reflexivity|]. split.
    + intros (r & Hr & Hg & _). apply list_elem_of_singleton in Hr. subst r. discriminate Hg.
    + right. exists "github.com/o/r". split; [apply list_elem_of_here|vm_compute; reflexivity].
  - intros H. apply Hp in H as (w & Hw & _ & [[Hx _]|(s & Hs & _ & H)]); [discriminate Hx|].
    apply list_elem_of_singleton in Hs. subst s. specialize (H eq_refl).
    vm_compute in Hw, H. congruence.
Defined.

(** A policy of an ABI this build does not know refuses every question, and
    so does an ABI 2 policy without its two sections; a policy in which nothing
    was decided, of an ABI this build can read, allows every one. *)
Theorem trust_unreadable_or_empty p :
  (ABI p ≠ 0%Z → ABI p ≠ 1%Z → ABI p ≠ 2%Z → ∀ origin issuer repo publisher generation,
    Allowed (AllowsOrigin p origin) = false ∧ Allowed (AllowsPublisher p issuer repo origin) = false ∧
    Allowed (AllowsNormalizedPublisher p publisher issuer repo origin) = false ∧
    Allowed (AllowsApproval p issuer repo) = false ∧ Allowed (IsRevoked p origin generation) = false) ∧
  (ABI p = 2%Z → X509 p = None ∨ Reputation p = None → ∀ origin issuer repo publisher generation,
    Allowed (AllowsOrigin p origin) = false ∧ Allowed (AllowsPublisher p issuer repo origin) = false ∧
    Allowed (AllowsNormalizedPublisher p publisher issuer repo origin) = false ∧
    Allowed (AllowsApproval p issuer repo) = false ∧ Allowed (IsRevoked p origin generation) = false) ∧
  (ABI p = 0%Z ∨ ABI p = 1%Z → Empty p = true → ∀ origin issuer repo publisher generation,
    Allowed (AllowsOrigin p origin) = true ∧ Allowed (AllowsPublisher p issuer repo origin) = true ∧
    Allowed (AllowsNormalizedPublisher p publisher issuer repo origin) = true ∧
    Allowed (AllowsApproval p issuer repo) = true ∧ Allowed (IsRevoked p origin generation) = true).
Proof.
  assert (∀ d, settled p = Some d → ∀ origin issuer repo publisher generation,
    Allowed (AllowsOrigin p origin) = Allowed d ∧
    Allowed (AllowsPublisher p issuer repo origin) = Allowed d ∧
    Allowed (AllowsNormalizedPublisher p publisher issuer repo origin) = Allowed d ∧
    Allowed (AllowsApproval p issuer repo) = Allowed d ∧
    Allowed (IsRevoked p origin generation) = Allowed d) as Hall.
  { intros d Hd *. unfold AllowsOrigin, AllowsPublisher, AllowsNormalizedPublisher,
      AllowsApproval, IsRevoked. by rewrite Hd. }
  split_and!.
  - intros H0 H1 H2. apply (Hall (refuse (UnreadableABI (ABI p)))). unfold settled.
    apply Z.eqb_neq in H0, H1, H2. unfold ABIVersion, CurrentABIVersion. by rewrite H0, H1, H2.
  - intros H2 Hs. apply (Hall (refuse MissingSection)). unfold settled. rewrite H2. simpl.
    destruct Hs as [-> | ->]; [done|]. by rewrite orb_true_r.
  - intros Ha He. apply (Hall (allow NoPolicy)). unfold settled. rewrite He.
    by destruct Ha as [-> | ->].
Qed.

Lemma trust_unreadable_or_empty_witness :
  Allowed (AllowsOrigin (mkTrust 3 false false [] [] [] [] [] None None) "github.com/o/r") = false.
Proof.
  by apply (proj1 (trust_unreadable_or_empty (mkTrust 3 false false [] [] [] [] [] None None))
    ltac:(done) ltac:(done) ltac:(done) "github.com/o/r" "" "" "" 0%N).
Defined.

(** A lookalike is never the same origin: two strings are the same origin
    only when both are ASCII and equal up to the case of ASCII letters, and on
    well-formed origins the relation is an equivalence. *)
Theorem same_origin_sound :
  (∀ a b, sameOrigin a b = true →
    str_forall ascii_byte a = true ∧ str_forall ascii_byte b = true ∧ lower a = lower b) ∧
  (∀ a b, sameOrigin a b = sameOrigin b a) ∧
  (∀ a b c, sameOrigin a b = true → sameOrigin b c = true → sameOrigin a c = true) ∧
  (∀ a, sameOrigin a a = true ↔ is_Some (canonicalOrigin a)).
Proof.
  split_and!.
  - intros a b (c & Ha%canonical_origin_lower & Hb%canonical_origin_lower)%sameOrigin_iff.
    destruct Ha as (? & ? & _), Hb as (? & ? & _). split_and!; congruence.
  - intros a b. apply bool_iff. rewrite !sameOrigin_iff. naive_solver.
  - intros a b c. rewrite !sameOrigin_iff. intros (x & ? & ?) (y & ? & ?).
    exists x. split; congruence.
  - intros a. rewrite sameOrigin_iff. unfold is_Some. naive_solver.
Qed.

(** A policy [Validate] accepts decides by the strings it is written with: an
    origin in canonical form is admitted by literal membership and revoked by
    literal equality.  Such a policy can be satisfied: some identity can
    counter-sign, and some publisher can publish some origin. *)
Theorem validated_policy_literal url_parse p :
  Validate url_parse p = Ok tt → in_force p →
  (∀ o, canonicalOrigin o = Some o →
    Allowed (AllowsOrigin p o) = true ↔
      (∀ r, r ∈ Revoked p → rv_Generation r = 0%N → rv_Origin r ≠ o) ∧
      (ApprovedOrigins p = [] ∨ o ∈ ApprovedOrigins p)) ∧
  (∃ issuer repo, Allowed (AllowsApproval p issuer repo) = true) ∧
  (∃ publisher issuer repo origin,
    Allowed (AllowsNormalizedPublisher p publisher issuer repo origin) = true).
Proof.
  intros Hv Hf. pose proof (validate_trust_ok _ _ Hv (in_force_not_empty p Hf))
    as [_ _ _ _ _ Hor Hrev]. split_and!.
  - intros o Ho. rewrite allows_origin_iff by done. unfold origin_revoked. split.
    + intros (w & Hw & Hn & Ha). rewrite Ho in Hw. injection Hw as <-. split.
      * intros r Hr Hg <-. destruct Hn. exists r. split_and!; [done..|by apply Hrev].
      * destruct Ha as [?|(a & Ha & Hc)]; [by left|right].
        pose proof (Hor a Ha). replace o with a by congruence. done.
    + intros [Hn Ha]. exists o. split_and!; [done| |].
      * intros (r & Hr & Hg & Hc). apply (Hn r Hr Hg). destruct (Hrev r Hr). congruence.
      * destruct Ha as [?|?]; [by left|right; exists o]. eauto.
  - by eapply approval_satisfiable, validate_trust_ok, in_force_not_empty.
  - by eapply publisher_satisfiable, validate_trust_ok, in_force_not_empty.
Qed.

Definition parse_example (s : string) : option url :=
  if has_prefix "https://" s then Some (mkURL "https" (str_drop 8 s) false "" "") else None.

Lemma validated_policy_literal_witness :
  ∃ issuer repo, Allowed (AllowsApproval trust_example issuer repo) = true.
Proof.
  apply (validated_policy_literal parse_example trust_example); vm_compute; reflexivity.
Defined.
