(* ===== verification/ReputationPolicy.v ===== *)
(** * The reputation stage of the trust policy ([pkg/trustpolicy/reputation.go])

    What the configured reputation mode makes of a provider's answer, the scoped
    exceptions of an administrator, and the further rule for an invocation that
    cannot ask.  [time.Parse] on an arbitrary expiry is a parameter that agrees
    with [GoTime.parse_canonical] on canonical timestamps, the only ones
    [Validate] lets through. *)
From stdpp Require Import base strings list.
From S2P Require Import Prelude.
From S2P Require Import GoStrings.
From S2P Require Import Regex.
From S2P Require Import GoTime.
From S2P Require Import Reputation.
From S2P Require Import TrustPolicy.
From stdpp Require Import options.

Inductive InvocationContext : Type :=
  | InvocationGraphical | InvocationInteractiveTerminal | InvocationNonInteractive
  | OtherContext (text : string).
#[export] Instance context_eq_dec : EqDecision InvocationContext.
Proof. solve_decision. Defined.

Inductive DecisionAction : Type :=
  | ActionAllow | ActionWarn | ActionDeny | ActionConfirmationRequired
  | OtherAction (text : string).
#[export] Instance action_eq_dec : EqDecision DecisionAction.
Proof. solve_decision. Defined.

Record ReputationDecision : Type := mkRepDecision {
  rd_Allowed : bool;
  rd_Action : DecisionAction;
  rd_ReasonCode : string;
  rd_Reason : string;
  rd_Exception : bool
}.

Inductive decision_error : Type :=
  | AllowingRefused | RefusingAllowed | UnknownAction | InvalidReasonCode | InvalidReason.

Definition validate_decision (d : ReputationDecision) : result decision_error unit :=
  match rd_Action d with
  | ActionAllow | ActionWarn => check_that (rd_Allowed d) AllowingRefused
  | ActionDeny | ActionConfirmationRequired => refuse_if (rd_Allowed d) RefusingAllowed
  | OtherAction _ => Err UnknownAction
  end ;;;
  check_that (matches policyNamePattern (rd_ReasonCode d)) InvalidReasonCode ;;;
  refuse_if (bool_decide (rd_Reason d = "") || (reasonLimit <? slen (rd_Reason d))) InvalidReason.

Definition reputationAllow (code reason : string) : ReputationDecision :=
  mkRepDecision true ActionAllow code reason false.
Definition reputationDeny (code reason : string) : ReputationDecision :=
  mkRepDecision false ActionDeny code reason false.

Definition containsOrigin (origins : list string) (wanted : string) : bool :=
  existsb (λ origin, sameOrigin origin wanted) origins.
Definition containsStatus (statuses : list Status) (wanted : Status) : bool :=
  existsb (λ status, bool_decide (status = wanted)) statuses.

Section Evaluation.
(** [time.Parse(time.RFC3339, s)] with its error ignored. *)
Context (time_parse : string → Z).

Definition exception_applies (status : Status) (publisherID origin : string) (now : Z)
    (e : ReputationException) : bool :=
  if negb (bool_decide (ex_PublisherID e = publisherID)) ||
     negb (containsOrigin (ex_Origins e) origin) || negb (containsStatus (ex_Statuses e) status)
  then false
  else if negb (bool_decide (ex_ExpiresAt e = "")) then before now (time_parse (ex_ExpiresAt e))
  else true.

Definition reputationException (r : ReputationPolicy) (status : Status)
    (publisherID origin : string) (now : Z) : option ReputationException :=
  if negb (bool_decide (status = Unknown)) && negb (bool_decide (status = Caution)) then None
  else List.find (exception_applies status publisherID origin now) (rp_Exceptions r).

(** An answer of another provider, or about another publisher, is no answer. *)
Definition effective (r : ReputationPolicy) (result : Result) (publisherID : string) : Result :=
  let result :=
    if negb (bool_decide (r_ProviderID result = rp_ProviderID r)) &&
       negb (bool_decide (r_Status result = Unavailable))
    then UnavailableResult (rp_ProviderID r) publisherID "provider-mismatch" else result in
  if negb (bool_decide (r_PublisherID result = publisherID))
  then UnavailableResult (rp_ProviderID r) publisherID "publisher-mismatch" else result.

Definition publisher_blocked : ReputationDecision :=
  reputationDeny "publisher-blocked" "the configured reputation provider blocks this publisher".
Definition publisher_established : ReputationDecision :=
  reputationAllow "publisher-established"
    "the configured reputation provider reports an established publisher".

Definition EvaluatesReputation (p : Policy) (result : Result) (publisherID origin : string)
    (now : Z) : ReputationDecision :=
  match Reputation p with
  | Some r =>
      if negb (ABI p =? CurrentABIVersion)%Z || bool_decide (rp_Mode r = ReputationOff) then
        reputationAllow "reputation-off" "publisher reputation is not enforced on this host"
      else
        let result := effective r result publisherID in
        match rp_Mode r with
        | ReputationAudit =>
            reputationAllow "reputation-audited"
              "publisher reputation was recorded without changing the host decision"
        | ReputationWarn =>
            if bool_decide (r_Status result = Blocked) then publisher_blocked
            else if bool_decide (r_Status result = Established) then publisher_established
            else mkRepDecision true ActionWarn (r_ReasonCode result)
                   "publisher reputation requires a warning before continuing" false
        | ReputationRequireEstablished =>
            if bool_decide (r_Status result = Blocked) then publisher_blocked
            else if bool_decide (r_Status result = Established) then publisher_established
            else match reputationException r (r_Status result) publisherID origin now with
            | Some exception =>
                mkRepDecision true ActionAllow (ex_ReasonCode exception)
                  "a scoped administrator exception permits this reputation result" true
            | None =>
                reputationDeny "publisher-not-established"
                  "this host requires an established publisher"
            end
        | _ => reputationDeny "reputation-policy-invalid" "the reputation policy cannot be applied"
        end
  | None => reputationAllow "reputation-off" "publisher reputation is not enforced on this host"
  end.

Definition DecidesReputation (p : Policy) (result : Result) (publisherID origin : string)
    (now : Z) (context : InvocationContext) : ReputationDecision :=
  let decision := EvaluatesReputation p result publisherID origin now in
  if bool_decide (rd_Action decision = ActionWarn) &&
     negb (bool_decide (context = InvocationGraphical)) &&
     negb (bool_decide (context = InvocationInteractiveTerminal))
  then mkRepDecision false ActionConfirmationRequired "reputation-confirmation-required"
         "publisher reputation requires confirmation, and this invocation is non-interactive" false
  else decision.
End Evaluation.

(** ** What the stage decides *)

(** The status the stage acts on. *)
Definition trusted_answer (r : ReputationPolicy) (result : Result) (publisherID : string) : Prop :=
  r_PublisherID result = publisherID ∧ r_ProviderID result = rp_ProviderID r.

Lemma effective_status r result publisherID :
  r_Status (effective r result publisherID) = Unavailable ∨
  (effective r result publisherID = result ∧ trusted_answer r result publisherID).
Proof.
  unfold effective, trusted_answer. repeat case_bool_decide; simpl in *; try tauto; eauto.
  all: case_bool_decide; simpl; tauto.
Qed.

(** A live exception that covers the status, the publisher and the origin. *)
Definition live_exception (time_parse : string → Z) (r : ReputationPolicy) (status : Status)
    (publisherID origin : string) (now : Z) (e : ReputationException) : Prop :=
  e ∈ rp_Exceptions r ∧ ex_PublisherID e = publisherID ∧
  (∃ o, o ∈ ex_Origins e ∧ sameOrigin o origin = true) ∧ status ∈ ex_Statuses e ∧
  (ex_ExpiresAt e = "" ∨ (now < time_parse (ex_ExpiresAt e))%Z).

Lemma exception_applies_iff tp status publisherID origin now r e :
  e ∈ rp_Exceptions r →
  exception_applies tp status publisherID origin now e = true ↔
  live_exception tp r status publisherID origin now e.
Proof.
  intros He. unfold exception_applies, live_exception, before.
  assert (containsStatus (ex_Statuses e) status = true ↔ status ∈ ex_Statuses e) as Hst.
  { unfold containsStatus. rewrite existsb_elem. setoid_rewrite bool_decide_eq_true. naive_solver. }
  rewrite <-Hst, <-existsb_elem. change (existsb _ _) with (containsOrigin (ex_Origins e) origin).
  repeat case_bool_decide; destruct (containsOrigin _ _), (containsStatus _ _); simpl;
    rewrite ?Z.ltb_lt; intuition congruence.
Qed.

Lemma exception_in tp r status publisherID origin now e :
  reputationException tp r status publisherID origin now = Some e → e ∈ rp_Exceptions r.
Proof. unfold reputationException. case_if; [done|]. by intros [? _]%find_elem. Qed.

Lemma exception_found tp r status publisherID origin now :
  (status = Unknown ∨ status = Caution) →
  match reputationException tp r status publisherID origin now with
  | Some e => live_exception tp r status publisherID origin now e
  | None => ∀ e, ¬ live_exception tp r status publisherID origin now e
  end.
Proof.
  intros Hs. unfold reputationException.
  assert (negb (bool_decide (status = Unknown)) && negb (bool_decide (status = Caution)) = false)
    as -> by (destruct Hs as [-> | ->]; done).
  destruct (List.find _ _) as [e|] eqn:E.
  - apply find_elem in E as [He Ha]. by apply (exception_applies_iff _ _ _ _ _ r) in Ha.
  - intros e He. pose proof (proj1 He) as Hin. apply exception_applies_iff in He; [|done].
    apply list_elem_of_In in Hin. by rewrite (find_none _ _ E e Hin) in He.
Qed.

(** The stage is applied: the policy is of ABI 2 and has a reputation section. *)
Definition stage (p : Policy) (r : ReputationPolicy) : Prop :=
  ABI p = CurrentABIVersion ∧ Reputation p = Some r.

Lemma evaluates_status tp p r result publisherID origin now :
  stage p r → rp_Mode r = ReputationWarn ∨ rp_Mode r = ReputationRequireEstablished →
  let d := EvaluatesReputation tp p result publisherID origin now in
  let status := r_Status (effective r result publisherID) in
  (status = Blocked → d = publisher_blocked) ∧
  (status = Established → d = publisher_established) ∧
  (status ≠ Blocked → status ≠ Established →
    (rp_Mode r = ReputationWarn → rd_Action d = ActionWarn ∧ rd_Allowed d = true) ∧
    (rp_Mode r = ReputationRequireEstablished →
      rd_Allowed d = true ↔ (status = Unknown ∨ status = Caution) ∧
        ∃ e, live_exception tp r status publisherID origin now e)).
Proof.
  intros [Habi Hr] Hm. cbv zeta. unfold EvaluatesReputation. rewrite Hr, Habi. cbn [negb orb Z.eqb].
  rewrite (bool_decide_eq_false_2 (rp_Mode r = ReputationOff)) by (intros E; destruct Hm; congruence).
  set (q := effective r result publisherID). split_and!.
  - intros ->. by destruct Hm as [-> | ->].
  - intros ->. by destruct Hm as [-> | ->].
  - intros Hb He. split; intros ->; rewrite !bool_decide_eq_false_2 by done; [done|].
    destruct (decide (r_Status q = Unknown ∨ r_Status q = Caution)) as [Hs|Hs].
    + pose proof (exception_found tp r (r_Status q) publisherID origin now Hs) as Hf.
      destruct (reputationException _ _ _ _ _ _) as [e|]; simpl; [by split; eauto|].
      split; [done|]. intros [_ (e & He')]. by destruct (Hf e).
    + assert (reputationException tp r (r_Status q) publisherID origin now = None) as ->; [|by split; [|intros []]].
      unfold reputationException. rewrite !bool_decide_eq_false_2 by tauto. done.
Qed.

(** Where reputation is enforced, only an answer of the configured provider
    about this publisher counts.  A blocked publisher is denied and an
    established one allowed; of the rest, warn mode allows with a warning, and
    require mode allows exactly an unknown or cautioned publisher that a live
    exception names for this origin and status, so that an unavailable provider
    is never excused. *)
Theorem reputation_stage tp p r result publisherID origin now :
  stage p r → rp_Mode r = ReputationWarn ∨ rp_Mode r = ReputationRequireEstablished →
  let d := EvaluatesReputation tp p result publisherID origin now in
  let answered := trusted_answer r result publisherID in
  (answered → r_Status result = Blocked → rd_Action d = ActionDeny ∧ rd_Allowed d = false) ∧
  (answered → r_Status result = Established → rd_Action d = ActionAllow ∧ rd_Allowed d = true) ∧
  (rp_Mode r = ReputationWarn → ¬ (answered ∧ r_Status result = Blocked) →
    ¬ (answered ∧ r_Status result = Established) → rd_Action d = ActionWarn ∧ rd_Allowed d = true) ∧
  (rp_Mode r = ReputationRequireEstablished → rd_Allowed d = true →
    answered ∧ (r_Status result = Established ∨
      (r_Status result = Unknown ∨ r_Status result = Caution) ∧
      ∃ e, live_exception tp r (r_Status result) publisherID origin now e)).
Proof.
  intros Hst Hm. cbv zeta.
  destruct (evaluates_status tp p r result publisherID origin now Hst Hm) as (Hb & He & Ho).
  assert (trusted_answer r result publisherID → effective r result publisherID = result) as Ht.
  { intros [H1 H2]. unfold effective. rewrite (bool_decide_eq_true_2 _ H2). simpl.
    by rewrite (bool_decide_eq_true_2 _ H1). }
  split_and!.
  - intros Ha Hs. rewrite Hb; [done|by rewrite Ht].
  - intros Ha Hs. rewrite He; [done|by rewrite Ht].
  - intros Hw Hnb Hne. apply Ho; [..|done]; intros Hs;
      (destruct (effective_status r result publisherID) as [E|[E Ha]]; [congruence|]);
      rewrite E in Hs; tauto.
  - intros Hq Hd. destruct (effective_status r result publisherID) as [E|[E Ha]].
    + exfalso. rewrite E in *. apply Ho in Hd; [|done..]. by destruct Hd as [[|] _].
    + split; [done|]. rewrite E in *.
      destruct (decide (r_Status result = Blocked)) as [Hs|Hnb].
      { by rewrite (Hb Hs) in Hd. }
      destruct (decide (r_Status result = Established)) as [Hs|Hne]; [by left|right].
      by apply Ho in Hd.
Qed.

Definition reputation_example (mode : ReputationMode) : ReputationPolicy :=
  mkReputation mode "acme"
    [mkException id_example ["github.com/o/r"] [Unknown] "2026-06-01T00:00:00Z" "vetted"].
Definition stage_example (mode : ReputationMode) : Policy :=
  mkTrust 2 false false [] [] [] [] [] (Some (mkX509 "allow-unknown"))
    (Some (reputation_example mode)).
Definition parse_or_zero (s : string) : Z := default 0%Z (parse_canonical s).

Lemma reputation_stage_witness :
  rd_Allowed (EvaluatesReputation parse_or_zero (stage_example ReputationRequireEstablished)
    (mkResult "acme" id_example Unknown 1 2 1 "publisher-not-listed") id_example
    "github.com/o/r" 0) = true ∧
  rd_Action (EvaluatesReputation parse_or_zero (stage_example ReputationRequireEstablished)
    (mkResult "acme" id_example Blocked 1 2 1 "malware") id_example "github.com/o/r" 0) = ActionDeny.
Proof.
  split; [vm_compute; reflexivity|].
  eapply (reputation_stage parse_or_zero (stage_example ReputationRequireEstablished)
    (reputation_example ReputationRequireEstablished)); [split; reflexivity|by right|split; reflexivity|].
  reflexivity.
Defined.

(** ** Decisions are well formed *)
Lemma policy_code_ok s : In s ["reputation-off"; "reputation-audited"; "publisher-blocked";
    "publisher-established"; "publisher-not-established"; "reputation-policy-invalid";
    "reputation-confirmation-required"; "provider-mismatch"; "publisher-mismatch"] →
  matches policyNamePattern s = true.
Proof. revert s. apply List.Forall_forall. repeat constructor; vm_compute; reflexivity. Qed.

Lemma validate_exceptions_codes i seen l e :
  validate_exceptions i seen l = Ok tt → e ∈ l →
  matches policyNamePattern (ex_ReasonCode e) = true.
Proof.
  revert i seen. induction l as [|x l IH]; intros i seen; cbn [validate_exceptions];
    [by intros _ ?%elem_of_nil|].
  rewrite !bind_unit_ok, wrap_ok. intros (Hx & _ & Hl) [->|Hin]%elem_of_cons; [|eauto].
  unfold validateReputationException in Hx. rewrite !bind_unit_ok in Hx.
  destruct Hx as (_ & _ & _ & _ & _ & Hx). by apply check_that_ok in Hx.
Qed.

Lemma effective_code r result publisherID :
  matches policyNamePattern (r_ReasonCode result) = true →
  matches policyNamePattern (r_ReasonCode (effective r result publisherID)) = true.
Proof.
  intros H. unfold effective. repeat case_if; simpl; try done; apply policy_code_ok; simpl; tauto.
Qed.

Lemma validated_exceptions url_parse p r e :
  Validate url_parse p = Ok tt → ABI p = CurrentABIVersion → Reputation p = Some r →
  e ∈ rp_Exceptions r → matches policyNamePattern (ex_ReasonCode e) = true.
Proof.
  unfold Validate. intros H Ha Hr He. rewrite Ha in H. simpl in H.
  destruct (X509 p) as [x|]; [|done]. rewrite Hr, !bind_unit_ok in H. destruct H as (H & _).
  unfold validateV2 in H. rewrite !bind_unit_ok in H. destruct H as (_ & _ & _ & H).
  by eapply validate_exceptions_codes.
Qed.

(** A decision with a known action, a valid code and a short reason is valid. *)
Lemma decision_ok allowed action code reason exception :
  match action with
  | ActionAllow | ActionWarn => allowed = true
  | ActionDeny | ActionConfirmationRequired => allowed = false
  | OtherAction _ => False
  end →
  matches policyNamePattern code = true → reason ≠ "" → (reasonLimit <? slen reason) = false →
  validate_decision (mkRepDecision allowed action code reason exception) = Ok tt.
Proof.
  intros Ha Hc Hn Hl. unfold validate_decision. simpl.
  rewrite !bind_unit_ok, check_that_ok, refuse_if_ok, Hl, bool_decide_eq_false_2 by done.
  split_and!; [|done|done]. by destruct action; [subst..|done].
Qed.

Ltac valid_decision :=
  apply decision_ok; [reflexivity| |done|reflexivity]; try (apply policy_code_ok; simpl; tauto).

Ltac acts := first [by left | by right; left | by right; right].

Lemma evaluates_valid tp url_parse p result publisherID origin now :
  Validate url_parse p = Ok tt → matches policyNamePattern (r_ReasonCode result) = true →
  let d := EvaluatesReputation tp p result publisherID origin now in
  validate_decision d = Ok tt ∧
  (rd_Action d = ActionAllow ∨ rd_Action d = ActionWarn ∨ rd_Action d = ActionDeny).
Proof.
  intros Hv Hc. cbv zeta. unfold EvaluatesReputation.
  destruct (Reputation p) as [r|] eqn:Hr; [|split; [valid_decision|by left]].
  case_if; [split; [valid_decision|by left]|]. bools_all. destruct Heqb as [Habi _].
  destruct (rp_Mode r); try (split; [valid_decision|acts]).
  - repeat case_if; (split; [valid_decision|acts]). by apply effective_code.
  - repeat case_if; try (split; [valid_decision|acts]).
    destruct (reputationException _ _ _ _ _ _) as [e|] eqn:E;
      [|split; [valid_decision|acts]].
    split; [|by left]. valid_decision. apply exception_in in E. by eapply validated_exceptions.
Qed.

(** Under a validated policy, an answer with a valid reason code leads to a
    decision [ReputationDecision.Validate] accepts, in every mode and context;
    and an invocation that cannot ask is never let through with a warning: it
    gets exactly what the policy allows outright. *)
Theorem reputation_decision_valid tp url_parse p result publisherID origin now context :
  Validate url_parse p = Ok tt → matches policyNamePattern (r_ReasonCode result) = true →
  let d := DecidesReputation tp p result publisherID origin now context in
  let evaluated := EvaluatesReputation tp p result publisherID origin now in
  validate_decision d = Ok tt ∧
  (context = InvocationGraphical ∨ context = InvocationInteractiveTerminal → d = evaluated) ∧
  (context ≠ InvocationGraphical → context ≠ InvocationInteractiveTerminal →
    rd_Action d ≠ ActionWarn ∧ (rd_Allowed d = true ↔ rd_Action evaluated = ActionAllow)).
Proof.
  intros Hv Hc. cbv zeta.
  destruct (evaluates_valid tp url_parse p result publisherID origin now Hv Hc) as [Hok Hact].
  unfold DecidesReputation. set (e := EvaluatesReputation tp p result publisherID origin now) in *.
  assert (rd_Allowed e = true ↔ rd_Action e = ActionAllow ∨ rd_Action e = ActionWarn) as Hallowed.
  { unfold validate_decision in Hok. rewrite bind_unit_ok in Hok. destruct Hok as [Hok _].
    destruct (rd_Action e); rewrite ?check_that_ok, ?refuse_if_ok in Hok; intuition congruence. }
  split_and!.
  - case_if; [valid_decision|done].
  - intros [-> | ->]; by rewrite ?andb_false_r.
  - intros Hg Hi. rewrite (bool_decide_eq_false_2 _ Hg), (bool_decide_eq_false_2 _ Hi).
    simpl negb. rewrite !andb_true_r. case_bool_decide as Ha.
    + split; [discriminate|]. by rewrite Ha.
    + split; [done|]. rewrite Hallowed. tauto.
Qed.

Lemma reputation_decision_valid_witness :
  rd_Action (DecidesReputation parse_or_zero (stage_example ReputationWarn)
    (mkResult "acme" id_example Unknown 1 2 1 "publisher-not-listed") id_example
    "github.com/o/r" 0 InvocationNonInteractive) ≠ ActionWarn.
Proof.
  apply (reputation_decision_valid parse_or_zero parse_example (stage_example ReputationWarn));
    [vm_compute; reflexivity|vm_compute; reflexivity|discriminate|discriminate].
Defined.
