(* ===== verification/AppTrust.v ===== *)
(** * Application trust decisions ([pkg/applicationtrust])

    The result every adapter reports, the checks it must pass, the resolution of
    a policy action against the answer of a trust prompt, and the text shown to
    people.  The enumerations of the code are strings, as on the wire. *)
From Stdlib Require Import Ascii.
From stdpp Require Import base strings list numbers pretty.
From S2P Require Import Prelude.
From S2P Require Import GoStrings.
From S2P Require Import Regex.
From S2P Require Import Utf8.
From S2P Require Import GoTime.
From stdpp Require Import options.

(** ** Enumerations *)
Definition OperationVerify : string := "verify".
Definition operations : list string :=
  [OperationVerify; "install"; "update"; "audit"; "explain"; "launch"; "service-start"].
Definition ContextGraphical : string := "graphical".
Definition ContextInteractiveTerminal : string := "interactive-terminal".
Definition ContextNonInteractive : string := "non-interactive".
Definition SourceEvaluated : string := "evaluated".
Definition SourceRecorded : string := "recorded".
Definition VerificationUnsigned : string := "unsigned".
Definition verification_statuses : list string :=
  ["verified"; VerificationUnsigned; "invalid"; "unavailable"; "not-evaluated"].
Definition PublisherVerified : string := "verified".
Definition publisher_statuses : list string :=
  [PublisherVerified; "absent"; "invalid"; "unavailable"; "not-evaluated"].
Definition PolicyAllow : string := "allow".
Definition PolicyWarn : string := "warn".
Definition PolicyDeny : string := "deny".
Definition PolicyNotEvaluated : string := "not-evaluated".
Definition ConfirmationNotRequired : string := "not-required".
Definition ConfirmationRequired : string := "required".
Definition ConfirmationAccepted : string := "accepted".
Definition ConfirmationDeclined : string := "declined".
Definition ConfirmationNotAvailable : string := "not-available".
Definition FinalAllow : string := "allow".
Definition FinalWarn : string := "warn".
Definition FinalDeny : string := "deny".
Definition FinalInvalid : string := "invalid".
Definition FinalUnavailable : string := "unavailable".
Definition FinalConfirmationRequired : string := "confirmation-required".

Definition ExitAllowed : Z := 0.
Definition ExitDenied : Z := 20.
Definition ExitInvalid : Z := 21.
Definition ExitUnavailable : Z := 22.
Definition ExitConfirmationRequired : Z := 23.
Definition SchemaVersion : Z := 1.

(** [ConfirmationResponse] is a [uint8]. *)
Definition NoConfirmation : Z := 0.
Definition Confirm : Z := 1.
Definition Decline : Z := 2.

(** ** Results *)
Record Subject : Type := mkSubject {
  s_Origin : string; s_ArtifactDigest : string; s_Generation : N }.
Record Verification : Type := mkVerification {
  v_Status : string; v_EvidenceKind : string; v_ReasonCode : string; v_Diagnostic : string }.
Record Publisher : Type := mkPublisher {
  p_Status : string; p_ID : string; p_DisplayName : string; p_OriginAuthorization : string;
  p_ReasonCode : string }.
Record Trust : Type := mkTrustPart {
  t_Chain : string; t_RootSource : string; t_SigningTime : string; t_Revocation : string;
  t_ReasonCode : string }.
Record Reputation : Type := mkReputationPart {
  r_ProviderID : string; r_Status : string; r_Freshness : string; r_IssuedAt : string;
  r_ExpiresAt : string; r_ReasonCode : string }.
Record Policy : Type := mkPolicyPart {
  y_SignatureMode : string; y_ReputationMode : string; y_Action : string; y_Confirmation : string;
  y_Exception : bool; y_ReasonCode : string }.
Record Final : Type := mkFinal {
  f_Action : string; f_Class : string; f_ReasonCode : string; f_ExitCode : Z }.
Record Result : Type := mkDecisionResult {
  d_SchemaVersion : Z;
  d_Actor : string;
  d_Operation : string;
  d_Context : string;
  d_Source : string;
  d_Subject : Subject;
  d_Verification : Verification;
  d_Publisher : Publisher;
  d_Trust : Trust;
  d_Reputation : Reputation;
  d_Policy : Policy;
  d_Final : Final
}.

Inductive trust_error : Type :=
  | ESchema (version : Z) | EActor | EOperation | EContext | ESource
  | ENotUtf8 | EEmptyText | ETextLimit | EControl | EOrigin (e : trust_error) | EDigest
  | EStatus | EEvidence | EEvidenceNone | EUnsignedEvidence | EReasonCode
  | EIdentity (e : trust_error) | EUnverifiedIdentity | EUnverifiedName | EAuthorization
  | EUnverifiedAuthorization | EDisplayName (e : trust_error)
  | EChain | ESigningTime | ERevocation | ERootSource (e : trust_error)
  | EProvider | EFreshness | EIssuedAt | EExpiresAt
  | ESignatureMode | EReputationMode | EConfirmation | EWarningState | EInferred
  | EUnavailableState | EAction | EDisagree
  | EAllowsNonAllow | EWarnsUnconfirmed | EDeniesUndeclined | EDeniesNonDeny
  | EAsksOutside | EOverrides | EForeignPublisher
  | EAllowConfirmation | EDenyConfirmation | ECannotAnswer | EResponse | EUnresolvable.

Definition same (a b : string) : bool := bool_decide (a = b).
Definition oneOf (value : string) (choices : list string) : bool := existsb (same value) choices.

(** ** Text *)
Definition lower_digit : list (ascii * ascii) := [("a", "z"); ("0", "9")]%char.
Definition name_tail : list (ascii * ascii) :=
  (lower_digit ++ [(".", "."); ("_", "_"); ("-", "-")])%char.
Definition namePattern : regex := RSeq (RSet lower_digit) (RUpTo 63 (RSet name_tail)).
Definition hexadecimal : regex := RSet [("0", "9"); ("a", "f")]%char.
Definition digestPattern : regex :=
  RSeq (RSet lower_digit) (RSeq (RUpTo 31 (RSet (("+", "+")%char :: name_tail)))
    (RSeq (RChar ":") (RSeq (RTimes 32 hexadecimal) (RUpTo 96 hexadecimal)))).

Definition control (char : N) : bool := (char <? 0x20)%N || (char =? 0x7f)%N.

Definition reasonCode (value : string) : result trust_error unit :=
  check_that (matches namePattern value) EReasonCode.

Definition safeText (value : string) (limit : nat) (empty : bool) : result trust_error unit :=
  check_that (valid_utf8 value) ENotUtf8 ;;;
  refuse_if (negb empty && same value "") EEmptyText ;;;
  refuse_if (limit <? slen value) ETextLimit ;;;
  refuse_if (contains_rune control value) EControl.

Definition canonicalTime (e : trust_error) (value : string) : result trust_error unit :=
  refuse_if (negb (same value "") && bool_decide (parse_canonical value = None)) e.

(** [for !utf8.Valid(encoded) { encoded = encoded[:len(encoded)-1] }] from the
    first [n] bytes of [value]. *)
Fixpoint cut_valid (n : nat) (value : string) : string :=
  if valid_utf8 (str_take n value) then str_take n value
  else match n with 0 => "" | S n => cut_valid n value end.

Definition SanitizeText (value : string) (limit : Z) : string :=
  if (limit <=? 0)%Z then ""
  else
    let value := to_valid_utf8 value in
    let value := strings_map (λ char, if control char then None else Some char) value in
    if slen value <=? Z.to_nat limit then value
    else cut_valid (Z.to_nat limit) value.

(** ** Validation *)
Definition validOperation (operation : string) : bool := oneOf operation operations.
Definition validContext (context : string) : bool :=
  same context ContextGraphical || same context ContextInteractiveTerminal ||
  same context ContextNonInteractive.

Definition validate_subject (s : Subject) : result trust_error unit :=
  wrap EOrigin (safeText (s_Origin s) 512 false) ;;;
  refuse_if (negb (same (s_ArtifactDigest s) "") && negb (matches digestPattern (s_ArtifactDigest s)))
    EDigest.

Definition validate_verification (v : Verification) : result trust_error unit :=
  check_that (oneOf (v_Status v) verification_statuses) EStatus ;;;
  check_that (oneOf (v_EvidenceKind v) ["sigstore-bundle-v1"; "x509-cms-v1"; "none"; "unknown"])
    EEvidence ;;;
  refuse_if (same (v_EvidenceKind v) "none" && negb (same (v_Status v) VerificationUnsigned) &&
    negb (same (v_Status v) "not-evaluated")) EEvidenceNone ;;;
  refuse_if (same (v_Status v) VerificationUnsigned && negb (same (v_EvidenceKind v) "none"))
    EUnsignedEvidence ;;;
  reasonCode (v_ReasonCode v) ;;;
  safeText (v_Diagnostic v) 512 true.

Definition validate_publisher (p : Publisher) : result trust_error unit :=
  check_that (oneOf (p_Status p) publisher_statuses) EStatus ;;;
  (if same (p_Status p) PublisherVerified then wrap EIdentity (safeText (p_ID p) 512 false)
   else refuse_if (negb (same (p_ID p) "")) EUnverifiedIdentity) ;;;
  refuse_if (negb (same (p_Status p) PublisherVerified) && negb (same (p_DisplayName p) ""))
    EUnverifiedName ;;;
  check_that (oneOf (p_OriginAuthorization p)
    ["authorized"; "foreign"; "unsupported"; "not-evaluated"]) EAuthorization ;;;
  refuse_if (negb (same (p_Status p) PublisherVerified) &&
    negb (same (p_OriginAuthorization p) "not-evaluated")) EUnverifiedAuthorization ;;;
  wrap EDisplayName (safeText (p_DisplayName p) 200 true) ;;;
  reasonCode (p_ReasonCode p).

Definition validate_trust (t : Trust) : result trust_error unit :=
  check_that (oneOf (t_Chain t) ["trusted-public"; "trusted-local"; "not-applicable"; "untrusted";
    "invalid"; "not-evaluated"]) EChain ;;;
  check_that (oneOf (t_SigningTime t) ["current"; "timestamped"; "missing"; "expired";
    "not-yet-valid"; "invalid"; "not-applicable"; "not-evaluated"]) ESigningTime ;;;
  check_that (oneOf (t_Revocation t) ["good"; "revoked"; "unknown"; "stale"; "not-applicable";
    "not-evaluated"]) ERevocation ;;;
  wrap ERootSource (safeText (t_RootSource t) 512 true) ;;;
  reasonCode (t_ReasonCode t).

Definition validate_reputation (r : Reputation) : result trust_error unit :=
  refuse_if (negb (same (r_ProviderID r) "") && negb (matches namePattern (r_ProviderID r))) EProvider ;;;
  check_that (oneOf (r_Status r) ["established"; "unknown"; "caution"; "blocked"; "unavailable";
    "not-consulted"]) EStatus ;;;
  check_that (oneOf (r_Freshness r) ["fresh"; "stale"; "unavailable"; "not-applicable"]) EFreshness ;;;
  canonicalTime EIssuedAt (r_IssuedAt r) ;;;
  canonicalTime EExpiresAt (r_ExpiresAt r) ;;;
  reasonCode (r_ReasonCode r).

Definition validate_policy (p : Policy) (context source : string) : result trust_error unit :=
  check_that (oneOf (y_SignatureMode p) ["optional"; "required"; "not-applicable"]) ESignatureMode ;;;
  check_that (oneOf (y_ReputationMode p) ["off"; "audit"; "warn"; "require-established";
    "not-applicable"]) EReputationMode ;;;
  (if oneOf (y_Action p) [PolicyAllow; PolicyDeny; PolicyNotEvaluated] then
     check_that (same (y_Confirmation p) ConfirmationNotRequired) EConfirmation
   else if same (y_Action p) PolicyWarn then
     check_that (oneOf (y_Confirmation p) [ConfirmationRequired; ConfirmationAccepted;
       ConfirmationDeclined; ConfirmationNotAvailable]) EWarningState ;;;
     refuse_if (same context ContextNonInteractive &&
       negb (same (y_Confirmation p) ConfirmationNotAvailable) && negb (same source SourceRecorded))
       EInferred ;;;
     refuse_if (negb (same context ContextNonInteractive) &&
       same (y_Confirmation p) ConfirmationNotAvailable) EUnavailableState
   else Err EAction) ;;;
  reasonCode (y_ReasonCode p).

Definition finalMapping (action : string) : option (string * Z) :=
  if same action FinalAllow || same action FinalWarn then Some ("allowed", ExitAllowed)
  else if same action FinalDeny then Some ("denied", ExitDenied)
  else if same action FinalInvalid then Some ("invalid", ExitInvalid)
  else if same action FinalUnavailable then Some ("unavailable", ExitUnavailable)
  else if same action FinalConfirmationRequired
  then Some ("confirmation-required", ExitConfirmationRequired)
  else None.

Definition validate_final (f : Final) : result trust_error unit :=
  reasonCode (f_ReasonCode f) ;;;
  match finalMapping (f_Action f) with
  | None => Err EAction
  | Some (class, code) =>
      refuse_if (negb (same (f_Class f) class) || negb (f_ExitCode f =? code)%Z) EDisagree
  end.

(** The agreement of the final action with the policy and the confirmation. *)
Definition agreement (r : Result) : result trust_error unit :=
  let action := f_Action (d_Final r) in
  let policy := y_Action (d_Policy r) in
  let confirmation := y_Confirmation (d_Policy r) in
  if same action FinalAllow then
    refuse_if (negb (same policy PolicyAllow) && negb (same policy PolicyNotEvaluated)) EAllowsNonAllow
  else if same action FinalWarn then
    refuse_if (negb (same policy PolicyWarn) || negb (same confirmation ConfirmationAccepted) ||
      (same (d_Context r) ContextNonInteractive && negb (same (d_Source r) SourceRecorded)))
      EWarnsUnconfirmed
  else if same action FinalDeny then
    if same policy PolicyWarn then
      check_that (same confirmation ConfirmationDeclined) EDeniesUndeclined
    else check_that (same policy PolicyDeny) EDeniesNonDeny
  else if same action FinalConfirmationRequired then
    refuse_if (negb (same policy PolicyWarn) || (negb (same confirmation ConfirmationRequired) &&
      negb (same confirmation ConfirmationNotAvailable))) EAsksOutside
  else if same action FinalInvalid || same action FinalUnavailable then
    check_that (same confirmation ConfirmationNotRequired) EOverrides
  else Ok tt.

(** The publisher is verified and may not speak for the origin it would admit. *)
Definition foreign_publisher (r : Result) : bool :=
  negb (same (d_Operation r) OperationVerify) &&
  (same (f_Action (d_Final r)) FinalAllow || same (f_Action (d_Final r)) FinalWarn) &&
  same (p_Status (d_Publisher r)) PublisherVerified &&
  negb (same (p_OriginAuthorization (d_Publisher r)) "authorized").

Definition validateResolution (r : Result) : result trust_error unit :=
  agreement r ;;;
  refuse_if (foreign_publisher r) EForeignPublisher.

Definition Validate (r : Result) : result trust_error unit :=
  check_that (d_SchemaVersion r =? SchemaVersion)%Z (ESchema (d_SchemaVersion r)) ;;;
  check_that (matches namePattern (d_Actor r)) EActor ;;;
  check_that (validOperation (d_Operation r)) EOperation ;;;
  check_that (validContext (d_Context r)) EContext ;;;
  refuse_if (negb (same (d_Source r) SourceEvaluated) && negb (same (d_Source r) SourceRecorded))
    ESource ;;;
  validate_subject (d_Subject r) ;;;
  validate_verification (d_Verification r) ;;;
  validate_publisher (d_Publisher r) ;;;
  validate_trust (d_Trust r) ;;;
  validate_reputation (d_Reputation r) ;;;
  validate_policy (d_Policy r) (d_Context r) (d_Source r) ;;;
  validate_final (d_Final r) ;;;
  validateResolution r.

(** ** Resolution *)
Definition finalFor (action reason : string) : Final :=
  match finalMapping action with
  | Some (class, code) => mkFinal action class reason code
  | None => mkFinal action "" reason 0
  end.

Definition NewFinal (action reason : string) : result trust_error Final :=
  reasonCode reason ;;;
  match finalMapping action with
  | None => Err EAction
  | Some (class, code) => Ok (mkFinal action class reason code)
  end.

Definition ResolvePolicyAction (action context : string) (response : Z) (reason : string) :
    result trust_error (string * Final) :=
  check_that (validContext context) EContext ;;;
  reasonCode reason ;;;
  if same action PolicyAllow then
    refuse_if (negb (response =? NoConfirmation)%Z) EAllowConfirmation ;;;
    Ok (ConfirmationNotRequired, finalFor FinalAllow reason)
  else if same action PolicyDeny then
    refuse_if (negb (response =? NoConfirmation)%Z) EDenyConfirmation ;;;
    Ok (ConfirmationNotRequired, finalFor FinalDeny reason)
  else if same action PolicyWarn then
    if same context ContextNonInteractive then
      refuse_if (negb (response =? NoConfirmation)%Z) ECannotAnswer ;;;
      Ok (ConfirmationNotAvailable, finalFor FinalConfirmationRequired "confirmation-required")
    else if (response =? NoConfirmation)%Z then
      Ok (ConfirmationRequired, finalFor FinalConfirmationRequired "confirmation-required")
    else if (response =? Confirm)%Z then Ok (ConfirmationAccepted, finalFor FinalWarn reason)
    else if (response =? Decline)%Z
    then Ok (ConfirmationDeclined, finalFor FinalDeny "confirmation-declined")
    else Err EResponse
  else Err EUnresolvable.

(** ** Presentation ([presentation.go]) *)
Definition presentationText (value fallback : string) (limit : Z) : string :=
  let value := SanitizeText value limit in
  if same value "" then fallback else value.
Definition presentationToken (value fallback : string) : string := presentationText value fallback 64.

Definition HumanLines (r : Result) : list string :=
  let publisher := presentationText (p_DisplayName (d_Publisher r)) (p_Status (d_Publisher r)) 200 in
  let publisherID := presentationText (p_ID (d_Publisher r)) "not-provided" 512 in
  concat_strings <$>
  [["Application trust for "; presentationText (s_Origin (d_Subject r)) "unknown-origin" 512; ": ";
    presentationToken (f_Action (d_Final r)) "invalid-action"; " (";
    presentationToken (f_ReasonCode (d_Final r)) "missing-reason"; ")."];
   ["  Publisher: "; publisher; "; identity: "; publisherID; " (";
    presentationToken (p_ReasonCode (d_Publisher r)) "missing-reason"; "); origin: ";
    presentationToken (p_OriginAuthorization (d_Publisher r)) "not-evaluated"; "."];
   ["  Evidence: "; presentationToken (v_Status (d_Verification r)) "invalid-status"; "/";
    presentationToken (v_EvidenceKind (d_Verification r)) "unknown"; " (";
    presentationToken (v_ReasonCode (d_Verification r)) "missing-reason"; ")."];
   ["  Trust: chain "; presentationToken (t_Chain (d_Trust r)) "not-evaluated"; ", root ";
    presentationText (t_RootSource (d_Trust r)) "not-applicable" 512; ", signing time ";
    presentationToken (t_SigningTime (d_Trust r)) "not-evaluated"; ", revocation ";
    presentationToken (t_Revocation (d_Trust r)) "not-evaluated"; " (";
    presentationToken (t_ReasonCode (d_Trust r)) "missing-reason"; ")."];
   ["  Reputation: provider "; presentationText (r_ProviderID (d_Reputation r)) "not-consulted" 128;
    ", status "; presentationToken (r_Status (d_Reputation r)) "not-consulted"; ", freshness ";
    presentationToken (r_Freshness (d_Reputation r)) "not-applicable"; " (";
    presentationToken (r_ReasonCode (d_Reputation r)) "missing-reason"; ")."];
   ["  Policy: signatures "; presentationToken (y_SignatureMode (d_Policy r)) "not-evaluated";
    ", reputation "; presentationToken (y_ReputationMode (d_Policy r)) "not-evaluated";
    ", action "; presentationToken (y_Action (d_Policy r)) "not-evaluated"; ", confirmation ";
    presentationToken (y_Confirmation (d_Policy r)) "not-evaluated"; " (";
    presentationToken (y_ReasonCode (d_Policy r)) "missing-reason"; ")."]].

(** ** Sanitised text *)

(** No byte of the text is a C0 control or DEL. *)
Definition plain_byte (c : ascii) : bool := negb (control (byte c)).

Lemma control_low r : control r = true → (r < 0x80)%N.
Proof. unfold control. bools. lia. Qed.

Lemma no_control_bytes s :
  contains_rune control s = false ↔ str_forall plain_byte s = true.
Proof. rewrite contains_rune_bytes by apply control_low. unfold str_exists. apply negb_false_iff. Qed.

Lemma str_forall_take f n s : str_forall f s = true → str_forall f (str_take n s) = true.
Proof.
  intros H. rewrite <-(str_take_drop n s), str_forall_app in H. by apply andb_true_iff in H as [? _].
Qed.

Lemma cut_valid_spec n s :
  valid_utf8 (cut_valid n s) = true ∧ slen (cut_valid n s) ≤ n ∧
  ∃ m, m ≤ n ∧ cut_valid n s = str_take m s ∧
    ∀ k, m < k → k ≤ n → valid_utf8 (str_take k s) = false.
Proof.
  induction n as [|n IH]; cbn [cut_valid].
  - assert (str_take 0 s = "") as -> by by destruct s.
    change (valid_utf8 "") with true. cbv iota. split_and!; [done|done|].
    exists 0. split_and!; [done|by destruct s|intros; lia].
  - destruct (valid_utf8 (str_take (S n) s)) eqn:E.
    + split_and!; [done|rewrite slen_take; lia|]. exists (S n). split_and!; [done..|intros; lia].
    + destruct IH as (H1 & H2 & m & Hm & H3 & H4). split_and!; [done|lia|].
      exists m. split_and!; [lia|done|]. intros k Hk Hkn.
      destruct (decide (k = S n)) as [->|]; [done|]. apply H4; lia.
Qed.

Lemma sanitized_map s :
  valid_utf8 (strings_map (λ c, if control c then None else Some c) s) = true ∧
  str_forall plain_byte (strings_map (λ c, if control c then None else Some c) s) = true.
Proof.
  split; [apply valid_strings_map|]. apply strings_map_bytes.
  - by_bytes.
  - intros r r' c. destruct (control r) eqn:E; [done|]. intros [= <-] <-.
    unfold plain_byte. by rewrite E.
Qed.

Lemma sanitize_spec value limit :
  let s := SanitizeText value limit in
  valid_utf8 s = true ∧ (Z.of_nat (slen s) ≤ Z.max 0 limit)%Z ∧ str_forall plain_byte s = true.
Proof.
  cbv zeta. unfold SanitizeText. destruct (Z.leb_spec limit 0) as [Hl|Hl].
  { split_and!; [done|change (slen "") with 0; lia|done]. }
  destruct (sanitized_map (to_valid_utf8 value)) as [Hv Hp].
  destruct (Nat.leb_spec (slen (strings_map (λ c, if control c then None else Some c)
    (to_valid_utf8 value))) (Z.to_nat limit)) as [Hle|Hgt].
  - split_and!; [done|lia|done].
  - destruct (cut_valid_spec (Z.to_nat limit) (strings_map (λ c, if control c then None else Some c)
      (to_valid_utf8 value))) as (H1 & H2 & m & _ & H3 & _).
    split_and!; [done|lia|]. rewrite H3. by apply str_forall_take.
Qed.

Lemma safe_text_ok value limit e :
  safeText value limit e = Ok tt ↔
  valid_utf8 value = true ∧ (e = false → value ≠ "") ∧ slen value ≤ limit ∧
  str_forall plain_byte value = true.
Proof.
  unfold safeText, same. rewrite !bind_unit_ok, check_that_ok, !refuse_if_ok, no_control_bytes.
  rewrite andb_false_iff, negb_false_iff, bool_decide_eq_false, Nat.ltb_ge.
  destruct e; naive_solver.
Qed.

(** Whatever text it is given, [SanitizeText] ends with valid UTF-8 of at
    most [limit] bytes without a control character, which [safeText] accepts, and
    it leaves text [safeText] accepts as it is. *)
Theorem sanitize_text_safe value limit :
  let s := SanitizeText value limit in
  safeText s (Z.to_nat limit) true = Ok tt ∧ SanitizeText s limit = s ∧
  (∀ e, safeText value (Z.to_nat limit) e = Ok tt → s = value).
Proof.
  assert (∀ v e, safeText v (Z.to_nat limit) e = Ok tt → SanitizeText v limit = v) as Hid.
  { intros v e (Hv & _ & Hl & Hp)%safe_text_ok. unfold SanitizeText.
    destruct (Z.leb_spec limit 0) as [H0|H0].
    { destruct v; [done|]. rewrite slen_cons in Hl. lia. }
    rewrite to_valid_id by done.
    assert (strings_map (λ c, if control c then None else Some c) v = v) as ->.
    { apply strings_map_valid_id; [done|]. intros x Hx.
      apply no_control_bytes in Hp. unfold contains_rune in Hp.
      rewrite existsb_none in Hp. by rewrite (Hp x Hx). }
    by rewrite (proj2 (Nat.leb_le _ _) Hl). }
  cbv zeta. destruct (sanitize_spec value limit) as (H1 & H2 & H3).
  assert (safeText (SanitizeText value limit) (Z.to_nat limit) true = Ok tt) as Hok.
  { apply safe_text_ok. split_and!; [done|done|lia|done]. }
  split_and!; [done|by eapply Hid|]. exact (Hid value).
Qed.

(** No field of a decision, however it was built, can put a line break, an
    escape sequence or any other control character into the six lines shown for
    it: each is one line of plain bytes.  The status of the publisher is the one
    exception ([publisher_status_unsanitized]), and has to be plain itself, as the
    five statuses are. *)
Theorem human_lines_plain r :
  str_forall plain_byte (p_Status (d_Publisher r)) = true →
  length (HumanLines r) = 6 ∧
  ∀ line, line ∈ HumanLines r → str_forall plain_byte line = true.
Proof.
  intros Hst. split; [done|].
  assert (∀ v f l, str_forall plain_byte f = true →
    str_forall plain_byte (presentationText v f l) = true) as Ht.
  { intros v f l Hf. unfold presentationText. case_if; [done|]. apply sanitize_spec. }
  assert (∀ l, (∀ s, s ∈ l → str_forall plain_byte s = true) →
    str_forall plain_byte (concat_strings l) = true) as Hc.
  { induction l as [|s l IH]; intros Hl; [done|]. cbn [concat_strings foldr].
    rewrite str_forall_app, Hl by apply list_elem_of_here. apply IH. intros x Hx. apply Hl. by right. }
  intros line (parts & -> & Hin)%list_elem_of_fmap. apply Hc. intros s Hs.
  repeat (apply elem_of_cons in Hin as [->|Hin];
    [repeat (apply elem_of_cons in Hs as [->|Hs];
       [first [reflexivity | apply Ht; first [exact Hst | reflexivity]]|]); by apply elem_of_nil in Hs|]).
  by apply elem_of_nil in Hin.
Qed.

Definition decision_example (operation status authorization policy confirmation action : string)
    (code : Z) : Result :=
  mkDecisionResult 1 "cpak" operation ContextGraphical SourceEvaluated
    (mkSubject "github.com/o/r" "" 3) (mkVerification "verified" "sigstore-bundle-v1" "ok" "")
    (mkPublisher status "id" "Example" authorization "ok")
    (mkTrustPart "trusted-public" "" "current" "good" "ok")
    (mkReputationPart "" "not-consulted" "not-applicable" "" "" "ok")
    (mkPolicyPart "required" "off" policy confirmation false "ok")
    (mkFinal action (if (code =? 0)%Z then "allowed" else "denied") "ok" code).

Lemma human_lines_plain_witness :
  ∀ line, line ∈ HumanLines (decision_example "install" PublisherVerified "authorized" "allow"
    ConfirmationNotRequired "allow" 0) → str_forall plain_byte line = true.
Proof.
  apply (human_lines_plain (decision_example "install" PublisherVerified "authorized" "allow"
    ConfirmationNotRequired "allow" 0)). vm_compute. reflexivity.
Defined.

(** [HumanLines] falls back to the status of the publisher as it stands when there
    is no display name: a result that was not validated can break the line. *)
Theorem publisher_status_unsanitized :
  ∃ r line, line ∈ HumanLines r ∧ str_forall plain_byte line = false.
Proof.
  set (r := mkDecisionResult 1 "cpak" "install" ContextGraphical SourceEvaluated
    (mkSubject "github.com/o/r" "" 3) (mkVerification "verified" "none" "ok" "")
    (mkPublisher (String "010" "Application trust: allow") "" "" "authorized" "ok")
    (mkTrustPart "trusted-public" "" "current" "good" "ok")
    (mkReputationPart "" "not-consulted" "not-applicable" "" "" "ok")
    (mkPolicyPart "required" "off" "allow" "not-required" false "ok")
    (mkFinal "allow" "allowed" "ok" 0)).
  exists r, (nth 1 (HumanLines r) ""). split; [|vm_compute; reflexivity].
  apply list_elem_of_further, list_elem_of_here.
Qed.

(** ** Resolution *)

(** Reduce the comparisons of a goal with the constants of the code. *)
Ltac same_cases :=
  unfold same, oneOf in *; simpl existsb in *;
  repeat match goal with
  | H : context [bool_decide (?a = ?b)] |- _ => destruct (bool_decide_reflect (a = b)); subst
  | |- context [bool_decide (?a = ?b)] => destruct (bool_decide_reflect (a = b)); subst
  end.

Lemma final_mapping_valid action reason class code :
  finalMapping action = Some (class, code) → matches namePattern reason = true →
  validate_final (finalFor action reason) = Ok tt ∧ f_Action (finalFor action reason) = action ∧
  f_ExitCode (finalFor action reason) = code.
Proof.
  intros Hm Hr. unfold finalFor. rewrite Hm. split_and!; [|done..].
  unfold validate_final, reasonCode. cbn [f_ReasonCode f_Action f_Class f_ExitCode].
  rewrite Hr, Hm. cbn [check_that mbind result_bind]. apply refuse_if_ok.
  unfold same. by rewrite bool_decide_eq_true_2, Z.eqb_refl.
Qed.

(** The outcome of a resolution, by the policy action and the answer. *)
Inductive resolves : string → string → Z → string → string → string → string → Prop :=
  | resolve_allow context reason :
      resolves PolicyAllow context NoConfirmation reason ConfirmationNotRequired FinalAllow reason
  | resolve_deny context reason :
      resolves PolicyDeny context NoConfirmation reason ConfirmationNotRequired FinalDeny reason
  | resolve_unattended reason :
      resolves PolicyWarn ContextNonInteractive NoConfirmation reason ConfirmationNotAvailable
        FinalConfirmationRequired "confirmation-required"
  | resolve_ask context reason : context ≠ ContextNonInteractive →
      resolves PolicyWarn context NoConfirmation reason ConfirmationRequired
        FinalConfirmationRequired "confirmation-required"
  | resolve_confirmed context reason : context ≠ ContextNonInteractive →
      resolves PolicyWarn context Confirm reason ConfirmationAccepted FinalWarn reason
  | resolve_declined context reason : context ≠ ContextNonInteractive →
      resolves PolicyWarn context Decline reason ConfirmationDeclined FinalDeny
        "confirmation-declined".

Lemma resolve_ok action context response reason confirmation final :
  ResolvePolicyAction action context response reason = Ok (confirmation, final) →
  validContext context = true ∧ matches namePattern reason = true ∧
  ∃ chosen code, final = finalFor chosen code ∧ matches namePattern code = true ∧
    resolves action context response reason confirmation chosen code.
Proof.
  unfold ResolvePolicyAction, reasonCode. rewrite !bind_unit_ok, !check_that_ok.
  intros (Hc & Hr & H). split_and!; [done..|].
  assert (matches namePattern "confirmation-required" = true) by (vm_compute; reflexivity).
  assert (matches namePattern "confirmation-declined" = true) by (vm_compute; reflexivity).
  unfold same in H. repeat case_bool_decide; subst; rewrite ?bind_unit_ok, ?refuse_if_ok in H.
  - destruct H as (Hz & [= <- <-]). apply negb_false_iff, Z.eqb_eq in Hz as ->.
    eexists _, _. split_and!; [done..|]. constructor.
  - destruct H as (Hz & [= <- <-]). apply negb_false_iff, Z.eqb_eq in Hz as ->.
    eexists _, _. split_and!; [done..|]. constructor.
  - destruct H as (Hz & [= <- <-]). apply negb_false_iff, Z.eqb_eq in Hz as ->.
    eexists _, _. split_and!; [done..|]. constructor.
  - destruct (Z.eqb_spec response NoConfirmation) as [->|_];
      [|destruct (Z.eqb_spec response Confirm) as [->|_];
        [|destruct (Z.eqb_spec response Decline) as [->|_]; [|done]]]; injection H as <- <-;
      (eexists _, _; split_and!; [done..|]; by constructor).
  - done.
Qed.

Lemma resolves_agreement r action context response reason confirmation chosen code :
  resolves action context response reason confirmation chosen code →
  d_Context r = context → f_Action (d_Final r) = chosen → y_Action (d_Policy r) = action →
  y_Confirmation (d_Policy r) = confirmation → agreement r = Ok tt.
Proof.
  intros H Hc Hf Ha Hy. unfold agreement. rewrite Hc, Hf, Ha, Hy.
  destruct H; try reflexivity. unfold same. by rewrite (bool_decide_eq_false_2 (context = _)).
Qed.

Lemma resolves_policy p action context response reason confirmation chosen code :
  resolves action context response reason confirmation chosen code →
  y_Action p = action → y_Confirmation p = confirmation →
  oneOf (y_SignatureMode p) ["optional"; "required"; "not-applicable"] = true →
  oneOf (y_ReputationMode p) ["off"; "audit"; "warn"; "require-established";
    "not-applicable"] = true →
  reasonCode (y_ReasonCode p) = Ok tt → validate_policy p context SourceEvaluated = Ok tt.
Proof.
  intros H Ha Hc H1 H2 H3. unfold validate_policy. rewrite H1, H2, H3, Ha, Hc.
  destruct H; try reflexivity; unfold same at 3; unfold same at 4;
    by rewrite ?(bool_decide_eq_false_2 (context = ContextNonInteractive)).
Qed.

Lemma resolves_mapping action context response reason confirmation chosen code :
  resolves action context response reason confirmation chosen code →
  ∃ class exit, finalMapping chosen = Some (class, exit) ∧
    (exit = ExitAllowed ↔ action = PolicyAllow ∨
      action = PolicyWarn ∧ context ≠ ContextNonInteractive ∧ response = Confirm).
Proof.
  destruct 1; (eexists _, _; split; [reflexivity|]); unfold PolicyAllow, PolicyWarn, PolicyDeny,
    ExitAllowed, Confirm, NoConfirmation, Decline; intuition (try discriminate).
Qed.

(** A policy action and a prompt's answer resolve to a decision that
    [Result.Validate] accepts as far as policy, final action and their agreement
    go, except where a verified publisher may not speak for the origin.  The
    decision lets the application through exactly when the policy allows it, or
    warns and an interactive prompt was confirmed. *)
Theorem resolved_decision_valid action context response reason confirmation final r :
  ResolvePolicyAction action context response reason = Ok (confirmation, final) →
  d_Context r = context → d_Final r = final → y_Action (d_Policy r) = action →
  y_Confirmation (d_Policy r) = confirmation →
  validate_final final = Ok tt ∧
  (oneOf (y_SignatureMode (d_Policy r)) ["optional"; "required"; "not-applicable"] = true →
   oneOf (y_ReputationMode (d_Policy r)) ["off"; "audit"; "warn"; "require-established";
     "not-applicable"] = true →
   reasonCode (y_ReasonCode (d_Policy r)) = Ok tt →
   validate_policy (d_Policy r) context SourceEvaluated = Ok tt) ∧
  (validateResolution r = Ok tt ∨ validateResolution r = Err EForeignPublisher ∧
    p_OriginAuthorization (d_Publisher r) ≠ "authorized") ∧
  (f_ExitCode final = ExitAllowed ↔ action = PolicyAllow ∨
    action = PolicyWarn ∧ context ≠ ContextNonInteractive ∧ response = Confirm).
Proof.
  intros (_ & _ & chosen & code & -> & Hcode & H)%resolve_ok Hc Hf Ha Hy.
  destruct (resolves_mapping _ _ _ _ _ _ _ H) as (class & exit & Hm & Hexit).
  destruct (final_mapping_valid chosen code class exit Hm Hcode) as (Hv & Hact & Hx).
  rewrite <-Hf in Hact. split_and!.
  - done.
  - by eapply resolves_policy.
  - unfold validateResolution. rewrite (resolves_agreement r _ _ _ _ _ _ _ H) by done.
    cbn [mbind result_bind]. destruct (foreign_publisher r) eqn:E; [right|by left].
    split; [done|]. unfold foreign_publisher, same in E. bools_in E. tauto.
  - by rewrite Hx.
Qed.

Lemma resolved_decision_valid_witness :
  f_ExitCode (finalFor FinalWarn "vetted") = ExitAllowed.
Proof.
  apply (resolved_decision_valid PolicyWarn ContextGraphical Confirm "vetted" ConfirmationAccepted
    (finalFor FinalWarn "vetted")
    (mkDecisionResult 1 "cpak" "install" ContextGraphical SourceEvaluated
      (mkSubject "github.com/o/r" "" 3) (mkVerification "verified" "sigstore-bundle-v1" "ok" "")
      (mkPublisher PublisherVerified "id" "" "authorized" "ok")
      (mkTrustPart "trusted-public" "" "current" "good" "ok")
      (mkReputationPart "" "not-consulted" "not-applicable" "" "" "ok")
      (mkPolicyPart "required" "warn" PolicyWarn ConfirmationAccepted false "ok")
      (finalFor FinalWarn "vetted"))); try reflexivity.
  right. split; [reflexivity|]. split; [discriminate|reflexivity].
Defined.

(** A result [Validate] accepts lets an application through (exit code 0)
    only when the policy allowed it or was not evaluated, or when it warned and a
    prompt was accepted, by an interactive invocation or in the recorded
    decision; and, beyond mere verification, never for a verified publisher that
    may not speak for the origin. *)
Theorem validated_result_earned r :
  Validate r = Ok tt → f_ExitCode (d_Final r) = ExitAllowed →
  ((y_Action (d_Policy r) = PolicyAllow ∨ y_Action (d_Policy r) = PolicyNotEvaluated) ∨
   y_Action (d_Policy r) = PolicyWarn ∧ y_Confirmation (d_Policy r) = ConfirmationAccepted ∧
   (d_Context r ≠ ContextNonInteractive ∨ d_Source r = SourceRecorded)) ∧
  (d_Operation r ≠ OperationVerify → p_Status (d_Publisher r) = PublisherVerified →
   p_OriginAuthorization (d_Publisher r) = "authorized").
Proof.
  unfold Validate. rewrite !bind_unit_ok. intros (_ & _ & _ & _ & _ & _ & _ & _ & _ & _ & _ & Hf & Hr) Hx.
  unfold validateResolution in Hr. rewrite bind_unit_ok, refuse_if_ok in Hr.
  destruct Hr as [Hagree Hforeign].
  unfold validate_final in Hf. rewrite bind_unit_ok in Hf. destruct Hf as [_ Hf].
  assert (f_Action (d_Final r) = FinalAllow ∨ f_Action (d_Final r) = FinalWarn) as Hact.
  { destruct (finalMapping _) as [[class code]|] eqn:E; [|done].
    apply refuse_if_ok in Hf. bools_in Hf. destruct Hf as [_ Hcode]. rewrite Hx in Hcode. subst code.
    unfold finalMapping, same in E. repeat case_bool_decide; simplify_eq/=; auto. }
  split.
  - unfold agreement in Hagree. destruct Hact as [E|E]; rewrite E in Hagree; cbn in Hagree.
    + apply refuse_if_ok in Hagree. unfold same in Hagree. bools_in Hagree. left. tauto.
    + apply refuse_if_ok in Hagree. unfold same in Hagree. bools_in Hagree. right.
      destruct Hagree as [[? ?] ?]. split_and!; [done|done|tauto].
  - intros Hop Hst. unfold foreign_publisher, same in Hforeign. rewrite Hst in Hforeign.
    destruct Hact as [E|E]; rewrite E in Hforeign; rewrite (bool_decide_eq_false_2 _ Hop) in Hforeign;
      bools_in Hforeign; simpl in Hforeign; intuition congruence.
Qed.

Lemma validated_result_earned_witness :
  p_OriginAuthorization (d_Publisher (decision_example "install" PublisherVerified "authorized"
    PolicyAllow ConfirmationNotRequired FinalAllow 0)) = "authorized".
Proof.
  apply (validated_result_earned (decision_example "install" PublisherVerified "authorized"
    PolicyAllow ConfirmationNotRequired FinalAllow 0)); [vm_compute; reflexivity|reflexivity| |reflexivity].
  discriminate.
Defined.
