(* ===== verification/BusAuth.v ===== *)
(** * Authentication on the desktop bus ([pkg/desktopbus/wire.go])

    The SASL exchange the proxy offers its client and the one it performs with
    the real bus.  A line the peer sends is one step of the server; the replies
    are what it writes. *)
From Stdlib Require Import Ascii.
From stdpp Require Import base strings list pretty numbers.
From S2P Require Import Prelude.
From S2P Require Import GoStrings.
From S2P Require Import Regex.
From S2P Require Import Utf8.
From S2P Require Import Hex.
From S2P Require Import Json.
From stdpp Require Import options.

Inductive auth_error : Type :=
  | DeniedCaller | NoNullByte | EmptyCommand | InvalidIdentity | InvalidData
  | NegotiationTooEarly | BeginTooEarly | LineTooLong | EndOfInput | UpstreamRejected
  | InvalidNegotiation.

(** ** Lines *)
Definition lineLimit : nat := 4096.

(** The loop of [readAuthLine]: [buffer] holds what was read, most recent byte
    first, and [last] the byte before; at most [fuel] more bytes are read. *)
Fixpoint read_line_loop (fuel : nat) (buffer : list ascii) (last : ascii) (input : string) :
    result auth_error (string * string) :=
  match fuel with
  | 0 => Err LineTooLong
  | S fuel =>
      match input with
      | "" => Err EndOfInput
      | String current input =>
          let buffer := current :: buffer in
          if bool_decide (last = "013"%char) && bool_decide (current = "010"%char)
          then Ok (String.string_of_list_ascii (reverse (drop 2 buffer)), input)
          else read_line_loop fuel buffer current input
      end
  end.
Definition readAuthLine (input : string) : result auth_error (string * string) :=
  read_line_loop lineLimit [] "000"%char input.

Definition crlf : string := String "013" (String "010" "").
Definition auth_line (line : string) : string := line +:+ crlf.

(** ** [strings.Fields] *)
Fixpoint fields_loop (current : string) (l : list (N * string)) : list string :=
  let flush rest := if bool_decide (current = "") then rest else current :: rest in
  match l with
  | [] => flush []
  | x :: l => if is_space x.1 then flush (fields_loop "" l) else fields_loop (current +:+ x.2) l
  end.
Definition fields (line : string) : list string := fields_loop "" (runes line).

(** ** Identities *)
Definition externalIdentityMatches (encoded : string) (uid : N) : bool :=
  match hex_decode encoded with
  | Some identity => bool_decide (identity = pretty uid)
  | None => false
  end.

(** ** The server *)
Record auth_state : Type := mkAuth { authorized : bool; waitingForIdentity : bool }.

(** What one command does: go on, with a reply; begin the session; or fail. *)
Inductive auth_outcome : Type :=
  | Continue (st : auth_state) (reply : string)
  | Begin
  | Fail (e : auth_error).

Definition rejected : string := "REJECTED EXTERNAL".

Section Server.
Context (uid : N) (guid : string).

Definition accept (st : auth_state) (granted : bool) : auth_outcome :=
  let st := mkAuth granted (waitingForIdentity st) in
  if granted then Continue st ("OK " +:+ guid) else Continue st rejected.

Definition auth_step (st : auth_state) (line : string) : auth_outcome :=
  let parts := fields line in
  match parts with
  | [] => Fail EmptyCommand
  | command :: arguments =>
      if bool_decide (command = "AUTH") then
        match arguments with
        | [] => Continue st rejected
        | mechanism :: arguments =>
            if negb (bool_decide (mechanism = "EXTERNAL")) then Continue st rejected
            else match arguments with
            | [] => Continue (mkAuth false true) "DATA"
            | [identity] => accept st (externalIdentityMatches identity uid)
            | _ => Fail InvalidIdentity
            end
        end
      else if bool_decide (command = "DATA") then
        if negb (waitingForIdentity st) || (2 <? length parts) then Fail InvalidData
        else accept (mkAuth (authorized st) false)
          (match arguments with identity :: _ => externalIdentityMatches identity uid | [] => true end)
      else if bool_decide (command = "NEGOTIATE_UNIX_FD") then
        if negb (authorized st) then Fail NegotiationTooEarly
        else Continue st "AGREE_UNIX_FD"
      else if bool_decide (command = "BEGIN") then
        if negb (authorized st) then Fail BeginTooEarly else Begin
      else if bool_decide (command = "CANCEL") then Continue (mkAuth false false) rejected
      else Continue st "ERROR Unsupported authentication command"
  end.

(** The loop over the lines of the input, each at least two bytes long. *)
Fixpoint auth_loop (fuel : nat) (st : auth_state) (input : string) (replies : list string) :
    result auth_error string * list string :=
  match fuel with
  | 0 => (Err EndOfInput, replies)
  | S fuel =>
      match readAuthLine input with
      | Err e => (Err e, replies)
      | Ok (line, rest) =>
          match auth_step st line with
          | Continue st reply => auth_loop fuel st rest (replies ++ [reply])
          | Begin => (Ok rest, replies)
          | Fail e => (Err e, replies)
          end
      end
  end.

(** [authenticateClient]: the input left for the session, and the replies. *)
Definition authenticateClient (peer_uid : N) (input : string) :
    result auth_error string * list string :=
  if negb (peer_uid =? uid)%N then (Err DeniedCaller, [])
  else match input with
  | "" => (Err EndOfInput, [])
  | String first input =>
      if negb (bool_decide (first = "000"%char)) then (Err NoNullByte, [])
      else auth_loop (S (slen input)) (mkAuth false false) input []
  end.
End Server.

(** ** The client ([authenticateUpstream]): the lines it writes, in the order of
    the lines the bus answers with. *)
Definition authenticateUpstream (euid : N) (answers : list string) :
    result auth_error () * list string :=
  let auth := "AUTH EXTERNAL " +:+ hex_encode (pretty euid) in
  match answers with
  | [] => (Err EndOfInput, [auth])
  | first :: answers =>
      if negb (has_prefix "OK " first) then (Err UpstreamRejected, [auth])
      else match answers with
      | [] => (Err EndOfInput, [auth; "NEGOTIATE_UNIX_FD"])
      | second :: _ =>
          if negb (bool_decide (second = "AGREE_UNIX_FD")) && negb (has_prefix "ERROR" second)
          then (Err InvalidNegotiation, [auth; "NEGOTIATE_UNIX_FD"])
          else (Ok (), [auth; "NEGOTIATE_UNIX_FD"; "BEGIN"])
      end
  end.

(** ** Lines can be read back *)

(** The line holds no carriage return, so its end is where it is written. *)
Definition no_cr (line : string) : bool := negb (has_byte "013" line).

Lemma read_loop_plain fuel buffer last line rest :
  no_cr line = true → last ≠ "013"%char → slen line + 2 ≤ fuel →
  read_line_loop fuel buffer last (line +:+ crlf +:+ rest) =
    Ok (String.string_of_list_ascii (reverse buffer ++ String.list_ascii_of_string line), rest).
Proof.
  revert fuel buffer last. induction line as [|a line IH]; intros fuel buffer last Hn Hl Hf.
  - destruct fuel as [|[|fuel]]; [simpl in Hf; lia..|].
    cbn [read_line_loop String.append crlf].
    rewrite (bool_decide_eq_false_2 (last = _)) by done. cbn [andb].
    rewrite (bool_decide_eq_true_2 ("013"%char = _)) by done. cbn [andb].
    rewrite (bool_decide_eq_true_2 ("010"%char = _)) by done. simpl drop.
    by rewrite app_nil_r.
  - destruct fuel as [|fuel]; [simpl in Hf; lia|].
    unfold no_cr in Hn. rewrite has_byte_cons in Hn. apply negb_true_iff, orb_false_iff in Hn as [Ha Hn].
    cbn [read_line_loop String.append].
    rewrite (bool_decide_eq_false_2 (last = _)) by done. cbn [andb].
    rewrite IH; [|by apply negb_true_iff|by bools_in Ha|rewrite slen_cons in Hf; lia].
    rewrite reverse_cons, <-app_assoc. done.
Qed.

Lemma read_auth_line line rest :
  no_cr line = true → slen line + 2 ≤ lineLimit → readAuthLine (auth_line line +:+ rest) = Ok (line, rest).
Proof.
  intros Hn Hl. unfold readAuthLine, auth_line. rewrite app_assoc_str, read_loop_plain by done.
  change (reverse [] ++ ?l) with l. by rewrite String.string_of_list_ascii_of_string.
Qed.

(** ** Words *)
Definition word_byte (c : ascii) : bool := ascii_byte c && negb (is_space (byte c)).

Lemma runes_low c s : ascii_byte c = true → runes (String c s) = (byte c, String c "") :: runes s.
Proof.
  intros Hc. pose proof (runes_cons c s) as Hr. rewrite decode_low in Hr by done. exact Hr.
Qed.

Lemma fields_loop_word s current t :
  str_forall word_byte s = true →
  fields_loop current (runes (s +:+ t)) = fields_loop (current +:+ s) (runes t).
Proof.
  revert current. induction s as [|c s IH]; intros current Hs.
  - by rewrite app_nil_str.
  - cbn [str_forall] in Hs. unfold word_byte in Hs at 1. bools_in Hs. destruct Hs as [[Ha Hsp] Hs].
    change (String c s +:+ t) with (String c (s +:+ t)). rewrite runes_low by done.
    cbn [fields_loop fst snd]. rewrite Hsp, IH by done. by rewrite app_assoc_str.
Qed.

Lemma fields_word s t :
  str_forall word_byte s = true → s ≠ "" → fields (s +:+ " " +:+ t) = s :: fields t.
Proof.
  intros Hs Hne. unfold fields. rewrite fields_loop_word by done.
  change (" " +:+ t) with (String " " t). rewrite runes_low by done.
  change (("" +:+ s)) with s. cbn [fields_loop fst]. change (is_space (byte " ")) with true.
  cbv iota. by rewrite bool_decide_eq_false_2.
Qed.

Lemma fields_last s : str_forall word_byte s = true → s ≠ "" → fields s = [s].
Proof.
  intros Hs Hne. unfold fields. rewrite <-(app_nil_str s) at 1. rewrite fields_loop_word by done.
  change (runes "") with (@nil (N * string)). change ("" +:+ s) with s. cbn [fields_loop].
  by rewrite bool_decide_eq_false_2.
Qed.

Lemma hex_digit_word n : (n < 16)%N → word_byte (hex_digit n) = true.
Proof. apply (nibbles (λ n, word_byte (hex_digit n) = true)). repeat constructor. Qed.

Lemma hex_encode_word s : str_forall word_byte (hex_encode s) = true.
Proof.
  induction s as [|a s IH]; [done|]. cbn [hex_encode str_forall].
  by rewrite !hex_digit_word, IH.
Qed.

Lemma word_no_cr s : str_forall word_byte s = true → no_cr s = true.
Proof.
  intros Hs. unfold no_cr, has_byte, str_exists. rewrite negb_involutive.
  eapply str_forall_impl; [|exact Hs]. by_bytes.
Qed.

(** ** What a line does to the session *)

(** Whether the word [x] of a line is [w]. *)
Ltac word_case x w :=
  destruct (decide (x = w)) as [->|];
    [rewrite bool_decide_eq_true_2 by done|rewrite (bool_decide_eq_false_2 (x = w)) by done].

Section Session.
Context (uid : N) (guid : string).

(** The lines read while the session goes on, and the replies they get. *)
Inductive session : auth_state → list string → list string → auth_state → Prop :=
  | session_start st : session st [] [] st
  | session_line st line reply st1 lines replies st2 :
      auth_step uid guid st line = Continue st1 reply →
      session st1 lines replies st2 →
      session st (line :: lines) (reply :: replies) st2.

(** A line that proves the identity, given whether one was asked for. *)
Definition grants (asked : bool) (line : string) : Prop :=
  (∃ identity, fields line = ["AUTH"; "EXTERNAL"; identity] ∧
    hex_decode identity = Some (pretty uid)) ∨
  asked = true ∧
    (fields line = ["DATA"] ∨
     ∃ identity, fields line = ["DATA"; identity] ∧ hex_decode identity = Some (pretty uid)).

Definition asks (line : string) : bool := bool_decide (fields line = ["AUTH"; "EXTERNAL"]).
Definition cancels (line : string) : bool := bool_decide (head (fields line) = Some "CANCEL").

Lemma identity_matches identity :
  externalIdentityMatches identity uid = true ↔ hex_decode identity = Some (pretty uid).
Proof.
  unfold externalIdentityMatches. destruct (hex_decode identity); [rewrite bool_decide_eq_true|];
    naive_solver.
Qed.

(** Authorization is proved by the line or was there and is not given up. *)
Lemma auth_step_authorized st line st' reply :
  auth_step uid guid st line = Continue st' reply → authorized st' = true →
  grants (waitingForIdentity st) line ∨
    authorized st = true ∧ cancels line = false ∧ asks line = false.
Proof.
  unfold auth_step, grants, cancels, asks, accept. destruct (fields line) as [|command parts] eqn:Ef; [done|].
  word_case command "AUTH".
  { destruct parts as [|mechanism parts]; [intros [= <- _] ?; auto|].
    word_case mechanism "EXTERNAL"; cbn [negb].
    2:{ intros [= <- _] ?. right. split_and!; [done|done|]. apply bool_decide_eq_false. congruence. }
    destruct parts as [|identity [|]]; [by intros [= <- _]| |done].
    destruct (externalIdentityMatches _ _) eqn:Hid; [|by intros [= <- _]].
    apply identity_matches in Hid. intros; left; left. eauto. }
  word_case command "DATA".
  { case_match eqn:Hw; [done|]. bools_in Hw. destruct Hw as [Hw Hlen]. intros Hstep Hst'.
    left. right. split; [done|].
    destruct parts as [|identity [|]]; [auto| |simpl in Hlen; lia]. right.
    destruct (externalIdentityMatches _ _) eqn:Hid; [|by simplify_eq].
    apply identity_matches in Hid. eauto. }
  assert (bool_decide (command :: parts = ["AUTH"; "EXTERNAL"]) = false) as ->.
  { apply bool_decide_eq_false. congruence. }
  destruct (decide (command = "CANCEL")) as [->|Hc].
  { cbn. by intros [= <- _]. }
  rewrite (bool_decide_eq_false_2 (command = "CANCEL")) by done.
  rewrite (bool_decide_eq_false_2 (head _ = _)) by (cbn; congruence).
  repeat case_match; intros; simplify_eq; auto.
Qed.

(** An identity is waited for only after it was asked for. *)
Lemma auth_step_waiting st line st' reply :
  auth_step uid guid st line = Continue st' reply → waitingForIdentity st' = true →
  waitingForIdentity st = true ∨ asks line = true.
Proof.
  unfold auth_step, accept, asks. destruct (fields line) as [|command parts]; [done|].
  repeat case_match; intros; simplify_eq/=; auto; bools_all; right; naive_solver.
Qed.

Lemma session_authorized st lines replies st' :
  session st lines replies st' → authorized st' = true →
  (authorized st = true ∧ Forall (λ line, cancels line = false ∧ asks line = false) lines) ∨
  ∃ pre line post, lines = pre ++ line :: post ∧
    grants (waitingForIdentity st || existsb asks pre) line ∧
    Forall (λ line, cancels line = false ∧ asks line = false) post.
Proof.
  induction 1 as [st|st line reply st1 lines replies st2 Hstep _ IH]; intros Hst; [auto|].
  destruct (IH Hst) as [[Hst1 Hlines]|(pre & by_line & post & -> & Hg & Hpost)].
  - destruct (auth_step_authorized _ _ _ _ Hstep Hst1) as [Hg|(? & ? & ?)]; [right|left; auto].
    exists [], line, lines. rewrite orb_false_r. auto.
  - right. exists (line :: pre), by_line, post. split_and!; [done| |done].
    destruct Hg as [Hg|[Hw Hg]]; [by left|right; split; [|done]].
    cbn [existsb]. apply orb_true_iff in Hw as [Hw|Hw]; [|by rewrite Hw, !orb_true_r].
    destruct (auth_step_waiting _ _ _ _ Hstep Hw) as [->| ->]; [done|by rewrite !orb_true_r].
Qed.

(** ** The loop is a session followed by [BEGIN] *)
Definition transcript (lines : list string) : string := concat_strings (auth_line <$> lines).

Lemma transcript_cons line lines rest :
  transcript (line :: lines) +:+ rest = auth_line line +:+ (transcript lines +:+ rest).
Proof. apply app_assoc_str. Qed.
Lemma transcript_nil rest : transcript [] +:+ rest = rest.
Proof. done. Qed.

Lemma read_loop_split fuel buffer last input line rest :
  (∀ c l, buffer = c :: l → c = last) → (buffer = [] → last = "000"%char) →
  read_line_loop fuel buffer last input = Ok (line, rest) →
  String.string_of_list_ascii (reverse buffer) +:+ input = auth_line line +:+ rest ∧
    slen rest < slen input.
Proof.
  revert buffer last input. induction fuel as [|fuel IH]; intros buffer last input Hb Hz; [done|].
  destruct input as [|c input]; [done|]. cbn [read_line_loop]. rewrite slen_cons.
  assert (∀ a l t, String.string_of_list_ascii (reverse (a :: l)) +:+ t =
    String.string_of_list_ascii (reverse l) +:+ String a t) as Hsnoc.
  { intros a l t. rewrite reverse_cons. induction (reverse l); simpl; congruence. }
  case_if; [|intros Hr; apply IH in Hr as [<- ?]; [|naive_solver..]; rewrite Hsnoc; split; [done|lia]].
  bools_all. destruct_and!. subst. intros [= <- <-].
  destruct buffer as [|c buffer]; [by specialize (Hz eq_refl)|]. rewrite (Hb _ _ eq_refl). 
  split; [|lia]. unfold auth_line. rewrite app_assoc_str. apply Hsnoc.
Qed.

Lemma read_line_split input line rest :
  readAuthLine input = Ok (line, rest) → input = auth_line line +:+ rest ∧ slen rest < slen input.
Proof. intros Hr. by apply read_loop_split in Hr. Qed.

Lemma auth_loop_session fuel st input replies rest replies' :
  auth_loop uid guid fuel st input replies = (Ok rest, replies') →
  ∃ lines last answers st',
    input = transcript lines +:+ auth_line last +:+ rest ∧
    session st lines answers st' ∧ replies' = replies ++ answers ∧
    auth_step uid guid st' last = Begin.
Proof.
  revert st input replies. induction fuel as [|fuel IH]; intros st input replies; [done|].
  cbn [auth_loop]. destruct (readAuthLine input) as [[line rest']|] eqn:Hr; [|done].
  apply read_line_split in Hr as [-> _].
  destruct (auth_step uid guid st line) as [st1 reply| |] eqn:Hs; [|intros; simplify_eq|done].
  - intros (lines & last & answers & st' & -> & ? & -> & ?)%IH.
    exists (line :: lines), last, (reply :: answers), st'. rewrite <-app_assoc. split_and!; [|by econstructor|done..].
    cbn. by rewrite !app_assoc_str.
  - exists [], line, [], st. rewrite app_nil_r. split_and!; [done|constructor|done..].
Qed.

(** The fuel of [auth_loop] never runs out. *)
Lemma auth_loop_fuel fuel fuel' st input replies :
  slen input < fuel → slen input < fuel' →
  auth_loop uid guid fuel st input replies = auth_loop uid guid fuel' st input replies.
Proof.
  revert fuel' st input replies. induction fuel as [|fuel IH]; intros [|fuel'] st input replies ??; [lia..|].
  cbn [auth_loop]. destruct (readAuthLine input) as [[line rest']|] eqn:Hr; [|done].
  apply read_line_split in Hr as [-> Hlen]. case_match; [apply IH; lia|done..].
Qed.

Lemma auth_loop_line fuel st line input replies st1 reply :
  no_cr line = true → slen line + 2 ≤ lineLimit → slen (auth_line line +:+ input) < fuel →
  auth_step uid guid st line = Continue st1 reply →
  auth_loop uid guid fuel st (auth_line line +:+ input) replies =
    auth_loop uid guid (S (slen input)) st1 input (replies ++ [reply]).
Proof.
  intros Hn Hl Hf Hs. destruct fuel as [|fuel]; [lia|]. cbn [auth_loop].
  rewrite read_auth_line, Hs by done. unfold auth_line in Hf. rewrite !slen_app in Hf.
  change (slen crlf) with 2 in Hf. rewrite (auth_loop_fuel fuel (S (slen input))) by lia. done.
Qed.
End Session.

Lemma pretty_go_length k n s :
  (n < 10 ^ N.of_nat k)%N → slen (pretty_N_go n s) ≤ k + slen s.
Proof.
  revert n s. induction k as [|k IH]; intros n s Hn.
  - assert (n = 0)%N as -> by (simpl in Hn; lia). by rewrite pretty_N_go_0.
  - destruct (decide (n = 0)%N) as [->|]; [rewrite pretty_N_go_0; lia|].
    rewrite pretty_N_go_step by lia. etrans; [apply IH|rewrite slen_cons; lia].
    apply N.Div0.div_lt_upper_bound. rewrite Nat2N.inj_succ, N.pow_succ_r' in Hn. lia.
Qed.

Lemma pretty_length k n : (n < 10 ^ N.of_nat (S k))%N → slen (pretty n) ≤ S k.
Proof.
  intros Hn. unfold pretty, pretty_N. case_decide; [cbn; lia|].
  etrans; [by apply pretty_go_length|]. cbn. lia.
Qed.

Lemma hex_encode_length s : slen (hex_encode s) = 2 * slen s.
Proof. induction s as [|a s IH]; [done|]. cbn [hex_encode]. rewrite !slen_cons, IH. lia. Qed.

(** ** Properties *)

Lemma begin_authorized uid guid st line :
  auth_step uid guid st line = Begin → authorized st = true ∧ head (fields line) = Some "BEGIN".
Proof.
  unfold auth_step, accept. destruct (fields line); [done|].
  repeat case_match; intros; simplify_eq/=; bools_all; subst; auto.
Qed.

Lemma session_replies uid guid st lines replies st' :
  session uid guid st lines replies st' → length replies = length lines.
Proof. induction 1; simpl; congruence. Qed.

(** C31: A client the proxy lets through is the user the proxy runs as: the
    socket's credentials say so, the bytes it sent are a null byte followed by
    lines of which one proves the identity - by naming the user, or with [DATA]
    after the proxy asked for it - no later one cancels it or asks again, and
    the last is [BEGIN]; what follows that line is left for the session. *)
Theorem auth_sound uid guid peer input rest replies :
  authenticateClient uid guid peer input = (Ok rest, replies) →
  peer = uid ∧ ∃ pre line post last,
    input = nul +:+ transcript (pre ++ line :: post) +:+ auth_line last +:+ rest ∧
    grants uid (existsb asks pre) line ∧
    Forall (λ line, cancels line = false ∧ asks line = false) post ∧
    head (fields last) = Some "BEGIN" ∧
    length replies = length (pre ++ line :: post).
Proof.
  unfold authenticateClient. case_if; [done|]. bools_all. subst.
  destruct input as [|first input]; [done|]. case_if; [done|]. bools_all. subst. intros Hl.
  split; [done|]. apply auth_loop_session in Hl as (lines & last & answers & st & -> & Hs & -> & Hb).
  apply begin_authorized in Hb as [Hst Hlast].
  pose proof (session_replies _ _ _ _ _ _ Hs) as Hlen.
  destruct (session_authorized _ _ _ _ _ _ Hs Hst) as [[? _]|(pre & line & post & -> & Hg & Hpost)]; [done|].
  exists pre, line, post, last. split_and!; done.
Qed.

Lemma auth_sound_witness :
  authenticateClient 1000 "guid" 1000
    (nul +:+ transcript ["AUTH EXTERNAL"; "DATA"; "BEGIN"] +:+ "l") =
    (Ok "l", ["DATA"; "OK guid"]) ∧ (1000 = 1000)%N.
Proof.
  assert (authenticateClient 1000 "guid" 1000
    (nul +:+ transcript ["AUTH EXTERNAL"; "DATA"; "BEGIN"] +:+ "l") =
    (Ok "l", ["DATA"; "OK guid"])) as H by (vm_compute; reflexivity).
  split; [exact H|exact (proj1 (auth_sound _ _ _ _ _ _ H))].
Defined.

Lemma fields_auth_external identity :
  str_forall word_byte identity = true → identity ≠ "" →
  fields ("AUTH EXTERNAL " +:+ identity) = ["AUTH"; "EXTERNAL"; identity].
Proof.
  intros Hi Hne. change ("AUTH EXTERNAL " +:+ identity) with ("AUTH" +:+ " " +:+ ("EXTERNAL" +:+ " " +:+ identity)).
  rewrite !fields_word, fields_last by done. done.
Qed.

(** The proxy's client side and its server side agree: for every user
    identifier, the lines [authenticateUpstream] writes are exactly a session
    [authenticateClient] accepts from that user, the answers of the latter are
    those the former goes on with, and the bytes after the last line are left
    untouched for the first message. *)
Theorem auth_handshake uid guid rest :
  (uid < 2 ^ 32)%N →
  ∃ lines, let answers := ["OK " +:+ guid; "AGREE_UNIX_FD"] in
    authenticateUpstream uid answers = (Ok (), lines) ∧
    authenticateClient uid guid uid (nul +:+ transcript lines +:+ rest) = (Ok rest, answers).
Proof.
  intros Hu. set (identity := hex_encode (pretty uid)).
  exists ["AUTH EXTERNAL " +:+ identity; "NEGOTIATE_UNIX_FD"; "BEGIN"]. split.
  { unfold authenticateUpstream. by rewrite has_prefix_app. }
  assert (slen identity ≤ 20) as Hlen.
  { unfold identity. rewrite hex_encode_length.
    pose proof (pretty_length 9 uid) as Hd. lapply Hd; [lia|]. change (10 ^ N.of_nat 10)%N with 10000000000%N. lia. }
  assert (str_forall word_byte identity = true) as Hword by apply hex_encode_word.
  assert (identity ≠ "") as Hne.
  { unfold identity. destruct (pretty_numeric (Z.of_N uid)) as [_ Hd].
    assert (pretty (Z.of_N uid) = pretty uid) as Hz by by destruct uid. rewrite Hz in Hd.
    by destruct (pretty uid). }
  assert (no_cr ("AUTH EXTERNAL " +:+ identity) = true) as Hcr.
  { unfold no_cr. rewrite has_byte_app. exact (word_no_cr _ Hword). }
  unfold authenticateClient. rewrite N.eqb_refl. cbn [negb].
  change (nul +:+ ?s) with (String "000" s).
  cbv iota. rewrite bool_decide_eq_true_2 by done. cbn [negb]. rewrite !transcript_cons, transcript_nil.
  erewrite auth_loop_line; [|exact Hcr|rewrite slen_app; change (slen "AUTH EXTERNAL ") with 14; unfold lineLimit; lia|lia|].
  2:{ unfold auth_step. rewrite fields_auth_external by done. cbn. unfold identity, externalIdentityMatches.
      rewrite hex_round_trip, !bool_decide_eq_true_2 by done. reflexivity. }
  erewrite auth_loop_line; [|done|unfold lineLimit; cbn; lia|lia|reflexivity].
  cbn [auth_loop]. rewrite read_auth_line by (unfold lineLimit; cbn; done || lia). reflexivity.
Qed.

Lemma auth_handshake_witness :
  (1000 < 2 ^ 32)%N ∧
  ∃ lines, authenticateUpstream 1000 ["OK guid"; "AGREE_UNIX_FD"] = (Ok (), lines) ∧
    authenticateClient 1000 "guid" 1000 (nul +:+ transcript lines +:+ "rest") =
      (Ok "rest", ["OK guid"; "AGREE_UNIX_FD"]).
Proof. split; [lia|]. apply (auth_handshake 1000 "guid" "rest"). lia. Defined.

(** A client that authenticated, then asked for a mechanism the proxy does not
    offer, is told [REJECTED] and yet may begin the session. *)
Lemma rejected_yet_authorized :
  authenticateClient 1000 "guid" 1000
    (nul +:+ transcript ["AUTH EXTERNAL 31303030"; "AUTH ANONYMOUS"; "BEGIN"]) =
    (Ok "", ["OK guid"; "REJECTED EXTERNAL"]).
Proof. vm_compute. reflexivity. Qed.
