(* ===== verification/Integrity.v ===== *)
(** * The order on policies ([pkg/integrity/policy.go])

    The canonical form of a policy, which is what a policy root hashes, and the
    order [Restricts], which decides whether a change needs the owner's consent.
    The roots themselves are in [Roots.v]. *)
From Stdlib Require Import Ascii.
From stdpp Require Import base strings list gmap sorting.
From S2P Require Import Prelude.
From S2P Require Import GoStrings.
From S2P Require Import DBusPolicy.
From S2P Require Import HostActions.
From S2P Require Import Filesystem.
From S2P Require Import Override.
From stdpp Require Import options.

(** ** Canonical policies *)

(** [sorted]: the sorted copy of a slice. *)
Definition sorted (values : list string) : list string := sort_strings values.

Definition perm_le (p q : FilesystemPermission) : Prop :=
  if decide (fp_path p = fp_path q) then String.le (fp_access p) (fp_access q)
  else String.le (fp_path p) (fp_path q).
#[export] Instance perm_le_dec : RelDecision perm_le.
Proof. intros p q. unfold perm_le. case_decide; apply _. Defined.

Definition sortedPermissions (values : list FilesystemPermission) : list FilesystemPermission :=
  merge_sort perm_le values.

Definition actionKey (a : HostActionGrant) : string :=
  ha_provider a +:+ nul +:+ join "," (sorted (ha_capabilities a)).

Definition action_le (a b : HostActionGrant) : Prop := String.le (actionKey a) (actionKey b).
#[export] Instance action_le_dec : RelDecision action_le := λ a b, String.le_dec _ _.

Definition sortedActions (values : list HostActionGrant) : list HostActionGrant :=
  merge_sort action_le
    ((λ a, mkAction (ha_provider a) (sorted (ha_capabilities a))) <$> values).

Definition canonicalPolicy (o : Override) : Override :=
  with_lists o (sortedActions (HostActions o)) (CanonicalDBusPolicy (SessionBus o))
    (sortedPermissions (Filesystem o)) (FsHost o) (FsHostEtc o) (FsHostHome o)
    (sorted (FsExtra o)) (sorted (AllowedHostCommands o)).

(** ** Coverage of one grant by another *)
Definition pathCovers (held wanted : string) : bool :=
  if bool_decide (held = wanted) || bool_decide (held = "host") then true
  else has_prefix (trim_suffix "/" held +:+ "/") wanted.

Definition accessCovers (held wanted : string) : bool :=
  if bool_decide (held = wanted) then true
  else bool_decide (held = "read-write") && bool_decide (wanted = "read-only").

Definition permissionsCovered (current candidate : list FilesystemPermission) : bool :=
  forallb (λ wanted, existsb (λ held,
    pathCovers (fp_path held) (fp_path wanted) &&
    accessCovers (fp_access held) (fp_access wanted)) current) candidate.

(** The capabilities held per provider. *)
Definition held_actions (current : list HostActionGrant) : gmap string (gset string) :=
  foldl (λ held a,
    <[ha_provider a := default ∅ (held !! ha_provider a) ∪ list_to_set (ha_capabilities a)]> held)
    ∅ current.

Definition actionsCovered (current candidate : list HostActionGrant) : bool :=
  forallb (λ a,
    match held_actions current !! ha_provider a with
    | None => false
    | Some set => forallb (λ c, bool_decide (c ∈ set)) (ha_capabilities a)
    end) candidate.

Definition subset (candidate current : list string) : bool :=
  forallb (λ value, bool_decide (value ∈ (list_to_set current : gset string))) candidate.

Fixpoint equalStrings (first second : list string) : bool :=
  match first, second with
  | [], [] => true
  | x :: first, y :: second => bool_decide (x = y) && equalStrings first second
  | _, _ => false
  end.

(** ** The order on policies *)

(** The switches the code compares, candidate against current, in its order. *)
Definition switches : list (Override → bool) :=
  [SocketX11; DisplayX11; SocketWayland; SocketPulseAudio; SocketSessionBus;
   SocketSystemBus; SocketSshAgent; SocketCups; SocketGpgAgent; SocketAtSpiBus;
   SocketBluetooth; Bluetooth; DeviceDri; DeviceKvm; DeviceShm; DeviceAlsa; DeviceVideo;
   DeviceFuse; DeviceTun; DeviceUsb; DeviceSerial; DeviceInput; DeviceTTY; DeviceAll;
   Notification; OpenURI; HostApplications; Network; Process; UserNamespaces; AsRoot;
   (λ o, OpenFile (FilePicker o)); (λ o, OpenFolder (FilePicker o));
   (λ o, SaveFile (FilePicker o)); (λ o, Persistent (FilePicker o));
   (λ o, ContainingFolder (FilePicker o))].

Definition limits : list (Override → Z) := [MemoryMaxMB; CPUQuota; PidsMax].

(** A limit of zero means no limit. *)
Definition limit_widens (candidate current : Z) : bool :=
  if (current =? 0)%Z then false else (candidate =? 0)%Z || (current <? candidate)%Z.

Definition Restricts (current candidate : Override) : bool :=
  let current := WithMigratedFilesystem current in
  let candidate := WithMigratedFilesystem candidate in
  if existsb (λ get : Override → bool, get candidate && negb (get current)) switches then false
  else if existsb (λ get : Override → Z, limit_widens (get candidate) (get current)) limits
  then false
  else if negb (subset (AllowedHostCommands candidate) (AllowedHostCommands current)) then false
  else if negb (actionsCovered (HostActions current) (HostActions candidate)) then false
  else if negb (DBusPolicyRestricts (SessionBus current) (SessionBus candidate)) then false
  else if negb (permissionsCovered (Filesystem current) (Filesystem candidate)) then false
  else equalStrings (Env current) (Env candidate).

(** ** What the comparisons mean *)
Lemma slash_not_in_host x t : "host" ≠ x +:+ "/" +:+ t.
Proof.
  intros E. apply (f_equal (has_byte slash)) in E. rewrite !has_byte_app in E.
  change (has_byte slash "/") with true in E. by rewrite orb_true_r in E.
Qed.

Lemma pathCovers_iff held wanted :
  pathCovers held wanted = true ↔
    held = wanted ∨ held = "host" ∨
    ∃ t, wanted = trim_suffix "/" held +:+ "/" +:+ t.
Proof.
  unfold pathCovers. case_if; bools_all; [tauto|].
  rewrite has_prefix_iff. setoid_rewrite app_assoc_str. tauto.
Qed.

Lemma pathCovers_refl p : pathCovers p p = true.
Proof. apply pathCovers_iff. by left. Qed.

Lemma pathCovers_trans p q r :
  pathCovers p q = true → pathCovers q r = true → pathCovers p r = true.
Proof.
  rewrite !pathCovers_iff.
  intros [->|[->|(x & Hx)]] [->|[->|(y & Hy)]]; eauto.
  - by apply slash_not_in_host in Hx.
  - right; right. destruct (trim_suffix_cases "/" q) as [[Hq _]|Hq].
    + exists (x +:+ "/" +:+ y). rewrite Hy, Hq, Hx. by autorewrite with strs.
    + exists (x +:+ y). rewrite Hy, <-app_assoc_str, <-Hq, Hx. by autorewrite with strs.
Qed.

Lemma accessCovers_iff held wanted :
  accessCovers held wanted = true ↔
    held = wanted ∨ held = "read-write" ∧ wanted = "read-only".
Proof. unfold accessCovers. case_if; bools_all; naive_solver. Qed.

Lemma accessCovers_trans a b c :
  accessCovers a b = true → accessCovers b c = true → accessCovers a c = true.
Proof. rewrite !accessCovers_iff. naive_solver. Qed.

(** The paths and accesses a list of grants reaches. *)
Definition reaches (l : list FilesystemPermission) (wanted : FilesystemPermission) : Prop :=
  ∃ held, held ∈ l ∧ pathCovers (fp_path held) (fp_path wanted) = true ∧
    accessCovers (fp_access held) (fp_access wanted) = true.

Lemma permissionsCovered_iff current candidate :
  permissionsCovered current candidate = true ↔ ∀ w, w ∈ candidate → reaches current w.
Proof.
  unfold permissionsCovered, reaches. rewrite forallb_elem. setoid_rewrite existsb_elem.
  by setoid_rewrite andb_true_iff.
Qed.

Lemma reaches_self l p : p ∈ l → reaches l p.
Proof.
  intros ?. exists p. split_and!; [done|apply pathCovers_refl|]. apply accessCovers_iff. by left.
Qed.

Lemma reaches_trans l1 l2 p :
  (∀ w, w ∈ l2 → reaches l1 w) → reaches l2 p → reaches l1 p.
Proof.
  intros H (q & Hq & Hp & Ha). destruct (H q Hq) as (r & Hr & Hp' & Ha').
  exists r. eauto using pathCovers_trans, accessCovers_trans.
Qed.

Definition provides (l : list HostActionGrant) (provider : string) : Prop :=
  ∃ a, a ∈ l ∧ ha_provider a = provider.

Lemma held_actions_spec l p :
  match held_actions l !! p with
  | None => ¬ provides l p
  | Some s => provides l p ∧ ∀ c, c ∈ s ↔ holds l p c
  end.
Proof.
  unfold held_actions, provides, holds. induction l as [|a l IH] using rev_ind; simpl.
  { rewrite lookup_empty. set_solver. }
  rewrite foldl_snoc. set (m := foldl _ _ _) in *.
  destruct (decide (ha_provider a = p)) as [<-|Hne].
  - rewrite lookup_insert_eq. split; [set_solver|]. intros c.
    destruct (m !! ha_provider a) as [s|]; simpl; rewrite elem_of_union, elem_of_list_to_set.
    + destruct IH as [_ IH]. rewrite IH. set_solver.
    + set_solver.
  - rewrite lookup_insert_ne by done. destruct (m !! p) as [s|]; [|set_solver].
    destruct IH as [? IH]. split; [set_solver|]. intros c. rewrite IH. set_solver.
Qed.

Lemma actionsCovered_iff current candidate :
  actionsCovered current candidate = true ↔
    (∀ p, provides candidate p → provides current p) ∧
    (∀ p c, holds candidate p c → holds current p c).
Proof.
  unfold actionsCovered. rewrite forallb_elem. split.
  - intros H. split.
    + intros p (a & Ha & <-). specialize (H a Ha).
      pose proof (held_actions_spec current (ha_provider a)) as Hs.
      destruct (_ !! _); [by destruct Hs|done].
    + intros p c (a & Ha & <- & Hc). specialize (H a Ha).
      pose proof (held_actions_spec current (ha_provider a)) as Hs.
      destruct (_ !! _); [|done]. rewrite forallb_elem in H. specialize (H c Hc).
      bools_in H. by apply Hs.
  - intros [H1 H2] a Ha. pose proof (held_actions_spec current (ha_provider a)) as Hs.
    assert (provides current (ha_provider a)) as Hp by (apply H1; by exists a).
    destruct (_ !! _); [|done]. apply forallb_elem. intros c Hc. bools.
    apply Hs, H2. by exists a.
Qed.

Lemma subset_iff candidate current :
  subset candidate current = true ↔ ∀ v, v ∈ candidate → v ∈ current.
Proof.
  unfold subset. rewrite forallb_elem. setoid_rewrite bool_decide_eq_true.
  by setoid_rewrite elem_of_list_to_set.
Qed.

Lemma equalStrings_iff l1 l2 : equalStrings l1 l2 = true ↔ l1 = l2.
Proof.
  revert l2. induction l1 as [|x l1 IH]; intros [|y l2]; simpl; try done.
  bools. rewrite IH. naive_solver.
Qed.

Lemma limit_widens_refl x : limit_widens x x = false.
Proof. unfold limit_widens. repeat case_if; bools_all; try done; lia. Qed.

Lemma limit_widens_trans a b c :
  limit_widens b a = false → limit_widens c b = false → limit_widens c a = false.
Proof. unfold limit_widens. repeat case_if; bools_all; try done; lia. Qed.

(** The specification of the order, between migrated policies. *)
Record narrows (current candidate : Override) : Prop := {
  n_switches : ∀ get : Override → bool, get ∈ switches → get candidate = true → get current = true;
  n_limits : ∀ get : Override → Z, get ∈ limits → limit_widens (get candidate) (get current) = false;
  n_commands : ∀ v, v ∈ AllowedHostCommands candidate → v ∈ AllowedHostCommands current;
  n_providers : ∀ p, provides (HostActions candidate) p → provides (HostActions current) p;
  n_actions : ∀ p c, holds (HostActions candidate) p c → holds (HostActions current) p c;
  n_bus : narrower (SessionBus current) (SessionBus candidate);
  n_filesystem : ∀ w, w ∈ Filesystem candidate → reaches (Filesystem current) w;
  n_env : Env current = Env candidate
}.

#[export] Instance narrows_preorder : PreOrder narrows.
Proof.
  split.
  - intros o. split; try done; [intros; apply limit_widens_refl|intros; by apply reaches_self].
  - intros a b c [] []. split; eauto using limit_widens_trans; [|eauto using reaches_trans|congruence].
    by etrans.
Qed.

Lemma Restricts_narrows current candidate :
  Restricts current candidate = true ↔
  narrows (WithMigratedFilesystem current) (WithMigratedFilesystem candidate).
Proof.
  unfold Restricts. set (c := WithMigratedFilesystem current).
  set (d := WithMigratedFilesystem candidate).
  transitivity (
    existsb (λ get : Override → bool, get d && negb (get c)) switches = false ∧
    existsb (λ get : Override → Z, limit_widens (get d) (get c)) limits = false ∧
    subset (AllowedHostCommands d) (AllowedHostCommands c) = true ∧
    actionsCovered (HostActions c) (HostActions d) = true ∧
    DBusPolicyRestricts (SessionBus c) (SessionBus d) = true ∧
    permissionsCovered (Filesystem c) (Filesystem d) = true ∧
    equalStrings (Env c) (Env d) = true).
  { repeat case_if; rewrite ?negb_true_iff, ?negb_false_iff in *; intuition congruence. }
  rewrite !existsb_none, subset_iff, actionsCovered_iff, restricts_narrower,
    permissionsCovered_iff, equalStrings_iff.
  split.
  - intros (H1 & ? & ? & [? ?] & ? & ? & ?). split; try done.
    intros get Hin Hd. specialize (H1 get Hin). rewrite Hd in H1. by apply negb_false_iff.
  - intros [H1 ? ? ? ? ? ? ?]. split_and!; try done. intros get Hin.
    specialize (H1 get Hin). destruct (get d); [by rewrite H1|done].
Qed.

(** ** Changes that only narrow *)
Lemma with_lists_switch o a b f h e m x c (get : Override → bool) :
  get ∈ switches → get (with_lists o a b f h e m x c) = get o.
Proof. unfold switches. rewrite !elem_of_cons, elem_of_nil. by intuition subst. Qed.

Lemma with_lists_limit o a b f h e m x c (get : Override → Z) :
  get ∈ limits → get (with_lists o a b f h e m x c) = get o.
Proof. unfold limits. rewrite !elem_of_cons, elem_of_nil. by intuition subst. Qed.

(** A change none of whose fields widens is a restriction. *)
Lemma restricts_fieldwise o next :
  valid_grants o →
  (∀ get : Override → bool, get ∈ switches → get next = true → get o = true) →
  (∀ get : Override → Z, get ∈ limits → limit_widens (get next) (get o) = false) →
  (∀ v, v ∈ AllowedHostCommands next → v ∈ AllowedHostCommands o) →
  (∀ p, provides (HostActions next) p → provides (HostActions o) p) →
  (∀ p c, holds (HostActions next) p c → holds (HostActions o) p c) →
  narrower (SessionBus o) (SessionBus next) →
  (∀ p, p ∈ legacy_grants next → p ∈ legacy_grants o) →
  Env o = Env next →
  Restricts o next = true.
Proof.
  intros Hv Hs Hl Hc Hp Ha Hb Hf He. apply Restricts_narrows.
  rewrite (migrated_shape o), (migrated_shape next). split; try done.
  - intros get Hin. rewrite !with_lists_switch by done. auto.
  - intros get Hin. rewrite !with_lists_limit by done. auto.
  - simpl. intros w Hw%migrated_elem%Hf.
    apply migrated_wider in Hw as (q & Hq & Hqp & Hqa); [|done].
    exists q. rewrite Hqp. split_and!; [done|apply pathCovers_refl|].
    apply accessCovers_iff. naive_solver.
Qed.

(** ** Canonical policies *)
Lemma perm_le_iff p q :
  perm_le p q ↔ String.le (fp_path p) (fp_path q) ∧
    (fp_path p = fp_path q → String.le (fp_access p) (fp_access q)).
Proof.
  unfold perm_le. case_decide as E; [|naive_solver]. rewrite E. split; [|naive_solver].
  by intros ?; split.
Qed.

#[export] Instance perm_le_total : Total perm_le.
Proof.
  intros p q. unfold perm_le. repeat case_decide; try congruence; apply (total String.le).
Qed.

#[export] Instance perm_le_trans : Transitive perm_le.
Proof.
  intros p q r. rewrite !perm_le_iff. intros [Hpq Ha] [Hqr Hb]. split; [by etrans|].
  intros E. assert (fp_path p = fp_path q) as E'.
  { apply (anti_symm String.le); [done|by rewrite E]. }
  etrans; [by apply Ha|apply Hb; congruence].
Qed.

#[export] Instance perm_le_antisymm : AntiSymm (=) perm_le.
Proof.
  intros [p a] [q b]. rewrite !perm_le_iff. simpl. intros [Hpq Ha] [Hqp Hb].
  assert (p = q) as -> by by apply (anti_symm String.le).
  f_equal. apply (anti_symm String.le); auto.
Qed.

Lemma sorted_permissions_proper l1 l2 :
  l1 ≡ₚ l2 → sortedPermissions l1 = sortedPermissions l2.
Proof.
  intros Hp. apply (StronglySorted_unique perm_le);
    [apply StronglySorted_merge_sort; apply _..|].
  unfold sortedPermissions. by rewrite !merge_sort_Permutation.
Qed.

(** At most one grant is valid, since there is one provider. *)
Lemma valid_actions_short l : ValidateHostActions l = Ok tt → length l ≤ 1.
Proof.
  rewrite validate_actions_ok. intros [Hnd Hp].
  destruct l as [|a [|b l]]; simpl; [lia..|]. exfalso. simpl in Hnd.
  apply NoDup_cons in Hnd as [Hn _]. apply Hn.
  destruct (Hp a) as [-> _]; [set_solver|]. destruct (Hp b) as [-> _]; set_solver.
Qed.

(** Two grants that differ in the order of their capabilities only. *)
Definition same_action (a b : HostActionGrant) : Prop :=
  ha_provider a = ha_provider b ∧ ha_capabilities a ≡ₚ ha_capabilities b.

Lemma sorted_actions_short l1 l2 :
  length l1 ≤ 1 → Forall2 same_action l1 l2 → sortedActions l1 = sortedActions l2.
Proof.
  intros Hl HF. destruct HF as [|a b l1 l2 [Hp Hc] [|]]; [done| |simpl in *; lia].
  unfold sortedActions, sorted. simpl. by rewrite Hp, Hc.
Qed.

(** Two policies that differ in the order of their lists only. *)
Record reordered (o o' : Override) : Prop := {
  ro_shape : o' = with_lists o (HostActions o') (SessionBus o') (Filesystem o')
    (FsHost o) (FsHostEtc o) (FsHostHome o) (FsExtra o') (AllowedHostCommands o');
  ro_actions : Forall2 same_action (HostActions o) (HostActions o');
  ro_bus : same_policy (SessionBus o') (SessionBus o);
  ro_filesystem : Filesystem o ≡ₚ Filesystem o';
  ro_extra : FsExtra o ≡ₚ FsExtra o';
  ro_commands : AllowedHostCommands o ≡ₚ AllowedHostCommands o'
}.

(** What installation checks of a policy before it is recorded. *)
Record valid_override (o : Override) : Prop := {
  vo_filesystem : valid_grants o;
  vo_actions : ValidateHostActions (HostActions o) = Ok tt;
  vo_bus : ValidateDBusPolicy (SessionBus o) = Ok tt
}.

Lemma canonical_reordered o : length (HostActions o) ≤ 1 → reordered o (canonicalPolicy o).
Proof.
  intros Hl. split; simpl; try done.
  - unfold sortedActions. destruct (HostActions o) as [|a [|]]; [constructor| |simpl in *; lia].
    simpl. repeat constructor. simpl. symmetry. apply sort_strings_perm.
  - apply canonical_same_policy.
  - symmetry. apply merge_sort_Permutation.
  - symmetry. apply sort_strings_perm.
  - symmetry. apply sort_strings_perm.
Qed.

Lemma with_lists_again o o' a1 b1 f1 x1 c1 :
  o' = with_lists o a1 b1 f1 (FsHost o) (FsHostEtc o) (FsHostHome o) x1 c1 →
  ∀ a b f x c, with_lists o' a b f (FsHost o') (FsHostEtc o') (FsHostHome o') x c =
    with_lists o a b f (FsHost o) (FsHostEtc o) (FsHostHome o) x c.
Proof. by intros ->. Qed.

Lemma canonical_policy_same o o' :
  valid_override o → reordered o o' → canonicalPolicy o' = canonicalPolicy o.
Proof.
  intros [_ Ha Hb] [Hshape Hra Hrb Hrf Hrx Hrc]. unfold canonicalPolicy, sorted.
  rewrite (with_lists_again _ _ _ _ _ _ _ Hshape).
  rewrite (sort_strings_proper _ _ Hrx), (sort_strings_proper _ _ Hrc),
    (sorted_permissions_proper _ _ Hrf),
    (sorted_actions_short _ _ (valid_actions_short _ Ha) Hra).
  apply validate_policy_ok in Hb.
  rewrite (canonical_same (SessionBus o') (SessionBus o)); [done| |done].
  rewrite same_policy_keys by done. by destruct Hb.
Qed.

Lemma same_actions_holds l1 l2 :
  Forall2 same_action l1 l2 →
  (∀ p, provides l1 p ↔ provides l2 p) ∧ (∀ p c, holds l1 p c ↔ holds l2 p c).
Proof.
  unfold provides, holds.
  induction 1 as [|a b l1 l2 [Hp Hc] HF [IH1 IH2]]; [set_solver|]. split.
  - intros p. setoid_rewrite elem_of_cons. specialize (IH1 p). naive_solver.
  - intros p c. setoid_rewrite elem_of_cons. specialize (IH2 p c).
    assert (c ∈ ha_capabilities a ↔ c ∈ ha_capabilities b) by by rewrite Hc.
    naive_solver.
Qed.

Lemma same_policy_narrower p q : same_policy p q → narrower p q ∧ narrower q p.
Proof.
  intros (Hown & l & Hp & HF). unfold narrower.
  assert (∀ n pa i m, grants p n pa i m ↔ grants q n pa i m) as Hg.
  { intros n pa i m. unfold grants. setoid_rewrite Hp. clear Hp. revert HF.
    generalize (dp_talk q). induction 1 as [|r1 r2 l1 l2 (Hn & Hpa & Hi & Hm) HF IH];
      [set_solver|]. setoid_rewrite elem_of_cons.
    assert (m ∈ dc_members r1 ↔ m ∈ dc_members r2) by by rewrite Hm. naive_solver. }
  setoid_rewrite AllowsCall_iff. setoid_rewrite AllowsOwn_iff. setoid_rewrite Hown.
  setoid_rewrite Hg. done.
Qed.

Lemma legacy_grants_reordered o o' :
  reordered o o' → ∀ p, p ∈ legacy_grants o ↔ p ∈ legacy_grants o'.
Proof.
  intros [Hshape _ _ Hf Hx _] p. rewrite !legacy_grants_elem. rewrite Hshape. simpl.
  setoid_rewrite Hf. setoid_rewrite Hx. done.
Qed.

Lemma reordered_valid_grants o o' : reordered o o' → valid_grants o → valid_grants o'.
Proof.
  intros [_ _ _ Hf _ _]. unfold valid_grants. rewrite !validate_permissions_ok, Hf.
  by setoid_rewrite Hf.
Qed.

(** A reordered policy grants the same, in both directions of the order. *)
Lemma reordered_restricts o o' :
  valid_grants o → reordered o o' → Restricts o o' = true ∧ Restricts o' o = true.
Proof.
  intros Hv Hr. pose proof (legacy_grants_reordered o o' Hr) as Hg.
  pose proof (reordered_valid_grants o o' Hr Hv) as Hv'.
  destruct Hr as [Hshape Ha Hb Hf Hx Hc].
  apply same_actions_holds in Ha as [Hp Hh]. apply same_policy_narrower in Hb as [Hb1 Hb2].
  assert (∀ get : Override → bool, get ∈ switches → get o' = get o) as Hs
    by (intros; rewrite Hshape; by apply with_lists_switch).
  assert (∀ get : Override → Z, get ∈ limits → get o' = get o) as Hl
    by (intros; rewrite Hshape; by apply with_lists_limit).
  assert (Env o' = Env o) as He by by rewrite Hshape.
  split; apply restricts_fieldwise; try done;
    try (intros get Hin; rewrite ?Hs, ?Hl by done; solve [auto using limit_widens_refl]);
    intros *; by rewrite ?Hp, ?Hh, ?Hg, ?Hc.
Qed.

Lemma valid_canonical_restricts o :
  valid_override o →
  Restricts o (canonicalPolicy o) = true ∧ Restricts (canonicalPolicy o) o = true.
Proof.
  intros Hv. apply reordered_restricts; [apply Hv|].
  apply canonical_reordered, valid_actions_short, Hv.
Qed.

Lemma restricts_trans a b c :
  Restricts a b = true → Restricts b c = true → Restricts a c = true.
Proof. rewrite !Restricts_narrows. apply transitivity. Qed.

(** ** Additions *)

(** The boolean fields the two walks share: every switch is a field, a switch
    of the file picker or one the reflection walk sees. *)
Lemma no_addition o next k :
  Additions o next = [] → k ∈ f_kind <$> fields → field_added o next k = false.
Proof.
  unfold Additions. intros Hn (f & -> & Hf)%list_elem_of_fmap. apply not_true_iff_false. intros Ha.
  assert (f ∈ filter (λ f, field_added o next (f_kind f) = true) fields) as Hin
    by by apply list_elem_of_filter.
  apply (list_elem_of_fmap_2 f_key) in Hin. rewrite Hn in Hin.
  by apply elem_of_nil in Hin.
Qed.

(** Find a kind among those of the fields. *)
Ltac in_fields := simpl; repeat first [apply list_elem_of_here | apply list_elem_of_further].

Lemma slice_no_additions {A} `{EqDecision A} (current updated : list A) :
  slice_additions current updated = false → ∀ x, x ∈ updated → x ∈ current.
Proof.
  unfold slice_additions. rewrite existsb_none. intros H x Hx. specialize (H x Hx).
  bools_in H. destruct H as (y & Hy & E). bools_in E. by subst.
Qed.

Lemma picker_no_additions g next :
  filePickerHasAdditions g next = false →
  (OpenFile next = true → OpenFile g = true) ∧ (OpenFolder next = true → OpenFolder g = true) ∧
  (SaveFile next = true → SaveFile g = true) ∧ (Persistent next = true → Persistent g = true) ∧
  (ContainingFolder next = true → ContainingFolder g = true).
Proof. destruct g as [[] [] [] [] []], next as [[] [] [] [] []]; by vm_compute. Qed.

Lemma switch_no_addition o next (get : Override → bool) :
  Additions o next = [] → get ∈ switches → get next = true → get o = true.
Proof.
  intros Hn. pose proof (no_addition o next (KFilePicker FilePicker) Hn) as Hp.
  simpl in Hp. apply picker_no_additions in Hp; [|in_fields].
  assert (∀ g : Override → bool, KBool g ∈ f_kind <$> fields →
    g next = true → g o = true) as Hb.
  { intros g Hg Ht. pose proof (no_addition o next (KBool g) Hn Hg) as H. simpl in H.
    rewrite Ht in H. by destruct (g o). }
  unfold switches. rewrite !elem_of_cons, elem_of_nil. intros Hin.
  repeat (destruct Hin as [->|Hin]; [first [apply Hb; in_fields|tauto]|]). done.
Qed.

(** ** Properties *)

(** [Restricts] is a preorder, across the legacy and the typed spelling of the
    filesystem grants. *)
Lemma restricts_preorder :
  (∀ o, Restricts o o = true) ∧
  (∀ a b c, Restricts a b = true → Restricts b c = true → Restricts a c = true).
Proof.
  split; [intros o; by apply Restricts_narrows|exact restricts_trans].
Qed.

(** A path is granted with another: it is the same, the other is the whole host, or
    it is written below it. *)
Definition path_granted (held wanted : string) : Prop :=
  held = wanted ∨ held = "host" ∨ ∃ t, wanted = trim_suffix "/" held +:+ "/" +:+ t.
Definition access_granted (held wanted : string) : Prop :=
  held = wanted ∨ held = "read-write" ∧ wanted = "read-only".

(** The keys whose grants [legacy_grants] spells as typed ones. *)
Definition legacy_switches : list string := ["fsHost"; "fsHostEtc"; "fsHostHome"].

(** [candidate] asks for nothing [current] does not have, field of the struct by
    field. *)
Record asks_no_more (current candidate : Override) : Prop := {
  am_switches : ∀ f get, f ∈ fields → f_kind f = KBool get → f_key f ∉ legacy_switches →
    get candidate = true → get current = true;
  am_limits : ∀ f get, f ∈ fields → f_kind f = KInt get →
    get current = 0%Z ∨ get candidate ≠ 0%Z ∧ (get candidate ≤ get current)%Z;
  am_picker : let granted get := get (FilePicker candidate) = true → get (FilePicker current) = true in
    granted OpenFile ∧ granted OpenFolder ∧ granted SaveFile ∧ granted Persistent ∧ granted ContainingFolder;
  am_actions : ∀ a, a ∈ HostActions candidate →
    (∃ h, h ∈ HostActions current ∧ ha_provider h = ha_provider a) ∧
    ∀ c, c ∈ ha_capabilities a →
      ∃ h, h ∈ HostActions current ∧ ha_provider h = ha_provider a ∧ c ∈ ha_capabilities h;
  am_calls : ∀ name path interface member, AllowsCall (SessionBus candidate) name path interface member = true →
    AllowsCall (SessionBus current) name path interface member = true;
  am_names : ∀ name, AllowsOwn (SessionBus candidate) name = true → AllowsOwn (SessionBus current) name = true;
  am_filesystem : ∀ wanted, wanted ∈ legacy_grants candidate → ∃ held, held ∈ legacy_grants current ∧
    path_granted (fp_path held) (fp_path wanted) ∧ access_granted (fp_access held) (fp_access wanted);
  am_commands : ∀ v, v ∈ AllowedHostCommands candidate → v ∈ AllowedHostCommands current;
  am_env : Env candidate = Env current
}.


Lemma limit_widens_iff d c : limit_widens d c = false ↔ c = 0%Z ∨ d ≠ 0%Z ∧ (d ≤ c)%Z.
Proof.
  unfold limit_widens. destruct (Z.eqb_spec c 0), (Z.eqb_spec d 0), (Z.ltb_spec c d); cbn; split; intros ?; try done; lia.
Qed.

(** The switches the code lists are the ones of the struct, and those of the file
    picker. *)
Lemma switch_of_field f (get : Override → bool) :
  f ∈ fields → f_kind f = KBool get → f_key f ∉ legacy_switches → get ∈ switches.
Proof.
  unfold fields, switches, legacy_switches. rewrite !elem_of_cons, elem_of_nil. intros Hf Hk Hl.
  repeat (destruct Hf as [->|Hf]; [cbn in Hk, Hl; first [discriminate Hk|injection Hk as <-; tauto]|]). done.
Qed.

Lemma switches_fields c d :
  (∀ get : Override → bool, get ∈ switches → get d = true → get c = true) ↔
  (∀ f get, f ∈ fields → f_kind f = KBool get → f_key f ∉ legacy_switches → get d = true → get c = true) ∧
  let granted get := get (FilePicker d) = true → get (FilePicker c) = true in
    granted OpenFile ∧ granted OpenFolder ∧ granted SaveFile ∧ granted Persistent ∧ granted ContainingFolder.
Proof.
  split.
  - intros H. split; [intros f get Hf Hk Hl; apply H; by eapply switch_of_field|].
    cbv zeta. split_and!; [apply (H (λ o, OpenFile (FilePicker o)))|apply (H (λ o, OpenFolder (FilePicker o)))|
      apply (H (λ o, SaveFile (FilePicker o)))|apply (H (λ o, Persistent (FilePicker o)))|
      apply (H (λ o, ContainingFolder (FilePicker o)))]; unfold switches; in_fields.
  - intros [H (H1 & H2 & H3 & H4 & H5)].
    assert (∀ key (get : Override → bool), (∃ o, mkField key o (KBool get) ∈ fields) → key ∉ legacy_switches →
      get d = true → get c = true) as Hs.
    { intros key get (o & Hf) Hl. by apply (H _ get Hf). }
    unfold switches. intros get. rewrite !elem_of_cons, elem_of_nil. intros Hin.
    repeat (destruct Hin as [->|Hin]; [first [assumption|
      eapply Hs; [eexists; unfold fields; in_fields|unfold legacy_switches; rewrite !elem_of_cons, elem_of_nil; by intuition discriminate]]|]).
    done.
Qed.

Lemma limits_fields c d :
  (∀ get : Override → Z, get ∈ limits → limit_widens (get d) (get c) = false) ↔
  (∀ f get, f ∈ fields → f_kind f = KInt get → get c = 0%Z ∨ get d ≠ 0%Z ∧ (get d ≤ get c)%Z).
Proof.
  setoid_rewrite limit_widens_iff. split.
  - intros H f get Hf Hk. apply H. revert Hf Hk. unfold fields, limits. rewrite !elem_of_cons, elem_of_nil. intros Hf Hk.
    repeat (destruct Hf as [->|Hf]; [cbn in Hk; first [discriminate Hk|injection Hk as <-; tauto]|]). done.
  - intros H. unfold limits. intros get. rewrite !elem_of_cons, elem_of_nil.
    assert (∀ key (get : Override → Z), (∃ o, mkField key o (KInt get) ∈ fields) → get c = 0%Z ∨ get d ≠ 0%Z ∧ (get d ≤ get c)%Z) as Hs.
    { intros key g (o & Hf). by apply (H _ g Hf). }
    intros Hin. repeat (destruct Hin as [->|Hin]; [eapply Hs; eexists; unfold fields; in_fields|]). done.
Qed.

Lemma path_granted_iff held wanted : path_granted held wanted ↔ pathCovers held wanted = true.
Proof. by rewrite pathCovers_iff. Qed.
Lemma access_granted_iff held wanted : access_granted held wanted ↔ accessCovers held wanted = true.
Proof. by rewrite accessCovers_iff. Qed.

(** C33: [Restricts] answers yes exactly when the candidate asks for nothing the
    current policy does not have.  Every switch of the struct and of the file picker
    that is on is on already; no limit is lifted or raised; every host action, call,
    bus name and command is one that is held; every path and access of the file
    system, however the two policies spell them, is covered by one that is held; and
    the environment is the same. *)
Theorem restricts_exact current candidate :
  valid_grants current → valid_grants candidate →
  (Restricts current candidate = true ↔ asks_no_more current candidate).
Proof.
  intros Hc Hd. rewrite Restricts_narrows.
  rewrite (migrated_shape current), (migrated_shape candidate).
  assert ((∀ w, w ∈ Filesystem (WithMigratedFilesystem candidate) → reaches (Filesystem (WithMigratedFilesystem current)) w) ↔
    (∀ wanted, wanted ∈ legacy_grants candidate → ∃ held, held ∈ legacy_grants current ∧
      path_granted (fp_path held) (fp_path wanted) ∧ access_granted (fp_access held) (fp_access wanted))) as Hfs.
  { setoid_rewrite path_granted_iff. setoid_rewrite access_granted_iff. split.
    - intros H w Hw. apply migrated_wider in Hw as (q & Hq & Hp & Ha); [|done].
      destruct (H q Hq) as (held & Hh%migrated_elem & Hhp & Hha). exists held. rewrite <-Hp. split; [done|]. split; [done|].
      eapply accessCovers_trans; [exact Hha|]. apply accessCovers_iff. naive_solver.
    - intros H w (held & Hh & Hp & Ha)%migrated_elem%H. apply migrated_wider in Hh as (q & Hq & Hqp & Hqa); [|done].
      exists q. rewrite Hqp. split; [done|]. split; [done|].
      eapply accessCovers_trans; [|exact Ha]. apply accessCovers_iff. naive_solver. }
  split.
  - intros [H1 H2 H3 H4 H5 [H6 H7] H8 H9]. cbn in H3, H4, H5, H6, H7, H8, H9.
    assert (∀ get : Override → bool, get ∈ switches → get candidate = true → get current = true) as Hs.
    { intros get Hin. specialize (H1 get Hin). by rewrite !with_lists_switch in H1. }
    apply switches_fields in Hs as [Hs Hp].
    assert (∀ get : Override → Z, get ∈ limits → limit_widens (get candidate) (get current) = false) as Hl.
    { intros get Hin. specialize (H2 get Hin). by rewrite !with_lists_limit in H2. }
    rewrite limits_fields in Hl. split; try done; [|by apply Hfs].
    intros a Ha. split; [apply H4; by exists a|]. intros c Hcap. apply H5. by exists a.
  - intros [H1 H2 H3 H4 H5 H6 H7 H8 H9].
    pose proof (proj2 (switches_fields current candidate) (conj H1 H3)) as Hs.
    rewrite <-limits_fields in H2. split; try done; cbn.
    + intros get Hin. rewrite !with_lists_switch by done. auto.
    + intros get Hin. rewrite !with_lists_limit by done. auto.
    + intros p (a & Ha & <-). by apply H4.
    + intros p c (a & Ha & <- & Hcap). destruct (H4 a Ha) as [_ H]. by apply H.
    + by apply Hfs.
Qed.

(** The canonical policy that is hashed depends on what the policy grants
    only: reordering the lists of a valid policy gives the same canonical policy,
    which is its own canonical form and restricts, and is restricted by, the
    policy it stands for. *)
Theorem canonical_policy_stable o o' :
  valid_override o → reordered o o' →
  canonicalPolicy o' = canonicalPolicy o ∧
  canonicalPolicy (canonicalPolicy o) = canonicalPolicy o ∧
  Restricts o (canonicalPolicy o) = true ∧ Restricts (canonicalPolicy o) o = true.
Proof.
  intros Hv Hr. pose proof (valid_actions_short _ (vo_actions o Hv)) as Hs.
  pose proof (canonical_reordered o Hs) as Hc.
  split; [|split]; [by apply canonical_policy_same..|by apply valid_canonical_restricts].
Qed.

Definition policy_example (own : list string) (filesystem : list FilesystemPermission) : Override :=
  with_lists NewOverride [mkAction "containers" ["read"; "exec-owned"]]
    (mkPolicy (dp_talk bus_example) own) filesystem false false true ["/srv/b"; "/srv/a"] [].

(** The home directory and a switch, in the two spellings. *)
Lemma restricts_exact_witness :
  let current := policy_example ["org.example.A"] [mkPerm "home" "read-write"; mkPerm "/srv" "read-write"] in
  let candidate := policy_example [] [mkPerm "/srv/a" "read-only"] in
  asks_no_more current candidate ∧ ¬ asks_no_more candidate current.
Proof.
  intros current candidate.
  assert (valid_grants current) as Hc by (vm_compute; reflexivity).
  assert (valid_grants candidate) as Hd by (vm_compute; reflexivity).
  split.
  - apply (restricts_exact current candidate Hc Hd). vm_compute. reflexivity.
  - intros H. apply (restricts_exact candidate current Hd Hc) in H. vm_compute in H. discriminate H.
Defined.

Lemma canonical_policy_stable_witness :
  canonicalPolicy (policy_example ["org.example.B"; "org.example.A"]
    [mkPerm "/b" "read-only"; mkPerm "/a" "read-write"]) =
  canonicalPolicy (policy_example ["org.example.A"; "org.example.B"]
    [mkPerm "/a" "read-write"; mkPerm "/b" "read-only"]).
Proof.
  apply canonical_policy_stable.
  - split; vm_compute; reflexivity.
  - split; try done.
    + repeat constructor.
    + split; [apply perm_swap|]. exists (dp_talk bus_example). split; [done|].
      repeat constructor.
    + apply perm_swap.
Defined.

(** An update whose [Additions] are empty needs no consent: when it also
    keeps the environment and widens no resource limit, [Restricts] accepts it. *)
Theorem no_additions_restricts o next :
  valid_grants o → Additions o next = [] → Env o = Env next →
  (∀ limit, limit ∈ limits → limit_widens (limit next) (limit o) = false) →
  Restricts o next = true.
Proof.
  intros Hv Hn He Hl. apply restricts_fieldwise; try done.
  - intros get. by apply switch_no_addition.
  - apply slice_no_additions, (no_addition o next (KStrings AllowedHostCommands)); [done|in_fields].
  - intros p (a & Ha & <-). exists a. split; [|done]. revert a Ha.
    apply slice_no_additions, (no_addition o next (KActions HostActions)); [done|in_fields].
  - intros p c (a & Ha & <- & Hc). exists a. split_and!; [|done..]. revert a Ha Hc.
    pose proof (slice_no_additions (HostActions o) (HostActions next)) as Hs.
    intros a Ha _. apply Hs; [|done].
    apply (no_addition o next (KActions HostActions)); [done|in_fields].
  - apply restricts_narrower, negb_false_iff.
    apply (no_addition o next (KSessionBus SessionBus)); [done|in_fields].
  - pose proof (λ g, no_addition o next (KBool g) Hn) as Hb. simpl in Hb.
    assert (∀ g : Override → bool, KBool g ∈ f_kind <$> fields →
      g next = true → g o = true) as Hbool.
    { intros g Hg Ht. specialize (Hb g Hg). rewrite Ht in Hb. by destruct (g o). }
    assert (∀ p, p ∈ Filesystem next → p ∈ Filesystem o) as Hfs.
    { apply slice_no_additions, (no_addition o next (KPermissions Filesystem)); [done|in_fields]. }
    assert (∀ p, p ∈ FsExtra next → p ∈ FsExtra o) as Hx.
    { apply slice_no_additions, (no_addition o next (KStrings FsExtra)); [done|in_fields]. }
    intros p. rewrite !legacy_grants_elem.
    assert (FsHost next = true → FsHost o = true) by (apply Hbool; in_fields).
    assert (FsHostEtc next = true → FsHostEtc o = true) by (apply Hbool; in_fields).
    assert (FsHostHome next = true → FsHostHome o = true) by (apply Hbool; in_fields).
    naive_solver.
Qed.

Lemma no_additions_restricts_witness :
  Restricts (policy_example ["org.example.A"] [mkPerm "/a" "read-write"; mkPerm "host" "read-only"])
    (policy_example [] [mkPerm "/a" "read-write"]) = true.
Proof.
  apply no_additions_restricts; try (vm_compute; reflexivity).
  intros limit Hin. unfold limits in Hin. rewrite !elem_of_cons in Hin.
  destruct Hin as [->|[->|[->|Hin]]]; [vm_compute; reflexivity..|by apply elem_of_nil in Hin].
Defined.
