(* ===== verification/Roots.v ===== *)
(** * Integrity roots ([pkg/integrity/root.go], [pkg/integrity/policy.go])

    What an installation is, what it is allowed to do and the pair a launch is
    checked against, each named by a SHA-256 digest of its canonical JSON.  The
    digest is a parameter; every statement that needs it to separate two
    documents says so by naming the collision it would otherwise be. *)
From Stdlib Require Import Ascii.
From stdpp Require Import base strings list pretty.
From S2P Require Import Prelude.
From S2P Require Import GoStrings.
From S2P Require Import Utf8.
From S2P Require Import DBusPolicy.
From S2P Require Import HostActions.
From S2P Require Import Filesystem.
From S2P Require Import Override.
From S2P Require Import Hex.
From S2P Require Import Json.
From S2P Require Import Integrity.
From stdpp Require Import options.

(** ** Structs as JSON objects *)

(** A struct field: its name and its value, absent when [omitempty] drops it. *)
Notation field := (string * option json)%type.

Definition present (f : field) : option (string * json) := (f.1,.) <$> f.2.
Definition struct (fields : list field) : json := JObject (omap present fields).

(** A slice of strings; the nil slice is [null]. *)
Definition strings_json (l : list string) : json := JArray (JString <$> l).
Definition nil_json (l : list string) : json :=
  if bool_decide (l = []) then JNull else strings_json l.

Definition omit_empty {A} (to_json : A → json) (l : list A) : option json :=
  match l with [] => None | _ => Some (JArray (to_json <$> l)) end.
Definition omit_false (b : bool) : option json := if b then Some (JBool true) else None.

(** ** The identity of an installation *)
Record LayerBinding : Type := mkLayer {
  OCIDigest : string;
  StateID : string;
  StateRoot : string
}.
#[export] Instance layer_eq_dec : EqDecision LayerBinding.
Proof. solve_decision. Defined.

Record Package : Type := mkPackage {
  Origin : string;
  Selector : string;
  Version : string;
  ManifestDigest : string;
  ImageDigest : string;
  ConfigDigest : string;
  Layers : list LayerBinding;
  Dependencies : list string;
  Addons : list string;
  Binaries : list string;
  DesktopEntries : list string;
  Sessions : list string
}.

Inductive root_error : Type := RIncomplete | RUnbound (digest : string).

Definition canonicalPackage (p : Package) : Package :=
  mkPackage (Origin p) (Selector p) (Version p) (ManifestDigest p) (ImageDigest p)
    (ConfigDigest p) (Layers p) (sorted (Dependencies p)) (sorted (Addons p))
    (sorted (Binaries p)) (sorted (DesktopEntries p)) (sorted (Sessions p)).

Definition layer_json (b : LayerBinding) : json :=
  struct [("oci_digest", Some (JString (OCIDigest b))); ("state_id", Some (JString (StateID b)));
    ("state_root", Some (JString (StateRoot b)))].

(** The struct tags of [Package].  The layers come from [make], so an empty list
    of them is an empty array; the sorted lists are nil when they are empty. *)
Definition package_json (p : Package) : json :=
  struct [("origin", Some (JString (Origin p))); ("selector", Some (JString (Selector p)));
    ("version", Some (JString (Version p)));
    ("manifest_digest", Some (JString (ManifestDigest p)));
    ("image_digest", Some (JString (ImageDigest p)));
    ("config_digest", Some (JString (ConfigDigest p)));
    ("layers", Some (JArray (layer_json <$> Layers p)));
    ("dependencies", Some (nil_json (Dependencies p))); ("addons", Some (nil_json (Addons p)));
    ("binaries", Some (nil_json (Binaries p)));
    ("desktop_entries", Some (nil_json (DesktopEntries p)));
    ("sessions", Some (nil_json (Sessions p)))].

(** ** The policy *)
Definition permission_json (p : FilesystemPermission) : json :=
  struct [("path", Some (JString (fp_path p))); ("access", Some (JString (fp_access p)))].

(** The capabilities come from [sorted], so an empty list of them is nil. *)
Definition action_json (a : HostActionGrant) : json :=
  struct [("provider", Some (JString (ha_provider a)));
    ("capabilities", Some (nil_json (ha_capabilities a)))].

Definition rule_json (r : DBusCallGrant) : json :=
  struct [("name", Some (JString (dc_name r))); ("path", Some (JString (dc_path r)));
    ("interface", Some (JString (dc_interface r)));
    ("members", Some (strings_json (dc_members r)))].

Definition bus_json (p : DBusPolicy) : json :=
  struct [("talk", omit_empty rule_json (dp_talk p)); ("own", omit_empty JString (dp_own p))].

Definition picker_json (g : FilePickerGrant) : json :=
  struct [("openFile", omit_false (OpenFile g)); ("openFolder", omit_false (OpenFolder g));
    ("saveFile", omit_false (SaveFile g)); ("persistent", omit_false (Persistent g));
    ("containingFolder", omit_false (ContainingFolder g))].

Definition policy_fields (o : Override) : list field :=
  let switch key get := (key, Some (JBool (get o))) in
  [switch "socketX11" SocketX11; switch "displayX11" DisplayX11;
   switch "socketWayland" SocketWayland; switch "socketPulseAudio" SocketPulseAudio;
   switch "socketSessionBus" SocketSessionBus; switch "socketSystemBus" SocketSystemBus;
   switch "socketSshAgent" SocketSshAgent; switch "socketCups" SocketCups;
   switch "socketGpgAgent" SocketGpgAgent; switch "socketAtSpiBus" SocketAtSpiBus;
   switch "socketBluetooth" SocketBluetooth; switch "bluetooth" Bluetooth;
   switch "deviceDri" DeviceDri; switch "deviceKvm" DeviceKvm; switch "deviceShm" DeviceShm;
   switch "deviceAlsa" DeviceAlsa; switch "deviceVideo" DeviceVideo;
   switch "deviceFuse" DeviceFuse; switch "deviceTun" DeviceTun; switch "deviceUsb" DeviceUsb;
   switch "deviceSerial" DeviceSerial; switch "deviceInput" DeviceInput;
   switch "deviceTTY" DeviceTTY; switch "deviceAll" DeviceAll;
   switch "notification" Notification; switch "openURI" OpenURI;
   switch "hostApplications" HostApplications;
   ("hostActions", omit_empty action_json (HostActions o));
   ("filePicker", Some (picker_json (FilePicker o)));
   ("sessionBus", Some (bus_json (SessionBus o)));
   ("filesystem", omit_empty permission_json (Filesystem o));
   ("fsHost", omit_false (FsHost o)); ("fsHostEtc", omit_false (FsHostEtc o));
   ("fsHostHome", omit_false (FsHostHome o)); ("fsExtra", omit_empty JString (FsExtra o));
   ("env", omit_empty JString (Env o)); switch "network" Network; switch "process" Process;
   switch "userNamespaces" UserNamespaces; ("memoryMaxMB", Some (JInt (MemoryMaxMB o)));
   ("cpuQuota", Some (JInt (CPUQuota o))); ("pidsMax", Some (JInt (PidsMax o)));
   switch "asRoot" AsRoot;
   ("allowedHostCommands", omit_empty JString (AllowedHostCommands o))].

Definition policy_json (o : Override) : json := struct (policy_fields o).

(** [bytes.Replace(text, old, nil, 1)] for a nonempty [old]. *)
Fixpoint remove_first (old text : string) : string :=
  if has_prefix old text then str_drop (slen old) text
  else match text with "" => "" | String c text' => String c (remove_first old text') end.

Inductive policy_root_error : Type :=
  | PSerial | PSessionBus | PDesktop
  | PSerialMissing | PSessionBusMissing | PDisplayMissing | PBluetoothMissing
  | PUnsupportedSchema (schema : Z).

(** Remove a member from the encoded policy, or report that it is not there. *)
Definition remove_member (encoded member : string) (missing : policy_root_error)
    : result policy_root_error string :=
  let without := remove_first member encoded in
  if slen without =? slen encoded then Err missing else Ok without.

(** [,"key":value] *)
Definition member_text (key value : string) : string :=
  "," +:+ dquote +:+ key +:+ dquote +:+ ":" +:+ value.

Definition removeDesktopCapabilityFields (encoded : string) : result policy_root_error string :=
  withoutDisplay ← remove_member encoded (member_text "displayX11" "false") PDisplayMissing;
  remove_member withoutDisplay (member_text "bluetooth" "false") PBluetoothMissing.

Definition PolicySchemaWithoutSerial : Z := 1.
Definition PolicySchemaWithoutSessionBus : Z := 2.
Definition PolicySchemaWithoutDesktopCapabilities : Z := 3.
Definition CurrentPolicySchema : Z := 4.

(** The text that is hashed for a policy under a schema. *)
Definition policy_text (override : Override) (schema : Z) : result policy_root_error string :=
  let canonical := canonicalPolicy override in
  let encoded := encode (policy_json canonical) in
  if bool_decide (schema = PolicySchemaWithoutSerial) then
    refuse_if (DeviceSerial canonical) PSerial ;;;
    refuse_if (Enabled (SessionBus canonical)) PSessionBus ;;;
    withoutSerial ← remove_member encoded (member_text "deviceSerial" "false") PSerialMissing;
    withoutSessionBus ←
      remove_member withoutSerial (member_text "sessionBus" "{}") PSessionBusMissing;
    removeDesktopCapabilityFields withoutSessionBus
  else if bool_decide (schema = PolicySchemaWithoutSessionBus) then
    refuse_if (Enabled (SessionBus canonical)) PSessionBus ;;;
    withoutSessionBus ←
      remove_member encoded (member_text "sessionBus" "{}") PSessionBusMissing;
    removeDesktopCapabilityFields withoutSessionBus
  else if bool_decide (schema = PolicySchemaWithoutDesktopCapabilities) then
    refuse_if (DisplayX11 canonical || Bluetooth canonical) PDesktop ;;;
    removeDesktopCapabilityFields encoded
  else if bool_decide (schema = CurrentPolicySchema) then Ok encoded
  else Err (PUnsupportedSchema schema).

(** ** Digests *)

Definition newline : string := String "010"%char "".

Section Digests.
(** [sha256.Sum256]. *)
Context (sha256 : string → string).

Definition root_preimage (kind encoded : string) : string :=
  "cpak." +:+ kind +:+ ".v1" +:+ newline +:+ encoded.

Definition digestJSON (kind encoded : string) : string :=
  hex_encode (sha256 (root_preimage kind encoded)).

Definition Root (p : Package) : result root_error string :=
  refuse_if (bool_decide (Origin p = "") || bool_decide (ImageDigest p = "")) RIncomplete ;;;
  for_each (λ layer,
    refuse_if (bool_decide (OCIDigest layer = "") || bool_decide (StateID layer = "") ||
      bool_decide (StateRoot layer = "")) (RUnbound (OCIDigest layer))) (Layers p) ;;;
  Ok (digestJSON "package" (encode (package_json (canonicalPackage p)))).

Definition PolicyRootForSchema (override : Override) (schema : Z)
    : result policy_root_error string :=
  text ← policy_text override schema;
  Ok (digestJSON "policy" text).

Definition PolicyRoot (override : Override) : result policy_root_error string :=
  PolicyRootForSchema override CurrentPolicySchema.

Definition launch_preimage (packageRoot policyRoot : string) : string :=
  "cpak.launch.v1" +:+ newline +:+ packageRoot +:+ newline +:+ policyRoot +:+ newline.

Definition LaunchRoot (packageRoot policyRoot : string) : string :=
  hex_encode (sha256 (launch_preimage packageRoot policyRoot)).

(** Two different documents with one digest. *)
Definition collision : Prop := ∃ x y, x ≠ y ∧ sha256 x = sha256 y.

Lemma digest_or_collision x y :
  hex_encode (sha256 x) = hex_encode (sha256 y) → x = y ∨ collision.
Proof.
  intros E%hex_encode_inj. destruct (decide (x = y)); [by left|right]. by exists x, y.
Qed.

Lemma json_root_binds kind v w :
  json_valid v = true → json_valid w = true →
  digestJSON kind (encode v) = digestJSON kind (encode w) → v = w ∨ collision.
Proof.
  intros Hv Hw [E|?]%digest_or_collision; [left|by right].
  unfold root_preimage in E. do 4 apply app_inv_head_str in E. by apply encode_inj.
Qed.
End Digests.

(** ** Structs can be told apart *)
Lemma struct_inj (f g : list field) :
  f.*1 = g.*1 → NoDup f.*1 → struct f = struct g → f = g.
Proof.
  unfold struct. intros Hk Hnd E. injection E as E. revert g Hk E.
  induction f as [|[k v] f IH]; intros [|[k' v'] g] Hk E; csimpl in *; try done.
  injection Hk as <- Hk. apply NoDup_cons in Hnd as [Hn Hnd].
  assert (∀ h : list field, k ∉ h.*1 → ∀ w l, omap present h ≠ (k, w) :: l) as Hno.
  { intros h Hh w l E'. apply Hh. assert ((k, w) ∈ omap present h) as Hin
      by (rewrite E'; apply list_elem_of_here).
    apply list_elem_of_omap in Hin as (x & Hin & E2).
    unfold present in E2. apply fmap_Some in E2 as (w2 & _ & [= -> _]).
    by apply (list_elem_of_fmap_2 fst) in Hin. }
  destruct v as [v|], v' as [v'|]; simpl in E.
  - injection E as -> E. by rewrite (IH Hnd g).
  - symmetry in E. by apply Hno in E; [|rewrite <-Hk].
  - by apply Hno in E.
  - by rewrite (IH Hnd g).
Qed.

#[export] Instance json_string_inj : Inj (=) (=) JString.
Proof. by intros ?? [=]. Qed.
#[export] Instance json_bool_inj : Inj (=) (=) JBool.
Proof. by intros ?? [=]. Qed.
#[export] Instance json_int_inj : Inj (=) (=) JInt.
Proof. by intros ?? [=]. Qed.
#[export] Instance json_array_inj : Inj (=) (=) JArray.
Proof. by intros ?? [=]. Qed.

Lemma nil_json_inj l1 l2 : nil_json l1 = nil_json l2 → l1 = l2.
Proof.
  unfold nil_json, strings_json. repeat case_bool_decide; intros E; try done; [by subst|].
  injection E as E. by apply (inj (fmap JString)) in E.
Qed.

Lemma omit_empty_inj {A} (f : A → json) `{!Inj (=) (=) f} l1 l2 :
  omit_empty f l1 = omit_empty f l2 → l1 = l2.
Proof.
  destruct l1 as [|x l1], l2 as [|y l2]; try done. cbn [omit_empty].
  intros E. injection E as E1 E2. apply (inj f) in E1. apply (inj (fmap f)) in E2. by subst.
Qed.

Lemma omit_false_inj b c : omit_false b = omit_false c → b = c.
Proof. by destruct b, c. Qed.

Lemma field_inj (k : string) (v w : option json) (f g : list field) :
  (k, v) :: f = (k, w) :: g → v = w ∧ f = g.
Proof. by intros [= -> ->]. Qed.

(** Read the equations of the fields of two structs off their encodings. *)
Ltac struct_fields E :=
  apply struct_inj in E;
  [repeat (let F := fresh in apply field_inj in E as [F E];
     try apply (inj Some) in F;
     try first [apply (inj JString) in F | apply (inj JBool) in F | apply (inj JInt) in F
       | apply (inj JArray) in F]); clear E
  | done | by apply (bool_decide_unpack _)].

#[export] Instance layer_json_inj : Inj (=) (=) layer_json.
Proof. intros [] [] E. unfold layer_json in E. struct_fields E. simpl in *. by subst. Qed.

#[export] Instance permission_json_inj : Inj (=) (=) permission_json.
Proof. intros [] [] E. unfold permission_json in E. struct_fields E. simpl in *. by subst. Qed.

#[export] Instance action_json_inj : Inj (=) (=) action_json.
Proof.
  intros [p c] [q d] E. unfold action_json in E. struct_fields E. simpl in *. subst.
  f_equal. by apply nil_json_inj.
Qed.

#[export] Instance rule_json_inj : Inj (=) (=) rule_json.
Proof.
  intros [] [] E. unfold rule_json in E. struct_fields E. simpl in *. subst.
  f_equal. by apply (inj (fmap JString)).
Qed.

#[export] Instance bus_json_inj : Inj (=) (=) bus_json.
Proof.
  intros [t w] [t' w'] E. unfold bus_json in E. struct_fields E. simpl in *.
  f_equal; by apply (omit_empty_inj _).
Qed.

#[export] Instance picker_json_inj : Inj (=) (=) picker_json.
Proof.
  intros [] [] E. unfold picker_json in E. struct_fields E. simpl in *.
  f_equal; by apply omit_false_inj.
Qed.

#[export] Instance package_json_inj : Inj (=) (=) package_json.
Proof.
  intros [] [] E. unfold package_json in E. struct_fields E. simpl in *. subst.
  f_equal; try by apply nil_json_inj. by apply (inj (fmap layer_json)).
Qed.

#[export] Instance policy_json_inj : Inj (=) (=) policy_json.
Proof.
  intros [] [] E. unfold policy_json in E. struct_fields E. simpl in *. subst.
  f_equal; first [by apply omit_false_inj | by apply (omit_empty_inj _)
    | by apply picker_json_inj | by apply bus_json_inj].
Qed.

(** ** What the roots bind *)

(** The same identity, up to the order of the lists that are sets. *)
Record same_package (p q : Package) : Prop := {
  sp_origin : Origin p = Origin q;
  sp_selector : Selector p = Selector q;
  sp_version : Version p = Version q;
  sp_manifest : ManifestDigest p = ManifestDigest q;
  sp_image : ImageDigest p = ImageDigest q;
  sp_config : ConfigDigest p = ConfigDigest q;
  sp_layers : Layers p = Layers q;
  sp_dependencies : Dependencies p ≡ₚ Dependencies q;
  sp_addons : Addons p ≡ₚ Addons q;
  sp_binaries : Binaries p ≡ₚ Binaries q;
  sp_entries : DesktopEntries p ≡ₚ DesktopEntries q;
  sp_sessions : Sessions p ≡ₚ Sessions q
}.

Lemma sorted_eq_perm l1 l2 : sorted l1 = sorted l2 ↔ l1 ≡ₚ l2.
Proof.
  unfold sorted. split; [|apply sort_strings_proper]. intros E.
  by rewrite <-(sort_strings_perm l1), E, sort_strings_perm.
Qed.

Lemma canonical_package_iff p q :
  canonicalPackage p = canonicalPackage q ↔ same_package p q.
Proof.
  unfold canonicalPackage. split.
  - intros [=]. split; try done; by apply sorted_eq_perm.
  - intros []. f_equal; try done; by apply sorted_eq_perm.
Qed.

(** The strings of an identity and of a policy are UTF-8. *)
Definition package_text_valid (p : Package) : bool :=
  json_valid (package_json (canonicalPackage p)).
Definition policy_text_valid (o : Override) : bool :=
  json_valid (policy_json (canonicalPolicy o)).

Lemma root_ok sha p r :
  Root sha p = Ok r → r = digestJSON sha "package" (encode (package_json (canonicalPackage p))).
Proof. unfold Root. rewrite !bind_unit_ok. by intros (_ & _ & [= <-]). Qed.

Lemma policy_root_text sha o :
  PolicyRoot sha o = Ok (digestJSON sha "policy" (encode (policy_json (canonicalPolicy o)))).
Proof. done. Qed.

Lemma policy_root_same sha o o' :
  canonicalPolicy o' = canonicalPolicy o → PolicyRoot sha o' = PolicyRoot sha o.
Proof. unfold PolicyRoot, PolicyRootForSchema, policy_text. by intros ->. Qed.

Lemma package_roots_agree sha p q r :
  package_text_valid p = true → package_text_valid q = true →
  Root sha p = Ok r → Root sha q = Ok r → same_package p q ∨ collision sha.
Proof.
  intros Hp Hq ->%root_ok E%root_ok.
  apply json_root_binds in E as [E%(inj package_json)|?]; [|by right|done..].
  left. by apply canonical_package_iff.
Qed.

Lemma policy_roots_agree sha o o' r :
  policy_text_valid o = true → policy_text_valid o' = true →
  PolicyRoot sha o = Ok r → PolicyRoot sha o' = Ok r →
  canonicalPolicy o = canonicalPolicy o' ∨ collision sha.
Proof.
  intros Hp Hq. rewrite !policy_root_text. intros <-%(inj Ok) E%(inj Ok). symmetry in E.
  by apply json_root_binds in E as [E%(inj policy_json)|?]; [left|right|..].
Qed.

(** Two installations have the same package root exactly when they are the
    same package, with the layers in the same order and the remaining lists the
    same sets; the only other way to share a root is a collision of SHA-256. *)
Theorem package_root_binds sha p q r s :
  package_text_valid p = true → package_text_valid q = true →
  Root sha p = Ok r → Root sha q = Ok s →
  (same_package p q → r = s) ∧ (r = s → same_package p q ∨ collision sha).
Proof.
  intros Hp Hq Hr Hs. split.
  - intros E%canonical_package_iff. apply root_ok in Hr as ->, Hs as ->. by rewrite E.
  - intros ->. by eapply package_roots_agree.
Qed.

Definition package_example (addons : list string) : Package :=
  mkPackage "github.com/o/r" "branch:main" "1" "m" "sha256:i" "c" [mkLayer "l" "s" "t"]
    [] addons ["/usr/bin/a"] [] [].

Lemma package_root_binds_witness :
  ∃ r s, Root id (package_example ["b"; "a"]) = Ok r ∧ Root id (package_example ["a"; "b"]) = Ok s ∧
    r = s.
Proof.
  eexists _, _. split; [reflexivity|]. split; [reflexivity|].
  apply (package_root_binds id (package_example ["b"; "a"]) (package_example ["a"; "b"]));
    try reflexivity. split; try reflexivity. apply perm_swap.
Defined.

(** A policy root stands for what the policy grants: reordering a valid
    policy keeps its root, and two valid policies with one root restrict each
    other, so that each grants exactly what the other does, or exhibit a
    collision of SHA-256. *)
Theorem policy_root_binds sha o o' r :
  valid_override o → valid_override o' → PolicyRoot sha o = Ok r →
  (reordered o o' → PolicyRoot sha o' = Ok r) ∧
  (policy_text_valid o = true → policy_text_valid o' = true → PolicyRoot sha o' = Ok r →
   Restricts o o' = true ∧ Restricts o' o = true ∨ collision sha).
Proof.
  intros Hv Hv' Hr. split.
  - intros Hre. rewrite <-Hr. by apply policy_root_same, canonical_policy_same.
  - intros Ht Ht' Hr'. destruct (policy_roots_agree sha o o' r Ht Ht' Hr Hr') as [E|?];
      [left|by right].
    pose proof (valid_canonical_restricts o Hv) as [H1 H2].
    pose proof (valid_canonical_restricts o' Hv') as [H3 H4]. rewrite E in *.
    split; by eapply restricts_trans.
Qed.

Lemma policy_root_binds_witness :
  ∃ r, PolicyRoot id (policy_example ["org.example.B"; "org.example.A"]
      [mkPerm "/b" "read-only"; mkPerm "/a" "read-write"]) = Ok r ∧
    PolicyRoot id (policy_example ["org.example.A"; "org.example.B"]
      [mkPerm "/a" "read-write"; mkPerm "/b" "read-only"]) = Ok r.
Proof.
  eexists. split; [reflexivity|].
  eapply (policy_root_binds id (policy_example ["org.example.B"; "org.example.A"]
    [mkPerm "/b" "read-only"; mkPerm "/a" "read-write"])); [..|reflexivity|].
  1, 2: split; vm_compute; reflexivity.
  split; try done.
  - repeat constructor.
  - split; [apply perm_swap|]. exists (dp_talk bus_example). split; [done|].
    repeat constructor.
  - apply perm_swap.
Defined.

Lemma root_no_newline sha p r : Root sha p = Ok r → has_byte "010" r = false.
Proof. intros ->%root_ok. apply hex_no_newline. Qed.

Lemma policy_root_no_newline sha o r : PolicyRoot sha o = Ok r → has_byte "010" r = false.
Proof. rewrite policy_root_text. intros <-%(inj Ok). apply hex_no_newline. Qed.

Lemma launch_roots_agree sha rp ro rq ro' :
  has_byte "010" rp = false → has_byte "010" ro = false →
  has_byte "010" rq = false → has_byte "010" ro' = false →
  LaunchRoot sha rp ro = LaunchRoot sha rq ro' → rp = rq ∧ ro = ro' ∨ collision sha.
Proof.
  intros ???? [E|?]%digest_or_collision; [left|by right].
  unfold launch_preimage in E. do 2 apply app_inv_head_str in E.
  apply (f_equal (split_byte "010")) in E. unfold newline in E. cbn [String.append] in E.
  rewrite !split_byte_app in E by done. by injection E as -> ->.
Qed.

(** A launch root names one package and one policy: two launches with the
    same root are launches of the same package under policies with the same
    canonical form, or exhibit a collision of SHA-256. *)
Theorem launch_root_binds sha p q o o' rp rq ro ro' :
  package_text_valid p = true → package_text_valid q = true →
  policy_text_valid o = true → policy_text_valid o' = true →
  Root sha p = Ok rp → Root sha q = Ok rq →
  PolicyRoot sha o = Ok ro → PolicyRoot sha o' = Ok ro' →
  LaunchRoot sha rp ro = LaunchRoot sha rq ro' →
  (same_package p q ∧ canonicalPolicy o = canonicalPolicy o') ∨ collision sha.
Proof.
  intros Hp Hq Ho Ho' Hrp Hrq Hro Hro' [[-> ->]|?]%launch_roots_agree;
    [|by right|eauto using root_no_newline, policy_root_no_newline..].
  destruct (package_roots_agree sha p q rq Hp Hq Hrp Hrq) as [?|?]; [|by right].
  destruct (policy_roots_agree sha o o' ro' Ho Ho' Hro Hro') as [?|?]; [by left|by right].
Qed.

Lemma launch_root_binds_witness :
  (same_package (package_example ["a"]) (package_example ["a"]) ∧
   canonicalPolicy (policy_example [] []) = canonicalPolicy (policy_example [] [])) ∨ collision id.
Proof.
  eapply (launch_root_binds id (package_example ["a"]) (package_example ["a"])
    (policy_example [] []) (policy_example [] [])); reflexivity.
Defined.
