(* ===== verification/SignedState.v ===== *)
(** * Signed states ([pkg/signature/state.go], [identity.go])

    What a publisher signs: the tuple of origin, manifest, image, lock and
    generation, the one line format its bytes are written in, and the identity a
    certificate gives its signer. *)
From Stdlib Require Import Ascii.
From stdpp Require Import base strings list numbers pretty.
From S2P Require Import Prelude.
From S2P Require Import GoStrings.
From S2P Require Import Regex.
From S2P Require Import Utf8.
From S2P Require Import GoPath.
From S2P Require Import Hex.
From S2P Require Import Json.
From S2P Require Import Decimal.
From S2P Require Import TrustPolicy.
From S2P Require Import Roots.
From stdpp Require Import options.

Definition ABIVersion : Z := 1.
Definition canonicalPrefix : string := "cpak.signature.state.v1".
Definition hexadecimal : regex := RSet [("a", "f"); ("0", "9")]%char.
Definition sha256Pattern : regex := RTimes 64 hexadecimal.
Definition imageDigestPattern : regex := RSeq (RLit "sha256:") (RTimes 64 hexadecimal).

Record State : Type := mkState {
  st_ABI : Z;
  st_Origin : string;
  st_ManifestSHA256 : string;
  st_ImageDigest : string;
  st_LockSHA256 : string;
  st_Generation : N
}.
#[export] Instance state_eq_dec : EqDecision State.
Proof. solve_decision. Defined.

Inductive state_error : Type :=
  | StateABI (abi : Z) | StateOrigin (origin : string) | StateManifest (digest : string)
  | StateImage (digest : string) | StateLock (digest : string) | StateGeneration
  | NotOneState | NotField (index : nat) (name : string) | InvalidABI | InvalidGeneration
  | NonCanonicalEncoding.

(** [canonicalOrigin] and [foldASCII] of this package are those of
    [pkg/trustpolicy/origin.go], word for word. *)
Definition is_canonical (origin : string) : bool :=
  bool_decide (canonicalOrigin origin = Some origin).

Definition validate_state (s : State) : result state_error unit :=
  check_that (st_ABI s =? ABIVersion)%Z (StateABI (st_ABI s)) ;;;
  check_that (is_canonical (st_Origin s)) (StateOrigin (st_Origin s)) ;;;
  check_that (matches sha256Pattern (st_ManifestSHA256 s)) (StateManifest (st_ManifestSHA256 s)) ;;;
  check_that (matches imageDigestPattern (st_ImageDigest s)) (StateImage (st_ImageDigest s)) ;;;
  refuse_if (negb (bool_decide (st_LockSHA256 s = "")) &&
    negb (matches sha256Pattern (st_LockSHA256 s))) (StateLock (st_LockSHA256 s)) ;;;
  refuse_if (st_Generation s =? 0)%N StateGeneration.

Definition terminated (text : string) : string := text +:+ newline.

Definition Canonical (s : State) : result state_error string :=
  validate_state s ;;;
  Ok (concat_strings [
    terminated canonicalPrefix;
    terminated ("abi=" +:+ pretty (st_ABI s));
    terminated ("origin=" +:+ st_Origin s);
    terminated ("manifest_sha256=" +:+ st_ManifestSHA256 s);
    terminated ("image_digest=" +:+ st_ImageDigest s);
    terminated ("lock_sha256=" +:+ st_LockSHA256 s);
    terminated ("generation=" +:+ pretty (st_Generation s))]).

Definition field_names : list string :=
  ["abi"; "origin"; "manifest_sha256"; "image_digest"; "lock_sha256"; "generation"].

(** The loop over the names: the value of each line, in order. *)
Fixpoint field_values (index : nat) (names lines : list string) : result state_error (list string) :=
  match names, lines with
  | name :: names, line :: lines =>
      let prefix := name +:+ "=" in
      check_that (has_prefix prefix line) (NotField index name) ;;;
      values ← field_values (S index) names lines;
      Ok (trim_prefix prefix line :: values)
  | _, _ => Ok []
  end.

Definition newline_byte : ascii := "010"%char.

Definition ParseCanonicalState (document : string) : result state_error State :=
  match split_byte newline_byte document with
  | [l0; l1; l2; l3; l4; l5; l6; l7] =>
      refuse_if (negb (bool_decide (l0 = canonicalPrefix)) || negb (bool_decide (l7 = "")))
        NotOneState ;;;
      values ← field_values 1 field_names [l1; l2; l3; l4; l5; l6];
      match values with
      | [v0; v1; v2; v3; v4; v5] =>
          match atoi v0 with
          | None => Err InvalidABI
          | Some abi =>
              match parse_uint v5 with
              | None => Err InvalidGeneration
              | Some generation =>
                  let state := mkState abi v1 v2 v3 v4 generation in
                  canonical ← Canonical state;
                  check_that (bool_decide (canonical = document)) NonCanonicalEncoding ;;;
                  Ok state
              end
          end
      | _ => Err NotOneState
      end
  | _ => Err NotOneState
  end.

Section Digest.
Context (sha256 : string → string).

Definition Digest (s : State) : result state_error string :=
  canonical ← Canonical s;
  Ok (hex_encode (sha256 canonical)).
End Digest.

(** ** Identities *)
Definition githubHost : string := "github.com".
Definition githubActionsIssuer : string := "https://token.actions.githubusercontent.com".

Record Identity : Type := mkIdentity { id_Issuer : string; id_Subject : string; id_Repo : string }.
#[export] Instance identity_eq_dec : EqDecision Identity.
Proof. solve_decision. Defined.

(** [strings.Cut(want, "/")], of which the code keeps what is before. *)
Definition before_slash (s : string) : string := default "" (head (split_byte slash s)).

Definition MatchesOrigin (i : Identity) (origin : string) : bool :=
  match canonicalOrigin origin with
  | None => false
  | Some want =>
      bool_decide (before_slash want = githubHost) &&
      bool_decide (id_Issuer i = githubActionsIssuer) &&
      bool_decide (canonicalOrigin (id_Repo i) = Some want)
  end.

(** ** The canonical bytes *)
Lemma sha256_no_newline s : matches sha256Pattern s = true → has_byte newline_byte s = false.
Proof. apply matches_lacks. by_bytes. Qed.

Lemma image_no_newline s : matches imageDigestPattern s = true → has_byte newline_byte s = false.
Proof. apply matches_lacks. by_bytes. Qed.

Lemma origin_no_newline o : is_canonical o = true → has_byte newline_byte o = false.
Proof.
  unfold is_canonical. rewrite bool_decide_eq_true. intros H.
  destruct (canonical_origin_lower _ _ H) as (_ & _ & E).
  unfold canonicalOrigin in H. rewrite E in H. pose proof (join_split slash o) as Hj.
  destruct (split_byte slash o) as [|h [|w [|r [|]]]]; try done.
  destruct (matches hostPattern h && _ && _) eqn:Em; [|done]. bools_in Em. destruct Em as [[Hh Hw] Hr].
  rewrite <-Hj. apply has_byte_join; [done|]. intros x Hx.
  repeat (apply elem_of_cons in Hx as [->|Hx]; [eapply matches_lacks; [|eassumption]; by_bytes|]).
  by apply elem_of_nil in Hx.
Qed.

(** A state the machine can hold and that means something. *)
Definition in_range (s : State) : Prop := (st_Generation s < uint64_limit)%N.

Definition state_lines (s : State) : list string := [
  canonicalPrefix;
  "abi=" +:+ pretty (st_ABI s);
  "origin=" +:+ st_Origin s;
  "manifest_sha256=" +:+ st_ManifestSHA256 s;
  "image_digest=" +:+ st_ImageDigest s;
  "lock_sha256=" +:+ st_LockSHA256 s;
  "generation=" +:+ pretty (st_Generation s); ""].

Lemma validate_state_ok s :
  validate_state s = Ok tt ↔
  st_ABI s = ABIVersion ∧ canonicalOrigin (st_Origin s) = Some (st_Origin s) ∧
  matches sha256Pattern (st_ManifestSHA256 s) = true ∧
  matches imageDigestPattern (st_ImageDigest s) = true ∧
  (st_LockSHA256 s = "" ∨ matches sha256Pattern (st_LockSHA256 s) = true) ∧
  st_Generation s ≠ 0%N.
Proof.
  unfold validate_state, is_canonical. rewrite !bind_unit_ok. bools.
  destruct (decide (st_LockSHA256 s = "")); naive_solver.
Qed.

Lemma canonical_ok s document :
  Canonical s = Ok document ↔
  validate_state s = Ok tt ∧ document = join (String newline_byte "") (state_lines s).
Proof.
  unfold Canonical. rewrite bind_unit_ok.
  assert (concat_strings [
    terminated canonicalPrefix;
    terminated ("abi=" +:+ pretty (st_ABI s));
    terminated ("origin=" +:+ st_Origin s);
    terminated ("manifest_sha256=" +:+ st_ManifestSHA256 s);
    terminated ("image_digest=" +:+ st_ImageDigest s);
    terminated ("lock_sha256=" +:+ st_LockSHA256 s);
    terminated ("generation=" +:+ pretty (st_Generation s))] =
    join (String newline_byte "") (state_lines s)) as ->.
  { unfold terminated, newline, state_lines. cbn [concat_strings foldr].
    rewrite !app_assoc_str. reflexivity. }
  naive_solver.
Qed.

Lemma state_lines_split s :
  validate_state s = Ok tt →
  split_byte newline_byte (join (String newline_byte "") (state_lines s)) = state_lines s.
Proof.
  intros (Habi & Ho & Hm & Hi & Hl & _)%validate_state_ok. apply split_join; [done|].
  apply sha256_no_newline in Hm. apply image_no_newline in Hi.
  assert (has_byte newline_byte (st_LockSHA256 s) = false) as Hlock
    by (destruct Hl as [->|Hl]; [done|by apply sha256_no_newline]).
  pose proof (origin_no_newline (st_Origin s)) as Hor. unfold is_canonical in Hor.
  rewrite bool_decide_eq_true_2 in Hor by done. specialize (Hor eq_refl).
  pose proof (pretty_no_newline (st_Generation s)) as Hg.
  intros x Hx. unfold state_lines in Hx.
  repeat (apply elem_of_cons in Hx as [->|Hx];
    [rewrite ?has_byte_app, ?Hm, ?Hi, ?Hlock, ?Hor, ?Hg, ?Habi; done|]).
  by apply elem_of_nil in Hx.
Qed.

Lemma parse_lines s :
  validate_state s = Ok tt → in_range s →
  ParseCanonicalState (join (String newline_byte "") (state_lines s)) = Ok s.
Proof.
  intros Hv Hr. unfold ParseCanonicalState. rewrite state_lines_split by done.
  unfold state_lines at 1. cbn [refuse_if mbind result_bind negb bool_decide].
  rewrite !bool_decide_eq_true_2 by done. cbn [negb orb refuse_if mbind result_bind field_names field_values].
  rewrite !has_prefix_app, !trim_prefix_app. cbn [check_that mbind result_bind].
  pose proof Hv as (Habi & _)%validate_state_ok.
  assert (atoi (pretty (st_ABI s)) = Some (st_ABI s)) as -> by by rewrite Habi.
  rewrite (parse_uint_pretty _ Hr). destruct s as [abi o m i l g].
  rewrite (proj2 (canonical_ok _ _)) by done. cbn [mbind result_bind].
  by rewrite bool_decide_eq_true_2.
Qed.

Lemma parsed_canonical document s :
  ParseCanonicalState document = Ok s → Canonical s = Ok document.
Proof.
  unfold ParseCanonicalState.
  destruct (split_byte newline_byte document) as
    [|l0 [|l1 [|l2 [|l3 [|l4 [|l5 [|l6 [|l7 [|]]]]]]]]]; try done.
  rewrite bind_unit_ok, bind_ok. intros (_ & values & _ & H).
  destruct values as [|v0 [|v1 [|v2 [|v3 [|v4 [|v5 [|]]]]]]]; try done.
  destruct (atoi v0); [|done]. destruct (parse_uint v5); [|done].
  apply bind_ok in H as (canonical & Hc & H). rewrite bind_unit_ok in H. bools_in H.
  by destruct H as [-> [= <-]].
Qed.

Lemma parsed_range document s : ParseCanonicalState document = Ok s → in_range s.
Proof.
  unfold ParseCanonicalState, in_range.
  destruct (split_byte newline_byte document) as
    [|l0 [|l1 [|l2 [|l3 [|l4 [|l5 [|l6 [|l7 [|]]]]]]]]]; try done.
  rewrite bind_unit_ok, bind_ok. intros (_ & values & _ & H).
  destruct values as [|v0 [|v1 [|v2 [|v3 [|v4 [|v5 [|]]]]]]]; try done.
  destruct (atoi v0); [|done]. destruct (parse_uint v5) as [generation|] eqn:E; [|done].
  apply bind_ok in H as (canonical & _ & H). rewrite bind_unit_ok in H. destruct H as [_ [= <-]].
  simpl. unfold parse_uint in E. destruct v5; [done|].
  apply bind_Some in E as (n & _ & E). destruct (n <? uint64_limit)%N eqn:El; [|done].
  injection E as <-. by apply N.ltb_lt.
Qed.

(** A canonical document has one reading: nothing in it can be taken for the end
    of a line. *)
Lemma canonical_inj s t document :
  Canonical s = Ok document → Canonical t = Ok document → s = t.
Proof.
  intros [Hs ->]%canonical_ok [Ht E]%canonical_ok.
  apply (f_equal (split_byte newline_byte)) in E. rewrite !state_lines_split in E by done.
  unfold state_lines in E. injection E as _ Ho Hm Hi Hl Hg.
  apply validate_state_ok in Hs as [Hs _], Ht as [Ht _].
  destruct s, t; simpl in *. apply (inj pretty) in Hg. congruence.
Qed.

(** C26: the canonical bytes of a state and its parser are inverse to each other.
    A state that validates, with a generation of sixty-four bits, is read back
    from the bytes a publisher signs; and the parser accepts only such bytes, so
    that a document has one state and a state one document. *)
Theorem canonical_round_trip s document :
  in_range s →
  (Canonical s = Ok document ↔ ParseCanonicalState document = Ok s).
Proof.
  intros Hr. split; [|apply parsed_canonical].
  intros [Hv ->]%canonical_ok. by apply parse_lines.
Qed.

Definition state_example : State :=
  mkState 1 "github.com/acme/tool" (concat_strings (repeat "0a" 32))
    ("sha256:" +:+ concat_strings (repeat "1b" 32)) "" 7.

Lemma canonical_round_trip_witness :
  ∃ document, Canonical state_example = Ok document ∧
    ParseCanonicalState document = Ok state_example.
Proof.
  eexists. split; [vm_compute; reflexivity|].
  apply (canonical_round_trip state_example); [vm_compute; reflexivity|vm_compute; reflexivity].
Defined.

(** The digest signed names one state. *)
Lemma digest_binds sha256 s t d :
  Digest sha256 s = Ok d → Digest sha256 t = Ok d → s = t ∨ collision sha256.
Proof.
  unfold Digest. intros (x & Hx & [= Ex])%bind_ok (y & Hy & [= Ey])%bind_ok. subst d.
  apply digest_or_collision in Ey as [->|?]; [left|by right]. by eapply canonical_inj.
Qed.

(** ** Identities *)
Lemma matches_origin_iff i origin :
  MatchesOrigin i origin = true ↔
  ∃ want, canonicalOrigin origin = Some want ∧ canonicalOrigin (id_Repo i) = Some want ∧
    before_slash want = githubHost ∧ id_Issuer i = githubActionsIssuer.
Proof.
  unfold MatchesOrigin. destruct (canonicalOrigin origin) as [want|].
  - bools. naive_solver.
  - naive_solver.
Qed.
