(* ===== verification/Evidence.v ===== *)
(** * Signature evidence ([pkg/signature/evidence.go], [verify.go])

    The envelope a signature travels in, the dispatch to the verifier of its
    kind, the publisher a verified certificate names, and the decision whether
    that publisher may speak for an origin.  [sigstore-go], the X.509 verifier,
    [%q] and SHA-256 are parameters. *)
From Stdlib Require Import Ascii.
From stdpp Require Import base strings list numbers pretty gmap.
From S2P Require Import Prelude.
From S2P Require Import GoStrings.
From S2P Require Import Utf8.
From S2P Require Import GoPath.
From S2P Require Import Hex.
From S2P Require Import Json.
From S2P Require Import TrustPolicy.
From S2P Require Import AppTrust.
From S2P Require Import Roots.
From S2P Require Import SignedState.
From stdpp Require Import options.

Definition EvidenceABIVersion : Z := 1.
Definition EvidenceSigstoreBundle : string := "sigstore-bundle-v1".
Definition EvidenceX509CMS : string := "x509-cms-v1".
Definition SigstoreBundleMediaType : string := "application/vnd.dev.sigstore.bundle.v0.3+json".
Definition X509CMSMediaType : string := "application/pkcs7-signature".

Record SignatureEvidence : Type := mkEvidence {
  ev_ABI : Z;
  ev_Kind : string;
  ev_State : State;
  ev_MediaType : string;
  ev_Payload : string
}.
#[export] Instance evidence_eq_dec : EqDecision SignatureEvidence.
Proof. solve_decision. Defined.

Record evidenceProfile : Type := mkProfile { mediaType : string; text : bool }.

Definition evidenceProfiles (kind : string) : option evidenceProfile :=
  if bool_decide (kind = EvidenceSigstoreBundle)
  then Some (mkProfile SigstoreBundleMediaType true)
  else if bool_decide (kind = EvidenceX509CMS)
  then Some (mkProfile X509CMSMediaType false)
  else None.

Record PublisherIdentity : Type := mkPublisherIdentity {
  pi_Kind : string;
  pi_ID : string;
  pi_DisplayName : string;
  pi_Issuer : string;
  pi_Repository : string;
  pi_Assurance : string;
  pi_Claims : gmap string string
}.
#[export] Instance publisher_identity_eq_dec : EqDecision PublisherIdentity.
Proof. solve_decision. Defined.

Inductive OriginAuthorizationStatus : Type := OriginAuthorized | OriginForeign | OriginUnsupported.
#[export] Instance authorization_status_eq_dec : EqDecision OriginAuthorizationStatus.
Proof. solve_decision. Defined.
Definition authorization_text (s : OriginAuthorizationStatus) : string :=
  match s with
  | OriginAuthorized => "authorized"
  | OriginForeign => "foreign"
  | OriginUnsupported => "unsupported"
  end.
Record OriginAuthorization : Type := mkAuthorization {
  oa_Status : OriginAuthorizationStatus;
  oa_ReasonCode : string
}.

Definition CryptographicVerified : string := "verified".
Definition CryptographicInvalid : string := "invalid".
Definition CryptographicUnsupported : string := "unsupported".
Definition ChainNotApplicable : string := "not-applicable".
Definition ChainTrustedPublic : string := "trusted-public".
Definition ChainTrustedLocal : string := "trusted-local".
Definition ChainUntrusted : string := "untrusted".
Definition ChainInvalid : string := "invalid".
Definition SigningTimeCurrent : string := "current".
Definition SigningTimeTimestamped : string := "timestamped".
Definition SigningTimeMissing : string := "missing".
Definition SigningTimeExpired : string := "expired".
Definition SigningTimeNotYetValid : string := "not-yet-valid".
Definition SigningTimeInvalid : string := "invalid".
Definition RevocationGood : string := "good".
Definition RevocationRevoked : string := "revoked".
Definition RevocationUnknown : string := "unknown".
Definition RevocationStale : string := "stale".

(** An error of the Sigstore path: which sentinel it wraps, and its text. *)
Inductive sigstore_kind : Type :=
  | SigInvalidState | SigStateMismatch | SigNotKeyless | SigUntrusted | SigOther.
#[export] Instance sigstore_kind_eq_dec : EqDecision sigstore_kind.
Proof. solve_decision. Defined.
Record sigstore_error : Type := mkSigError { se_kind : sigstore_kind; se_text : string }.
#[export] Instance sigstore_error_eq_dec : EqDecision sigstore_error.
Proof. solve_decision. Defined.

Record VerificationResult : Type := mkVerificationResult {
  vr_EvidenceKind : string;
  vr_StateDigest : string;
  vr_Cryptographic : string;
  vr_Chain : string;
  vr_SigningTime : string;
  vr_Revocation : string;
  vr_Publisher : option PublisherIdentity;
  vr_RootSource : string;
  vr_OriginAuthorization : string;
  vr_ReasonCode : string;
  vr_Diagnostic : string;
  vr_legacyIdentity : option Identity;
  vr_failure : option sigstore_error
}.
#[export] Instance verification_result_eq_dec : EqDecision VerificationResult.
Proof. solve_decision. Defined.

Record Verified : Type := mkVerified {
  v_State : State;
  v_Identity : Identity;
  v_Publisher : option PublisherIdentity
}.

Definition NewSigstoreEvidence (state : State) (bundle : string) : SignatureEvidence :=
  mkEvidence EvidenceABIVersion EvidenceSigstoreBundle state SigstoreBundleMediaType bundle.

(** [strings.Contains]. *)

(** The case of [InvalidEvidenceError], whose text is [reason]. *)
Definition evidenceReason (reason : string) : string :=
  if contains "abi" reason then "unsupported-evidence-abi"
  else if contains "kind" reason then "unsupported-evidence-kind"
  else if contains "media type" reason then "unsupported-evidence-media-type"
  else if contains "empty" reason then "empty-evidence-payload"
  else "invalid-evidence-envelope".

Definition invalid_evidence_text (reason : string) : string :=
  "signature: invalid evidence: " +:+ reason.

Definition safeDiagnostic (value : string) : string :=
  let value := strings_map (λ r, if control r then None else Some r) value in
  if 512 <? slen value then cut_valid 512 value else value.

Section Evidence.
Context (sha256 quote : string → string).

(** The text of an error of [State.Validate]. *)
Definition state_error_text (e : state_error) : string :=
  "signature: state is not well formed: " +:+
  match e with
  | StateABI abi => "unsupported state abi " +:+ pretty abi
  | StateOrigin origin => "origin is not a lowercase host/owner/repository: " +:+ quote origin
  | StateManifest digest => "manifest hash is not a sha256: " +:+ quote digest
  | StateImage digest => "image reference is not a digest: " +:+ quote digest
  | StateLock digest => "lock hash is not a sha256: " +:+ quote digest
  | _ => "generation 0 names no state"
  end.

Definition ValidateEnvelope (e : SignatureEvidence) : result string unit :=
  check_that (ev_ABI e =? EvidenceABIVersion)%Z ("unsupported abi " +:+ pretty (ev_ABI e)) ;;;
  wrap state_error_text (validate_state (ev_State e)) ;;;
  match evidenceProfiles (ev_Kind e) with
  | None => Err "unsupported evidence kind"
  | Some profile =>
      check_that (bool_decide (ev_MediaType e = mediaType profile))
        "unsupported media type for evidence kind" ;;;
      refuse_if (text profile && negb (valid_utf8 (ev_Payload e))) "evidence payload is not text" ;;;
      refuse_if (slen (ev_Payload e) =? 0) "payload is empty"
  end.

(** [digest, _ := evidence.State.Digest()]. *)
Definition digest_or_empty (s : State) : string :=
  match Digest sha256 s with Ok digest => digest | Err _ => "" end.

Definition oidc_preimage (issuer repo : string) : string :=
  "cpak.publisher.oidc.v1" +:+ newline +:+ "issuer=" +:+ issuer +:+ newline +:+
  "repository=" +:+ repo +:+ newline.

Definition NormalizeOIDCIdentity (identity : Identity) :
    option PublisherIdentity * OriginAuthorization :=
  match canonicalOrigin (id_Repo identity) with
  | None => (None, mkAuthorization OriginUnsupported "missing-or-invalid-source-repository")
  | Some repo =>
      let publisher := {|
        pi_Kind := "sigstore-oidc-v1";
        pi_ID := "oidc-v1-sha256:" +:+ hex_encode (sha256 (oidc_preimage (id_Issuer identity) repo));
        pi_DisplayName := repo;
        pi_Issuer := id_Issuer identity;
        pi_Repository := repo;
        pi_Assurance := "keyless-oidc";
        pi_Claims := {[ "subject" := id_Subject identity ]}
      |} in
      (Some publisher,
       if negb (bool_decide (id_Issuer identity = githubActionsIssuer))
       then mkAuthorization OriginUnsupported "unsupported-oidc-issuer"
       else mkAuthorization OriginForeign "source-repository-does-not-match-origin")
  end.

Definition AuthorizeOIDCOrigin (publisher : option PublisherIdentity) (origin : string) :
    OriginAuthorization :=
  match publisher with
  | None => mkAuthorization OriginUnsupported "unsupported-publisher-identity"
  | Some p =>
      if negb (bool_decide (pi_Kind p = "sigstore-oidc-v1")) ||
         negb (bool_decide (pi_Issuer p = githubActionsIssuer))
      then mkAuthorization OriginUnsupported "unsupported-publisher-identity"
      else if negb (is_canonical origin)
      then mkAuthorization OriginUnsupported "invalid-package-origin"
      else if negb (bool_decide (pi_Repository p = origin))
      then mkAuthorization OriginForeign "source-repository-does-not-match-origin"
      else mkAuthorization OriginAuthorized "oidc-repository-matches-origin"
  end.

(** ** The Sigstore verifier

    [verifyDigest]: the bundle against the trust root, for the digest of the
    state, and the identity its certificate names. *)
Context (verifyDigest : string → string → result sigstore_error Identity).

Definition verifyWith (bundle : string) (state : State) : result sigstore_error Verified :=
  canonical ← wrap (λ e, mkSigError SigInvalidState (state_error_text e)) (Canonical state);
  identity ← verifyDigest bundle (sha256 canonical);
  Ok (mkVerified state identity None).

Definition verifyPublisherWith (bundle : string) (state : State) : result sigstore_error Verified :=
  verified ← verifyWith bundle state;
  check_that (MatchesOrigin (v_Identity verified) (st_Origin state))
    (mkSigError SigOther ("signature: signer cannot publish this origin: " +:+
      quote (id_Repo (v_Identity verified)) +:+ " cannot publish " +:+ quote (st_Origin state))) ;;;
  Ok verified.

Definition sigstoreReason (e : sigstore_error) : string :=
  match se_kind e with
  | SigStateMismatch => "signed-state-mismatch"
  | SigNotKeyless => "sigstore-certificate-required"
  | SigUntrusted => "sigstore-bundle-untrusted"
  | SigInvalidState => "invalid-signed-state"
  | SigOther => "sigstore-verification-failed"
  end.

(** The result a verifier starts from. *)
Definition base_result (e : SignatureEvidence) (cryptographic chain reason diagnostic : string) :
    VerificationResult :=
  mkVerificationResult (ev_Kind e) (digest_or_empty (ev_State e)) cryptographic chain
    SigningTimeInvalid RevocationUnknown None "" (authorization_text OriginUnsupported)
    reason diagnostic None None.

Definition validateSigstoreEvidence (e : SignatureEvidence) : option VerificationResult :=
  if negb (bool_decide (ev_Kind e = EvidenceSigstoreBundle))
  then Some (base_result e CryptographicUnsupported ChainUntrusted "unsupported-evidence-kind" "")
  else match ValidateEnvelope e with
  | Err reason =>
      Some (base_result e CryptographicInvalid ChainUntrusted (evidenceReason reason)
        (safeDiagnostic (invalid_evidence_text reason)))
  | Ok _ => None
  end.

Definition verifySigstoreWith (e : SignatureEvidence) : VerificationResult :=
  match validateSigstoreEvidence e with
  | Some invalid => invalid
  | None =>
      match verifyWith (ev_Payload e) (ev_State e) with
      | Err err =>
          mkVerificationResult (ev_Kind e) (digest_or_empty (ev_State e)) CryptographicInvalid
            (if bool_decide (se_kind err = SigUntrusted) then ChainUntrusted else ChainNotApplicable)
            SigningTimeInvalid RevocationUnknown None "" (authorization_text OriginUnsupported)
            (sigstoreReason err) (safeDiagnostic (se_text err)) None (Some err)
      | Ok verified =>
          let '(publisher, preliminary) := NormalizeOIDCIdentity (v_Identity verified) in
          let authorization := match publisher with
            | Some _ => AuthorizeOIDCOrigin publisher (st_Origin (ev_State e))
            | None => preliminary
            end in
          mkVerificationResult (ev_Kind e) (digest_or_empty (ev_State e)) CryptographicVerified
            ChainTrustedPublic SigningTimeTimestamped RevocationUnknown publisher
            "bundled-sigstore" (authorization_text (oa_Status authorization))
            (oa_ReasonCode authorization) "" (Some (v_Identity verified)) None
      end
  end.

(** [SigstoreVerifier.Verify], [trust_root] being the loading of the bundled
    root; and [VerifyEvidence], the X.509 verifier being the other entry of
    [commonVerifiers]. *)
Context (trust_root : result string unit).

Definition SigstoreVerify (e : SignatureEvidence) : result string VerificationResult :=
  match validateSigstoreEvidence e with
  | Some invalid => Ok invalid
  | None => trust_root ;;; Ok (verifySigstoreWith e)
  end.

Context (x509_verify : SignatureEvidence → Z → result string VerificationResult).

Definition VerifyEvidence (e : SignatureEvidence) (now : Z) : result string VerificationResult :=
  match ValidateEnvelope e with
  | Err reason =>
      Ok (base_result e CryptographicInvalid ChainNotApplicable (evidenceReason reason)
        (safeDiagnostic (invalid_evidence_text reason)))
  | Ok _ =>
      if bool_decide (ev_Kind e = EvidenceSigstoreBundle) then SigstoreVerify e
      else if bool_decide (ev_Kind e = EvidenceX509CMS) then x509_verify e now
      else Ok (base_result e CryptographicUnsupported ChainNotApplicable "unsupported-evidence-kind"
        "this cpak build has no verifier for the evidence kind")
  end.
End Evidence.

(** ** The projection callers of the old interface see *)
Definition legacy_error (r : VerificationResult) : string :=
  "signature: " +:+ vr_ReasonCode r +:+ ": " +:+ vr_Diagnostic r.

Definition one_of (value : string) (choices : list string) : bool :=
  existsb (λ c, bool_decide (value = c)) choices.

Definition no_identity : Identity := mkIdentity "" "" "".

Definition LegacyVerified (r : VerificationResult) (state : State) : result string Verified :=
  check_that (bool_decide (vr_Cryptographic r = CryptographicVerified))
    (match vr_failure r with Some failure => se_text failure | None => legacy_error r end) ;;;
  refuse_if (one_of (vr_Chain r) [ChainUntrusted; ChainInvalid]) (legacy_error r) ;;;
  refuse_if (one_of (vr_SigningTime r)
    [SigningTimeMissing; SigningTimeExpired; SigningTimeNotYetValid; SigningTimeInvalid])
    (legacy_error r) ;;;
  refuse_if (one_of (vr_Revocation r) [RevocationRevoked; RevocationStale]) (legacy_error r) ;;;
  match vr_legacyIdentity r with
  | Some identity => Ok (mkVerified state identity (vr_Publisher r))
  | None =>
      match vr_Publisher r with
      | None => Err "signature: verified evidence names no usable publisher identity"
      | Some p =>
          Ok (mkVerified state
            (if bool_decide (pi_Kind p = "sigstore-oidc-v1")
             then mkIdentity (pi_Issuer p) (default "" (pi_Claims p !! "subject")) (pi_Repository p)
             else no_identity) (Some p))
      end
  end.

(** ** Who may speak for an origin *)

(** What the common path concludes of a verified identity. *)
Definition common_authorization (sha256 : string → string) (i : Identity) (origin : string) :
    OriginAuthorization :=
  let '(publisher, preliminary) := NormalizeOIDCIdentity sha256 i in
  match publisher with Some _ => AuthorizeOIDCOrigin publisher origin | None => preliminary end.

Lemma common_authorized_iff sha256 i origin :
  oa_Status (common_authorization sha256 i origin) = OriginAuthorized ↔
  canonicalOrigin origin = Some origin ∧ canonicalOrigin (id_Repo i) = Some origin ∧
  id_Issuer i = githubActionsIssuer.
Proof.
  unfold common_authorization, NormalizeOIDCIdentity.
  destruct (canonicalOrigin (id_Repo i)) as [repo|] eqn:Er; [|naive_solver].
  unfold AuthorizeOIDCOrigin, is_canonical. cbn [pi_Kind pi_Issuer pi_Repository].
  rewrite (bool_decide_eq_true_2 ("sigstore-oidc-v1" = "sigstore-oidc-v1")) by done.
  cbn [negb orb]. repeat case_bool_decide; cbn; naive_solver.
Qed.

(** The two ways the code asks whether a verified identity may speak for an
    origin agree on every canonical origin but for one thing: [MatchesOrigin]
    also asks that the origin is on github.com, and the common path, which every
    enrolment takes, does not.  Both hold the issuer to GitHub Actions and the
    repository of the certificate to the whole of the origin. *)
Theorem authorization_agrees sha256 i origin :
  canonicalOrigin origin = Some origin →
  (MatchesOrigin i origin = true ↔
   oa_Status (common_authorization sha256 i origin) = OriginAuthorized ∧
   before_slash origin = githubHost) ∧
  (oa_Status (common_authorization sha256 i origin) = OriginAuthorized ↔
   canonicalOrigin (id_Repo i) = Some origin ∧ id_Issuer i = githubActionsIssuer).
Proof.
  intros Ho. rewrite common_authorized_iff, matches_origin_iff. split; [|naive_solver].
  split.
  - intros (want & Hw & ? & ? & ?). rewrite Ho in Hw. injection Hw as <-. done.
  - intros [(_ & ? & ?) ?]. by exists origin.
Qed.

Definition identity_example (repo : string) : Identity :=
  mkIdentity githubActionsIssuer "workflow" repo.

Lemma authorization_agrees_witness :
  MatchesOrigin (identity_example "GitHub.com/Acme/tool") "github.com/acme/tool" = true.
Proof.
  apply (authorization_agrees (λ s, s) (identity_example "GitHub.com/Acme/tool")
    "github.com/acme/tool"); [vm_compute; reflexivity|].
  split; vm_compute; reflexivity.
Defined.

(** An identity of another host speaks for its origin on the common path. *)
Lemma host_not_checked sha256 :
  let i := identity_example "gitlab.com/acme/tool" in
  MatchesOrigin i "gitlab.com/acme/tool" = false ∧
  oa_Status (common_authorization sha256 i "gitlab.com/acme/tool") = OriginAuthorized.
Proof.
  split; [vm_compute; reflexivity|]. apply common_authorized_iff.
  split_and!; vm_compute; reflexivity.
Qed.

(** ** What an accepted result rests on *)
Lemma one_of_false v l : one_of v l = false ↔ v ∉ l.
Proof.
  unfold one_of. rewrite existsb_none. split.
  - intros H Hin. specialize (H v Hin). by rewrite bool_decide_eq_true_2 in H.
  - intros H x Hx. apply bool_decide_eq_false. by intros <-.
Qed.

Lemma legacy_verified_ok r state v :
  LegacyVerified r state = Ok v →
  vr_Cryptographic r = CryptographicVerified ∧
  vr_Chain r ∉ [ChainUntrusted; ChainInvalid] ∧
  vr_SigningTime r ∉ [SigningTimeMissing; SigningTimeExpired; SigningTimeNotYetValid; SigningTimeInvalid] ∧
  vr_Revocation r ∉ [RevocationRevoked; RevocationStale] ∧
  v_State v = state ∧ v_Publisher v = vr_Publisher r ∧
  (∀ i, vr_legacyIdentity r = Some i → v_Identity v = i).
Proof.
  unfold LegacyVerified. rewrite !bind_unit_ok, check_that_ok, !refuse_if_ok, !one_of_false,
    bool_decide_eq_true.
  intros (? & ? & ? & ? & H). split_and!; try done;
    destruct (vr_legacyIdentity r), (vr_Publisher r); simplify_eq/=; naive_solver.
Qed.

Lemma envelope_ok quote e :
  ValidateEnvelope quote e = Ok tt →
  validate_state (ev_State e) = Ok tt ∧ ev_Payload e ≠ "" ∧
  ∃ profile, evidenceProfiles (ev_Kind e) = Some profile ∧ ev_MediaType e = mediaType profile.
Proof.
  unfold ValidateEnvelope. rewrite !bind_unit_ok, wrap_ok. intros (_ & Hv & H).
  destruct (evidenceProfiles (ev_Kind e)) as [profile|]; [|done].
  rewrite !bind_unit_ok in H. bools_in H. destruct H as (Hm & _ & Hp).
  split_and!; [done| |by eauto]. intros Hn. by rewrite Hn in Hp.
Qed.

Section Accepted.
Context (sha256 quote : string → string).
Context (verifyDigest : string → string → result sigstore_error Identity).
Context (trust_root : result string unit).
Context (x509_verify : SignatureEvidence → Z → result string VerificationResult).

(** A Sigstore envelope the verifier calls verified and authorized was
    checked whole: its state is well formed, its bundle stands for the SHA-256 of
    exactly the canonical bytes of that state, and the certificate names the
    repository the state is published under, by GitHub Actions.  The result
    carries that publisher and the digest of that state, so a result cannot be
    moved to another state. *)
Theorem verified_publisher e now result v :
  ev_Kind e = EvidenceSigstoreBundle →
  VerifyEvidence sha256 quote verifyDigest trust_root x509_verify e now = Ok result →
  LegacyVerified result (ev_State e) = Ok v →
  vr_OriginAuthorization result = authorization_text OriginAuthorized →
  ∃ canonical identity,
    Canonical (ev_State e) = Ok canonical ∧
    verifyDigest (ev_Payload e) (sha256 canonical) = Ok identity ∧
    canonicalOrigin (id_Repo identity) = Some (st_Origin (ev_State e)) ∧
    id_Issuer identity = githubActionsIssuer ∧
    v_Identity v = identity ∧ v_Publisher v = fst (NormalizeOIDCIdentity sha256 identity) ∧
    vr_StateDigest result = hex_encode (sha256 canonical).
Proof.
  intros Hk H Hl Ha. unfold VerifyEvidence, SigstoreVerify in H.
  apply legacy_verified_ok in Hl as (Hc & _ & _ & _ & _ & Hp & Hi).
  destruct (ValidateEnvelope quote e) as [[]|reason] eqn:Ee; [|by injection H as <-].
  rewrite bool_decide_eq_true_2 in H by done. unfold verifySigstoreWith in H.
  destruct (validateSigstoreEvidence sha256 quote e) as [invalid|] eqn:Ev.
  { unfold validateSigstoreEvidence in Ev. rewrite Ee, bool_decide_eq_true_2 in Ev by done. done. }
  destruct trust_root as [[]|]; [|done]. injection H as <-. unfold verifyWith in *.
  destruct (Canonical (ev_State e)) as [canonical|] eqn:Ecan; [|done]. cbn [wrap mbind result_bind] in *.
  destruct (verifyDigest (ev_Payload e) (sha256 canonical)) as [identity|] eqn:Ed; [|done].
  cbn [mbind result_bind v_Identity] in *.
  pose proof (common_authorized_iff sha256 identity (st_Origin (ev_State e))) as Hauth.
  unfold common_authorization in Hauth.
  destruct (NormalizeOIDCIdentity sha256 identity) as [publisher preliminary] eqn:En.
  cbn [vr_Publisher vr_legacyIdentity vr_OriginAuthorization vr_StateDigest fst] in *.
  assert (∀ st, authorization_text st = authorization_text OriginAuthorized → st = OriginAuthorized)
    as Hinj by by intros [].
  apply Hinj, Hauth in Ha as (_ & Hrepo & Hiss).
  exists canonical, identity. rewrite En. split_and!; auto.
  unfold digest_or_empty, Digest. by rewrite Ecan.
Qed.
End Accepted.

Definition evidence_example : SignatureEvidence := NewSigstoreEvidence state_example "{}".
Definition digest_example (_ _ : string) : result sigstore_error Identity :=
  Ok (identity_example "github.com/acme/tool").
Definition verify_example : SignatureEvidence → Z → result string VerificationResult :=
  VerifyEvidence (λ s, s) (λ s, s) digest_example (Ok tt) (λ _ _, Err "no verifier").

Lemma verified_publisher_witness :
  ∃ identity, digest_example "{}" (default "" (match Canonical state_example with
      | Ok canonical => Some canonical | Err _ => None end)) = Ok identity ∧
    canonicalOrigin (id_Repo identity) = Some "github.com/acme/tool".
Proof.
  destruct (verify_example evidence_example 0) as [result|] eqn:E; [|vm_compute in E; discriminate].
  destruct (LegacyVerified result state_example) as [v|] eqn:El;
    [|vm_compute in E; injection E as <-; vm_compute in El; discriminate].
  edestruct (verified_publisher (λ s, s) (λ s, s) digest_example (Ok tt) (λ _ _, Err "no verifier")
    evidence_example 0 result v) as (canonical & identity & Hc & Hd & Hr & _).
  - reflexivity.
  - exact E.
  - exact El.
  - vm_compute in E. injection E as <-. vm_compute. reflexivity.
  - change (ev_State evidence_example) with state_example in Hc. rewrite Hc. eauto.
Defined.

(** ** The identifier of a publisher *)
Lemma app_last_sep_inj c s1 s2 t1 t2 :
  has_byte c t1 = false → has_byte c t2 = false →
  s1 +:+ String c t1 = s2 +:+ String c t2 → s1 = s2 ∧ t1 = t2.
Proof.
  assert (∀ s t, has_byte c (s +:+ String c t) = true) as Hin.
  { intros s t. rewrite has_byte_app, has_byte_cons, bool_decide_eq_true_2 by done.
    by rewrite orb_true_r. }
  intros H1 H2. revert s2. induction s1 as [|a s1 IH]; intros [|b s2]; cbn.
  - by intros [= ->].
  - intros [= _ E]. by rewrite E, Hin in H1.
  - intros [= _ E]. by rewrite <-E, Hin in H2.
  - intros [= -> [-> ->]%IH]. done.
Qed.

Lemma oidc_preimage_inj issuer issuer' repo repo' :
  is_canonical repo = true → is_canonical repo' = true →
  oidc_preimage issuer repo = oidc_preimage issuer' repo' → issuer = issuer' ∧ repo = repo'.
Proof.
  intros Hr%origin_no_newline Hr'%origin_no_newline. unfold oidc_preimage.
  intros E. do 3 apply app_inv_head_str in E.
  assert (∀ i r, i +:+ newline +:+ "repository=" +:+ r +:+ newline =
    (i +:+ String newline_byte ("repository=" +:+ r)) +:+ String newline_byte "") as Hs.
  { intros i r. rewrite app_assoc_str. reflexivity. }
  rewrite !Hs in E. apply app_last_sep_inj in E as [E _]; [|done..].
  apply app_last_sep_inj in E as [-> E]; [|by rewrite has_byte_app, ?Hr, ?Hr'..].
  by apply app_inv_head_str in E.
Qed.

(** The identifier an administrator approves or a reputation provider lists
    names one publisher: two verified identities with the same identifier have
    the same issuer and the same repository, whatever bytes the issuer of a
    certificate carries, up to a collision of SHA-256. *)
Theorem publisher_id_binds sha256 i j p q :
  fst (NormalizeOIDCIdentity sha256 i) = Some p → fst (NormalizeOIDCIdentity sha256 j) = Some q →
  pi_ID p = pi_ID q →
  (id_Issuer i = id_Issuer j ∧ canonicalOrigin (id_Repo i) = canonicalOrigin (id_Repo j)) ∨
  collision sha256.
Proof.
  unfold NormalizeOIDCIdentity.
  destruct (canonicalOrigin (id_Repo i)) as [r|] eqn:Ei; [|done].
  destruct (canonicalOrigin (id_Repo j)) as [t|] eqn:Ej; [|done].
  cbn [fst]. intros Hp Hq. apply (inj Some) in Hp as <-, Hq as <-. cbn [pi_ID].
  intros E%app_inv_head_str.
  apply digest_or_collision in E as [E|?]; [left|by right].
  apply oidc_preimage_inj in E as [-> ->]; [done|..];
    unfold is_canonical; apply bool_decide_eq_true; by eapply canonical_origin_idemp.
Qed.

Lemma publisher_id_binds_witness :
  let i := identity_example "GitHub.com/acme/tool" in
  let j := identity_example "github.com/ACME/tool" in
  (id_Issuer i = id_Issuer j ∧ canonicalOrigin (id_Repo i) = canonicalOrigin (id_Repo j)) ∨
  collision (λ s, s).
Proof.
  intros i j. eapply (publisher_id_binds (λ s, s) i j); vm_compute; reflexivity.
Defined.
