(* ===== verification/Anchor.v ===== *)
(** * Enrolments ([pkg/integrity/store.go], [anchor.go], [session.go])

    What the ledger records about an application - its anchor, the policy its
    policy root was taken over, the signature it was verified against - and what
    a removal leaves behind; the checks both pass on every read and write; and
    the questions a new enrolment is ordered by. *)
From Stdlib Require Import Ascii.
From stdpp Require Import base strings list numbers gmap.
From S2P Require Import Prelude.
From S2P Require Import GoStrings.
From S2P Require Import Regex.
From S2P Require Import Utf8.
From S2P Require Import GoPath.
From S2P Require Import Override.
From S2P Require Import Reputation.
From S2P Require Import TrustPolicy.
From S2P Require Import ReputationPolicy.
From S2P Require Import Enforcement.
From S2P Require Import Integrity.
From S2P Require Import Roots.
From S2P Require Import SignedState.
From S2P Require Import Evidence.
From stdpp Require Import options.

(** ** Origins of the authority ([session.go]) *)
Definition originPartPattern : regex :=
  RSeq (RSet [("a", "z"); ("0", "9")]%char)
    (RStar (RSet [("a", "z"); ("0", "9"); (".", "."); ("_", "_"); ("-", "-")]%char)).

Definition valid_part (part : string) : bool :=
  (slen part <=? 100) && matches originPartPattern part && negb (contains ".." part).

(** [strings.ToLower] is [lower] on ASCII; an origin that is not ASCII is refused
    by the pattern, with the same error. *)
Definition validateOrigin (origin : string) : bool :=
  negb (slen origin =? 0) && (slen origin <=? 263) && bool_decide (origin = lower origin) &&
  match split_byte slash origin with
  | [host; owner; repository] =>
      forallb valid_part [host; owner; repository] && contains "." host
  | _ => false
  end.

(** ** Data *)
Record Anchor : Type := mkAnchor {
  an_ABI : Z;
  an_UID : N;
  an_Origin : string;
  an_Generation : N;
  an_ImageDigest : string;
  an_ManifestDigest : string;
  an_PackageRoot : string;
  an_PolicyRoot : string;
  an_LaunchRoot : string;
  an_SessionRoots : gmap string string
}.

Record SignedState : Type := mkSignedState {
  ss_State : State;
  ss_Bundle : string;
  ss_ABI : Z;
  ss_Kind : string;
  ss_MediaType : string
}.

Definition SignedStateFromEvidence (e : SignatureEvidence) : SignedState :=
  mkSignedState (ev_State e) (ev_Payload e) (ev_ABI e) (ev_Kind e) (ev_MediaType e).

(** [SignedState.Evidence]: a record of the first format names no envelope. *)
Definition evidence_of (s : SignedState) : SignatureEvidence :=
  if (ss_ABI s =? 0)%Z && bool_decide (ss_Kind s = "") && bool_decide (ss_MediaType s = "")
  then NewSigstoreEvidence (ss_State s) (ss_Bundle s)
  else mkEvidence (ss_ABI s) (ss_Kind s) (ss_State s) (ss_MediaType s) (ss_Bundle s).

Record Enrolment : Type := mkEnrolment {
  en_Anchor : Anchor;
  en_Policy : option Override;
  en_PolicySchema : Z;
  en_Signature : option SignedState;
  en_Verification : option VerificationResult;
  en_Reputation : option Result;
  en_ReputationDecision : option ReputationDecision;
  en_SignatureMode : string;
  en_ReputationMode : ReputationMode
}.

Record Tombstone : Type := mkTombstone {
  tb_UID : N;
  tb_Origin : string;
  tb_Generation : N;
  tb_PolicyRoot : string;
  tb_Policy : option Override;
  tb_PolicySchema : Z;
  tb_Signed : bool;
  tb_SignatureGeneration : N
}.

(** The empty string, for a mode nothing set. *)
Definition no_mode : ReputationMode := OtherMode "".

(** The embedded anchor's fields. *)
Notation en_UID e := (an_UID (en_Anchor e)).
Notation en_Origin e := (an_Origin (en_Anchor e)).
Notation en_Generation e := (an_Generation (en_Anchor e)).
Notation en_PolicyRoot e := (an_PolicyRoot (en_Anchor e)).

Definition with_schema (e : Enrolment) (schema : Z) : Enrolment :=
  mkEnrolment (en_Anchor e) (en_Policy e) schema (en_Signature e) (en_Verification e)
    (en_Reputation e) (en_ReputationDecision e) (en_SignatureMode e) (en_ReputationMode e).
Definition with_policy (e : Enrolment) (policy : option Override) (schema : Z) : Enrolment :=
  mkEnrolment (en_Anchor e) policy schema (en_Signature e) (en_Verification e)
    (en_Reputation e) (en_ReputationDecision e) (en_SignatureMode e) (en_ReputationMode e).

(** ** Validation *)
Inductive enrolment_error : Type :=
  | OtherABI | InvalidOrigin | AnchorDigest (digest : string) | InvalidRoot | ForeignLaunchRoot
  | BadSignedState (e : state_error) | OtherPackage | UnstatedDigests
  | ImageMismatch (state anchor : string) | ManifestMismatch (state anchor : string)
  | BadEnvelope (reason : string) | NotABundle
  | NoVerification | UnsignedVerification | OtherVerification | UnauthorizedVerification
  | UntrustedChain | BadSigningTime | BlockedRevocation | BadRevocation
  | UnpairedReputation | BadSignatureMode | BadReputationMode
  | BadReputationResult (e : rep_error) | BadReputationDecision (e : decision_error)
  | UnsignedReputation
  | SchemaWithoutPolicy | UnderivedPolicyRoot (e : policy_root_error) | ForeignPolicy
  | ForgottenPolicyRoot.

Definition anchorRootPattern : regex := RTimes 64 (RSet [("0", "9"); ("a", "f")]%char).
Definition anchorImagePattern : regex :=
  RSeq (RLit "sha256:") (RTimes 64 (RSet [("0", "9"); ("a", "f")]%char)).
Definition anchorManifestPattern : regex := anchorRootPattern.
Definition signatureBundleLimit : N := N.shiftl 256 10.
Definition integrity_ABIVersion : Z := 1.

Definition ValidateDigests (a : Anchor) : result enrolment_error unit :=
  refuse_if (negb (bool_decide (an_ImageDigest a = "")) &&
    negb (matches anchorImagePattern (an_ImageDigest a))) (AnchorDigest (an_ImageDigest a)) ;;;
  refuse_if (negb (bool_decide (an_ManifestDigest a = "")) &&
    negb (matches anchorManifestPattern (an_ManifestDigest a))) (AnchorDigest (an_ManifestDigest a)).

Section Validation.
Context (sha256 quote : string → string).

Definition validateAnchor (a : Anchor) : result enrolment_error unit :=
  check_that (an_ABI a =? integrity_ABIVersion)%Z OtherABI ;;;
  check_that (validateOrigin (an_Origin a)) InvalidOrigin ;;;
  ValidateDigests a ;;;
  for_each (λ root, check_that (matches anchorRootPattern root) InvalidRoot)
    [an_PackageRoot a; an_PolicyRoot a; an_LaunchRoot a] ;;;
  check_that (bool_decide (an_LaunchRoot a = LaunchRoot sha256 (an_PackageRoot a) (an_PolicyRoot a)))
    ForeignLaunchRoot.

Definition bindsTheAnchor (a : Anchor) (state : State) : result enrolment_error unit :=
  refuse_if (bool_decide (an_ImageDigest a = "") || bool_decide (an_ManifestDigest a = ""))
    UnstatedDigests ;;;
  check_that (bool_decide (st_ImageDigest state = an_ImageDigest a))
    (ImageMismatch (st_ImageDigest state) (an_ImageDigest a)) ;;;
  check_that (bool_decide (st_ManifestSHA256 state = an_ManifestDigest a))
    (ManifestMismatch (st_ManifestSHA256 state) (an_ManifestDigest a)).

Definition validateSignedState (e : Enrolment) : result enrolment_error unit :=
  match en_Signature e with
  | None => Ok tt
  | Some signed =>
      wrap BadSignedState (validate_state (ss_State signed)) ;;;
      check_that (bool_decide (st_Origin (ss_State signed) = en_Origin e)) OtherPackage ;;;
      bindsTheAnchor (en_Anchor e) (ss_State signed) ;;;
      wrap BadEnvelope (ValidateEnvelope quote (evidence_of signed)) ;;;
      refuse_if (signatureBundleLimit <? N.of_nat (slen (ev_Payload (evidence_of signed))))%N NotABundle
  end.

(** [matchingPolicySchema]: the first of the schemas whose root is the one
    recorded.  A schema the policy cannot be written in is an error when it was
    declared and passed over when it was not. *)
Fixpoint match_schema (policy : Override) (root : string) (declared : bool) (schemas : list Z) :
    result enrolment_error Z :=
  match schemas with
  | [] => Err ForeignPolicy
  | schema :: schemas =>
      match PolicyRootForSchema sha256 policy schema with
      | Err e => if declared then Err (UnderivedPolicyRoot e)
                 else match_schema policy root declared schemas
      | Ok candidate => if bool_decide (candidate = root) then Ok schema
                        else match_schema policy root declared schemas
      end
  end.

Definition matchingPolicySchema (policy : option Override) (root : string) (declared : Z) :
    result enrolment_error Z :=
  match policy with
  | None => check_that (declared =? 0)%Z SchemaWithoutPolicy ;;; Ok 0%Z
  | Some policy =>
      if (declared =? 0)%Z
      then match_schema policy root false
        [CurrentPolicySchema; PolicySchemaWithoutDesktopCapabilities;
         PolicySchemaWithoutSessionBus; PolicySchemaWithoutSerial]
      else match_schema policy root true [declared]
  end.

Definition validateRecordedVerification (e : Enrolment) : result enrolment_error unit :=
  match en_Verification e with
  | None =>
      refuse_if (negb (bool_decide (en_SignatureMode e = "")) && negb (is_nil (en_Signature e)))
        NoVerification
  | Some r =>
      match en_Signature e with
      | None => Err UnsignedVerification
      | Some signed =>
          match Digest sha256 (ss_State signed) with
          | Err _ => Err OtherVerification
          | Ok digest =>
              check_that (bool_decide (vr_StateDigest r = digest) &&
                bool_decide (vr_EvidenceKind r = ev_Kind (evidence_of signed))) OtherVerification
          end ;;;
          check_that (bool_decide (vr_Cryptographic r = CryptographicVerified) &&
            from_option (λ p, negb (bool_decide (pi_ID p = ""))) false (vr_Publisher r) &&
            bool_decide (vr_OriginAuthorization r = authorization_text OriginAuthorized))
            UnauthorizedVerification ;;;
          check_that (one_of (vr_Chain r) [ChainNotApplicable; ChainTrustedPublic; ChainTrustedLocal])
            UntrustedChain ;;;
          check_that (one_of (vr_SigningTime r) [SigningTimeCurrent; SigningTimeTimestamped])
            BadSigningTime ;;;
          if one_of (vr_Revocation r) [""; RevocationGood; RevocationUnknown] then Ok tt
          else if one_of (vr_Revocation r) [RevocationRevoked; RevocationStale]
          then Err BlockedRevocation else Err BadRevocation
      end
  end.

Definition known_mode (m : ReputationMode) : bool :=
  match m with OtherMode _ => false | _ => true end.

(** [completeEnrolmentPolicySchema]: the checks of [validateEnrolment], with the
    schema they settle filled in. *)
Definition complete_enrolment (e : Enrolment) : result enrolment_error Enrolment :=
  validateAnchor (en_Anchor e) ;;;
  validateSignedState e ;;;
  validateRecordedVerification e ;;;
  check_that (bool_decide (is_nil (en_Reputation e) = is_nil (en_ReputationDecision e)))
    UnpairedReputation ;;;
  refuse_if (negb (bool_decide (en_SignatureMode e = "")) &&
    negb (valid_signatures (en_SignatureMode e))) BadSignatureMode ;;;
  refuse_if (negb (bool_decide (en_ReputationMode e = no_mode)) &&
    negb (known_mode (en_ReputationMode e))) BadReputationMode ;;;
  match en_Reputation e, en_ReputationDecision e with
  | Some reputation, Some decision =>
      wrap BadReputationResult (validate_result reputation) ;;;
      wrap BadReputationDecision (validate_decision decision) ;;;
      refuse_if (is_nil (en_Signature e)) UnsignedReputation
  | _, _ => Ok tt
  end ;;;
  schema ← matchingPolicySchema (en_Policy e) (en_PolicyRoot e) (en_PolicySchema e);
  Ok (with_schema e schema).

Definition validateEnrolment (e : Enrolment) : result enrolment_error unit :=
  complete_enrolment e ;;; Ok tt.

Definition complete_tombstone (t : Tombstone) : result enrolment_error Tombstone :=
  check_that (validateOrigin (tb_Origin t)) InvalidOrigin ;;;
  check_that (matches anchorRootPattern (tb_PolicyRoot t)) ForgottenPolicyRoot ;;;
  schema ← matchingPolicySchema (tb_Policy t) (tb_PolicyRoot t) (tb_PolicySchema t);
  Ok (mkTombstone (tb_UID t) (tb_Origin t) (tb_Generation t) (tb_PolicyRoot t) (tb_Policy t) schema
    (tb_Signed t) (tb_SignatureGeneration t)).
End Validation.

(** ** Ordering *)
Inductive order_error : Type :=
  | ErrAnchorDowngrade (recorded offered : N)
  | ErrSignatureLost (origin : string)
  | ErrSignatureDowngrade (recorded offered : N).

(** What a record or a tombstone remembers: how far the anchor's counter came,
    and, if a publisher had answered, how far the publisher's had. *)
Definition ordersAfter (recorded offered : Enrolment) : result order_error unit :=
  refuse_if (en_Generation offered <? en_Generation recorded)%N
    (ErrAnchorDowngrade (en_Generation recorded) (en_Generation offered)) ;;;
  match en_Signature recorded with
  | None => Ok tt
  | Some known =>
      match en_Signature offered with
      | None => Err (ErrSignatureLost (en_Origin offered))
      | Some signed =>
          refuse_if (st_Generation (ss_State signed) <? st_Generation (ss_State known))%N
            (ErrSignatureDowngrade (st_Generation (ss_State known)) (st_Generation (ss_State signed)))
      end
  end.

Definition ordersAfterRemoval (buried : Tombstone) (offered : Enrolment) : result order_error unit :=
  refuse_if (en_Generation offered <? tb_Generation buried)%N
    (ErrAnchorDowngrade (tb_Generation buried) (en_Generation offered)) ;;;
  if tb_Signed buried then
    match en_Signature offered with
    | None => Err (ErrSignatureLost (en_Origin offered))
    | Some signed =>
        refuse_if (st_Generation (ss_State signed) <? tb_SignatureGeneration buried)%N
          (ErrSignatureDowngrade (tb_SignatureGeneration buried) (st_Generation (ss_State signed)))
    end
  else Ok tt.

Definition raisedBy (t other : Tombstone) : Tombstone :=
  let later := (tb_Generation t <? tb_Generation other)%N in
  mkTombstone (tb_UID t) (tb_Origin t)
    (if later then tb_Generation other else tb_Generation t)
    (if later then tb_PolicyRoot other else tb_PolicyRoot t)
    (if later then tb_Policy other else tb_Policy t)
    (if later then tb_PolicySchema other else tb_PolicySchema t)
    (tb_Signed other || tb_Signed t)
    (if (tb_SignatureGeneration t <? tb_SignatureGeneration other)%N
     then tb_SignatureGeneration other else tb_SignatureGeneration t).

(** The tombstone [entomb] makes of a record, before it is raised by one that is
    already there. *)
Definition tombstone_of (e : Enrolment) : Tombstone :=
  mkTombstone (en_UID e) (en_Origin e) (en_Generation e) (en_PolicyRoot e) (en_Policy e)
    (en_PolicySchema e) (negb (is_nil (en_Signature e)))
    (match en_Signature e with Some s => st_Generation (ss_State s) | None => 0%N end).

(** ** How hard to ask *)
Definition ActionEnrolAnchor : string := "it.cpak.system.enrol-anchor".
Definition ActionWidenAnchor : string := "it.cpak.system.widen-anchor".

Definition authorizationAgainst (generation : N) (policyRoot : string) (policy : option Override)
    (e : Enrolment) : string :=
  if (en_Generation e <? generation)%N then ActionWidenAnchor
  else if bool_decide (en_PolicyRoot e = policyRoot) then ActionEnrolAnchor
  else match policy, en_Policy e with
  | Some policy, Some offered =>
      if Restricts policy offered then ActionEnrolAnchor else ActionWidenAnchor
  | _, _ => ActionWidenAnchor
  end.

(** ** Floors

    How far an application has come, which is all the ordering looks at: the
    anchor's generation, whether a publisher has answered, and up to which of the
    publisher's generations. *)
Record floor : Type := mkFloor {
  fl_Generation : N;
  fl_Signed : bool;
  fl_SignatureGeneration : N
}.

Definition floor_le (f g : floor) : Prop :=
  (fl_Generation f ≤ fl_Generation g)%N ∧ (fl_Signed f = true → fl_Signed g = true) ∧
  (fl_SignatureGeneration f ≤ fl_SignatureGeneration g)%N.

#[export] Instance floor_le_preorder : PreOrder floor_le.
Proof. split; [by intros []; split_and!|]. intros ??? (?&?&?) (?&?&?). split_and!; [lia|auto|lia]. Qed.

Definition floor_of (e : Enrolment) : floor :=
  mkFloor (en_Generation e) (negb (is_nil (en_Signature e)))
    (match en_Signature e with Some s => st_Generation (ss_State s) | None => 0%N end).

Definition buried_floor (t : Tombstone) : floor :=
  mkFloor (tb_Generation t) (tb_Signed t) (if tb_Signed t then tb_SignatureGeneration t else 0%N).

Lemma orders_after_iff recorded offered :
  ordersAfter recorded offered = Ok tt ↔ floor_le (floor_of recorded) (floor_of offered).
Proof.
  unfold ordersAfter, floor_le, floor_of. rewrite bind_unit_ok, refuse_if_ok, N.ltb_ge.
  destruct (en_Signature recorded), (en_Signature offered); cbn;
    rewrite ?refuse_if_ok, ?N.ltb_ge; intuition (done || lia).
Qed.

Lemma orders_after_removal_iff buried offered :
  ordersAfterRemoval buried offered = Ok tt ↔ floor_le (buried_floor buried) (floor_of offered).
Proof.
  unfold ordersAfterRemoval, floor_le, floor_of, buried_floor. rewrite bind_unit_ok, refuse_if_ok, N.ltb_ge.
  destruct (tb_Signed buried), (en_Signature offered); cbn;
    rewrite ?refuse_if_ok, ?N.ltb_ge; intuition (done || lia).
Qed.

Lemma raised_above t other :
  floor_le (buried_floor t) (buried_floor (raisedBy t other)) ∧
  floor_le (buried_floor other) (buried_floor (raisedBy t other)).
Proof.
  unfold floor_le, buried_floor, raisedBy; cbn.
  destruct (N.ltb_spec (tb_Generation t) (tb_Generation other)),
    (N.ltb_spec (tb_SignatureGeneration t) (tb_SignatureGeneration other)),
    (tb_Signed t), (tb_Signed other); cbn; split_and!; (done || lia).
Qed.

Lemma tombstone_floor e : buried_floor (tombstone_of e) = floor_of e.
Proof. unfold buried_floor, tombstone_of, floor_of. by destruct (en_Signature e). Qed.

(** ** What a validated enrolment says *)
Section Validated.
Context (sha256 quote : string → string).

Lemma match_schema_ok policy root declared schemas schema :
  match_schema sha256 policy root declared schemas = Ok schema →
  schema ∈ schemas ∧ PolicyRootForSchema sha256 policy schema = Ok root.
Proof.
  induction schemas as [|s schemas IH]; [done|]. cbn.
  destruct (PolicyRootForSchema sha256 policy s) as [candidate|e] eqn:E.
  - case_bool_decide; [intros [= <-]; subst|]; [by split; [left|]|].
    intros [??]%IH. split; [by right|done].
  - destruct declared; [done|]. intros [??]%IH. split; [by right|done].
Qed.

Lemma matching_schema_ok policy root declared schema :
  matchingPolicySchema sha256 policy root declared = Ok schema →
  (policy = None → schema = 0%Z) ∧
  (∀ p, policy = Some p → schema ≠ 0%Z ∧ PolicyRootForSchema sha256 p schema = Ok root) ∧
  matchingPolicySchema sha256 policy root schema = Ok schema.
Proof.
  unfold matchingPolicySchema. destruct policy as [p|].
  - intros H. assert (schema ≠ 0%Z ∧ PolicyRootForSchema sha256 p schema = Ok root) as [Hs Hr].
    { assert (∀ schemas, Forall (λ s, s ≠ 0%Z) schemas → schema ∈ schemas → schema ≠ 0%Z) as Hall
        by (intros l Hl Hin; by rewrite Forall_forall in Hl; apply Hl).
      destruct (Z.eqb_spec declared 0) as [|Hd]; apply match_schema_ok in H as [Hin Hr];
        (split; [|exact Hr]); apply Hall in Hin; [exact Hin| |exact Hin|].
      - clear. repeat constructor; discriminate.
      - by repeat constructor. }
    clear H. split_and!; [intros [=]|intros ? [= <-]; by split|].
    rewrite (proj2 (Z.eqb_neq _ _) Hs). cbn [match_schema].
    by rewrite Hr, bool_decide_eq_true_2.
  - rewrite bind_unit_ok, check_that_ok. intros [_ [= <-]]. done.
Qed.

Lemma complete_schema e e' :
  complete_enrolment sha256 quote e = Ok e' →
  matchingPolicySchema sha256 (en_Policy e) (en_PolicyRoot e) (en_PolicySchema e) = Ok (en_PolicySchema e').
Proof.
  unfold complete_enrolment. rewrite !bind_unit_ok.
  by intros (_ & _ & _ & _ & _ & _ & _ & (schema & Hm & [= <-])%bind_ok).
Qed.

Record sound_enrolment (e : Enrolment) : Prop := {
  se_origin : validateOrigin (en_Origin e) = true;
  se_launch : an_LaunchRoot (en_Anchor e) =
    LaunchRoot sha256 (an_PackageRoot (en_Anchor e)) (an_PolicyRoot (en_Anchor e));
  se_roots : has_byte "010" (an_PackageRoot (en_Anchor e)) = false ∧
    has_byte "010" (an_PolicyRoot (en_Anchor e)) = false;
  se_policy : ∀ p, en_Policy e = Some p →
    ∃ schema, PolicyRootForSchema sha256 p schema = Ok (en_PolicyRoot e);
  se_signed : ∀ s, en_Signature e = Some s →
    validate_state (ss_State s) = Ok tt ∧ st_Origin (ss_State s) = en_Origin e ∧
    st_ImageDigest (ss_State s) = an_ImageDigest (en_Anchor e) ∧
    st_ManifestSHA256 (ss_State s) = an_ManifestDigest (en_Anchor e) ∧
    ValidateEnvelope quote (evidence_of s) = Ok tt;
  se_verified : ∀ r, en_Verification e = Some r →
    ∃ s d p, en_Signature e = Some s ∧ Digest sha256 (ss_State s) = Ok d ∧ vr_StateDigest r = d ∧
      vr_Publisher r = Some p ∧ pi_ID p ≠ "" ∧
      vr_OriginAuthorization r = authorization_text OriginAuthorized
}.

Lemma recorded_verification_ok e :
  validateRecordedVerification sha256 e = Ok tt →
  ∀ r, en_Verification e = Some r →
    ∃ s d p, en_Signature e = Some s ∧ Digest sha256 (ss_State s) = Ok d ∧ vr_StateDigest r = d ∧
      vr_Publisher r = Some p ∧ pi_ID p ≠ "" ∧
      vr_OriginAuthorization r = authorization_text OriginAuthorized.
Proof.
  unfold validateRecordedVerification. intros H r Er. rewrite Er in H.
  destruct (en_Signature e) as [s|]; [|done]. rewrite !bind_unit_ok in H.
  destruct H as (Hd & Ha & _). destruct (Digest sha256 (ss_State s)) as [d|] eqn:Ed; [|done].
  bools_in Hd. bools_in Ha. destruct Hd as [Hd _], Ha as [[_ Hp] Ha].
  destruct (vr_Publisher r) as [p|] eqn:Ep; [|done]. cbn in Hp. bools_in Hp.
  by exists s, d, p.
Qed.

Lemma signed_state_ok e s :
  validateSignedState quote e = Ok tt → en_Signature e = Some s →
  validate_state (ss_State s) = Ok tt ∧ st_Origin (ss_State s) = en_Origin e ∧
  st_ImageDigest (ss_State s) = an_ImageDigest (en_Anchor e) ∧
  st_ManifestSHA256 (ss_State s) = an_ManifestDigest (en_Anchor e) ∧
  ValidateEnvelope quote (evidence_of s) = Ok tt.
Proof.
  unfold validateSignedState, bindsTheAnchor. intros H Es. rewrite Es in H.
  rewrite !bind_unit_ok in H. bools_in H. destruct H as (? & ? & (_ & ? & ?) & ? & _). done.
Qed.

Lemma complete_ok e e' :
  complete_enrolment sha256 quote e = Ok e' →
  sound_enrolment e ∧ e' = with_schema e (en_PolicySchema e') ∧
  matchingPolicySchema sha256 (en_Policy e) (en_PolicyRoot e) (en_PolicySchema e') =
    Ok (en_PolicySchema e').
Proof.
  unfold complete_enrolment. rewrite !bind_unit_ok.
  intros (Ha & Hs & Hv & _ & _ & _ & _ & (schema & Hm & [= <-])%bind_ok).
  apply matching_schema_ok in Hm as (_ & Hp & Hm). split_and!; [|done|done].
  unfold validateAnchor in Ha. rewrite !bind_unit_ok in Ha. bools_in Ha.
  destruct Ha as (_ & Ho & _ & Hroots & Hl). rewrite for_each_ok in Hroots.
  assert (∀ root, root ∈ [an_PackageRoot (en_Anchor e); an_PolicyRoot (en_Anchor e)] →
    has_byte "010" root = false) as Hlines.
  { intros root Hin. apply (matches_lacks anchorRootPattern); [by_bytes|]. eapply check_that_ok, Hroots.
    apply elem_of_cons in Hin as [->|[->|Hin%elem_of_nil]%elem_of_cons]; [left|right; left|done]. }
  split; [done|done|split; apply Hlines; [left|right; left]| | |by apply recorded_verification_ok].
  - intros p Ep. destruct (Hp p Ep) as [_ ?]. eauto.
  - intros s. by apply signed_state_ok.
Qed.

(** Filling in the schema twice changes nothing, and neither does another valid
    reading of the policy: the checks do not look at the schema otherwise. *)
Lemma complete_with_policy e e' policy schema :
  complete_enrolment sha256 quote e = Ok e' →
  matchingPolicySchema sha256 policy (en_PolicyRoot e) schema = Ok schema →
  complete_enrolment sha256 quote (with_policy e' policy schema) = Ok (with_policy e' policy schema).
Proof.
  intros H Hm. pose proof (complete_ok _ _ H) as (_ & -> & _).
  unfold complete_enrolment in *. rewrite !bind_unit_ok in H.
  destruct H as (H1 & H2 & H3 & H4 & H5 & H6 & H7 & _).
  cbn [with_policy with_schema en_Anchor en_Policy en_PolicySchema en_Signature en_Verification
    en_Reputation en_ReputationDecision en_SignatureMode en_ReputationMode].
  rewrite H1. cbn [mbind result_bind]. 
  change (validateSignedState quote _) with (validateSignedState quote e). rewrite H2.
  change (validateRecordedVerification sha256 _) with (validateRecordedVerification sha256 e). rewrite H3.
  cbn [mbind result_bind]. rewrite H4, H5, H6, H7. cbn [mbind result_bind]. by rewrite Hm.
Qed.

Lemma complete_idemp e e' :
  complete_enrolment sha256 quote e = Ok e' → complete_enrolment sha256 quote e' = Ok e'.
Proof.
  intros H. pose proof (complete_ok _ _ H) as (_ & E & Hm).
  assert (e' = with_policy e' (en_Policy e) (en_PolicySchema e')) as E2
    by (rewrite E at 1 2; by destruct e).
  rewrite E2 at 1 2. eapply complete_with_policy; [exact H|exact Hm].
Qed.
End Validated.

(** ** What the cheap authorization covers *)
Lemma cheap_iff generation root policy e :
  authorizationAgainst generation root policy e = ActionEnrolAnchor ↔
  (generation ≤ en_Generation e)%N ∧
  (en_PolicyRoot e = root ∨
   ∃ held offered, policy = Some held ∧ en_Policy e = Some offered ∧ Restricts held offered = true).
Proof.
  unfold authorizationAgainst. destruct (N.ltb_spec (en_Generation e) generation) as [|Hg].
  { split; [done|]. intros [? _]. lia. }
  case_bool_decide as Hr; [split; [by split; [|left]|done]|].
  destruct policy as [held|]; [|split; [done|by intros [_ [?|(? & ? & ? & _)]]]].
  destruct (en_Policy e) as [offered|]; [|split; [done|by intros [_ [?|(? & ? & _ & ? & _)]]]].
  destruct (Restricts held offered) eqn:Er.
  - split; [intros _; split; [done|right; eauto]|done].
  - split; [done|]. intros [_ [?|(? & ? & [= <-] & [= <-] & ?)]]; congruence.
Qed.
