(* ===== verification/RecordPaths.v ===== *)
(** * Where the ledger keeps a record ([anchor.go], [recordPath])

    One file per account, origin and kind of record, in a directory per account:
    the paths, and that two records never share one. *)
From Stdlib Require Import Ascii.
From stdpp Require Import base strings list numbers pretty.
From S2P Require Import Prelude.
From S2P Require Import GoStrings.
From S2P Require Import Regex.
From S2P Require Import Utf8.
From S2P Require Import GoPath.
From S2P Require Import Json.
From S2P Require Import Evidence.
From S2P Require Import Anchor.
From stdpp Require Import options.

(** [filepath.Dir] and [filepath.Base]. *)
Fixpoint upto_last_slash (s : string) : string :=
  match s with
  | "" => ""
  | String c t =>
      if has_byte slash t then String c (upto_last_slash t)
      else if bool_decide (c = slash) then "/" else ""
  end.
Definition dir (p : string) : string := clean (upto_last_slash p).

Definition base (p : string) : string :=
  if bool_decide (p = "") then "."
  else default "/" (last (filter (λ x, x ≠ "") (split_byte slash p))).

(** [strings.ReplaceAll(origin, "/", ":")]. *)
Fixpoint flatten (origin : string) : string :=
  match origin with
  | "" => ""
  | String c s => String (if bool_decide (c = slash) then ":"%char else c) (flatten s)
  end.

Definition record_suffix : string := ".json".
Definition forgottenSuffix : string := "+forgotten.json".

Inductive path_error : Type := RelativeLedger | InvalidOriginName.

Definition recordPath (directory : string) (uid : N) (origin suffix : string) :
    result path_error string :=
  check_that (is_abs directory) RelativeLedger ;;;
  check_that (validateOrigin origin) InvalidOriginName ;;;
  let name := flatten origin +:+ suffix in
  check_that (bool_decide (name = base name)) InvalidOriginName ;;;
  Ok (path_join [directory; pretty uid; name]).

(** ** Joining plain names *)
Definition plain (x : string) : Prop := x ≠ "" ∧ x ≠ "." ∧ x ≠ ".." ∧ has_byte slash x = false.

Lemma split_join_plain d xs :
  Forall plain xs →
  split_byte slash (join "/" (d :: xs)) = split_byte slash d ++ xs.
Proof.
  revert d. induction xs as [|x xs IH]; intros d Hxs.
  - by rewrite app_nil_r.
  - apply Forall_cons in Hxs as [Hx Hxs].
    change (join "/" (d :: x :: xs)) with (d +:+ String slash (join "/" (x :: xs))).
    rewrite split_byte_app_sep, IH by done. by rewrite (split_byte_none slash x) by apply Hx.
Qed.

Lemma is_abs_app d s : is_abs d = true → is_abs (d +:+ s) = true.
Proof.
  destruct d as [|c d]; [done|]. change (String c d +:+ s) with (String c (d +:+ s)).
  by rewrite !is_abs_cons.
Qed.

Lemma join_plain d xs :
  is_abs d = true → Forall plain xs → xs ≠ [] →
  let p := path_join (d :: xs) in
  is_abs p = true ∧ clean p = p ∧ path_parts p = path_parts d ++ xs.
Proof.
  intros Ha Hxs Hne. cbv zeta.
  assert (d ≠ "") as Hd by by intros ->.
  change (path_join (d :: xs)) with
    (if bool_decide (d = "") then path_join xs else clean (join "/" (d :: xs))).
  rewrite bool_decide_eq_false_2 by done.
  assert (is_abs (join "/" (d :: xs)) = true) as Hj.
  { destruct xs as [|x xs]; [done|]. by apply (is_abs_app d ("/" +:+ join "/" (x :: xs))). }
  split; [by rewrite clean_abs|]. split; [apply clean_idemp|]. rewrite path_parts_clean.
  unfold path_parts, clean_stack. rewrite split_join_plain, foldl_app, Hj, Ha by done.
  rewrite clean_foldl_push.
  - by rewrite reverse_app, reverse_involutive.
  - intros x Hx. rewrite Forall_forall in Hxs. destruct (Hxs x Hx) as (? & ? & ? & _). done.
Qed.

Lemma upto_last s x :
  has_byte slash x = false → upto_last_slash (s +:+ String slash x) = s +:+ "/".
Proof.
  intros Hx. induction s as [|c s IH]; cbn.
  - rewrite Hx. done.
  - rewrite has_byte_app, has_byte_cons, (bool_decide_eq_true_2 (slash = slash)) by done.
    rewrite orb_true_r, IH. done.
Qed.

Lemma trailing_slash p : is_abs p = true → clean (p +:+ "/") = clean p.
Proof.
  intros Ha. apply clean_parts_inj; [by apply is_abs_app|done|].
  unfold path_parts, clean_stack. change "/" with (String slash "").
  rewrite split_byte_app_sep, foldl_app, is_abs_app, Ha by done. done.
Qed.

Lemma dir_join d x y :
  is_abs d = true → plain x → plain y → dir (path_join [d; x; y]) = path_join [d; x].
Proof.
  intros Ha Hx Hy.
  destruct (join_plain d [x; y]) as (H1 & H2 & H3); [done|by rewrite !Forall_cons|done|].
  destruct (join_plain d [x]) as (K1 & K2 & K3); [done|by rewrite !Forall_cons|done|].
  rewrite <-H2, clean_abs_eq, H3 by done.
  change [x; y] with ([x] ++ [y]). rewrite app_assoc, <-K3, join_parts_app; [|by rewrite K3; destruct (path_parts d)|done].
  change ("/" +:+ join "/" [y]) with (String slash y).
  unfold dir. rewrite <-app_assoc_str, upto_last by apply Hy.
  rewrite <-clean_abs_eq, K2 by done. by rewrite trailing_slash.
Qed.

(** ** Names *)
Definition origin_char (c : ascii) : bool :=
  in_set [("a", "z"); ("0", "9"); (".", "."); ("_", "_"); ("-", "-"); ("/", "/")]%char c.

Lemma valid_origin_chars origin : validateOrigin origin = true → str_forall origin_char origin = true.
Proof.
  unfold validateOrigin. pose proof (join_split slash origin) as Hj.
  destruct (split_byte slash origin) as [|h [|w [|r [|]]]]; rewrite ?andb_false_r; try done.
  rewrite !andb_true_iff. intros [_ [Hp _]]. rewrite forallb_elem in Hp.
  assert (∀ x, x ∈ [h; w; r] → str_forall origin_char x = true) as Hall.
  { intros x Hx%Hp. unfold valid_part in Hx. bools_in Hx. destruct Hx as [[_ Hm] _].
    revert Hm. apply matches_uses. by_bytes. }
  rewrite <-Hj. change (join (String slash "") [h; w; r]) with (h +:+ "/" +:+ w +:+ "/" +:+ r).
  by rewrite !str_forall_app, (Hall h), (Hall w), (Hall r) by (rewrite !elem_of_cons; auto).
Qed.

Lemma flatten_chars s c : c ≠ ":"%char → c ≠ slash → has_byte c (flatten s) = has_byte c s.
Proof.
  intros Hc Hs. induction s as [|a s IH]; [done|]. cbn [flatten]. rewrite !has_byte_cons, IH.
  destruct (decide (a = slash)) as [->|Ha].
  - rewrite (bool_decide_eq_true_2 (slash = slash)) by done.
    rewrite !bool_decide_eq_false_2 by congruence. done.
  - by rewrite (bool_decide_eq_false_2 (a = slash)).
Qed.

Lemma flatten_no_slash s : has_byte slash (flatten s) = false.
Proof.
  induction s as [|a s IH]; [done|]. cbn [flatten]. rewrite has_byte_cons, IH, orb_false_r.
  apply bool_decide_eq_false. by case_bool_decide.
Qed.

Lemma flatten_inj s t :
  has_byte ":" s = false → has_byte ":" t = false → flatten s = flatten t → s = t.
Proof.
  revert t. induction s as [|a s IH]; intros [|b t]; try done. rewrite !has_byte_cons. bools.
  intros [Ha Hs] [Hb Ht]. cbn [flatten]. intros [= E E']. f_equal; [|by apply IH].
  revert E. repeat case_bool_decide; congruence.
Qed.

Lemma chars_lack s c :
  origin_char c = false → str_forall origin_char s = true → has_byte c s = false.
Proof.
  intros Hc Hs. unfold has_byte, str_exists. apply negb_false_iff. revert Hs.
  apply str_forall_impl. intros a Ha. apply negb_true_iff, bool_decide_eq_false. congruence.
Qed.

Definition suffix_ok (suffix : string) : Prop := suffix = record_suffix ∨ suffix = forgottenSuffix.

Lemma name_plain origin suffix : suffix_ok suffix → plain (flatten origin +:+ suffix).
Proof.
  intros Hs. assert (5 ≤ slen suffix ∧ has_byte slash suffix = false) as [Hl Hb]
    by (destruct Hs as [-> | ->]; (split; [vm_compute; lia|done])).
  assert (5 ≤ slen (flatten origin +:+ suffix)) as Hlen by (rewrite slen_app; lia).
  unfold plain. split_and!; [intros E; rewrite E in Hlen; cbn in Hlen; lia..|].
  by rewrite has_byte_app, flatten_no_slash, Hb.
Qed.

Lemma plain_base x : plain x → base x = x.
Proof.
  intros (Hne & _ & _ & Hs). unfold base. rewrite bool_decide_eq_false_2, split_byte_none by done.
  by rewrite filter_cons_True, filter_nil.
Qed.

Lemma uid_plain (uid : N) : plain (pretty uid).
Proof.
  assert (str_forall numeric (pretty uid) = true ∧ pretty uid ≠ "") as [Hn Hne].
  { destruct uid as [|p]; [done|]. apply (pretty_numeric (Z.pos p)). }
  unfold plain. split_and!; [done|by intros E; rewrite E in Hn..|].
  unfold has_byte, str_exists. apply negb_false_iff. revert Hn. apply str_forall_impl. by_bytes.
Qed.

Lemma record_path_ok directory uid origin suffix :
  suffix_ok suffix → is_abs directory = true → validateOrigin origin = true →
  recordPath directory uid origin suffix =
    Ok (path_join [directory; pretty uid; flatten origin +:+ suffix]).
Proof.
  intros Hs Ha Ho. unfold recordPath. rewrite Ha, Ho. cbn [check_that mbind result_bind].
  rewrite plain_base by by apply name_plain. by rewrite bool_decide_eq_true_2.
Qed.

Lemma record_path_inv directory uid origin suffix path :
  recordPath directory uid origin suffix = Ok path →
  is_abs directory = true ∧ validateOrigin origin = true ∧
  path = path_join [directory; pretty uid; flatten origin +:+ suffix].
Proof. unfold recordPath. rewrite !bind_unit_ok. bools. by intros (? & ? & _ & [= <-]). Qed.

(** Where a record and a tombstone lie, in elements. *)
Lemma record_parts directory uid origin suffix path :
  suffix_ok suffix → recordPath directory uid origin suffix = Ok path →
  path_parts path = path_parts directory ++ [pretty uid; flatten origin +:+ suffix] ∧
  dir path = path_join [directory; pretty uid] ∧
  path_parts (dir path) = path_parts directory ++ [pretty uid].
Proof.
  intros Hs (Ha & _ & ->)%record_path_inv.
  pose proof (uid_plain uid). pose proof (name_plain origin suffix Hs).
  destruct (join_plain directory [pretty uid; flatten origin +:+ suffix]) as (_ & _ & ->);
    [done|by rewrite !Forall_cons|done|].
  rewrite dir_join by done.
  by destruct (join_plain directory [pretty uid]) as (_ & _ & ->); [|by rewrite Forall_cons| |].
Qed.

Lemma record_paths_apart directory uid uid' origin origin' suffix suffix' path path' :
  suffix_ok suffix → suffix_ok suffix' →
  recordPath directory uid origin suffix = Ok path →
  recordPath directory uid' origin' suffix' = Ok path' →
  (path = path' → uid = uid' ∧ origin = origin' ∧ suffix = suffix') ∧
  path ≠ dir path' ∧ path ≠ directory.
Proof.
  intros Hs Hs' Hp Hp'.
  destruct (record_parts _ _ _ _ _ Hs Hp) as (P1 & _ & _).
  destruct (record_parts _ _ _ _ _ Hs' Hp') as (P2 & _ & D2).
  apply record_path_inv in Hp as (_ & Ho%valid_origin_chars & _), Hp' as (_ & Ho'%valid_origin_chars & _).
  assert (∀ o, str_forall origin_char o = true → has_byte ":" o = false ∧ has_byte "+" o = false)
    as Hlack by by intros o H; split; apply chars_lack.
  split_and!.
  - intros E. rewrite E, P2 in P1. apply app_inv_head in P1. injection P1 as E1 E2.
    apply (inj pretty) in E1. split; [done|].
    destruct (Hlack _ Ho) as [H1 H2], (Hlack _ Ho') as [H3 H4].
    assert (suffix = suffix') as <-.
    { destruct Hs as [-> | ->], Hs' as [-> | ->]; try done; exfalso;
        apply (f_equal (has_byte "+")) in E2; rewrite !has_byte_app, !flatten_chars, H2, H4 in E2; done. }
    split; [|done]. symmetry. apply flatten_inj; [done..|].
    by apply (f_equal (trim_suffix suffix)) in E2; rewrite !trim_suffix_app in E2.
  - intros E. rewrite <-E, P1 in D2. apply (f_equal length) in D2. rewrite !length_app in D2.
    cbn in D2. lia.
  - intros E. rewrite E in P1. apply (f_equal length) in P1. rewrite length_app in P1. cbn in P1. lia.
Qed.

(** No two records of a ledger share a file, whatever the accounts and the
    origins: the path names the account, the origin and whether it is a record or
    a tombstone.  No record lies at the ledger's directory or at the directory of
    an account. *)
Theorem record_paths_distinct directory uid uid' origin origin' suffix suffix' path path' :
  suffix_ok suffix → suffix_ok suffix' →
  recordPath directory uid origin suffix = Ok path →
  recordPath directory uid' origin' suffix' = Ok path' →
  (path = path' → uid = uid' ∧ origin = origin' ∧ suffix = suffix') ∧
  path ≠ dir path' ∧ path ≠ directory.
Proof. apply record_paths_apart. Qed.

Lemma record_paths_distinct_witness :
  path_join ["/var/lib/cpak"; "1000"; "github.com:acme:tool.json"] ≠ "/var/lib/cpak".
Proof.
  apply (record_paths_distinct "/var/lib/cpak" 1000 1000 "github.com/acme/tool" "github.com/acme/tool"
    record_suffix forgottenSuffix _
    (path_join ["/var/lib/cpak"; "1000"; "github.com:acme:tool+forgotten.json"]));
    [by left|by right|vm_compute; reflexivity|vm_compute; reflexivity].
Defined.
