(* ===== verification/Confirmation.v ===== *)
(** * Reputation confirmations ([reputation_confirmation.go])

    The challenges the authority hands out when reputation asks for a warning to
    be confirmed: bound to the enrolment and to the warning shown, good once and
    for five minutes. *)
From Stdlib Require Import Ascii.
From stdpp Require Import base strings list numbers gmap fin_maps.
From S2P Require Import Prelude.
From S2P Require Import GoStrings.
From S2P Require Import Hex.
From S2P Require Import GoTime.
From S2P Require Import Reputation.
From S2P Require Import TrustPolicy.
From S2P Require Import ReputationPolicy.
From S2P Require Import Roots.
From S2P Require Import SignedState.
From S2P Require Import Evidence.
From S2P Require Import Anchor.
From stdpp Require Import options.

Definition reputationConfirmationTTL : Z := 300 * second.
Definition reputationConfirmationLimit : nat := N.to_nat 1024.

Record challenge : Type := mkChallenge {
  ch_ExpiresAt : Z;
  ch_UID : N;
  ch_Origin : string;
  ch_Generation : N;
  ch_LaunchRoot : string;
  ch_StateDigest : string;
  ch_ProviderID : string;
  ch_PublisherID : string;
  ch_Status : Status;
  ch_Sequence : N;
  ch_ProviderReason : string;
  ch_PolicyReason : string
}.

(** The store is the map of its tokens. *)
Abbreviation confirmations := (gmap string challenge).

Inductive confirmation_error : Type :=
  | UnsignedConfirmation | ConfirmationState (e : state_error) | NoRandom.

(** ** Tokens ([base64.RawURLEncoding]) *)
Definition base64_char (n : N) : ascii :=
  ascii_of_N (if n <? 26 then n + 65 else if n <? 52 then n + 71
    else if n <? 62 then n - 4 else if n =? 62 then 45 else 95)%N.

Fixpoint base64_raw_url (s : string) : string :=
  match s with
  | String a (String b (String c s)) =>
      let n := (byte a * 65536 + byte b * 256 + byte c)%N in
      String (base64_char (n / 262144)) (String (base64_char (n / 4096 mod 64))
        (String (base64_char (n / 64 mod 64)) (String (base64_char (n mod 64)) (base64_raw_url s))))
  | String a (String b "") =>
      let n := (byte a * 1024 + byte b * 4)%N in
      String (base64_char (n / 4096)) (String (base64_char (n / 64 mod 64))
        (String (base64_char (n mod 64)) ""))
  | String a "" =>
      let n := (byte a * 16)%N in
      String (base64_char (n / 64)) (String (base64_char (n mod 64)) "")
  | "" => ""
  end.

Section Store.
Context (sha256 : string → string).
(** The order in which [range] visits the entries of a map. *)
Context (range_order : confirmations → list (string * challenge)).

Definition new_challenge (e : Enrolment) (r : Result) (d : ReputationDecision) (now : Z) :
    result confirmation_error challenge :=
  match en_Signature e with
  | None => Err UnsignedConfirmation
  | Some signed =>
      digest ← wrap ConfirmationState (Digest sha256 (ss_State signed));
      Ok (mkChallenge (now + reputationConfirmationTTL) (en_UID e) (en_Origin e) (en_Generation e)
        (an_LaunchRoot (en_Anchor e)) digest (r_ProviderID r) (r_PublisherID r) (r_Status r)
        (r_Sequence r) (r_ReasonCode r) (rd_ReasonCode d))
  end.

Definition prune (now : Z) (s : confirmations) : confirmations :=
  filter (λ kv, before now (ch_ExpiresAt kv.2) = true) s.

(** The loop for the oldest entry, from the token and the time found so far. *)
Fixpoint oldest_loop (token : string) (time : Z) (l : list (string * challenge)) : string :=
  match l with
  | [] => token
  | (candidate, entry) :: l =>
      if bool_decide (token = "") || before (ch_ExpiresAt entry) time
      then oldest_loop candidate (ch_ExpiresAt entry) l
      else oldest_loop token time l
  end.
Definition oldest_token (s : confirmations) : string := oldest_loop "" 0 (range_order s).

(** [random]: the bytes read into the buffer of thirty-two, or a failure. *)
Definition Issue (e : Enrolment) (r : Result) (d : ReputationDecision) (now : Z)
    (random : option string) (s : confirmations) : result confirmation_error string * confirmations :=
  match new_challenge e r d now with
  | Err err => (Err err, s)
  | Ok challenge =>
      match random with
      | None => (Err NoRandom, s)
      | Some bytes =>
          if negb (slen bytes =? 32) then (Err NoRandom, s) else
          let token := base64_raw_url bytes in
          let s := prune now s in
          let s := if reputationConfirmationLimit <=? size s then delete (oldest_token s) s else s in
          (Ok token, <[token := challenge]> s)
      end
  end.

Definition MatchesEnrolment (c : challenge) (e : Enrolment) : bool :=
  match en_Signature e with
  | None => false
  | Some signed =>
      match Digest sha256 (ss_State signed) with
      | Err _ => false
      | Ok digest =>
          (ch_UID c =? en_UID e)%N && bool_decide (ch_Origin c = en_Origin e) &&
          (ch_Generation c =? en_Generation e)%N &&
          bool_decide (ch_LaunchRoot c = an_LaunchRoot (en_Anchor e)) &&
          bool_decide (ch_StateDigest c = digest)
      end
  end.

Definition MatchesWarning (c : challenge) (r : Result) (d : ReputationDecision) : bool :=
  bool_decide (ch_ProviderID c = r_ProviderID r) && bool_decide (ch_PublisherID c = r_PublisherID r) &&
  bool_decide (ch_Status c = r_Status r) && (ch_Sequence c =? r_Sequence r)%N &&
  bool_decide (ch_ProviderReason c = r_ReasonCode r) && bool_decide (ch_PolicyReason c = rd_ReasonCode d).

Definition unusable (token : string) : bool := bool_decide (token = "") || (64 <? slen token).

Definition Consume (token : string) (e : Enrolment) (now : Z) (s : confirmations) :
    option challenge * confirmations :=
  if unusable token then (None, s)
  else
    let s := prune now s in
    match s !! token with
    | None => (None, s)
    | Some c => (if MatchesEnrolment c e then Some c else None, delete token s)
    end.

(** ** Runs of the store *)
Inductive call : Type :=
  | Issued (e : Enrolment) (r : Result) (d : ReputationDecision) (now : Z) (random : option string)
  | Consumed (token : string) (e : Enrolment) (now : Z).

Definition apply_call (s : confirmations) (c : call) : confirmations :=
  match c with
  | Issued e r d now random => (Issue e r d now random s).2
  | Consumed token e now => (Consume token e now s).2
  end.
Definition run (calls : list call) : confirmations := foldl apply_call ∅ calls.

(** ** Properties *)
Lemma prune_lookup now s token c :
  prune now s !! token = Some c ↔ s !! token = Some c ∧ (now < ch_ExpiresAt c)%Z.
Proof. unfold prune, before. rewrite map_lookup_filter_Some. cbn. by rewrite Z.ltb_lt. Qed.

Lemma prune_size now s : size (prune now s) ≤ size s.
Proof. apply map_subseteq_size, map_filter_subseteq. Qed.

Lemma consume_spec token e now s o s' :
  Consume token e now s = (o, s') →
  (unusable token = false → s' !! token = None) ∧
  (∀ k c, s' !! k = Some c → s !! k = Some c) ∧
  match o with
  | Some c => s !! token = Some c ∧ unusable token = false ∧ (now < ch_ExpiresAt c)%Z ∧
      MatchesEnrolment c e = true
  | None => True
  end.
Proof.
  unfold Consume. destruct (unusable token) eqn:Eu; [by intros [= <- <-]|].
  destruct (prune now s !! token) as [c|] eqn:E; intros [= <- <-].
  - split_and!; [intros _; by rewrite lookup_delete_eq| |].
    + intros k d [_ [? _]%prune_lookup]%lookup_delete_Some. done.
    + destruct (MatchesEnrolment c e) eqn:Em; [|done]. apply prune_lookup in E as []. done.
  - split_and!; [done| |done]. by intros k d [? _]%prune_lookup.
Qed.

Lemma issue_cases e r d now random s o s' :
  Issue e r d now random s = (o, s') →
  (s' = s ∧ ∃ err, o = Err err) ∨
  ∃ bytes c, random = Some bytes ∧ slen bytes = 32 ∧ o = Ok (base64_raw_url bytes) ∧
    new_challenge e r d now = Ok c ∧
    let kept := prune now s in
    s' = <[base64_raw_url bytes := c]>
      (if reputationConfirmationLimit <=? size kept then delete (oldest_token kept) kept else kept).
Proof.
  unfold Issue. destruct (new_challenge e r d now) as [c|] eqn:En; [|intros [= <- <-]; eauto].
  destruct random as [bytes|]; [|intros [= <- <-]; eauto].
  destruct (Nat.eqb_spec (slen bytes) 32) as [Hl|]; cbn [negb]; intros [= <- <-]; [right|eauto].
  exists bytes, c. done.
Qed.

Lemma issue_lookup e r d now random s o s' k c :
  Issue e r d now random s = (o, s') → s' !! k = Some c →
  s !! k = Some c ∨ o = Ok k ∧ new_challenge e r d now = Ok c.
Proof.
  intros [[-> _]|(bytes & fresh & _ & _ & -> & Hc & ->)]%issue_cases; [by left|].
  rewrite lookup_insert_Some. intros [[<- <-]|[_ H]]; [by right|left].
  destruct (_ <=? _); [apply lookup_delete_Some in H as [_ H]|]; by apply prune_lookup in H as [].
Qed.

(** A call that uses up [token]. *)
Definition uses_up (token : string) (c : call) : Prop :=
  match c with Consumed t _ _ => t = token ∧ unusable t = false | Issued _ _ _ _ _ => False end.

(** What is in the store was put there by a call after which the token was not
    presented. *)
Lemma run_issued calls token c :
  run calls !! token = Some c →
  ∃ before e r d now random after,
    calls = before ++ Issued e r d now random :: after ∧
    (Issue e r d now random (run before)).1 = Ok token ∧
    new_challenge e r d now = Ok c ∧
    (∀ x, x ∈ after → ¬ uses_up token x).
Proof.
  induction calls as [|x calls IH] using rev_ind; [done|].
  unfold run. rewrite foldl_app. fold (run calls). cbn [foldl]. intros H.
  assert (run calls !! token = Some c → ¬ uses_up token x → ∃ before e r d now random after,
    calls ++ [x] = before ++ Issued e r d now random :: after ∧
    (Issue e r d now random (run before)).1 = Ok token ∧
    new_challenge e r d now = Ok c ∧ (∀ y, y ∈ after → ¬ uses_up token y)) as Hkeep.
  { intros Hold Hx. destruct (IH Hold) as (before & e & r & d & now & random & after & -> & ? & ? & Ha).
    exists before, e, r, d, now, random, (after ++ [x]). split_and!; [by rewrite <-app_assoc|done|done|].
    intros y [Hy|Hy%list_elem_of_singleton]%elem_of_app; [by apply Ha|by subst]. }
  destruct x as [e r d now random|t e now]; cbn [apply_call] in H.
  - destruct (Issue e r d now random (run calls)) as [o s'] eqn:E.
    destruct (issue_lookup _ _ _ _ _ _ _ _ _ _ E H) as [Hold|[-> Hc]];
      [by apply Hkeep; [|intros []]|].
    exists calls, e, r, d, now, random, []. fold (run calls). rewrite E. split_and!; [done..|].
    intros y Hy. by apply elem_of_nil in Hy.
  - destruct (Consume t e now (run calls)) as [o s'] eqn:E.
    apply consume_spec in E as (Hgone & Hold & _). apply Hkeep; [by apply Hold|].
    intros [-> Hu]. cbn [snd] in H. rewrite Hgone in H by done. done.
Qed.

Lemma new_challenge_ok e r d now c :
  new_challenge e r d now = Ok c →
  MatchesEnrolment c e = true ∧ MatchesWarning c r d = true ∧
  ch_ExpiresAt c = (now + reputationConfirmationTTL)%Z.
Proof.
  unfold new_challenge, MatchesEnrolment, MatchesWarning.
  destruct (en_Signature e) as [signed|]; [|done].
  intros (digest & Hd & [= <-])%bind_ok. apply wrap_ok in Hd. rewrite Hd. cbn.
  rewrite !N.eqb_refl, !bool_decide_eq_true_2 by done. done.
Qed.

(** The enrolments a challenge matches are the same launch of the same account,
    for the same signed state. *)
Definition same_enrolment (e e' : Enrolment) : Prop :=
  en_UID e = en_UID e' ∧ en_Origin e = en_Origin e' ∧ en_Generation e = en_Generation e' ∧
  an_LaunchRoot (en_Anchor e) = an_LaunchRoot (en_Anchor e') ∧
  ∃ s s', en_Signature e = Some s ∧ en_Signature e' = Some s' ∧
    (ss_State s = ss_State s' ∨ collision sha256).

Lemma matches_enrolment_same c e e' :
  MatchesEnrolment c e = true → MatchesEnrolment c e' = true → same_enrolment e e'.
Proof.
  unfold MatchesEnrolment, same_enrolment.
  destruct (en_Signature e) as [s|]; [|done]. destruct (Digest sha256 (ss_State s)) as [d|] eqn:Ed; [|done].
  destruct (en_Signature e') as [s'|]; [|done]. destruct (Digest sha256 (ss_State s')) as [d'|] eqn:Ed'; [|done].
  bools. intros ((((-> & ->) & ->) & ->) & ->) ((((-> & ->) & ->) & ->) & <-). split_and!; try done.
  exists s, s'. split_and!; [done..|]. by eapply digest_binds.
Qed.

(** C13: in any run of the authority, a confirmation is accepted only if the
    authority itself issued that token, for the same launch of the same account
    and the same signed state, less than five minutes before, and the token was
    not presented in between - so it is good once.  What it then confirms is
    exactly the warning it was issued for. *)
Theorem confirmation_sound calls token e now c store :
  Consume token e now (run calls) = (Some c, store) →
  store !! token = None ∧
  ∃ before e0 r d now0 random after,
    calls = before ++ Issued e0 r d now0 random :: after ∧
    (Issue e0 r d now0 random (run before)).1 = Ok token ∧
    (∀ x, x ∈ after → ¬ uses_up token x) ∧
    same_enrolment e0 e ∧
    (now < now0 + reputationConfirmationTTL)%Z ∧
    (∀ r' d', MatchesWarning c r' d' = true ↔
      (r_ProviderID r', r_PublisherID r', r_Status r', r_Sequence r', r_ReasonCode r', rd_ReasonCode d') =
      (r_ProviderID r, r_PublisherID r, r_Status r, r_Sequence r, r_ReasonCode r, rd_ReasonCode d)).
Proof.
  intros (Hgone & _ & Hs & Hu & Hnow & Hm)%consume_spec. split; [by apply Hgone|].
  destruct (run_issued _ _ _ Hs) as (before & e0 & r & d & now0 & random & after & -> & Hi & Hc & Ha).
  destruct (new_challenge_ok _ _ _ _ _ Hc) as (Hm0 & Hw & Hexp). rewrite Hexp in Hnow.
  exists before, e0, r, d, now0, random, after. split_and!; try done.
  { by eapply matches_enrolment_same. }
  unfold MatchesWarning in *. bools_in Hw. intros r' d'. bools.
  destruct Hw as (((((-> & ->) & ->) & ->) & ->) & ->). split.
  - intros (((((-> & ->) & ->) & ->) & ->) & ->). done.
  - intros [=]. by split_and!.
Qed.

(** ** The store stays bounded *)
Lemma oldest_loop_in token time l :
  token ≠ "" → Forall (λ kv, kv.1 ≠ "") l → oldest_loop token time l ∈ token :: l.*1.
Proof.
  revert token time. induction l as [|[k c] l IH]; intros token time Ht Hl; cbn;
    [apply list_elem_of_here|].
  apply Forall_cons in Hl as [Hk Hl].
  rewrite bool_decide_eq_false_2 by done. cbn [orb].
  destruct (before (ch_ExpiresAt c) time).
  - right. by apply IH.
  - specialize (IH token time Ht Hl). apply elem_of_cons in IH as [->|IH]; [left|by right; right].
Qed.

Lemma base64_nonempty bytes : slen bytes = 32 → base64_raw_url bytes ≠ "".
Proof. by destruct bytes as [|? [|? [|]]]. Qed.

Hypothesis range_all : ∀ s, range_order s ≡ₚ map_to_list s.

Lemma oldest_present s :
  s ≠ ∅ → (∀ k c, s !! k = Some c → k ≠ "") → is_Some (s !! oldest_token s).
Proof using range_all.
  intros Hs Hk. unfold oldest_token.
  assert (∀ kv, kv ∈ range_order s → s !! kv.1 = Some kv.2) as Hin.
  { intros [k c]. rewrite range_all. apply elem_of_map_to_list. }
  destruct (range_order s) as [|[k c] l] eqn:E.
  { exfalso. apply Hs, map_to_list_empty_iff, Permutation_nil. by rewrite <-range_all, E. }
  cbn [oldest_loop]. change (bool_decide ("" = "")) with true. cbn [orb].
  assert (Forall (λ kv : string * challenge, kv.1 ≠ "") ((k, c) :: l)) as Hne.
  { apply Forall_forall. intros kv Hkv. by eapply Hk, Hin. }
  apply Forall_cons in Hne as [Hk0 Hne].
  pose proof (oldest_loop_in k (ch_ExpiresAt c) l Hk0 Hne) as Ho.
  change (k :: l.*1) with (((k, c) :: l).*1) in Ho. apply list_elem_of_fmap in Ho as (kv & -> & Hkv).
  eauto.
Qed.

(** Whatever is issued and consumed, in whatever order, the store never holds
    more than 1024 confirmations. *)
Theorem confirmations_bounded calls :
  size (run calls) ≤ reputationConfirmationLimit.
Proof using range_all.
  assert (size (run calls) ≤ reputationConfirmationLimit ∧ ∀ k c, run calls !! k = Some c → k ≠ "")
    as [H _]; [|done].
  induction calls as [|x calls [IHs IHk]] using rev_ind; [split; [vm_compute; lia|done]|].
  unfold run. rewrite foldl_app. fold (run calls). cbn [foldl].
  destruct x as [e r d now random|t e now]; cbn [apply_call].
  - destruct (Issue e r d now random (run calls)) as [o s'] eqn:E.
    apply issue_cases in E as [[-> _]|(bytes & fresh & _ & Hl & _ & _ & ->)]; [done|].
    pose proof (prune_size now (run calls)) as Hp. cbv zeta. cbn [snd].
    set (kept := prune now (run calls)) in *.
    assert (∀ k c, kept !! k = Some c → k ≠ "") as Hkept.
    { intros k c [? _]%prune_lookup. by eapply IHk. }
    destruct (Nat.leb_spec reputationConfirmationLimit (size kept)) as [Hfull|Hroom].
    + destruct (oldest_present kept) as [c Hc]; [|done|].
      { intros ->. rewrite map_size_empty in Hfull. vm_compute in Hfull. lia. }
      assert (size (delete (oldest_token kept) kept) = pred (size kept)) as Hd
        by (apply map_size_delete_Some; by eexists).
      split.
      * rewrite map_size_insert. destruct (delete _ kept !! base64_raw_url bytes); [unfold id; lia|].
        assert (0 < size kept) by (eapply Nat.lt_le_trans; [|exact Hfull]; vm_compute; lia). lia.
      * intros k c' [[<- _]|[_ [_ ?]%lookup_delete_Some]]%lookup_insert_Some; [by apply base64_nonempty|eauto].
    + split.
      * rewrite map_size_insert. destruct (kept !! base64_raw_url bytes); unfold id; lia.
      * intros k c' [[<- _]|[_ ?]]%lookup_insert_Some; [by apply base64_nonempty|eauto].
  - destruct (Consume t e now (run calls)) as [o s'] eqn:E. cbn [snd]. unfold Consume in E.
    assert (∀ k c, s' !! k = Some c → run calls !! k = Some c) as Hsub
      by by apply (consume_spec _ _ _ _ _ _ E).
    split; [|intros k c ?; by eapply IHk, Hsub].
    etrans; [|exact IHs]. apply map_subseteq_size, map_subseteq_spec, Hsub.
Qed.
End Store.

(** ** An example *)
Definition anchor_example (generation : N) : Anchor :=
  let zeros := concat_strings (repeat "00" 32) in
  mkAnchor 1 1000 "github.com/acme/tool" generation ("sha256:" +:+ concat_strings (repeat "1b" 32))
    (concat_strings (repeat "0a" 32)) zeros zeros (hex_encode (concat_strings (repeat "r" 32))) ∅.
Definition enrolment_example (generation : N) (signature : option SignedState) : Enrolment :=
  mkEnrolment (anchor_example generation) None 0 signature None None None "" no_mode.
Definition signed_enrolment_example : Enrolment :=
  enrolment_example 7 (Some (mkSignedState state_example "{}" 0 "" "")).
Definition warning_example : ReputationDecision :=
  mkRepDecision true ActionWarn "caution" "shown to the owner" false.
Definition token_example : string := base64_raw_url (concat_strings (repeat "r" 32)).
Definition issue_example : call :=
  Issued signed_enrolment_example (UnavailableResult "acme" "" "offline") warning_example 10
    (Some (concat_strings (repeat "r" 32))).

Lemma confirmation_sound_witness :
  (Consume (λ s, s) token_example signed_enrolment_example 20
    (run (λ s, s) map_to_list [issue_example])).2 !! token_example = None.
Proof.
  destruct (Consume (λ s, s) token_example signed_enrolment_example 20
    (run (λ s, s) map_to_list [issue_example])) as [[c|] store] eqn:E;
    [|exfalso; vm_compute in E; discriminate].
  by destruct (confirmation_sound (λ s, s) map_to_list [issue_example] token_example
    signed_enrolment_example 20 c store E) as [H _].
Defined.

Lemma confirmations_bounded_witness :
  size (run (λ s, s) map_to_list [issue_example; issue_example]) ≤ reputationConfirmationLimit.
Proof. apply confirmations_bounded. intros s. reflexivity. Defined.
