(* ===== verification/Ledger.v ===== *)
(** * The anchor ledger ([pkg/systemauthority/anchor.go], [trust.go])

    Recording an enrolment, forgetting one, clearing what a removal left, and how
    hard each enrolment is asked for, over the files of the authority and the
    confirmations it holds in memory.  [encoding/json], the verifier of evidence
    and the counter-signature check are parameters. *)
From Stdlib Require Import Ascii.
From stdpp Require Import base strings list numbers gmap pretty.
From S2P Require Import Prelude.
From S2P Require Import GoStrings.
From S2P Require Import Utf8.
From S2P Require Import GoPath.
From S2P Require Import Json.
From S2P Require Import Override.
From S2P Require Import TrustedFiles.
From S2P Require Import Enforcement.
From S2P Require Import Reputation.
From S2P Require Import ReputationStore.
From S2P Require Import TrustPolicy.
From S2P Require Import ReputationPolicy.
From S2P Require Import Integrity.
From S2P Require Import Roots.
From S2P Require Import SignedState.
From S2P Require Import Evidence.
From S2P Require Import Anchor.
From S2P Require Import RecordPaths.
From S2P Require Import Confirmation.
From stdpp Require Import options.

Definition anchorSizeLimit : N := N.shiftl 512 10.
Definition trustPolicySizeLimit : N := N.shiftl 64 10.
Definition trustPolicyFileName : string := "trust.json".

(** ** The state of the authority *)
Record authority : Type := mkState { files : world; pending : confirmations }.

Definition on_files {E A} (m : M E A) : SM authority E A := λ a,
  let '(r, w) := m (files a) in (r, mkState w (pending a)).
Definition on_pending {E A} (f : confirmations → A * confirmations) : SM authority E A := λ a,
  let '(x, s) := f (pending a) in (Ok x, mkState (files a) s).

(** A lookup answers whatever fails ([result, _ := lookup(..)]). *)
Definition on_lookup {E A} (f : world → A * world) : SM authority E A := λ a,
  let '(x, w) := f (files a) in (Ok x, mkState w (pending a)).

Inductive trust_error : Type :=
  | RelativeTrust | TrustDirectory (e : file_error) | TrustRead (e : file_error)
  | TrustTooLarge | TrustDecode | TrustInvalid (e : policy_error)
  | TrustWrite (e : file_error) | TrustRemove (e : file_error).

Inductive ledger_error : Type :=
  | LedgerPath (e : path_error) | LedgerDirectory (e : file_error) | LedgerRead (e : file_error)
  | LedgerDuplicateKeys | LedgerDecode | NotItsFile | LedgerInvalid (e : enrolment_error)
  | LedgerOrder (e : order_error) | LedgerEncode | LedgerWrite (e : file_error)
  | LedgerRemove (e : file_error)
  | SignaturePolicyError (e : setting_error) | ErrSignatureRequired (origin : string)
  | StateOfAnother (origin : string) | SignatureFails (why : string)
  | SignatureForeign (repo : string)
  | TrustPolicyError (e : trust_error) | RefusedBy (r : option reason)
  | NoAuthorityVerification | NoConfirmation (e : confirmation_error)
  | ReputationConfirmationRequired (r : Result) (d : ReputationDecision) (signatures : string)
      (mode : ReputationMode) (token : string)
  | ReputationRefused (r : Result) (d : ReputationDecision) (signatures : string)
      (mode : ReputationMode).

(** What the ledger calls of [encoding/json]: the tokens of one value, and the
    strict decoders and the indented encoders of its documents. *)
Record ledger_codec : Type := mkLedgerCodec {
  lc_tokens : string → option json;
  decode_enrolment : string → option Enrolment;
  encode_enrolment : Enrolment → option string;
  decode_tombstone : string → option Tombstone;
  encode_tombstone : Tombstone → option string;
  decode_trust : string → option TrustPolicy.Policy;
  encode_trust : TrustPolicy.Policy → option string
}.

(** What the ledger relies on of them: an integer, a boolean and a checked string
    are read back as they were written, whatever becomes of the other fields. *)
Record counts_read_back (lc : ledger_codec) : Prop := {
  enrolment_counts : ∀ e d e', encode_enrolment lc e = Some d →
    decode_enrolment lc (Enforcement.line d) = Some e' → floor_of e' = floor_of e;
  tombstone_counts : ∀ t d t', encode_tombstone lc t = Some d →
    decode_tombstone lc (Enforcement.line d) = Some t' → buried_floor t' = buried_floor t
}.

(** The fields of [AnchorLedger] that are not functions. *)
Record AnchorLedger : Type := mkLedger { Directory_ : string; OwnerUID : N }.

(** The instants and the random bytes of one call. *)
Record moment : Type := mkMoment {
  verified_at : Z;
  decided_at : Z;
  random : option string
}.

Section Ledger.
Context (sha256 quote : string → string) (lc : ledger_codec).
Context (url_parse : string → option url) (time_parse : string → Z).
Context (range_order : confirmations → list (string * challenge)).
Context (l : AnchorLedger).
(** [verifyEvidence] and [verifyApproval], the variables of the package;
    [ReputationLookup], by default [default_lookup] below. *)
Context (verifyEvidence : SignatureEvidence → Z → result string VerificationResult).
Context (verifyApproval : option (Enrolment → result string Verified)).
Context (reputationLookup : string → Z → world → Result * world).

(** ** Reading *)
Definition anchorPath (uid : N) (origin : string) : result ledger_error string :=
  wrap LedgerPath (recordPath (Directory_ l) uid origin record_suffix).
Definition tombstonePath (uid : N) (origin : string) : result ledger_error string :=
  wrap LedgerPath (recordPath (Directory_ l) uid origin forgottenSuffix).

Fixpoint trusted_all (directories : list string) : M ledger_error bool :=
  match directories with
  | [] => mret true
  | d :: directories =>
      checked ← try (validateExistingDirectory d (OwnerUID l));
      match checked with
      | Err Missing => mret false
      | Err e => fail (LedgerDirectory e)
      | Ok _ => trusted_all directories
      end
  end.
Definition trustedDirectories (path : string) : M ledger_error bool :=
  trusted_all [Directory_ l; dir path].

Definition from_option_error {A} (o : option A) (e : ledger_error) : result ledger_error A :=
  match o with Some x => Ok x | None => Err e end.

Definition read_enrolment (uid : N) (origin data : string) : result ledger_error Enrolment :=
  check_that (from_option unique_keys false (lc_tokens lc data)) LedgerDuplicateKeys ;;;
  e ← from_option_error (decode_enrolment lc data) LedgerDecode;
  refuse_if (negb (en_UID e =? uid)%N || negb (bool_decide (en_Origin e = origin))) NotItsFile ;;;
  wrap LedgerInvalid (complete_enrolment sha256 quote e).

(** How both kinds of record are read: [None] when there is none. *)
Definition read_slot {A} (slot : result ledger_error string) (decode : string → result ledger_error A) :
    M ledger_error (option A) :=
  path ← lift slot;
  present ← trustedDirectories path;
  if negb present then mret None
  else
    data ← map_error LedgerRead (readTrusted path (OwnerUID l) anchorSizeLimit);
    match data with
    | None => mret None
    | Some data => x ← lift (decode data); mret (Some x)
    end.

Definition Recorded (uid : N) (origin : string) : M ledger_error (option Enrolment) :=
  read_slot (anchorPath uid origin) (read_enrolment uid origin).

Definition Load (uid : N) (origin : string) : M ledger_error (option Anchor) :=
  recorded ← Recorded uid origin;
  mret (en_Anchor <$> recorded).

Definition read_tombstone (uid : N) (origin data : string) : result ledger_error Tombstone :=
  t ← from_option_error (decode_tombstone lc data) LedgerDecode;
  refuse_if (negb (tb_UID t =? uid)%N || negb (bool_decide (tb_Origin t = origin))) NotItsFile ;;;
  wrap LedgerInvalid (complete_tombstone sha256 t).

Definition Forgotten (uid : N) (origin : string) : M ledger_error (option Tombstone) :=
  read_slot (tombstonePath uid origin) (read_tombstone uid origin).

(** ** The administrator's policy ([TrustStore]) *)
Definition trust_path : result trust_error string :=
  check_that (is_abs (Directory_ l)) RelativeTrust ;;;
  Ok (path_join [Directory_ l; trustPolicyFileName]).

Definition decodeTrustPolicy (document : string) : result trust_error TrustPolicy.Policy :=
  refuse_if (trustPolicySizeLimit <? N.of_nat (slen document))%N TrustTooLarge ;;;
  policy ← match decode_trust lc document with Some p => Ok p | None => Err TrustDecode end;
  wrap TrustInvalid (Validate url_parse policy) ;;;
  Ok policy.

Definition no_policy : TrustPolicy.Policy := mkTrust 0 false false [] [] [] [] [] None None.

Definition HostPolicy : M trust_error TrustPolicy.Policy :=
  path ← lift trust_path;
  checked ← try (validateExistingDirectory (Directory_ l) (OwnerUID l));
  match checked with
  | Err Missing => mret no_policy
  | Err e => fail (TrustDirectory e)
  | Ok _ =>
      data ← map_error TrustRead (readTrusted path (OwnerUID l) trustPolicySizeLimit);
      match data with
      | None => mret no_policy
      | Some data => lift (decodeTrustPolicy data)
      end
  end.

Definition SetTrust (policy : TrustPolicy.Policy) : M trust_error () :=
  lift (wrap TrustInvalid (Validate url_parse policy)) ;;;
  path ← lift trust_path;
  map_error TrustDirectory (ensureDirectory (Directory_ l) (OwnerUID l)) ;;;
  document ← lift (match encode_trust lc policy with Some d => Ok d | None => Err TrustDecode end);
  map_error TrustWrite (writeAtomic path (Enforcement.line document) 420).

Definition ClearTrust : M trust_error () :=
  path ← lift trust_path;
  removed ← try (remove path);
  match removed with
  | Ok _ | Err Missing => mret ()
  | Err e => fail (TrustRemove e)
  end.

(** ** Admission *)
Definition VerifyPublisher (signed : SignedState) (origin : string) (now : Z) :
    result ledger_error (VerificationResult * Verified) :=
  check_that (bool_decide (st_Origin (ss_State signed) = origin)) (StateOfAnother origin) ;;;
  result ← wrap SignatureFails (verifyEvidence (evidence_of signed) now);
  verified ← wrap SignatureFails (LegacyVerified result (ss_State signed));
  check_that (bool_decide (vr_OriginAuthorization result = authorization_text OriginAuthorized))
    (SignatureForeign (id_Repo (v_Identity verified))) ;;;
  Ok (result, verified).

Definition settings : EnforcementStore := mkStore (Directory_ l) (OwnerUID l).

Definition with_verification (e : Enrolment) (v : option VerificationResult) (mode : string) : Enrolment :=
  mkEnrolment (en_Anchor e) (en_Policy e) (en_PolicySchema e) (en_Signature e) v
    (en_Reputation e) (en_ReputationDecision e) mode (en_ReputationMode e).
Definition with_reputation (e : Enrolment) (r : option Result) (d : option ReputationDecision)
    (mode : ReputationMode) : Enrolment :=
  mkEnrolment (en_Anchor e) (en_Policy e) (en_PolicySchema e) (en_Signature e) (en_Verification e)
    r d (en_SignatureMode e) mode.

Definition admitSignature (e : Enrolment) (now : Z) : M ledger_error Enrolment :=
  answer ← map_error SignaturePolicyError (SignaturePolicy settings);
  match answer.2 with
  | Some err => fail (SignaturePolicyError err)
  | None =>
      match en_Signature e with
      | Some signed =>
          verdict ← lift (VerifyPublisher signed (en_Origin e) now);
          mret (with_verification e (Some verdict.1) answer.1)
      | None =>
          lift (refuse_if (bool_decide (answer.1 = SignaturesRequired)) (ErrSignatureRequired (en_Origin e))) ;;;
          mret (with_verification e (en_Verification e) answer.1)
      end
  end.

Definition refused_by (d : Decision) : result ledger_error unit :=
  check_that (Allowed d) (RefusedBy (Some (Reason d))).

Definition admitPublisher (p : TrustPolicy.Policy) (e : Enrolment) :
    result ledger_error (option PublisherIdentity) :=
  match en_Signature e with
  | None => refuse_if (RequirePublisher p) (RefusedBy None) ;;; Ok None
  | Some _ =>
      match en_Verification e ≫= vr_Publisher with
      | None => Err NoAuthorityVerification
      | Some publisher =>
          refused_by (AllowsNormalizedPublisher p (pi_ID publisher) (pi_Issuer publisher)
            (pi_Repository publisher) (en_Origin e)) ;;;
          Ok (Some publisher)
      end
  end.

Definition publisherGeneration (e : Enrolment) : N :=
  match en_Signature e with Some s => st_Generation (ss_State s) | None => 0%N end.

Definition admitApproval (p : TrustPolicy.Policy) (e : Enrolment) : result ledger_error unit :=
  if negb (RequireApproval p) then Ok tt
  else match verifyApproval with
  | None => Err (RefusedBy None)
  | Some verify =>
      verified ← wrap (λ _, RefusedBy None) (verify e);
      refused_by (AllowsApproval p (id_Issuer (v_Identity verified)) (id_Repo (v_Identity verified)))
  end.

Definition admitReputation (p : TrustPolicy.Policy) (e : Enrolment) (publisher : option PublisherIdentity)
    (confirmation : string) (at_ : moment) : SM authority ledger_error Enrolment :=
  match TrustPolicy.Reputation p with
  | Some rep =>
      if negb (ABI p =? CurrentABIVersion)%Z || bool_decide (rp_Mode rep = ReputationOff) then mret e
      else match publisher with
      | None => fail (RefusedBy None)
      | Some publisher =>
          let now := decided_at at_ in
          confirmed ← on_pending (Consume sha256 confirmation e now);
          answer ← on_lookup (reputationLookup (pi_ID publisher) now);
          let d := EvaluatesReputation time_parse p answer (pi_ID publisher) (en_Origin e) now in
          (if bool_decide (rd_Action d = ActionWarn) &&
              negb (from_option (λ c, MatchesWarning c answer d) false confirmed)
           then
             issued ← on_pending (Issue sha256 range_order e answer d now (random at_));
             match issued with
             | Err err => fail (NoConfirmation err)
             | Ok token => fail (ReputationConfirmationRequired answer d (en_SignatureMode e)
                 (en_ReputationMode e) token)
             end
           else mret ()) ;;;
          lift (check_that (rd_Allowed d)
            (ReputationRefused answer d (en_SignatureMode e) (en_ReputationMode e))) ;;;
          mret (with_reputation e (Some answer) (Some d) (en_ReputationMode e))
      end
  | None => mret e
  end.

Definition admitTrust (e : Enrolment) (confirmation : string) (at_ : moment) :
    SM authority ledger_error Enrolment :=
  p ← on_files (map_error TrustPolicyError HostPolicy);
  let e := with_reputation e (en_Reputation e) (en_ReputationDecision e)
    (match TrustPolicy.Reputation p with
     | Some rep => if (ABI p =? CurrentABIVersion)%Z then rp_Mode rep else ReputationOff
     | None => ReputationOff
     end) in
  if Empty p then mret e
  else
    lift (refused_by (AllowsOrigin p (en_Origin e))) ;;;
    publisher ← lift (admitPublisher p e);
    lift (refused_by (IsRevoked p (en_Origin e) (publisherGeneration e))) ;;;
    lift (admitApproval p e) ;;;
    admitReputation p e publisher confirmation at_.

(** ** Writing *)
Definition cleared (e : Enrolment) : Enrolment :=
  mkEnrolment (en_Anchor e) (en_Policy e) (en_PolicySchema e) (en_Signature e) None None None "" no_mode.

Definition carried_policy (existing : option Enrolment) (e : Enrolment) : Enrolment :=
  match existing with
  | Some existing =>
      if is_nil (en_Policy e) && bool_decide (en_PolicyRoot existing = en_PolicyRoot e)
      then with_policy e (en_Policy existing) (en_PolicySchema existing) else e
  | None => e
  end.

(** From the path on: the ledger is opened, the enrolment ordered against what it
    holds, and the record replaced. *)
Definition write_record (e : Enrolment) : M ledger_error () :=
  path ← lift (anchorPath (en_UID e) (en_Origin e));
  map_error LedgerDirectory (ensureDirectory (Directory_ l) (OwnerUID l)) ;;;
  map_error LedgerDirectory (ensureDirectory (dir path) (OwnerUID l)) ;;;
  existing ← Recorded (en_UID e) (en_Origin e);
  lift (match existing with
        | Some existing => wrap LedgerOrder (ordersAfter existing e)
        | None => Ok tt
        end) ;;;
  buried ← Forgotten (en_UID e) (en_Origin e);
  lift (match buried with
        | Some buried => wrap LedgerOrder (ordersAfterRemoval buried e)
        | None => Ok tt
        end) ;;;
  data ← lift (from_option_error (encode_enrolment lc (carried_policy existing e)) LedgerEncode);
  map_error LedgerWrite (writeAtomic path (Enforcement.line data) 420).

Definition record (e : Enrolment) (confirmation : string) (at_ : moment) : SM authority ledger_error () :=
  e ← lift (wrap LedgerInvalid (complete_enrolment sha256 quote (cleared e)));
  e ← on_files (admitSignature e (verified_at at_));
  e ← admitTrust e confirmation at_;
  lift (wrap LedgerInvalid (validateEnrolment sha256 quote e)) ;;;
  on_files (write_record e).

Definition Record_ (e : Enrolment) (at_ : moment) : SM authority ledger_error () := record e "" at_.
Definition RecordConfirmed (e : Enrolment) (confirmation : string) (at_ : moment) :
    SM authority ledger_error () := record e confirmation at_.

(** [os.Remove] of a file that may be gone. *)
Definition remove_gone (path : string) : M ledger_error () :=
  removed ← try (remove path);
  match removed with
  | Ok _ | Err Missing => mret ()
  | Err e => fail (LedgerRemove e)
  end.

Definition entomb (recorded : Enrolment) : M ledger_error () :=
  standing ← Forgotten (en_UID recorded) (en_Origin recorded);
  let buried := match standing with
    | Some standing => raisedBy (tombstone_of recorded) standing
    | None => tombstone_of recorded
    end in
  path ← lift (tombstonePath (en_UID recorded) (en_Origin recorded));
  map_error LedgerDirectory (ensureDirectory (dir path) (OwnerUID l)) ;;;
  data ← lift (from_option_error (encode_tombstone lc buried) LedgerEncode);
  map_error LedgerWrite (writeAtomic path (Enforcement.line data) 420).

Definition Forget (uid : N) (origin : string) : M ledger_error () :=
  path ← lift (anchorPath uid origin);
  present ← trustedDirectories path;
  if negb present then mret ()
  else
    recorded ← Recorded uid origin;
    match recorded with Some recorded => entomb recorded | None => mret () end ;;;
    remove_gone path.

Definition ClearForgotten (uid : N) (origin : string) : M ledger_error () :=
  path ← lift (tombstonePath uid origin);
  present ← trustedDirectories path;
  if negb present then mret () else remove_gone path.

(** ** How hard to ask *)
Definition authorizationFor (e : Enrolment) : M ledger_error string :=
  recorded ← Recorded (en_UID e) (en_Origin e);
  match recorded with
  | Some recorded =>
      mret (authorizationAgainst (en_Generation recorded) (en_PolicyRoot recorded) (en_Policy recorded) e)
  | None =>
      buried ← Forgotten (en_UID e) (en_Origin e);
      match buried with
      | Some buried =>
          mret (authorizationAgainst (tb_Generation buried) (tb_PolicyRoot buried) (tb_Policy buried) e)
      | None => mret ActionEnrolAnchor
      end
  end.

Definition AsksTheOwner (e : Enrolment) : M ledger_error bool :=
  action ← authorizationFor e;
  mret (negb (bool_decide (action = ActionEnrolAnchor))).

(** ** Calls *)
Inductive ledger_call : Type :=
  | CallRecord (e : Enrolment) (confirmation : string) (at_ : moment)
  | CallForget (uid : N) (origin : string)
  | CallClearRemoval (uid : N) (origin : string)
  | CallSetTrust (policy : TrustPolicy.Policy)
  | CallClearTrust
  | CallSetLevel (level : string)
  | CallSetSignatures (policy : string).

Definition settle {E A} (m : SM authority E A) (a : authority) : authority := (m a).2.

Definition exec (c : ledger_call) : authority → authority :=
  match c with
  | CallRecord e confirmation at_ => settle (record e confirmation at_)
  | CallForget uid origin => settle (on_files (Forget uid origin))
  | CallClearRemoval uid origin => settle (on_files (ClearForgotten uid origin))
  | CallSetTrust policy => settle (on_files (SetTrust policy))
  | CallClearTrust => settle (on_files ClearTrust)
  | CallSetLevel level => settle (on_files (Set_ settings level))
  | CallSetSignatures policy => settle (on_files (SetSignaturePolicy settings policy))
  end.
Definition exec_all (calls : list ledger_call) (a : authority) : authority :=
  foldl (λ a c, exec c a) a calls.
End Ledger.

(** [DefaultReputationStore().Lookup], whose error the ledger drops. *)
Definition default_lookup (c : codec) (s : ReputationStore) (publisherID : string) (now : Z)
    (w : world) : Result * world :=
  match StoreLookup c s publisherID now w with
  | (Ok (answer, _), w') => (answer, w')
  | (Err _, w') => (UnavailableResult "" publisherID "provider-configuration-invalid", w')
  end.
