(* ===== verification/LedgerFloor.v ===== *)
(** * The ledger never goes back ([anchor.go])

    How far an application has come is remembered by its record or, once that is
    removed, by what the removal left.  Whatever the authority is asked and
    wherever it is interrupted, nothing but clearing a removal lowers it. *)
From Stdlib Require Import Ascii.
From stdpp Require Import base strings list numbers gmap pretty.
From S2P Require Import Prelude.
From S2P Require Import GoStrings.
From S2P Require Import GoPath.
From S2P Require Import Hex.
From S2P Require Import Json.
From S2P Require Import TrustedFiles.
From S2P Require Import Enforcement.
From S2P Require Import Reputation.
From S2P Require Import ReputationStore.
From S2P Require Import TrustPolicy.
From S2P Require Import ReputationPolicy.
From S2P Require Import SignedState.
From S2P Require Import Evidence.
From S2P Require Import Anchor.
From S2P Require Import RecordPaths.
From S2P Require Import Confirmation.
From S2P Require Import Ledger.
From stdpp Require Import options.

Section Floor.
Context (sha256 quote : string → string) (lc : ledger_codec).
Context (url_parse : string → option url) (time_parse : string → Z).
Context (range_order : confirmations → list (string * challenge)).
Context (l : AnchorLedger).
Context (verifyEvidence : SignatureEvidence → Z → result string VerificationResult).
Context (verifyApproval : option (Enrolment → result string Verified)).
Context (reputationLookup : string → Z → world → Result * world).

Notation Recorded := (Recorded sha256 quote lc l).
Notation Forgotten := (Forgotten sha256 lc l).
Notation read_enrolment := (read_enrolment sha256 quote lc).
Notation read_tombstone := (read_tombstone sha256 lc).
Notation record := (record sha256 quote lc url_parse time_parse range_order l verifyEvidence
  verifyApproval reputationLookup).
Notation Forget := (Forget sha256 quote lc l).
Notation write_record := (write_record sha256 quote lc l).
Notation entomb := (entomb sha256 lc l).

(** ** Reading a slot *)
Lemma trusted_all_spec ds w r w' :
  trusted_all l ds w = (r, w') →
  only_read w w' ∧ (r = Ok false → ∃ d, d ∈ ds ∧ w_fs w !! d = None).
Proof.
  revert w r w'. induction ds as [|d ds IH]; intros w r w'; cbn [trusted_all]; [by intros [= <- <-]|].
  rewrite bind_try. destruct (validateExistingDirectory d (OwnerUID l) w) as [checked w1] eqn:E.
  apply validate_directory_spec in E as (Hr & _ & Hm & _).
  destruct checked as [[]|e].
  - intros [Hr2 Hf]%IH. split; [by etrans|]. intros (d' & Hd & Hn)%Hf. rewrite (proj1 Hr) in Hn.
    exists d'. split; [by right|done].
  - destruct e; intros [= <- <-]; (split; [done|]); try done. intros _. exists d. split; [left|auto].
Qed.

Lemma trusted_all_present ds w w' :
  trusted_all l ds w = (Ok true, w') → ∀ d, d ∈ ds → is_Some (w_fs w !! d).
Proof.
  revert w w'. induction ds as [|d ds IH]; intros w w' H d' Hd; [by apply elem_of_nil in Hd|].
  cbn [trusted_all] in H. rewrite bind_try in H.
  destruct (validateExistingDirectory d (OwnerUID l) w) as [checked w1] eqn:E.
  pose proof (validate_directory_spec _ _ _ _ _ E) as ([Hf _] & _).
  destruct checked as [[]|[]]; try done. apply elem_of_cons in Hd as [->|Hd].
  - destruct (validate_directory_present _ _ _ _ E) as (u & m & Hm). by eexists.
  - rewrite <-Hf. by eapply IH.
Qed.

Lemma read_slot_spec {A} slot (decode : string → result ledger_error A) w r w' :
  read_slot l slot decode w = (r, w') →
  only_read w w' ∧
  match r with
  | Ok (Some x) => ∃ path data, slot = Ok path ∧ trusted_file (w_fs w) path (OwnerUID l) data ∧
      decode data = Ok x ∧ (N.of_nat (slen data) ≤ anchorSizeLimit)%N
  | Ok None => ∃ path, slot = Ok path ∧
      (w_fs w !! path = None ∨ w_fs w !! Directory_ l = None ∨ w_fs w !! dir path = None)
  | Err _ => True
  end.
Proof.
  unfold read_slot, fail. rewrite bind_lift. destruct slot as [path|e]; [|by intros [= <- <-]].
  intros H. apply bind_M in H as [(present & w1 & Hp & H)|(e & Hp & ->)];
    apply trusted_all_spec in Hp as [Hr Hf]; [|done].
  destruct present; cbn [negb] in H.
  - rewrite bind_map_error in H. destruct (readTrusted _ _ _ w1) as [d w2] eqn:E.
    apply read_trusted_spec in E as (Hr2 & Hd & _). rewrite (proj1 Hr) in Hd.
    destruct d as [[data|]|e].
    + rewrite bind_lift in H. destruct (decode data) as [x|] eqn:Ex; injection H as <- <-;
        (split; [by etrans|]); [|done]. destruct Hd as [? ?]. eauto 7.
    + injection H as <- <-. split; [by etrans|]. eauto.
    + injection H as <- <-. split; [by etrans|done].
  - injection H as <- <-. split; [done|]. destruct (Hf eq_refl) as (d & Hd & Hn).
    exists path. split; [done|]. rewrite !elem_of_cons in Hd.
    destruct Hd as [->|[->|Hd]]; [auto..|by apply elem_of_nil in Hd].
Qed.

(** ** What remembers a floor *)

(** A file of the owner's from which no reading below [f] comes out: it holds at
    least [f], or cannot be read at all - in which case nothing is recorded. *)
Definition slot_keeps {A} (slot : result ledger_error string)
    (decode : string → result ledger_error A) (fl : A → floor) (f : floor)
    (fs : gmap string node) : Prop :=
  ∃ path data, slot = Ok path ∧ trusted_file fs path (OwnerUID l) data ∧
    ∀ x, decode data = Ok x → floor_le f (fl x).

Definition record_keeps (uid : N) (origin : string) (f : floor) (fs : gmap string node) : Prop :=
  slot_keeps (anchorPath l uid origin) (read_enrolment uid origin) floor_of f fs.
Definition removal_keeps (uid : N) (origin : string) (f : floor) (fs : gmap string node) : Prop :=
  slot_keeps (tombstonePath l uid origin) (read_tombstone uid origin) buried_floor f fs.
Definition keeps (uid : N) (origin : string) (f : floor) (fs : gmap string node) : Prop :=
  record_keeps uid origin f fs ∨ removal_keeps uid origin f fs.

Lemma slot_keeps_same {A} slot (decode : string → result ledger_error A) fl f fs fs' :
  (∀ path, slot = Ok path → is_Some (fs !! path) → fs' !! path = fs !! path) →
  slot_keeps slot decode fl f fs → slot_keeps slot decode fl f fs'.
Proof.
  intros Hsame (path & data & Hp & (mode & Hf & Hm) & Hx). exists path, data.
  split; [done|]. split; [|done]. exists mode. split; [|done]. rewrite Hsame; [done..|]. by eexists.
Qed.

Lemma slot_keeps_mono {A} slot (decode : string → result ledger_error A) fl f fs fs' :
  fs ⊆ fs' → slot_keeps slot decode fl f fs → slot_keeps slot decode fl f fs'.
Proof.
  intros Hsub. apply slot_keeps_same. intros path _ [n Hn]. rewrite Hn. by eapply lookup_weaken.
Qed.

Lemma keeps_mono uid origin f fs fs' : fs ⊆ fs' → keeps uid origin f fs → keeps uid origin f fs'.
Proof. intros Hs [H|H]; [left|right]; by eapply slot_keeps_mono. Qed.

Lemma slot_keeps_weaken {A} slot (decode : string → result ledger_error A) fl f g fs :
  floor_le f g → slot_keeps slot decode fl g fs → slot_keeps slot decode fl f fs.
Proof.
  intros Hfg (path & data & ? & ? & Hx). exists path, data. split_and!; [done..|].
  intros x Hd. etrans; [done|by apply Hx].
Qed.

(** A slot that keeps [f] and whose directories are there is read at or above [f]. *)
Lemma slot_read {A} slot (decode : string → result ledger_error A) fl f w o w' :
  read_slot l slot decode w = (Ok o, w') →
  slot_keeps slot decode fl f (w_fs w) →
  (∀ path, slot = Ok path → is_Some (w_fs w !! Directory_ l) ∧ is_Some (w_fs w !! dir path)) →
  ∃ x, o = Some x ∧ floor_le f (fl x).
Proof.
  intros [_ H]%read_slot_spec (path & data & Hp & (mode & Hf & Hm) & Hx) Hd.
  destruct (Hd path Hp) as [[n1 H1] [n2 H2]]. destruct o as [x|].
  - destruct H as (path' & data' & Hp' & (mode' & Hf' & _) & Hdec & _). simplify_eq. eauto.
  - destruct H as (path' & Hp' & Hn). simplify_eq. destruct Hn as [Hn|[Hn|Hn]]; congruence.
Qed.

(** ** Writing a record *)
Lemma anchor_path_inv uid origin path :
  anchorPath l uid origin = Ok path ↔ recordPath (Directory_ l) uid origin record_suffix = Ok path.
Proof. apply wrap_ok. Qed.
Lemma tombstone_path_inv uid origin path :
  tombstonePath l uid origin = Ok path ↔ recordPath (Directory_ l) uid origin forgottenSuffix = Ok path.
Proof. apply wrap_ok. Qed.

(** Both records of one application lie in one directory. *)
Lemma same_directory uid origin path path' :
  anchorPath l uid origin = Ok path → tombstonePath l uid origin = Ok path' → dir path = dir path'.
Proof.
  rewrite anchor_path_inv, tombstone_path_inv. intros H H'.
  destruct (record_parts _ _ _ _ _ (or_introl eq_refl) H) as (_ & -> & _).
  by destruct (record_parts _ _ _ _ _ (or_intror eq_refl) H') as (_ & -> & _).
Qed.

Lemma write_record_spec e w r w' :
  write_record e w = (r, w') →
  w_uid w' = w_uid w ∧
  match r with
  | Err _ => w_fs w ⊆ w_fs w'
  | Ok _ => ∃ path data fs1 existing,
      anchorPath l (en_UID e) (en_Origin e) = Ok path ∧ w_fs w ⊆ fs1 ∧
      encode_enrolment lc (carried_policy existing e) = Some data ∧
      w_fs w' = <[path := File (w_uid w) 420 (Enforcement.line data)]> fs1 ∧
      (is_Some (fs1 !! Directory_ l) ∧ is_Some (fs1 !! dir path)) ∧
      (∀ f, keeps (en_UID e) (en_Origin e) f (w_fs w) → floor_le f (floor_of e))
  end.
Proof.
  unfold write_record. rewrite bind_lift.
  destruct (anchorPath l (en_UID e) (en_Origin e)) as [path|err] eqn:Epath; [|by intros [= <- <-]].
  rewrite !bind_map_error. destruct (ensureDirectory (Directory_ l) (OwnerUID l) w) as [r1 w1] eqn:E1.
  apply ensure_directory_grows in E1 as (Hu1 & Hs1 & _ & Hd1).
  destruct r1 as [[]|err]; [|by intros [= <- <-]].
  rewrite bind_map_error. destruct (ensureDirectory (dir path) (OwnerUID l) w1) as [r2 w2] eqn:E2.
  apply ensure_directory_grows in E2 as (Hu2 & Hs2 & _ & Hd2).
  assert (w_fs w ⊆ w_fs w2) as Hs by by etrans.
  destruct r2 as [[]|err]; [|intros [= <- <-]; split; [congruence|done]].
  destruct (Hd1 eq_refl) as (u1 & m1 & Hd1'). destruct (Hd2 eq_refl) as (u2 & m2 & Hd2').
  assert (w_fs w2 !! Directory_ l = Some (Directory u1 m1)) as Hd1'' by by eapply lookup_weaken.
  intros H. step H; [|apply read_slot_spec in Hstep as ((Hf & Hu) & _); rewrite Hf, Hu; split; [congruence|done]].
  rename x into existing. pose proof Hstep as ((Hf3 & Hu3) & _)%read_slot_spec.
  rewrite bind_lift in H. destruct (match existing with Some _ => _ | None => _ end) as [[]|err] eqn:Eord;
    [|injection H as <- <-; rewrite Hf3, Hu3; split; [congruence|done]].
  step H; [|apply read_slot_spec in Hstep0 as ((Hf & Hu) & _); rewrite Hf, Hu, Hf3, Hu3; split; [congruence|done]].
  rename x into buried. pose proof Hstep0 as ((Hf4 & Hu4) & _)%read_slot_spec.
  rewrite bind_lift in H. destruct (match buried with Some _ => _ | None => _ end) as [[]|err] eqn:Ebur;
    [|injection H as <- <-; rewrite Hf4, Hu4, Hf3, Hu3; split; [congruence|done]].
  rewrite bind_lift in H. unfold from_option_error in H.
  destruct (encode_enrolment lc (carried_policy existing e)) as [data|] eqn:Eenc;
    [|injection H as <- <-; rewrite Hf4, Hu4, Hf3, Hu3; split; [congruence|done]].
  unfold map_error in H. destruct (writeAtomic _ _ _ _) as [r5 w5] eqn:E5.
  apply write_atomic_writes in E5 as (Hu5 & Hw & _). injection H as <- <-.
  split; [congruence|]. destruct r5 as [[]|err]; cbn [wrap]; [|by rewrite Hw, Hf4, Hf3].
  exists path, data, (w_fs w2), existing. rewrite Hw, Hf4, Hf3, Hu4, Hu3, Hu2, Hu1.
  split_and!; [done..|rewrite Hd1''; by eexists|rewrite Hd2'; by eexists|].
  intros f Hk. apply (keeps_mono _ _ _ _ _ Hs) in Hk as [Hk|Hk].
  - eapply slot_read in Hstep as (x & -> & Hx); [|exact Hk|].
    + rewrite wrap_ok in Eord. etrans; [exact Hx|]. by apply orders_after_iff.
    + intros p Hp. rewrite Epath in Hp. injection Hp as <-. rewrite Hd1'', Hd2'. split; by eexists.
  - eapply slot_read in Hstep0 as (x & -> & Hx).
    + rewrite wrap_ok in Ebur. etrans; [exact Hx|]. by apply orders_after_removal_iff.
    + unfold removal_keeps in Hk. by rewrite Hf3.
    + intros p Hp. rewrite (same_directory _ _ _ _ Epath Hp) in Hd2'. rewrite Hf3, Hd1'', Hd2'.
      split; by eexists.
Qed.

(** ** Admission reads files and keeps what is enrolled *)
Definition reads {E A} (m : SM authority E A) : Prop :=
  ∀ a r a', m a = (r, a') → only_read (files a) (files a').
Definition returns {E A} (m : SM authority E A) (P : A → Prop) : Prop :=
  ∀ a x a', m a = (Ok x, a') → P x.

Lemma reads_bind {E A B} (m : SM authority E A) (f : A → SM authority E B) :
  reads m → (∀ x, reads (f x)) → reads (m ≫= f).
Proof.
  intros Hm Hf a r a' [(x & a1 & H1 & H2)|(e & H1 & _)]%bind_M; [|by eapply Hm].
  etrans; [by eapply Hm|by eapply Hf].
Qed.
Lemma reads_lift {E A} (x : result E A) : reads (lift x).
Proof. by intros a r a' [= <- <-]. Qed.
Lemma reads_ret {E A} (x : A) : reads (mret (M := SM authority E) x).
Proof. by intros a r a' [= <- <-]. Qed.
Lemma reads_files {E A} (m : M E A) :
  (∀ w r w', m w = (r, w') → only_read w w') → reads (on_files m).
Proof. intros Hm a r a'. unfold on_files. destruct (m (files a)) as [x w] eqn:Em. intros [= <- <-]. by eapply Hm. Qed.
Lemma on_files_eq {E A} (m : M E A) a r a' :
  on_files m a = (r, a') → m (files a) = (r, files a') ∧ pending a' = pending a.
Proof. unfold on_files. destruct (m (files a)) as [y w]. by intros [= <- <-]. Qed.
Lemma reads_pending {E A} (f : confirmations → A * confirmations) : reads (on_pending (E := E) f).
Proof. intros a r a'. unfold on_pending. destruct (f (pending a)). by intros [= <- <-]. Qed.

Lemma returns_bind {E A B} (m : SM authority E A) (f : A → SM authority E B) P Q :
  returns m Q → (∀ x, Q x → returns (f x) P) → returns (m ≫= f) P.
Proof.
  intros Hm Hf a x a' [(y & a1 & H1 & H2)|(e & H1 & ?)]%bind_M; [|done].
  eapply Hf; [by eapply Hm|exact H2].
Qed.
Lemma returns_any {E A} (m : SM authority E A) : returns m (λ _, True).
Proof. done. Qed.
Lemma returns_ret {E A} (x : A) (P : A → Prop) : P x → returns (mret (M := SM authority E) x) P.
Proof. by intros HP a y a' [= <- _]. Qed.

Definition same_subject (e e' : Enrolment) : Prop :=
  en_Anchor e' = en_Anchor e ∧ en_Signature e' = en_Signature e ∧ en_Policy e' = en_Policy e ∧
  en_PolicySchema e' = en_PolicySchema e.

Hypothesis lookup_reads : ∀ p n w r w', reputationLookup p n w = (r, w') → only_read w w'.

Lemma signature_policy_reads s w r w' : SignaturePolicy s w = (r, w') → only_read w w'.
Proof.
  unfold SignaturePolicy. rewrite bind_try. destruct (setting s _ w) as [x w1] eqn:E.
  apply setting_spec in E as [Hr _]. by intros [= <- <-].
Qed.

Lemma admit_signature_spec e now w r w' :
  admitSignature l verifyEvidence e now w = (r, w') →
  only_read w w' ∧ ∀ e', r = Ok e' → same_subject e e'.
Proof.
  unfold admitSignature, fail. rewrite bind_map_error.
  destruct (SignaturePolicy (settings l) w) as [answer w1] eqn:E. apply signature_policy_reads in E.
  destruct answer as [[policy [err|]]|err]; cbn [fst snd]; [by intros [= <- <-]| |by intros [= <- <-]].
  destruct (en_Signature e) as [signed|] eqn:Es; rewrite bind_lift.
  - destruct (VerifyPublisher _ _ _ _) as [verdict|err]; intros [= <- <-]; (split; [done|]); [|done].
    intros e' [= <-]. by split_and!.
  - destruct (refuse_if _ _) as [[]|err]; intros [= <- <-]; (split; [done|]); [|done].
    intros e' [= <-]. by split_and!.
Qed.

Lemma host_policy_reads w r w' : HostPolicy lc url_parse l w = (r, w') → only_read w w'.
Proof.
  unfold HostPolicy, trust_path, fail. rewrite bind_lift. destruct (is_abs (Directory_ l)); [|by intros [= <- <-]].
  cbn [check_that mbind result_bind]. rewrite bind_try.
  destruct (validateExistingDirectory _ _ w) as [checked w1] eqn:E.
  apply validate_directory_spec in E as (Hr & _). destruct checked as [[]|[]]; try by intros [= <- <-].
  rewrite bind_map_error. destruct (readTrusted _ _ _ w1) as [d w2] eqn:E.
  apply read_trusted_spec in E as (Hr2 & _). destruct d as [[]|]; intros [= <- <-]; by etrans.
Qed.

Lemma admit_reputation_reads p e publisher confirmation at_ :
  reads (admitReputation sha256 time_parse range_order reputationLookup p e publisher confirmation at_).
Proof using lookup_reads.
  unfold admitReputation, fail. destruct (TrustPolicy.Reputation p) as [rep|]; [|apply reads_ret].
  destruct (negb _ || _); [apply reads_ret|]. destruct publisher as [publisher|]; [|apply reads_lift].
  apply reads_bind; [apply reads_pending|]. intros confirmed. apply reads_bind.
  { intros a r a'. unfold on_lookup. destruct (reputationLookup _ _ _) eqn:El. intros [= <- <-].
    by eapply lookup_reads. }
  intros answer. apply reads_bind.
  { destruct (_ && _); [|apply reads_ret]. apply reads_bind; [apply reads_pending|].
    intros [|]; apply reads_lift. }
  intros _. apply reads_bind; [apply reads_lift|]. intros _. apply reads_ret.
Qed.

Lemma admit_reputation_returns p e publisher confirmation at_ :
  returns (admitReputation sha256 time_parse range_order reputationLookup p e publisher confirmation at_)
    (same_subject e).
Proof.
  unfold admitReputation, fail.
  assert (same_subject e e) as Hself by done.
  destruct (TrustPolicy.Reputation p) as [rep|]; [|by apply returns_ret].
  destruct (negb _ || _); [by apply returns_ret|].
  destruct publisher as [publisher|]; [|by intros ? ? ? [=]].
  do 4 (eapply returns_bind; [apply returns_any|intros ? _]). by apply returns_ret.
Qed.

Lemma admit_trust_spec e confirmation at_ a r a' :
  admitTrust sha256 lc url_parse time_parse range_order l verifyApproval reputationLookup
    e confirmation at_ a = (r, a') →
  only_read (files a) (files a') ∧ ∀ e', r = Ok e' → same_subject e e'.
Proof using lookup_reads.
  intros H. split.
  - revert H. unfold admitTrust. apply reads_bind.
    { apply reads_files. intros w x w'. unfold map_error.
      destruct (HostPolicy _ _ _ w) as [y w1] eqn:E. intros [= <- <-]. by eapply host_policy_reads. }
    intros p. cbv zeta. destruct (Empty p); [apply reads_ret|].
    do 4 (apply reads_bind; [apply reads_lift|intros ?]). apply admit_reputation_reads.
  - intros e' ->. revert H. unfold admitTrust. apply (returns_bind _ _ _ (λ _, True)); [done|].
    intros p _. cbv zeta. destruct (Empty p); [by apply returns_ret|].
    do 4 (eapply returns_bind; [apply returns_any|intros ? _]).
    intros a1 y a2 Hx%admit_reputation_returns. by destruct Hx as (? & ? & ? & ?).
Qed.

(** What [record] writes is the enrolment it was given, admitted. *)
Lemma record_spec e confirmation at_ a r a' :
  record e confirmation at_ a = (r, a') →
  w_uid (files a') = w_uid (files a) ∧
  ((w_fs (files a) ⊆ w_fs (files a') ∧ r ≠ Ok ()) ∨
   ∃ admitted w, only_read (files a) w ∧ en_Anchor admitted = en_Anchor e ∧
     en_Signature admitted = en_Signature e ∧
     complete_enrolment sha256 quote admitted = Ok admitted ∧
     write_record admitted w = (r, files a')).
Proof using lookup_reads.
  unfold record. rewrite bind_lift. intros H.
  destruct (complete_enrolment sha256 quote (cleared e)) as [e1|err] eqn:E1; cbn [wrap] in H;
    [|injection H as <- <-; auto].
  pose proof (complete_ok _ _ _ _ E1) as (_ & Ee1 & Hm). cbn [cleared en_Policy en_Anchor] in Hm.
  assert (en_Anchor e1 = en_Anchor e ∧ en_Signature e1 = en_Signature e ∧ en_Policy e1 = en_Policy e)
    as (Ha1 & Hs1 & Hp1) by by rewrite Ee1.
  apply bind_M in H as [(e2 & a2 & H2 & H)|(err & H2 & ->)];
    apply on_files_eq in H2 as [H2 _]; apply admit_signature_spec in H2 as [Hr2 He2];
    [|destruct Hr2 as [Hf Hu]; rewrite Hf, Hu; auto].
  destruct (He2 e2 eq_refl) as (Ha2 & Hs2 & Hp2 & Hc2).
  apply bind_M in H as [(e3 & a3 & H3 & H)|(err & H3 & ->)];
    apply admit_trust_spec in H3 as [Hr3 He3].
  2: { destruct Hr2 as [Hf2 Hu2], Hr3 as [Hf3 Hu3]. rewrite Hf3, Hu3, Hf2, Hu2. auto. }
  destruct (He3 e3 eq_refl) as (Ha3 & Hs3 & Hp3 & Hc3).
  assert (only_read (files a) (files a3)) as Hr by by etrans.
  rewrite bind_lift in H. unfold validateEnrolment in H.
  destruct (complete_enrolment sha256 quote e3) as [e4|err] eqn:E4; cbn [mbind result_bind wrap] in H;
    [|injection H as <- <-; destruct Hr as [Hf Hu]; rewrite Hf, Hu; auto].
  apply on_files_eq in H as [Hw _].
  split. { pose proof (write_record_spec _ _ _ _ Hw) as [Hu _]. rewrite Hu. apply Hr. }
  right. exists e3, (files a3). split_and!; [done|congruence|congruence| |done].
  rewrite E4. f_equal. pose proof (complete_ok _ _ _ _ E4) as (_ & Ee4 & _).
  apply complete_schema in E4.
  assert (matchingPolicySchema sha256 (en_Policy e3) (en_PolicyRoot e3) (en_PolicySchema e3) =
    Ok (en_PolicySchema e3)) as Hm3.
  { rewrite Hp3, Ha3, Hc3, Hp2, Ha2, Hc2, Hp1, Ha1. exact Hm. }
  rewrite Hm3 in E4. apply (inj Ok) in E4. rewrite Ee4, <-E4. by destruct e3.
Qed.

(** ** Writing a removal *)
Lemma entomb_spec e w r w' :
  entomb e w = (r, w') →
  is_Some (w_fs w !! Directory_ l) →
  (∀ path, tombstonePath l (en_UID e) (en_Origin e) = Ok path → is_Some (w_fs w !! dir path)) →
  w_uid w' = w_uid w ∧
  match r with
  | Err _ => w_fs w ⊆ w_fs w'
  | Ok _ => ∃ path data fs1 t,
      tombstonePath l (en_UID e) (en_Origin e) = Ok path ∧ w_fs w ⊆ fs1 ∧
      encode_tombstone lc t = Some data ∧
      w_fs w' = <[path := File (w_uid w) 420 (Enforcement.line data)]> fs1 ∧
      floor_le (floor_of e) (buried_floor t) ∧
      (∀ f, removal_keeps (en_UID e) (en_Origin e) f (w_fs w) → floor_le f (buried_floor t))
  end.
Proof.
  unfold entomb. intros H Hd1 Hd2. step H;
    pose proof Hstep as ((Hf1 & Hu1) & _)%read_slot_spec; [|by rewrite Hf1, Hu1].
  rename x into standing. cbv zeta in H. set (t := match standing with Some _ => _ | None => _ end) in H.
  assert (floor_le (floor_of e) (buried_floor t) ∧
    ∀ f, removal_keeps (en_UID e) (en_Origin e) f (w_fs w) → floor_le f (buried_floor t)) as [Ht1 Ht2].
  { subst t. rewrite <-tombstone_floor. split.
    - destruct standing as [s|]; [apply raised_above|done].
    - intros f Hk. eapply slot_read in Hstep as (s & -> & Hs); [|exact Hk|by auto].
      etrans; [exact Hs|apply raised_above]. }
  rewrite bind_lift in H. destruct (tombstonePath l _ _) as [path|err];
    [|injection H as <- <-; by rewrite Hf1, Hu1].
  rewrite bind_map_error in H. destruct (ensureDirectory (dir path) (OwnerUID l) _) as [r2 w2] eqn:E2.
  apply ensure_directory_grows in E2 as (Hu2 & Hs2 & _ & _). rewrite Hf1 in Hs2.
  destruct r2 as [[]|err]; [|injection H as <- <-; split; [congruence|done]].
  rewrite bind_lift in H. unfold from_option_error in H.
  destruct (encode_tombstone lc t) as [data|] eqn:Eenc; [|injection H as <- <-; split; [congruence|done]].
  unfold map_error in H. destruct (writeAtomic _ _ _ _) as [r5 w5] eqn:E5.
  apply write_atomic_writes in E5 as (Hu5 & Hw & _). injection H as <- <-.
  split; [congruence|]. destruct r5 as [[]|err]; cbn [wrap]; [|by rewrite Hw].
  exists path, data, (w_fs w2), t. rewrite Hw, Hu2, Hu1. done.
Qed.

Lemma remove_gone_spec path w r w' :
  remove_gone path w = (r, w') →
  w_uid w' = w_uid w ∧ (w_fs w' = w_fs w ∨ w_fs w' = delete path (w_fs w)) ∧
  (r = Ok () → w_fs w' !! path = None).
Proof.
  unfold remove_gone, fail, lift. rewrite bind_try. destruct (remove path w) as [x w1] eqn:E.
  apply remove_spec in E as [Hu Hf]. destruct x as [[]|e].
  - intros [= <- <-]. rewrite Hf. split_and!; [done|by right|]. intros _. apply lookup_delete_eq.
  - destruct Hf as [Hf Hm].
    destruct e; intros [= <- <-]; rewrite Hf; (split_and!; [done|by left|]); try done. auto.
Qed.

(** ** What a write remembers *)
Hypothesis counts : counts_read_back lc.

Lemma written_record uid origin path e data fs :
  anchorPath l uid origin = Ok path → encode_enrolment lc e = Some data →
  record_keeps uid origin (floor_of e)
    (<[path := File (OwnerUID l) 420 (Enforcement.line data)]> fs).
Proof using counts.
  intros Hp He. exists path, (Enforcement.line data). split; [done|]. split.
  - exists 420%N. by rewrite lookup_insert_eq.
  - intros x. unfold read_enrolment, from_option_error. rewrite bind_unit_ok.
    destruct (decode_enrolment lc _) as [e0|] eqn:Ed; [|by intros [_ ?]].
    cbn [mbind result_bind]. rewrite bind_unit_ok, wrap_ok. intros (_ & _ & Hc).
    apply complete_ok in Hc as (_ & -> & _).
    change (floor_of (with_schema e0 _)) with (floor_of e0). by rewrite (enrolment_counts lc counts _ _ _ He Ed).
Qed.

Lemma written_removal uid origin path t data fs :
  tombstonePath l uid origin = Ok path → encode_tombstone lc t = Some data →
  removal_keeps uid origin (buried_floor t)
    (<[path := File (OwnerUID l) 420 (Enforcement.line data)]> fs).
Proof using counts.
  intros Hp He. exists path, (Enforcement.line data). split; [done|]. split.
  - exists 420%N. by rewrite lookup_insert_eq.
  - intros x. unfold read_tombstone, from_option_error.
    destruct (decode_tombstone lc _) as [t0|] eqn:Ed; [|done].
    cbn [mbind result_bind]. rewrite bind_unit_ok, wrap_ok. intros (_ & Hc).
    unfold complete_tombstone in Hc. rewrite !bind_unit_ok in Hc.
    destruct Hc as (_ & _ & (schema & _ & [= <-])%bind_ok).
    rewrite <-(tombstone_counts lc counts _ _ _ He Ed). done.
Qed.

Lemma carried_floor existing e : floor_of (carried_policy existing e) = floor_of e.
Proof. unfold carried_policy. destruct existing as [x|]; [|done]. by destruct (is_nil _ && _). Qed.

(** ** What leaves a floor alone *)
Lemma record_keeps_other uid origin f p fs fs' :
  (∀ path, anchorPath l uid origin = Ok path → path ≠ p) → (∀ q, q ≠ p → fs' !! q = fs !! q) →
  record_keeps uid origin f fs → record_keeps uid origin f fs'.
Proof. intros Hp Hq. apply slot_keeps_same. intros path Hpath _. by apply Hq, Hp. Qed.

Lemma removal_keeps_other uid origin f p fs fs' :
  (∀ path, tombstonePath l uid origin = Ok path → path ≠ p) → (∀ q, q ≠ p → fs' !! q = fs !! q) →
  removal_keeps uid origin f fs → removal_keeps uid origin f fs'.
Proof. intros Hp Hq. apply slot_keeps_same. intros path Hpath _. by apply Hq, Hp. Qed.

Lemma apart uid uid' origin origin' suffix suffix' p p' :
  suffix_ok suffix → suffix_ok suffix' →
  recordPath (Directory_ l) uid origin suffix = Ok p →
  recordPath (Directory_ l) uid' origin' suffix' = Ok p' →
  (uid, origin, suffix) ≠ (uid', origin', suffix') → p ≠ p'.
Proof.
  intros Hs Hs' Hp Hp' Hne E.
  destruct (record_paths_apart _ _ _ _ _ _ _ _ _ Hs Hs' Hp Hp') as (H & _).
  destruct (H E) as (-> & -> & ->). done.
Qed.

Lemma record_suffix_ok : suffix_ok record_suffix.
Proof. by left. Qed.
Lemma forgotten_suffix_ok : suffix_ok forgottenSuffix.
Proof. by right. Qed.
Hint Resolve record_suffix_ok forgotten_suffix_ok : core.

Lemma insert_elsewhere (p : string) (n : node) (fs : gmap string node) : ∀ q, q ≠ p → <[p := n]> fs !! q = fs !! q.
Proof. intros q Hq. by rewrite lookup_insert_ne. Qed.
Lemma delete_elsewhere (p : string) (fs : gmap string node) : ∀ q, q ≠ p → delete p fs !! q = fs !! q.
Proof. intros q Hq. by rewrite lookup_delete_ne. Qed.

(** A change of one record or removal leaves the others. *)
Lemma record_keeps_write uid uid' origin origin' suffix f p fs fs' :
  suffix_ok suffix → recordPath (Directory_ l) uid' origin' suffix = Ok p →
  (uid, origin, record_suffix) ≠ (uid', origin', suffix) → (∀ q, q ≠ p → fs' !! q = fs !! q) →
  record_keeps uid origin f fs → record_keeps uid origin f fs'.
Proof.
  intros Hs Hp Hne. apply record_keeps_other. intros path Hpath%anchor_path_inv.
  exact (apart _ _ _ _ _ _ _ _ record_suffix_ok Hs Hpath Hp Hne).
Qed.
Lemma removal_keeps_write uid uid' origin origin' suffix f p fs fs' :
  suffix_ok suffix → recordPath (Directory_ l) uid' origin' suffix = Ok p →
  (uid, origin, forgottenSuffix) ≠ (uid', origin', suffix) → (∀ q, q ≠ p → fs' !! q = fs !! q) →
  removal_keeps uid origin f fs → removal_keeps uid origin f fs'.
Proof.
  intros Hs Hp Hne. apply removal_keeps_other. intros path Hpath%tombstone_path_inv.
  exact (apart _ _ _ _ _ _ _ _ forgotten_suffix_ok Hs Hpath Hp Hne).
Qed.

Lemma record_keeps_floor e confirmation at_ a r a' uid origin f :
  w_uid (files a) = OwnerUID l → record e confirmation at_ a = (r, a') →
  keeps uid origin f (w_fs (files a)) → keeps uid origin f (w_fs (files a')).
Proof using counts lookup_reads.
  intros Ho [_ [[Hs _]|(e' & w & [Hf Hu] & Ha & Hsig & _ & Hw)]]%record_spec Hk.
  { by eapply keeps_mono. }
  apply write_record_spec in Hw as [_ Hw]. rewrite Hf in Hw.
  destruct r as [[]|err]; [|by eapply keeps_mono].
  destruct Hw as (path & data & fs1 & existing & Hp & Hs & Henc & Hfs & _ & Hfloor).
  rewrite Hu, Ho in Hfs.
  destruct (decide ((uid, origin) = (en_UID e', en_Origin e'))) as [[= -> ->]|Hne].
  - left. rewrite Hfs. eapply slot_keeps_weaken; [by apply Hfloor|].
    rewrite <-(carried_floor existing e'). by apply written_record.
  - apply (keeps_mono _ _ _ _ _ Hs) in Hk. rewrite Hfs. apply anchor_path_inv in Hp.
    destruct Hk as [Hk|Hk]; [left|right].
    + eapply record_keeps_write; [| exact Hp | | apply insert_elsewhere | exact Hk]; [auto|].
      intros [= -> ->]. done.
    + eapply removal_keeps_write; [| exact Hp | | apply insert_elsewhere | exact Hk]; [auto|].
      by intros [= -> ->].
Qed.

(** Removing the record of an application whose floor is not only there. *)
Lemma removed_keeps uid0 origin0 path uid origin f fs fs' :
  recordPath (Directory_ l) uid0 origin0 record_suffix = Ok path →
  fs' = fs ∨ fs' = delete path fs →
  keeps uid origin f fs → ((uid, origin) = (uid0, origin0) → removal_keeps uid origin f fs) →
  keeps uid origin f fs'.
Proof.
  intros Hp [-> | ->] Hk Hsame; [done|].
  destruct (decide ((uid, origin) = (uid0, origin0))) as [E|Hne]; [right|destruct Hk as [Hk|Hk]; [left|right]].
  - eapply removal_keeps_write; [|exact Hp| |apply delete_elsewhere|by apply Hsame]; [auto|by intros [=]].
  - eapply record_keeps_write; [|exact Hp| |apply delete_elsewhere|exact Hk]; [auto|].
    intros [= -> ->]. done.
  - eapply removal_keeps_write; [|exact Hp| |apply delete_elsewhere|exact Hk]; [auto|by intros [=]].
Qed.

Lemma entombed_keeps uid0 origin0 path t data uid origin f fs :
  tombstonePath l uid0 origin0 = Ok path → encode_tombstone lc t = Some data →
  ((uid, origin) = (uid0, origin0) → floor_le f (buried_floor t)) →
  keeps uid origin f fs →
  let fs' := <[path := File (OwnerUID l) 420 (Enforcement.line data)]> fs in
  keeps uid origin f fs' ∧ ((uid, origin) = (uid0, origin0) → removal_keeps uid origin f fs').
Proof using counts.
  intros Hp Henc Hf Hk fs'.
  assert ((uid, origin) = (uid0, origin0) → removal_keeps uid origin f fs') as Hsame.
  { intros E. eapply slot_keeps_weaken; [by apply Hf|]. injection E as -> ->. by apply written_removal. }
  split; [|done].
  destruct (decide ((uid, origin) = (uid0, origin0))) as [E|Hne]; [right; by apply Hsame|].
  apply tombstone_path_inv in Hp. destruct Hk as [Hk|Hk]; [left|right].
  - eapply record_keeps_write; [|exact Hp| |apply insert_elsewhere|exact Hk]; [auto|by intros [=]].
  - eapply removal_keeps_write; [|exact Hp| |apply insert_elsewhere|exact Hk]; [auto|].
    intros [= -> ->]. done.
Qed.

Lemma recorded_subject uid origin data e :
  read_enrolment uid origin data = Ok e → en_UID e = uid ∧ en_Origin e = origin.
Proof.
  unfold read_enrolment, from_option_error. rewrite bind_unit_ok.
  destruct (decode_enrolment lc data) as [e0|]; [|by intros [_ ?]].
  cbn [mbind result_bind]. rewrite bind_unit_ok, wrap_ok. intros (_ & Hsub & (_ & -> & _)%complete_ok).
  revert Hsub. bools. done.
Qed.

Lemma recorded_sound uid origin data e :
  read_enrolment uid origin data = Ok e → sound_enrolment sha256 quote e.
Proof.
  unfold read_enrolment, from_option_error. rewrite bind_unit_ok. intros [_ Hd].
  destruct (decode_enrolment lc data) as [e0|]; [|done]. cbn [mbind result_bind] in Hd.
  rewrite bind_unit_ok, wrap_ok in Hd. destruct Hd as [_ Hc].
  by apply complete_idemp, complete_ok in Hc as [? _].
Qed.

Lemma entomb_keeps e w r w' uid origin f :
  w_uid w = OwnerUID l → entomb e w = (r, w') →
  is_Some (w_fs w !! Directory_ l) →
  (∀ path, tombstonePath l (en_UID e) (en_Origin e) = Ok path → is_Some (w_fs w !! dir path)) →
  keeps uid origin f (w_fs w) →
  (record_keeps (en_UID e) (en_Origin e) f (w_fs w) → floor_le f (floor_of e)) →
  keeps uid origin f (w_fs w') ∧
  (r = Ok () → (uid, origin) = (en_UID e, en_Origin e) → removal_keeps uid origin f (w_fs w')).
Proof using counts.
  intros Ho H Hd1 Hd2 Hk He. destruct (entomb_spec _ _ _ _ H Hd1 Hd2) as [_ Hr].
  destruct r as [[]|err]; [|split; [by eapply keeps_mono|done]].
  destruct Hr as (path & data & fs1 & t & Hp & Hs & Henc & -> & Het & Hft). rewrite Ho.
  destruct (entombed_keeps _ _ _ _ _ uid origin f fs1 Hp Henc) as [H1 H2]; [|by eapply keeps_mono|].
  - intros [= -> ->]. destruct Hk as [Hk|Hk]; [|by apply Hft]. etrans; [by apply He|done].
  - split; [done|]. by intros _.
Qed.

Lemma forget_keeps_floor uid0 origin0 w r w' uid origin f :
  w_uid w = OwnerUID l → Forget uid0 origin0 w = (r, w') →
  keeps uid origin f (w_fs w) → keeps uid origin f (w_fs w').
Proof using counts.
  intros Ho. unfold Forget. rewrite bind_lift.
  destruct (anchorPath l uid0 origin0) as [path|err] eqn:Epath; [|by intros [= <- <-]].
  intros H Hk. step H; pose proof Hstep as [[Hf Hu] _]%trusted_all_spec; [|by rewrite Hf].
  destruct x; cbn [negb] in H; [|injection H as <- <-; by rewrite Hf].
  assert (is_Some (w_fs w !! Directory_ l) ∧ is_Some (w_fs w !! dir path)) as [Hd1 Hd2].
  { split; eapply trusted_all_present; try exact Hstep; [left|right; left]. }
  rewrite <-Hf in Hk, Hd1, Hd2. rewrite <-Hu in Ho. clear Hstep Hf Hu w. rename x0 into w.
  step H; pose proof Hstep as [[Hf Hu] Hread]%read_slot_spec; [|by rewrite Hf].
  rename x into recorded, x0 into w1.
  assert (∀ g, record_keeps uid0 origin0 g (w_fs w) → ∃ x, recorded = Some x ∧ floor_le g (floor_of x))
    as Hrec.
  { intros g Hg. eapply slot_read; [exact Hstep|exact Hg|]. intros p. rewrite Epath. by intros [= <-]. }
  rewrite <-Hf in Hk, Hd1, Hd2, Hrec. rewrite <-Hu in Ho.
  pose proof Epath as Hpath%anchor_path_inv.
  assert (keeps uid origin f (w_fs w') ∨ ∃ w2 r2, remove_gone path w2 = (r2, w') ∧
    keeps uid origin f (w_fs w2) ∧ ((uid, origin) = (uid0, origin0) → removal_keeps uid origin f (w_fs w2)))
    as [?|(w2 & r2 & Hr2%remove_gone_spec & Hk2 & Hsame)]; [|done|].
  - destruct recorded as [e|].
    + destruct Hread as (p' & data & _ & _ & [Huid Horigin]%recorded_subject & _).
      assert (∀ r1 w2, entomb e w1 = (r1, w2) → keeps uid origin f (w_fs w2) ∧
        (r1 = Ok () → (uid, origin) = (uid0, origin0) → removal_keeps uid origin f (w_fs w2))) as Hent.
      { intros r1 w2 H1. rewrite <-Huid, <-Horigin. eapply entomb_keeps; [done|exact H1|done| |done|].
        - intros tp. rewrite Huid, Horigin. intros Htp. by rewrite <-(same_directory _ _ _ _ Epath Htp).
        - rewrite Huid, Horigin. intros (x & [= ->] & ?)%Hrec. done. }
      step H; destruct (Hent _ _ Hstep0) as [H1 H2]; [|by left]. right. destruct x. exists x0, r. split; [done|]. split; [done|by apply H2].
    + right. exists w1, r. split; [done|]. split; [done|]. intros [= -> ->].
      destruct Hk as [Hk|]; [|done]. by destruct (Hrec _ Hk) as (x & ? & _).
  - destruct Hr2 as (_ & Hfs & _). by eapply removed_keeps.
Qed.

(** Clearing a removal touches no other application. *)
Lemma clear_keeps_floor uid0 origin0 w r w' uid origin f :
  (uid, origin) ≠ (uid0, origin0) → ClearForgotten l uid0 origin0 w = (r, w') →
  w_uid w' = w_uid w ∧ (keeps uid origin f (w_fs w) → keeps uid origin f (w_fs w')).
Proof.
  intros Hne. unfold ClearForgotten. rewrite bind_lift.
  destruct (tombstonePath l uid0 origin0) as [path|err] eqn:Epath; [|by intros [= <- <-]].
  apply tombstone_path_inv in Epath. intros H.
  step H; pose proof Hstep as [[Hf Hu] _]%trusted_all_spec; [|by rewrite Hf, Hu].
  destruct x; cbn [negb] in H; [|injection H as <- <-; by rewrite Hf, Hu].
  apply remove_gone_spec in H as (Hu' & Hfs & _). rewrite Hf in Hfs. split; [congruence|].
  destruct Hfs as [-> | ->]; [done|]. intros [Hk|Hk]; [left|right].
  - eapply record_keeps_write; [|exact Epath| |apply delete_elsewhere|exact Hk]; [auto|by intros [=]].
  - eapply removal_keeps_write; [|exact Epath| |apply delete_elsewhere|exact Hk]; [auto|].
    intros [= -> ->]. done.
Qed.

(** ** The settings of the authority *)

(** Nothing but what is at [p] is lost. *)
Definition touches (p : string) (w w' : world) : Prop :=
  w_uid w' = w_uid w ∧ ∃ fs, w_fs w ⊆ fs ∧ ∀ q, q ≠ p → w_fs w' !! q = fs !! q.

Lemma touches_grown p w w' : w_uid w' = w_uid w → w_fs w ⊆ w_fs w' → touches p w w'.
Proof. intros Hu Hf. split; [done|]. by exists (w_fs w'). Qed.

Lemma setting_file_parts name uid origin suffix path :
  plain name → suffix_ok suffix → recordPath (Directory_ l) uid origin suffix = Ok path →
  path ≠ path_join [Directory_ l; name].
Proof.
  intros Hn Hs Hp E. destruct (record_parts _ _ _ _ _ Hs Hp) as (P & _).
  apply record_path_inv in Hp as (Ha & _).
  destruct (join_plain (Directory_ l) [name]) as (_ & _ & P'); [done|by rewrite Forall_cons|done|].
  rewrite E, P' in P. by apply app_inv_head in P.
Qed.

Lemma touches_keeps name w w' uid origin f :
  plain name → touches (path_join [Directory_ l; name]) w w' →
  keeps uid origin f (w_fs w) → keeps uid origin f (w_fs w').
Proof.
  intros Hn (_ & fs & Hs & Hq) Hk. apply (keeps_mono _ _ _ _ _ Hs) in Hk.
  destruct Hk as [Hk|Hk]; [left|right].
  - eapply record_keeps_other; [|exact Hq|exact Hk]. intros path Hp%anchor_path_inv.
    exact (setting_file_parts _ _ _ _ _ Hn record_suffix_ok Hp).
  - eapply removal_keeps_other; [|exact Hq|exact Hk]. intros path Hp%tombstone_path_inv.
    exact (setting_file_parts _ _ _ _ _ Hn forgotten_suffix_ok Hp).
Qed.

(** How both stores of settings replace a file. *)
Lemma replace_touches {E A} (h k : file_error → E) (c : result E A) (data : A → string) path w r w' :
  (map_error h (ensureDirectory (Directory_ l) (OwnerUID l)) ;;;
   d ← lift c; map_error k (writeAtomic path (data d) 420)) w = (r, w') →
  touches path w w'.
Proof.
  rewrite bind_map_error. destruct (ensureDirectory _ _ w) as [r1 w1] eqn:E1.
  apply ensure_directory_grows in E1 as (Hu1 & Hs1 & _). destruct r1 as [[]|e];
    [|intros [= <- <-]; by apply touches_grown].
  rewrite bind_lift. destruct c as [d|e]; [|intros [= <- <-]; by apply touches_grown].
  unfold map_error. destruct (writeAtomic _ _ _ w1) as [r2 w2] eqn:E2. intros [= <- <-].
  apply write_atomic_writes in E2 as (Hu2 & Hf & _). split; [congruence|]. exists (w_fs w1).
  split; [done|]. intros q Hq. destruct r2; rewrite Hf; [by rewrite lookup_insert_ne|done].
Qed.

Lemma set_trust_touches policy w r w' :
  SetTrust lc url_parse l policy w = (r, w') →
  touches (path_join [Directory_ l; trustPolicyFileName]) w w'.
Proof.
  unfold SetTrust, trust_path. rewrite !bind_lift.
  destruct (wrap _ _) as [_u|e]; [|intros [= <- <-]; by apply touches_grown].
  destruct (is_abs _); [|intros [= <- <-]; by apply touches_grown].
  exact (replace_touches _ _ _ _ _ _ _ _).
Qed.

Lemma clear_trust_touches w r w' :
  ClearTrust l w = (r, w') → touches (path_join [Directory_ l; trustPolicyFileName]) w w'.
Proof.
  unfold ClearTrust, trust_path, fail. rewrite bind_lift.
  destruct (is_abs _); [|intros [= <- <-]; by apply touches_grown]. cbn [check_that mbind result_bind].
  rewrite bind_try. destruct (remove _ w) as [x w1] eqn:E. apply remove_spec in E as [Hu Hf].
  assert (touches (path_join [Directory_ l; trustPolicyFileName]) w w1) as Ht.
  { split; [done|]. exists (w_fs w). split; [done|]. intros q Hq.
    destruct x as [_u|e]; [rewrite Hf; by rewrite lookup_delete_ne|by destruct Hf as [-> _]]. }
  destruct x as [_u|[]]; by intros [= <- <-].
Qed.

Lemma write_touches name value w r w' :
  Enforcement.write (settings l) name value w = (r, w') → touches (path_join [Directory_ l; name]) w w'.
Proof.
  unfold Enforcement.write, setting_path. rewrite bind_lift. cbn [settings Enforcement.Directory_ Enforcement.OwnerUID].
  destruct (is_abs _); [|intros [= <- <-]; by apply touches_grown]. cbn [check_that mbind result_bind].
  intros H. apply (replace_touches DirectoryError WriteError (Ok tt) (λ _, Enforcement.line value) _ w r w').
  rewrite <-H. unfold mbind, M_bind, lift. by destruct (map_error _ _ w) as [[]].
Qed.

(** ** Every call *)
Definition steady {E A} (m : M E A) : Prop := ∀ w r w', m w = (r, w') → w_uid w' = w_uid w.

Lemma steady_bind {E A B} (m : M E A) (f : A → M E B) :
  steady m → (∀ x, steady (f x)) → steady (m ≫= f).
Proof.
  intros Hm Hf w r w' [(x & w1 & H1%Hm & H2%Hf)|(e & H1%Hm & _)]%bind_M; congruence.
Qed.
Lemma steady_lift {E A} (x : result E A) : steady (lift x).
Proof. by intros w r w' [= <- <-]. Qed.
Lemma steady_ret {E A} (x : A) : steady (mret (M := M E) x).
Proof. by intros w r w' [= <- <-]. Qed.
Lemma steady_map_error {E F A} (h : E → F) (m : M E A) : steady m → steady (map_error h m).
Proof. intros Hm w r w'. unfold map_error. destruct (m w) eqn:Em. intros [= <- <-]. by eapply Hm. Qed.
Lemma steady_slot {A} slot (decode : string → result ledger_error A) : steady (read_slot l slot decode).
Proof. by intros w r w' [[_ ?] _]%read_slot_spec. Qed.
Lemma steady_directories path : steady (trustedDirectories l path).
Proof. by intros w r w' [[_ ?] _]%trusted_all_spec. Qed.
Lemma steady_ensure path owner : steady (ensureDirectory path owner).
Proof. by intros w r w' [? _]%ensure_directory_grows. Qed.
Lemma steady_write path data mode : steady (writeAtomic path data mode).
Proof. by intros w r w' [? _]%write_atomic_writes. Qed.
Lemma steady_trusted path owner limit : steady (readTrusted path owner limit).
Proof. by intros w r w' [[_ ?] _]%read_trusted_spec. Qed.
Lemma steady_remove_gone path : steady (remove_gone path).
Proof. by intros w r w' [? _]%remove_gone_spec. Qed.
Hint Resolve steady_lift steady_ret steady_map_error steady_slot steady_directories steady_ensure
  steady_write steady_trusted steady_remove_gone : core.

Lemma forget_steady uid origin : steady (Forget uid origin).
Proof.
  unfold Forget, entomb.
  repeat (first [apply steady_bind; [auto|intros ?]|case_match|progress cbn zeta]; auto).
Qed.

Notation exec := (exec sha256 quote lc url_parse time_parse range_order l verifyEvidence
  verifyApproval reputationLookup).
Notation exec_all := (exec_all sha256 quote lc url_parse time_parse range_order l verifyEvidence
  verifyApproval reputationLookup).

Lemma touches_call name {E A} (m : M E A) a uid origin f :
  plain name → (∀ w r w', m w = (r, w') → touches (path_join [Directory_ l; name]) w w') →
  let a' := settle (on_files m) a in
  w_uid (files a') = w_uid (files a) ∧
  (keeps uid origin f (w_fs (files a)) → keeps uid origin f (w_fs (files a'))).
Proof.
  intros Hn Hm. unfold settle, on_files. destruct (m (files a)) as [r w] eqn:Em. apply Hm in Em.
  cbn. split; [apply Em|by eapply touches_keeps].
Qed.

(** No call but the one that clears the application's removal lowers its floor. *)
Lemma exec_keeps c a uid origin f :
  w_uid (files a) = OwnerUID l → c ≠ CallClearRemoval uid origin →
  let a' := exec c a in
  w_uid (files a') = OwnerUID l ∧
  (keeps uid origin f (w_fs (files a)) → keeps uid origin f (w_fs (files a'))).
Proof using counts lookup_reads.
  intros Ho Hc. destruct c as [e confirmation at_|uid' origin'|uid' origin'|policy| |level|policy];
    cbn [Ledger.exec]; cbv zeta; rewrite <-Ho at 1.
  - unfold settle. destruct (record e confirmation at_ a) as [r a'] eqn:E. cbn [snd].
    split; [by apply record_spec in E as [? _]|by eapply record_keeps_floor].
  - unfold settle, on_files. destruct (Forget uid' origin' (files a)) as [r w] eqn:E. cbn [snd files].
    split; [by eapply forget_steady|by eapply forget_keeps_floor].
  - unfold settle, on_files. destruct (ClearForgotten l uid' origin' (files a)) as [r w] eqn:E.
    cbn [snd files]. eapply clear_keeps_floor; [|exact E]. intros [= -> ->]. done.
  - apply (touches_call trustPolicyFileName); [by vm_compute|apply set_trust_touches].
  - apply (touches_call trustPolicyFileName); [by vm_compute|apply clear_trust_touches].
  - apply (touches_call enforcementFileName); [by vm_compute|]. unfold Set_. intros w r w'.
    rewrite bind_lift. destruct (check_that _ _); [apply write_touches|].
    intros [= <- <-]. by apply touches_grown.
  - apply (touches_call signaturePolicyFileName); [by vm_compute|]. unfold SetSignaturePolicy. intros w r w'.
    rewrite bind_lift. destruct (check_that _ _); [apply write_touches|].
    intros [= <- <-]. by apply touches_grown.
Qed.

Lemma exec_all_keeps calls a uid origin f :
  w_uid (files a) = OwnerUID l → CallClearRemoval uid origin ∉ calls →
  keeps uid origin f (w_fs (files a)) →
  w_uid (files (exec_all calls a)) = OwnerUID l ∧
  keeps uid origin f (w_fs (files (exec_all calls a))).
Proof using counts lookup_reads.
  revert a. induction calls as [|c calls IH]; intros a Ho Hc Hk; [done|].
  apply not_elem_of_cons in Hc as [Hne Hc].
  destruct (exec_keeps c a uid origin f) as [Ho' Hk']; [done|congruence|]. by apply IH; [|done|apply Hk'].
Qed.

(** What a successful [record] leaves, and what it shows of what was there. *)
Lemma recorded_floor e confirmation at_ a a' :
  w_uid (files a) = OwnerUID l → record e confirmation at_ a = (Ok tt, a') →
  keeps (en_UID e) (en_Origin e) (floor_of e) (w_fs (files a')) ∧
  w_uid (files a') = OwnerUID l ∧
  ∀ f, keeps (en_UID e) (en_Origin e) f (w_fs (files a)) → floor_le f (floor_of e).
Proof using counts lookup_reads.
  intros Ho [Hu [[_ ?]|(e' & w & [Hf Huw] & Ha & Hsig & _ & Hw)]]%record_spec; [done|].
  apply write_record_spec in Hw as (_ & path & data & fs1 & existing & Hp & _ & Henc & Hfs & _ & Hfloor).
  assert (en_UID e' = en_UID e ∧ en_Origin e' = en_Origin e ∧ floor_of e' = floor_of e) as (Hu' & Ho' & Hf').
  { unfold floor_of, en_UID, en_Origin, en_Generation. by rewrite Ha, ?Hsig. }
  rewrite Hu', Ho', Hf', Hf in *. split_and!; [|congruence|done].
  left. rewrite Hfs, Huw, Ho, <-Hf', <-(carried_floor existing e'). by apply written_record.
Qed.

Lemma floor_monotone e confirmation at_ a a1 calls e' confirmation' at' a2 :
  w_uid (files a) = OwnerUID l →
  record e confirmation at_ a = (Ok tt, a1) →
  CallClearRemoval (en_UID e) (en_Origin e) ∉ calls →
  en_UID e' = en_UID e → en_Origin e' = en_Origin e →
  record e' confirmation' at' (exec_all calls a1) = (Ok tt, a2) →
  floor_le (floor_of e) (floor_of e').
Proof using counts lookup_reads.
  intros Ho (Hk & Ho1 & _)%recorded_floor Hc Hu Hor H2; [|done].
  destruct (exec_all_keeps calls a1 _ _ _ Ho1 Hc Hk) as [Ho2 Hk2].
  apply recorded_floor in H2 as (_ & _ & Hf); [|done]. apply Hf. by rewrite Hu, Hor.
Qed.

(** The ledger never goes back.  Once an enrolment was recorded, and whatever
    is asked of the authority afterwards - recording, removing, changing its
    settings, each interrupted at any system call - short of clearing what a
    removal of that application left, only an enrolment is recorded for it whose
    generation is no lower, which is signed if the first one was, and whose
    publisher's generation is no lower. *)
Theorem floor_never_lowered e confirmation at_ a a1 calls e' confirmation' at' a2 :
  w_uid (files a) = OwnerUID l →
  record e confirmation at_ a = (Ok tt, a1) →
  CallClearRemoval (en_UID e) (en_Origin e) ∉ calls →
  en_UID e' = en_UID e → en_Origin e' = en_Origin e →
  record e' confirmation' at' (exec_all calls a1) = (Ok tt, a2) →
  floor_le (floor_of e) (floor_of e').
Proof using counts lookup_reads. apply floor_monotone. Qed.
End Floor.

(** ** An example: a codec that knows two documents of each kind *)
#[export] Instance floor_eq_dec : EqDecision floor.
Proof. solve_decision. Defined.

Definition known_floor (f : floor) : option string :=
  if decide (f = mkFloor 1 false 0) then Some "1"
  else if decide (f = mkFloor 2 false 0) then Some "2" else None.
Definition known_generation (document : string) : option N :=
  if bool_decide (document = Enforcement.line "1") then Some 1%N
  else if bool_decide (document = Enforcement.line "2") then Some 2%N else None.

Definition codec_of_two : ledger_codec := {|
  lc_tokens := λ _, Some JNull;
  decode_enrolment := λ d, (λ g, enrolment_example g None) <$> known_generation d;
  encode_enrolment := λ e, known_floor (floor_of e);
  decode_tombstone := λ d, (λ g, tombstone_of (enrolment_example g None)) <$> known_generation d;
  encode_tombstone := λ t, known_floor (buried_floor t);
  decode_trust := λ _, None;
  encode_trust := λ _, None
|}.

Lemma codec_of_two_counts : counts_read_back codec_of_two.
Proof.
  assert (∀ f d, known_floor f = Some d →
    known_generation (Enforcement.line d) = Some (fl_Generation f) ∧ f = mkFloor (fl_Generation f) false 0)
    as Hk.
  { intros f d. unfold known_floor. destruct (decide _) as [->|]; [by intros [= <-]|].
    destruct (decide _) as [->|]; [by intros [= <-]|done]. }
  split; cbn; intros x d x' [Hg Hf]%Hk; rewrite Hg; intros [= <-]; by rewrite Hf.
Qed.

Definition verify_nothing (_ : SignatureEvidence) (_ : Z) : result string VerificationResult :=
  Err "unsigned".
Definition sha_example (_ : string) : string := concat_strings (repeat "r" 32).
Definition ledger_example : AnchorLedger := mkLedger "/var/lib/cpak" 0.
Definition silent_lookup (_ : string) (_ : Z) (w : world) : Result * world :=
  (UnavailableResult "" "" "provider-configuration-invalid", w).
Definition record_example (e : Enrolment) : SM authority ledger_error () :=
  record sha_example (λ s, s) codec_of_two (λ _, None) (λ _, 0%Z) map_to_list ledger_example
    verify_nothing None silent_lookup e "" (mkMoment 0 0 None).
Definition calls_example : list ledger_call :=
  [CallForget 1000 "github.com/acme/tool"; CallSetLevel "refuse"].
Definition run_example : authority → authority :=
  exec_all sha_example (λ s, s) codec_of_two (λ _, None) (λ _, 0%Z) map_to_list ledger_example
    verify_nothing None silent_lookup calls_example.
Definition empty_host : authority := mkState (mkWorld ∅ 0 []) ∅.

Lemma floor_never_lowered_witness :
  floor_le (floor_of (enrolment_example 1 None)) (floor_of (enrolment_example 2 None)).
Proof.
  destruct (record_example (enrolment_example 1 None) empty_host) as [[[]|] a1] eqn:E1;
    [|exfalso; vm_compute in E1; discriminate].
  destruct (record_example (enrolment_example 2 None) (run_example a1)) as [[[]|] a2] eqn:E2.
  2: { exfalso. vm_compute in E1. injection E1 as <-. vm_compute in E2. discriminate. }
  refine (floor_never_lowered _ _ _ _ _ _ _ _ _ silent_lookup _ codec_of_two_counts _ _ _ _ _
    calls_example _ _ _ _ _ E1 _ _ _ E2);
    [intros p n w r w' [= <- <-]; split; reflexivity|reflexivity| |reflexivity|reflexivity].
  intros [H|[H|H%elem_of_nil]%elem_of_cons]%elem_of_cons; [discriminate|discriminate|exact H].
Defined.
