(* ===== verification/LedgerReach.v ===== *)
(** * What a call of the ledger reaches ([anchor.go])

    Recording an enrolment and removing a record change the files of one application
    of one account and no other: its record, what its removal left, and directories
    that were not there. *)
From Stdlib Require Import Ascii.
From stdpp Require Import base strings list numbers gmap pretty.
From S2P Require Import Prelude.
From S2P Require Import GoStrings.
From S2P Require Import GoPath.
From S2P Require Import TrustedFiles.
From S2P Require Import Enforcement.
From S2P Require Import Reputation.
From S2P Require Import TrustPolicy.
From S2P Require Import ReputationPolicy.
From S2P Require Import SignedState.
From S2P Require Import Evidence.
From S2P Require Import Anchor.
From S2P Require Import RecordPaths.
From S2P Require Import Confirmation.
From S2P Require Import Ledger.
From S2P Require Import LedgerFloor.
From stdpp Require Import options.

(** ** Changes of the files *)

(** Every other file is what it was; a directory may be there that was not. *)
Definition elsewhere_kept (own : string → Prop) (fs fs' : gmap string node) : Prop :=
  ∀ p, own p ∨ fs' !! p = fs !! p ∨ fs !! p = None ∧ ∃ u m, fs' !! p = Some (Directory u m).

#[export] Instance elsewhere_kept_preorder own : PreOrder (elsewhere_kept own).
Proof.
  split; [intros fs p; auto|]. intros f1 f2 f3 H1 H2 p.
  destruct (H1 p) as [?|[E1|[N1 (u & m & E1)]]]; [auto|..];
    destruct (H2 p) as [?|[E2|[N2 (u' & m' & E2)]]]; auto; right.
  - left. congruence.
  - right. split; [congruence|by exists u', m'].
  - right. split; [done|]. exists u, m. congruence.
  - congruence.
Qed.

(** A computation that changes the files of [own] alone, however it ends. *)
Definition stays {E A} (own : string → Prop) (m : M E A) : Prop :=
  ∀ w r w', m w = (r, w') → elsewhere_kept own (w_fs w) (w_fs w').

Section Stays.
Context (own : string → Prop).

Lemma stays_bind {E A B} (m : M E A) (f : A → M E B) :
  stays own m → (∀ x, stays own (f x)) → stays own (m ≫= f).
Proof.
  intros Hm Hf w r w' [(x & w1 & H1 & H2)|(e & H1 & _)]%bind_M; [|by eapply Hm].
  etrans; [by eapply Hm|by eapply Hf].
Qed.
Lemma stays_lift {E A} (x : result E A) : stays own (lift (S := world) x).
Proof. by intros w r w' [= _ <-]. Qed.
Lemma stays_guard {E A B} (x : result E A) (f : A → M E B) :
  (∀ v, x = Ok v → stays own (f v)) → stays own (lift x ≫= f).
Proof. intros H w r w'. rewrite bind_lift. destruct x as [v|e]; [by apply H|]. by intros [= _ <-]. Qed.
Lemma stays_reading {E A} (m : M E A) : (∀ w r w', m w = (r, w') → only_read w w') → stays own m.
Proof. intros Hm w r w' [Hf _]%Hm. by rewrite Hf. Qed.
Lemma stays_map_error {E F A} (f : E → F) (m : M E A) : stays own m → stays own (map_error f m).
Proof. intros Hm w r w'. unfold map_error. destruct (m w) as [x w1] eqn:E1. intros [= _ <-]. by eapply Hm. Qed.

Lemma stays_ensure path owner : stays own (ensureDirectory path owner).
Proof.
  unfold ensureDirectory. apply stays_bind.
  - intros w r w'. unfold mkdir_all. destruct (next_fault w) as [b w1] eqn:E1.
    apply next_fault_spec in E1 as [[Hf Hu] _]. destruct b; [intros [= _ <-]; by rewrite Hf|].
    destruct (w_fs w !! path) as [[]|] eqn:Ep; intros [= _ <-]; rewrite ?Hf; try done.
    intros p. right. cbn. destruct (decide (p = path)) as [->|]; [|left; by rewrite lookup_insert_ne].
    right. rewrite lookup_insert_eq. split; [done|]. by eexists _, _.
  - intros _. apply stays_reading. intros w r w' H. by apply validate_directory_spec in H as (? & _).
Qed.

Lemma kept_insert path n fs : own path → elsewhere_kept own fs (<[path := n]> fs).
Proof.
  intros Ho p. destruct (decide (p = path)) as [->|]; [by left|right; left; by rewrite lookup_insert_ne].
Qed.
Lemma kept_delete path fs : own path → elsewhere_kept own fs (delete path fs).
Proof.
  intros Ho p. destruct (decide (p = path)) as [->|]; [by left|right; left; by rewrite lookup_delete_ne].
Qed.

Lemma stays_write path data mode : own path → stays own (writeAtomic path data mode).
Proof.
  intros Ho w r w' (_ & Hr & _)%write_atomic_writes. destruct r; rewrite Hr; [by apply kept_insert|done].
Qed.
Lemma stays_remove path : own path → stays own (remove_gone path).
Proof.
  intros Ho w r w' (_ & Hr & _)%remove_gone_spec. destruct Hr as [-> | ->]; [done|by apply kept_delete].
Qed.
End Stays.
#[export] Hint Resolve stays_lift stays_ensure stays_map_error : stays.

Section Reach.
Context (sha256 quote : string → string) (lc : ledger_codec).
Context (url_parse : string → option url) (time_parse : string → Z).
Context (range_order : confirmations → list (string * challenge)).
Context (l : AnchorLedger).
Context (verifyEvidence : SignatureEvidence → Z → result string VerificationResult).
Context (verifyApproval : option (Enrolment → result string Verified)).
Context (reputationLookup : string → Z → world → Result * world).

Notation record := (record sha256 quote lc url_parse time_parse range_order l verifyEvidence
  verifyApproval reputationLookup).

(** The record of an application, and what its removal leaves. *)
Definition own_files (uid : N) (origin : string) (p : string) : Prop :=
  anchorPath l uid origin = Ok p ∨ tombstonePath l uid origin = Ok p.

Lemma stays_slot {A} own slot (decode : string → result ledger_error A) : stays own (read_slot l slot decode).
Proof. apply stays_reading. by intros w r w' [? _]%read_slot_spec. Qed.

Lemma stays_recorded own uid origin : stays own (Recorded sha256 quote lc l uid origin).
Proof. apply stays_slot. Qed.
Lemma stays_forgotten own uid origin : stays own (Forgotten sha256 lc l uid origin).
Proof. apply stays_slot. Qed.
#[local] Hint Resolve stays_recorded stays_forgotten : stays.

Lemma stays_write_record own e :
  (∀ p, anchorPath l (en_UID e) (en_Origin e) = Ok p → own p) → stays own (write_record sha256 quote lc l e).
Proof.
  intros Ho. unfold write_record. apply stays_guard. intros path Hp.
  do 2 (apply stays_bind; [auto with stays|intros _]). apply stays_bind; [auto with stays|intros held].
  apply stays_bind; [auto with stays|intros _]. apply stays_bind; [auto with stays|intros buried].
  apply stays_bind; [auto with stays|intros _]. apply stays_guard. intros data _.
  apply stays_map_error, stays_write. auto.
Qed.

Lemma stays_entomb own e :
  (∀ p, tombstonePath l (en_UID e) (en_Origin e) = Ok p → own p) → stays own (entomb sha256 lc l e).
Proof.
  intros Ho. unfold entomb. apply stays_bind; [auto with stays|intros standing]. cbv zeta.
  apply stays_guard. intros path Hp. apply stays_bind; [auto with stays|intros _].
  apply stays_guard. intros data _. apply stays_map_error, stays_write. auto.
Qed.

Lemma stays_forget uid origin : stays (own_files uid origin) (Forget sha256 quote lc l uid origin).
Proof.
  unfold Forget. apply stays_guard. intros path Hp.
  apply stays_bind; [apply stays_reading; by intros w r w' [? _]%trusted_all_spec|intros present].
  destruct present; cbn [negb]; [|by intros w r w' [= _ <-]].
  intros w r w' H. apply bind_M in H as [(recorded & w1 & Hrec & H)|(e & Hrec & ->)];
    pose proof Hrec as [[Hf _] Hread]%read_slot_spec; [|by rewrite Hf].
  rewrite <-Hf. revert H. match goal with |- ?m w1 = _ → _ => enough (stays (own_files uid origin) m) as Hs by apply Hs end.
  apply stays_bind; [|intros _; apply stays_remove; by left].
  destruct recorded as [e|]; [|by intros w2 r2 w3 [= _ <-]].
  destruct Hread as (p' & data & _ & _ & [Hu Ho]%recorded_subject & _).
  apply stays_entomb. rewrite Hu, Ho. by right.
Qed.

(** Where a removal answers yes, the record is gone, or its directory never was. *)
Lemma forgotten_gone uid origin w w' path :
  Forget sha256 quote lc l uid origin w = (Ok tt, w') → anchorPath l uid origin = Ok path →
  w_fs w' !! path = None ∨ w_fs w !! Directory_ l = None ∨ w_fs w !! dir path = None.
Proof.
  unfold Forget. rewrite bind_lift. intros H Hp. rewrite Hp in H. step_ok H.
  apply trusted_all_spec in Hstep as [[Hf _] Hmissing]. destruct x; cbn [negb] in H.
  - step_ok H. step_ok H. apply remove_gone_spec in H as (_ & _ & H). left. by apply H.
  - right. destruct (Hmissing eq_refl) as (d & Hd & Hn). rewrite !elem_of_cons in Hd.
    destruct Hd as [->|[->|Hd%elem_of_nil]]; [by left|by right|done].
Qed.

Hypothesis lookup_reads : ∀ p n w r w', reputationLookup p n w = (r, w') → only_read w w'.

(** Recording changes the file of the record, and that only where it answers yes. *)
Lemma recorded_reach e confirmation at_ a r a' :
  record e confirmation at_ a = (r, a') →
  elsewhere_kept (λ p, anchorPath l (en_UID e) (en_Origin e) = Ok p) (w_fs (files a)) (w_fs (files a')) ∧
  (r = Ok tt → ∃ path x data, anchorPath l (en_UID e) (en_Origin e) = Ok path ∧
    en_Anchor x = en_Anchor e ∧ en_Signature x = en_Signature e ∧ encode_enrolment lc x = Some data ∧
    w_fs (files a') !! path = Some (File (w_uid (files a)) 420 (Enforcement.line data))).
Proof using lookup_reads.
  intros H. split.
  - revert H. unfold Ledger.record. rewrite bind_lift.
    destruct (complete_enrolment sha256 quote (cleared e)) as [e1|err] eqn:E1; cbn [wrap]; [|by intros [= _ <-]].
    apply complete_ok in E1 as (_ & He1 & _).
    intros [(e2 & a2 & H2 & H)|(err & H2 & _)]%bind_M; apply on_files_eq in H2 as [H2 _];
      apply admit_signature_spec in H2 as [[Hf2 _] He2]; [|by rewrite Hf2].
    apply bind_M in H as [(e3 & a3 & H3 & H)|(err & H3 & _)]; apply admit_trust_spec in H3 as [[Hf3 _] He3];
      [|done|by rewrite Hf3, Hf2|done].
    rewrite bind_lift in H. destruct (wrap _ _) as [x|]; [|injection H as _ <-; by rewrite Hf3, Hf2].
    apply on_files_eq in H as [H _]. rewrite <-Hf2, <-Hf3. revert H. apply stays_write_record.
    destruct (He2 e2 eq_refl) as [Ha2 _], (He3 e3 eq_refl) as [Ha3 _]. rewrite Ha3, Ha2, He1. done.
  - intros ->. apply record_spec in H as [_ [[_ ?]|(x & w & [Hf Hu] & Ha & Hs & _ & Hw)]]; [done| |done].
    apply write_record_spec in Hw as (_ & path & data & fs1 & held & Hp & _ & Henc & Hfs & _).
    rewrite Ha in Hp. exists path, (carried_policy held x), data. rewrite Hfs, Hu, lookup_insert_eq.
    split; [done|]. unfold carried_policy in *. destruct held as [h|]; [|done]. by destruct (_ && _).
Qed.
End Reach.
