(* ===== verification/Admission.v ===== *)
(** * What the ledger admits ([anchor.go], [trust.go])

    A record is written only for an enrolment that the settings and the trust
    policy of the host admit, and read back only if it is one that holds
    together; a record the ledger cannot read again stops it. *)
From Stdlib Require Import Ascii.
From stdpp Require Import base strings list numbers gmap pretty.
From S2P Require Import Prelude.
From S2P Require Import GoStrings.
From S2P Require Import GoPath.
From S2P Require Import Json.
From S2P Require Import TrustedFiles.
From S2P Require Import Enforcement.
From S2P Require Import Reputation.
From S2P Require Import ReputationStore.
From S2P Require Import TrustPolicy.
From S2P Require Import ReputationPolicy.
From S2P Require Import SignedState.
From S2P Require Import Evidence.
From S2P Require Import Anchor.
From S2P Require Import RecordPaths.
From S2P Require Import Confirmation.
From S2P Require Import Ledger.
From S2P Require Import LedgerFloor.
From stdpp Require Import options.

Section Admission.
Context (sha256 quote : string → string) (lc : ledger_codec).
Context (url_parse : string → option url) (time_parse : string → Z).
Context (range_order : confirmations → list (string * challenge)).
Context (l : AnchorLedger).
Context (verifyEvidence : SignatureEvidence → Z → result string VerificationResult).
Context (verifyApproval : option (Enrolment → result string Verified)).
Context (reputationLookup : string → Z → world → Result * world).

Notation record := (record sha256 quote lc url_parse time_parse range_order l verifyEvidence
  verifyApproval reputationLookup).

(** ** The gates of [record] *)

(** The unsigned-package setting, and a signature that stands. *)
Definition signature_admits (e : Enrolment) (now : Z) (mode : string)
    (verification : option VerificationResult) : Prop :=
  match en_Signature e with
  | None => mode ≠ SignaturesRequired ∧ verification = None
  | Some s => ∃ r v, VerifyPublisher verifyEvidence s (en_Origin e) now = Ok (r, v) ∧
      verification = Some r
  end.

(** Whether the policy asks for a reputation. *)
Definition asks_reputation (p : Policy) : Prop :=
  ∃ rep, TrustPolicy.Reputation p = Some rep ∧ ABI p = CurrentABIVersion ∧ rp_Mode rep ≠ ReputationOff.

(** The decision on the reputation of the publisher of [candidate]: the answer that
    was looked up, what the policy makes of it, and the confirmations and the files
    after.  A warning is let through only with a confirmation the authority issued for
    this enrolment and that very warning. *)
Inductive reputation_decided (p : Policy) (candidate : Enrolment) (publisher : option PublisherIdentity)
    (confirmation : string) (now : Z) (s : confirmations) (w : world) :
    option Result → option ReputationDecision → confirmations → world → Prop :=
  | reputation_unasked : ¬ asks_reputation p →
      reputation_decided p candidate publisher confirmation now s w None None s w
  | reputation_answered id answer d confirmed s' w' : asks_reputation p → publisher = Some id →
      reputationLookup (pi_ID id) now w = (answer, w') →
      d = EvaluatesReputation time_parse p answer (pi_ID id) (en_Origin candidate) now →
      Consume sha256 confirmation candidate now s = (confirmed, s') → rd_Allowed d = true →
      (rd_Action d = ActionWarn → ∃ c, confirmed = Some c ∧ MatchesWarning c answer d = true) →
      reputation_decided p candidate publisher confirmation now s w (Some answer) (Some d) s' w'.

(** The publisher the policy is asked about: the one the verification found. *)
Definition publisher_admits (p : Policy) (candidate : Enrolment) (publisher : option PublisherIdentity) : Prop :=
  match en_Signature candidate with
  | None => RequirePublisher p = false ∧ publisher = None
  | Some _ => ∃ id, (en_Verification candidate ≫= vr_Publisher) = Some id ∧ publisher = Some id ∧
      Allowed (AllowsNormalizedPublisher p (pi_ID id) (pi_Issuer id) (pi_Repository id) (en_Origin candidate)) = true
  end.

(** A trust policy admits the candidate, with what it decided of its reputation. *)
Definition trust_admits (p : Policy) (candidate : Enrolment) (confirmation : string) (now : Z)
    (s : confirmations) (w : world) (answer : option Result) (decision : option ReputationDecision)
    (s' : confirmations) (w' : world) : Prop :=
  Allowed (AllowsOrigin p (en_Origin candidate)) = true ∧
  Allowed (IsRevoked p (en_Origin candidate) (publisherGeneration candidate)) = true ∧
  (RequireApproval p = true → ∃ verify v, verifyApproval = Some verify ∧ verify candidate = Ok v ∧
    Allowed (AllowsApproval p (id_Issuer (v_Identity v)) (id_Repo (v_Identity v))) = true) ∧
  ∃ publisher, publisher_admits p candidate publisher ∧
    reputation_decided p candidate publisher confirmation now s w answer decision s' w'.

(** The reputation mode a record carries. *)
Definition reputation_mode (p : Policy) : ReputationMode :=
  match TrustPolicy.Reputation p with
  | Some rep => if (ABI p =? CurrentABIVersion)%Z then rp_Mode rep else ReputationOff
  | None => ReputationOff
  end.

Lemma refused_by_ok d : refused_by d = Ok tt ↔ Allowed d = true.
Proof. unfold refused_by. by rewrite check_that_ok. Qed.

Lemma admit_signature_ok e now w e' w' :
  admitSignature l verifyEvidence e now w = (Ok e', w') → en_Verification e = None →
  ∃ mode verification, SignaturePolicy (settings l) w = (Ok (mode, None), w') ∧
    signature_admits e now mode verification ∧ e' = with_verification e verification mode.
Proof.
  unfold admitSignature, fail, signature_admits. rewrite bind_map_error.
  destruct (SignaturePolicy (settings l) w) as [answer w1] eqn:E.
  destruct answer as [[policy [err|]]|err]; cbn [fst snd]; [done| |done].
  intros H Hv. destruct (en_Signature e) as [signed|] eqn:Es; rewrite bind_lift in H.
  - destruct (VerifyPublisher _ _ _ _) as [[r v]|err] eqn:Ev; [|done]. injection H as <- <-.
    exists policy, (Some r). split; [done|]. split; [by exists r, v|done].
  - destruct (refuse_if _ _) as [[]|err] eqn:Er; [|done]. injection H as <- <-.
    apply refuse_if_ok, bool_decide_eq_false in Er. exists policy, None. by rewrite Hv.
Qed.

Lemma admit_publisher_ok p e publisher :
  admitPublisher p e = Ok publisher → publisher_admits p e publisher.
Proof.
  unfold admitPublisher, publisher_admits. destruct (en_Signature e) as [s|].
  - destruct (en_Verification e ≫= vr_Publisher) as [id|]; [|done].
    rewrite bind_unit_ok, refused_by_ok. intros [Ha [= <-]]. by exists id.
  - rewrite bind_unit_ok, refuse_if_ok. by intros [Hr [= <-]].
Qed.

Lemma admit_approval_ok p e :
  admitApproval verifyApproval p e = Ok tt → RequireApproval p = true →
  ∃ verify v, verifyApproval = Some verify ∧ verify e = Ok v ∧
    Allowed (AllowsApproval p (id_Issuer (v_Identity v)) (id_Repo (v_Identity v))) = true.
Proof.
  unfold admitApproval. intros H Hr. rewrite Hr in H. destruct verifyApproval as [verify|]; [|done].
  apply bind_ok in H as (v & Hv%wrap_ok & H). apply refused_by_ok in H. by exists verify, v.
Qed.

Lemma admit_reputation_ok p e publisher confirmation at_ a e' a' :
  admitReputation sha256 time_parse range_order reputationLookup p e publisher confirmation at_ a = (Ok e', a') →
  en_Reputation e = None → en_ReputationDecision e = None →
  ∃ answer decision,
    reputation_decided p e publisher confirmation (decided_at at_) (pending a) (files a) answer decision
      (pending a') (files a') ∧
    e' = with_reputation e answer decision (en_ReputationMode e).
Proof.
  unfold admitReputation, fail. intros H Hr Hd.
  assert (∀ e0, e0 = e → with_reputation e0 None None (en_ReputationMode e0) = e) as Hsame
    by (intros ? ->; destruct e; cbn in *; by subst).
  destruct (TrustPolicy.Reputation p) as [rep|] eqn:Hrep.
  2: { injection H as <- <-. exists None, None. split; [|by rewrite Hsame]. constructor. intros (? & ? & _). congruence. }
  destruct (negb (ABI p =? CurrentABIVersion)%Z || bool_decide (rp_Mode rep = ReputationOff)) eqn:Eoff.
  { injection H as <- <-. exists None, None. split; [|by rewrite Hsame]. constructor. intros (rep' & Hrep' & Ha & Hm).
    rewrite Hrep in Hrep'. injection Hrep' as <-. rewrite Ha, Z.eqb_refl, bool_decide_eq_false_2 in Eoff by done. done. }
  bools_in Eoff. destruct Eoff as [Habi Hoff].
  assert (asks_reputation p) as Hasks.
  { exists rep. split; [done|]. by split. }
  destruct publisher as [id|]; [|done].
  step_ok H. rename x into confirmed. unfold on_pending in Hstep.
  destruct (Consume sha256 confirmation e (decided_at at_) (pending a)) as [c s] eqn:Ec.
  injection Hstep as <- <-. step_ok H. unfold on_lookup in Hstep. cbn [files] in Hstep.
  destruct (reputationLookup (pi_ID id) (decided_at at_) (files a)) as [answer w] eqn:El.
  injection Hstep as <- <-. cbv zeta in H. step_ok H. rename Hstep into Hwarn.
  rewrite bind_lift in H. destruct (check_that _ _) as [[]|err] eqn:Ea in H; [|done].
  apply check_that_ok in Ea. set (d := EvaluatesReputation _ _ _ _ _ _) in *.
  assert (x0 = Ledger.mkState w s ∧ (rd_Action d = ActionWarn → ∃ c', c = Some c' ∧ MatchesWarning c' answer d = true)) as [-> Hc].
  { case_bool_decide as Hw; cbn [andb] in Hwarn; [|by injection Hwarn as _ <-].
    destruct (from_option _ false c) eqn:Em; cbn [negb] in Hwarn.
    - injection Hwarn as _ <-. split; [done|]. intros _. destruct c as [c|]; [|done]. by exists c.
    - exfalso. step_ok Hwarn. by destruct x1. }
  injection H as <- <-. eexists _, _. split; [|reflexivity].
  by econstructor.
Qed.

(** The decision of the trust policy, and the enrolment with it. *)
Lemma admit_trust_ok e confirmation at_ a e' a' :
  admitTrust sha256 lc url_parse time_parse range_order l verifyApproval reputationLookup
    e confirmation at_ a = (Ok e', a') →
  en_Reputation e = None → en_ReputationDecision e = None →
  ∃ p w answer decision, HostPolicy lc url_parse l (files a) = (Ok p, w) ∧
    let candidate := with_reputation e None None (reputation_mode p) in
    e' = with_reputation e answer decision (reputation_mode p) ∧
    if Empty p then answer = None ∧ decision = None ∧ files a' = w ∧ pending a' = pending a
    else trust_admits p candidate confirmation (decided_at at_) (pending a) w answer decision
      (pending a') (files a').
Proof.
  unfold admitTrust. intros H Hr Hd. step_ok H. rename x into p, x0 into a1.
  apply on_files_eq in Hstep as [Hp Hpend]. unfold map_error in Hp.
  destruct (HostPolicy lc url_parse l (files a)) as [r w] eqn:Ep. injection Hp as Hp Hw.
  apply wrap_ok in Hp. subst r w. rewrite Hr, Hd in H. cbv zeta in H. fold (reputation_mode p) in H.
  exists p, (files a1). destruct (Empty p).
  { injection H as <- <-. exists None, None. split; [done|]. by split. }
  set (candidate := with_reputation e None None _) in H.
  rewrite bind_lift in H. destruct (refused_by _) as [[]|] eqn:E1 in H; [|done].
  rewrite bind_lift in H. destruct (admitPublisher p candidate) as [publisher|] eqn:E2; [|done].
  rewrite bind_lift in H. destruct (refused_by _) as [[]|] eqn:E3 in H; [|done].
  rewrite bind_lift in H. destruct (admitApproval _ p candidate) as [[]|] eqn:E4; [|done].
  apply admit_reputation_ok in H as (answer & decision & Hdec & ->); [|done..].
  rewrite Hpend in Hdec. apply refused_by_ok in E1, E3. apply admit_publisher_ok in E2.
  exists answer, decision. split; [done|]. split; [done|].
  split; [done|]. split; [done|]. split; [by apply admit_approval_ok|]. by exists publisher.
Qed.

(** What a record writes: the document of the enrolment, with the policy of the
    record it replaces when it states none and the policy root is the same. *)
Lemma write_record_written e w w' :
  write_record sha256 quote lc l e w = (Ok tt, w') →
  ∃ path data held w1 w2,
    anchorPath l (en_UID e) (en_Origin e) = Ok path ∧ w_fs w ⊆ w_fs w1 ∧
    Ledger.Recorded sha256 quote lc l (en_UID e) (en_Origin e) w1 = (Ok held, w2) ∧
    encode_enrolment lc (carried_policy held e) = Some data ∧
    w_fs w' !! path = Some (File (w_uid w) 420 (Enforcement.line data)).
Proof.
  unfold write_record. rewrite bind_lift.
  destruct (anchorPath l (en_UID e) (en_Origin e)) as [path|err] eqn:Epath; [|done].
  rewrite !bind_map_error. destruct (ensureDirectory (Directory_ l) (OwnerUID l) w) as [r1 w1] eqn:E1.
  apply ensure_directory_grows in E1 as (Hu1 & Hs1 & _ & _). destruct r1 as [[]|err]; [|done].
  rewrite bind_map_error. destruct (ensureDirectory (dir path) (OwnerUID l) w1) as [r2 w2] eqn:E2.
  apply ensure_directory_grows in E2 as (Hu2 & Hs2 & _ & _). destruct r2 as [[]|err]; [|done].
  intros H. step_ok H. rename x into held. pose proof Hstep as ((Hf3 & Hu3) & _)%read_slot_spec.
  rewrite bind_lift in H. destruct (match held with Some _ => _ | None => _ end) as [[]|err]; [|done].
  step_ok H. pose proof Hstep0 as ((Hf4 & Hu4) & _)%read_slot_spec.
  rewrite bind_lift in H. destruct (match x with Some _ => _ | None => _ end) as [[]|err]; [|done].
  rewrite bind_lift in H. unfold from_option_error in H.
  destruct (encode_enrolment lc (carried_policy held e)) as [data|] eqn:Eenc; [|done].
  unfold map_error in H. destruct (writeAtomic _ _ _ _) as [r5 w5] eqn:E5.
  apply write_atomic_writes in E5 as (Hu5 & Hw & _). destruct r5 as [[]|]; [|done]. injection H as <-.
  exists path, data, held, w2, x0. split; [done|]. split; [by etrans|]. split; [done|]. split; [done|].
  rewrite Hw, lookup_insert_eq. do 2 f_equal. congruence.
Qed.


(** The lookup the authority installs does read only, whatever the provider's
    store holds: what the theorems on the ledger ask of the parameter. *)
Lemma default_lookup_reads c s publisherID now w answer w' :
  default_lookup c s publisherID now w = (answer, w') → only_read w w'.
Proof.
  unfold default_lookup. destruct (store_lookup_spec c s publisherID now w) as (x & error & w1 & -> & H & _).
  by intros [= <- <-].
Qed.

(** C2: the ledger records only what the host admits, and records that decision.  Where
    [record] answers yes, the unsigned-package setting was read, and the enrolment is
    signed and its evidence stands for this origin now, or it is unsigned and unsigned
    packages are not refused.  The trust policy of the host was read after it: where
    there is one, it allows the origin, the generation is not revoked, a publisher it
    requires is there and allowed, the approval it requires is the one of this very
    enrolment, and where it decides reputation, the answer looked up for that publisher
    is one it allows - a warning only with a confirmation the authority issued for it.
    The file of the application then holds the document of the enrolment with exactly
    this verification, this answer, this decision and these modes; its policy is the
    one of the record it replaces when it states none under the same root. *)
Theorem recorded_was_admitted e confirmation at_ a a' :
  record e confirmation at_ a = (Ok tt, a') →
  ∃ schema mode w1 verification p w2 answer decision w3,
    matchingPolicySchema sha256 (en_Policy e) (en_PolicyRoot e) (en_PolicySchema e) = Ok schema ∧
    SignaturePolicy (settings l) (files a) = (Ok (mode, None), w1) ∧
    signature_admits e (verified_at at_) mode verification ∧
    HostPolicy lc url_parse l w1 = (Ok p, w2) ∧
    let admitted answer decision := mkEnrolment (en_Anchor e) (en_Policy e) schema (en_Signature e) verification
      answer decision mode (reputation_mode p) in
    (if Empty p then answer = None ∧ decision = None ∧ w3 = w2 ∧ pending a' = pending a
     else trust_admits p (admitted None None) confirmation (decided_at at_) (pending a) w2 answer decision
       (pending a') w3) ∧
    ∃ path data held w4 w5,
      anchorPath l (en_UID e) (en_Origin e) = Ok path ∧ w_fs w3 ⊆ w_fs w4 ∧
      Ledger.Recorded sha256 quote lc l (en_UID e) (en_Origin e) w4 = (Ok held, w5) ∧
      encode_enrolment lc (carried_policy held (admitted answer decision)) = Some data ∧
      w_fs (files a') !! path = Some (File (w_uid w3) 420 (Enforcement.line data)).
Proof.
  unfold Ledger.record. rewrite bind_lift. intros H.
  destruct (complete_enrolment sha256 quote (cleared e)) as [e1|err] eqn:E1; cbn [wrap] in H; [|done].
  pose proof E1 as (_ & He1 & _)%complete_ok. apply complete_schema in E1. cbn [cleared en_Policy] in E1.
  step_ok H. apply on_files_eq in Hstep as [Hsig Hpend]. rename x into e2, x0 into a2.
  apply admit_signature_ok in Hsig as (mode & verification & Hmode & Hsig & ->); [|by rewrite He1].
  step_ok H. rename x into e3, x0 into a3.
  apply admit_trust_ok in Hstep as (p & w2 & answer & decision & Hp & Hadm & Htrust); [|by rewrite He1..].
  rewrite bind_lift in H. destruct (wrap _ (validateEnrolment _ _ e3)) as [[]|]; [|done].
  apply on_files_eq in H as [Hw Hpend'].
  exists (en_PolicySchema e1), mode, (files a2), verification, p, w2, answer, decision, (files a3).
  split; [exact E1|]. split; [done|]. split; [by rewrite He1 in Hsig|]. split; [done|]. cbv zeta.
  assert (e3 = mkEnrolment (en_Anchor e) (en_Policy e) (en_PolicySchema e1) (en_Signature e) verification
    answer decision mode (reputation_mode p)) as ->.
  { rewrite Hadm, He1. done. }
  apply write_record_written in Hw. split; [|exact Hw].
  rewrite Hpend'. destruct (Empty p).
  - rewrite <-Hpend. done.
  - rewrite Hpend in Htrust. rewrite He1 in Htrust. exact Htrust.
Qed.

(** ** What is read back *)
Notation Recorded := (Recorded sha256 quote lc l).
Notation Forget := (Forget sha256 quote lc l).

(** C35: whatever is in the ledger's files, an enrolment read from them is for the
    account and the origin asked about and holds together: its launch root is the
    hash of its two roots, a policy it carries hashes to its policy root, a
    signature it carries states this origin, this image and this manifest, and a
    verification it carries is of that very statement, by a publisher who is
    authorised for the origin.  Reading changes no file. *)
Theorem recorded_is_sound uid origin w e w' :
  Recorded uid origin w = (Ok (Some e), w') →
  only_read w w' ∧ en_UID e = uid ∧ en_Origin e = origin ∧ sound_enrolment sha256 quote e ∧
  (∃ path data, anchorPath l uid origin = Ok path ∧ trusted_file (w_fs w) path (OwnerUID l) data ∧
    read_enrolment sha256 quote lc uid origin data = Ok e).
Proof.
  intros [Hr (path & data & Hp & Ht & Hd & _)]%read_slot_spec. split; [done|].
  pose proof (recorded_subject _ _ _ _ _ _ _ Hd) as [Hu Ho]. split_and!; [done..|by eapply recorded_sound|by exists path, data].
Qed.

(** ** A record that is too large *)
Lemma oversized_unread uid origin path data w r w' :
  anchorPath l uid origin = Ok path →
  w_fs w !! path = Some (File (OwnerUID l) 420 data) → (anchorSizeLimit < N.of_nat (slen data))%N →
  is_Some (w_fs w !! Directory_ l) → is_Some (w_fs w !! dir path) →
  Recorded uid origin w = (r, w') → only_read w w' ∧ ∃ e, r = Err e.
Proof.
  intros Hp Hf Hl [n1 H1] [n2 H2] [Hr H]%read_slot_spec. split; [done|].
  destruct r as [[x|]|e]; [| |by eexists]; exfalso.
  - destruct H as (path' & data' & Hp' & (mode & Ht & _) & _ & Hs). rewrite Hp in Hp'. simplify_eq. lia.
  - destruct H as (path' & Hp' & Hn). rewrite Hp in Hp'. simplify_eq. destruct Hn as [Hn|[Hn|Hn]]; congruence.
Qed.

(** The record of an application is there and is above the limit. *)
Definition wedged (uid : N) (origin : string) (fs : gmap string node) : Prop :=
  ∃ path data, anchorPath l uid origin = Ok path ∧ fs !! path = Some (File (OwnerUID l) 420 data) ∧
    (anchorSizeLimit < N.of_nat (slen data))%N ∧
    is_Some (fs !! Directory_ l) ∧ is_Some (fs !! dir path).

Lemma wedged_mono uid origin fs fs' : fs ⊆ fs' → wedged uid origin fs → wedged uid origin fs'.
Proof.
  intros Hs (path & data & ? & ? & ? & [n1 ?] & [n2 ?]). exists path, data.
  split_and!; [done|by eapply lookup_weaken|done|eexists; by eapply lookup_weaken..].
Qed.

Lemma wedged_read uid origin w r w' :
  wedged uid origin (w_fs w) → Recorded uid origin w = (r, w') → only_read w w' ∧ ∃ e, r = Err e.
Proof. intros (path & data & ? & ? & ? & ? & ?). by eapply oversized_unread. Qed.

Lemma wedged_forget uid origin w r w' :
  wedged uid origin (w_fs w) → Forget uid origin w = (r, w') → only_read w w' ∧ r ≠ Ok tt.
Proof.
  intros Hw. pose proof Hw as (path & data & Hp & _ & _ & [n1 H1] & [n2 H2]).
  unfold Ledger.Forget. rewrite bind_lift, Hp. intros H.
  step H; pose proof Hstep as [Hr Hf]%trusted_all_spec; [|done].
  destruct x; cbn [negb] in H.
  - rewrite <-(proj1 Hr) in Hw. step H; destruct (wedged_read _ _ _ _ _ Hw Hstep0) as [Hr2 [e He]];
      [done|]. split; [by etrans|done].
  - destruct (Hf eq_refl) as (d & [->|[->|Hd%elem_of_nil]%elem_of_cons]%elem_of_cons & Hn); [congruence..|done].
Qed.

Lemma wedged_write e w r w' :
  wedged (en_UID e) (en_Origin e) (w_fs w) → write_record sha256 quote lc l e w = (r, w') →
  w_fs w ⊆ w_fs w' ∧ r ≠ Ok tt.
Proof.
  intros Hw H. pose proof (write_record_spec _ _ _ _ _ _ _ _ H) as [_ Hr].
  destruct r as [[]|err]; [exfalso|done]. clear Hr. revert H.
  pose proof Hw as (path & data & Hp & _). unfold write_record. rewrite bind_lift, Hp.
  intros H. step_ok H. unfold map_error in Hstep.
  destruct (ensureDirectory (Directory_ l) (OwnerUID l) w) as [r1 w1] eqn:E1. injection Hstep as _ <-.
  apply ensure_directory_grows in E1 as (_ & Hs1 & _). apply (wedged_mono _ _ _ _ Hs1) in Hw.
  step_ok H. unfold map_error in Hstep.
  destruct (ensureDirectory (dir path) (OwnerUID l) w1) as [r2 w2] eqn:E2. injection Hstep as _ <-.
  apply ensure_directory_grows in E2 as (_ & Hs2 & _). apply (wedged_mono _ _ _ _ Hs2) in Hw.
  step_ok H. destruct (wedged_read _ _ _ _ _ Hw Hstep) as [_ [e1 He]]. done.
Qed.

Hypothesis lookup_reads : ∀ p n w r w', reputationLookup p n w = (r, w') → only_read w w'.

(** C40: [record] does not look at the size of what it writes.  If every document
    of an enrolment's anchor is above [anchorSizeLimit], recording it succeeds,
    and from then on - whatever is interrupted - the application can be neither
    read, nor recorded again, nor removed: each answers an error and leaves the
    record where it is. *)
Theorem oversized_record_locks e confirmation at_ a a' :
  w_uid (files a) = OwnerUID l →
  (∀ x d, en_Anchor x = en_Anchor e → encode_enrolment lc x = Some d →
    (anchorSizeLimit < N.of_nat (slen d))%N) →
  record e confirmation at_ a = (Ok tt, a') →
  let uid := en_UID e in let origin := en_Origin e in
  ∀ b, w_fs (files b) = w_fs (files a') →
  (∀ r w', Recorded uid origin (files b) = (r, w') → only_read (files b) w' ∧ ∃ err, r = Err err) ∧
  (∀ r w', Forget uid origin (files b) = (r, w') → only_read (files b) w' ∧ r ≠ Ok tt) ∧
  (∀ x token now r b', en_UID x = uid → en_Origin x = origin →
    record x token now b = (r, b') → w_fs (files b) ⊆ w_fs (files b') ∧ r ≠ Ok tt).
Proof using lookup_reads.
  intros Ho Hbig [_ [[_ ?]|(e' & w & [Hf Hu] & Ha & _ & _ & Hw)]]%record_spec; [done| |done]. cbv zeta.
  apply write_record_spec in Hw as (_ & path & data & fs1 & existing & Hp & _ & Henc & Hfs & [Hd1 Hd2] & _).
  assert (wedged (en_UID e) (en_Origin e) (w_fs (files a'))) as Hwedged.
  { rewrite Ha in Hp. pose proof Hp as Hpath%anchor_path_inv.
    destruct (record_paths_apart _ _ _ _ _ _ _ _ _ record_suffix_ok record_suffix_ok Hpath Hpath) as (_ & H1 & H2).
    exists path, (Enforcement.line data). rewrite Hfs, Hu, Ho. split_and!; [done| | | |].
    - by rewrite lookup_insert_eq.
    - unfold Enforcement.line. rewrite slen_app. apply Hbig in Henc; [lia|].
      rewrite <-Ha. destruct existing; [|done]. cbn. by destruct (_ && _).
    - by rewrite lookup_insert_ne.
    - by rewrite lookup_insert_ne. }
  intros b Hb. rewrite <-Hb in Hwedged. split_and!.
  - intros r w'. by apply wedged_read.
  - intros r w'. by apply wedged_forget.
  - intros x token now r b' Hu1 Ho1 H.
    apply record_spec in H as [_ [?|(e2 & w2 & [Hf2 _] & Ha2 & _ & _ & Hw2)]]; [done| |done].
    rewrite <-Hf2. apply wedged_write in Hw2; [done|]. by rewrite Ha2, Hu1, Ho1, Hf2.
Qed.
End Admission.

(** ** Examples *)
Lemma recorded_was_admitted_witness :
  ∃ a1 mode w1 data, record_example (enrolment_example 1 None) empty_host = (Ok tt, a1) ∧
    SignaturePolicy (settings ledger_example) (files empty_host) = (Ok (mode, None), w1) ∧
    mode ≠ SignaturesRequired ∧
    w_fs (files a1) !! "/var/lib/cpak/1000/github.com:acme:tool.json" = Some (File 0 420 data).
Proof.
  destruct (record_example (enrolment_example 1 None) empty_host) as [[[]|] a1] eqn:E1;
    [|exfalso; vm_compute in E1; discriminate].
  destruct (recorded_was_admitted _ _ _ _ _ _ _ _ _ _ _ _ _ _ _ E1)
    as (schema & mode & w1 & v & p & w2 & answer & decision & w3 & _ & Hm & [Hs _] & Hp & Ht & path & data & held &
      w4 & w5 & Hpath & _ & _ & _ & Hw).
  exists a1, mode, w1, (Enforcement.line data). split; [reflexivity|]. split; [exact Hm|]. split; [exact Hs|].
  vm_compute in Hpath. injection Hpath as <-. rewrite Hw. do 2 f_equal.
  vm_compute in Hm. injection Hm as _ <-. vm_compute in Hp. injection Hp as <- <-. destruct Ht as (_ & _ & -> & _).
  reflexivity.
Defined.

Lemma recorded_is_sound_witness :
  ∃ e, en_UID e = 1000%N ∧ validateOrigin (en_Origin e) = true.
Proof.
  destruct (record_example (enrolment_example 1 None) empty_host) as [[[]|] a1] eqn:E1;
    [|exfalso; vm_compute in E1; discriminate].
  destruct (Recorded sha_example (λ s, s) codec_of_two ledger_example 1000 "github.com/acme/tool"
    (files a1)) as [[[e|]|] w'] eqn:E2;
    [|exfalso; vm_compute in E1; injection E1 as <-; vm_compute in E2; discriminate..].
  destruct (recorded_is_sound _ _ _ _ _ _ _ _ _ E2) as (_ & Hu & _ & Hs & _).
  exists e. split; [exact Hu|exact (se_origin _ _ _ Hs)].
Defined.

Definition codec_of_one (document : string) : ledger_codec := {|
  lc_tokens := λ _, Some JNull;
  decode_enrolment := λ _, None;
  encode_enrolment := λ _, Some document;
  decode_tombstone := λ _, None;
  encode_tombstone := λ _, None;
  decode_trust := λ _, None;
  encode_trust := λ _, None
|}.
Definition long_document : string := concat_strings (repeat "x" (N.to_nat 524289)).

Lemma long_document_length : N.of_nat (slen long_document) = 524289%N.
Proof.
  unfold long_document. assert (∀ n, slen (concat_strings (repeat "x" n)) = n) as ->; [|apply N2Nat.id].
  intros n. induction n as [|n IH]; [done|]. cbn. by f_equal.
Qed.

Definition record_document (document : string) :
    SM authority ledger_error () :=
  record sha_example (λ s, s) (codec_of_one document) (λ _, None) (λ _, 0%Z) map_to_list ledger_example
    verify_nothing None silent_lookup (enrolment_example 1 None) "" (mkMoment 0 0 None).

Lemma recorded_document document : ∃ a', record_document document empty_host = (Ok tt, a').
Proof. eexists. vm_compute. reflexivity. Qed.

Lemma oversized_record_locks_witness :
  ∃ a', record_document long_document empty_host = (Ok tt, a') ∧
    ∀ r w', Forget sha_example (λ s, s) (codec_of_one long_document) ledger_example 1000
      "github.com/acme/tool" (files a') = (r, w') → r ≠ Ok tt.
Proof.
  destruct (recorded_document long_document) as [a' E]. exists a'. split; [exact E|].
  refine (λ r w' H, proj2 (proj1 (proj2 (oversized_record_locks _ _ _ _ _ _ _ _ _ silent_lookup _ _ _ _
    _ a' _ _ E a' _)) r w' H)).
  - intros p n w x w1 [= <- <-]. split; reflexivity.
  - reflexivity.
  - intros x d _ [= <-]. rewrite long_document_length. reflexivity.
  - reflexivity.
Defined.
