(* ===== verification/AuthorityWire.v ===== *)
(** * What crosses to the authority ([anchor.go], [socket.go])

    A policy and a signed state as the strings of a bus call, and the frame of a
    socket request.  [encoding/json] is a parameter. *)
From Stdlib Require Import Ascii.
From stdpp Require Import base strings list numbers gmap.
From S2P Require Import Prelude.
From S2P Require Import GoStrings.
From S2P Require Import Json.
From S2P Require Import Reputation.
From S2P Require Import Override.
From S2P Require Import Base64.
From S2P Require Import SignedState.
From S2P Require Import Evidence.
From S2P Require Import Anchor.
From S2P Require Import Ledger.
From stdpp Require Import options.

Definition policySizeLimit : N := N.shiftl 32 10.
Definition encodedBundleLimit : N := ((signatureBundleLimit + 2) / 3 * 4)%N.
Definition requestLimit : N := anchorSizeLimit.

Record signedStateWire : Type := mkWire {
  wi_State : State;
  wi_EvidenceABI : Z;
  wi_Kind : string;
  wi_MediaType : string;
  wi_PayloadEncoding : string
}.

Record socketRequest : Type := mkRequest {
  sr_Action : string;
  sr_ID : string;
  sr_Origin : string;
  sr_Name : string;
  sr_Description : string;
  sr_Kind : string;
  sr_UID : N;
  sr_Anchor : option Anchor;
  sr_Policy : option Override;
  sr_Signature : option SignedState;
  sr_Confirmation : string;
  sr_Level : string
}.

(** What the transports call of [encoding/json]: the tokens of one value, the
    fields of an object, and the strict decoders and the encoders of each type. *)
Record wire_codec : Type := mkWireCodec {
  wc_tokens : string → option json;
  wc_fields : string → option (list string);
  decode_policy : string → option Override;
  encode_policy : Override → option string;
  decode_state : string → option State;
  decode_wire : string → option signedStateWire;
  encode_wire : signedStateWire → option string;
  decode_request : string → option socketRequest
}.

#[export] Instance wire_eq_dec : EqDecision signedStateWire.
Proof. solve_decision. Defined.

Inductive wire_error : Type :=
  | PolicyTooLarge | PolicyDecode | PolicyEncode | StateTooLarge | StateDecode | StateEncode
  | PayloadEncoding | PayloadNotCanonical | RequestTooLarge | RequestDecode.

Definition too_long (s : string) (limit : N) : bool := (limit <? N.of_nat (slen s))%N.

Section Wire.
Context (wc : wire_codec).

Definition some_or {A} (o : option A) (e : wire_error) : result wire_error A :=
  match o with Some x => Ok x | None => Err e end.

Definition encodePolicy (policy : option Override) : result wire_error string :=
  match policy with
  | None => Ok ""
  | Some policy => some_or (encode_policy wc policy) PolicyEncode
  end.

Definition decodePolicy (encoded : string) : result wire_error (option Override) :=
  if bool_decide (encoded = "") then Ok None
  else
    refuse_if (too_long encoded policySizeLimit) PolicyTooLarge ;;;
    policy ← some_or (decode_policy wc encoded) PolicyDecode;
    Ok (Some policy).

Definition encodeSignedState (signed : SignedState) : result wire_error (string * string) :=
  state ← some_or (encode_wire wc (mkWire (ss_State signed) (ss_ABI signed) (ss_Kind signed)
    (ss_MediaType signed) "base64")) StateEncode;
  Ok (state, base64_encode (ss_Bundle signed)).

Definition decodeSignedState (state bundle : string) : result wire_error (option SignedState) :=
  if bool_decide (state = "") && bool_decide (bundle = "") then Ok None
  else
    refuse_if (too_long state signatureBundleLimit || too_long bundle encodedBundleLimit) StateTooLarge ;;;
    check_that (from_option unique_keys false (wc_tokens wc state)) StateDecode ;;;
    fields ← some_or (wc_fields wc state) StateDecode;
    if bool_decide ("state" ∈ fields) then
      wire ← some_or (decode_wire wc state) StateDecode;
      check_that (bool_decide (wi_PayloadEncoding wire = "base64")) PayloadEncoding ;;;
      payload ← some_or (base64_strict_decode bundle) PayloadNotCanonical;
      refuse_if (too_long payload signatureBundleLimit) StateTooLarge ;;;
      Ok (Some (mkSignedState (wi_State wire) payload (wi_EvidenceABI wire) (wi_Kind wire)
        (wi_MediaType wire)))
    else
      refuse_if (too_long bundle signatureBundleLimit) StateTooLarge ;;;
      decoded ← some_or (decode_state wc state) StateDecode;
      Ok (Some (mkSignedState decoded bundle 0 "" "")).

(** [ReadBytes] over a limited reader: up to the first newline, which is part of
    the frame, or to the end of what the limit lets through. *)
Fixpoint frame (limit : nat) (input : string) : string :=
  match limit, input with
  | S limit, String c input =>
      if (byte c =? 10)%N then String c "" else String c (frame limit input)
  | _, _ => ""
  end.

Definition decodeSocketRequest (input : string) : result wire_error socketRequest :=
  let line := frame (N.to_nat requestLimit + 1) input in
  refuse_if (too_long line requestLimit) RequestTooLarge ;;;
  some_or (decode_request wc line) RequestDecode.

(** ** Evidence crosses unchanged *)

(** A document of the common form is an object that names its state, whose keys
    are unique and which is read back as it was written. *)
Definition wire_read_back : Prop := ∀ w d, encode_wire wc w = Some d →
  d ≠ "" ∧ decode_wire wc d = Some w ∧
  (∃ j, wc_tokens wc d = Some j ∧ unique_keys j = true) ∧
  (∃ fields, wc_fields wc d = Some fields ∧ "state" ∈ fields).

Lemma within s limit : (N.of_nat (slen s) ≤ limit)%N → too_long s limit = false.
Proof. apply N.ltb_ge. Qed.

(** The evidence of a signed enrolment crosses the bus unchanged: whatever
    bytes the bundle holds, what a client sends is what the authority puts back
    together, as long as the bundle and the encoded state are within the limits
    of a record. *)
Theorem evidence_crosses_the_bus signed state bundle :
  wire_read_back →
  encodeSignedState signed = Ok (state, bundle) →
  (N.of_nat (slen (ss_Bundle signed)) ≤ signatureBundleLimit)%N →
  (N.of_nat (slen state) ≤ signatureBundleLimit)%N →
  decodeSignedState state bundle = Ok (Some signed).
Proof.
  intros Hw He Hb Hs. unfold encodeSignedState, some_or in He.
  destruct (encode_wire wc _) as [d|] eqn:Ed; [|done]. injection He as <- <-.
  apply Hw in Ed as (Hne & Hd & (j & Hj & Hu) & (fields & Hf & Hin)).
  unfold decodeSignedState, some_or. rewrite bool_decide_eq_false_2 by done. cbn [andb].
  rewrite (within d) by done. rewrite (within (base64_encode _) encodedBundleLimit).
  2: { rewrite encode_length. unfold encodedBundleLimit. apply N.mul_le_mono_r, N.Div0.div_le_mono. lia. }
  cbn [orb refuse_if mbind result_bind]. rewrite Hj. cbn [from_option]. rewrite Hu, Hf.
  cbn [check_that mbind result_bind]. rewrite bool_decide_eq_true_2 by done. rewrite Hd.
  cbn [mbind result_bind wi_PayloadEncoding]. rewrite bool_decide_eq_true_2 by done.
  unfold base64_strict_decode. rewrite strip_encode, groups_encode.
  cbn [check_that mbind result_bind]. rewrite within by done. by destruct signed.
Qed.
End Wire.

(** ** An example: a codec that writes one state *)
Definition wire_example : signedStateWire :=
  mkWire state_example EvidenceABIVersion "sigstore" "application/json" "base64".
Definition wire_codec_example : wire_codec := {|
  wc_tokens := λ _, Some (JObject []);
  wc_fields := λ _, Some ["state"; "evidence_abi"; "kind"; "media_type"; "payload_encoding"];
  decode_policy := λ _, None;
  encode_policy := λ _, None;
  decode_state := λ _, None;
  decode_wire := λ _, Some wire_example;
  encode_wire := λ w, if bool_decide (w = wire_example) then Some "{}" else None;
  decode_request := λ _, None
|}.

Lemma evidence_crosses_the_bus_witness :
  let signed := mkSignedState state_example (String "255" (String "000" "x")) EvidenceABIVersion "sigstore"
    "application/json" in
  decodeSignedState wire_codec_example "{}" "/wB4" = Ok (Some signed).
Proof.
  apply evidence_crosses_the_bus; [|vm_compute; reflexivity|vm_compute; discriminate|vm_compute; discriminate].
  intros w d. unfold wire_codec_example; cbn [encode_wire]. case_bool_decide as E; [|discriminate].
  intros [= <-]. subst w. split; [discriminate|]. split; [reflexivity|]. split.
  - exists (JObject []). split; reflexivity.
  - eexists. split; [reflexivity|]. left.
Defined.
