(* ===== verification/Authority.v ===== *)
(** * The system authority ([socket.go], [service.go])

    The two ways the ledger and its settings are reached: a socket, where the
    kernel says who asks, and the bus, where the owner of the machine is asked in
    turn. *)
From Stdlib Require Import Ascii.
From stdpp Require Import base strings list numbers gmap pretty.
From S2P Require Import Prelude.
From S2P Require Import GoStrings.
From S2P Require Import GoPath.
From S2P Require Import Override.
From S2P Require Import Integrity.
From S2P Require Import TrustedFiles.
From S2P Require Import Enforcement.
From S2P Require Import Reputation.
From S2P Require Import TrustPolicy.
From S2P Require Import ReputationPolicy.
From S2P Require Import SignedState.
From S2P Require Import Evidence.
From S2P Require Import Anchor.
From S2P Require Import RecordPaths.
From S2P Require Import Confirmation.
From S2P Require Import Ledger.
From S2P Require Import LedgerFloor.
From S2P Require Import LedgerReach.
From S2P Require Import AuthorityWire.
From stdpp Require Import options.

Definition ActionForgetAnchor : string := "it.cpak.system.forget-anchor".
Definition ActionForgetAnchorOther : string := "it.cpak.system.forget-anchor-other".
Definition ActionClearRemoval : string := "it.cpak.system.clear-removal".
Definition ActionSetEnforcement : string := "it.cpak.system.set-enforcement".
Definition ActionSetSignaturePolicy : string := "it.cpak.system.set-signature-policy".
Definition ActionSetTrustPolicy : string := "it.cpak.system.set-trust-policy".

Definition anchorEnrolAction : string := "enrol".
Definition anchorForgetAction : string := "forget".
Definition anchorClearAction : string := "clear-removal".
Definition enforcementSetAction : string := "set-enforcement".

Inductive signer_error : Type := ErrUnsigned | NotStanding (e : ledger_error).

Inductive request_error : Type :=
  | UnknownCaller | RootRequired | NoAnchor | BadEnrolment (e : enrolment_error)
  | BadSigner (e : signer_error) | LedgerFailure (e : ledger_error)
  | BadConfirmation | ForeignConfirmation | BadOrigin | UnsupportedAction
  | BadSetting | SettingFailure (e : setting_error) | TrustFailure (e : trust_error)
  | BadWire (e : wire_error).

(** [invalidRequest], [denied] and [failed], and the refusal of a process that is
    not the installed one. *)
Inductive bus_error : Type :=
  | StaleAuthority
  | InvalidRequest (e : request_error)
  | Denied
  | Failed_ (e : request_error).

(** The parts of [Service] that are not stores: the question put to the owner of
    the machine, and the account the bus names for a sender. *)
Record Service : Type := mkService {
  Authorizer : option (string → string → list (string * string) → bool);
  CallerUID : option (string → option N)
}.

Section Authority.
Context (sha256 quote : string → string) (lc : ledger_codec) (wc : wire_codec).
Context (url_parse : string → option url) (time_parse : string → Z).
Context (range_order : confirmations → list (string * challenge)).
Context (l : AnchorLedger).
Context (verifyEvidence : SignatureEvidence → Z → result string VerificationResult).
Context (verifyApproval : option (Enrolment → result string Verified)).
Context (reputationLookup : string → Z → world → Result * world).

Notation record := (record sha256 quote lc url_parse time_parse range_order l verifyEvidence
  verifyApproval reputationLookup).
Notation authorizationFor := (authorizationFor sha256 quote lc l).

Definition Signer (e : Enrolment) (now : Z) : result signer_error Verified :=
  match en_Signature e with
  | None => Err ErrUnsigned
  | Some signed =>
      verdict ← wrap NotStanding (VerifyPublisher verifyEvidence signed (en_Origin e) now);
      Ok verdict.2
  end.

(** [err != nil && !errors.Is(err, ErrUnsigned)]. *)
Definition signer_stands (e : Enrolment) (now : Z) : result request_error unit :=
  match Signer e now with
  | Ok _ | Err ErrUnsigned => Ok tt
  | Err err => Err (BadSigner err)
  end.

(** ** The socket *)
Definition offered (anchor : Anchor) (policy : option Override) (signature : option SignedState) : Enrolment :=
  mkEnrolment anchor policy 0 signature None None None "" no_mode.

Definition enrolmentFromSocket (message : socketRequest) : result request_error Enrolment :=
  match sr_Anchor message with
  | None => Err NoAnchor
  | Some anchor =>
      let enrolment := offered anchor (sr_Policy message) (sr_Signature message) in
      wrap BadEnrolment (validateEnrolment sha256 quote enrolment) ;;;
      Ok enrolment
  end.

(** [now]: when the signature is checked for the authorization. *)
Definition authorizeSocketRequest (credentials : option N) (message : socketRequest) (now : Z) :
    M request_error () :=
  match credentials with
  | None => fail UnknownCaller
  | Some uid =>
      if (uid =? 0)%N then mret ()
      else if bool_decide (sr_Action message = anchorEnrolAction) then
        match sr_Anchor message with
        | None => fail RootRequired
        | Some anchor =>
            if negb (an_UID anchor =? uid)%N then fail RootRequired
            else
              enrolment ← lift (enrolmentFromSocket message);
              lift (signer_stands enrolment now) ;;;
              action ← map_error LedgerFailure (authorizationFor enrolment);
              if bool_decide (action = ActionEnrolAnchor) then mret () else fail RootRequired
        end
      else if bool_decide (sr_Action message = anchorForgetAction) then
        if (sr_UID message =? uid)%N then mret () else fail RootRequired
      else fail RootRequired
  end.

Definition applyAnchor (message : socketRequest) (at_ : moment) : SM authority request_error () :=
  if bool_decide (sr_Action message = anchorEnrolAction) then
    enrolment ← lift (enrolmentFromSocket message);
    if negb (bool_decide (sr_Confirmation message = "")) then
      lift (refuse_if (is_nil (en_Signature enrolment) || (64 <? slen (sr_Confirmation message)))
        BadConfirmation) ;;;
      map_error LedgerFailure (record enrolment (sr_Confirmation message) at_)
    else map_error LedgerFailure (record enrolment "" at_)
  else if bool_decide (sr_Action message = anchorForgetAction) then
    lift (check_that (bool_decide (sr_Confirmation message = "")) ForeignConfirmation) ;;;
    lift (check_that (validateOrigin (sr_Origin message)) BadOrigin) ;;;
    on_files (map_error LedgerFailure (Forget sha256 quote lc l (sr_UID message) (sr_Origin message)))
  else if bool_decide (sr_Action message = anchorClearAction) then
    lift (check_that (bool_decide (sr_Confirmation message = "")) ForeignConfirmation) ;;;
    lift (check_that (validateOrigin (sr_Origin message)) BadOrigin) ;;;
    on_files (map_error LedgerFailure (ClearForgotten l (sr_UID message) (sr_Origin message)))
  else fail UnsupportedAction.

Definition applyEnforcement (message : socketRequest) : M request_error () :=
  lift (check_that (bool_decide (sr_Action message = enforcementSetAction)) UnsupportedAction) ;;;
  map_error SettingFailure (Set_ (settings l) (sr_Level message)).

(** The requests of [apply] on the ledger and its level; those on sessions are
    left out.  On the ledger both steps are under one lock. *)
Definition apply (credentials : option N) (message : socketRequest) (now : Z) (at_ : moment) :
    SM authority request_error () :=
  if existsb (λ action, bool_decide (sr_Action message = action))
    [anchorEnrolAction; anchorForgetAction; anchorClearAction]
  then
    on_files (authorizeSocketRequest credentials message now) ;;;
    applyAnchor message at_
  else
    on_files (authorizeSocketRequest credentials message now) ;;;
    if bool_decide (sr_Action message = enforcementSetAction) then on_files (applyEnforcement message)
    else fail UnsupportedAction.

(** ** The bus *)
Definition authorize (s : Service) (sender action : string) (details : list (string * string)) :
    result bus_error unit :=
  match Authorizer s with
  | None => Err Denied
  | Some ask => check_that (ask sender action details) Denied
  end.

Definition enrolmentAction (s : Service) (sender : string) (e : Enrolment) : M ledger_error string :=
  match CallerUID s ≫= λ f, f sender with
  | None => mret ActionWidenAnchor
  | Some uid => if negb (uid =? en_UID e)%N then mret ActionWidenAnchor else authorizationFor e
  end.

Definition forgetAction (s : Service) (sender : string) (uid : N) : string :=
  match CallerUID s ≫= λ f, f sender with
  | None => ActionForgetAnchorOther
  | Some caller => if negb (caller =? uid)%N then ActionForgetAnchorOther else ActionForgetAnchor
  end.

Definition enrolment_details (e : Enrolment) : list (string * string) :=
  [("package-origin", en_Origin e); ("target-uid", pretty (en_UID e)); ("generation", pretty (en_Generation e))].
Definition target_details (uid : N) (origin : string) : list (string * string) :=
  [("package-origin", origin); ("target-uid", pretty uid)].

(** Decide how hard to ask, ask, record: the tail of every enrolment. *)
Definition ask_and_record (s : Service) (sender : string) (e : Enrolment) (confirmation : string)
    (at_ : moment) : SM authority bus_error () :=
  lift (refuse_if (is_nil (Authorizer s)) Denied) ;;;
  action ← on_files (map_error (Failed_ ∘ LedgerFailure) (enrolmentAction s sender e));
  lift (authorize s sender action (enrolment_details e)) ;;;
  map_error (Failed_ ∘ LedgerFailure) (record e confirmation at_).

Definition enrolThrough (s : Service) (sender : string) (e : Enrolment) (confirmation : string)
    (now : Z) (at_ : moment) : SM authority bus_error () :=
  lift (wrap (InvalidRequest ∘ BadEnrolment) (validateEnrolment sha256 quote e)) ;;;
  lift (wrap InvalidRequest (signer_stands e now)) ;;;
  ask_and_record s sender e confirmation at_.

(** The anchor the plain values of a call name; it has no session roots. *)
Definition anchor_of_call (abi : Z) (uid : N) (origin : string) (generation : N)
    (imageDigest manifestDigest packageRoot policyRoot launchRoot : string) : Anchor :=
  mkAnchor abi uid origin generation imageDigest manifestDigest packageRoot policyRoot launchRoot ∅.

Definition EnrolAnchor (stale : bool) (s : Service) (sender : string) (anchor : Anchor)
    (policy : string) (at_ : moment) : SM authority bus_error () :=
  lift (refuse_if stale StaleAuthority) ;;;
  decoded ← lift (wrap (InvalidRequest ∘ BadWire) (decodePolicy wc policy));
  let enrolment := offered anchor decoded None in
  lift (wrap (InvalidRequest ∘ BadEnrolment) (validateEnrolment sha256 quote enrolment)) ;;;
  ask_and_record s sender enrolment "" at_.

(** The two enrolments that carry a signature, from the policy on. *)
Definition enrol_signed (s : Service) (sender : string) (anchor : Anchor)
    (policy state bundle confirmation : string) (now : Z) (at_ : moment) : SM authority bus_error () :=
  decoded ← lift (wrap (InvalidRequest ∘ BadWire) (decodePolicy wc policy));
  signed ← lift (wrap (InvalidRequest ∘ BadWire) (decodeSignedState wc state bundle));
  enrolThrough s sender (offered anchor decoded signed) confirmation now at_.

Definition EnrolSignedAnchor (stale : bool) (s : Service) (sender : string) (anchor : Anchor)
    (policy state bundle : string) (now : Z) (at_ : moment) : SM authority bus_error () :=
  lift (refuse_if stale StaleAuthority) ;;;
  enrol_signed s sender anchor policy state bundle "" now at_.

Definition EnrolSignedAnchorConfirmed (stale : bool) (s : Service) (sender : string) (anchor : Anchor)
    (policy state bundle confirmation : string) (now : Z) (at_ : moment) : SM authority bus_error () :=
  lift (refuse_if stale StaleAuthority) ;;;
  lift (refuse_if (unusable confirmation) (InvalidRequest BadConfirmation)) ;;;
  enrol_signed s sender anchor policy state bundle confirmation now at_.

Definition ForgetAnchor (stale : bool) (s : Service) (sender : string) (uid : N) (origin : string) :
    M bus_error () :=
  lift (refuse_if stale StaleAuthority) ;;;
  lift (check_that (validateOrigin origin) (InvalidRequest BadOrigin)) ;;;
  lift (authorize s sender (forgetAction s sender uid) (target_details uid origin)) ;;;
  map_error (Failed_ ∘ LedgerFailure) (Forget sha256 quote lc l uid origin).

Definition ClearForgottenAnchor (stale : bool) (s : Service) (sender : string) (uid : N) (origin : string) :
    M bus_error () :=
  lift (refuse_if stale StaleAuthority) ;;;
  lift (check_that (validateOrigin origin) (InvalidRequest BadOrigin)) ;;;
  lift (authorize s sender ActionClearRemoval (target_details uid origin)) ;;;
  map_error (Failed_ ∘ LedgerFailure) (ClearForgotten l uid origin).

Definition SetEnforcement (stale : bool) (s : Service) (sender level : string) : M bus_error () :=
  lift (refuse_if stale StaleAuthority) ;;;
  lift (check_that (valid_level level) (InvalidRequest BadSetting)) ;;;
  lift (authorize s sender ActionSetEnforcement [("enforcement-level", level)]) ;;;
  map_error (Failed_ ∘ SettingFailure) (Set_ (settings l) level).

Definition SetSignaturePolicy_ (stale : bool) (s : Service) (sender policy : string) : M bus_error () :=
  lift (refuse_if stale StaleAuthority) ;;;
  lift (check_that (valid_signatures policy) (InvalidRequest BadSetting)) ;;;
  lift (authorize s sender ActionSetSignaturePolicy [("signature-policy", policy)]) ;;;
  map_error (Failed_ ∘ SettingFailure) (SetSignaturePolicy (settings l) policy).

Definition SetTrustPolicy (stale : bool) (s : Service) (sender document : string) : M bus_error () :=
  lift (refuse_if stale StaleAuthority) ;;;
  policy ← lift (wrap (InvalidRequest ∘ TrustFailure) (decodeTrustPolicy lc url_parse document));
  lift (authorize s sender ActionSetTrustPolicy
    [("approved-origins", pretty (length (ApprovedOrigins policy)));
     ("approved-signers", pretty (length (ApprovedSigners policy)));
     ("revocations", pretty (length (Revoked policy)))]) ;;;
  map_error (Failed_ ∘ TrustFailure) (SetTrust lc url_parse l policy).

(** The methods of the bus that reach the ledger and its settings. *)
Inductive bus_call : Type :=
  | CallEnrol (anchor : Anchor) (policy : string) (at_ : moment)
  | CallEnrolSigned (anchor : Anchor) (policy state bundle : string) (now : Z) (at_ : moment)
  | CallEnrolConfirmed (anchor : Anchor) (policy state bundle confirmation : string) (now : Z) (at_ : moment)
  | CallForgetAnchor (uid : N) (origin : string)
  | CallClearForgotten (uid : N) (origin : string)
  | CallSetEnforcement (level : string)
  | CallSetSignaturePolicy (policy : string)
  | CallSetTrustPolicy (document : string).

Definition serve_call (stale : bool) (s : Service) (sender : string) (c : bus_call) :
    SM authority bus_error () :=
  match c with
  | CallEnrol anchor policy at_ => EnrolAnchor stale s sender anchor policy at_
  | CallEnrolSigned anchor policy state bundle now at_ =>
      EnrolSignedAnchor stale s sender anchor policy state bundle now at_
  | CallEnrolConfirmed anchor policy state bundle confirmation now at_ =>
      EnrolSignedAnchorConfirmed stale s sender anchor policy state bundle confirmation now at_
  | CallForgetAnchor uid origin => on_files (ForgetAnchor stale s sender uid origin)
  | CallClearForgotten uid origin => on_files (ClearForgottenAnchor stale s sender uid origin)
  | CallSetEnforcement level => on_files (SetEnforcement stale s sender level)
  | CallSetSignaturePolicy policy => on_files (SetSignaturePolicy_ stale s sender policy)
  | CallSetTrustPolicy document => on_files (SetTrustPolicy stale s sender document)
  end.

(** ** Unprivileged requests of the socket *)
Lemma authorization_reads e w r w' : authorizationFor e w = (r, w') → only_read w w'.
Proof.
  unfold Ledger.authorizationFor. intros H.
  step H; pose proof Hstep as [Hr _]%read_slot_spec; [|done]. destruct x as [recorded|].
  - injection H as <- <-. done.
  - step H; pose proof Hstep0 as [Hr2 _]%read_slot_spec; [|by etrans].
    destruct x as [buried|]; injection H as <- <-; by etrans.
Qed.

Lemma authorize_socket_reads credentials message now w r w' :
  authorizeSocketRequest credentials message now w = (r, w') → only_read w w'.
Proof.
  unfold authorizeSocketRequest, fail. destruct credentials as [uid|]; [|by intros [= <- <-]].
  repeat (case_if || case_match); try by intros [= <- <-]. rewrite bind_lift.
  destruct (enrolmentFromSocket message) as [e|]; [|by intros [= <- <-]]. rewrite bind_lift.
  destruct (signer_stands e now) as [[]|]; [|by intros [= <- <-]]. rewrite bind_map_error.
  destruct (authorizationFor e w) as [action w1] eqn:E. apply authorization_reads in E.
  destruct action as [action|]; [case_if|]; by intros [= <- <-].
Qed.

(** What a caller who is not root is let through with. *)
Definition within_reach (uid : N) (message : socketRequest) (w : world) : Prop :=
  sr_Action message = anchorForgetAction ∧ sr_UID message = uid ∨
  sr_Action message = anchorEnrolAction ∧ ∃ e w1, enrolmentFromSocket message = Ok e ∧ en_UID e = uid ∧
    authorizationFor e w = (Ok ActionEnrolAnchor, w1).

Lemma authorize_socket_ok uid message now w w' :
  uid ≠ 0%N → authorizeSocketRequest (Some uid) message now w = (Ok tt, w') → within_reach uid message w.
Proof.
  intros Hu. unfold authorizeSocketRequest, fail, within_reach. rewrite (proj2 (N.eqb_neq _ _) Hu).
  destruct (bool_decide_reflect (sr_Action message = anchorEnrolAction)) as [Ha|Ha].
  - destruct (sr_Anchor message) as [anchor|] eqn:Eanchor; [|done].
    destruct (N.eqb_spec (an_UID anchor) uid) as [Huid|]; [|done]. cbn [negb]. rewrite bind_lift.
    destruct (enrolmentFromSocket message) as [e|] eqn:Ee; [|done]. rewrite bind_lift.
    destruct (signer_stands e now) as [[]|]; [|done]. rewrite bind_map_error.
    destruct (authorizationFor e w) as [action w1] eqn:E. destruct action as [action|]; [|done].
    case_bool_decide as Hcheap; [|done]. subst action. intros _. right. split; [done|].
    exists e, w1. split_and!; [done| |done]. unfold enrolmentFromSocket in Ee. rewrite Eanchor in Ee.
    apply bind_unit_ok in Ee as [_ [= <-]]. done.
  - destruct (bool_decide_reflect (sr_Action message = anchorForgetAction)) as [Hf|]; [|done].
    destruct (N.eqb_spec (sr_UID message) uid); [|done]. auto.
Qed.

Lemma authorization_values e w action w' :
  authorizationFor e w = (Ok action, w') → action = ActionEnrolAnchor ∨ action = ActionWidenAnchor.
Proof.
  assert (∀ generation root policy, authorizationAgainst generation root policy e = ActionEnrolAnchor ∨
    authorizationAgainst generation root policy e = ActionWidenAnchor) as Ha.
  { intros generation root policy. unfold authorizationAgainst. repeat case_match; auto. }
  unfold Ledger.authorizationFor. intros H. step_ok H. destruct x as [held|]; [injection H as <- _; apply Ha|].
  step_ok H. destruct x as [buried|]; injection H as <- _; [apply Ha|by left].
Qed.

(** ** Requests as calls of the ledger *)
Notation exec := (exec sha256 quote lc url_parse time_parse range_order l verifyEvidence
  verifyApproval reputationLookup).

Definition call_of_message (message : socketRequest) (at_ : moment) : option ledger_call :=
  if bool_decide (sr_Action message = anchorEnrolAction) then
    match enrolmentFromSocket message with
    | Ok e => Some (CallRecord e (sr_Confirmation message) at_)
    | Err _ => None
    end
  else if bool_decide (sr_Action message = anchorForgetAction)
  then Some (CallForget (sr_UID message) (sr_Origin message))
  else if bool_decide (sr_Action message = anchorClearAction)
  then Some (CallClearRemoval (sr_UID message) (sr_Origin message))
  else if bool_decide (sr_Action message = enforcementSetAction) then Some (CallSetLevel (sr_Level message))
  else None.

Definition call_of_signed (anchor : Anchor) (policy state bundle confirmation : string) (at_ : moment) :
    option ledger_call :=
  match decodePolicy wc policy, decodeSignedState wc state bundle with
  | Ok decoded, Ok signed => Some (CallRecord (offered anchor decoded signed) confirmation at_)
  | _, _ => None
  end.

Definition call_of_bus (c : bus_call) : option ledger_call :=
  match c with
  | CallEnrol anchor policy at_ =>
      match decodePolicy wc policy with
      | Ok decoded => Some (CallRecord (offered anchor decoded None) "" at_)
      | Err _ => None
      end
  | CallEnrolSigned anchor policy state bundle now at_ => call_of_signed anchor policy state bundle "" at_
  | CallEnrolConfirmed anchor policy state bundle confirmation now at_ =>
      call_of_signed anchor policy state bundle confirmation at_
  | CallForgetAnchor uid origin => Some (CallForget uid origin)
  | CallClearForgotten uid origin => Some (CallClearRemoval uid origin)
  | CallSetEnforcement level => Some (CallSetLevel level)
  | CallSetSignaturePolicy policy => Some (CallSetSignatures policy)
  | CallSetTrustPolicy document =>
      match decodeTrustPolicy lc url_parse document with Ok p => Some (CallSetTrust p) | Err _ => None end
  end.

(** The answer of the owner of the machine that a call over the bus takes. *)
Definition demands (s : Service) (sender : string) (c : ledger_call) (action : string) (w : world) : Prop :=
  match c with
  | CallRecord e _ _ => ∃ w1, enrolmentAction s sender e w = (Ok action, w1)
  | CallForget uid _ => action = forgetAction s sender uid
  | CallClearRemoval _ _ => action = ActionClearRemoval
  | CallSetTrust _ => action = ActionSetTrustPolicy
  | CallClearTrust => False
  | CallSetLevel _ => action = ActionSetEnforcement
  | CallSetSignatures _ => action = ActionSetSignaturePolicy
  end.

(** The authority looked, and changed nothing. *)
Definition unmoved (a a' : authority) : Prop :=
  only_read (files a) (files a') ∧ pending a' = pending a.
#[local] Instance unmoved_preorder : PreOrder unmoved.
Proof.
  split; [by intros a|]. intros a b c [H1 H2] [H3 H4]. split; [by etrans|congruence].
Qed.

Lemma settle_eq {E A} (m : SM authority E A) a r a' : m a = (r, a') → settle m a = a'.
Proof. unfold settle. by intros ->. Qed.
Lemma map_error_inv {S E F A} (f : E → F) (m : SM S E A) w r w' :
  map_error f m w = (r, w') → ∃ r0, m w = (r0, w') ∧ r = wrap f r0.
Proof. unfold map_error. destruct (m w) as [r0 w0]. intros [= <- <-]. eauto. Qed.
Lemma on_files_map_error {E F A} (f : E → F) (m : M E A) a r a' :
  on_files (map_error f m) a = (r, a') → ∃ r0, on_files m a = (r0, a').
Proof. unfold on_files, map_error. destruct (m (files a)) as [r0 w0]. intros [= <- <-]. eauto. Qed.
Lemma on_files_unmoved {E A} (m : M E A) a r a' :
  (∀ w r w', m w = (r, w') → only_read w w') → on_files m a = (r, a') → unmoved a a'.
Proof. intros Hm [H Hp]%on_files_eq. split; [by eapply Hm|done]. Qed.

(** Refused where it stands, or past the guard. *)
Definition refused_or (a : authority) {E} (r : result E unit) (a' : authority) (P : Prop) : Prop :=
  unmoved a a' ∧ r ≠ Ok tt ∨ P.

Lemma guard {E A} (x : result E A) (f : A → SM authority E unit) a r a' P :
  (lift x ≫= f) a = (r, a') → (∀ v, x = Ok v → f v a = (r, a') → refused_or a r a' P) → refused_or a r a' P.
Proof.
  rewrite bind_lift. destruct x as [v|e]; intros H Hf; [by eapply Hf|]. injection H as <- <-. by left.
Qed.
Lemma guard_files {E A} (x : result E A) (f : A → M E unit) a r a' P :
  on_files (lift x ≫= f) a = (r, a') →
  (∀ v, x = Ok v → on_files (f v) a = (r, a') → refused_or a r a' P) → refused_or a r a' P.
Proof.
  intros H. apply (guard x (λ v, on_files (f v))). rewrite <-H.
  unfold on_files. rewrite !bind_lift. by destruct x as [v|e], a.
Qed.
Lemma guard_read {E A} (m : M E A) (f : A → SM authority E unit) a r a' P :
  (on_files m ≫= f) a = (r, a') → (∀ w x w', m w = (x, w') → only_read w w') →
  (∀ v a1, unmoved a a1 → m (files a) = (Ok v, files a1) → f v a1 = (r, a') → refused_or a r a' P) →
  refused_or a r a' P.
Proof.
  intros [(v & a1 & H1 & H2)|(e & H1 & ->)]%bind_M Hm Hf.
  - pose proof (on_files_unmoved _ _ _ _ Hm H1) as Hu. apply on_files_eq in H1 as [H1 _]. by eapply Hf.
  - left. split; [by eapply on_files_unmoved|done].
Qed.
Ltac past H := eapply guard; [exact H|]; clear H; intros ? ? H.
Ltac past_files H := eapply guard_files; [exact H|]; clear H; intros ? ? H.

(** The last step: the call itself, whatever its error is called. *)
Lemma performed {E F A} (f : E → F) (m : SM authority E A) a r a' :
  map_error f m a = (r, a') → settle m a = a'.
Proof. intros (r0 & H & _)%map_error_inv. by eapply settle_eq. Qed.
Lemma performed_files {E F A} (f : E → F) (m : M E A) a r a' :
  on_files (map_error f m) a = (r, a') → settle (on_files m) a = a'.
Proof. intros (r0 & H)%on_files_map_error. by eapply settle_eq. Qed.

Lemma apply_anchor_calls message at_ a r a' :
  applyAnchor message at_ a = (r, a') →
  refused_or a r a' (∃ c, call_of_message message at_ = Some c ∧ exec c a = a').
Proof.
  unfold applyAnchor, call_of_message, fail. intros H.
  case_bool_decide; [|case_bool_decide; [|case_bool_decide]].
  - past H. match goal with E : enrolmentFromSocket _ = _ |- _ => rewrite E end.
    destruct (bool_decide_reflect (sr_Confirmation message = "")) as [->|]; cbn [negb] in H.
    + right. eexists. split; [done|]. exact (performed _ _ _ _ _ H).
    + past H. right. eexists. split; [done|]. exact (performed _ _ _ _ _ H).
  - do 2 past H. right. eexists. split; [done|]. exact (performed_files _ _ _ _ _ H).
  - do 2 past H. right. eexists. split; [done|]. exact (performed_files _ _ _ _ _ H).
  - injection H as <- <-. by left.
Qed.

(** A request over the socket is refused, or is one call of the ledger by root or
    by an account that has it within its reach. *)
Lemma apply_calls credentials message now at_ a r a' :
  apply credentials message now at_ a = (r, a') →
  refused_or a r a' (∃ c a1, call_of_message message at_ = Some c ∧ unmoved a a1 ∧ exec c a1 = a' ∧
    ∃ uid, credentials = Some uid ∧ (uid = 0%N ∨ uid ≠ 0%N ∧ within_reach uid message (files a))).
Proof.
  unfold apply. intros H.
  assert (∀ a1, authorizeSocketRequest credentials message now (files a) = (Ok tt, files a1) →
    ∃ uid, credentials = Some uid ∧ (uid = 0%N ∨ uid ≠ 0%N ∧ within_reach uid message (files a))) as Hauth.
  { intros a1 H1. destruct credentials as [uid|]; [|done]. exists uid. split; [done|].
    destruct (decide (uid = 0%N)) as [|Hne]; [by left|right]. split; [done|]. by eapply authorize_socket_ok. }
  destruct (existsb _ _).
  - eapply guard_read; [exact H|intros ???; apply authorize_socket_reads|]. clear H.
    intros [] a1 Hu H1%Hauth [[Hu2 Hr]|(c & Hc & He)]%apply_anchor_calls; [left; split; [by etrans|done]|].
    right. eauto 8.
  - eapply guard_read; [exact H|intros ???; apply authorize_socket_reads|]. clear H.
    intros [] a1 Hu H1%Hauth H. case_bool_decide as Ha; [|injection H as <- <-; by left].
    assert (call_of_message message at_ = Some (CallSetLevel (sr_Level message))) as Hc.
    { unfold call_of_message. rewrite Ha. done. }
    unfold applyEnforcement in H. rewrite bool_decide_eq_true_2 in H by done. cbn [check_that] in H.
    right. exists (CallSetLevel (sr_Level message)), a1. split_and!; [done..| |done].
    eapply (performed_files SettingFailure (Set_ (settings l) (sr_Level message)) a1 r). exact H.
Qed.

(** A call over the bus is refused, or is one call of the ledger that the owner of
    the machine allowed. *)
Definition allowed (stale : bool) (s : Service) (sender : string) (c : ledger_call) (w : world) : Prop :=
  stale = false ∧ ∃ ask action details, Authorizer s = Some ask ∧ ask sender action details = true ∧
    demands s sender c action w.
Definition served (stale : bool) (s : Service) (sender : string) (call : option ledger_call)
    (a a' : authority) : Prop :=
  ∃ c a1, call = Some c ∧ unmoved a a1 ∧ exec c a1 = a' ∧ allowed stale s sender c (files a).

Lemma authorize_allowed s sender action details c w v :
  authorize s sender action details = Ok v → demands s sender c action w → allowed false s sender c w.
Proof.
  unfold authorize, allowed. destruct (Authorizer s) as [ask|]; [|done].
  intros H%check_that_ok Hd. split; [done|]. by exists ask, action, details.
Qed.

Lemma enrolment_action_reads s sender e w r w' :
  enrolmentAction s sender e w = (r, w') → only_read w w'.
Proof.
  unfold enrolmentAction. destruct (_ ≫= _) as [uid|]; [|by intros [= <- <-]].
  case_if; [by intros [= <- <-]|apply authorization_reads].
Qed.

Lemma ask_and_record_calls s sender e confirmation at_ a r a' :
  ask_and_record s sender e confirmation at_ a = (r, a') →
  refused_or a r a' (served false s sender (Some (CallRecord e confirmation at_)) a a').
Proof.
  unfold ask_and_record. intros H. past H. eapply guard_read; [exact H| |]; clear H.
  { intros w x w' (r0 & H & _)%map_error_inv. by eapply enrolment_action_reads. }
  intros action a1 Hu (r0 & Hact & Hr0)%map_error_inv H. symmetry in Hr0. apply wrap_ok in Hr0. subst r0.
  rewrite bind_lift in H. destruct (authorize _ _ _ _) as [answer|] eqn:Eauth.
  - right. exists (CallRecord e confirmation at_), a1. split_and!; [done..| |].
    + exact (performed _ _ _ _ _ H).
    + eapply authorize_allowed; [exact Eauth|]. cbn. eauto.
  - injection H as <- <-. by left.
Qed.

Lemma enrol_signed_calls s sender anchor policy state bundle confirmation now at_ a r a' :
  enrol_signed s sender anchor policy state bundle confirmation now at_ a = (r, a') →
  refused_or a r a'
    (served false s sender (call_of_signed anchor policy state bundle confirmation at_) a a').
Proof.
  unfold enrol_signed, enrolThrough, call_of_signed. intros H. past H. past H.
  repeat match goal with E : wrap _ _ = Ok _ |- _ => apply wrap_ok in E; rewrite E end.
  do 2 past H. exact (ask_and_record_calls _ _ _ _ _ _ _ _ H).
Qed.

(** Past the check that the process is the installed binary. *)
Ltac current_binary :=
  match goal with E : refuse_if ?b StaleAuthority = _ |- _ => apply refuse_if_ok in E; subst b end.

(** A method that asks one question and then writes. *)
Lemma asked_calls {A E} stale s sender (guard : result bus_error A) (action : string)
    (details : A → list (string * string)) (f : E → bus_error) (m : A → M E ()) (call : A → ledger_call) a r a' :
  on_files (lift (refuse_if stale StaleAuthority) ;;; x ← lift guard;
    lift (authorize s sender action (details x)) ;;; map_error f (m x)) a = (r, a') →
  (∀ x, demands s sender (call x) action (files a)) → (∀ x, exec (call x) a = settle (on_files (m x)) a) →
  refused_or a r a' (∃ x, guard = Ok x ∧ served stale s sender (Some (call x)) a a').
Proof.
  intros H Hd Hex. past_files H. current_binary.
  past_files H. past_files H. right. eexists. split; [done|]. eexists _, a. split_and!; [done..| |].
  - rewrite Hex. exact (performed_files _ _ _ _ _ H).
  - by eapply authorize_allowed.
Qed.

Lemma serve_calls stale s sender c a r a' :
  serve_call stale s sender c a = (r, a') →
  refused_or a r a' (served stale s sender (call_of_bus c) a a').
Proof.
  destruct c as [anchor policy at_|anchor policy state bundle now at_
    |anchor policy state bundle confirmation now at_|uid origin|uid origin|level|policy|document];
    cbn [serve_call call_of_bus]; intros H.
  - unfold EnrolAnchor in H. past H. current_binary.
    past H. match goal with E : wrap _ _ = Ok _ |- _ => apply wrap_ok in E; rewrite E end.
    cbv zeta in H. past H. exact (ask_and_record_calls _ _ _ _ _ _ _ _ H).
  - unfold EnrolSignedAnchor in H. past H. current_binary.
    exact (enrol_signed_calls _ _ _ _ _ _ _ _ _ _ _ _ H).
  - unfold EnrolSignedAnchorConfirmed in H. past H. current_binary.
    past H. exact (enrol_signed_calls _ _ _ _ _ _ _ _ _ _ _ _ H).
  - eapply (asked_calls stale s sender (check_that (validateOrigin origin) (InvalidRequest BadOrigin)) _
      (λ _, target_details uid origin) _ (λ _, Forget sha256 quote lc l uid origin)
      (λ _, CallForget uid origin)) in H as [H|(x & _ & H)]; [by left|by right|done..].
  - eapply (asked_calls stale s sender (check_that (validateOrigin origin) (InvalidRequest BadOrigin)) _
      (λ _, target_details uid origin) _ (λ _, ClearForgotten l uid origin)
      (λ _, CallClearRemoval uid origin)) in H as [H|(x & _ & H)]; [by left|by right|done..].
  - eapply (asked_calls stale s sender (check_that (valid_level level) (InvalidRequest BadSetting)) _
      (λ _, [("enforcement-level", level)]) _ (λ _, Set_ (settings l) level)
      (λ _, CallSetLevel level)) in H as [H|(x & _ & H)]; [by left|by right|done..].
  - eapply (asked_calls stale s sender (check_that (valid_signatures policy) (InvalidRequest BadSetting)) _
      (λ _, [("signature-policy", policy)]) _ (λ _, SetSignaturePolicy (settings l) policy)
      (λ _, CallSetSignatures policy)) in H as [H|(x & _ & H)]; [by left|by right|done..].
  - eapply (asked_calls stale s sender (wrap _ (decodeTrustPolicy lc url_parse document)) _ _ _
      (λ p, SetTrust lc url_parse l p) CallSetTrust) in H as [H|(x & Hx & H)]; [by left| |done..].
    apply wrap_ok in Hx. rewrite Hx. by right.
Qed.

(** ** What each transport lets through *)

(** An enrolment that takes nothing more than what the ledger holds of the
    application, or than what its removal left; with neither, a first one. *)
Definition narrows (e : Enrolment) (w : world) : Prop :=
  ∃ recorded w1, Recorded sha256 quote lc l (en_UID e) (en_Origin e) w = (Ok recorded, w1) ∧
  let within generation root policy := (generation ≤ en_Generation e)%N ∧
    (en_PolicyRoot e = root ∨
     ∃ held offered, policy = Some held ∧ en_Policy e = Some offered ∧ Restricts held offered = true) in
  match recorded with
  | Some held => within (en_Generation held) (en_PolicyRoot held) (en_Policy held)
  | None => ∃ buried w2, Forgotten sha256 lc l (en_UID e) (en_Origin e) w1 = (Ok buried, w2) ∧
      from_option (λ t, within (tb_Generation t) (tb_PolicyRoot t) (tb_Policy t)) True buried
  end.

Lemma cheap_authorization e w w' :
  authorizationFor e w = (Ok ActionEnrolAnchor, w') → narrows e w.
Proof.
  unfold Ledger.authorizationFor. intros H. step_ok H. exists x, x0. split; [done|]. cbv zeta.
  destruct x as [held|].
  - injection H as H _. by apply cheap_iff.
  - step_ok H. exists x, x1. split; [done|]. destruct x as [buried|]; [|done].
    injection H as H _. by apply cheap_iff.
Qed.

(** The calls [applyAnchor] comes to, with what they answer. *)
Lemma apply_anchor_outcome message at_ a r a' :
  applyAnchor message at_ a = (r, a') →
  refused_or a r a' (∃ r0, (r = Ok tt → r0 = Ok tt) ∧
    ((sr_Action message = anchorEnrolAction ∧ ∃ e, enrolmentFromSocket message = Ok e ∧
        record e (sr_Confirmation message) at_ a = (r0, a')) ∨
     (sr_Action message = anchorForgetAction ∧
        on_files (Forget sha256 quote lc l (sr_UID message) (sr_Origin message)) a = (r0, a')) ∨
     sr_Action message = anchorClearAction)).
Proof.
  unfold applyAnchor, fail. intros H.
  assert (∀ (E F : Type) (f : E → F) (x : result E ()), wrap f x = Ok tt → x = Ok tt) as Hok by (by intros ? ? ? [[]|]).
  case_bool_decide; [|case_bool_decide; [|case_bool_decide]].
  - past H. destruct (bool_decide_reflect (sr_Confirmation message = "")) as [->|]; cbn [negb] in H; [|past H];
      apply map_error_inv in H as (r0 & H & ->); right; exists r0; (split; [apply Hok|]); left; eauto.
  - do 2 past H. right. unfold on_files in *. unfold map_error in H.
    destruct (Forget _ _ _ _ _ _ _) as [r0 w0] eqn:Ef. injection H as <- <-.
    exists r0. split; [apply Hok|]. right. left. by split.
  - right. exists (Ok tt). split; [done|]. auto.
  - injection H as <- <-. by left.
Qed.

Hypothesis lookup_reads : ∀ p n w r w', reputationLookup p n w = (r, w') → only_read w w'.

(** C8: over the socket an account other than root reaches its own records and no
    others.  It is refused and nothing is changed, unless it removes its own record or
    enrols for itself an application that narrows what it holds: the generation does
    not go back, and the policy root is the one held or the policy, stated on both
    sides, is a restriction of it.  Whatever such a request comes to, every file but
    the record of that application for that account - and, for a removal, what the
    removal leaves - is what it was, directories that were not there apart.  A removal
    that is answered with yes leaves no record, and an enrolment that is answered with
    yes leaves the document of that enrolment.  A request that names no account the
    kernel knows is refused. *)
Theorem socket_unprivileged credentials message now at_ a r a' :
  credentials ≠ Some 0%N → apply credentials message now at_ a = (r, a') →
  unmoved a a' ∧ r ≠ Ok tt ∨
  ∃ uid, credentials = Some uid ∧
    ((sr_Action message = anchorForgetAction ∧ sr_UID message = uid ∧
      elsewhere_kept (own_files l uid (sr_Origin message)) (w_fs (files a)) (w_fs (files a')) ∧
      (r = Ok tt → ∀ path, anchorPath l uid (sr_Origin message) = Ok path →
        w_fs (files a') !! path = None ∨ w_fs (files a) !! Directory_ l = None ∨ w_fs (files a) !! dir path = None)) ∨
     (sr_Action message = anchorEnrolAction ∧
      ∃ e, enrolmentFromSocket message = Ok e ∧ en_UID e = uid ∧ narrows e (files a) ∧
      elsewhere_kept (λ p, anchorPath l uid (en_Origin e) = Ok p) (w_fs (files a)) (w_fs (files a')) ∧
      (r = Ok tt → ∃ path x data, anchorPath l uid (en_Origin e) = Ok path ∧
        en_Anchor x = en_Anchor e ∧ en_Signature x = en_Signature e ∧ encode_enrolment lc x = Some data ∧
        w_fs (files a') !! path = Some (File (w_uid (files a)) 420 (Enforcement.line data))))).
Proof using lookup_reads.
  intros Hc H. unfold apply in H.
  assert (∀ a1, authorizeSocketRequest credentials message now (files a) = (Ok tt, files a1) →
    ∃ uid, credentials = Some uid ∧ within_reach uid message (files a)) as Hauth.
  { intros a1 H1. destruct credentials as [uid|]; [|done]. exists uid. split; [done|].
    eapply authorize_socket_ok; [|exact H1]. congruence. }
  destruct (existsb _ _) eqn:Eaction; (eapply guard_read; [exact H|intros ???; apply authorize_socket_reads|]); clear H;
    intros [] a1 [[Hf Hu] Hp] (uid & -> & Hr)%Hauth H.
  - apply apply_anchor_outcome in H as [[[Hf' Hp'] Hno]|(r0 & Hok & H)].
    { left. split; [|done]. split; [split; [by rewrite (proj1 Hf')|by rewrite (proj2 Hf')]|congruence]. }
    right. exists uid. split; [done|]. rewrite <-Hf, <-Hu. destruct Hr as [[Ha Huid]|(Ha & e & w1 & He & Huid & Hcheap)].
    + left. destruct H as [[Ha' _]|[[_ H]|Ha']]; [by rewrite Ha' in Ha| |by rewrite Ha' in Ha].
      apply on_files_eq in H as [H _]. rewrite Huid in H. split; [done|]. split; [done|]. split.
      * by eapply stays_forget.
      * intros ->%Hok path Hpath. by eapply forgotten_gone.
    + right. destruct H as [[_ (e' & He' & H)]|[[Ha' _]|Ha']]; [|by rewrite Ha' in Ha..].
      rewrite He in He'. injection He' as <-. split; [done|]. exists e.
      apply recorded_reach in H as [Hkept Hrec]; [|done]. rewrite Huid in Hkept, Hrec.
      split; [done|]. split; [done|]. split; [by eapply cheap_authorization|]. split; [done|]. intros ->%Hok. by apply Hrec.
  - exfalso. rewrite existsb_none in Eaction.
    destruct Hr as [[Ha _]|(Ha & _)]; rewrite Ha in Eaction.
    + assert (anchorForgetAction ∈ [anchorEnrolAction; anchorForgetAction; anchorClearAction]) as Hin by (right; left).
      apply Eaction in Hin. by rewrite bool_decide_eq_true_2 in Hin.
    + assert (anchorEnrolAction ∈ [anchorEnrolAction; anchorForgetAction; anchorClearAction]) as Hin by left.
      apply Eaction in Hin. by rewrite bool_decide_eq_true_2 in Hin.
Qed.

(** C29: over the bus nothing is changed before the owner of the machine was asked:
    a call either changes nothing and fails, or its process is the installed one
    and the question its kind demands was answered with yes.  The cheap question
    about an enrolment is put only to the very account it is for, and only for an
    enrolment that narrows what is held; every other enrolment is put as a
    widening. *)
Theorem bus_asks_first stale s sender c a r a' :
  serve_call stale s sender c a = (r, a') →
  unmoved a a' ∧ r ≠ Ok tt ∨
  ∃ call ask action details, stale = false ∧ call_of_bus c = Some call ∧
    Authorizer s = Some ask ∧ ask sender action details = true ∧
    match call with
    | CallRecord e _ _ => action = ActionWidenAnchor ∨
        action = ActionEnrolAnchor ∧ (CallerUID s ≫= λ f, f sender) = Some (en_UID e) ∧ narrows e (files a)
    | CallForget uid _ => action = ActionForgetAnchorOther ∨
        action = ActionForgetAnchor ∧ (CallerUID s ≫= λ f, f sender) = Some uid
    | CallClearRemoval _ _ => action = ActionClearRemoval
    | CallSetTrust _ => action = ActionSetTrustPolicy
    | CallClearTrust => False
    | CallSetLevel _ => action = ActionSetEnforcement
    | CallSetSignatures _ => action = ActionSetSignaturePolicy
    end.
Proof.
  intros [H|(call & a1 & Hc & _ & _ & -> & ask & action & details & Ha & Hy & Hd)]%serve_calls; [by left|right].
  exists call, ask, action, details. split_and!; [done..|]. destruct call; try exact Hd; cbn in Hd.
  - destruct Hd as [w1 Hd]. unfold enrolmentAction in Hd. destruct (_ ≫= _) as [uid|]; [|injection Hd; auto].
    destruct (N.eqb_spec uid (en_UID e)) as [E|]; cbn [negb] in Hd; [|injection Hd; auto].
    destruct (decide (action = ActionEnrolAnchor)) as [->|Hne].
    + right. split_and!; [done|by rewrite E|]. by eapply cheap_authorization.
    + left. apply authorization_values in Hd as [->|]; [done|done].
  - unfold forgetAction in Hd. destruct (_ ≫= _) as [caller|]; [|by left].
    destruct (N.eqb_spec caller uid) as [E|]; cbn [negb] in Hd; [|by left]. right. by rewrite E.
Qed.

(** ** Session roots *)
Definition with_session_roots (a : Anchor) (roots : gmap string string) : Anchor :=
  mkAnchor (an_ABI a) (an_UID a) (an_Origin a) (an_Generation a) (an_ImageDigest a) (an_ManifestDigest a)
    (an_PackageRoot a) (an_PolicyRoot a) (an_LaunchRoot a) roots.
Definition resessioned (message : socketRequest) (roots : gmap string string) : socketRequest :=
  mkRequest (sr_Action message) (sr_ID message) (sr_Origin message) (sr_Name message)
    (sr_Description message) (sr_Kind message) (sr_UID message)
    ((λ a, with_session_roots a roots) <$> sr_Anchor message) (sr_Policy message) (sr_Signature message)
    (sr_Confirmation message) (sr_Level message).

Lemma validate_resessioned a roots policy signature :
  validateEnrolment sha256 quote (offered (with_session_roots a roots) policy signature) =
  validateEnrolment sha256 quote (offered a policy signature).
Proof.
  unfold validateEnrolment, complete_enrolment.
  change (validateAnchor sha256 _) with (validateAnchor sha256 a) at 1.
  change (validateSignedState quote _) with (validateSignedState quote (offered a policy signature)) at 1.
  change (validateRecordedVerification sha256 _)
    with (validateRecordedVerification sha256 (offered a policy signature)) at 1.
  cbn [offered with_session_roots en_Anchor en_Policy en_PolicySchema en_Signature en_Verification
    en_Reputation en_ReputationDecision en_SignatureMode en_ReputationMode an_PolicyRoot].
  destruct (validateAnchor sha256 a) as [[]|]; [|done]. cbn [mbind result_bind].
  destruct (validateSignedState quote _) as [[]|]; [|done]. cbn [mbind result_bind].
  destruct (validateRecordedVerification sha256 _) as [[]|]; [|done]. cbn [mbind result_bind].
  repeat (destruct (check_that _ _) as [[]|]; [|done]; cbn [mbind result_bind]).
  repeat (destruct (refuse_if _ _) as [[]|]; [|done]; cbn [mbind result_bind]).
  by destruct (matchingPolicySchema sha256 policy _ _).
Qed.

(** Nothing looks at the session roots of an offered anchor: a request with
    any other session roots is validated and authorised exactly alike, and what
    it enrols differs in them alone.  Over the bus an anchor has none. *)
Theorem session_roots_unchecked credentials message roots now w :
  authorizeSocketRequest credentials (resessioned message roots) now w =
    authorizeSocketRequest credentials message now w ∧
  enrolmentFromSocket (resessioned message roots) =
    match enrolmentFromSocket message with
    | Ok e => Ok (offered (with_session_roots (en_Anchor e) roots) (en_Policy e) (en_Signature e))
    | Err e => Err e
    end.
Proof.
  assert (enrolmentFromSocket (resessioned message roots) =
    match enrolmentFromSocket message with
    | Ok e => Ok (offered (with_session_roots (en_Anchor e) roots) (en_Policy e) (en_Signature e))
    | Err e => Err e
    end) as He.
  { unfold enrolmentFromSocket. cbn [resessioned sr_Anchor sr_Policy sr_Signature].
    destruct (sr_Anchor message) as [a|]; [|done]. cbn [fmap option_fmap option_map].
    rewrite validate_resessioned. by destruct (validateEnrolment _ _ _) as [[]|]. }
  split; [|exact He]. unfold authorizeSocketRequest. cbn [resessioned sr_Action sr_UID sr_Anchor]. rewrite He.
  destruct credentials as [uid|]; [|done]. destruct (uid =? 0)%N; [done|].
  case_bool_decide; [|done]. destruct (sr_Anchor message) as [a|]; [|done]. cbn [fmap option_fmap option_map].
  change (an_UID (with_session_roots a roots)) with (an_UID a). destruct (negb _); [done|].
  rewrite !bind_lift. destruct (enrolmentFromSocket message) as [e|]; done.
Qed.

(** ** Floors over both transports *)
Inductive transport : Type :=
  | OverSocket (credentials : option N) (message : socketRequest) (now : Z) (at_ : moment)
  | OverBus (stale : bool) (s : Service) (sender : string) (c : bus_call).

Definition handle (t : transport) (a : authority) : authority :=
  match t with
  | OverSocket credentials message now at_ => (apply credentials message now at_ a).2
  | OverBus stale s sender c => (serve_call stale s sender c a).2
  end.
Definition handle_all (ts : list transport) (a : authority) : authority :=
  foldl (λ a t, handle t a) a ts.

(** Root clears the removal of an application over the socket, or the owner of
    the machine allows it over the bus. *)
Definition clears (t : transport) (uid : N) (origin : string) : Prop :=
  match t with
  | OverSocket credentials message _ _ => credentials = Some 0%N ∧
      sr_Action message = anchorClearAction ∧ sr_UID message = uid ∧ sr_Origin message = origin
  | OverBus _ s sender c => c = CallClearForgotten uid origin ∧
      ∃ ask details, Authorizer s = Some ask ∧ ask sender ActionClearRemoval details = true
  end.

Hypothesis counts : counts_read_back lc.
Notation keeps := (keeps sha256 quote lc l).

Lemma unmoved_keeps a a' uid origin f :
  unmoved a a' → keeps uid origin f (w_fs (files a)) →
  w_uid (files a') = w_uid (files a) ∧ keeps uid origin f (w_fs (files a')).
Proof. intros [[-> ->] _] Hk. done. Qed.

Lemma performed_keeps c a a1 a' uid origin f :
  w_uid (files a) = OwnerUID l → unmoved a a1 → exec c a1 = a' → c ≠ CallClearRemoval uid origin →
  keeps uid origin f (w_fs (files a)) →
  w_uid (files a') = OwnerUID l ∧ keeps uid origin f (w_fs (files a')).
Proof using counts lookup_reads.
  intros Ho Hu <- Hc Hk. destruct (unmoved_keeps _ _ _ _ _ Hu Hk) as [Hu1 Hk1].
  eapply (exec_keeps sha256 quote lc) in Hc as [H1 H2]; [split; [exact H1|by apply H2]|done..|congruence].
Qed.

Lemma handle_keeps t a uid origin f :
  w_uid (files a) = OwnerUID l → ¬ clears t uid origin → keeps uid origin f (w_fs (files a)) →
  w_uid (files (handle t a)) = OwnerUID l ∧ keeps uid origin f (w_fs (files (handle t a))).
Proof using counts lookup_reads.
  intros Ho Hc Hk. destruct t as [credentials message now at_|stale s sender c]; cbn [handle clears] in *.
  - destruct (apply credentials message now at_ a) as [r a'] eqn:E. cbn [snd].
    apply apply_calls in E as [[Hu _]|(call & a1 & Hcall & Hu & He & uid' & -> & Hr)];
      [destruct (unmoved_keeps _ _ _ _ _ Hu Hk); split; [congruence|done]|].
    eapply performed_keeps; [done..| |done]. intros ->. apply Hc. unfold call_of_message in Hcall.
    repeat (case_bool_decide || case_match); simplify_eq. split_and!; [|done..]. f_equal.
    destruct Hr as [?|[_ [[Hf _]|[He _]]]]; congruence.
  - destruct (serve_call stale s sender c a) as [r a'] eqn:E. cbn [snd].
    apply serve_calls in E as [[Hu _]|(call & a1 & Hcall & Hu & He & -> & ask & action & details & Ha & Hy & Hd)];
      [destruct (unmoved_keeps _ _ _ _ _ Hu Hk); split; [congruence|done]|].
    eapply performed_keeps; [done..| |done]. intros ->. apply Hc. cbn in Hd. subst action.
    unfold call_of_bus, call_of_signed in Hcall. repeat case_match; simplify_eq. split; [done|]. eauto.
Qed.

(** C1: no account lowers a floor behind the owner's back.  Once an enrolment was
    recorded, whoever asks whatever over the socket and the bus, only an
    enrolment is recorded for that application that does not go back behind it -
    unless root, or the owner of the machine asked over the bus, gave up what its
    removal left. *)
Theorem floor_holds_over_transports e confirmation at_ a a1 ts e' confirmation' at' a2 :
  w_uid (files a) = OwnerUID l →
  record e confirmation at_ a = (Ok tt, a1) →
  (∀ t, t ∈ ts → ¬ clears t (en_UID e) (en_Origin e)) →
  en_UID e' = en_UID e → en_Origin e' = en_Origin e →
  record e' confirmation' at' (handle_all ts a1) = (Ok tt, a2) →
  floor_le (floor_of e) (floor_of e').
Proof using counts lookup_reads.
  intros Ho (Hk & Ho1 & _)%recorded_floor Hts Hu Hor H2; [|done..].
  assert (w_uid (files (handle_all ts a1)) = OwnerUID l ∧
    keeps (en_UID e) (en_Origin e) (floor_of e) (w_fs (files (handle_all ts a1)))) as [Ho2 Hk2].
  { clear H2 Ho. revert a1 Ho1 Hk. induction ts as [|t ts IH]; intros a1 Ho1 Hk; [done|].
    cbn [handle_all foldl]. destruct (handle_keeps t a1 (en_UID e) (en_Origin e) (floor_of e)) as [Ho3 Hk3];
      [done|apply Hts; left|done|]. apply IH; [|done..]. intros t' Ht'. apply Hts. by right. }
  apply recorded_floor in H2 as (_ & _ & Hf); [|done..]. apply Hf. by rewrite Hu, Hor.
Qed.
End Authority.

(** ** An example: an account enrols, and the owner of the machine says no *)
Definition message_example : socketRequest :=
  mkRequest anchorEnrolAction "" "" "" "" "" 0 (Some (anchor_example 1)) None None "" "".
Definition apply_example (message : socketRequest) : SM authority request_error () :=
  apply sha_example (λ s, s) codec_of_two (λ _, None) (λ _, 0%Z) map_to_list ledger_example verify_nothing
    None silent_lookup (Some 1000%N) message 0 (mkMoment 0 0 None).
Definition refusing_owner : Service := mkService (Some (λ _ _ _, false)) None.
Definition serve_example (c : bus_call) : SM authority bus_error () :=
  serve_call sha_example (λ s, s) codec_of_two wire_codec_example (λ _, None) (λ _, 0%Z) map_to_list
    ledger_example verify_nothing None silent_lookup false refusing_owner ":1.7" c.

Lemma silent_lookup_reads p n w r w' : silent_lookup p n w = (r, w') → only_read w w'.
Proof. intros [= _ <-]. by split. Qed.

Lemma socket_unprivileged_witness :
  ∃ e a1 path node, apply_example message_example empty_host = (Ok tt, a1) ∧ en_UID e = 1000%N ∧
    narrows sha_example (λ s, s) codec_of_two ledger_example e (files empty_host) ∧
    w_fs (files a1) !! path = Some node ∧
    elsewhere_kept (λ p, anchorPath ledger_example 1000 (en_Origin e) = Ok p) (w_fs (files empty_host)) (w_fs (files a1)).
Proof.
  destruct (apply_example message_example empty_host) as [[[]|] a1] eqn:E;
    [|exfalso; vm_compute in E; discriminate].
  assert (Some 1000%N ≠ Some 0%N) as Hne by discriminate.
  destruct (socket_unprivileged _ _ _ _ _ _ _ _ _ _ silent_lookup_reads _ _ _ _ _ _ _ Hne E)
    as [[_ Hr]|(uid & Hu & [[Hf _]|(_ & e & _ & Hid & Hn & Hk & Hw)])];
    [exfalso; apply Hr; reflexivity|discriminate|].
  injection Hu as <-. destruct (Hw eq_refl) as (path & x & data & _ & _ & _ & _ & Hfile).
  exists e, a1. eexists path, _. split; [reflexivity|]. split; [exact Hid|]. split; [exact Hn|]. split; [exact Hfile|exact Hk].
Defined.

Lemma bus_asks_first_witness :
  unmoved empty_host (serve_example (CallSetEnforcement "refuse") empty_host).2.
Proof.
  destruct (serve_example (CallSetEnforcement "refuse") empty_host) as [r a'] eqn:E.
  unfold serve_example in E. apply bus_asks_first in E
    as [[Hu _]|(call & ask & action & details & _ & _ & Ha & Hy & _)]; [exact Hu|].
  exfalso. injection Ha as <-. discriminate.
Defined.

Definition transports_example : list transport :=
  [OverBus false refusing_owner ":1.7" (CallClearForgotten 1000 "github.com/acme/tool");
   OverSocket (Some 1000%N) (mkRequest anchorForgetAction "" "github.com/acme/tool" "" "" "" 1000 None None
     None "" "") 0 (mkMoment 0 0 None)].
Definition handle_example : authority → authority :=
  handle_all sha_example (λ s, s) codec_of_two wire_codec_example (λ _, None) (λ _, 0%Z) map_to_list
    ledger_example verify_nothing None silent_lookup transports_example.

Lemma floor_holds_over_transports_witness :
  floor_le (floor_of (enrolment_example 1 None)) (floor_of (enrolment_example 2 None)).
Proof.
  destruct (record_example (enrolment_example 1 None) empty_host) as [[[]|] a1] eqn:E1;
    [|exfalso; vm_compute in E1; discriminate].
  destruct (record_example (enrolment_example 2 None) (handle_example a1)) as [[[]|] a2] eqn:E2.
  2: { exfalso. vm_compute in E1. injection E1 as <-. vm_compute in E2. discriminate. }
  refine (floor_holds_over_transports _ _ _ wire_codec_example _ _ _ _ _ _ silent_lookup _
    codec_of_two_counts _ _ _ _ _ transports_example _ _ _ _ _ E1 _ _ _ E2);
    [intros p n w r w' [= <- <-]; split; reflexivity|reflexivity| |reflexivity|reflexivity].
  intros t [->|[->|H%elem_of_nil]%elem_of_cons]%elem_of_cons; [| |destruct H].
  - intros [_ (ask & details & [= <-] & Hy)]. discriminate.
  - intros [Hc _]. discriminate.
Defined.
