(* ===== verification/Launch.v ===== *)
(** * Launches ([pkg/cpak/verify.go], [measure.go], [composition.go])

    What is about to be started is described by the layers it composes and by the
    policy it runs under, measured against the store, compared with what the
    ledger holds, and refused or let through.  The store is a parameter. *)
From Stdlib Require Import Ascii.
From stdpp Require Import base strings list numbers gmap.
From S2P Require Import Prelude.
From S2P Require Import GoStrings.
From S2P Require Import Hex.
From S2P Require Import Override.
From S2P Require Import Applications.
From S2P Require Import Composition.
From S2P Require Import Integrity.
From S2P Require Import TrustedFiles.
From S2P Require Import Enforcement.
From S2P Require Import TrustPolicy.
From S2P Require Import Roots.
From S2P Require Import Anchor.
From S2P Require Import RecordPaths.
From S2P Require Import Confirmation.
From S2P Require Import Ledger.
From S2P Require Import LedgerFloor.
From stdpp Require Import options.

(** ** Describing an application *)
Definition applicationSelector (a : Application) : string :=
  let source := SourceType a in
  if bool_decide (source = "branch") then source +:+ ":" +:+ ap_Branch a
  else if bool_decide (source = "release") then source +:+ ":" +:+ ap_Release a
  else if bool_decide (source = "commit") then source +:+ ":" +:+ ap_Commit a else source.

Definition dependencyIdentities (dependencies : list Dependency) : list string :=
  (λ d, (if IsLayer d then "layer" else "nested") +:+ ":" +:+ de_Origin d +:+ ":" +:+ de_Id d) <$> dependencies.
Definition addonIdentities (addons : list Application) : list string :=
  (λ a, ap_Origin a +:+ ":" +:+ ap_ImageDigest a) <$> addons.

Definition sessionIdentities (sessions : list Session) : list string := ss_ID <$> sessions.

(** ** The store *)
Inductive states_error : Type := NotInitialized | NotExist | StatesFailed.
Inductive derive_error : Type := LayerNotStored | DeriveFailed.

(** What a launch asks of the store: the binding of a layer, the states its
    repository holds with the newest first, the digest of a state, and how the
    prepared checkouts stand. *)
Class LaunchStore : Type := {
  Lookup : string → result string (option LayerBinding);
  States : string → result states_error (list string);
  layerStateRoot : string → string → result string string;
  storage_is_fuse : result string bool;
  launchCheckoutDirectories : result string (gmap string string);
  verifyPreparedCheckout : string → string → result string (bool * bool)
}.

Record layerFinding : Type := mkFinding { lf_Layer : string; lf_Detail : string }.
Record launchMeasurement : Type := mkMeasurement {
  Disagreements : list layerFinding;
  Unrecorded : list string;
  Unmeasured : list layerFinding
}.

Definition layerNotStored (e : states_error) : bool :=
  match e with NotInitialized | NotExist => true | StatesFailed => false end.

Definition compareLayerState (recorded derived : LayerBinding) : option string :=
  if negb (bool_decide (StateID recorded = StateID derived)) then
    Some ("the store serves state " +:+ StateID derived +:+ " where " +:+ StateID recorded +:+ " was recorded")
  else if negb (bool_decide (StateRoot recorded = StateRoot derived)) then
    Some ("state " +:+ StateID recorded +:+ " digests to " +:+ StateRoot derived +:+ " where " +:+
      StateRoot recorded +:+ " was recorded")
  else None.

Inductive launch_error : Type :=
  | BindingUnread (layer : string) | LaunchUnboundError (layer : string) | NotComposed (e : root_error)
  | PolicyUnderived (e : policy_root_error) | Unmeasurable.

Section Launch.
Context (sha256 quote : string → string) (lc : ledger_codec) (l : AnchorLedger).
Context {store : LaunchStore}.

Definition configurationDigest (configuration : string) : string :=
  "sha256:" +:+ hex_encode (sha256 configuration).

(** ** Describing a launch *)
Fixpoint bind_layers (layers : list string) : result launch_error (list LayerBinding) :=
  match layers with
  | [] => Ok []
  | digest :: layers =>
      binding ← wrap (λ _, BindingUnread digest) (Lookup digest);
      match binding with
      | None => Err (LaunchUnboundError digest)
      | Some binding => rest ← bind_layers layers; Ok (binding :: rest)
      end
  end.

Definition launchPackage (app : Application) (components addons : list Application) :
    result launch_error Package :=
  layers ← bind_layers (composedLayers app components addons);
  Ok (mkPackage (ap_Origin app) (applicationSelector app) (ap_Version app) "" (ap_ImageDigest app)
    (configurationDigest (ap_Config app)) layers (dependencyIdentities (ap_ParsedDependencies app))
    (addonIdentities addons) (ap_ParsedBinaries app) (ap_ParsedDesktopEntries app)
    (sessionIdentities (ap_ParsedSessions app))).

Definition launchPackageRoot (app : Application) (components addons : list Application) :
    result launch_error string :=
  described ← launchPackage app components addons;
  wrap NotComposed (Root sha256 described).

(** ** Measuring it *)
Definition deriveLayerState (digest : string) : result derive_error LayerBinding :=
  match States digest with
  | Err e => Err (if layerNotStored e then LayerNotStored else DeriveFailed)
  | Ok [] => Err LayerNotStored
  | Ok (id :: _) =>
      root ← wrap (λ _, DeriveFailed) (layerStateRoot digest id);
      Ok (mkLayer digest id root)
  end.

Definition disagrees (m : launchMeasurement) (f : layerFinding) : launchMeasurement :=
  mkMeasurement (Disagreements m ++ [f]) (Unrecorded m) (Unmeasured m).
Definition unmeasured (m : launchMeasurement) (f : layerFinding) : launchMeasurement :=
  mkMeasurement (Disagreements m) (Unrecorded m) (Unmeasured m ++ [f]).
Definition unrecorded (m : launchMeasurement) (layer : string) (f : layerFinding) : launchMeasurement :=
  mkMeasurement (Disagreements m) (Unrecorded m ++ [layer]) (Unmeasured m ++ [f]).

Fixpoint measureLaunchStates (m : launchMeasurement) (layers : list string) :
    result launch_error launchMeasurement :=
  match layers with
  | [] => Ok m
  | layer :: layers =>
      binding ← wrap (λ _, BindingUnread layer) (Lookup layer);
      match binding with
      | None => measureLaunchStates m layers
      | Some recorded =>
          match deriveLayerState layer with
          | Err LayerNotStored =>
              measureLaunchStates (unmeasured m (mkFinding layer
                ("the layer is not held as a store repository: " +:+ layer))) layers
          | Err DeriveFailed => Err Unmeasurable
          | Ok derived =>
              match compareLayerState recorded derived with
              | None => measureLaunchStates m layers
              | Some detail => measureLaunchStates (disagrees m (mkFinding layer detail)) layers
              end
          end
      end
  end.

Fixpoint measure_checkouts (directories : gmap string string) (m : launchMeasurement)
    (layers : list string) : result launch_error launchMeasurement :=
  match layers with
  | [] => Ok m
  | layer :: layers =>
      match directories !! layer with
      | None => measure_checkouts directories m layers
      | Some directory =>
          answer ← wrap (λ _, Unmeasurable) (verifyPreparedCheckout layer directory);
          let '(found, matching) := answer in
          if negb found then
            measure_checkouts directories (unrecorded m layer (mkFinding layer
              "no state the store holds describes its prepared checkout")) layers
          else if (matching : bool) then measure_checkouts directories m layers
          else measure_checkouts directories (disagrees m (mkFinding layer
            ("the prepared checkout " +:+ directory +:+
             " is not the shape the state it was made from describes"))) layers
      end
  end.

Definition measureLaunchCheckouts (m : launchMeasurement) (layers : list string) :
    result launch_error launchMeasurement :=
  fuse ← wrap (λ _, Unmeasurable) storage_is_fuse;
  if (fuse : bool) then Ok m
  else
    directories ← wrap (λ _, Unmeasurable) launchCheckoutDirectories;
    measure_checkouts directories m layers.

Definition measureLaunch (layers : list string) : result launch_error launchMeasurement :=
  m ← measureLaunchStates (mkMeasurement [] [] []) layers;
  measureLaunchCheckouts m layers.

(** ** The verdict *)
Inductive LaunchVerdict : Type :=
  | LaunchNotVerified | LaunchUnverifiable | LaunchUnenrolled | LaunchUnbound | LaunchRecognised
  | LaunchUnrecognised | LaunchTampered.

Record LaunchIdentity : Type := mkIdentityOf {
  li_Verdict : LaunchVerdict;
  li_UID : N;
  li_Origin : string;
  li_PackageRoot : string;
  li_PolicyRoot : string;
  li_LaunchRoot : string;
  li_Anchor : option Anchor;
  li_Reason : option ledger_error;
  li_Disagreements : list string;
  li_Unmeasured : list string
}.

Definition findingReasons (findings : list layerFinding) : list string :=
  (λ f, lf_Layer f +:+ ": " +:+ lf_Detail f) <$> findings.

Definition with_verdict (i : LaunchIdentity) (v : LaunchVerdict) (reason : option ledger_error)
    (disagreements : list string) (anchor : option Anchor) : LaunchIdentity :=
  mkIdentityOf v (li_UID i) (li_Origin i) (li_PackageRoot i) (li_PolicyRoot i) (li_LaunchRoot i) anchor
    reason disagreements (li_Unmeasured i).

(** The switch on the anchor: [root] is [None] for a launch a layer of which is
    not bound. *)
Definition verdict_against (anchor : option Anchor) (sessionID : string) (root : option string)
    (m : launchMeasurement) (launchRoot : string) : LaunchVerdict :=
  let recorded :=
    if bool_decide (sessionID = "") then Some (from_option an_LaunchRoot "" anchor)
    else (anchor ≫= λ a, an_SessionRoots a !! sessionID) in
  match recorded with
  | None => LaunchUnenrolled
  | Some recorded =>
      match anchor with
      | None => LaunchUnenrolled
      | Some _ =>
          if is_nil root || negb (empty (Unrecorded m)) then LaunchUnbound
          else if bool_decide (launchRoot = recorded) then LaunchRecognised else LaunchUnrecognised
      end
  end.

(** [getuid]: the account that asks. *)
Definition verifySessionLaunch (getuid : N) (app : Application) (override : Override)
    (sessionID : string) (components addons : list Application) : M launch_error LaunchIdentity :=
  root ← lift (match launchPackageRoot app components addons with
               | Ok root => Ok (Some root)
               | Err (LaunchUnboundError _) => Ok None
               | Err e => Err e
               end);
  policyRoot ← lift (wrap PolicyUnderived (PolicyRoot sha256 override));
  measurement ← lift (measureLaunch (composedLayers app components addons));
  let launchRoot := from_option (λ root, LaunchRoot sha256 root policyRoot) "" root in
  let identity := mkIdentityOf LaunchNotVerified getuid (ap_Origin app) (default "" root) policyRoot
    launchRoot None None [] (findingReasons (Unmeasured measurement)) in
  if negb (empty (Disagreements measurement)) then
    mret (with_verdict identity LaunchTampered None (findingReasons (Disagreements measurement)) None)
  else
    loaded ← try (Load sha256 quote lc l getuid (ap_Origin app));
    mret match loaded with
    | Err e => with_verdict identity LaunchUnverifiable (Some e) [] None
    | Ok anchor =>
        with_verdict identity (verdict_against anchor sessionID root measurement launchRoot) None [] anchor
    end.

Inductive refusal : Type :=
  | errLaunchTampered (disagreements : list string) | errLaunchUnbound | errLaunchUnrecognised
  | errLaunchUnenrolled (v : LaunchVerdict) (reason : option ledger_error) | errNotVerified.

Definition unclaimedLaunchRefusal (level : string) (i : LaunchIdentity) : option refusal :=
  if negb (bool_decide (level = EnforcementRefuse)) then None
  else Some (errLaunchUnenrolled (li_Verdict i) (li_Reason i)).

Definition launchRefusal (level : string) (i : LaunchIdentity) : option refusal :=
  match li_Verdict i with
  | LaunchRecognised => None
  | LaunchTampered => Some (errLaunchTampered (li_Disagreements i))
  | LaunchUnbound => Some errLaunchUnbound
  | LaunchUnrecognised => Some errLaunchUnrecognised
  | LaunchUnenrolled | LaunchUnverifiable => unclaimedLaunchRefusal level i
  | LaunchNotVerified => Some errNotVerified
  end.

(** [systemauthority.Enforcement], which has no error. *)
Definition launchEnforcement : M launch_error string :=
  answer ← try (Enforcement (settings l));
  mret (match answer with Ok level => level | Err _ => EnforcementOff end).

Definition gateSessionLaunch (getuid : N) (app : Application) (override : Override)
    (sessionID : string) (components addons : list Application) :
    M launch_error (LaunchIdentity * option refusal) :=
  identity ← verifySessionLaunch getuid app override sessionID components addons;
  level ← launchEnforcement;
  mret (identity, launchRefusal level identity).

Definition verifyLaunch (getuid : N) (app : Application) (override : Override)
    (components addons : list Application) : M launch_error LaunchIdentity :=
  verifySessionLaunch getuid app override "" components addons.
Definition gateLaunch (getuid : N) (app : Application) (override : Override)
    (components addons : list Application) : M launch_error (LaunchIdentity * option refusal) :=
  gateSessionLaunch getuid app override "" components addons.
End Launch.

(** ** What a clean measurement says *)
Section Measured.
Context {store : LaunchStore}.

(** Nothing the store can be asked about a layer contradicts what it recorded. *)
Definition state_agrees (layer : string) : Prop :=
  ∀ recorded, Lookup layer = Ok (Some recorded) →
    match deriveLayerState layer with
    | Ok derived => StateID derived = StateID recorded ∧ StateRoot derived = StateRoot recorded
    | Err e => e = LayerNotStored
    end.
Definition checkout_agrees (directories : gmap string string) (layer : string) : Prop :=
  ∀ directory, directories !! layer = Some directory →
    verifyPreparedCheckout layer directory ≠ Ok (true, false).
(** A state of the store describes the checkout the layer is served from. *)
Definition checkout_described (directories : gmap string string) (layer : string) : Prop :=
  ∀ directory, directories !! layer = Some directory →
    ∃ matching, verifyPreparedCheckout layer directory = Ok (true, matching).

Lemma compare_none recorded derived :
  compareLayerState recorded derived = None ↔
    StateID derived = StateID recorded ∧ StateRoot derived = StateRoot recorded.
Proof.
  unfold compareLayerState. destruct (bool_decide_reflect (StateID recorded = StateID derived)); cbn [negb];
    [|split; [done|intros []; congruence]].
  destruct (bool_decide_reflect (StateRoot recorded = StateRoot derived)); cbn [negb];
    split; try done; intros []; congruence.
Qed.

Lemma measure_states_spec layers m m' :
  measureLaunchStates m layers = Ok m' →
  Unrecorded m' = Unrecorded m ∧
  (Disagreements m' = [] ↔ Disagreements m = [] ∧ ∀ layer, layer ∈ layers → state_agrees layer).
Proof.
  revert m. induction layers as [|layer layers IH]; intros m; cbn [measureLaunchStates].
  { intros [= <-]. split; [done|]. split; [|by intros []]. intros ->. split; [done|]. by intros x ?%elem_of_nil. }
  intros (binding & Hb%wrap_ok & H)%bind_ok.
  assert (∀ m1, measureLaunchStates m1 layers = Ok m' → Unrecorded m1 = Unrecorded m →
    (Disagreements m1 = [] ↔ Disagreements m = [] ∧ state_agrees layer) →
    Unrecorded m' = Unrecorded m ∧
    (Disagreements m' = [] ↔ Disagreements m = [] ∧ ∀ x, x ∈ layer :: layers → state_agrees x)) as Hstep.
  { intros m1 [Hu Hd]%IH Hu1 Hd1. split; [congruence|]. rewrite Hd, Hd1. split.
    - intros [[H1 H2] H3]. split; [done|]. intros x [->|Hx]%elem_of_cons; [done|by apply H3].
    - intros [H1 H2]. split; [split; [done|apply H2; left]|]. intros x Hx. apply H2. by right. }
  unfold state_agrees in Hstep at 1. destruct binding as [recorded|].
  2: { apply (Hstep _ H); [done|]. split; [|by intros []]. intros Hd. split; [done|]. intros r Hr. congruence. }
  assert (∀ r, Lookup layer = Ok (Some r) → r = recorded) as Hr by (intros r; rewrite Hb; by intros [= ->]).
  destruct (deriveLayerState layer) as [derived|[]] eqn:Ed; [| |done].
  - destruct (compareLayerState recorded derived) as [detail|] eqn:Ec.
    + apply (Hstep _ H); [done|]. cbn. split; [by intros []%app_nil|]. intros [_ Ha].
      apply (Ha recorded), compare_none in Hb. congruence.
    + apply (Hstep _ H); [done|]. apply compare_none in Ec. split; [|by intros []].
      intros Hd. split; [done|]. by intros r ->%Hr.
  - apply (Hstep _ H); [done|]. cbn. split; [|by intros []]. intros Hd. by split.
Qed.

Lemma measure_checkouts_spec directories layers m m' :
  measure_checkouts directories m layers = Ok m' →
  (Disagreements m' = [] ↔ Disagreements m = [] ∧
     ∀ layer, layer ∈ layers → checkout_agrees directories layer) ∧
  (Unrecorded m' = [] ↔ Unrecorded m = [] ∧
     ∀ layer, layer ∈ layers → checkout_described directories layer).
Proof.
  revert m. induction layers as [|layer layers IH]; intros m; cbn [measure_checkouts].
  { intros [= <-]. split; (split; [|by intros []]); intros ->; (split; [done|]); by intros x ?%elem_of_nil. }
  assert (∀ m1, measure_checkouts directories m1 layers = Ok m' →
    (Disagreements m1 = [] ↔ Disagreements m = [] ∧ checkout_agrees directories layer) →
    (Unrecorded m1 = [] ↔ Unrecorded m = [] ∧ checkout_described directories layer) →
    (Disagreements m' = [] ↔ Disagreements m = [] ∧
       ∀ x, x ∈ layer :: layers → checkout_agrees directories x) ∧
    (Unrecorded m' = [] ↔ Unrecorded m = [] ∧
       ∀ x, x ∈ layer :: layers → checkout_described directories x)) as Hstep.
  { intros m1 [Hd Hu]%IH Hd1 Hu1. rewrite Hd, Hd1, Hu, Hu1. setoid_rewrite elem_of_cons. clear. naive_solver. }
  unfold checkout_agrees at 1 in Hstep. unfold checkout_described at 1 in Hstep.
  destruct (directories !! layer) as [directory|] eqn:El.
  2: { intros H. apply (Hstep m H); (split; [|by intros []]); intros ?; (split; [done|]); intros d ?; congruence. }
  intros ([found matching] & Hv%wrap_ok & H)%bind_ok.
  destruct found; cbn [negb] in H; [destruct matching|].
  - apply (Hstep m H); (split; [|by intros []]); intros ?; (split; [done|]); intros d [= <-]; rewrite Hv; eauto.
  - apply (Hstep _ H); cbn.
    + split; [by intros []%app_nil|]. intros [_ Ha]. by destruct (Ha directory).
    + split; [|by intros []]. intros ?. split; [done|]. intros d [= <-]. rewrite Hv. eauto.
  - apply (Hstep _ H); cbn.
    + split; [|by intros []]. intros ?. split; [done|]. intros d [= <-]. by rewrite Hv.
    + split; [by intros []%app_nil|]. intros [_ Ha]. destruct (Ha directory eq_refl) as [x Hx]. congruence.
Qed.

(** A launch is measured as clean exactly when nothing the store recorded is
    contradicted: the newest state of every bound layer that is stored is the one
    recorded for it, with the recorded digest, and - unless the repositories are
    mounted through FUSE - no prepared checkout differs from the state it was
    made from.  Every checkout is described by a state exactly when no layer is
    listed as unrecorded. *)
Theorem measure_clean layers m :
  measureLaunch layers = Ok m →
  let checkouts P := storage_is_fuse = Ok false → ∀ directories,
    launchCheckoutDirectories = Ok directories → ∀ layer, layer ∈ layers → P directories layer in
  (Disagreements m = [] ↔
    (∀ layer, layer ∈ layers → state_agrees layer) ∧ checkouts checkout_agrees) ∧
  (Unrecorded m = [] ↔ checkouts checkout_described).
Proof.
  intros (m1 & [Hu1 Hd1]%measure_states_spec & H)%bind_ok. cbv zeta.
  apply bind_ok in H as (fuse & Hf%wrap_ok & H). rewrite Hf. destruct fuse.
  - injection H as <-. rewrite Hd1, Hu1. cbn. split; [|done].
    split; [intros [_ ?]; by split|intros [? _]; by split].
  - apply bind_ok in H as (directories & Hdirs%wrap_ok & [Hd Hu]%measure_checkouts_spec).
    rewrite Hd, Hd1, Hu, Hu1, Hdirs. cbn. clear. naive_solver.
Qed.
End Measured.

(** ** What is let through *)
Section Gate.
Context (sha256 quote : string → string) (lc : ledger_codec) (l : AnchorLedger).
Context {store : LaunchStore}.

(** The launch is the one the ledger's record of the application names. *)
Definition enrolled_launch (uid : N) (app : Application) (override : Override) (sessionID : string)
    (components addons : list Application) (fs : gmap string node) : Prop :=
  ∃ e path data root policyRoot,
    anchorPath l uid (ap_Origin app) = Ok path ∧ trusted_file fs path (OwnerUID l) data ∧
    read_enrolment sha256 quote lc uid (ap_Origin app) data = Ok e ∧
    launchPackageRoot sha256 app components addons = Ok root ∧ PolicyRoot sha256 override = Ok policyRoot ∧
    if bool_decide (sessionID = "")
    then an_LaunchRoot (en_Anchor e) = LaunchRoot sha256 root policyRoot
    else an_SessionRoots (en_Anchor e) !! sessionID = Some (LaunchRoot sha256 root policyRoot).

(** Every layer was measured, and nothing was contradicted. *)
Definition measured_clean (app : Application) (components addons : list Application) (complete : bool) : Prop :=
  ∃ m, measureLaunch (composedLayers app components addons) = Ok m ∧ Disagreements m = [] ∧
    (complete = true → Unrecorded m = []).

Lemma against_recognised anchor sessionID root m launchRoot :
  verdict_against anchor sessionID root m launchRoot = LaunchRecognised →
  ∃ a r, anchor = Some a ∧ root = Some r ∧ Unrecorded m = [] ∧
    if bool_decide (sessionID = "") then an_LaunchRoot a = launchRoot
    else an_SessionRoots a !! sessionID = Some launchRoot.
Proof.
  unfold verdict_against. destruct (bool_decide (sessionID = "")).
  - destruct anchor as [a|]; [|done]. destruct root as [r|]; [|done]. cbn.
    destruct (Unrecorded m); [|done]. cbn. case_bool_decide; [|done]. intros _. by exists a, r.
  - destruct anchor as [a|]; [|done]. cbn. destruct (an_SessionRoots a !! sessionID) as [x|] eqn:E; [|done].
    destruct root as [r|]; [|done]. cbn. destruct (Unrecorded m); [|done]. cbn.
    case_bool_decide; [|done]. subst. intros _. by exists a, r.
Qed.

Lemma verify_session_spec getuid app override sessionID components addons w identity w' :
  verifySessionLaunch sha256 quote lc l getuid app override sessionID components addons w =
    (Ok identity, w') →
  only_read w w' ∧
  (li_Verdict identity = LaunchTampered ∨ measured_clean app components addons false) ∧
  li_Verdict identity ≠ LaunchNotVerified ∧
  (li_Verdict identity = LaunchRecognised →
    measured_clean app components addons true ∧
    enrolled_launch getuid app override sessionID components addons (w_fs w)).
Proof.
  unfold verifySessionLaunch. rewrite bind_lift.
  set (described := launchPackageRoot sha256 app components addons).
  destruct (match described with Ok _ => _ | Err _ => _ end) as [root|] eqn:Er; [|done].
  assert (∀ r, root = Some r → described = Ok r) as Hroot.
  { intros r ->. destruct described as [x|[]]; try done. by injection Er as ->. }
  rewrite bind_lift. destruct (wrap _ _) as [policyRoot|] eqn:Ep; [|done]. apply wrap_ok in Ep.
  rewrite bind_lift. destruct (measureLaunch _) as [m|] eqn:Em; [|done]. cbv zeta.
  destruct (Disagreements m) as [|d ds] eqn:Ed; cbn [TrustPolicy.empty negb].
  2: { intros [= <- <-]. cbn. split_and!; [done|by left|done|done]. }
  rewrite bind_try. unfold Load.
  destruct ((Recorded sha256 quote lc l getuid (ap_Origin app) ≫= _) w) as [loaded w1] eqn:El.
  apply bind_M in El as [(recorded & w2 & Hrec & El)|(e & Hrec & ->)].
  - injection El as <- <-. apply read_slot_spec in Hrec as [Hr Hrec].
    intros [= <- <-]. cbn [li_Verdict with_verdict]. split_and!; [done|right; by exists m| |].
    + unfold verdict_against. repeat case_match; done.
    + intros (a & r & Ha & -> & Hu & Hl)%against_recognised.
      destruct recorded as [e|]; [|done]. injection Ha as <-.
      destruct Hrec as (path & data & Hp & Ht & Hd & _). split; [by exists m|].
      exists e, path, data, r, policyRoot. split_and!; [done|done|done|by apply Hroot|done|].
      by destruct (bool_decide (sessionID = "")).
  - apply read_slot_spec in Hrec as [Hr _]. intros [= <- <-]. cbn. split_and!; [done|right; by exists m|done|done].
Qed.

(** C3: a launch is let through only if nothing the store recorded of its layers
    is contradicted, and then either it is the one a trusted record of the ledger
    names for this account and application - with every layer bound and every
    checkout described - or nothing claims what it should be and the host does
    not refuse such launches. *)
Theorem gate_lets_through getuid app override sessionID components addons w identity w' :
  gateSessionLaunch sha256 quote lc l getuid app override sessionID components addons w =
    (Ok (identity, None), w') →
  only_read w w' ∧
  measured_clean app components addons false ∧
  (measured_clean app components addons true ∧
     enrolled_launch getuid app override sessionID components addons (w_fs w) ∨
   (li_Verdict identity = LaunchUnenrolled ∨ li_Verdict identity = LaunchUnverifiable) ∧
     ∃ w1 level, only_read w w1 ∧ launchEnforcement l w1 = (Ok level, w') ∧ level ≠ EnforcementRefuse).
Proof.
  unfold gateSessionLaunch. intros H. step_ok H.
  apply verify_session_spec in Hstep as (Hr & Hm & Hv & Hrec).
  step_ok H. rename x1 into level, x2 into w2. injection H as -> Hrefusal <-.
  assert (only_read x0 w2) as Hr2.
  { unfold launchEnforcement in Hstep. rewrite bind_try in Hstep.
    destruct (Enforcement (settings l) x0) as [answer w3] eqn:E.
    destruct (level_answer (settings l) x0) as (lv & w4 & E' & Hr' & _). rewrite E in E'. injection E' as -> ->.
    injection Hstep as _ <-. done. }
  split; [by etrans|]. unfold launchRefusal, unclaimedLaunchRefusal in Hrefusal.
  destruct (li_Verdict identity) eqn:Ev; try done.
  - split; [by destruct Hm|]. right. split; [by right|]. exists x0, level. split_and!; [done..|].
    by case_bool_decide.
  - split; [by destruct Hm|]. right. split; [by left|]. exists x0, level. split_and!; [done..|].
    by case_bool_decide.
  - destruct (Hrec eq_refl). split; [by destruct Hm|]. by left.
Qed.

(** The layer is bound, and nothing the store or its prepared checkout says of it
    differs from what was recorded: the newest state that is stored is the one bound,
    with the digest bound, and a state of the store describes the checkout and
    matches it. *)
Definition stands_as_recorded (layer : string) : Prop :=
  (∃ recorded, Lookup layer = Ok (Some recorded) ∧
    (deriveLayerState layer = Err LayerNotStored ∨
     ∃ derived, deriveLayerState layer = Ok derived ∧
       StateID derived = StateID recorded ∧ StateRoot derived = StateRoot recorded)) ∧
  (storage_is_fuse = Ok false → ∀ directories directory, launchCheckoutDirectories = Ok directories →
    directories !! layer = Some directory → verifyPreparedCheckout layer directory = Ok (true, true)).

Lemma bind_layers_bound layers bindings :
  bind_layers layers = Ok bindings → ∀ layer, layer ∈ layers → ∃ recorded, Lookup layer = Ok (Some recorded).
Proof.
  revert bindings. induction layers as [|x layers IH]; intros bindings H layer Hin; [by apply not_elem_of_nil in Hin|].
  cbn in H. apply bind_ok in H as ([binding|] & Hb%wrap_ok & H); [|done]. apply bind_ok in H as (rest & Hr & _).
  apply elem_of_cons in Hin as [->|Hin]; [by exists binding|by eapply IH].
Qed.

Lemma root_bound app components addons root :
  launchPackageRoot sha256 app components addons = Ok root →
  ∀ layer, layer ∈ composedLayers app components addons → ∃ recorded, Lookup layer = Ok (Some recorded).
Proof.
  unfold launchPackageRoot, launchPackage. intros (p & Hp & _)%bind_ok. apply bind_ok in Hp as (bs & Hb & _).
  by eapply bind_layers_bound.
Qed.

Lemma clean_stands app components addons root layer :
  measured_clean app components addons true → launchPackageRoot sha256 app components addons = Ok root →
  layer ∈ composedLayers app components addons → stands_as_recorded layer.
Proof.
  intros (m & Hm & Hd & Hu) Hroot Hin. apply measure_clean in Hm as [Hda Hua]. apply Hda in Hd as [Hs Hc].
  rewrite Hua in Hu. specialize (Hu eq_refl). split.
  - destruct (root_bound _ _ _ _ Hroot _ Hin) as (recorded & Hr). exists recorded. split; [done|].
    specialize (Hs _ Hin recorded Hr). destruct (deriveLayerState layer) as [derived|e]; [right; by exists derived|left; by subst].
  - intros Hf directories directory Hdirs Hdir.
    destruct (Hu Hf _ Hdirs _ Hin _ Hdir) as [[] Hv]; [done|]. by destruct (Hc Hf _ Hdirs _ Hin _ Hdir).
Qed.

Lemma enrolled_roots uid app override sessionID components addons fs :
  enrolled_launch uid app override sessionID components addons fs →
  ∃ path data e root policyRoot,
    anchorPath l uid (ap_Origin app) = Ok path ∧ trusted_file fs path (OwnerUID l) data ∧
    read_enrolment sha256 quote lc uid (ap_Origin app) data = Ok e ∧ sound_enrolment sha256 quote e ∧
    en_UID e = uid ∧ en_Origin e = ap_Origin app ∧
    launchPackageRoot sha256 app components addons = Ok root ∧ PolicyRoot sha256 override = Ok policyRoot ∧
    if bool_decide (sessionID = "")
    then root = an_PackageRoot (en_Anchor e) ∧ policyRoot = en_PolicyRoot e ∨ collision sha256
    else an_SessionRoots (en_Anchor e) !! sessionID = Some (LaunchRoot sha256 root policyRoot).
Proof.
  intros (e & path & data & root & policyRoot & Hpath & Ht & Hd & Hroot & Hpolicy & Hl).
  exists path, data, e, root, policyRoot. pose proof (recorded_subject _ _ _ _ _ _ _ Hd) as [Hu Ho].
  pose proof (recorded_sound _ _ _ _ _ _ _ Hd) as Hs.
  split_and!; [done..|]. case_bool_decide; [|done]. rewrite (se_launch _ _ _ Hs) in Hl.
  destruct (se_roots _ _ _ Hs) as [H1 H2].
  apply launch_roots_agree in Hl as [[<- <-]|?]; [by left|by right|done|done| |].
  - unfold launchPackageRoot in Hroot. apply bind_ok in Hroot as (p & _ & Hp%wrap_ok).
    by eapply root_no_newline.
  - by eapply policy_root_no_newline.
Qed.

(** C30: what it takes for a launch to be recognised.  When the verification answers
    that it is, every layer the launch composes is bound and stands as it was
    recorded, and a trusted record of the ledger for this account and application,
    one that holds together, names the launch: the roots of the package and of the
    policy it runs under now are the roots recorded, or they exhibit a collision of
    SHA-256; for a session, its launch root is the one recorded under the name of the
    session.  The answer reports those roots, and verifying changes no file. *)
Theorem recognised_launch_is_enrolled getuid app override sessionID components addons w identity w' :
  verifySessionLaunch sha256 quote lc l getuid app override sessionID components addons w = (Ok identity, w') →
  li_Verdict identity = LaunchRecognised →
  only_read w w' ∧
  (∀ layer, layer ∈ composedLayers app components addons → stands_as_recorded layer) ∧
  ∃ path data e root policyRoot,
    anchorPath l getuid (ap_Origin app) = Ok path ∧ trusted_file (w_fs w) path (OwnerUID l) data ∧
    read_enrolment sha256 quote lc getuid (ap_Origin app) data = Ok e ∧ sound_enrolment sha256 quote e ∧
    en_UID e = getuid ∧ en_Origin e = ap_Origin app ∧
    launchPackageRoot sha256 app components addons = Ok root ∧ PolicyRoot sha256 override = Ok policyRoot ∧
    (if bool_decide (sessionID = "")
     then root = an_PackageRoot (en_Anchor e) ∧ policyRoot = en_PolicyRoot e ∨ collision sha256
     else an_SessionRoots (en_Anchor e) !! sessionID = Some (LaunchRoot sha256 root policyRoot)) ∧
    li_PackageRoot identity = root ∧ li_PolicyRoot identity = policyRoot ∧
    li_LaunchRoot identity = LaunchRoot sha256 root policyRoot ∧
    li_UID identity = getuid ∧ li_Origin identity = ap_Origin app ∧ li_Disagreements identity = [].
Proof.
  intros H Hv. pose proof H as (Hr & _ & _ & Hrec)%verify_session_spec. destruct (Hrec Hv) as [Hclean Henrolled].
  apply enrolled_roots in Henrolled as (path & data & e & root & policyRoot & Hp & Ht & Hd & Hs & Hu & Ho & Hroot & Hpolicy & Hl).
  split; [done|]. split; [intros layer; by eapply clean_stands|].
  exists path, data, e, root, policyRoot. do 9 (split; [done|]). clear Hl Hclean Hrec Hs Ht Hd.
  unfold verifySessionLaunch in H. rewrite bind_lift, Hroot, bind_lift, Hpolicy in H. cbn [wrap] in H.
  rewrite bind_lift in H. destruct (measureLaunch _) as [m|] eqn:Em; [|done]. cbv zeta in H.
  destruct (Disagreements m) as [|d ds]; cbn [TrustPolicy.empty negb] in H; [|by injection H as <- _].
  rewrite bind_try in H. destruct (Load _ _ _ _ _ _ w) as [loaded w1].
  injection H as <- _. by destruct loaded.
Qed.
End Gate.

(** ** An example: one application of one layer *)
Definition app_example : Application :=
  mkApplication "tool-id" "tool" "1.0" "main" "" "" "github.com/acme/tool" "{}" "" "sha256:1b" "" ["l1"; ""; "l1"]
    [] ["tool"] [] [] [] None 0 [] NewOverride false "".
#[local] Instance store_example : LaunchStore := {|
  Lookup := λ digest, Ok (Some (mkLayer digest "state" "root"));
  States := λ _, Ok ["state"];
  layerStateRoot := λ _ _, Ok "root";
  storage_is_fuse := Ok false;
  launchCheckoutDirectories := Ok {[ "l1" := "/checkouts/l1" ]};
  verifyPreparedCheckout := λ _ _, Ok (true, true)
|}.
Definition override_example : Override := policy_example [] [].

Lemma measure_clean_witness : state_agrees "l1".
Proof.
  destruct (measureLaunch ["l1"]) as [m|] eqn:E; [|exfalso; vm_compute in E; discriminate].
  apply (proj1 (proj1 (measure_clean ["l1"] m E))); [|left].
  vm_compute in E. injection E as <-. reflexivity.
Defined.

Lemma gate_lets_through_witness : measured_clean app_example [] [] false.
Proof.
  destruct (gateSessionLaunch sha_example (λ s, s) codec_of_two ledger_example 1000 app_example
    override_example "" [] [] (files empty_host)) as [[[identity [refused|]]|] w'] eqn:E;
    [exfalso; vm_compute in E; discriminate| |exfalso; vm_compute in E; discriminate].
  exact (proj1 (proj2 (gate_lets_through _ _ _ _ _ _ _ _ _ _ _ _ _ E))).
Defined.

(** The application, recorded and then verified. *)
Definition verified_example (w : world) : result launch_error LaunchIdentity * world :=
  verifySessionLaunch sha_example (λ s, s) codec_of_two ledger_example 1000 app_example override_example "" [] [] w.

Lemma recognised_launch_is_enrolled_witness :
  stands_as_recorded "l1" ∧ ∃ e, en_UID e = 1000%N ∧ en_Origin e = "github.com/acme/tool" ∧
    sound_enrolment sha_example (λ s, s) e.
Proof.
  destruct (record_example (enrolment_example 1 None) empty_host) as [[[]|] a1] eqn:E1;
    [|exfalso; vm_compute in E1; discriminate].
  destruct (verified_example (Ledger.files a1)) as [[identity|] w'] eqn:E2;
    [|exfalso; vm_compute in E1; injection E1 as <-; vm_compute in E2; discriminate].
  assert (li_Verdict identity = LaunchRecognised) as Hv.
  { vm_compute in E1. injection E1 as <-. vm_compute in E2. injection E2 as <- _. reflexivity. }
  destruct (recognised_launch_is_enrolled _ _ _ _ _ _ _ _ _ _ _ _ _ E2 Hv)
    as (_ & Hlayers & _ & _ & e & _ & _ & _ & _ & _ & Hs & Hu & Ho & _).
  split.
  - apply Hlayers. vm_compute. left.
  - exists e. split; [exact Hu|split; [exact Ho|exact Hs]].
Defined.
