(* ===== verification/Checkout.v ===== *)
(** * Prepared checkouts: what a state describes ([pkg/cpak/checkout.go])

    A launch mounts the tree the storage driver prepared out of one state of a
    layer.  What that tree must look like is derived from the entry list of the
    state; the walk it is compared with is in [CheckoutWalk.v]. *)
From Stdlib Require Import Ascii.
From stdpp Require Import base strings list sorting gmap numbers pretty.
From S2P Require Import Prelude.
From S2P Require Import GoStrings.
From S2P Require Import Utf8.
From S2P Require Import GoPath.
From S2P Require Import Hex.
From S2P Require Import RecordPaths.
From stdpp Require Import options.

(** ** Entries *)

(** An entry of a state, with the fields the code reads of it. *)
Record FileEntry : Type := mkFile {
  fe_Path : string;
  fe_Kind : string;
  fe_Mode : N;
  fe_Size : Z;
  fe_Link : string;
  fe_ContentDigest : string
}.

Record checkoutEntry : Type := mkEntry {
  ce_path : string;
  ce_kind : string;
  ce_mode : N;
  ce_fixed : bool;
  ce_size : Z;
  ce_link : string
}.
#[export] Instance checkoutEntry_eq_dec : EqDecision checkoutEntry.
Proof. solve_decision. Defined.

Record checkoutShape : Type := mkShape {
  cs_state : string;
  cs_digest : string;
  cs_loose : gset string;
  cs_contents : gmap string string
}.

(** The zero shape, which was not derived from anything. *)
Definition no_shape : checkoutShape := mkShape "" "" ∅ ∅.
Definition derived (s : checkoutShape) : bool := negb (bool_decide (cs_digest s = "")).

Definition checkoutWhiteoutPrefix : string := ".wh.".
Definition checkoutOpaqueMarker : string := ".wh..wh..opq".
Definition checkoutWhiteoutMode : N := 384.
Definition checkoutRecordFormat : Z := 2.
Definition ABIVersion : Z := 1.

(** The kinds of entry of the store, which are constants of its package: a
    [switch] of the code names the last three, which makes them distinct. *)
Class FvsKinds : Type := {
  EntryDir : string;
  EntryFile : string;
  EntrySymlink : string;
  EntryHardlink : string;
  EntryFIFO : string
}.
Class FvsKindsDistinct (K : FvsKinds) : Prop := kinds_distinct :
  NoDup [""; EntryDir; EntryFile; EntrySymlink; EntryHardlink; EntryFIFO].

(** [mode & 0o7777 &^ 0o6000]. *)
Definition checkoutMode (mode : N) : N := N.ldiff (N.land mode 4095) 3072.

Definition isCheckoutWhiteout (name : string) : bool :=
  has_prefix checkoutWhiteoutPrefix (base name).

Definition checkoutWhiteoutTarget (name : string) : option string :=
  let b := base name in
  if negb (has_prefix checkoutWhiteoutPrefix b) || bool_decide (b = checkoutOpaqueMarker) then None
  else
    let deleted := trim_prefix checkoutWhiteoutPrefix b in
    if bool_decide (deleted = "") then None
    else
      let parent := dir name in
      if bool_decide (parent = ".") then Some deleted else Some (parent +:+ "/" +:+ deleted).

(** ** The order of a walk *)
Fixpoint before_fuel (fuel : nat) (first second : string) : bool :=
  match fuel with
  | 0 => false
  | S fuel =>
      let '(firstHead, firstRest) := cut slash first in
      let '(secondHead, secondRest) := cut slash second in
      if negb (bool_decide (firstHead = secondHead)) then str_lt firstHead secondHead
      else
        match firstRest, secondRest with
        | Some first, Some second => before_fuel fuel first second
        | None, Some _ => true
        | _, None => false
        end
  end.
Definition beforeCheckoutPath (first second : string) : bool :=
  before_fuel (S (slen first)) first second.

(** ** What a state describes *)
Inductive shape_error : Type := Underivable | StateUnread | UnmaterializedKind (path kind : string).

Section Derive.
Context {K : FvsKinds}.

Definition whiteout_entry (target : string) : checkoutEntry :=
  mkEntry target "file" checkoutWhiteoutMode true 0 "".
Definition directory_entry (e : FileEntry) : checkoutEntry :=
  mkEntry (fe_Path e) "dir" (checkoutMode (fe_Mode e)) true 0 "".
(** A directory whose permission bits no state decides. *)
Definition loose_directory (name : string) : checkoutEntry := mkEntry name "dir" 0 false 0 "".

Definition is_directory (m : gmap string checkoutEntry) (name : string) : bool :=
  match m !! name with Some e => bool_decide (ce_kind e = "dir") | None => false end.

Definition deriveCheckoutEntry (e : FileEntry) : result shape_error checkoutEntry :=
  let mode := checkoutMode (fe_Mode e) in
  if bool_decide (fe_Kind e = "") || bool_decide (fe_Kind e = EntryFile) then
    Ok (mkEntry (fe_Path e) "file" mode true (fe_Size e) "")
  else if bool_decide (fe_Kind e = EntrySymlink) then
    Ok (mkEntry (fe_Path e) "symlink" 511 true (Z.of_nat (slen (fe_Link e))) (fe_Link e))
  else if bool_decide (fe_Kind e = EntryFIFO) then
    Ok (mkEntry (fe_Path e) "fifo" mode false 0 "")
  else Err (UnmaterializedKind (fe_Path e) (fe_Kind e)).

(** The three passes of the materializer, each over the whole entry list. *)
Definition whiteout_pass (entries : list FileEntry) : gmap string checkoutEntry :=
  foldl (λ expected e,
    match checkoutWhiteoutTarget (fe_Path e) with
    | None => expected
    | Some target => <[target := whiteout_entry target]> expected
    end) ∅ entries.

Definition directory_pass (expected : gmap string checkoutEntry) (entries : list FileEntry) :
    gmap string checkoutEntry :=
  foldl (λ expected e,
    if bool_decide (fe_Kind e ≠ EntryDir) then expected
    else <[fe_Path e := directory_entry e]> expected) expected entries.

Fixpoint file_pass (expected : gmap string checkoutEntry) (contents : gmap string string)
    (entries : list FileEntry) :
    result shape_error (gmap string checkoutEntry * gmap string string) :=
  match entries with
  | [] => Ok (expected, contents)
  | e :: entries =>
      if bool_decide (fe_Kind e = EntryDir) || isCheckoutWhiteout (fe_Path e) then
        file_pass expected contents entries
      else
        d ← deriveCheckoutEntry e;
        file_pass (<[fe_Path e := d]> expected)
          (if bool_decide (ce_kind d = "file") then <[fe_Path e := fe_ContentDigest e]> contents
           else contents) entries
  end.

Definition addOpaqueCheckoutDirectories (expected : gmap string checkoutEntry)
    (entries : list FileEntry) : gmap string checkoutEntry :=
  foldl (λ expected e,
    if bool_decide (base (fe_Path e) ≠ checkoutOpaqueMarker) then expected
    else
      let parent := dir (fe_Path e) in
      if bool_decide (parent = ".") || bool_decide (parent = "/") then expected
      else if is_directory expected parent then expected
      else <[parent := loose_directory parent]> expected) expected entries.

(** [for parent := path.Dir(name); ...; parent = path.Dir(parent)], from a parent. *)
Fixpoint add_parents (fuel : nat) (parent : string) (expected : gmap string checkoutEntry) :
    gmap string checkoutEntry :=
  match fuel with
  | 0 => expected
  | S fuel =>
      if bool_decide (parent = ".") || bool_decide (parent = "/") then expected
      else if is_directory expected parent then expected
      else add_parents fuel (dir parent) (<[parent := loose_directory parent]> expected)
  end.

(** The names are taken in the order the map gives them. *)
Definition addImplicitCheckoutDirectories (named : list string)
    (expected : gmap string checkoutEntry) : gmap string checkoutEntry :=
  foldl (λ expected name, add_parents (S (slen name)) (dir name) expected) expected named.

(** The order a [range] over a map takes, which is any order of its keys. *)
Context (range : gmap string checkoutEntry → list string).

Definition expectedCheckoutEntries (entries : list FileEntry) :
    result shape_error (gmap string checkoutEntry * gmap string string) :=
  let expected := directory_pass (whiteout_pass entries) entries in
  passed ← file_pass expected ∅ entries;
  let '(expected, contents) := passed in
  let expected := addOpaqueCheckoutDirectories expected entries in
  Ok (addImplicitCheckoutDirectories (range expected) expected, contents).
End Derive.

(** ** The digest of a shape *)

(** [%04o] of the twelve permission bits. *)
Definition octal_digit (n : N) : ascii := ascii_of_N (48 + n mod 8).
Definition octal4 (n : N) : string :=
  String (octal_digit (n / 512)) (String (octal_digit (n / 64))
    (String (octal_digit (n / 8)) (String (octal_digit n) ""))).

Definition newline : string := String "010"%char "".

(** [writeCheckoutEntry], as the text it appends. *)
Definition entry_text (e : checkoutEntry) : string :=
  let mode := if ce_fixed e then octal4 (N.land (ce_mode e) 4095) else "-" in
  ce_path e +:+ nul +:+ ce_kind e +:+ nul +:+ mode +:+ nul +:+ pretty (ce_size e) +:+ nul +:+
    ce_link e +:+ newline.
Definition writeCheckoutEntry (digest : string) (e : checkoutEntry) : string := digest +:+ entry_text e.

(** [newCheckoutDigest], as what was written when it is opened. *)
Definition newCheckoutDigest : string :=
  "cpak.checkout.v" +:+ pretty ABIVersion +:+ "." +:+ pretty checkoutRecordFormat +:+ newline.

(** Reading the entries of a state from a repository. *)
Inductive state_error : Type := StateNotInitialized | StateNotExist | StateNotFound | StateFailed.
Class StateStore : Type := StateFiles : string → string → result state_error (list FileEntry).

Definition path_le (p q : string) : Prop := beforeCheckoutPath q p = false.
#[export] Instance path_le_dec : RelDecision path_le.
Proof. intros p q. unfold path_le. apply _. Defined.

Definition root_entry : checkoutEntry := mkEntry "." "dir" 0 false 0 "".

Section Shape.
Context {K : FvsKinds} {S : StateStore} (sha256 : string → string) (range : gmap string checkoutEntry → list string).

Definition shape_text (expected : gmap string checkoutEntry) (ordered : list string) : string :=
  foldl (λ digest name, writeCheckoutEntry digest (default (mkEntry "" "" 0 false 0 "") (expected !! name)))
    (writeCheckoutEntry newCheckoutDigest root_entry) ordered.

Definition loose_names (expected : gmap string checkoutEntry) (names : list string) : gset string :=
  foldl (λ loose name,
    match expected !! name with
    | Some e => if negb (ce_fixed e) then {[name]} ∪ loose else loose
    | None => loose
    end) {["."]} names.

Definition deriveCheckoutShape (repository state : string) : result shape_error checkoutShape :=
  match StateFiles repository state with
  | Err StateFailed => Err StateUnread
  | Err _ => Err Underivable
  | Ok entries =>
      passed ← expectedCheckoutEntries range entries;
      let '(expected, contents) := passed in
      let ordered := merge_sort path_le (range expected) in
      Ok (mkShape state (hex_encode (sha256 (shape_text expected ordered)))
        (loose_names expected (range expected)) contents)
  end.
End Shape.
(** ** The order is that of the elements of a path *)

(** A walk lists a directory before what it holds, and its names in order. *)
Fixpoint parts_lt (a b : list string) : Prop :=
  match a, b with
  | [], [] => False
  | [], _ :: _ => True
  | _ :: _, [] => False
  | x :: a, y :: b => str_lt x y = true ∨ x = y ∧ parts_lt a b
  end.
#[export] Instance parts_lt_dec a b : Decision (parts_lt a b).
Proof.
  revert b. induction a as [|x a IH]; intros [|y b]; cbn [parts_lt]; [apply _..|].
  specialize (IH b). apply _.
Defined.

Lemma str_lt_irrefl s : str_lt s s = false.
Proof. apply not_true_iff_false. rewrite str_lt_leb. tauto. Qed.
Lemma str_lt_trans s t u : str_lt s t = true → str_lt t u = true → str_lt s u = true.
Proof.
  rewrite !str_lt_leb. intros [H1 N1] [H2 N2]. split; [by etrans|].
  intros ->. apply N1. by apply (anti_symm String.le).
Qed.
Lemma str_lt_total s t : str_lt s t = true ∨ s = t ∨ str_lt t s = true.
Proof.
  rewrite !str_lt_leb. destruct (decide (s = t)) as [|Hne]; [tauto|].
  destruct (total String.le s t); [left|right; right]; naive_solver.
Qed.

#[export] Instance parts_lt_irrefl : Irreflexive parts_lt.
Proof.
  intros a. red. induction a as [|x a IH]; [done|]. cbn [parts_lt].
  intros [H|[_ H]]; [by rewrite str_lt_irrefl in H|done].
Qed.
#[export] Instance parts_lt_trans : Transitive parts_lt.
Proof.
  intros a. induction a as [|x a IH]; intros [|y b] [|z c]; cbn [parts_lt]; try done.
  intros [H|[-> H]] [H'|[-> H']]; eauto using str_lt_trans.
Qed.
Lemma parts_lt_total a b : parts_lt a b ∨ a = b ∨ parts_lt b a.
Proof.
  revert b. induction a as [|x a IH]; intros [|y b]; cbn [parts_lt]; [tauto..|].
  destruct (str_lt_total x y) as [?|[->|?]]; [tauto| |tauto].
  destruct (IH b) as [?|[->|?]]; tauto.
Qed.
Lemma parts_lt_app a b c : parts_lt (a ++ b) (a ++ c) ↔ parts_lt b c.
Proof.
  induction a as [|x a IH]; [done|]. cbn [app parts_lt]. rewrite IH, str_lt_irrefl. naive_solver.
Qed.

Lemma split_cut c s :
  split_byte c s =
    (cut c s).1 :: match (cut c s).2 with Some rest => split_byte c rest | None => [] end.
Proof.
  induction s as [|a s IH]; [done|]. cbn [split_byte cut]. case_bool_decide; [done|].
  rewrite IH. by destruct (cut c s) as [before after].
Qed.
Lemma cut_shorter c s rest : (cut c s).2 = Some rest → slen rest < slen s.
Proof.
  induction s as [|a s IH]; [done|]. cbn [cut]. case_bool_decide.
  - cbn [snd]. intros [= ->]. rewrite slen_cons. lia.
  - destruct (cut c s) as [before after]. cbn [snd] in *. rewrite slen_cons. intros ?%IH. lia.
Qed.

Lemma before_fuel_parts fuel p q :
  slen p < fuel →
  before_fuel fuel p q = bool_decide (parts_lt (split_byte slash p) (split_byte slash q)).
Proof.
  revert p q. induction fuel as [|fuel IH]; intros p q Hf; [lia|]. cbn [before_fuel].
  rewrite (split_cut slash p), (split_cut slash q).
  pose proof (cut_shorter slash p) as Hp.
  destruct (cut slash p) as [ph pr], (cut slash q) as [qh qr]. cbn [fst snd] in *.
  destruct (bool_decide_reflect (ph = qh)) as [->|Hne]; cbn [negb].
  - destruct pr as [p'|].
    + specialize (Hp p' eq_refl).
      destruct qr as [q'|].
      * rewrite IH by lia. apply bool_decide_ext. cbn [parts_lt]. rewrite str_lt_irrefl. naive_solver.
      * symmetry. apply bool_decide_eq_false. cbn [parts_lt]. rewrite str_lt_irrefl.
        destruct (split_byte_cons slash p') as (?&?&->). naive_solver.
    + symmetry. destruct qr as [q'|]; [apply bool_decide_eq_true|apply bool_decide_eq_false];
        cbn [parts_lt]; rewrite str_lt_irrefl.
      * destruct (split_byte_cons slash q') as (?&?&->). naive_solver.
      * naive_solver.
  - apply bool_iff. rewrite bool_decide_eq_true. cbn [parts_lt]. naive_solver.
Qed.

Lemma beforeCheckoutPath_parts p q :
  beforeCheckoutPath p q = true ↔ parts_lt (split_byte slash p) (split_byte slash q).
Proof. unfold beforeCheckoutPath. rewrite before_fuel_parts by lia. apply bool_decide_eq_true. Qed.

Lemma split_byte_inj c s t : split_byte c s = split_byte c t → s = t.
Proof. intros E. by rewrite <-(join_split c s), E, join_split. Qed.

(** The comparison the derivation sorts by is a strict total order, and it is
    the lexicographic order of the elements of a path: two different paths are
    always ordered, in one way only, a directory precedes what is inside it, and
    a path inside one directory is never placed among those of another, as
    comparing the strings would ("a.b" is below "a/c" as a string). *)
Theorem walk_order_strict p q r :
  beforeCheckoutPath p p = false ∧
  (beforeCheckoutPath p q = true → beforeCheckoutPath q r = true → beforeCheckoutPath p r = true) ∧
  (beforeCheckoutPath p q = true ∨ p = q ∨ beforeCheckoutPath q p = true) ∧
  beforeCheckoutPath p (p +:+ "/" +:+ q) = true ∧
  (beforeCheckoutPath p (q +:+ "/" +:+ r) = true → beforeCheckoutPath q p = true →
     ∃ rest, p = q +:+ "/" +:+ rest ∧ beforeCheckoutPath rest r = true).
Proof.
  rewrite <-not_true_iff_false, !beforeCheckoutPath_parts.
  repeat rewrite split_byte_app_sep. split_and!.
  - apply irreflexivity, _.
  - apply transitivity.
  - destruct (parts_lt_total (split_byte slash p) (split_byte slash q)) as [?|[?%split_byte_inj|?]]; tauto.
  - change ("/" +:+ q) with (String slash q). rewrite split_byte_app_sep.
    rewrite <-(app_nil_r (split_byte slash p)) at 1. rewrite parts_lt_app.
    by destruct (split_byte_cons slash q) as (?&?&->).
  - change ("/" +:+ r) with (String slash r). rewrite split_byte_app_sep.
    intros Hpr Hqp.
    assert (∃ l, l ≠ [] ∧ split_byte slash p = split_byte slash q ++ l ∧ parts_lt l (split_byte slash r))
      as (l & Hl & Hp & Hlt).
    { revert Hpr Hqp. generalize (split_byte slash p), (split_byte slash q).
      intros a b. revert a. induction b as [|y b IH]; intros [|x a]; cbn [app parts_lt]; try done.
      - intros. by exists (x :: a).
      - intros [H1|[-> H1]] [H2|[H2 H2']]; subst.
        + pose proof (str_lt_trans _ _ _ H1 H2) as H. by rewrite str_lt_irrefl in H.
        + by rewrite str_lt_irrefl in H1.
        + by rewrite str_lt_irrefl in H2.
        + destruct (IH a H1 H2') as (l & ? & -> & ?). by exists l. }
    exists (join "/" l). rewrite beforeCheckoutPath_parts.
    assert (split_byte slash (join "/" l) = l) as El.
    { apply (split_join slash); [done|]. intros x Hx. apply (split_byte_no_sep slash p).
      rewrite Hp. set_solver. }
    rewrite El. split; [|done]. apply (split_byte_inj slash).
    change ("/" +:+ join "/" l) with (String slash (join "/" l)).
    by rewrite split_byte_app_sep, El.
Qed.
(** ** Names *)

(** A name a tree can hold: elements that are not empty, a dot or a double dot. *)
Definition plain_path (p : string) : Prop := Forall plain (split_byte slash p).
(** A directory on the way to a name. *)
Definition above (q p : string) : Prop :=
  ∃ l, l ≠ [] ∧ split_byte slash p = split_byte slash q ++ l.

#[export] Instance plain_dec x : Decision (plain x).
Proof. unfold plain. apply _. Defined.
#[export] Instance plain_path_dec p : Decision (plain_path p).
Proof. unfold plain_path. apply _. Defined.

Lemma split_nonempty c s : split_byte c s ≠ [].
Proof. by destruct (split_byte_cons c s) as (?&?&->). Qed.

Lemma split_join_plain_list l : l ≠ [] → Forall plain l → split_byte slash (join "/" l) = l.
Proof.
  intros Hl Hp. apply (split_join slash); [done|]. intros x Hx.
  rewrite Forall_forall in Hp. by destruct (Hp x Hx) as (_&_&_&?).
Qed.

Lemma clean_plain_list l : l ≠ [] → Forall plain l → clean (join "/" l) = join "/" l ∧ clean (join "/" l +:+ "/") = join "/" l.
Proof.
  intros Hne Hl.
  assert (is_abs (join "/" l) = false ∧ is_abs (join "/" l +:+ "/") = false) as [Ha Ha'].
  { pose proof (split_join_plain_list l Hne Hl) as E.
    destruct (join "/" l) as [|c s] eqn:Ej.
    { destruct l as [|x [|y l]]; [done|..]; apply Forall_cons in Hl as [(?&_) _]; [done|].
      destruct x; [done|discriminate]. }
    cbn [String.append]. rewrite !is_abs_cons. split; apply bool_decide_eq_false; intros ->;
      cbn [split_byte] in E; rewrite bool_decide_eq_true_2 in E by done; subst l;
      apply Forall_cons in Hl as [(?&_) _]; done. }
  assert (∀ x, x ∈ l → x ≠ "" ∧ x ≠ "." ∧ x ≠ "..") as Hx.
  { rewrite Forall_forall in Hl. intros x (?&?&?&_)%Hl. done. }
  assert (path_parts (join "/" l) = l) as E1.
  { unfold path_parts, clean_stack. rewrite split_join_plain_list, clean_foldl_push by done.
    by rewrite app_nil_r, reverse_involutive. }
  assert (path_parts (join "/" l +:+ "/") = l) as E2.
  { unfold path_parts, clean_stack. change (join "/" l +:+ "/") with (join "/" l +:+ String slash "").
    rewrite split_byte_app_sep, split_join_plain_list, foldl_app, (clean_foldl_push _ _ l) by done.
    cbn [split_byte foldl]. unfold clean_step at 1. rewrite bool_decide_eq_true_2 by tauto.
    by rewrite app_nil_r, reverse_involutive. }
  unfold clean. rewrite Ha, Ha', E1, E2. by rewrite bool_decide_eq_false_2.
Qed.

Lemma plain_path_clean p : plain_path p → clean p = p.
Proof.
  intros Hp. rewrite <-(join_split slash p). apply clean_plain_list; [apply split_nonempty|done].
Qed.

Lemma upto_none x : has_byte slash x = false → upto_last_slash x = "".
Proof.
  induction x as [|c x IH]; [done|]. rewrite has_byte_cons. intros H. bools_in H. destruct H as [Hc Hx].
  cbn [upto_last_slash]. by rewrite Hx, bool_decide_eq_false_2.
Qed.

Lemma snoc_cases {A} (l : list A) : l = [] ∨ ∃ l' x, l = l' ++ [x].
Proof. induction l as [|x l _] using rev_ind; [by left|right; by eexists _, _]. Qed.

(** [path.Dir] of a name is the name without its last element. *)
Lemma dir_plain p l x :
  plain_path p → split_byte slash p = l ++ [x] →
  dir p = if bool_decide (l = []) then "." else join "/" l.
Proof.
  unfold plain_path. intros Hp E. rewrite E in Hp. apply Forall_app in Hp as [Hl Hx].
  apply Forall_singleton in Hx as (_&_&_&Hx). unfold dir. rewrite <-(join_split slash p), E.
  case_bool_decide as Hne; [subst; cbn; by rewrite upto_none|].
  rewrite join_parts_app by done. change ("/" +:+ join "/" [x]) with (String slash x).
  rewrite upto_last by done. by apply clean_plain_list.
Qed.

Lemma base_plain p l x : plain_path p → split_byte slash p = l ++ [x] → base p = x.
Proof.
  unfold plain_path, base. intros Hp E. rewrite bool_decide_eq_false_2.
  2:{ intros ->. cbn in Hp. by apply Forall_cons in Hp as [(?&?&?&?) _]. }
  rewrite E in *. apply Forall_app in Hp as [_ Hx]. apply Forall_cons in Hx as [Hx _].
  rewrite filter_app, filter_cons_True, last_app by apply Hx. done.
Qed.

Lemma plain_path_join l : l ≠ [] → Forall plain l → plain_path (join "/" l).
Proof. intros. unfold plain_path. by rewrite split_join_plain_list. Qed.

Lemma plain_not_special p : plain_path p → p ≠ "." ∧ p ≠ "/" ∧ p ≠ "".
Proof.
  unfold plain_path. intros Hp. split_and!; intros ->; cbn in Hp;
    apply Forall_cons in Hp as [(?&?&?&?) _]; done.
Qed.

(** The parent of a name is nothing, or a name with one element less. *)
Lemma dir_cases p :
  plain_path p →
  dir p = "." ∧ length (split_byte slash p) = 1 ∨
  plain_path (dir p) ∧ (∃ x, split_byte slash p = split_byte slash (dir p) ++ [x]).
Proof.
  intros Hp. destruct (snoc_cases (split_byte slash p)) as [E|(l & x & E)].
  { by apply split_nonempty in E. }
  rewrite (dir_plain p l x Hp E). case_bool_decide as Hl.
  - left. rewrite E, Hl. done.
  - right. assert (Forall plain l) as Hf.
    { unfold plain_path in Hp. rewrite E in Hp. by apply Forall_app in Hp as [? _]. }
    split; [by apply plain_path_join|]. exists x. by rewrite split_join_plain_list.
Qed.

Lemma above_single q p : length (split_byte slash p) = 1 → ¬ above q p.
Proof.
  intros Hp (l & Hl & E). rewrite E, length_app in Hp.
  pose proof (split_nonempty slash q). destruct (split_byte slash q); [done|].
  destruct l; [done|]. cbn in Hp. lia.
Qed.

Lemma above_dir q p x :
  split_byte slash p = split_byte slash (dir p) ++ [x] →
  above q p ↔ q = dir p ∨ above q (dir p).
Proof.
  intros E. split.
  - intros (l & Hl & E'). destruct (snoc_cases l) as [->|(l' & y & ->)]; [done|].
    rewrite E, (assoc_L (++)) in E'. apply app_inj_tail in E' as [E' _].
    destruct (decide (l' = [])) as [->|Hne].
    + left. apply (split_byte_inj slash). by rewrite E', app_nil_r.
    + right. by exists l'.
  - intros [->|(l & Hl & E')]; [by exists [x]|]. exists (l ++ [x]).
    split; [by destruct l|]. by rewrite E, E', (assoc_L (++)).
Qed.

Lemma above_trans p q r : above p q → above q r → above p r.
Proof.
  intros (l & Hl & El) (k & Hk & Ek). exists (l ++ k). split; [by destruct l|].
  by rewrite Ek, El, (assoc_L (++)).
Qed.

Lemma above_plain q p : above q p → plain_path p → plain_path q.
Proof. unfold plain_path. intros (l & _ & ->) H. by apply Forall_app in H as [? _]. Qed.

Lemma split_length p : length (split_byte slash p) ≤ S (slen p).
Proof.
  induction p as [|c p IH]; [cbn; lia|]. rewrite slen_cons. cbn [split_byte].
  case_bool_decide; [cbn; lia|]. destruct (split_byte slash p); cbn in *; lia.
Qed.
(** ** The directories on the way *)
Section Implicit.

Lemma is_directory_insert m p q e :
  is_directory (<[p := e]> m) q =
    if bool_decide (p = q) then bool_decide (ce_kind e = "dir") else is_directory m q.
Proof.
  unfold is_directory. case_bool_decide as H; [subst; by rewrite lookup_insert_eq|].
  by rewrite lookup_insert_ne.
Qed.

Lemma is_directory_loose m p q :
  is_directory (<[p := loose_directory p]> m) q = bool_decide (p = q) || is_directory m q.
Proof. rewrite is_directory_insert. by case_bool_decide. Qed.

Definition turned (m m' : gmap string checkoutEntry) (x : string) : Prop :=
  is_directory m x = false ∧ m' !! x = Some (loose_directory x) ∧ plain_path x.

(** What going up from a name leaves: the names on the way that were no directory
    become loose directories, and nothing else changes. *)
Lemma add_parents_spec fuel q m :
  (q = "." ∨ plain_path q ∧ length (split_byte slash q) ≤ fuel) →
  let m' := add_parents fuel q m in
  (∀ x, m' !! x = m !! x ∨ turned m m' x ∧ (x = q ∨ above x q)) ∧
  (q = "." ∨ is_directory m' q = true) ∧
  (∀ x, is_directory m' x = true →
     is_directory m x = true ∨ dir x = "." ∨ is_directory m' (dir x) = true).
Proof.
  cbv zeta. revert q m. induction fuel as [|fuel IH]; intros q m Hq.
  { destruct Hq as [->|[_ Hlen]]; cbn [add_parents]; [naive_solver|].
    destruct (split_byte_cons slash q) as (?&?&E). rewrite E in Hlen. cbn in Hlen. lia. }
  cbn [add_parents]. destruct Hq as [->|[Hq Hlen]]; [cbn; naive_solver|].
  destruct (plain_not_special q Hq) as (Hdot & Hslash & _).
  rewrite (bool_decide_eq_false_2 (q = ".")), (bool_decide_eq_false_2 (q = "/")) by done. cbn [orb].
  destruct (is_directory m q) eqn:Ed; [naive_solver|].
  set (m1 := <[q := loose_directory q]> m).
  assert (∀ x, is_directory m1 x = bool_decide (q = x) || is_directory m x) as Hm1
    by apply is_directory_loose.
  assert (dir q = "." ∨ plain_path (dir q) ∧ length (split_byte slash (dir q)) ≤ fuel) as Hdir.
  { destruct (dir_cases q Hq) as [[? _]|(? & x & E)]; [by left|right]. split; [done|].
    rewrite E, length_app in Hlen. cbn [length] in Hlen. lia. }
  destruct (IH (dir q) m1 Hdir) as (H1 & H2 & H3). clear IH Hdir.
  set (m' := add_parents fuel (dir q) m1) in *.
  assert (is_directory m' q = true) as Hq'.
  { unfold is_directory. destruct (H1 q) as [->|[(Hf & _) _]].
    - unfold m1. rewrite lookup_insert_eq. done.
    - rewrite Hm1, bool_decide_eq_true_2 in Hf; done. }
  split_and!.
  - intros x. destruct (decide (x = q)) as [->|Hx].
    + right. split; [|by left]. split_and!; [done| |done].
      destruct (H1 q) as [->|[(_ & -> & _) _]]; [|done]. unfold m1. by rewrite lookup_insert_eq.
    + destruct (H1 x) as [->|[(Hf & Hl & Hp) Hab]].
      * left. unfold m1. by rewrite lookup_insert_ne.
      * right. rewrite Hm1, bool_decide_eq_false_2 in Hf by done.
        split; [by split_and!|]. right.
        destruct (dir_cases q Hq) as [[E _]|(_ & y & E)].
        { rewrite E in Hab. exfalso. destruct Hab as [->|(l & Hl' & El)].
          - by destruct (plain_not_special "." Hp).
          - apply (above_single x "." eq_refl). by exists l. }
        by rewrite (above_dir x q y E).
  - by right.
  - intros x Hx. apply H3 in Hx as [Hx|Hx]; [|by right]. rewrite Hm1 in Hx.
    case_bool_decide as E; [subst x|by left]. right. done.
Qed.

Lemma add_parents_directory fuel q m x :
  (q = "." ∨ plain_path q ∧ length (split_byte slash q) ≤ fuel) →
  is_directory m x = true → is_directory (add_parents fuel q m) x = true ∧ add_parents fuel q m !! x = m !! x.
Proof.
  intros Hq Hx. destruct (add_parents_spec fuel q m Hq) as (H1 & _ & _).
  unfold is_directory in *. destruct (H1 x) as [->|[(Hf & _) _]]; [done|].
  unfold is_directory in Hf. by rewrite Hx in Hf.
Qed.

(** The number of steps a name needs. *)
Lemma dir_fuel p :
  plain_path p →
  dir p = "." ∨ plain_path (dir p) ∧ length (split_byte slash (dir p)) ≤ S (slen p).
Proof.
  intros Hp. destruct (dir_cases p Hp) as [[? _]|(? & x & E)]; [by left|right].
  split; [done|]. pose proof (split_length p) as H'. rewrite E, length_app in H'. lia.
Qed.

Definition implied (named : list string) (q : string) : Prop := ∃ p, p ∈ named ∧ above q p.

(** The loop over the names, after some of them. *)
Record implicit_sound (m : gmap string checkoutEntry) (named done : list string)
    (m' : gmap string checkoutEntry) : Prop := {
  im_kept : ∀ x, m' !! x = m !! x ∨ turned m m' x ∧ implied named x;
  im_done : ∀ p, p ∈ done → dir p = "." ∨ is_directory m' (dir p) = true;
  im_added : ∀ x, is_directory m' x = true →
    is_directory m x = true ∨ dir x = "." ∨ is_directory m' (dir x) = true
}.

Lemma above_of_dir x p : plain_path p → x = dir p ∨ above x (dir p) → x ≠ "." → above x p.
Proof.
  intros Hp Hx Hdot. destruct (dir_cases p Hp) as [[E _]|(_ & y & E)].
  - rewrite E in Hx. destruct Hx as [->|Hx]; [done|].
    exfalso. by apply (above_single x ".").
  - by apply (above_dir x p y E).
Qed.

Lemma implicit_loop m named l done m' :
  Forall plain_path named → l ⊆ named → implicit_sound m named done m' →
  implicit_sound m named (done ++ l) (addImplicitCheckoutDirectories l m').
Proof.
  intros Hplain. revert done m'. induction l as [|p l IH]; intros don m' Hl [Hk Hd Ha].
  { by rewrite app_nil_r. }
  cbn [addImplicitCheckoutDirectories foldl].
  replace (don ++ p :: l) with ((don ++ [p]) ++ l) by by rewrite <-(assoc_L (++)).
  apply IH; [set_solver|].
  assert (plain_path p) as Hp by (rewrite Forall_forall in Hplain; apply Hplain; set_solver).
  pose proof (dir_fuel p Hp) as Hf.
  destruct (add_parents_spec _ (dir p) m' Hf) as (H1 & H2 & H3).
  pose proof (λ x, add_parents_directory (S (slen p)) (dir p) m' x Hf) as Hmono.
  set (m2 := add_parents (S (slen p)) (dir p) m') in *.
  split.
  - intros x. destruct (H1 x) as [E|[(Hfx & Hl2 & Hpx) Hab]].
    + rewrite E. destruct (Hk x) as [?|[(?&?&?) ?]]; [by left|right].
      split; [split_and!; [done|by rewrite E|done]|done].
    + right. split.
      * split_and!; [|done..]. destruct (Hk x) as [E|[(?&_) _]]; [|done].
        unfold is_directory in *. by rewrite <-E.
      * exists p. split; [set_solver|]. apply above_of_dir; [done..|].
        by destruct (plain_not_special x Hpx).
  - intros x [Hx|Hx%list_elem_of_singleton]%elem_of_app; [|by subst].
    destruct (Hd x Hx) as [?|Hx']; [by left|right]. by apply Hmono.
  - intros x Hx. apply H3 in Hx as [Hx|Hx]; [|by right].
    apply Ha in Hx as [?|[?|Hx]]; [by left|right; by left|right; right]. by apply Hmono.
Qed.

(** What the code leaves, whatever order it takes the names in: the directories on
    the way to a name are there, loose unless the state had them, and the rest is
    as it was. *)
Lemma implicit_spec named m q :
  Forall plain_path named → (∀ x, is_Some (m !! x) → x ∈ named) →
  (implied named q →
     addImplicitCheckoutDirectories named m !! q =
       if is_directory m q then m !! q else Some (loose_directory q)) ∧
  (¬ implied named q → addImplicitCheckoutDirectories named m !! q = m !! q).
Proof.
  intros Hplain Hdom.
  destruct (implicit_loop m named named [] m Hplain) as [Hk Hd Ha];
    [done|split; [by left|set_solver|by left]|].
  set (m' := addImplicitCheckoutDirectories named m) in *. cbn [app] in Hd.
  assert (∀ n x, plain_path x → length (split_byte slash x) ≤ n →
    (x ∈ named ∨ is_directory m' x = true) → ∀ y, above y x → is_directory m' y = true) as Hup.
  { induction n as [|n IH]; intros x Hx Hn Hin y Hy.
    { destruct (split_byte_cons slash x) as (?&?&E). rewrite E in Hn. cbn in Hn. lia. }
    destruct (dir_cases x Hx) as [[_ E]|(Hdx & z & E)]; [by apply above_single in Hy|].
    assert (is_directory m' (dir x) = true) as Hdir.
    { destruct (plain_not_special _ Hdx) as (Hdot & _).
      destruct Hin as [Hin|Hin].
      - by destruct (Hd x Hin).
      - destruct (Ha x Hin) as [H|[?|?]]; [|done..].
        assert (x ∈ named) as Hin'.
        { apply Hdom. unfold is_directory in H. destruct (m !! x); [by eexists|done]. }
        by destruct (Hd x Hin'). }
    apply (above_dir y x z E) in Hy as [->|Hy]; [done|].
    apply (IH (dir x)); [done| |by right|done]. rewrite E, length_app in Hn. cbn in Hn. lia. }
  split.
  - intros (p & Hp & Hab).
    assert (is_directory m' q = true) as Hq.
    { eapply Hup; [|reflexivity|by left|done]. rewrite Forall_forall in Hplain. by apply Hplain. }
    destruct (Hk q) as [E|[(-> & -> & _) _]]; [|done].
    unfold is_directory in *. rewrite E in *. by rewrite Hq.
  - intros Hq. by destruct (Hk q) as [|[_ ?]].
Qed.

Lemma implicit_order named named' m :
  Forall plain_path named → (∀ x, is_Some (m !! x) → x ∈ named) → named ≡ₚ named' →
  addImplicitCheckoutDirectories named m = addImplicitCheckoutDirectories named' m.
Proof.
  intros Hplain Hdom Hperm. apply map_eq. intros q.
  destruct (implicit_spec named m q Hplain Hdom) as [H1 H2].
  assert (∀ x, is_Some (m !! x) → x ∈ named') as Hdom' by (intros x; rewrite <-Hperm; auto).
  destruct (implicit_spec named' m q) as [H1' H2']; [by rewrite <-Hperm|done|].
  assert (implied named q ↔ implied named' q) as Hi
    by (unfold implied; by setoid_rewrite Hperm).
  destruct (decide (Exists (λ p, take (length (split_byte slash q)) (split_byte slash p) = split_byte slash q ∧
     length (split_byte slash q) < length (split_byte slash p)) named)) as [Hy|Hn].
  - assert (implied named q) as Hx.
    { apply Exists_exists in Hy as (p & Hp & Ht & Hl). exists p. split; [done|].
      exists (drop (length (split_byte slash q)) (split_byte slash p)). split.
      - intros E%(f_equal length). rewrite length_drop in E. cbn in E. lia.
      - rewrite <-(take_drop (length (split_byte slash q)) (split_byte slash p)) at 1. by rewrite Ht. }
    by rewrite H1, H1' by tauto.
  - assert (¬ implied named q) as Hx.
    { intros (p & Hp & l & Hl & E). apply Hn, Exists_exists. exists p. split; [done|].
      rewrite E, take_app_length, length_app. destruct l; [done|]. cbn. split; [done|lia]. }
    by rewrite H2, H2' by tauto.
Qed.
End Implicit.
(** ** What the passes place *)
Section Passes.
Context {K : FvsKinds}.

(** The entry the passes leave under a name: a file wins over a directory and a
    directory over a whiteout, and among those of one pass the last one. *)
Definition is_regular (e : FileEntry) : bool :=
  negb (bool_decide (fe_Kind e = EntryDir) || isCheckoutWhiteout (fe_Path e)).
Definition last_where (f : FileEntry → bool) (entries : list FileEntry) : option FileEntry :=
  last (filter (λ e, f e = true) entries).
Definition placed (entries : list FileEntry) (p : string) : option checkoutEntry :=
  match last_where (λ e, is_regular e && bool_decide (fe_Path e = p)) entries with
  | Some e => match deriveCheckoutEntry e with Ok d => Some d | Err _ => None end
  | None =>
      match last_where (λ e, bool_decide (fe_Kind e = EntryDir) && bool_decide (fe_Path e = p)) entries with
      | Some e => Some (directory_entry e)
      | None =>
          if existsb (λ e, bool_decide (checkoutWhiteoutTarget (fe_Path e) = Some p)) entries
          then Some (whiteout_entry p) else None
      end
  end.

(** Something under the name has to be created: an entry, or the marker of an
    opaque directory. *)
Definition opaque_marker (e : FileEntry) : Prop := base (fe_Path e) = checkoutOpaqueMarker.
Definition holds_something (entries : list FileEntry) (p : string) : Prop :=
  ∃ q, above p q ∧ (is_Some (placed entries q) ∨ ∃ e, e ∈ entries ∧ fe_Path e = q ∧ opaque_marker e).

(** The names a state can carry hold no NUL either, and so do those of the entries
    its whiteouts hide. *)
Definition state_name (p : string) : Prop := plain_path p ∧ has_byte "000" p = false.
#[local] Instance state_name_dec p : Decision (state_name p).
Proof. unfold state_name. apply _. Defined.
Definition well_named (entries : list FileEntry) : Prop :=
  Forall (λ e, state_name (fe_Path e) ∧
    match checkoutWhiteoutTarget (fe_Path e) with Some t => state_name t | None => True end) entries.
#[export] Instance well_named_dec entries : Decision (well_named entries).
Proof.
  unfold well_named. apply Forall_dec. intros e. apply and_dec; [apply _|]. destruct (checkoutWhiteoutTarget _); apply _.
Defined.

Lemma last_where_cons f e entries :
  last_where f (e :: entries) =
    match last_where f entries with Some x => Some x | None => if f e then Some e else None end.
Proof.
  unfold last_where. destruct (f e) eqn:E.
  - rewrite filter_cons_True by done. rewrite last_cons. done.
  - rewrite filter_cons_False by (by rewrite E). by destruct (last _).
Qed.
Lemma last_where_snoc f e entries :
  last_where f (entries ++ [e]) = if f e then Some e else last_where f entries.
Proof.
  unfold last_where. rewrite filter_app. destruct (f e) eqn:E.
  - rewrite filter_cons_True, last_app by done. done.
  - rewrite filter_cons_False by (by rewrite E). by rewrite app_nil_r.
Qed.
Lemma last_where_some f e entries : last_where f entries = Some e → f e = true ∧ e ∈ entries.
Proof. unfold last_where. intros H%last_Some_elem_of. by apply list_elem_of_filter in H. Qed.

Lemma whiteout_lookup entries p :
  whiteout_pass entries !! p =
    if existsb (λ e, bool_decide (checkoutWhiteoutTarget (fe_Path e) = Some p)) entries
    then Some (whiteout_entry p) else None.
Proof.
  unfold whiteout_pass. induction entries as [|e entries IH] using rev_ind; [apply lookup_empty|].
  rewrite foldl_snoc, existsb_app. cbn [existsb]. rewrite orb_false_r.
  destruct (checkoutWhiteoutTarget (fe_Path e)) as [t|].
  - destruct (decide (t = p)) as [->|Hne].
    + by rewrite lookup_insert_eq, (bool_decide_eq_true_2 (Some p = Some p)), orb_true_r.
    + by rewrite lookup_insert_ne, IH, (bool_decide_eq_false_2 (Some t = Some p)), orb_false_r by naive_solver.
  - by rewrite IH, (bool_decide_eq_false_2 (None = Some p)), orb_false_r.
Qed.

Lemma directory_lookup m entries p :
  directory_pass m entries !! p =
    match last_where (λ e, bool_decide (fe_Kind e = EntryDir) && bool_decide (fe_Path e = p)) entries with
    | Some e => Some (directory_entry e)
    | None => m !! p
    end.
Proof.
  unfold directory_pass. induction entries as [|e entries IH] using rev_ind; [done|].
  rewrite foldl_snoc, last_where_snoc. rewrite bool_decide_not.
  destruct (bool_decide (fe_Kind e = EntryDir)); cbn [negb andb]; [|done].
  destruct (bool_decide_reflect (fe_Path e = p)) as [<-|Hne]; [by rewrite lookup_insert_eq|].
  by rewrite lookup_insert_ne.
Qed.

Lemma file_lookup entries m c m' c' p :
  file_pass m c entries = Ok (m', c') →
  match last_where (λ e, is_regular e && bool_decide (fe_Path e = p)) entries with
  | Some e => ∃ d, deriveCheckoutEntry e = Ok d ∧ m' !! p = Some d
  | None => m' !! p = m !! p
  end.
Proof.
  revert m c. induction entries as [|e entries IH]; intros m c H; cbn [file_pass] in H.
  { by simplify_eq. }
  rewrite last_where_cons. unfold is_regular at 2.
  destruct (bool_decide (fe_Kind e = EntryDir) || isCheckoutWhiteout (fe_Path e)); cbn [negb andb].
  { apply IH in H. by destruct (last_where _ entries). }
  apply bind_ok in H as (d & Hd & H). apply IH in H.
  destruct (last_where _ entries) as [e'|]; [done|].
  destruct (bool_decide_reflect (fe_Path e = p)) as [<-|Hne].
  - exists d. split; [done|]. by rewrite H, lookup_insert_eq.
  - by rewrite H, lookup_insert_ne.
Qed.

Lemma passes_placed entries m c p :
  file_pass (directory_pass (whiteout_pass entries) entries) ∅ entries = Ok (m, c) → m !! p = placed entries p.
Proof.
  intros H. apply file_lookup with (p := p) in H. unfold placed.
  destruct (last_where _ entries) as [e|]; [by destruct H as (d & -> & ->)|].
  by rewrite H, directory_lookup, whiteout_lookup.
Qed.

(** Every name an entry is placed under is its own. *)
Lemma derive_entry_fields e d :
  deriveCheckoutEntry e = Ok d → ce_path d = fe_Path e ∧
    (ce_kind d = "file" ∨ ce_kind d = "symlink" ∨ ce_kind d = "fifo") ∧
    (ce_kind d ≠ "symlink" → ce_link d = "") ∧
    (ce_kind d = "symlink" → ce_size d = Z.of_nat (slen (ce_link d)) ∧ ce_link d = fe_Link e).
Proof.
  unfold deriveCheckoutEntry. repeat case_match; intros [= <-]; cbn; naive_solver.
Qed.

Lemma placed_fields entries p d :
  placed entries p = Some d → ce_path d = p ∧
    ce_kind d ∈ ["file"; "symlink"; "fifo"; "dir"] ∧
    (ce_kind d ≠ "symlink" → ce_link d = "") ∧
    (ce_kind d = "symlink" → ce_size d = Z.of_nat (slen (ce_link d)) ∧ ∃ e, e ∈ entries ∧ ce_link d = fe_Link e).
Proof.
  unfold placed. destruct (last_where _ entries) as [e|] eqn:E1.
  - apply last_where_some in E1 as [Hf Hin]. bools_in Hf. destruct Hf as [_ <-].
    destruct (deriveCheckoutEntry e) as [d'|] eqn:Ed; [|done]. intros [= ->].
    apply derive_entry_fields in Ed as (?&Hk&?&Hs). split_and!; [done| |done|].
    + rewrite !elem_of_cons. tauto.
    + intros Hsym. destruct (Hs Hsym). eauto.
  - destruct (last_where (λ e, bool_decide (fe_Kind e = EntryDir) && _) entries) as [e|] eqn:E2.
    + apply last_where_some in E2 as [Hf Hin]. bools_in Hf. destruct Hf as [_ <-].
      intros [= <-]. cbn. rewrite !elem_of_cons. naive_solver.
    + case_match; intros [= <-]. cbn. rewrite !elem_of_cons. naive_solver.
Qed.

Lemma placed_named entries p :
  well_named entries → is_Some (placed entries p) → state_name p.
Proof.
  unfold well_named. rewrite Forall_forall. intros Hw [d Hd]. unfold placed in Hd.
  destruct (last_where _ entries) as [e|] eqn:E1.
  { apply last_where_some in E1 as [Hf Hin]. bools_in Hf. destruct Hf as [_ <-]. by apply Hw. }
  destruct (last_where (λ e, bool_decide _ && _) entries) as [e|] eqn:E2.
  { apply last_where_some in E2 as [Hf Hin]. bools_in Hf. destruct Hf as [_ <-]. by apply Hw. }
  destruct (existsb _ entries) eqn:E3; [|done].
  apply existsb_elem in E3 as (e & Hin & He). bools_in He. destruct (Hw e Hin) as [_ H].
  by rewrite He in H.
Qed.

(** The directories of the opaque markers. *)
Definition marked (entries : list FileEntry) (p : string) : Prop :=
  ∃ e, e ∈ entries ∧ opaque_marker e ∧ dir (fe_Path e) = p ∧ p ≠ ".".

Lemma opaque_sound m entries :
  Forall (λ e, plain_path (fe_Path e)) entries →
  let m' := addOpaqueCheckoutDirectories m entries in
  (∀ p, m' !! p = m !! p ∨ turned m m' p ∧ marked entries p) ∧
  (∀ p, marked entries p → is_directory m' p = true).
Proof.
  cbv zeta. unfold addOpaqueCheckoutDirectories.
  induction entries as [|e entries IH] using rev_ind; intros Hp.
  { split; [by left|]. intros p (e & He & _). by apply elem_of_nil in He. }
  apply Forall_app in Hp as [Hp He]. apply Forall_cons in He as [He _].
  destruct (IH Hp) as [H1 H2]. clear IH. rewrite foldl_snoc. set (m' := foldl _ m entries) in *.
  assert (∀ p, marked entries p → marked (entries ++ [e]) p) as Hmono
    by (intros p (x & ? & ?); exists x; split; [set_solver|done]).
  assert (∀ p, marked (entries ++ [e]) p → marked entries p ∨ opaque_marker e ∧ dir (fe_Path e) = p ∧ p ≠ ".") as Hinv.
  { intros p (x & Hx & ?). apply elem_of_app in Hx as [Hx|Hx%list_elem_of_singleton]; [left; by exists x|].
    subst. by right. }
  rewrite bool_decide_not.
  destruct (bool_decide_reflect (base (fe_Path e) = checkoutOpaqueMarker)) as [Hb|Hb]; cbn [negb].
  2:{ split; [intros p; destruct (H1 p) as [?|[??]]; auto|].
      intros p [?|[? _]]%Hinv; [auto|done]. }
  destruct (bool_decide_reflect (dir (fe_Path e) = ".")) as [Hdot|Hdot]; cbn [orb].
  { split; [intros p; destruct (H1 p) as [?|[??]]; auto|].
    intros p [?|(_ & <- & ?)]%Hinv; [auto|done]. }
  destruct (dir_cases _ He) as [[? _]|[Hd _]]; [done|].
  rewrite bool_decide_eq_false_2 by by apply plain_not_special in Hd as (_&?&_).
  destruct (is_directory m' (dir (fe_Path e))) eqn:Ed.
  { split; [intros p; destruct (H1 p) as [?|[??]]; auto|].
    intros p [?|(_ & <- & _)]%Hinv; auto. }
  split.
  - intros p. destruct (decide (dir (fe_Path e) = p)) as [<-|Hne].
    + right. split; [|exists e; split_and!; [set_solver|done..]]. split_and!; [|apply lookup_insert_eq|done].
      destruct (H1 (dir (fe_Path e))) as [E|[(?&_) _]]; [|done]. unfold is_directory in *. by rewrite <-E.
    + rewrite lookup_insert_ne by done. destruct (H1 p) as [?|[(?&?&?) ?]]; [by left|right].
      split; [|auto]. split_and!; [done|by rewrite lookup_insert_ne|done].
  - intros p Hm%Hinv. rewrite is_directory_loose.
    destruct Hm as [Hm|(_ & <- & _)]; [rewrite H2, orb_true_r by done|rewrite bool_decide_eq_true_2 by done]; done.
Qed.

(** ** The shape *)
Context (range : gmap string checkoutEntry → list string).
Context (ranged : ∀ m, range m ≡ₚ (map_to_list m).*1).

Lemma range_elem m x : x ∈ range m ↔ is_Some (m !! x).
Proof using ranged.
  rewrite ranged, list_elem_of_fmap. split.
  - intros ([k v] & -> & H%elem_of_map_to_list). by exists v.
  - intros [v H]. exists (x, v). by rewrite elem_of_map_to_list.
Qed.

Lemma well_named_paths entries : well_named entries → Forall (λ e, plain_path (fe_Path e)) entries.
Proof using. intros H. eapply Forall_impl; [exact H|]. by intros x [[? _] _]. Qed.

(** The map before the directories on the way are added. *)
Lemma marked_lookup entries m c p :
  well_named entries →
  file_pass (directory_pass (whiteout_pass entries) entries) ∅ entries = Ok (m, c) →
  addOpaqueCheckoutDirectories m entries !! p = placed entries p ∨
  turned m (addOpaqueCheckoutDirectories m entries) p ∧ marked entries p.
Proof.
  intros Hw H. destruct (opaque_sound m entries (well_named_paths _ Hw)) as [H1 _].
  rewrite <-(passes_placed entries m c p H). apply H1.
Qed.

Lemma opaque_above entries p q :
  well_named entries → marked entries p → (q = p ∨ above q p) →
  ∃ e, e ∈ entries ∧ opaque_marker e ∧ above q (fe_Path e).
Proof.
  intros Hw (e & He & Ho & Hd & Hdot) Hq. exists e. split_and!; [done..|].
  apply above_of_dir.
  - apply well_named_paths in Hw. rewrite Forall_forall in Hw. by apply Hw.
  - by rewrite Hd.
  - destruct Hq as [->|Hq]; [done|]. intros ->. destruct Hq as (l & Hl & E). subst p.
    apply well_named_paths in Hw. rewrite Forall_forall in Hw. specialize (Hw e He).
    destruct (dir_cases _ Hw) as [[? _]|[Hx _]]; [done|]. unfold plain_path in Hx. rewrite E in Hx.
    cbn in Hx. by apply Forall_cons in Hx as [(_&?&_) _].
Qed.

Lemma named_plain entries m c :
  well_named entries →
  file_pass (directory_pass (whiteout_pass entries) entries) ∅ entries = Ok (m, c) →
  Forall plain_path (range (addOpaqueCheckoutDirectories m entries)).
Proof using ranged.
  intros Hw H1. apply Forall_forall. intros q Hq%range_elem.
  destruct (marked_lookup entries m c q Hw H1) as [E|[(_&_&?) _]]; [|done].
  rewrite E in Hq. by apply (placed_named entries).
Qed.

(** The names the last pass goes up from are those something is placed under, and
    the directories of the opaque markers. *)
Lemma implied_holds entries m c p :
  well_named entries →
  file_pass (directory_pass (whiteout_pass entries) entries) ∅ entries = Ok (m, c) →
  let named := range (addOpaqueCheckoutDirectories m entries) in
  (implied named p → holds_something entries p) ∧
  (holds_something entries p → implied named p ∨ marked entries p).
Proof using ranged.
  intros Hw H1. cbv zeta. set (m2 := addOpaqueCheckoutDirectories m entries).
  pose proof (λ q, marked_lookup entries m c q Hw H1) as Hm2. fold m2 in Hm2.
  destruct (opaque_sound m entries (well_named_paths _ Hw)) as [_ Hmark]. fold m2 in Hmark. split.
  - intros (q & Hq%range_elem & Hab). destruct (Hm2 q) as [E|[_ Hmk]].
    + exists q. split; [done|]. left. by rewrite <-E.
    + destruct (opaque_above entries q p Hw Hmk) as (e & ? & ? & ?); [by right|].
      exists (fe_Path e). eauto 10.
  - intros (q & Hab & [Hq|(e & He & <- & Ho)]).
    { left. exists q. split; [|done]. apply range_elem.
      destruct (Hm2 q) as [->|[(_&->&_) _]]; [done|by eexists]. }
    assert (plain_path (fe_Path e)) as Hpe
      by (apply well_named_paths in Hw; rewrite Forall_forall in Hw; by apply Hw).
    destruct (dir_cases _ Hpe) as [[_ Hl]|(Hd & x & E)]; [by apply above_single in Hab|].
    assert (marked entries (dir (fe_Path e))) as Hmk
      by (exists e; split_and!; [done..|]; by apply plain_not_special).
    apply (above_dir p _ x E) in Hab as [->|Hab]; [by right|left].
    exists (dir (fe_Path e)). split; [|done]. apply range_elem. apply Hmark in Hmk.
    unfold is_directory in Hmk. by destruct (m2 !! dir (fe_Path e)).
Qed.

(** Every entry of the shape is placed by the state or a directory on the way. *)
Lemma expected_cases entries m contents p e :
  well_named entries → expectedCheckoutEntries range entries = Ok (m, contents) → m !! p = Some e →
  placed entries p = Some e ∨ e = loose_directory p ∧ plain_path p ∧ holds_something entries p.
Proof using ranged.
  intros Hw H He. unfold expectedCheckoutEntries in H. apply bind_ok in H as ([m1 c] & H1 & [= <- <-]).
  set (m2 := addOpaqueCheckoutDirectories m1 entries) in *.
  pose proof (named_plain entries m1 c Hw H1) as Hplain. fold m2 in Hplain.
  destruct (implied_holds entries m1 c p Hw H1) as [Hi _]. fold m2 in Hi.
  destruct (implicit_loop m2 (range m2) (range m2) [] m2 Hplain) as [Hk _ _];
    [done|split; [by left|set_solver|by left]|].
  destruct (Hk p) as [E|[(_ & E & ?) ?]]; rewrite E in He.
  - destruct (marked_lookup entries m1 c p Hw H1) as [E'|[(_ & E' & ?) Hmk]]; fold m2 in E'; rewrite E' in He.
    + by left.
    + right. injection He as <-. split_and!; [done..|].
      destruct (opaque_above entries p p Hw Hmk) as (x & ? & ? & ?); [by left|].
      exists (fe_Path x). eauto 10.
  - right. injection He as <-. auto.
Qed.

(** What the derivation answers with is what the three passes place, with every
    directory that something under it needs: such a directory keeps the entry the
    state gave it when that is a directory, and is otherwise one whose permission
    bits nobody decides, whatever a file or a whiteout said about its name. *)
Theorem shape_entries entries m contents p :
  well_named entries → expectedCheckoutEntries range entries = Ok (m, contents) →
  (holds_something entries p →
     m !! p = match placed entries p with
              | Some e => if bool_decide (ce_kind e = "dir") then Some e else Some (loose_directory p)
              | None => Some (loose_directory p)
              end) ∧
  (¬ holds_something entries p → m !! p = placed entries p).
Proof using ranged.
  intros Hw H. unfold expectedCheckoutEntries in H. apply bind_ok in H as ([m1 c] & H1 & [= <- <-]).
  set (m2 := addOpaqueCheckoutDirectories m1 entries).
  pose proof (marked_lookup entries m1 c p Hw H1) as Hm2. fold m2 in Hm2.
  destruct (opaque_sound m1 entries (well_named_paths _ Hw)) as [_ Hmark]. fold m2 in Hmark.
  pose proof (passes_placed entries m1 c p H1) as Hm1.
  pose proof (named_plain entries m1 c Hw H1) as Hplain. fold m2 in Hplain.
  destruct (implicit_spec (range m2) m2 p Hplain) as [Hy Hn]; [intros q; apply range_elem|].
  destruct (implied_holds entries m1 c p Hw H1) as [Hi1 Hi2]. fold m2 in Hi1, Hi2.
  split; intros Hh.
  - assert (addImplicitCheckoutDirectories (range m2) m2 !! p =
      if is_directory m2 p then m2 !! p else Some (loose_directory p)) as ->.
    { destruct (Hi2 Hh) as [Hi|Hmk]; [by apply Hy|]. rewrite Hmark by done.
      destruct (implicit_loop m2 (range m2) (range m2) [] m2 Hplain) as [Hk _ _];
        [done|split; [by left|set_solver|by left]|].
      destruct (Hk p) as [?|[(Hf & _) _]]; [done|]. by rewrite Hmark in Hf. }
    unfold is_directory. destruct Hm2 as [E|[(Hf & E & _) _]]; rewrite E.
    + destruct (placed entries p); [by case_bool_decide|done].
    + cbn. unfold is_directory in Hf. rewrite Hm1 in Hf. destruct (placed entries p); [by rewrite Hf|done].
  - rewrite Hn by tauto. destruct Hm2 as [E|[_ Hmk]]; [done|].
    exfalso. apply Hh. destruct (opaque_above entries p p Hw Hmk) as (e & ? & ? & ?); [by left|].
    exists (fe_Path e). eauto 10.
Qed.
End Passes.

(** ** The sorted names *)
Definition before (p q : string) : Prop := beforeCheckoutPath p q = true.

#[export] Instance before_irrefl : Irreflexive before.
Proof.
  intros p. red. unfold before. rewrite beforeCheckoutPath_parts. apply irreflexivity, _.
Qed.
#[export] Instance before_trans : Transitive before.
Proof. intros p q r. unfold before. rewrite !beforeCheckoutPath_parts. apply transitivity. Qed.
Lemma before_total p q : before p q ∨ p = q ∨ before q p.
Proof.
  unfold before. rewrite !beforeCheckoutPath_parts.
  destruct (parts_lt_total (split_byte slash p) (split_byte slash q)) as [?|[?%split_byte_inj|?]]; tauto.
Qed.
Lemma path_le_before p q : path_le p q ↔ before p q ∨ p = q.
Proof.
  unfold path_le. rewrite <-not_true_iff_false. change (¬ before q p ↔ before p q ∨ p = q). split.
  - intros H. destruct (before_total p q) as [?|[?|?]]; tauto.
  - intros [H| ->] H'; [|by apply (irreflexivity before q)].
    apply (irreflexivity before p). by trans q.
Qed.
#[export] Instance path_le_total : Total path_le.
Proof. intros p q. rewrite !path_le_before. destruct (before_total p q) as [?|[?|?]]; auto. Qed.
#[export] Instance path_le_trans : Transitive path_le.
Proof. intros p q r. rewrite !path_le_before. intros [H| ->] [H'| ->]; auto. left. by trans q. Qed.
#[export] Instance path_le_antisymm : AntiSymm (=) path_le.
Proof.
  intros p q. rewrite !path_le_before. intros [H| ->] [H'|E]; try done.
  exfalso. apply (irreflexivity before p). by trans q.
Qed.

Lemma sorted_before l : NoDup l → StronglySorted before (merge_sort path_le l).
Proof.
  intros Hl. assert (NoDup (merge_sort path_le l)) as Hn by by rewrite merge_sort_Permutation.
  pose proof (StronglySorted_merge_sort path_le l) as Hs.
  induction Hs as [|x k Hs IH Hx]; constructor.
  - apply IH. by apply NoDup_cons in Hn as [_ ?].
  - apply NoDup_cons in Hn as [Hn _]. rewrite Forall_forall in *. intros y Hy.
    destruct (proj1 (path_le_before x y) (Hx y Hy)) as [|<-]; done.
Qed.

Lemma sorted_perm l l' : l ≡ₚ l' → merge_sort path_le l = merge_sort path_le l'.
Proof.
  intros Hp. apply (StronglySorted_unique path_le); [apply (StronglySorted_merge_sort _); apply _..|].
  by rewrite !merge_sort_Permutation.
Qed.

Lemma loose_elem m names p :
  p ∈ loose_names m names ↔ p = "." ∨ p ∈ names ∧ ∃ e, m !! p = Some e ∧ ce_fixed e = false.
Proof.
  unfold loose_names. induction names as [|x names IH] using rev_ind.
  { cbn. rewrite elem_of_singleton, elem_of_nil. tauto. }
  rewrite foldl_snoc. set (l := foldl _ _ names) in *. clearbody l. rewrite elem_of_app, list_elem_of_singleton.
  destruct (m !! x) as [e|] eqn:E; [destruct (ce_fixed e) eqn:Ef; cbn [negb]|].
  - rewrite IH. split; [tauto|]. intros [?|[[?| ->] (d & Hd & Hf)]]; [tauto|eauto 6|congruence].
  - rewrite elem_of_union, elem_of_singleton, IH. split; [|tauto].
    intros [->|[?|[??]]]; [right; eauto|tauto..].
  - rewrite IH. split; [tauto|]. intros [?|[[?| ->] (d & Hd & Hf)]]; [tauto|eauto 6|congruence].
Qed.

Section Determined.
Context {K : FvsKinds} {S : StateStore} (sha256 : string → string).

Lemma range_nodup (range : gmap string checkoutEntry → list string) m :
  (∀ m, range m ≡ₚ (map_to_list m).*1) → NoDup (range m).
Proof using. intros ->. apply NoDup_fst_map_to_list. Qed.

Lemma expected_order range range' entries :
  (∀ m, range m ≡ₚ (map_to_list m).*1) → (∀ m, range' m ≡ₚ (map_to_list m).*1) →
  well_named entries → expectedCheckoutEntries range entries = expectedCheckoutEntries range' entries.
Proof using.
  intros Hr Hr' Hw. unfold expectedCheckoutEntries.
  destruct (file_pass _ ∅ entries) as [[m1 c]|] eqn:H1; cbn; [|done]. f_equal. f_equal.
  set (m2 := addOpaqueCheckoutDirectories m1 entries).
  apply implicit_order.
  - apply Forall_forall. intros q Hq%(range_elem range Hr).
    destruct (marked_lookup entries m1 c q Hw H1) as [E|[(_&_&?) _]]; [|done].
    unfold m2 in Hq. rewrite E in Hq. by apply (placed_named entries).
  - intros x. apply range_elem, Hr.
  - by rewrite Hr, Hr'.
Qed.

(** The shape does not depend on the order the runtime ranges over its maps in:
    two derivations of one state answer with the same digest, the same loose names
    and the same contents, or with the same error. *)
Theorem shape_determined range range' repository state :
  (∀ m, range m ≡ₚ (map_to_list m).*1) → (∀ m, range' m ≡ₚ (map_to_list m).*1) →
  (∀ entries, StateFiles repository state = Ok entries → well_named entries) →
  deriveCheckoutShape sha256 range repository state = deriveCheckoutShape sha256 range' repository state.
Proof using.
  intros Hr Hr' Hw. unfold deriveCheckoutShape.
  destruct (StateFiles repository state) as [entries|] eqn:E; [|done].
  rewrite (expected_order range range') by auto.
  destruct (expectedCheckoutEntries range' entries) as [[m c]|]; cbn; [|done].
  rewrite (sorted_perm (range m) (range' m)) by by rewrite Hr, Hr'. f_equal. f_equal.
  apply set_eq. intros p. rewrite !loose_elem, Hr, Hr'. done.
Qed.
End Determined.

(** ** A state *)
#[export] Instance kinds_example : FvsKinds := Build_FvsKinds "dir" "file" "symlink" "hardlink" "fifo".
Definition file_example (path kind : string) (mode : N) (size : Z) (link : string) : FileEntry :=
  mkFile path kind mode size link ("digest of " +:+ path).
Definition state_example : list FileEntry :=
  [file_example "usr" "dir" 493 0 ""; file_example "usr/bin/tool" "file" 2541 6 "";
   file_example "usr/bin/.wh.old" "file" 384 0 ""; file_example "usr/lib/.wh..wh..opq" "file" 384 0 "";
   file_example "etc/alias" "symlink" 511 0 "../usr/bin/tool"; file_example "run.d" "fifo" 420 0 ""].
Definition keys_example (m : gmap string checkoutEntry) : list string := (map_to_list m).*1.
Definition keys_reversed (m : gmap string checkoutEntry) : list string := reverse (map_to_list m).*1.
Definition store_example : StateStore := λ _ _, Ok state_example.

Lemma state_named : well_named state_example.
Proof. apply (bool_decide_unpack _). vm_compute. exact I. Qed.

Example shape_example :
  match expectedCheckoutEntries keys_example state_example with
  | Ok (m, contents) =>
      merge_sort path_le (keys_example m) =
        ["etc"; "etc/alias"; "run.d"; "usr"; "usr/bin"; "usr/bin/old"; "usr/bin/tool"; "usr/lib"] ∧
      ce_mode <$> m !! "usr/bin/tool" = Some 493%N ∧ ce_fixed <$> m !! "usr/bin" = Some false ∧
      m !! "usr/bin/old" = Some (whiteout_entry "usr/bin/old")
  | Err _ => False
  end.
Proof. vm_compute. done. Qed.

Lemma shape_entries_witness :
  match expectedCheckoutEntries keys_example state_example with
  | Ok (m, _) => m !! "usr/bin" = Some (loose_directory "usr/bin")
  | Err _ => False
  end.
Proof.
  assert (is_ok (expectedCheckoutEntries keys_example state_example) = true) as Hok
    by (vm_compute; reflexivity).
  destruct (expectedCheckoutEntries keys_example state_example) as [[m contents]|] eqn:E; [|discriminate Hok].
  destruct (shape_entries keys_example (λ m, reflexivity _) state_example m contents "usr/bin" state_named E) as [H _].
  rewrite H; [vm_compute; reflexivity|].
  exists "usr/bin/tool". split; [exists ["tool"]; split; [discriminate|reflexivity]|].
  left. vm_compute. by eexists.
Defined.

Lemma shape_determined_witness :
  let derive := λ range, deriveCheckoutShape (S := store_example) id range "/s/fvs/layers/x" "state-1" in
  is_ok (derive keys_example) = true ∧ derive keys_example = derive keys_reversed.
Proof.
  split; [vm_compute; reflexivity|].
  apply (shape_determined (S := store_example) id keys_example keys_reversed "/s/fvs/layers/x" "state-1").
  - intros m. reflexivity.
  - intros m. unfold keys_reversed. apply reverse_Permutation.
  - intros entries [= <-]. exact state_named.
Defined.
