(* ===== verification/CheckoutWalk.v ===== *)
(** * Prepared checkouts: what is on disk ([pkg/cpak/checkout.go], [measure.go])

    The walk that measures a prepared checkout, its comparison with the shape a
    state describes, and the records the store files about it.  The tree is the
    one the kernel shows the walk; how it is opened is a parameter. *)
From Stdlib Require Import Ascii.
From stdpp Require Import base strings list sorting gmap numbers pretty.
From S2P Require Import Prelude.
From S2P Require Import GoStrings.
From S2P Require Import Utf8.
From S2P Require Import GoPath.
From S2P Require Import Hex.
From S2P Require Import Json.
From S2P Require Import RecordPaths.
From S2P Require Import Roots.
From S2P Require Import Checkout.
From stdpp Require Import options.

(** ** Objects *)

(** What the kernel answers about one object: its mode and size, the text a
    symlink holds, and the entries of a directory, none of which it may give. *)
Inductive node : Type :=
  | Unreadable
  | Node (mode : N) (size : Z) (target : option string) (entries : option (list (string * node))).

Definition S_IFMT : N := 61440.
Definition S_IFSOCK : N := 49152.
Definition S_IFLNK : N := 40960.
Definition S_IFREG : N := 32768.
Definition S_IFBLK : N := 24576.
Definition S_IFDIR : N := 16384.
Definition S_IFCHR : N := 8192.
Definition S_IFIFO : N := 4096.

Definition checkoutKind (mode : N) : string :=
  let kind := N.land mode S_IFMT in
  if bool_decide (kind = S_IFDIR) then "dir"
  else if bool_decide (kind = S_IFREG) then "file"
  else if bool_decide (kind = S_IFLNK) then "symlink"
  else if bool_decide (kind = S_IFIFO) then "fifo"
  else if bool_decide (kind = S_IFSOCK) then "socket"
  else if bool_decide (kind = S_IFCHR) then "char"
  else if bool_decide (kind = S_IFBLK) then "block"
  else "unknown".

Definition walkedCheckoutEntry (relative : string) (mode : N) (size : Z) (target : string)
    (loose : gset string) : checkoutEntry :=
  let kind := checkoutKind mode in
  mkEntry relative kind (N.land mode 4095) (bool_decide (relative ∉ loose))
    (if bool_decide (kind = "dir") then 0%Z else size) target.

(** ** The walk *)
Inductive walk_error : Type :=
  | WalkStat (path : string) | WalkLink (path : string) | WalkOpen (path : string) | WalkTooDeep.

(** [int(size) + 1] on a 64-bit machine. *)
Definition next_int (size : Z) : Z := ((size + 1 + 2 ^ 63) mod 2 ^ 64 - 2 ^ 63)%Z.

Definition checkoutLinkTarget (target : option string) (size : Z) : option string :=
  let length := next_int size in
  let length := if (length <? 128)%Z then 128%Z else length in
  t ← target;
  let read := Z.min (Z.of_nat (slen t)) length in
  if (length <=? read)%Z then None else Some t.

Definition find_entry (entries : list (string * node)) (name : string) : node :=
  match find (λ e, bool_decide (e.1 = name)) entries with Some e => e.2 | None => Unreadable end.

Section Walk.
Context (loose : gset string).

Definition link_text (mode : N) (size : Z) (target : option string) : option string :=
  if bool_decide (N.land mode S_IFMT = S_IFLNK) then checkoutLinkTarget target size else Some "".

Definition measure_name (below : string → list (string * node) → string → result walk_error string)
    (entries : list (string * node)) (prefix digest name : string) : result walk_error string :=
  let relative := prefix +:+ name in
  match find_entry entries name with
  | Unreadable => Err (WalkStat relative)
  | Node mode size target children =>
      match link_text mode size target with
      | None => Err (WalkLink relative)
      | Some text =>
          let digest := writeCheckoutEntry digest (walkedCheckoutEntry relative mode size text loose) in
          if negb (bool_decide (N.land mode S_IFMT = S_IFDIR)) then Ok digest
          else match children with
               | None => Err (WalkOpen relative)
               | Some children => below digest children (relative +:+ "/")
               end
      end
  end.

Fixpoint measure_names (one : string → string → result walk_error string) (digest : string)
    (names : list string) : result walk_error string :=
  match names with
  | [] => Ok digest
  | name :: names => digest ← one digest name; measure_names one digest names
  end.

Fixpoint measureCheckoutEntries (fuel : nat) (digest : string) (entries : list (string * node))
    (prefix : string) : result walk_error string :=
  match fuel with
  | 0 => Err WalkTooDeep
  | S fuel =>
      measure_names (measure_name (measureCheckoutEntries fuel) entries prefix) digest
        (sort_strings entries.*1)
  end.
End Walk.

Fixpoint height (n : node) : nat :=
  match n with
  | Node _ _ _ (Some entries) => S (list_max ((λ e, height e.2) <$> entries))
  | _ => 1
  end.

(** [measureCheckoutTree]; no loose names means that only the root is loose. *)
Definition measureCheckoutTree (sha256 : string → string) (root : node) (loose : option (gset string)) :
    result walk_error string :=
  let loose := default {["."]} loose in
  match root with
  | Unreadable => Err (WalkStat ".")
  | Node mode size _ children =>
      let digest := writeCheckoutEntry newCheckoutDigest (walkedCheckoutEntry "." mode size "" loose) in
      match children with
      | None => Err (WalkOpen ".")
      | Some children =>
          digest ← measureCheckoutEntries loose (height root) digest children "";
          Ok (hex_encode (sha256 digest))
      end
  end.
(** ** The text of an entry *)

(** What the digest sees of an entry: permission bits the state does not decide
    are written as a dash. *)
Definition canonical (e : checkoutEntry) : checkoutEntry :=
  mkEntry (ce_path e) (ce_kind e) (if ce_fixed e then N.land (ce_mode e) 4095 else 0)
    (ce_fixed e) (ce_size e) (ce_link e).

(** The names hold no NUL, and only a symlink has a target, of the length its size
    gives. *)
Definition readable (e : checkoutEntry) : Prop :=
  has_byte "000" (ce_path e) = false ∧ has_byte "000" (ce_kind e) = false ∧
  (ce_kind e ≠ "symlink" → ce_link e = "") ∧
  (ce_kind e = "symlink" → ce_size e = Z.of_nat (slen (ce_link e))).

Lemma octal_digit_value n : (byte (octal_digit n) - 48 = n mod 8)%N.
Proof.
  unfold octal_digit. pose proof (N.mod_lt n 8 ltac:(done)). rewrite byte_of_N by lia. by rewrite N.add_comm, N.add_sub.
Qed.

Lemma octal4_inj m n : (m < 4096)%N → (n < 4096)%N → octal4 m = octal4 n → m = n.
Proof.
  intros Hm Hn E. unfold octal4 in E. injection E as E1 E2 E3 E4.
  assert (∀ a b, octal_digit a = octal_digit b → a mod 8 = b mod 8)%N as Hd
    by (intros a b E; by rewrite <-!octal_digit_value, E).
  apply Hd in E1, E2, E3, E4. clear Hd.
  assert (∀ x, x < 4096 → x / 512 mod 8 = x / 512)%N as Htop.
  { intros x Hx. apply N.mod_small. apply N.Div0.div_lt_upper_bound. lia. }
  rewrite (Htop m Hm), (Htop n Hn) in E1.
  assert (∀ x, x = 512 * (x / 512) + 64 * (x / 64 mod 8) + 8 * (x / 8 mod 8) + x mod 8)%N as Hx.
  { intros x.
    pose proof (N.div_mod x 8 ltac:(done)). pose proof (N.div_mod (x / 8) 8 ltac:(done)).
    pose proof (N.div_mod (x / 64) 8 ltac:(done)).
    rewrite N.Div0.div_div in *. change (8 * 8)%N with 64%N in *. change (64 * 8)%N with 512%N in *. lia. }
  rewrite (Hx m), (Hx n). congruence.
Qed.

Lemma octal4_no_nul n : has_byte "000" (octal4 n) = false.
Proof.
  assert (∀ m, octal_digit m ≠ "000"%char) as H.
  { intros m E. pose proof (octal_digit_value m) as Hv. unfold octal_digit in E.
    apply (f_equal byte) in E. rewrite byte_of_N in E by (pose proof (N.mod_lt m 8 ltac:(done)); lia).
    change (byte "000") with 0%N in E. lia. }
  unfold octal4. rewrite !has_byte_cons. by rewrite !bool_decide_eq_false_2 by apply H.
Qed.

Lemma pretty_no_nul (z : Z) : has_byte "000" (pretty z) = false.
Proof.
  destruct (pretty_numeric z) as [H _]. revert H. generalize (pretty z). intros s.
  induction s as [|c s IH]; [done|]. cbn [str_forall]. intros [Hc Hs]%andb_true_iff.
  rewrite has_byte_cons, IH by done. rewrite bool_decide_eq_false_2; [done|]. by intros ->.
Qed.

Lemma nul_fields a b ra rb :
  has_byte "000" a = false → has_byte "000" b = false →
  a +:+ nul +:+ ra = b +:+ nul +:+ rb → a = b ∧ ra = rb.
Proof.
  intros Ha Hb E. unfold nul in E. cbn [String.append] in E.
  apply (f_equal (cut "000")) in E. rewrite !cut_some in E by done. by simplify_eq.
Qed.

Lemma same_length_app a b ra rb : slen a = slen b → a +:+ ra = b +:+ rb → a = b ∧ ra = rb.
Proof.
  intros Hl E. split.
  - rewrite <-(str_take_app a ra), E, Hl. apply str_take_app.
  - rewrite <-(str_drop_app a ra), E, Hl. apply str_drop_app.
Qed.

(** The text of an entry tells it from any other, whatever follows. *)
Lemma entry_text_inj e f r s :
  readable e → readable f → entry_text e +:+ r = entry_text f +:+ s →
  canonical e = canonical f ∧ r = s.
Proof.
  destruct e as [p1 k1 m1 f1 s1 l1], f as [p2 k2 m2 f2 s2 l2].
  intros (Hp & Hk & Hl & Hs) (Hp' & Hk' & Hl' & Hs') E. unfold entry_text, canonical in *. cbn in *.
  rewrite !app_assoc_str in E.
  apply nul_fields in E as [-> E]; [|done..]. rewrite ?app_assoc_str in E.
  apply nul_fields in E as [-> E]; [|done..]. rewrite ?app_assoc_str in E.
  assert (∀ (b : bool) m, has_byte "000" (if b then octal4 (N.land m 4095) else "-") = false) as Hm
    by (intros [] ?; [apply octal4_no_nul|done]).
  apply nul_fields in E as [Em E]; [|apply Hm..]. rewrite ?app_assoc_str in E.
  apply nul_fields in E as [Es E]; [|apply pretty_no_nul..]. apply (inj pretty) in Es as ->.
  rewrite ?app_assoc_str in E.
  assert (slen l1 = slen l2) as Hlen.
  { destruct (decide (k2 = "symlink")) as [->|Hne]; [|by rewrite Hl, Hl'].
    specialize (Hs eq_refl). specialize (Hs' eq_refl). unfold slen in *. lia. }
  apply (same_length_app _ _ _ _ Hlen) in E as [-> E]. unfold newline in E. cbn in E.
  injection E as ->. split; [|done].
  assert (∀ m, N.land m 4095 < 4096)%N as Hb.
  { intros m. change 4095%N with (N.ones 12). rewrite N.land_ones. by apply N.mod_lt. }
  destruct f1, f2; try done; try (cbn in Em; unfold octal4 in Em; discriminate Em).
  apply octal4_inj in Em; [|apply Hb..]. by rewrite Em.
Qed.

(** The entries of a walk or of a derivation, one after the other. *)
Definition texts (l : list checkoutEntry) : string := concat_strings (entry_text <$> l).

Lemma texts_app l k : texts (l ++ k) = texts l +:+ texts k.
Proof.
  induction l as [|e l IH]; [done|].
  change (entry_text e +:+ texts (l ++ k) = (entry_text e +:+ texts l) +:+ texts k).
  by rewrite IH, app_assoc_str.
Qed.

Lemma entry_text_nonempty e r : entry_text e +:+ r ≠ "".
Proof.
  intros E%(f_equal slen). unfold entry_text in E. rewrite !slen_app in E.
  change (slen nul) with 1 in E. change (slen "") with 0 in E. lia.
Qed.

(** The text that is digested determines the entries it was written for: no
    names, targets, sizes or modes can be chosen so that two different lists of
    entries are spelt alike, although a name or a target may hold a newline. *)
Lemma entries_spelt_once l k :
  Forall readable l → Forall readable k → texts l = texts k → canonical <$> l = canonical <$> k.
Proof.
  revert k. induction l as [|e l IH]; intros [|f k] Hl Hk E; [done|..].
  - by apply eq_sym, entry_text_nonempty in E.
  - by apply entry_text_nonempty in E.
  - apply Forall_cons in Hl as [He Hl]. apply Forall_cons in Hk as [Hf Hk].
    apply entry_text_inj in E as [E ?]; [|done..]. cbn. by rewrite E, (IH k).
Qed.

Lemma texts_canonical l k : canonical <$> l = canonical <$> k → texts l = texts k.
Proof.
  revert k. induction l as [|e l IH]; intros [|f k] E; try done. injection E as E1 E2 E3 E4 E5 E6 E.
  change (entry_text e +:+ texts l = entry_text f +:+ texts k). rewrite (IH k E). f_equal.
  unfold entry_text. rewrite E1, E2, E4, E5, E6. destruct (ce_fixed f); [|done]. by rewrite E4, E3 in *.
Qed.
(** ** What the walk lists *)
Definition child (entries : list (string * node)) (name : string) : option node :=
  snd <$> find (λ e, bool_decide (e.1 = name)) entries.

(** The object at a path below a directory. *)
Fixpoint resolve (entries : list (string * node)) (ps : list string) : option node :=
  match ps with
  | [] => None
  | x :: ps =>
      n ← child entries x;
      match ps, n with
      | [], _ => Some n
      | _, Node mode _ _ (Some children) =>
          if bool_decide (N.land mode S_IFMT = S_IFDIR) then resolve children ps else None
      | _, _ => None
      end
  end.

(** A directory holds different names, a name is no separator, dot or double dot
    and holds no NUL, and a symlink is as long as its size says. *)
Definition good_name (name : string) : Prop := plain name ∧ has_byte "000" name = false.
Definition honest_link (n : node) : Prop :=
  match n with
  | Node mode size (Some t) _ =>
      N.land mode S_IFMT = S_IFLNK → size = Z.of_nat (slen t)
  | _ => True
  end.
Inductive well_formed : list (string * node) → Prop :=
  | well_formed_intro entries :
      NoDup entries.*1 →
      (∀ name n, (name, n) ∈ entries → good_name name ∧ honest_link n) →
      (∀ name mode size target c, (name, Node mode size target (Some c)) ∈ entries → well_formed c) →
      well_formed entries.

Definition prefix_of (pp : list string) : string := foldr (λ x acc, x +:+ "/" +:+ acc) "" pp.

Lemma walk_prefix_join pp ps : ps ≠ [] → prefix_of pp +:+ join "/" ps = join "/" (pp ++ ps).
Proof.
  intros Hps. induction pp as [|x pp IH]; [done|].
  change (prefix_of (x :: pp)) with (x +:+ "/" +:+ prefix_of pp).
  rewrite !app_assoc_str, IH. cbn [app]. destruct pp as [|y pp]; [by destruct ps|done].
Qed.
Lemma prefix_of_snoc pp x : prefix_of pp +:+ x +:+ "/" = prefix_of (pp ++ [x]).
Proof.
  induction pp as [|y pp IH]; [done|]. cbn [app].
  change (prefix_of (y :: pp ++ [x])) with (y +:+ "/" +:+ prefix_of (pp ++ [x])).
  change (prefix_of (y :: pp)) with (y +:+ "/" +:+ prefix_of pp). by rewrite <-IH, !app_assoc_str.
Qed.

Lemma child_elem entries name : is_Some (child entries name) ↔ name ∈ entries.*1.
Proof.
  unfold child. rewrite fmap_is_Some, list_elem_of_fmap. split.
  - intros [e He]. apply find_elem in He as [Hin Hb]. bools_in Hb. by exists e.
  - intros (e & -> & He%list_elem_of_In). destruct (find _ entries) eqn:E; [by eexists|]. exfalso.
    pose proof (find_none _ _ E e He) as Hn. cbv beta in Hn. by rewrite bool_decide_eq_true_2 in Hn.
Qed.

Lemma child_spec entries name n : child entries name = Some n → (name, n) ∈ entries.
Proof.
  unfold child. destruct (find _ entries) as [[k m]|] eqn:E; [|done]. intros [= <-].
  apply find_elem in E as [? Hb]. cbn in Hb. bools_in Hb. by subst.
Qed.

Lemma find_child entries name :
  find_entry entries name = default Unreadable (child entries name).
Proof. unfold find_entry, child. by destruct (find _ entries). Qed.

(** The entry the walk writes for the object at a path below a directory. *)
Definition view (loose : gset string) (entries : list (string * node)) (pp ps : list string) : checkoutEntry :=
  match resolve entries ps with
  | Some (Node mode size target _) =>
      walkedCheckoutEntry (join "/" (pp ++ ps)) mode size (default "" (link_text mode size target)) loose
  | _ => root_entry
  end.

(** An object the walk could read. *)
Definition read_node (n : node) : Prop :=
  match n with
  | Unreadable => False
  | Node mode size target children =>
      is_Some (link_text mode size target) ∧ (N.land mode S_IFMT = S_IFDIR → is_Some children)
  end.

Section Listing.
Context (loose : gset string).

(** The paths a walk of one directory wrote, in order. *)
Record listed (entries : list (string * node)) (pp : list string) (names : list string)
    (d d' : string) (l : list (list string)) : Prop := {
  li_text : d' = d +:+ texts (view loose entries pp <$> l);
  li_sorted : StronglySorted parts_lt l;
  li_elem : ∀ ps, ps ∈ l ↔ ∃ name rest, ps = name :: rest ∧ name ∈ names ∧ is_Some (resolve entries ps);
  li_read : ∀ ps n, ps ∈ l → resolve entries ps = Some n → read_node n
}.

Lemma resolve_child entries name mode size target c ps :
  child entries name = Some (Node mode size target (Some c)) → N.land mode S_IFMT = S_IFDIR → ps ≠ [] →
  resolve entries (name :: ps) = resolve c ps.
Proof using.
  intros Hc Hd Hps. cbn [resolve]. rewrite Hc. cbn. destruct ps; [done|]. by rewrite bool_decide_eq_true_2.
Qed.

Lemma sorted_map_cons x l : StronglySorted parts_lt l → StronglySorted parts_lt (cons x <$> l).
Proof using.
  induction 1 as [|a l Hs IH Ha]; cbn; constructor; [done|].
  rewrite Forall_forall in *. intros b (c & -> & Hc)%list_elem_of_fmap. right. auto.
Qed.

Lemma resolve_leaf entries name mode size target children ps :
  child entries name = Some (Node mode size target children) → N.land mode S_IFMT ≠ S_IFDIR → ps ≠ [] →
  resolve entries (name :: ps) = None.
Proof using.
  intros Hc Hd Hps. cbn [resolve]. rewrite Hc. cbn. destruct ps; [done|].
  destruct children; [|done]. by rewrite bool_decide_eq_false_2.
Qed.

Definition walks (below : string → list (string * node) → string → result walk_error string) : Prop :=
  ∀ d c pp d', well_formed c → below d c (prefix_of pp) = Ok d' →
    ∃ l, listed c pp c.*1 d d' l.

Lemma listed_name below entries pp name d d' :
  walks below → well_formed entries →
  measure_name loose below entries (prefix_of pp) d name = Ok d' →
  ∃ l, listed entries pp [name] d d' l.
Proof using.
  intros Hb [ents Hnd Hgood Hsub]. unfold measure_name. cbv zeta. rewrite find_child.
  destruct (child ents name) as [[|mode size target children]|] eqn:Ec; [done| |done]. cbn [default from_option id]. 
  destruct (link_text mode size target) as [text|] eqn:Et; [|done].
  assert (prefix_of pp +:+ name = join "/" (pp ++ [name])) as Ej by by apply (walk_prefix_join pp [name]).
  rewrite Ej. intros H.
  assert (view loose ents pp [name] = walkedCheckoutEntry (join "/" (pp ++ [name])) mode size text loose) as Hv.
  { unfold view. cbn [resolve]. rewrite Ec. cbn. by rewrite Et. }
  destruct (bool_decide_reflect (N.land mode S_IFMT = S_IFDIR)) as [Hdir|Hdir]; cbn [negb] in H.
  - destruct children as [c|]; [|done].
    rewrite <-Ej, app_assoc_str, prefix_of_snoc in H.
    apply Hb in H as (lc & [Ht Hs He Hr]); [|by eapply Hsub, child_spec].
    assert (∀ ps, ps ∈ lc → ps ≠ []) as Hne by (intros ps (?&?&->&_)%He; done).
    exists ([name] :: (cons name <$> lc)). split.
    + rewrite Ht. cbn [fmap list_fmap]. rewrite Hv. unfold writeCheckoutEntry.
      change (texts (?e :: ?l)) with (entry_text e +:+ texts l). rewrite !app_assoc_str.
      enough (view loose c (pp ++ [name]) <$> lc = view loose ents pp <$> (cons name <$> lc)) as -> by by rewrite Ej.
      rewrite <-list_fmap_compose. apply list_fmap_ext. intros i ps Hps%list_elem_of_lookup_2.
      unfold compose, view. rewrite (resolve_child ents name mode size target c ps) by auto.
      by rewrite <-(assoc_L (++)).
    + constructor; [by apply sorted_map_cons|]. apply Forall_forall.
      intros ps (qs & -> & Hq)%list_elem_of_fmap. right. split; [done|].
      destruct qs; [by apply Hne in Hq|done].
    + intros ps. rewrite elem_of_cons, list_elem_of_fmap. split.
      * intros [->|(qs & -> & Hq)].
        -- exists name, []. split_and!; [done|set_solver|]. cbn. rewrite Ec. by eexists.
        -- exists name, qs. split_and!; [done|set_solver|].
           rewrite (resolve_child ents name mode size target c qs) by auto. by apply He in Hq as (?&?&_&_&?).
      * intros (x & rest & -> & ->%list_elem_of_singleton & Hx).
        destruct (decide (rest = [])) as [->|Hrest]; [by left|right]. exists rest. split; [done|].
        rewrite (resolve_child ents name mode size target c rest) in Hx by auto. apply He.
        destruct rest as [|y rest]; [done|]. exists y, rest. split_and!; [done| |done].
        apply child_elem. cbn in Hx. destruct (child c y); [by eexists|by destruct Hx].
    + intros ps n [->|(qs & -> & Hq)%list_elem_of_fmap]%elem_of_cons Hn.
      * cbn in Hn. rewrite Ec in Hn. cbn in Hn. simplify_eq. cbn. rewrite Et. naive_solver.
      * rewrite (resolve_child ents name mode size target c qs) in Hn by auto. by eapply Hr.
  - injection H as <-. exists [[name]]. split.
    + cbn [fmap list_fmap]. rewrite Hv. change (texts [?e]) with (entry_text e +:+ ""). by rewrite app_nil_str.
    + by repeat constructor.
    + intros ps. rewrite list_elem_of_singleton. split.
      * intros ->. exists name, []. split_and!; [done|set_solver|]. cbn. rewrite Ec. by eexists.
      * intros (x & rest & -> & ->%list_elem_of_singleton & Hx).
        destruct (decide (rest = [])) as [->|Hrest]; [done|].
        rewrite (resolve_leaf ents name mode size target children rest Ec Hdir Hrest) in Hx. by destruct Hx.
    + intros ps n ->%list_elem_of_singleton Hn. cbn in Hn. rewrite Ec in Hn. cbn in Hn. simplify_eq.
      cbn. rewrite Et. naive_solver.
Qed.
End Listing.
(** ** The whole walk *)
Section WholeWalk.
Context (loose : gset string).

Lemma listed_app entries pp name names d d1 d2 l1 l2 :
  listed loose entries pp [name] d d1 l1 → listed loose entries pp names d1 d2 l2 →
  Forall (λ x, str_lt name x = true) names → listed loose entries pp (name :: names) d d2 (l1 ++ l2).
Proof using.
  intros [Ht1 Hs1 He1 Hr1] [Ht2 Hs2 He2 Hr2] Hlt. split.
  - rewrite Ht2, Ht1, fmap_app, texts_app. by rewrite app_assoc_str.
  - apply StronglySorted_app_2; [|done..].
    intros a b (x & r & -> & ->%list_elem_of_singleton & _)%He1 (y & s & -> & Hy & _)%He2.
    rewrite Forall_forall in Hlt. left. by apply Hlt.
  - intros ps. rewrite elem_of_app, He1, He2. split.
    + intros [(x & r & -> & Hx & ?)|(x & r & -> & Hx & ?)]; exists x, r; split_and!; [done|set_solver|done..|set_solver|done].
    + intros (x & r & -> & [->|Hx]%elem_of_cons & ?); [left; exists name, r|right; exists x, r];
        split_and!; [done|set_solver|done..].
  - intros ps n [?|?]%elem_of_app; eauto.
Qed.

Lemma listed_names below entries pp names d d' :
  walks loose below → well_formed entries → StronglySorted (λ x y, str_lt x y = true) names →
  measure_names (measure_name loose below entries (prefix_of pp)) d names = Ok d' →
  ∃ l, listed loose entries pp names d d' l.
Proof using.
  intros Hb Hw Hs. revert d. induction Hs as [|name names Hs IH Hlt]; intros d H; cbn [measure_names] in H.
  - injection H as <-. exists []. split; [by rewrite app_nil_str|constructor| |].
    + intros ps. rewrite elem_of_nil. split; [done|]. intros (?&?&_&?%elem_of_nil&_). done.
    + by intros ps n ?%elem_of_nil.
  - apply bind_ok in H as (d1 & H1 & H).
    apply listed_name in H1 as [l1 H1]; [|done..]. apply IH in H as [l2 H2].
    exists (l1 ++ l2). by eapply listed_app.
Qed.

Lemma sort_strings_strict l : NoDup l → StronglySorted (λ x y, str_lt x y = true) (sort_strings l).
Proof using.
  intros Hn. rewrite <-(sort_strings_perm l) in Hn. pose proof (sort_strings_sorted l) as Hs.
  induction Hs as [|x k Hs IH Hx]; constructor.
  - apply IH. by apply NoDup_cons in Hn as [_ ?].
  - apply NoDup_cons in Hn as [Hn _]. rewrite Forall_forall in *. intros y Hy.
    apply str_lt_leb. split; [by apply Hx|]. by intros ->.
Qed.

Lemma listed_perm entries pp names names' d d' l :
  names ≡ₚ names' → listed loose entries pp names d d' l → listed loose entries pp names' d d' l.
Proof using.
  intros Hp [Ht Hs He Hr]. split; [done..| |done]. intros ps. rewrite He. by setoid_rewrite Hp.
Qed.

Lemma listed_walk fuel : walks loose (measureCheckoutEntries loose fuel).
Proof using.
  induction fuel as [|fuel IH]; intros d c pp d' Hw H; [done|]. cbn [measureCheckoutEntries] in H.
  apply listed_names in H as [l H]; [|done..|].
  - exists l. eapply listed_perm; [apply sort_strings_perm|done].
  - apply sort_strings_strict. by destruct Hw.
Qed.

(** Reading everything, the walk answers. *)
Definition height_entries (entries : list (string * node)) : nat := list_max ((λ e, height e.2) <$> entries).

Lemma height_child entries name n : child entries name = Some n → height n ≤ height_entries entries.
Proof using.
  intros H%child_spec. unfold height_entries.
  pose proof (proj1 (list_max_le ((λ e, height e.2) <$> entries) _) (Nat.le_refl _)) as Hm.
  rewrite List.Forall_forall in Hm. apply Hm, list_elem_of_In, list_elem_of_fmap. by exists (name, n).
Qed.

Definition all_read (entries : list (string * node)) : Prop :=
  ∀ ps n, resolve entries ps = Some n → read_node n.

Lemma all_read_child entries name mode size target c :
  all_read entries → child entries name = Some (Node mode size target (Some c)) →
  N.land mode S_IFMT = S_IFDIR → all_read c.
Proof using.
  intros Ha Hc Hd ps n Hn. destruct ps as [|x ps]; [done|].
  apply (Ha (name :: x :: ps)). by rewrite (resolve_child entries name mode size target c).
Qed.

Lemma walk_answers fuel d entries prefix :
  height_entries entries < fuel → all_read entries →
  ∃ d', measureCheckoutEntries loose fuel d entries prefix = Ok d'.
Proof using.
  revert d entries prefix. induction fuel as [|fuel IH]; intros d entries prefix Hf Ha; [lia|].
  cbn [measureCheckoutEntries].
  assert (∀ name, name ∈ sort_strings entries.*1 → name ∈ entries.*1) as Hin
    by (intros name; by rewrite sort_strings_elem).
  revert d Hin. induction (sort_strings entries.*1) as [|name names IHn]; intros d Hin; [by eexists|].
  cbn [measure_names].
  assert (∃ d1, measure_name loose (measureCheckoutEntries loose fuel) entries prefix d name = Ok d1) as [d1 H1].
  { assert (is_Some (child entries name)) as [n Hn] by (apply child_elem, Hin; set_solver).
    unfold measure_name. rewrite find_child, Hn. cbn [default from_option id].
    assert (read_node n) as Hr by (apply (Ha [name]); cbn; by rewrite Hn).
    destruct n as [|mode size target children]; [done|]. destruct Hr as [[text ->] Hr].
    destruct (bool_decide_reflect (N.land mode S_IFMT = S_IFDIR)) as [Hd|Hd]; cbn [negb]; [|by eexists].
    destruct (Hr Hd) as [c ->]. apply IH; [|by eapply all_read_child].
    pose proof (height_child _ _ _ Hn) as Hh. cbn in Hh. unfold height_entries in *. lia. }
  rewrite H1. cbn. apply IHn. set_solver.
Qed.
End WholeWalk.
(** ** The walk against the shape *)

(** An object is the one an entry describes: its kind, its permission bits where
    they are decided, its size unless it is a directory, and what a symlink says. *)
Definition same_object (e : checkoutEntry) (mode : N) (size : Z) (target : option string) : Prop :=
  ce_kind e = checkoutKind mode ∧
  (ce_fixed e = true → N.land (ce_mode e) 4095 = N.land mode 4095) ∧
  (ce_kind e ≠ "dir" → ce_size e = size) ∧
  (ce_kind e = "symlink" → target = Some (ce_link e)).

(** A tree holds the entries of a shape, each as it is described, and nothing else. *)
Definition holds_shape (m : gmap string checkoutEntry) (entries : list (string * node)) : Prop :=
  (∀ p e, m !! p = Some e → ∃ mode size target children,
     resolve entries (split_byte slash p) = Some (Node mode size target children) ∧
     same_object e mode size target) ∧
  (∀ ps n, resolve entries ps = Some n → is_Some (m !! join "/" ps)).

Lemma kind_symlink mode : checkoutKind mode = "symlink" ↔ N.land mode S_IFMT = S_IFLNK.
Proof.
  unfold checkoutKind. split; [|by intros ->].
  repeat (case_bool_decide; [done|]). by repeat case_bool_decide.
Qed.
Lemma kind_no_nul mode : has_byte "000" (checkoutKind mode) = false.
Proof. unfold checkoutKind. by repeat case_bool_decide. Qed.
Lemma kind_dir mode : N.land mode S_IFMT = S_IFDIR → checkoutKind mode = "dir".
Proof. unfold checkoutKind. by intros ->. Qed.

Lemma link_text_spec mode size target text :
  link_text mode size target = Some text →
  if bool_decide (checkoutKind mode = "symlink") then target = Some text else text = "".
Proof.
  unfold link_text. rewrite (bool_decide_ext _ _ (kind_symlink mode)).
  case_bool_decide; [|by intros [= <-]]. unfold checkoutLinkTarget. destruct target; cbn; [|done].
  case_match; [done|]. by intros [= ->].
Qed.

Lemma same_canonical e mode size target text (loose : gset string) :
  (ce_path e ∈ loose ↔ ce_fixed e = false) → (ce_kind e = "dir" → ce_size e = 0%Z) →
  (ce_kind e ≠ "symlink" → ce_link e = "") → link_text mode size target = Some text →
  canonical e = canonical (walkedCheckoutEntry (ce_path e) mode size text loose) ↔
  same_object e mode size target.
Proof.
  destruct e as [p k m f s l]. cbn. intros Hloose Hdir Hlink Ht%link_text_spec.
  unfold canonical, walkedCheckoutEntry, same_object. cbn.
  assert (bool_decide (p ∉ loose) = f) as ->.
  { destruct f; [apply bool_decide_eq_true|apply bool_decide_eq_false]; naive_solver. }
  assert (N.land (N.land mode 4095) 4095 = N.land mode 4095) as -> by by rewrite <-N.land_assoc.
  split.
  - intros [= Hk Hm Hs Hl]. split_and!; [done| | |].
    + by destruct f.
    + intros Hne. rewrite Hs. rewrite bool_decide_eq_false_2; [done|]. rewrite <-Hk. exact Hne.
    + intros E. rewrite <-Hk, E in Ht. rewrite bool_decide_eq_true_2 in Ht by done. by rewrite Hl.
  - intros (Hk & Hm & Hs & Hl). rewrite <-Hk in *. f_equal.
    + destruct f; [by apply Hm|done].
    + destruct (bool_decide_reflect (k = "dir")); [by apply Hdir|by apply Hs].
    + case_bool_decide as E; [|by rewrite Ht, Hlink]. rewrite Hl in Ht by done. by injection Ht.
Qed.

Section Exact.
Context {K : FvsKinds} (range : gmap string checkoutEntry → list string).
Context (ranged : ∀ m, range m ≡ₚ (map_to_list m).*1).

(** What the entries of a shape have in common. *)
Lemma expected_fields entries m contents p e :
  well_named entries → expectedCheckoutEntries range entries = Ok (m, contents) → m !! p = Some e →
  ce_path e = p ∧ state_name p ∧ readable e ∧ (ce_kind e = "dir" → ce_size e = 0%Z).
Proof using ranged.
  intros Hw H He.
  destruct (expected_cases range ranged entries m contents p e Hw H He) as [Hp|(-> & Hp & (q & Hq & Hh))].
  - assert (state_name p) as Hn by by apply (placed_named entries); [|eexists].
    pose proof (placed_fields entries p e Hp) as (Hpath & Hk & Hl & Hs).
    split_and!; [done..| |].
    + split_and!; [by rewrite Hpath; apply Hn| |done|by intros E; destruct (Hs E)].
      rewrite !elem_of_cons in Hk. destruct Hk as [->|[->|[->|[->|Hk]]]]; try done. by apply elem_of_nil in Hk.
    + intros Hd. revert Hp. unfold placed. destruct (last_where _ entries) as [x|].
      * destruct (deriveCheckoutEntry x) as [y|] eqn:Ey; [|done]. intros [= ->].
        apply derive_entry_fields in Ey as (_ & Hk' & _). rewrite Hd in Hk'. naive_solver.
      * destruct (last_where (λ e, bool_decide (fe_Kind e = EntryDir) && _) entries); [by intros [= <-]|].
        case_match; [by intros [= <-]|done].
  - assert (state_name q) as [Hq1 Hq2].
    { destruct Hh as [Hh|(x & Hx & <- & _)]; [by apply (placed_named entries)|].
      unfold well_named in Hw. rewrite Forall_forall in Hw. by apply Hw. }
    assert (has_byte "000" p = false) as Hnul.
    { destruct Hq as (l & Hl & E). rewrite <-(join_split slash q), E in Hq2.
      rewrite join_parts_app in Hq2 by (done || apply split_nonempty).
      change (join "/" (split_byte slash p)) with (join (String slash "") (split_byte slash p)) in Hq2.
      rewrite join_split, has_byte_app in Hq2. by apply orb_false_iff in Hq2 as [? _]. }
    split_and!; try done.
Qed.

Lemma resolve_good entries ps n :
  well_formed entries → resolve entries ps = Some n → ps ≠ [] ∧ Forall good_name ps ∧ honest_link n.
Proof using.
  revert entries. induction ps as [|x ps IH]; intros entries [ents Hnd Hg Hsub] H; [done|].
  cbn [resolve] in H. destruct (child ents x) as [c|] eqn:Ec; [|done]. cbn in H.
  pose proof (child_spec _ _ _ Ec) as Hin. destruct (Hg x c Hin) as [Hx Hc].
  destruct ps as [|y ps]; [injection H as <-; split_and!; [done| |done]; by apply Forall_singleton|].
  destruct c as [|mode size target [c|]]; [done| |done].
  destruct (bool_decide _); [|done]. apply IH in H as (_&?&?); [|by eapply Hsub].
  split_and!; [done|by constructor|done].
Qed.

Lemma good_join ps : ps ≠ [] → Forall good_name ps →
  split_byte slash (join "/" ps) = ps ∧ has_byte "000" (join "/" ps) = false.
Proof using.
  intros Hne Hg. split.
  - apply split_join_plain_list; [done|]. eapply Forall_impl; [exact Hg|]. by intros x [].
  - apply has_byte_join; [done|]. rewrite Forall_forall in Hg. intros x Hx. by apply Hg.
Qed.

Lemma view_readable loose entries ps n :
  well_formed entries → resolve entries ps = Some n → read_node n → readable (view loose entries [] ps).
Proof using.
  intros Hw Hn Hr. destruct (resolve_good entries ps n Hw Hn) as (Hne & Hg & Hh).
  destruct (good_join ps Hne Hg) as [_ Hnul]. unfold view. rewrite Hn.
  destruct n as [|mode size target children]; [done|]. destruct Hr as [[text Ht] _].
  rewrite Ht. cbn [default from_option id app]. apply link_text_spec in Ht.
  unfold readable, walkedCheckoutEntry. cbn. split_and!; [done|apply kind_no_nul| |].
  - intros Hk. by rewrite bool_decide_eq_false_2 in Ht.
  - intros Hk. rewrite bool_decide_eq_true_2 in Ht by done. subst target.
    rewrite bool_decide_eq_false_2 by by rewrite Hk. cbn in Hh. apply Hh. by apply kind_symlink.
Qed.
End Exact.
(** ** The digests agree exactly when the trees do *)
Section Measured.
Context {K : FvsKinds} {S : StateStore} (sha256 : string → string).
Context (range : gmap string checkoutEntry → list string).
Context (ranged : ∀ m, range m ≡ₚ (map_to_list m).*1).

Definition shape_list (m : gmap string checkoutEntry) (ordered : list string) : list checkoutEntry :=
  (λ name, default (mkEntry "" "" 0 false 0 "") (m !! name)) <$> ordered.

Lemma shape_text_list m ordered :
  shape_text m ordered = newCheckoutDigest +:+ texts (root_entry :: shape_list m ordered).
Proof using.
  unfold shape_text, shape_list. induction ordered as [|x l IH] using rev_ind.
  - cbn [foldl fmap list_fmap]. unfold writeCheckoutEntry.
    change (texts [root_entry]) with (entry_text root_entry +:+ ""). by rewrite app_nil_str.
  - rewrite foldl_snoc, IH, fmap_app. cbn [fmap list_fmap]. unfold writeCheckoutEntry.
    change (texts (?e :: ?a ++ ?b)) with (texts ((e :: a) ++ b)). rewrite texts_app.
    change (texts [?e]) with (entry_text e +:+ ""). by rewrite app_nil_str, app_assoc_str.
Qed.

(** What a measurement was taken of. *)
Lemma measured_text loose mode size target children measured :
  well_formed children → N.land mode S_IFMT = S_IFDIR → "." ∈ loose →
  measureCheckoutTree sha256 (Node mode size target (Some children)) (Some loose) = Ok measured →
  ∃ l root,
    measured = hex_encode (sha256 (newCheckoutDigest +:+ texts (root :: (view loose children [] <$> l)))) ∧
    canonical root = canonical root_entry ∧ readable root ∧
    StronglySorted parts_lt l ∧ (∀ ps, ps ∈ l ↔ is_Some (resolve children ps)) ∧
    (∀ ps n, ps ∈ l → resolve children ps = Some n → read_node n).
Proof using.
  intros Hw Hd Hdot H. unfold measureCheckoutTree in H. cbn [default from_option id] in H.
  apply bind_ok in H as (d & H & Hm). injection Hm as <-.
  apply (listed_walk loose _ _ _ []) in H as [l [-> Hs He Hr]]; [|done].
  set (root := walkedCheckoutEntry "." mode size "" loose) in *.
  assert (root = mkEntry "." "dir" (N.land mode 4095) false 0 "") as Hroot.
  { unfold root, walkedCheckoutEntry. rewrite (kind_dir mode Hd).
    rewrite (bool_decide_eq_false_2 ("." ∉ loose)) by tauto. done. }
  exists l, root. split_and!; [|by rewrite Hroot|by rewrite Hroot|done| |done].
  - unfold writeCheckoutEntry. by rewrite app_assoc_str.
  - intros ps. rewrite He. split; [by intros (?&?&_&_&?)|]. intros Hps.
    destruct ps as [|x ps]; [by destruct Hps|]. exists x, ps. split_and!; [done| |done].
    apply child_elem. cbn in Hps. destruct (child children x); [by eexists|by destruct Hps].
Qed.

Section Against.
Context (entries : list FileEntry) (m : gmap string checkoutEntry) (contents : gmap string string).
Context (Hw : well_named entries) (Hm : expectedCheckoutEntries range entries = Ok (m, contents)).
Context (children : list (string * node)) (Hc : well_formed children).
Context (l : list (list string)) (Hl : ∀ ps, ps ∈ l ↔ is_Some (resolve children ps)).
Context (Hread : ∀ ps n, ps ∈ l → resolve children ps = Some n → read_node n).

#[local] Notation loose := (loose_names m (range m)).

Lemma ordered_elem p : p ∈ merge_sort path_le (range m) ↔ is_Some (m !! p).
Proof using ranged. rewrite merge_sort_Permutation. by apply range_elem. Qed.

Lemma loose_fixed p e : m !! p = Some e → p ∈ loose ↔ ce_fixed e = false.
Proof using Hm Hw ranged.
  intros He. destruct (expected_fields range ranged entries m contents p e Hw Hm He) as (_&[Hp _]&_).
  apply plain_not_special in Hp as (Hdot&_). rewrite loose_elem, range_elem by done. split.
  - intros [?|(_ & d & Hd & ?)]; [done|]. by rewrite He in Hd; injection Hd as ->.
  - intros ?. right. split; [by eexists|by exists e].
Qed.

(** One entry and the object at its path. *)
Lemma view_same p e ps mode size target c :
  m !! p = Some e → p = join "/" ps → ps ∈ l → resolve children ps = Some (Node mode size target c) →
  canonical e = canonical (view loose children [] ps) ↔ same_object e mode size target.
Proof using Hm Hw Hread ranged.
  intros He -> Hps Hn. unfold view. rewrite Hn. cbn [app].
  destruct (Hread _ _ Hps Hn) as [[text Ht] _]. rewrite Ht. cbn [default from_option id].
  destruct (expected_fields range ranged entries m contents _ e Hw Hm He) as (Hp & _ & (_ & _ & Hlk & _) & Hd).
  rewrite <-Hp. apply same_canonical; [|done..]. rewrite Hp. by apply loose_fixed.
Qed.

Lemma paths_split ps : ps ∈ l → split_byte slash (join "/" ps) = ps ∧ ps ≠ [].
Proof using Hc Hl.
  intros [n Hn]%Hl. destruct (resolve_good children ps n Hc Hn) as (Hne & Hg & _).
  split; [|done]. by apply good_join.
Qed.

Lemma joined_sorted : StronglySorted parts_lt l → StronglySorted before (join "/" <$> l).
Proof using Hc Hl.
  intros Hs. assert (∀ ps, ps ∈ l → split_byte slash (join "/" ps) = ps) as Hj by (intros; by apply paths_split).
  clear Hl Hread. induction Hs as [|a k Hs IH Ha]; cbn; constructor.
  - apply IH. intros ps Hps. apply Hj. by right.
  - rewrite Forall_forall in Ha. apply Forall_forall. intros b (ps & -> & Hps)%list_elem_of_fmap.
    unfold before. apply beforeCheckoutPath_parts. rewrite (Hj a), (Hj ps) by (by left || by right). by apply Ha.
Qed.

Lemma same_names : StronglySorted parts_lt l → holds_shape m children →
  merge_sort path_le (range m) = join "/" <$> l.
Proof using Hc Hl ranged.
  intros Hs [H1 H2].
  assert (∀ k, StronglySorted before k → StronglySorted path_le k ∧ NoDup k) as Hstrict.
  { intros k Hk. induction Hk as [|x k Hk [IH1 IH2] Hx]; [by split; constructor|].
    rewrite Forall_forall in Hx. split; constructor; try done.
    - apply Forall_forall. intros y Hy. apply path_le_before. left. by apply Hx.
    - intros Hin. by apply (irreflexivity before x), Hx. }
  destruct (Hstrict _ (joined_sorted Hs)) as [Hj Hjn].
  destruct (Hstrict _ (sorted_before (range m) (range_nodup range m ranged))) as [Ho Hon].
  apply (StronglySorted_unique path_le); [done..|]. apply NoDup_Permutation; [done..|].
  intros p. rewrite ordered_elem, list_elem_of_fmap. split.
  - intros [e He]. destruct (H1 p e He) as (mode & size & target & c & Hn & _).
    exists (split_byte slash p). split; [symmetry; apply (join_split slash)|]. apply Hl. by eexists.
  - intros (ps & -> & [n Hn]%Hl). by eapply H2.
Qed.

Lemma lists_agree :
  StronglySorted parts_lt l →
  canonical <$> shape_list m (merge_sort path_le (range m)) =
    canonical <$> (view loose children [] <$> l) ↔ holds_shape m children.
Proof using Hc Hl Hm Hread Hw ranged.
  intros Hs. unfold shape_list. split.
  - intros E. rewrite <-!list_fmap_compose in E.
    assert (∀ i p ps, merge_sort path_le (range m) !! i = Some p → l !! i = Some ps →
      ∃ e, m !! p = Some e ∧ canonical e = canonical (view loose children [] ps) ∧ p = join "/" ps) as Hi.
    { intros i p ps Hp Hps. apply (f_equal (.!! i)) in E. rewrite !list_lookup_fmap, Hp, Hps in E.
      cbn [fmap option_fmap option_map] in E. apply (inj Some) in E. unfold compose in E.
      assert (is_Some (m !! p)) as [e He] by (apply ordered_elem, list_elem_of_lookup; eauto).
      rewrite He in E. cbn [default from_option id] in E. exists e. split_and!; [done..|].
      destruct (expected_fields range ranged entries m contents p e Hw Hm He) as (Hp' & _).
      apply (f_equal ce_path) in E. unfold canonical in E. cbn [ce_path] in E. rewrite Hp' in E. rewrite E. unfold view.
      apply list_elem_of_lookup_2 in Hps. pose proof Hps as [n Hn]%Hl. rewrite Hn.
      pose proof (Hread ps n Hps Hn) as Hr. by destruct n. }
    assert (length (merge_sort path_le (range m)) = length l) as Hlen
      by (apply (f_equal length) in E; by rewrite !length_fmap in E).
    split.
    + intros p e He. assert (p ∈ merge_sort path_le (range m)) as [i Hp]%list_elem_of_lookup
        by (apply ordered_elem; by eexists).
      destruct (lookup_lt_is_Some_2 l i) as [ps Hps]; [rewrite <-Hlen; by eapply lookup_lt_Some|].
      destruct (Hi i p ps Hp Hps) as (e' & He' & Ee & ->). assert (e' = e) as -> by congruence.
      apply list_elem_of_lookup_2 in Hps. destruct (paths_split ps Hps) as [-> _].
      pose proof Hps as [n Hn]%Hl. pose proof (Hread ps n Hps Hn) as Hr.
      destruct n as [|mode size target c]; [done|]. exists mode, size, target, c. split; [done|].
      by eapply view_same.
    + intros ps n Hn. assert (ps ∈ l) as [i Hps]%list_elem_of_lookup by (apply Hl; by eexists).
      destruct (lookup_lt_is_Some_2 (merge_sort path_le (range m)) i) as [p Hp];
        [rewrite Hlen; by eapply lookup_lt_Some|].
      destruct (Hi i p ps Hp Hps) as (e & He & _ & <-). by eexists.
  - intros Hh. rewrite (same_names Hs Hh). rewrite <-!list_fmap_compose.
    apply list_fmap_ext. intros i ps Hps%list_elem_of_lookup_2. cbn [compose].
    destruct (paths_split ps Hps) as [Esp _]. destruct Hh as [H1 H2].
    pose proof Hps as [n Hn]%Hl. destruct (H2 ps n Hn) as [e He]. unfold compose. rewrite He.
    destruct (H1 _ e He) as (mode & size & target & c & Hn' & Hsame). rewrite Esp in Hn'.
    cbn [default from_option id]. by eapply view_same.
Qed.
End Against.

(** Measuring a prepared checkout answers with the digest of the shape exactly
    when the tree holds the entries the state describes and nothing else: every
    name with its kind, its size, the target of a symlink, and the permission bits
    the state decides.  The other way round, equal digests of different trees are
    a collision of the hash, however the names and targets were chosen. *)
Theorem measurement_exact repository state entries m contents shape mode size target children measured :
  StateFiles repository state = Ok entries → well_named entries →
  expectedCheckoutEntries range entries = Ok (m, contents) →
  deriveCheckoutShape sha256 range repository state = Ok shape →
  well_formed children → N.land mode S_IFMT = S_IFDIR →
  measureCheckoutTree sha256 (Node mode size target (Some children)) (Some (cs_loose shape)) = Ok measured →
  (holds_shape m children → measured = cs_digest shape) ∧
  (measured = cs_digest shape → holds_shape m children ∨ collision sha256).
Proof using ranged.
  intros Hst Hw Hm Hs Hc Hd H. unfold deriveCheckoutShape in Hs. rewrite Hst, Hm in Hs. cbn in Hs.
  injection Hs as <-. cbn [cs_loose cs_digest] in *.
  assert ("." ∈ loose_names m (range m)) as Hdot by (apply loose_elem; by left).
  destruct (measured_text _ _ _ _ _ _ Hc Hd Hdot H) as (l & root & -> & Hroot & Hrr & Hsort & Hl & Hread).
  rewrite shape_text_list.
  pose proof (lists_agree entries m contents Hw Hm children Hc l Hl Hread Hsort) as Hagree.
  change (texts (?e :: ?k)) with (entry_text e +:+ texts k). split.
  - intros Hh%Hagree. do 3 f_equal. apply (texts_canonical (root :: _) (root_entry :: _)).
    cbn [fmap list_fmap]. by rewrite Hroot, Hh.
  - intros [E|?]%digest_or_collision; [left|by right]. apply app_inv_head_str in E.
    apply (entries_spelt_once (root :: _) (root_entry :: _)) in E.
    + apply Hagree. cbn in E. by injection E as _ E.
    + constructor; [done|]. apply Forall_forall. intros e (ps & -> & Hps)%list_elem_of_fmap.
      pose proof Hps as [n Hn]%Hl. eapply view_readable; eauto.
    + constructor; [by split_and!|]. apply Forall_forall.
      intros e (p & -> & Hp)%list_elem_of_fmap. apply ordered_elem in Hp as [e He]. rewrite He.
      by eapply (expected_fields range ranged).
Qed.
End Measured.

(** The walk skips nothing and always ends: it answers with a measurement when,
    and only when, every object below the directory could be read, every symlink
    with its whole target and every directory with its names. *)
Theorem measurement_total sha256 loose mode size target children :
  well_formed children →
  (∃ measured, measureCheckoutTree sha256 (Node mode size target (Some children)) loose = Ok measured) ↔
  all_read children.
Proof.
  intros Hw. unfold measureCheckoutTree. split.
  - intros [measured H] ps n Hn. apply bind_ok in H as (d & H & _).
    apply (listed_walk _ _ _ _ []) in H as [l [_ _ He Hr]]; [|done].
    apply (Hr ps n); [|done]. apply He. destruct ps as [|x ps]; [done|].
    exists x, ps. split_and!; [done| |by eexists]. apply child_elem.
    cbn in Hn. destruct (child children x); [by eexists|done].
  - intros Ha.
    destruct (walk_answers (default {["."]} loose) (height (Node mode size target (Some children)))
      (writeCheckoutEntry newCheckoutDigest (walkedCheckoutEntry "." mode size "" (default {["."]} loose)))
      children "") as [d ->]; [|done|by eexists].
    cbn. unfold height_entries. lia.
Qed.

(** ** A tree of the state of [Checkout.v] *)
Definition leaf_example (mode : N) (size : Z) : node := Node mode size None None.
Definition dir_example (mode : N) (entries : list (string * node)) : node := Node mode 4096 None (Some entries).
Definition etc_example : list (string * node) := [("alias", Node 41471 15 (Some "../usr/bin/tool") None)].
Definition bin_example (tool : node) : list (string * node) := [("tool", tool); ("old", leaf_example 33152 0)].
Definition usr_example (tool : node) : list (string * node) :=
  [("lib", dir_example 16832 []); ("bin", dir_example 16832 (bin_example tool))].
Definition tree_example (tool : node) : list (string * node) :=
  [("usr", dir_example 16877 (usr_example tool)); ("run.d", leaf_example 4480 0);
   ("etc", dir_example 16877 etc_example)].

(** Both sides of the comparison, for a tool with this mode and this size. *)
Definition measured_example (tool : node) : option bool :=
  match deriveCheckoutShape (S := store_example) id keys_example "r" "s" with
  | Ok shape =>
      match measureCheckoutTree id (dir_example 16877 (tree_example tool)) (Some (cs_loose shape)) with
      | Ok measured => Some (bool_decide (measured = cs_digest shape))
      | Err _ => None
      end
  | Err _ => None
  end.
Example trees_compared :
  measured_example (leaf_example 33261 6) = Some true ∧
  measured_example (leaf_example 35309 6) = Some false ∧ measured_example (leaf_example 33261 7) = Some false ∧
  measured_example (Node 41471 6 (Some "target") None) = Some false ∧
  measured_example Unreadable = None.
Proof. vm_compute. done. Qed.

#[local] Instance good_name_dec name : Decision (good_name name).
Proof. unfold good_name. apply _. Defined.
#[local] Instance honest_link_dec n : Decision (honest_link n).
Proof. destruct n as [|mode size [t|] c]; cbn; apply _. Defined.

Lemma leaf_formed entries :
  NoDup entries.*1 → Forall (λ e, good_name e.1 ∧ honest_link e.2) entries →
  Forall (λ e, match e.2 with Node _ _ _ (Some c) => well_formed c | _ => True end) entries → well_formed entries.
Proof.
  rewrite !Forall_forall. intros Hn Hg Hc. constructor; [done| |].
  - intros name n Hin. by apply (Hg (name, n)).
  - intros name mode size target c Hin. by apply (Hc _ Hin).
Qed.

Ltac formed :=
  apply leaf_formed;
    [apply (bool_decide_unpack _); vm_compute; exact I|apply (bool_decide_unpack _); vm_compute; exact I
    |repeat (apply Forall_cons; split; [first [exact I|assumption]|]); apply Forall_nil; exact I].

Lemma tree_formed tool :
  match tool with Node mode size None None => True | _ => False end → well_formed (tree_example tool).
Proof.
  intros Htool. destruct tool as [|mode size [t|] [c|]]; try contradiction Htool. clear Htool.
  assert (well_formed []) as H0 by formed.
  assert (well_formed etc_example) as H1 by formed.
  assert (well_formed (bin_example (Node mode size None None))) as H2 by formed.
  assert (well_formed (usr_example (Node mode size None None))) as H3 by formed.
  formed.
Qed.

Lemma measurement_exact_witness :
  match expectedCheckoutEntries keys_example state_example with
  | Ok (m, _) => holds_shape m (tree_example (leaf_example 33261 6))
  | Err _ => False
  end.
Proof.
  assert (measured_example (leaf_example 33261 6) = Some true) as Hsame by (vm_compute; reflexivity).
  unfold measured_example in Hsame.
  destruct (deriveCheckoutShape (S := store_example) id keys_example "r" "s") as [shape|] eqn:Es;
    [|discriminate Hsame].
  destruct (measureCheckoutTree id (dir_example 16877 (tree_example (leaf_example 33261 6))) (Some (cs_loose shape)))
    as [measured|] eqn:Em; [|discriminate Hsame].
  injection Hsame as Hsame. apply bool_decide_eq_true_1 in Hsame.
  assert (is_ok (expectedCheckoutEntries keys_example state_example) = true) as Hok by (vm_compute; reflexivity).
  destruct (expectedCheckoutEntries keys_example state_example) as [[m contents]|] eqn:Ex; [|discriminate Hok].
  destruct (measurement_exact (S := store_example) id keys_example (λ m, reflexivity _) "r" "s" state_example m contents
    shape 16877 4096 None (tree_example (leaf_example 33261 6)) measured eq_refl state_named Ex Es (tree_formed (leaf_example 33261 6) I) eq_refl Em)
    as [_ H].
  destruct (H Hsame) as [Hh|(x & y & Hne & E)]; [exact Hh|]. exfalso. exact (Hne E).
Defined.

Lemma measurement_total_witness :
  ¬ all_read (tree_example (leaf_example 41471 6)).
Proof.
  intros Ha.
  destruct (measurement_total id None 16877 4096 None (tree_example (leaf_example 41471 6))
    (tree_formed (leaf_example 41471 6) I)) as [_ H].
  destruct (H Ha) as [measured Hm]. vm_compute in Hm. discriminate Hm.
Defined.
