(* ===== verification/Bindings.v ===== *)
(** * Layer bindings ([pkg/integrity/bindings.go], [pkg/cpak/binding.go])

    What ties a layer of a registry to the state the store made of it: one record
    per layer, written once.  The pulls that write them run side by side, so a
    binding is a process of steps over a shared directory. *)
From Stdlib Require Import Ascii.
From stdpp Require Import base strings list gmap numbers pretty sorting.
From S2P Require Import Prelude.
From S2P Require Import GoStrings.
From S2P Require Import Regex.
From S2P Require Import Utf8.
From S2P Require Import GoPath.
From S2P Require Import Hex.
From S2P Require Import Json.
From S2P Require Import RecordPaths.
From S2P Require Import Roots.
From S2P Require Import Checkout.
From stdpp Require Import options.

Definition bindingLimit : nat := 4096.

Inductive binding_error : Type :=
  | InvalidLayerDigest (reference : string) | LayerUnbound (digest : string) | BindingStage | BindingPublish
  | BindingRead | BindingTooLarge (digest : string) | BindingUndecoded (digest : string)
  | BindingMisnamed (digest : string) | BindingConflict (digest : string).

(** [canonicalLayerDigest]. *)
Definition digest_character (c : ascii) : bool := in_set [("0", "9"); ("a", "f")]%char c.
Definition canonicalLayerDigest (reference : string) : result binding_error string :=
  let digest := trim_prefix "sha256:" reference in
  check_that (bool_decide (slen digest = 64)) (InvalidLayerDigest reference) ;;;
  check_that (str_forall digest_character digest) (InvalidLayerDigest reference) ;;;
  Ok digest.

(** What the JSON decoder makes of a file that is one record of the known fields. *)
Class BindingCodec : Type := decode_binding : string → option LayerBinding.
Definition binding_text (b : LayerBinding) : string := encode (layer_json b) +:+ newline.
#[global] Arguments binding_text : simpl never.

Section Bindings.
Context {codec : BindingCodec} (directory : string).

Definition binding_path (digest : string) : string := path_join [directory; digest +:+ ".json"].
(** A name [os.CreateTemp] makes for the pattern [.binding-]. *)
Definition staged_path (n : N) : string := path_join [directory; ".binding-" +:+ pretty n].

(** [Lookup]; the read itself can fail. *)
Definition Lookup_binding (files : gmap string string) (fault : bool) (ociDigest : string) :
    result binding_error (option LayerBinding) :=
  digest ← canonicalLayerDigest ociDigest;
  if fault then Err BindingRead
  else
    match files !! binding_path digest with
    | None => Ok None
    | Some data =>
        refuse_if (bindingLimit <? slen data) (BindingTooLarge digest) ;;;
        match decode_binding data with
        | None => Err (BindingUndecoded digest)
        | Some b =>
            check_that (bool_decide (OCIDigest b = digest)) (BindingMisnamed digest) ;;;
            refuse_if (bool_decide (StateID b = "") || bool_decide (StateRoot b = "")) (LayerUnbound digest) ;;;
            Ok (Some b)
        end
    end.

(** ** Bind, step by step *)

(** Where a call of [Bind] stands.  A call that staged its record removes it when
    it returns. *)
Inductive binding_call : Type :=
  | Called (b : LayerBinding)
  | StagedAs (b : LayerBinding) (tmp : string)
  | Contended (b : LayerBinding) (tmp : string)
  | Returning (b : LayerBinding) (r : result binding_error unit) (tmp : string)
  | Returned (b : LayerBinding) (r : result binding_error unit).

(** What a step meets: the system call fails, or it works, and a name is made. *)
Inductive outcome : Type := Fails | Works (n : N).

Definition Bind_checks (b : LayerBinding) : result binding_error LayerBinding :=
  digest ← canonicalLayerDigest (OCIDigest b);
  refuse_if (bool_decide (StateID b = "") || bool_decide (StateRoot b = "")) (LayerUnbound digest) ;;;
  Ok (mkLayer digest (StateID b) (StateRoot b)).

Definition binding_step (o : outcome) (files : gmap string string) (call : binding_call) :
    gmap string string * binding_call :=
  match call with
  | Called b =>
      match Bind_checks b with
      | Err e => (files, Returned b (Err e))
      | Ok b =>
          match o with
          | Fails => (files, Returned b (Err BindingStage))
          | Works n =>
              let tmp := staged_path n in
              (* a name that is taken is another try *)
              if bool_decide (is_Some (files !! tmp)) then (files, call)
              else (<[tmp := binding_text b]> files, StagedAs b tmp)
          end
      end
  | StagedAs b tmp =>
      match o with
      | Fails => (files, Returning b (Err BindingPublish) tmp)
      | Works _ =>
          let path := binding_path (OCIDigest b) in
          match files !! path, files !! tmp with
          | Some _, _ => (files, Contended b tmp)
          | None, Some data => (<[path := data]> files, Returning b (Ok tt) tmp)
          | None, None => (files, Returning b (Err BindingPublish) tmp)
          end
      end
  | Contended b tmp =>
      let r :=
        match Lookup_binding files (match o with Fails => true | Works _ => false end) (OCIDigest b) with
        | Err e => Err e
        | Ok existing =>
            if bool_decide (existing = Some b) then Ok tt else Err (BindingConflict (OCIDigest b))
        end in
      (files, Returning b r tmp)
  | Returning b r tmp => (match o with Fails => files | Works _ => delete tmp files end, Returned b r)
  | Returned _ _ => (files, call)
  end.

(** ** Calls side by side *)
Definition system : Type := gmap string string * list binding_call.

(** The call that moves, and what its step meets. *)
Definition system_step (s : system) (event : nat * outcome) : system :=
  match s.2 !! event.1 with
  | None => s
  | Some call =>
      let '(files, call) := binding_step event.2 s.1 call in (files, <[event.1 := call]> s.2)
  end.
Definition run (s : system) (events : list (nat * outcome)) : system := foldl system_step s events.
End Bindings.

(** ** What a pull binds *)
Section Record.
Context {S : StateStore} (sha256 : string → string).
(** The states of a repository, newest first, and the JSON of a list of entries. *)
Context (States_of : string → result state_error (list string)) (encode_entries : list FileEntry → string).

Definition by_path (e f : FileEntry) : Prop := String.le (fe_Path e) (fe_Path f).
#[export] Instance by_path_dec : RelDecision by_path := λ e f, String.le_dec _ _.

Definition layerStateRoot_of (repository state : string) : result state_error string :=
  entries ← StateFiles repository state;
  Ok (hex_encode (sha256 ("cpak.layer-state.v" +:+ pretty ABIVersion +:+ newline +:+
    encode_entries (merge_sort by_path entries)))).

Inductive record_error : Type := StatesUnread | NoState | StateRootFailed.

(** [recordLayerBinding], up to the call of [Bind]. *)
Definition layer_binding_of (repository digest : string) : result record_error LayerBinding :=
  states ← wrap (λ _, StatesUnread) (States_of repository);
  match states with
  | [] => Err NoState
  | id :: _ =>
      root ← wrap (λ _, StateRootFailed) (layerStateRoot_of repository id);
      Ok (mkLayer digest id root)
  end.
End Record.
(** ** Paths *)
Lemma canonical_digest reference digest :
  canonicalLayerDigest reference = Ok digest ↔
    digest = trim_prefix "sha256:" reference ∧ slen digest = 64 ∧ str_forall digest_character digest = true.
Proof.
  unfold canonicalLayerDigest. rewrite !bind_unit_ok. bools. naive_solver.
Qed.

Lemma digest_lacks c digest :
  digest_character c = false → str_forall digest_character digest = true → has_byte c digest = false.
Proof.
  intros Hc. induction digest as [|d s IH]; [done|]. cbn [str_forall]. intros [Hd Hs]%andb_true_iff.
  rewrite has_byte_cons, IH, orb_false_r by done. apply bool_decide_eq_false. intros ->. by rewrite Hc in Hd.
Qed.

(** The bare and the prefixed spelling of a digest are one layer. *)
Lemma canonical_bare digest :
  slen digest = 64 → str_forall digest_character digest = true →
  canonicalLayerDigest digest = Ok digest ∧ canonicalLayerDigest ("sha256:" +:+ digest) = Ok digest.
Proof.
  intros Hl Hs. rewrite !canonical_digest, trim_prefix_app. split; [|done].
  split; [|done]. unfold trim_prefix. destruct (has_prefix "sha256:" digest) eqn:E; [|done].
  apply has_prefix_iff in E as [t ->]. discriminate Hs.
Qed.

Section Paths.
Context (directory : string) (absolute : is_abs directory = true).

Lemma record_name_plain digest :
  str_forall digest_character digest = true → plain (digest +:+ ".json").
Proof using.
  intros Hs. pose proof (digest_lacks slash digest eq_refl Hs) as Hb.
  assert (5 ≤ slen (digest +:+ ".json")) as Hlen by (rewrite slen_app; unfold slen; cbn; lia).
  unfold plain. split_and!; [intros E; rewrite E in Hlen; cbn in Hlen; lia..|]. by rewrite has_byte_app, Hb.
Qed.
Lemma staged_name_plain (n : N) : plain (".binding-" +:+ pretty n).
Proof using.
  destruct (uid_plain n) as (_&_&_&Hb). split_and!; [done..|]. by rewrite has_byte_app, Hb.
Qed.

Lemma joined_inj x y : plain x → plain y → path_join [directory; x] = path_join [directory; y] → x = y.
Proof using absolute.
  intros Hx Hy E.
  destruct (join_plain directory [x]) as (_&_&Ex); [done|by apply Forall_singleton|done|].
  destruct (join_plain directory [y]) as (_&_&Ey); [done|by apply Forall_singleton|done|].
  rewrite E, Ey in Ex. apply app_inv_head in Ex. by injection Ex.
Qed.

Lemma binding_path_inj d d' :
  str_forall digest_character d = true → str_forall digest_character d' = true →
  binding_path directory d = binding_path directory d' → d = d'.
Proof using absolute.
  intros Hd Hd' E%joined_inj; [|by apply record_name_plain..].
  by apply (f_equal (trim_suffix ".json")) in E; rewrite !trim_suffix_app in E.
Qed.
Lemma staged_apart d n :
  slen d = 64 → str_forall digest_character d = true → staged_path directory n ≠ binding_path directory d.
Proof using absolute.
  intros Hl Hd E%joined_inj; [|apply staged_name_plain|by apply record_name_plain].
  destruct d as [|c d]; [done|]. cbn in E. injection E as <- _. discriminate Hd.
Qed.
End Paths.

(** ** What holds of the directory and of the calls, whatever the interleaving *)
Definition storable (b : LayerBinding) : Prop :=
  valid_utf8 (StateID b) = true ∧ valid_utf8 (StateRoot b) = true ∧ slen (binding_text b) ≤ bindingLimit.
Class BindingLaws (codec : BindingCodec) : Prop :=
  decode_binding_text : ∀ b, valid_utf8 (OCIDigest b) = true → storable b → decode_binding (binding_text b) = Some b.

Definition hexadecimal (digest : string) : Prop := slen digest = 64 ∧ str_forall digest_character digest = true.
(** A binding [Bind] accepts, under its canonical name. *)
Definition checked (b : LayerBinding) : Prop :=
  hexadecimal (OCIDigest b) ∧ StateID b ≠ "" ∧ StateRoot b ≠ "" ∧ storable b.

Section Once.
Context {codec : BindingCodec} {laws : BindingLaws codec}.
Context (directory : string) (absolute : is_abs directory = true).

#[local] Notation binding_path := (binding_path directory).
#[local] Notation staged_path := (staged_path directory).

Lemma hexadecimal_utf8 digest : hexadecimal digest → valid_utf8 digest = true.
Proof using.
  intros [_ H]. assert (str_forall ascii_byte digest = true) as Ha.
  { revert H. apply str_forall_impl. by_bytes. }
  unfold valid_utf8. rewrite runes_ascii by done. apply forallb_elem.
  intros x (c & -> & Hc)%list_elem_of_fmap. unfold invalid_item. cbn [fst snd].
  destruct (N.eqb_spec (byte c) rune_error) as [E|]; [|done].
  pose proof (byte_bound c). rewrite E in *. by vm_compute in H0.
Qed.

Lemma checked_decode b : checked b → decode_binding (binding_text b) = Some b.
Proof using laws. intros (Hh & _ & _ & Hs). apply decode_binding_text; [by apply hexadecimal_utf8|done]. Qed.

Lemma checks_ok b b' :
  Bind_checks b = Ok b' → storable b' → checked b' ∧ canonicalLayerDigest (OCIDigest b) = Ok (OCIDigest b').
Proof using.
  unfold Bind_checks. intros (d & Hd & (Hne & [= <-])%bind_unit_ok)%bind_ok Hs.
  bools_in Hne. apply canonical_digest in Hd as Hd'. destruct Hd' as (_ & ? & ?).
  destruct Hne as [? ?]. by split.
Qed.

(** The record of a layer, where there is one, is the text of a checked binding of
    that layer. *)
Definition records_sound (files : gmap string string) : Prop :=
  ∀ d data, hexadecimal d → files !! binding_path d = Some data →
    ∃ b, data = binding_text b ∧ OCIDigest b = d ∧ checked b.
Definition recorded (files : gmap string string) (b : LayerBinding) : Prop :=
  files !! binding_path (OCIDigest b) = Some (binding_text b).

(** The staged record a call still has to remove. *)
Definition staged_by (call : binding_call) : option string :=
  match call with
  | StagedAs _ tmp | Contended _ tmp | Returning _ _ tmp => Some tmp
  | Called _ | Returned _ _ => None
  end.
Definition answer_sound (files : gmap string string) (b : LayerBinding) (r : result binding_error unit) : Prop :=
  match r with
  | Ok _ => checked b ∧ recorded files b
  | Err (BindingConflict d) => d = OCIDigest b ∧ hexadecimal d ∧ ∃ b', b' ≠ b ∧ OCIDigest b' = d ∧ checked b' ∧ recorded files b'
  | Err _ => True
  end.
Definition call_sound (files : gmap string string) (call : binding_call) : Prop :=
  match call with
  | Called b => ∀ b', Bind_checks b = Ok b' → storable b'
  | StagedAs b tmp => checked b ∧ files !! tmp = Some (binding_text b)
  | Contended b tmp => checked b ∧ is_Some (files !! binding_path (OCIDigest b))
  | Returning b r _ | Returned b r => answer_sound files b r
  end.
Record system_sound (s : system) : Prop := {
  ss_records : records_sound s.1;
  ss_calls : ∀ i call, s.2 !! i = Some call → call_sound s.1 call;
  ss_staged : ∀ i call tmp, s.2 !! i = Some call → staged_by call = Some tmp →
    (∃ n, tmp = staged_path n) ∧ is_Some (s.1 !! tmp);
  ss_apart : ∀ i j call call' tmp, s.2 !! i = Some call → s.2 !! j = Some call' →
    staged_by call = Some tmp → staged_by call' = Some tmp → i = j
}.

(** Nothing a record says changes. *)
Definition keeps_records (files files' : gmap string string) : Prop :=
  ∀ d data, hexadecimal d → files !! binding_path d = Some data → files' !! binding_path d = Some data.

Lemma keeps_recorded files files' b : checked b → keeps_records files files' → recorded files b → recorded files' b.
Proof using. intros (Hd & _) Hk H. by apply Hk. Qed.

Lemma keeps_answer files files' b r : keeps_records files files' → answer_sound files b r → answer_sound files' b r.
Proof using.
  intros Hk. destruct r as [u|e]; cbn.
  - intros [Hc Hr]. split; [done|]. by eapply keeps_recorded.
  - destruct e; try done. intros (?&?&b'&?&?&?&?). split_and!; [done..|]. exists b'. split_and!; [done..|].
    by eapply keeps_recorded.
Qed.

Lemma lookup_recorded files b :
  checked b → recorded files b →
  ∀ reference, canonicalLayerDigest reference = Ok (OCIDigest b) →
    Lookup_binding directory files false reference = Ok (Some b).
Proof using laws.
  intros Hc Hr reference Href. unfold Lookup_binding. rewrite Href. cbn [mbind result_bind]. rewrite Hr.
  pose proof (checked_decode b Hc) as Hd. destruct Hc as (_ & Hs1 & Hs2 & _ & _ & Hlen).
  unfold refuse_if, check_that. assert ((bindingLimit <? slen (binding_text b)) = false) as -> by by apply Nat.ltb_ge.
  cbn [mbind result_bind].
  rewrite Hd. rewrite (bool_decide_eq_true_2 (OCIDigest b = OCIDigest b)) by done. cbn [mbind result_bind].
  by rewrite (bool_decide_eq_false_2 (StateID b = "")), (bool_decide_eq_false_2 (StateRoot b = "")).
Qed.

Lemma staged_not_record d n : hexadecimal d → staged_path n ≠ binding_path d.
Proof using absolute. intros [? ?]. by apply staged_apart. Qed.
End Once.
(** ** Every step keeps it so *)
Section Steps.
Context {codec : BindingCodec} {laws : BindingLaws codec}.
Context (directory : string) (absolute : is_abs directory = true).

#[local] Notation binding_path := (binding_path directory).
#[local] Notation staged_path := (staged_path directory).
#[local] Notation records_sound := (records_sound directory).
#[local] Notation keeps_records := (keeps_records directory).
#[local] Notation call_sound := (call_sound directory).
#[local] Notation system_sound := (system_sound directory).

Lemma keeps_staged files n v : keeps_records files (<[staged_path n := v]> files).
Proof using absolute.
  intros d data Hd H. rewrite lookup_insert_ne; [done|]. by apply staged_not_record.
Qed.
Lemma keeps_deleted files n : keeps_records files (delete (staged_path n) files).
Proof using absolute.
  intros d data Hd H. rewrite lookup_delete_ne; [done|]. by apply staged_not_record.
Qed.
Lemma keeps_published files d v :
  hexadecimal d → files !! binding_path d = None → keeps_records files (<[binding_path d := v]> files).
Proof using absolute.
  intros Hd Hn d' data Hd' H. rewrite lookup_insert_ne; [done|].
  intros E. by rewrite E, H in Hn.
Qed.

(** What one step of a call leaves. *)
Record step_sound (files files' : gmap string string) (call call' : binding_call) : Prop := {
  st_keeps : keeps_records files files';
  st_records : records_sound files';
  st_call : call_sound files' call';
  st_others : ∀ tmp, is_Some (files !! tmp) → staged_by call ≠ Some tmp → files' !! tmp = files !! tmp;
  st_staged : ∀ tmp, staged_by call' = Some tmp →
    (∃ n, tmp = staged_path n) ∧ is_Some (files' !! tmp) ∧
    (staged_by call = Some tmp ∨ files !! tmp = None)
}.

Lemma keeps_refl files : keeps_records files files.
Proof using. by intros d data _. Qed.
#[local] Hint Resolve keeps_refl : core.

Lemma unmoved files call :
  records_sound files → call_sound files call →
  (∀ tmp, staged_by call = Some tmp → (∃ n, tmp = staged_path n) ∧ is_Some (files !! tmp)) →
  step_sound files files call call.
Proof using. intros Hr Hc Hs. split; auto. intros tmp Ht. destruct (Hs tmp Ht). auto. Qed.

Lemma step_called o files b files' call' :
  records_sound files → call_sound files (Called b) →
  binding_step directory o files (Called b) = (files', call') → step_sound files files' (Called b) call'.
Proof using absolute.
  intros Hr Hc H. cbn in H. destruct (Bind_checks b) as [b1|e] eqn:Eb.
  2:{ injection H as <- <-. split; try done; auto. unfold Bind_checks in Eb.
      destruct (canonicalLayerDigest (OCIDigest b)) as [d|e'] eqn:Ed; cbn in Eb.
      - destruct (bool_decide _ || _); cbn in Eb; [by injection Eb as <-|done].
      - injection Eb as <-. unfold canonicalLayerDigest in Ed. cbn.
        destruct (bool_decide _), (str_forall _ _); cbn in Ed; by simplify_eq. }
  destruct o as [|n]; [injection H as <- <-; by split; auto|].
  destruct (bool_decide_reflect (is_Some (files !! staged_path n))) as [Hs|Hs].
  { injection H as <- <-. by apply unmoved. }
  injection H as <- <-. apply eq_None_not_Some in Hs.
  destruct (checks_ok b b1 Eb (Hc b1 Eb)) as [Hch _].
  split; [apply keeps_staged| | | |].
  - intros d data Hd Hl. rewrite lookup_insert_ne in Hl by by apply staged_not_record. by apply Hr.
  - split; [done|apply lookup_insert_eq].
  - intros tmp [? Ht] _. rewrite lookup_insert_ne; [done|]. intros <-. by rewrite Ht in Hs.
  - intros tmp [= <-]. split_and!; [by eexists|by rewrite lookup_insert_eq; eexists|by right].
Qed.

Lemma step_staged o files b tmp files' call' :
  records_sound files → call_sound files (StagedAs b tmp) → (∃ n, tmp = staged_path n) →
  binding_step directory o files (StagedAs b tmp) = (files', call') → step_sound files files' (StagedAs b tmp) call'.
Proof using absolute.
  intros Hr [Hc Ht] [n ->] H. cbn in H.
  assert (∀ d, hexadecimal d → staged_path n ≠ binding_path d) as Hap by (intros; by apply staged_not_record).
  destruct o as [|k].
  { injection H as <- <-. split; auto; [done|]. intros tmp [= <-]. split_and!; [by eexists|by rewrite Ht; eexists|by left]. }
  destruct (files !! binding_path (OCIDigest b)) as [old|] eqn:Eo.
  { injection H as <- <-. split; auto; [by split; [|rewrite Eo; eexists]|].
    intros tmp [= <-]. split_and!; [by eexists|by rewrite Ht; eexists|by left]. }
  rewrite Ht in H. injection H as <- <-. destruct Hc as [Hd Hc].
  split; [by apply keeps_published| | | |].
  - intros d data Hd' Hl. destruct (decide (binding_path d = binding_path (OCIDigest b))) as [E|E].
    + rewrite E, lookup_insert_eq in Hl. injection Hl as <-. exists b. split_and!; [done| |done].
      destruct Hd, Hd'. symmetry. by eapply binding_path_inj.
    + rewrite lookup_insert_ne in Hl by done. by apply Hr.
  - cbn. split; [done|]. apply lookup_insert_eq.
  - intros tmp Hs Hne. rewrite lookup_insert_ne; [done|]. intros <-. rewrite Eo in Hs. by destruct Hs.
  - intros tmp [= <-]. rewrite lookup_insert_ne by by apply not_eq_sym, Hap.
    split_and!; [by eexists|by rewrite Ht; eexists|by left].
Qed.

Lemma step_contended o files b tmp files' call' :
  records_sound files → call_sound files (Contended b tmp) →
  (∃ n, tmp = staged_path n) → is_Some (files !! tmp) →
  binding_step directory o files (Contended b tmp) = (files', call') → step_sound files files' (Contended b tmp) call'.
Proof using absolute laws.
  intros Hr [Hc [data Hdata]] Hn Hs H. injection H as <- <-.
  split; auto; [|intros x [= <-]; auto]. destruct Hc as [Hd Hc].
  destruct (Hr _ _ Hd Hdata) as (b' & -> & Eb & Hc').
  destruct o as [|k].
  { unfold Lookup_binding. destruct Hd as [Hl Hf]. destruct (canonical_bare _ Hl Hf) as [-> _]. done. }
  assert (recorded directory files b') as Hrec by (unfold recorded; by rewrite Eb).
  destruct (canonical_bare (OCIDigest b)) as [Hcan _]; [apply Hd..|].
  rewrite (lookup_recorded directory files b' Hc' Hrec) by by rewrite Eb.
  destruct (bool_decide_reflect (Some b' = Some b)) as [[= ->]|Hne]; cbn; [by split|].
  split_and!; [done|done|]. exists b'. split_and!; [|done..]. naive_solver.
Qed.

Lemma step_returning o files b r tmp files' call' :
  records_sound files → call_sound files (Returning b r tmp) → (∃ n, tmp = staged_path n) →
  binding_step directory o files (Returning b r tmp) = (files', call') → step_sound files files' (Returning b r tmp) call'.
Proof using absolute.
  intros Hr Hc [n ->] H. cbn in H. destruct o as [|k]; injection H as <- <-.
  { split; auto. done. }
  split; [apply keeps_deleted| | | |done].
  - intros d data Hd Hl. rewrite lookup_delete_ne in Hl by by apply staged_not_record. by apply Hr.
  - eapply keeps_answer; [|exact Hc]. apply keeps_deleted.
  - intros tmp Hs Hne. rewrite lookup_delete_ne; [done|]. intros <-. by apply Hne.
Qed.

Lemma step_any o files call files' call' :
  records_sound files → call_sound files call →
  (∀ tmp, staged_by call = Some tmp → (∃ n, tmp = staged_path n) ∧ is_Some (files !! tmp)) →
  binding_step directory o files call = (files', call') → step_sound files files' call call'.
Proof using absolute laws.
  intros Hr Hc Hs H. destruct call.
  - by eapply step_called.
  - eapply step_staged; [done..| |exact H]. by apply Hs.
  - destruct (Hs tmp eq_refl). by eapply step_contended.
  - eapply step_returning; [done..| |exact H]. by apply Hs.
  - injection H as <- <-. by apply unmoved.
Qed.

Lemma call_kept files files' call :
  keeps_records files files' → (∀ tmp, staged_by call = Some tmp → files' !! tmp = files !! tmp) →
  call_sound files call → call_sound files' call.
Proof using.
  intros Hk Ht. destruct call; cbn; [done| | |apply keeps_answer, Hk..].
  - intros [? Hf]. split; [done|]. by rewrite Ht.
  - intros [[Hd ?] [data Hf]]. split; [by split|]. exists data. by apply Hk.
Qed.

Lemma system_step_sound s event : system_sound s → system_sound (system_step directory s event) ∧
  keeps_records s.1 (system_step directory s event).1.
Proof using absolute laws.
  destruct s as [files calls], event as [i o]. intros [Hr Hc Hs Ha]. unfold system_step. cbn [fst snd] in *.
  destruct (calls !! i) as [call|] eqn:Ei; [|by split].
  destruct (binding_step directory o files call) as [files' call'] eqn:Est. cbn [fst snd].
  apply step_any in Est as [Hk Hr' Hc' Ho Hs']; [|done|by eapply Hc|by intros; eapply Hs].
  split; [|done].
  assert (∀ j c tmp, i ≠ j → calls !! j = Some c → staged_by c = Some tmp → files' !! tmp = files !! tmp) as Hj.
  { intros j c tmp Hne Hj Hst. apply Ho; [by eapply Hs|]. intros E. apply Hne. by eapply Ha. }
  split; cbn [fst snd].
  - done.
  - intros j c Hl. destruct (decide (i = j)) as [<-|Hne].
    + rewrite list_lookup_insert_eq in Hl by by eapply lookup_lt_Some. by injection Hl as <-.
    + rewrite list_lookup_insert_ne in Hl by done. eapply call_kept; [done| |by eapply Hc].
      intros tmp Ht. by eapply Hj.
  - intros j c tmp Hl Ht. destruct (decide (i = j)) as [<-|Hne].
    + rewrite list_lookup_insert_eq in Hl by by eapply lookup_lt_Some. injection Hl as <-.
      by destruct (Hs' tmp Ht) as (?&?&_).
    + rewrite list_lookup_insert_ne in Hl by done. rewrite (Hj j c tmp) by done. by eapply Hs.
  - assert (∀ j c tmp, i ≠ j → calls !! j = Some c → staged_by c = Some tmp → staged_by call' ≠ Some tmp) as Hd.
    { intros j c tmp Hne Hjl Ht Ht'. destruct (Hs' tmp Ht') as (_&_&[E|E]).
      - apply Hne. by eapply Ha.
      - destruct (Hs j c tmp Hjl Ht) as [_ [? Hx]]. by rewrite E in Hx. }
    intros j k c c' tmp Hl Hl' Ht Ht'.
    destruct (decide (i = j)) as [<-|Hne], (decide (i = k)) as [<-|Hne']; [done| | |].
    + rewrite list_lookup_insert_eq in Hl by by eapply lookup_lt_Some. injection Hl as <-.
      rewrite list_lookup_insert_ne in Hl' by done. exfalso. by eapply Hd.
    + rewrite list_lookup_insert_eq in Hl' by by eapply lookup_lt_Some. injection Hl' as <-.
      rewrite list_lookup_insert_ne in Hl by done. exfalso. by eapply Hd.
    + rewrite list_lookup_insert_ne in Hl, Hl' by done. by eapply Ha.
Qed.

Lemma run_sound s events : system_sound s → system_sound (run directory s events) ∧
  keeps_records s.1 (run directory s events).1.
Proof using absolute laws.
  unfold run. revert s. induction events as [|event events IH]; intros s Hs; [by split|]. cbn [foldl].
  destruct (system_step_sound s event Hs) as [Hs' Hk]. destruct (IH _ Hs') as [Hs'' Hk'].
  split; [done|]. intros d data Hd H. by apply Hk', Hk.
Qed.

(** Calls that have not begun, over records that are sound. *)
Definition fresh (files : gmap string string) (bindings : list LayerBinding) : Prop :=
  records_sound files ∧ ∀ b b', b ∈ bindings → Bind_checks b = Ok b' → storable b'.

Lemma fresh_sound files bindings : fresh files bindings → system_sound (files, Called <$> bindings).
Proof using.
  intros [Hr Hb]. split; cbn [fst snd]; [done| | |].
  - intros i c (b & -> & Hl)%list_lookup_fmap_Some. intros b' E.
    apply list_elem_of_lookup_2 in Hl. by eapply Hb.
  - intros i c tmp (b & -> & _)%list_lookup_fmap_Some. done.
  - intros i j c c' tmp (b & -> & _)%list_lookup_fmap_Some. done.
Qed.

(** However any number of calls of Bind interleave, and whichever of their steps
    fail, a layer is bound once.  When a call answers without an error, from then
    on every spelling of its layer looks up exactly its binding, whatever the other
    calls do; and when a call is told of a conflict, what is looked up is another
    binding of that layer, which stays. *)
Theorem layer_bound_once files bindings events later i b r reference :
  fresh files bindings →
  let s := run directory (files, Called <$> bindings) events in
  s.2 !! i = Some (Returned b r) → canonicalLayerDigest reference = Ok (OCIDigest b) →
  match r with
  | Ok _ => Lookup_binding directory (run directory s later).1 false reference = Ok (Some b)
  | Err (BindingConflict _) =>
      ∃ b', b' ≠ b ∧ Lookup_binding directory (run directory s later).1 false reference = Ok (Some b')
  | Err _ => True
  end.
Proof using absolute laws.
  intros Hf s Hi Href. destruct (run_sound _ events (fresh_sound files bindings Hf)) as [Hs _]. fold s in Hs.
  destruct (run_sound s later Hs) as [_ Hk]. pose proof (ss_calls _ _ Hs i _ Hi) as Ha. cbn in Ha.
  apply (keeps_answer directory _ _ _ _ Hk) in Ha. destruct r as [u|e].
  - destruct Ha. by apply lookup_recorded.
  - destruct e; try exact I. destruct Ha as (-> & _ & b' & Hne & Ed & Hc & Hr). exists b'.
    split; [done|]. apply lookup_recorded; [done..|]. by rewrite Ed.
Qed.
End Steps.
(** ** One call on its own *)
Section Alone.
Context {codec : BindingCodec} {laws : BindingLaws codec}.
Context (directory : string) (absolute : is_abs directory = true).

(** A call that nothing fails for returns within four steps: a layer that was not
    bound is bound as it was asked, asking again for the same binding is accepted
    and changes nothing, and asking for another one is refused and changes nothing.
    The staged record is gone in each case. *)
Theorem bind_alone files b b' n :
  records_sound directory files → Bind_checks b = Ok b' → storable b' →
  files !! staged_path directory n = None →
  run directory (files, [Called b]) (replicate 4 (0, Works n)) =
    match files !! binding_path directory (OCIDigest b') with
    | None => (<[binding_path directory (OCIDigest b') := binding_text b']> files, [Returned b' (Ok tt)])
    | Some data =>
        (files, [Returned b' (if bool_decide (data = binding_text b') then Ok tt
                              else Err (BindingConflict (OCIDigest b')))])
    end.
Proof using absolute laws.
  intros Hr Hb Hst Hn. destruct (checks_ok b b' Hb Hst) as [[Hd Hc] _].
  assert (staged_path directory n ≠ binding_path directory (OCIDigest b')) as Hne by by apply staged_not_record.
  set (tmp := staged_path directory n) in *. set (path := binding_path directory (OCIDigest b')) in *.
  assert (system_step directory (files, [Called b]) (0, Works n) =
    (<[tmp := binding_text b']> files, [StagedAs b' tmp])) as H1.
  { unfold system_step. cbn. rewrite Hb. fold tmp. rewrite bool_decide_eq_false_2; [done|].
    rewrite Hn. by intros []. }
  cbn [replicate]. unfold run. cbn [foldl]. rewrite H1.
  destruct (files !! path) as [data|] eqn:Ep.
  - destruct (Hr (OCIDigest b') data Hd Ep) as (b0 & -> & E0 & Hc0).
    set (files1 := <[tmp := binding_text b']> files).
    assert (files1 !! path = Some (binding_text b0)) as Hp1 by (unfold files1; by rewrite lookup_insert_ne).
    assert (system_step directory (files1, [StagedAs b' tmp]) (0, Works n) = (files1, [Contended b' tmp])) as ->.
    { unfold system_step. cbn. fold path. by rewrite Hp1. }
    assert (Lookup_binding directory files1 false (OCIDigest b') = Ok (Some b0)) as Hlook.
    { apply lookup_recorded; [done| |].
      - unfold recorded. by rewrite E0.
      - rewrite E0. by apply canonical_bare; apply Hd. }
    unfold system_step at 2. cbn. rewrite Hlook. unfold system_step. cbn.
    unfold files1. rewrite delete_insert_id by done. f_equal. f_equal. f_equal.
    destruct (bool_decide_reflect (Some b0 = Some b')) as [[= ->]|Hx]; [by rewrite bool_decide_eq_true_2|].
    rewrite bool_decide_eq_false_2; [done|]. intros E. apply Hx. f_equal.
    pose proof (checked_decode b0 Hc0) as D0. pose proof (checked_decode b' (conj Hd Hc)) as D1.
    rewrite E, D1 in D0. by injection D0.
  - assert (system_step directory (<[tmp := binding_text b']> files, [StagedAs b' tmp]) (0, Works n) =
      (<[path := binding_text b']> (<[tmp := binding_text b']> files), [Returning b' (Ok tt) tmp])) as ->.
    { unfold system_step. cbn. fold path. by rewrite lookup_insert_ne, Ep, lookup_insert_eq. }
    unfold system_step. cbn. f_equal. rewrite insert_insert_ne by done. by rewrite delete_insert_id by by rewrite lookup_insert_ne.
Qed.
End Alone.

(** ** Reading a record back *)
Definition strip (p s : string) : option string := if has_prefix p s then Some (str_drop (slen p) s) else None.
Fixpoint read_quoted (fuel : nat) (s : string) : option (string * string) :=
  match fuel, s with
  | S fuel, String c t =>
      if bool_decide (c = "034"%char) then Some ("", t)
      else
        let '(r, rest) := unesc s in
        '(text, rest) ← read_quoted fuel rest;
        Some (encode_rune r +:+ text, rest)
  | _, _ => None
  end.
Definition read_member (name s : string) : option (string * string) :=
  rest ← strip (quote name +:+ ":" +:+ dquote) s;
  read_quoted (slen rest) rest.
#[export] Instance binding_codec_example : BindingCodec := λ data,
  rest ← strip "{" data;
  '(digest, rest) ← read_member "oci_digest" rest;
  rest ← strip "," rest;
  '(state, rest) ← read_member "state_id" rest;
  rest ← strip "," rest;
  '(root, rest) ← read_member "state_root" rest;
  if bool_decide (rest = "}" +:+ newline) then Some (mkLayer digest state root) else None.

Lemma strip_app p s : strip p (p +:+ s) = Some s.
Proof. unfold strip. by rewrite has_prefix_app, str_drop_app. Qed.

Lemma esc_rune_cons r : ∃ c s, esc_rune r = String c s.
Proof. unfold esc_rune. repeat case_match; eauto using encode_rune_cons. Qed.

Lemma escapes_length l t : length l < slen (escapes l +:+ t).
Proof.
  induction l as [|r l IH]; [unfold slen; cbn; lia|]. cbn [escapes foldr].
  destruct (esc_rune_cons r) as (c & s & ->). rewrite !slen_app in *. rewrite slen_cons.
  change (foldr (λ r acc, esc_rune r +:+ acc) dquote l) with (escapes l). cbn [length]. lia.
Qed.

Lemma read_escapes fuel l t :
  Forall (λ r, scalar r = true) l → length l < fuel → read_quoted fuel (escapes l +:+ t) = Some (concat_runes l, t).
Proof.
  intros Hl. revert fuel. induction Hl as [|r l Hr Hl IH]; intros [|fuel] Hf; cbn [length] in Hf; try lia.
  - cbn. by rewrite bool_decide_eq_true_2.
  - cbn [escapes foldr]. change (foldr (λ r acc, esc_rune r +:+ acc) dquote l) with (escapes l).
    rewrite app_assoc_str. destruct (esc_rune_cons r) as (c & s & E). pose proof (unesc_esc r (escapes l +:+ t) Hr) as Hu.
    assert (c ≠ "034"%char) as Hc.
    { intros ->. apply (esc_not_quote r "" s Hr). by rewrite E, app_nil_str. }
    rewrite E in *. cbn [String.append read_quoted] in *. rewrite bool_decide_eq_false_2 by done.
    change (String c (s +:+ (escapes l +:+ t))) with (String c (s +:+ (escapes l +:+ t))) in *.
    rewrite Hu. rewrite IH by lia. done.
Qed.

Lemma read_member_quote name s t :
  valid_utf8 s = true → read_member name (quote name +:+ ":" +:+ quote s +:+ t) = Some (s, t).
Proof.
  intros (l & Hl & -> & ->)%valid_runes. unfold read_member.
  replace (quote name +:+ ":" +:+ (dquote +:+ escapes l) +:+ t) with
    ((quote name +:+ ":" +:+ dquote) +:+ (escapes l +:+ t)) by by rewrite !app_assoc_str.
  rewrite strip_app. cbn [mbind option_bind]. apply read_escapes; [done|]. apply escapes_length.
Qed.

#[export] Instance binding_laws_example : BindingLaws binding_codec_example.
Proof.
  intros [d s r] Hd (Hs & Hr & _). unfold decode_binding, binding_codec_example, binding_text, layer_json, struct.
  cbn [OCIDigest StateID StateRoot] in *. cbn [omap list_omap present fmap option_fmap option_map fst snd].
  cbn [encode map join String.concat].
  rewrite !app_assoc_str, strip_app. cbn [mbind option_bind].
  cbn [fst snd encode]. rewrite read_member_quote by done. cbn [mbind option_bind]. rewrite strip_app. cbn [mbind option_bind].
  rewrite read_member_quote by done. cbn [mbind option_bind]. rewrite strip_app. cbn [mbind option_bind].
  rewrite read_member_quote by done. cbn [mbind option_bind]. by rewrite bool_decide_eq_true_2.
Qed.

(** Two pulls of one layer that made different states of it, a third that agrees with
    the first, and a step that fails. *)
Definition digest_example : string := String.string_of_list_ascii (repeat "a"%char 64).
Definition binding_example (state : string) : LayerBinding := mkLayer ("sha256:" +:+ digest_example) state "root".
Definition stored_example (state : string) : LayerBinding := mkLayer digest_example state "root".
Definition pulls_example : list LayerBinding := [binding_example "s1"; binding_example "s2"; binding_example "s1"].
Definition interleaved : list (nat * outcome) :=
  [(0, Works 1); (1, Works 1); (1, Works 2); (1, Works 0); (0, Works 0); (2, Fails); (0, Works 0); (1, Works 0); (0, Works 0)].

Example pulls_answered :
  (run "/s/bindings" (∅, Called <$> pulls_example) interleaved).2 =
    [Returned (stored_example "s1") (Err (BindingConflict digest_example));
     Returned (stored_example "s2") (Ok tt); Returned (stored_example "s1") (Err BindingStage)].
Proof. vm_compute. reflexivity. Qed.

Lemma pulls_fresh : fresh "/s/bindings" ∅ pulls_example.
Proof.
  split; [intros d data _ H; by rewrite lookup_empty in H|].
  intros b b' Hb Hc.
  repeat (apply elem_of_cons in Hb as [->|Hb]; [vm_compute in Hc; injection Hc as <-;
    (split_and!; [reflexivity|reflexivity|vm_compute; lia])|]). by apply elem_of_nil in Hb.
Qed.

Lemma layer_bound_once_witness :
  let later := [(2, Works 0)] in
  let s := run "/s/bindings" (run "/s/bindings" (∅, Called <$> pulls_example) interleaved) later in
  Lookup_binding "/s/bindings" s.1 false digest_example = Ok (Some (stored_example "s2")) ∧
  ∃ b', b' ≠ stored_example "s1" ∧ Lookup_binding "/s/bindings" s.1 false digest_example = Ok (Some b').
Proof.
  intros later s. split.
  - exact (layer_bound_once (codec := binding_codec_example) (laws := binding_laws_example) "/s/bindings" eq_refl ∅ pulls_example interleaved later 1 (stored_example "s2") (Ok tt)
      digest_example pulls_fresh ltac:(vm_compute; reflexivity) ltac:(vm_compute; reflexivity)).
  - exact (layer_bound_once (codec := binding_codec_example) (laws := binding_laws_example) "/s/bindings" eq_refl ∅ pulls_example interleaved later 0 (stored_example "s1")
      (Err (BindingConflict digest_example)) digest_example pulls_fresh
      ltac:(vm_compute; reflexivity) ltac:(vm_compute; reflexivity)).
Defined.

Lemma bind_alone_witness :
  (run "/s/bindings" (∅, [Called (binding_example "s1")]) (replicate 4 (0, Works 7))).2 =
    [Returned (stored_example "s1") (Ok tt)].
Proof.
  rewrite (bind_alone "/s/bindings" eq_refl ∅ (binding_example "s1") (stored_example "s1") 7).
  - reflexivity.
  - intros d data _ H. rewrite lookup_empty in H. discriminate H.
  - vm_compute. reflexivity.
  - split_and!; [reflexivity|reflexivity|]. vm_compute. lia.
  - reflexivity.
Defined.
