(* ===== verification/CheckoutVerify.v ===== *)
(** * Prepared checkouts: what a launch asks of them ([pkg/cpak/checkout.go], [measure.go])

    The shape a layer is bound to, the place a checkout may be opened at, the record
    the store files about it, and the answers a launch and a full check get. *)
From Stdlib Require Import Ascii.
From stdpp Require Import base strings list sorting gmap numbers pretty.
From S2P Require Import Prelude.
From S2P Require Import GoStrings.
From S2P Require Import Regex.
From S2P Require Import Utf8.
From S2P Require Import GoPath.
From S2P Require Import Hex.
From S2P Require Import Json.
From S2P Require Import RecordPaths.
From S2P Require Import Roots.
From S2P Require Import Checkout.
From S2P Require Import CheckoutWalk.
From S2P Require Import Bindings.
From stdpp Require Import options.

Record checkoutRecord : Type := mkRecord {
  cr_Format : Z;
  cr_Layer : string;
  cr_Directory : string;
  cr_Device : N;
  cr_Inode : N;
  cr_State : string;
  cr_Expected : string;
  cr_Measurement : string
}.
#[export] Instance checkoutRecord_eq_dec : EqDecision checkoutRecord.
Proof. solve_decision. Defined.

Definition checkoutRecordLimit : nat := 8192.

Definition describes (r other : checkoutRecord) : bool :=
  bool_decide (cr_Format r = cr_Format other) && bool_decide (cr_Directory r = cr_Directory other) &&
  bool_decide (cr_Device r = cr_Device other) && bool_decide (cr_Inode r = cr_Inode other).

Definition bindableLayerDigest (layer : string) : bool :=
  let digest := trim_prefix "sha256:" layer in
  bool_decide (slen digest = 64) && str_forall digest_character digest.

(** [filepath.Rel] of two clean absolute paths. *)
Fixpoint rel_parts (base targ : list string) : list string :=
  match base, targ with
  | x :: base', y :: targ' =>
      if bool_decide (x = y) then rel_parts base' targ' else ((λ _, "..") <$> base) ++ targ
  | _, _ => ((λ _, "..") <$> base) ++ targ
  end.
Definition path_rel (base targ : string) : string :=
  match rel_parts (path_parts base) (path_parts targ) with
  | [] => "."
  | parts => join "/" parts
  end.
Definition underDriverRoot (relative : string) : bool :=
  if bool_decide (relative = ".") || bool_decide (relative = "..") then false
  else negb (has_prefix "../" relative).

(** A descriptor: the path the kernel reached it by, what it is, and its tree. *)
Record opened : Type := mkOpened {
  op_Path : string;
  op_Device : N;
  op_Inode : N;
  op_Kind : string;
  op_Root : CheckoutWalk.node
}.

Inductive checkout_error : Type :=
  | OutsideDriver (directory : string) | Changed (layer : string) | Unexpected (layer directory : string)
  | ShapeFailed (e : shape_error) | LayerUnderivable (layer : string) | BindingUnread (layer : string) (e : binding_error)
  | InvalidLayerID (layer : string) | RootUnresolved | CheckoutUnresolved (directory : string)
  | CheckoutUnopened (directory : string) | NotADirectory (directory kind : string) | Unmeasured (directory : string) (e : walk_error)
  | RecordUnread (layer : string) | RecordTooLarge (layer : string) | RecordUndecoded (layer : string)
  | RecordMisnamed (layer : string) | RecordIncomplete (layer : string) | RecordStaged (layer : string)
  | RecordUnpublished (layer : string) | CountMismatch (directories layers : nat)
  | NoCheckout (layer : string) | FileUnread (name : string) | IndexFailed.

(** What the component asks of the packages around it: the identifiers the storage
    driver accepts, where its root is, the resolution and the opening of paths by the
    kernel, the directories of the prepared index, and the JSON of a record. *)
Class CheckoutHost : Type := {
  ValidateLayerID : string → bool;
  driver_root : option string;
  EvalSymlinks : string → option string;
  OpenBeneath : string → string → option opened;
  fvs_layer_path : string → string;
  prepared_directories : result () (gmap string string);
  encode_record : checkoutRecord → string;
  decode_record : string → option checkoutRecord;
  (** Reading a file below a checkout: it is not there, or its size and digest. *)
  digestCheckoutFile : CheckoutWalk.node → string → result () (option (Z * string))
}.

Section Verify.
Context {K : FvsKinds} {S : StateStore} {codec : BindingCodec} {host : CheckoutHost} (sha256 : string → string).
Context (range : gmap string checkoutEntry → list string).
(** The directory of the bindings and of the records, and what it holds. *)
Context (directory : string).

Definition boundCheckoutShape (files : gmap string string) (layer : string) : result checkout_error checkoutShape :=
  if negb (bindableLayerDigest layer) then Err (LayerUnderivable layer)
  else
    binding ← wrap (BindingUnread layer) (Lookup_binding directory files false layer);
    match binding with
    | None => Err (LayerUnderivable layer)
    | Some b =>
        match deriveCheckoutShape sha256 range (fvs_layer_path layer) (StateID b) with
        | Err Underivable => Err (LayerUnderivable layer)
        | Err e => Err (ShapeFailed e)
        | Ok shape => Ok shape
        end
    end.

Definition openPreparedCheckout (path : string) : result checkout_error opened :=
  match driver_root ≫= EvalSymlinks with
  | None => Err RootUnresolved
  | Some root =>
      match EvalSymlinks path with
      | None => Err (CheckoutUnresolved path)
      | Some resolved =>
          let relative := path_rel root resolved in
          check_that (underDriverRoot relative) (OutsideDriver path) ;;;
          match OpenBeneath root relative with
          | None => Err (CheckoutUnopened path)
          | Some o => Ok (mkOpened resolved (op_Device o) (op_Inode o) (op_Kind o) (op_Root o))
          end
      end
  end.

Definition measurePreparedCheckout (layer path : string) (shape : checkoutShape) :
    result checkout_error checkoutRecord :=
  check_that (ValidateLayerID layer) (InvalidLayerID layer) ;;;
  o ← openPreparedCheckout path;
  check_that (bool_decide (op_Kind o = "directory")) (NotADirectory (op_Path o) (op_Kind o)) ;;;
  (* the zero shape has no loose names at all *)
  let loose := if derived shape then Some (cs_loose shape) else None in
  measurement ← wrap (Unmeasured (op_Path o)) (measureCheckoutTree sha256 (op_Root o) loose);
  Ok (mkRecord checkoutRecordFormat layer (op_Path o) (op_Device o) (op_Inode o) (cs_state shape)
    (cs_digest shape) measurement).

(** Whether something describes the checkout, and whether it is what is there. *)
Definition verify_checkout (files : gmap string string) (layer path : string) : result checkout_error (bool * bool) :=
  match boundCheckoutShape files layer with
  | Err (LayerUnderivable _) => Ok (false, false)
  | Err e => Err e
  | Ok shape =>
      record ← measurePreparedCheckout layer path shape;
      Ok (true, bool_decide (cr_Measurement record = cs_digest shape))
  end.

(** ** The records *)
Definition checkout_record_path (layer : string) : string := path_join [directory; layer +:+ ".checkout.json"].

Definition lookup_record (files : gmap string string) (layer : string) : result checkout_error (option checkoutRecord) :=
  check_that (ValidateLayerID layer) (InvalidLayerID layer) ;;;
  match files !! checkout_record_path layer with
  | None => Ok None
  | Some data =>
      refuse_if (checkoutRecordLimit <? slen data) (RecordTooLarge layer) ;;;
      match decode_record data with
      | None => Err (RecordUndecoded layer)
      | Some record =>
          check_that (bool_decide (cr_Layer record = layer)) (RecordMisnamed layer) ;;;
          refuse_if (bool_decide (cr_Directory record = "") || bool_decide (cr_Measurement record = ""))
            (RecordIncomplete layer) ;;;
          Ok (Some record)
      end
  end.

Definition record_text (r : checkoutRecord) : string := encode_record r +:+ newline.

(** [publish]; staging the record, or renaming it, can fail. *)
Definition publish_record (stage_fails rename_fails : bool) (files : gmap string string) (record : checkoutRecord) :
    result checkout_error () * gmap string string :=
  match lookup_record files (cr_Layer record) with
  | Err e => (Err e, files)
  | Ok existing =>
      if bool_decide (existing = Some record) then (Ok (), files)
      else if match existing with
              | Some r => describes r record && negb (bool_decide (cr_Measurement r = cr_Measurement record))
              | None => false
              end then (Err (Changed (cr_Layer record)), files)
      else if stage_fails then (Err (RecordStaged (cr_Layer record)), files)
      else if rename_fails then (Err (RecordUnpublished (cr_Layer record)), files)
      else (Ok (), <[checkout_record_path (cr_Layer record) := record_text record]> files)
  end.

Definition recordCheckoutMeasurement (stage_fails rename_fails : bool) (files : gmap string string)
    (layer path : string) : result checkout_error () * gmap string string :=
  let shape :=
    match boundCheckoutShape files layer with
    | Err (LayerUnderivable _) => Ok no_shape
    | r => r
    end in
  match shape with
  | Err e => (Err e, files)
  | Ok shape =>
      match measurePreparedCheckout layer path shape with
      | Err e => (Err e, files)
      | Ok record =>
          if derived shape && negb (bool_decide (cr_Measurement record = cs_digest shape)) then
            (Err (Unexpected layer (cr_Directory record)), files)
          else publish_record stage_fails rename_fails files record
      end
  end.

(** The directories come in overlay order, the reverse of that of the layers.  The
    writes that can fail are those of each record. *)
Fixpoint record_from (faults : nat → bool * bool) (index : nat) (files : gmap string string) (layers directories : list string) :
    result checkout_error () * gmap string string :=
  match directories with
  | [] => (Ok (), files)
  | path :: directories =>
      match layers !! (length layers - 1 - index) with
      | None => (Ok (), files)
      | Some layer =>
          match recordCheckoutMeasurement (faults index).1 (faults index).2 files layer path with
          | (Err e, files) => (Err e, files)
          | (Ok _, files) => record_from faults (1 + index) files layers directories
          end
      end
  end.
Definition recordPreparedCheckouts (faults : nat → bool * bool) (files : gmap string string) (layers directories : list string) :
    result checkout_error () * gmap string string :=
  if negb (bool_decide (length layers = length directories)) then
    (Err (CountMismatch (length directories) (length layers)), files)
  else record_from faults 0 files layers directories.

(** ** Reading the contents *)
Record CheckoutContentCheck : Type := mkCheck {
  cc_Layer : string;
  cc_State : string;
  cc_Directory : string;
  cc_Files : Z;
  cc_Bytes : Z;
  cc_Changed : list string;
  cc_Missing : list string;
  cc_Unchecked : list string
}.
Definition Sound (r : CheckoutContentCheck) : bool :=
  bool_decide (cc_Changed r = []) && bool_decide (cc_Missing r = []).

(** [strings.EqualFold] with an ASCII text: the only other runes that fold to one
    of its letters are the long s and the Kelvin sign. *)
Definition fold_rune (r : N) : N :=
  if (r =? 0x17F)%N then 115 else if (r =? 0x212A)%N then 107
  else if (65 <=? r)%N && (r <=? 90)%N then r + 32 else r.
Definition same_text (ascii other : string) : bool :=
  bool_decide ((λ x, fold_rune x.1) <$> runes ascii = (λ x, fold_rune x.1) <$> runes other).

Fixpoint check_files (root : CheckoutWalk.node) (contents : gmap string string) (check : CheckoutContentCheck)
    (names : list string) : result checkout_error CheckoutContentCheck :=
  match names with
  | [] => Ok check
  | name :: names =>
      let '(mkCheck l st d n b changed missing unchecked) := check in
      let expected := default "" (contents !! name) in
      if bool_decide (expected = "") then
        check_files root contents (mkCheck l st d n b changed missing (unchecked ++ [name])) names
      else
        match digestCheckoutFile root name with
        | Err _ => Err (FileUnread name)
        | Ok None => check_files root contents (mkCheck l st d n b changed (missing ++ [name]) unchecked) names
        | Ok (Some (size, digest)) =>
            check_files root contents (mkCheck l st d (n + 1) (b + size)
              (if same_text digest expected then changed else changed ++ [name]) missing unchecked) names
        end
  end.

Definition CheckPreparedCheckoutContents (files : gmap string string) (layer : string) :
    result checkout_error CheckoutContentCheck :=
  shape ← boundCheckoutShape files layer;
  directories ← wrap (λ _, IndexFailed) prepared_directories;
  match directories !! layer with
  | None => Err (NoCheckout layer)
  | Some path =>
      o ← openPreparedCheckout path;
      check_files (op_Root o) (cs_contents shape)
        (mkCheck layer (cs_state shape) (op_Path o) 0 0 [] [] [])
        (sort_strings (map_to_list (cs_contents shape)).*1)
  end.
End Verify.
(** ** Where a checkout may be *)
Lemma rel_parts_split base targ :
  ∃ common b t, base = common ++ b ∧ targ = common ++ t ∧ rel_parts base targ = ((λ _, "..") <$> b) ++ t.
Proof.
  revert targ. induction base as [|x base IH]; intros targ; [by exists [], [], targ|].
  destruct targ as [|y targ]; [by exists [], (x :: base), []|]. cbn [rel_parts].
  case_bool_decide as E; [subst y|by exists [], (x :: base), (y :: targ)].
  destruct (IH targ) as (common & b & t & -> & -> & ->). by exists (x :: common), b, t.
Qed.
Lemma rel_parts_below common t : rel_parts common (common ++ t) = t.
Proof.
  induction common as [|x common IH]; [by destruct t|]. cbn. by rewrite bool_decide_eq_true_2.
Qed.

Lemma join_head x l : join "/" (x :: l) = x ∨ ∃ t, join "/" (x :: l) = x +:+ "/" +:+ t.
Proof. destruct l as [|y l]; [by left|right]. by exists (join "/" (y :: l)). Qed.

(** A checkout is opened exactly where its resolved path goes on from that of
    the driver's root by at least one element: the root itself, what is beside it
    and what is above it are refused. *)
Theorem opened_below_root root path :
  is_abs root = true → is_abs path = true →
  underDriverRoot (path_rel root path) = true ↔
    ∃ rest, rest ≠ [] ∧ path_parts path = path_parts root ++ rest.
Proof.
  intros Hr Hp. unfold path_rel. split.
  - destruct (rel_parts_split (path_parts root) (path_parts path)) as (common & b & t & Eb & Et & ->).
    intros H. destruct b as [|x b].
    + rewrite app_nil_r in Eb. subst common. exists t. split; [|done]. intros ->. done.
    + exfalso. cbn [fmap list_fmap app] in H. destruct (join_head ".." (((λ _, "..") <$> b) ++ t)) as [E|[u E]];
        rewrite E in H; unfold underDriverRoot in H.
      * by rewrite orb_true_r in H || done.
      * rewrite (bool_decide_eq_false_2 (".." +:+ _ = ".")) in H by done.
        rewrite (bool_decide_eq_false_2 (".." +:+ _ = "..")) in H by done. cbn [orb] in H.
        by replace (has_prefix "../" (".." +:+ "/" +:+ u)) with true in H by (symmetry; apply (has_prefix_app "../" u)).
  - intros (rest & Hne & E). rewrite E, rel_parts_below. destruct rest as [|x rest]; [done|].
    assert (x ≠ ".." ∧ x ≠ "." ∧ has_byte slash x = false ∧ x ≠ "") as (H1 & H2 & H3 & H4).
    { assert (x ∈ path_parts path) as Hx by (rewrite E; set_solver).
      destruct (abs_parts_no_dotdot path x Hp Hx), (path_parts_elem path x Hx). done. }
    assert (split_byte slash (join "/" (x :: rest)) = x :: rest) as Esp.
    { apply (split_join slash); [done|]. intros y Hy. apply (path_parts_elem path). rewrite E. set_solver. }
    unfold underDriverRoot. rewrite !bool_decide_eq_false_2; cbn [orb].
    + apply negb_true_iff, not_true_iff_false. intros [t Et]%has_prefix_iff. rewrite Et in Esp.
      change ("../" +:+ t) with (".." +:+ String slash t) in Esp. rewrite split_byte_app_sep in Esp.
      by injection Esp as <- _.
    + intros Ej. rewrite Ej in Esp. by injection Esp as <- _.
    + intros Ej. rewrite Ej in Esp. by injection Esp as <- _.
Qed.

(** ** Records *)
Section Records.
Context {host : CheckoutHost} (directory : string) (absolute : is_abs directory = true).
(** The identifiers of the driver are the names of files. *)
Context (valid_plain : ∀ layer, ValidateLayerID layer = true → plain layer).

(** A record the JSON encoder and decoder carry, within the limit. *)
Definition writable (r : checkoutRecord) : Prop :=
  slen (record_text r) ≤ checkoutRecordLimit ∧ decode_record (record_text r) = Some r ∧
  cr_Directory r ≠ "" ∧ cr_Measurement r ≠ "".

Lemma record_file_plain layer : plain layer → plain (layer +:+ ".checkout.json").
Proof using.
  intros (_ & _ & _ & Hs). assert (2 < slen (layer +:+ ".checkout.json")) as Hl
    by (rewrite slen_app; unfold slen; cbn; lia).
  split_and!; [intros E; rewrite E in Hl; cbn in Hl; lia..|]. by rewrite has_byte_app, Hs.
Qed.

Lemma record_path_inj l l' :
  plain l → plain l' → checkout_record_path directory l = checkout_record_path directory l' → l = l'.
Proof using absolute.
  intros Hl Hl' E%joined_inj; [|done|by apply record_file_plain..].
  apply (f_equal (trim_suffix ".checkout.json")) in E. by rewrite !trim_suffix_app in E.
Qed.

Lemma record_not_binding layer d :
  plain layer → hexadecimal d → checkout_record_path directory layer ≠ binding_path directory d.
Proof using absolute.
  intros Hl [_ Hd] E%joined_inj; [|done|by apply record_file_plain|by apply record_name_plain].
  change ".checkout.json" with (".checkout" +:+ ".json") in E. rewrite <-app_assoc_str in E.
  apply (f_equal (trim_suffix ".json")) in E. rewrite !trim_suffix_app in E.
  pose proof (digest_lacks "." d eq_refl Hd) as Hb. rewrite <-E, has_byte_app in Hb.
  apply orb_false_iff in Hb as [_ Hb]. discriminate Hb.
Qed.

Lemma lookup_written files record :
  ValidateLayerID (cr_Layer record) = true → writable record →
  lookup_record directory (<[checkout_record_path directory (cr_Layer record) := record_text record]> files)
    (cr_Layer record) = Ok (Some record).
Proof using.
  intros Hv (Hlen & Hd & Hdir & Hm). unfold lookup_record. rewrite Hv. cbn [check_that mbind result_bind].
  rewrite lookup_insert_eq. unfold refuse_if, check_that.
  assert ((checkoutRecordLimit <? slen (record_text record)) = false) as -> by by apply Nat.ltb_ge.
  cbn [mbind result_bind]. rewrite Hd. rewrite (bool_decide_eq_true_2 (cr_Layer record = _)) by done.
  cbn [mbind result_bind].
  by rewrite (bool_decide_eq_false_2 (cr_Directory record = "")), (bool_decide_eq_false_2 (cr_Measurement record = "")).
Qed.

Lemma lookup_other files path data layer :
  checkout_record_path directory layer ≠ path →
  lookup_record directory (<[path := data]> files) layer = lookup_record directory files layer.
Proof using. intros Hne. unfold lookup_record. by rewrite lookup_insert_ne by done. Qed.

Lemma publish_bindings stage_fails rename_fails files record r files' d :
  publish_record directory stage_fails rename_fails files record = (r, files') → hexadecimal d →
  files' !! binding_path directory d = files !! binding_path directory d.
Proof using absolute valid_plain.
  unfold publish_record. intros H Hd.
  destruct (lookup_record directory files (cr_Layer record)) as [existing|e] eqn:El; [|by injection H as _ <-].
  assert (ValidateLayerID (cr_Layer record) = true) as Hv.
  { unfold lookup_record in El. by apply bind_unit_ok in El as [?%check_that_ok _]. }
  repeat (destruct (bool_decide _) || destruct (match existing with Some _ => _ | None => _ end) ||
    destruct stage_fails || destruct rename_fails); try by injection H as _ <-.
  all: injection H as _ <-; rewrite lookup_insert_ne; [done|]; apply record_not_binding; auto.
Qed.

(** A second measurement of the object a record was taken of is refused when it
    differs, and the record stays; a record that cannot be read back stops the
    publication; and otherwise the layer's record is the one published, while the
    records of the other layers and every binding are as they were. *)
Theorem published_record files record r files' :
  ValidateLayerID (cr_Layer record) = true → writable record →
  publish_record directory false false files record = (r, files') →
  match lookup_record directory files (cr_Layer record) with
  | Err e => r = Err e ∧ files' = files
  | Ok existing =>
      if match existing with
         | Some old => describes old record && negb (bool_decide (cr_Measurement old = cr_Measurement record))
         | None => false
         end
      then r = Err (Changed (cr_Layer record)) ∧ files' = files
      else r = Ok () ∧ lookup_record directory files' (cr_Layer record) = Ok (Some record)
  end ∧
  (∀ layer, layer ≠ cr_Layer record → lookup_record directory files' layer = lookup_record directory files layer) ∧
  (∀ d, hexadecimal d → files' !! binding_path directory d = files !! binding_path directory d).
Proof using absolute valid_plain.
  intros Hv Hw H. unfold publish_record in H.
  assert (∀ layer, layer ≠ cr_Layer record → ValidateLayerID layer = true →
    checkout_record_path directory layer ≠ checkout_record_path directory (cr_Layer record)) as Hpaths
    by (intros layer Hne Hl E%record_path_inj; auto).
  destruct (lookup_record directory files (cr_Layer record)) as [existing|e] eqn:El; [|by injection H as <- <-].
  destruct (bool_decide_reflect (existing = Some record)) as [->|Hne].
  { injection H as <- <-. rewrite (bool_decide_eq_true_2 (cr_Measurement record = _)), andb_false_r by done. done. }
  destruct (match existing with Some _ => _ | None => _ end) eqn:Ed; injection H as <- <-; [done|].
  split; [split; [done|by apply lookup_written]|]. split.
  - intros layer Hl. destruct (ValidateLayerID layer) eqn:Ev; [by apply lookup_other, Hpaths|].
    unfold lookup_record. by rewrite Ev.
  - intros d Hd. rewrite lookup_insert_ne; [done|]. apply record_not_binding; auto.
Qed.
Lemma lookup_binding_same {codec : BindingCodec} files files' layer :
  (∀ d, hexadecimal d → files' !! binding_path directory d = files !! binding_path directory d) →
  Lookup_binding directory files' false layer = Lookup_binding directory files false layer.
Proof using.
  intros Hk. unfold Lookup_binding. destruct (canonicalLayerDigest layer) as [d|e] eqn:Ed; [|done].
  apply canonical_digest in Ed as (_ & ? & ?). cbn [mbind result_bind]. by rewrite Hk.
Qed.
End Records.
(** ** What the answers mean *)
Section Answers.
Context {K : FvsKinds} {S : StateStore} {codec : BindingCodec} {host : CheckoutHost} (sha256 : string → string).
Context (range : gmap string checkoutEntry → list string) (ranged : ∀ m, range m ≡ₚ (map_to_list m).*1).
Context (directory : string).
Context (digests : ∀ x, sha256 x ≠ "").
(** The states of the store carry names, and the kernel shows directories as they are. *)
Context (named : ∀ repository state entries, StateFiles repository state = Ok entries → well_named entries).
Definition kernel_tree (n : CheckoutWalk.node) : Prop :=
  match n with
  | Node mode _ _ (Some children) => N.land mode S_IFMT = S_IFDIR ∧ well_formed children
  | _ => True
  end.
Context (trees : ∀ root relative o, OpenBeneath root relative = Some o → op_Kind o = "directory" → kernel_tree (op_Root o)).

(** The tree opened for a checkout holds what the bound state of the layer describes. *)
Definition checkout_holds (files : gmap string string) (layer path : string) : Prop :=
  ∃ b entries m contents o mode size target children,
    Lookup_binding directory files false layer = Ok (Some b) ∧
    StateFiles (fvs_layer_path layer) (StateID b) = Ok entries ∧
    expectedCheckoutEntries range entries = Ok (m, contents) ∧
    openPreparedCheckout path = Ok o ∧ op_Root o = Node mode size target (Some children) ∧
    holds_shape m children.

Lemma shape_derived repository state shape :
  deriveCheckoutShape sha256 range repository state = Ok shape → derived shape = true.
Proof using digests.
  unfold deriveCheckoutShape. destruct (StateFiles _ _) as [entries|[]]; try done.
  intros ([m c] & _ & [= <-])%bind_ok. unfold derived. cbn [cs_digest].
  rewrite bool_decide_eq_false_2; [done|].
  pose proof (digests (shape_text m (merge_sort path_le (range m)))) as Hne.
  by destruct (sha256 _).
Qed.

Lemma bound_shape files layer shape :
  boundCheckoutShape sha256 range directory files layer = Ok shape →
  ∃ b, Lookup_binding directory files false layer = Ok (Some b) ∧
    deriveCheckoutShape sha256 range (fvs_layer_path layer) (StateID b) = Ok shape.
Proof using.
  unfold boundCheckoutShape. destruct (negb _); [done|].
  intros ([b|] & Hb%wrap_ok & H)%bind_ok; [|done]. exists b. split; [done|].
  destruct (deriveCheckoutShape _ _ _ _) as [s|[]]; by simplify_eq.
Qed.

Lemma measured_prepared layer path shape record :
  measurePreparedCheckout sha256 layer path shape = Ok record → derived shape = true →
  ∃ o, openPreparedCheckout path = Ok o ∧ op_Kind o = "directory" ∧
    measureCheckoutTree sha256 (op_Root o) (Some (cs_loose shape)) = Ok (cr_Measurement record).
Proof using.
  unfold measurePreparedCheckout. intros (_ & H)%bind_unit_ok Hd.
  apply bind_ok in H as (o & Ho & H). apply bind_unit_ok in H as [Hk%check_that_ok H].
  rewrite Hd in H. apply bind_ok in H as (t & Ht%wrap_ok & [= <-]). bools_in Hk. by exists o.
Qed.

Lemma opened_tree path o : openPreparedCheckout path = Ok o → op_Kind o = "directory" → kernel_tree (op_Root o).
Proof using trees.
  unfold openPreparedCheckout. destruct (driver_root ≫= EvalSymlinks) as [root|]; [|done].
  destruct (EvalSymlinks path) as [resolved|]; [|done]. intros (_ & H)%bind_unit_ok.
  destruct (OpenBeneath _ _) as [o'|] eqn:E; [|done]. injection H as <-. cbn. exact (trees _ _ _ E).
Qed.

(** A measurement against the bound shape. *)
Lemma measured_against files layer path shape record :
  boundCheckoutShape sha256 range directory files layer = Ok shape →
  measurePreparedCheckout sha256 layer path shape = Ok record →
  (checkout_holds files layer path → cr_Measurement record = cs_digest shape) ∧
  (cr_Measurement record = cs_digest shape → checkout_holds files layer path ∨ collision sha256).
Proof using digests named ranged trees.
  intros (b & Hb & Hs)%bound_shape Hm. pose proof (shape_derived _ _ _ Hs) as Hd.
  destruct (measured_prepared _ _ _ _ Hm Hd) as (o & Ho & Hk & Ht).
  pose proof (opened_tree _ _ Ho Hk) as Htree.
  unfold deriveCheckoutShape in Hs. destruct (StateFiles _ _) as [entries|[]] eqn:Est; try done.
  assert (deriveCheckoutShape sha256 range (fvs_layer_path layer) (StateID b) = Ok shape) as Hs'
    by (unfold deriveCheckoutShape; by rewrite Est).
  apply bind_ok in Hs as ([m contents] & He & _).
  destruct (op_Root o) as [|mode size target [children|]] eqn:Er; rewrite ?Er in Ht; [done| |done]. destruct Htree as [Hdir Hwf].
  destruct (measurement_exact sha256 range ranged (fvs_layer_path layer) (StateID b) entries m contents shape
    mode size target children (cr_Measurement record)) as [H1 H2];
    [exact Est|exact (named _ _ _ Est)|exact He|exact Hs'|exact Hwf|exact Hdir|exact Ht|].
  split.
  - intros (b' & entries' & m' & contents' & o' & mode' & size' & target' & children' & Hb' & Hst' & He' & Ho' & Hr' & Hh').
    assert (b' = b) as -> by congruence. assert (entries' = entries) as -> by congruence.
    assert (m' = m) as -> by congruence. assert (o' = o) as -> by congruence.
    assert (children' = children) as -> by congruence. by apply H1.
  - intros [?|?]%H2; [left|by right]. by exists b, entries, m, contents, o, mode, size, target, children.
Qed.

(** The answer a launch gets about a prepared checkout.  Nothing is said of a
    layer no state describes.  Otherwise the answer is that the tree opened below
    the driver's root holds exactly what the state bound to the layer describes,
    whatever the records beside the bindings say: a changed checkout is never taken
    for the right one without a collision of the hash, and the right one is never
    refused. *)
Theorem verified_checkout files layer path found matching :
  verify_checkout sha256 range directory files layer path = Ok (found, matching) →
  if found : bool then
    (checkout_holds files layer path → matching = true) ∧
    (matching = true → checkout_holds files layer path ∨ collision sha256)
  else matching = false ∧ ∃ l, boundCheckoutShape sha256 range directory files layer = Err (LayerUnderivable l).
Proof using digests named ranged trees.
  unfold verify_checkout.
  destruct (boundCheckoutShape sha256 range directory files layer) as [shape|e] eqn:Es.
  - intros (record & Hm & [= <- <-])%bind_ok. rewrite bool_decide_eq_true. by eapply measured_against.
  - destruct e; try done. intros [= <- <-]. eauto.
Qed.

(** Preparing a checkout ends in an error, or leaves a tree that holds what the
    state bound to the layer describes; only for a layer nothing describes is a
    measurement filed that nothing was compared with. *)
Theorem recorded_checkout stage_fails rename_fails files layer path files' :
  recordCheckoutMeasurement sha256 range directory stage_fails rename_fails files layer path = (Ok (), files') →
  checkout_holds files layer path ∨ collision sha256 ∨
  ∃ l, boundCheckoutShape sha256 range directory files layer = Err (LayerUnderivable l).
Proof using digests named ranged trees.
  unfold recordCheckoutMeasurement.
  destruct (boundCheckoutShape sha256 range directory files layer) as [shape|e] eqn:Es.
  2:{ destruct e; try done. intros _. eauto. }
  destruct (measurePreparedCheckout sha256 layer path shape) as [record|] eqn:Em; [|done].
  pose proof Es as (b & _ & Hs)%bound_shape. rewrite (shape_derived _ _ _ Hs). cbn [andb].
  destruct (bool_decide_reflect (cr_Measurement record = cs_digest shape)) as [E|]; cbn [negb]; [|done].
  intros _. destruct (measured_against _ _ _ _ _ Es Em) as [_ H]. destruct (H E); auto.
Qed.

(** ** Pairing directories and layers *)
Context (absolute : is_abs directory = true) (valid_plain : ∀ layer, ValidateLayerID layer = true → plain layer).

Lemma record_keeps_bindings stage_fails rename_fails files layer path r files' :
  recordCheckoutMeasurement sha256 range directory stage_fails rename_fails files layer path = (r, files') →
  ∀ d, hexadecimal d → files' !! binding_path directory d = files !! binding_path directory d.
Proof using absolute valid_plain.
  unfold recordCheckoutMeasurement. intros H d Hd.
  destruct (match boundCheckoutShape _ _ _ _ _ with Ok _ => _ | Err _ => _ end) as [shape|e]; [|by injection H as _ <-].
  destruct (measurePreparedCheckout _ _ _ _); [|by injection H as _ <-].
  destruct (_ && _); [by injection H as _ <-|]. by eapply publish_bindings.
Qed.

Lemma record_from_each faults index files layers directories files' :
  record_from sha256 range directory faults index files layers directories = (Ok (), files') →
  index + length directories = length layers →
  ∀ i path, directories !! i = Some path → ∃ layer files0 files1,
    layers !! (length layers - 1 - (index + i)) = Some layer ∧
    (∀ d, hexadecimal d → files0 !! binding_path directory d = files !! binding_path directory d) ∧
    recordCheckoutMeasurement sha256 range directory (faults (index + i)).1 (faults (index + i)).2 files0 layer path = (Ok (), files1).
Proof using absolute valid_plain.
  revert index files. induction directories as [|p directories IH]; intros index files H Hlen i path Hi; [done|].
  cbn [record_from] in H. cbn [length] in Hlen.
  destruct (lookup_lt_is_Some_2 layers (length layers - 1 - index)) as [layer El]; [lia|]. rewrite El in H.
  destruct (recordCheckoutMeasurement _ _ _ _ _ files layer p) as [[[]|e] files1] eqn:Er; [|done].
  destruct i as [|i]; cbn in Hi.
  - injection Hi as <-. rewrite Nat.add_0_r. by exists layer, files, files1.
  - rewrite <-Nat.add_succ_comm. destruct (IH (1 + index) files1 H ltac:(cbn; lia) i path Hi) as (l & f0 & f1 & ? & Hk & ?).
    exists l, f0, f1. split_and!; [done| |done]. intros d Hd. rewrite Hk by done. by eapply record_keeps_bindings.
Qed.

(** The directories of the overlay are the layers in reverse: when preparing
    them ends without an error there is one directory for each layer, and the tree
    of each directory holds what the state of its own layer describes, unless
    nothing describes that layer. *)
Theorem prepared_checkouts_paired faults files layers directories files' :
  recordPreparedCheckouts sha256 range directory faults files layers directories = (Ok (), files') →
  length directories = length layers ∧
  ∀ i layer path, reverse layers !! i = Some layer → directories !! i = Some path →
    checkout_holds files layer path ∨ collision sha256 ∨
    ∃ l, boundCheckoutShape sha256 range directory files layer = Err (LayerUnderivable l).
Proof using absolute digests named ranged trees valid_plain.
  unfold recordPreparedCheckouts. destruct (bool_decide_reflect (length layers = length directories)) as [Hlen|]; [|done].
  cbn [negb]. intros H. split; [done|]. intros i layer path Hl Hi.
  destruct (record_from_each faults 0 files layers directories files' H ltac:(cbn; lia) i path Hi)
    as (layer' & files0 & files1 & Hl' & Hk & Hr).
  apply reverse_lookup_Some in Hl as [Hl _].
  replace (length layers - 1 - (0 + i)) with (length layers - Datatypes.S i) in Hl' by lia.
  assert (layer' = layer) as -> by congruence.
  pose proof (lookup_binding_same directory files files0 layer Hk) as Hb.
  assert (boundCheckoutShape sha256 range directory files0 layer = boundCheckoutShape sha256 range directory files layer) as Hs
    by (unfold boundCheckoutShape; by rewrite Hb).
  unfold checkout_holds. rewrite <-Hb, <-Hs. revert Hr. unfold recordCheckoutMeasurement.
  destruct (boundCheckoutShape sha256 range directory files0 layer) as [shape|e] eqn:Es.
  2:{ destruct e; try done. intros _. eauto. }
  destruct (measurePreparedCheckout sha256 layer path shape) as [record|] eqn:Em; [|done].
  pose proof Es as (b & _ & Hsh)%bound_shape. rewrite (shape_derived _ _ _ Hsh). cbn [andb].
  destruct (bool_decide_reflect (cr_Measurement record = cs_digest shape)) as [E|]; cbn [negb]; [|done].
  intros _. destruct (measured_against _ _ _ _ _ Es Em) as [_ Hm]. destruct (Hm E); auto.
Qed.
End Answers.

(** ** The contents *)
Section Contents.
Context {host : CheckoutHost} (root : CheckoutWalk.node) (contents : gmap string string).

(** What is found for one name. *)
Inductive file_verdict : Type := FileUnchecked | FileMissing | FileChanged (size : Z) | FileSame (size : Z) | FileFailed.
Definition file_of (name : string) : file_verdict :=
  let expected := default "" (contents !! name) in
  if bool_decide (expected = "") then FileUnchecked
  else match digestCheckoutFile root name with
       | Err _ => FileFailed
       | Ok None => FileMissing
       | Ok (Some (size, digest)) => if same_text digest expected then FileSame size else FileChanged size
       end.
Definition is_unchecked (v : file_verdict) : bool := match v with FileUnchecked => true | _ => false end.
Definition is_missing (v : file_verdict) : bool := match v with FileMissing => true | _ => false end.
Definition is_changed (v : file_verdict) : bool := match v with FileChanged _ => true | _ => false end.
Definition file_size (v : file_verdict) : option Z :=
  match v with FileChanged size | FileSame size => Some size | _ => None end.

Lemma check_files_spec check names result :
  check_files root contents check names = Ok result →
  Forall (λ name, file_of name ≠ FileFailed) names ∧
  cc_Unchecked result = cc_Unchecked check ++ filter (λ name, is_unchecked (file_of name) = true) names ∧
  cc_Missing result = cc_Missing check ++ filter (λ name, is_missing (file_of name) = true) names ∧
  cc_Changed result = cc_Changed check ++ filter (λ name, is_changed (file_of name) = true) names ∧
  cc_Files result = (cc_Files check + Z.of_nat (length (omap (λ name, file_size (file_of name)) names)))%Z ∧
  cc_Bytes result = (cc_Bytes check + foldr Z.add 0 (omap (λ name, file_size (file_of name)) names))%Z.
Proof using.
  revert check. induction names as [|name names IH]; intros check H; cbn [check_files] in H.
  { injection H as <-. cbn. rewrite !app_nil_r. split_and!; [constructor|done..|lia|lia]. }
  destruct check as [l st d n b changed missing unchecked].
  assert (∀ P (f : string → bool), P = f name → filter (λ x, f x = true) (name :: names) =
    (if P : bool then [name] else []) ++ filter (λ x, f x = true) names) as Hf.
  { intros P f ->. destruct (f name) eqn:E; [by rewrite filter_cons_True|rewrite filter_cons_False; [done|by rewrite E]]. }
  rewrite !(Hf _ (λ x, is_unchecked (file_of x)) eq_refl), !(Hf _ (λ x, is_missing (file_of x)) eq_refl),
    !(Hf _ (λ x, is_changed (file_of x)) eq_refl). clear Hf. cbn [omap list_omap]. rewrite Forall_cons.
  set (expected := default "" (contents !! name)) in *.
  destruct (bool_decide (expected = "")) eqn:Ee.
  - assert (file_of name = FileUnchecked) as -> by (unfold file_of; fold expected; by rewrite Ee).
    apply IH in H as (?&->&->&->&->&->). cbn. rewrite <-?(assoc_L (++)). by split_and!.
  - destruct (digestCheckoutFile root name) as [[[size digest]|]|] eqn:Ef; [| |done].
    + assert (file_of name = if same_text digest expected then FileSame size else FileChanged size) as ->
        by (unfold file_of; fold expected; by rewrite Ee, Ef).
      apply IH in H as (?&->&->&->&->&->). cbn.
      destruct (same_text digest expected); cbn; rewrite <-?(assoc_L (++)); (split_and!; done || lia).
    + assert (file_of name = FileMissing) as -> by (unfold file_of; fold expected; by rewrite Ee, Ef).
      apply IH in H as (?&->&->&->&->&->). cbn. rewrite <-?(assoc_L (++)). by split_and!.
Qed.
End Contents.

Section SoundContents.
Context {K : FvsKinds} {S : StateStore} {codec : BindingCodec} {host : CheckoutHost} (sha256 : string → string).
Context (range : gmap string checkoutEntry → list string) (directory : string).

(** A full check reads every file of the state that carries a digest, and counts
    those it read: it is sound exactly when each of them is there with that digest,
    and what it leaves unchecked is exactly the files the state has no digest for. *)
Theorem sound_contents files layer check :
  CheckPreparedCheckoutContents sha256 range directory files layer = Ok check →
  ∃ shape directories path o,
    boundCheckoutShape sha256 range directory files layer = Ok shape ∧
    prepared_directories = Ok directories ∧ directories !! layer = Some path ∧ openPreparedCheckout path = Ok o ∧
    (Sound check = true ↔ ∀ name expected, cs_contents shape !! name = Some expected → expected ≠ "" →
       ∃ size digest, digestCheckoutFile (op_Root o) name = Ok (Some (size, digest)) ∧
         same_text digest expected = true) ∧
    (∀ name, name ∈ cc_Unchecked check ↔ cs_contents shape !! name = Some "") ∧
    (Sound check = true → (cc_Files check + Z.of_nat (length (cc_Unchecked check)) = Z.of_nat (size (cs_contents shape)))%Z).
Proof using.
  unfold CheckPreparedCheckoutContents.
  intros (shape & Hs & (directories & Hd%wrap_ok & H)%bind_ok)%bind_ok.
  destruct (directories !! layer) as [path|] eqn:Ep; [|done]. apply bind_ok in H as (o & Ho & H).
  exists shape, directories, path, o. do 4 (split; [done|]).
  set (names := sort_strings (map_to_list (cs_contents shape)).*1) in *.
  assert (∀ name, name ∈ names ↔ is_Some (cs_contents shape !! name)) as Hin.
  { intros name. unfold names. rewrite sort_strings_elem, list_elem_of_fmap. split.
    - intros ([k v] & -> & Hk%elem_of_map_to_list). by exists v.
    - intros [v Hv]. exists (name, v). by rewrite elem_of_map_to_list. }
  apply check_files_spec in H as (Hall & Hu & Hm & Hc & Hf & _). cbn in Hu, Hm, Hc, Hf.
  rewrite Forall_forall in Hall.
  assert (Sound check = true ↔ ∀ name, name ∈ names →
    is_unchecked (file_of (op_Root o) (cs_contents shape) name) = true ∨
    ∃ size, file_of (op_Root o) (cs_contents shape) name = FileSame size) as Hsound.
  { unfold Sound. rewrite andb_true_iff, !bool_decide_eq_true, Hc, Hm. split.
    - intros [H1 H2] name Hn. pose proof (Hall name Hn) as Hff.
      destruct (file_of _ _ name) eqn:E; [by left| | |by right; eexists|done]; exfalso.
      + apply (not_elem_of_nil name). rewrite <-H2. apply list_elem_of_filter. by rewrite E.
      + apply (not_elem_of_nil name). rewrite <-H1. apply list_elem_of_filter. by rewrite E.
    - intros Hn. split; apply elem_of_nil_inv; intros x [Hx Hx']%list_elem_of_filter;
        destruct (Hn x Hx') as [E|[z E]]; destruct (file_of (op_Root o) (cs_contents shape) x); done. }
  assert (∀ name expected, cs_contents shape !! name = Some expected →
    is_unchecked (file_of (op_Root o) (cs_contents shape) name) = true ↔ expected = "") as Hun.
  { intros name expected He. unfold file_of. rewrite He. cbn. case_bool_decide as E; [done|].
    split; [|done]. destruct (digestCheckoutFile _ _) as [[[??]|]|]; [case_match|..]; done. }
  split_and!.
  - rewrite Hsound. split.
    + intros Hn name expected He Hne. destruct (Hn name) as [E|[z E]]; [by apply Hin; eexists| |].
      * by apply (Hun name expected He) in E.
      * unfold file_of in E. rewrite He in E. cbn in E. rewrite bool_decide_eq_false_2 in E by done.
        destruct (digestCheckoutFile _ _) as [[[size digest]|]|]; [|done..]. exists size, digest.
        split; [done|]. by destruct (same_text digest expected).
    + intros Hn name [expected He]%Hin. destruct (decide (expected = "")) as [->|Hne].
      * left. by apply (Hun name "").
      * right. destruct (Hn name expected He Hne) as (size & digest & Hdig & Hsame). exists size.
        unfold file_of. rewrite He. cbn. rewrite bool_decide_eq_false_2 by done. by rewrite Hdig, Hsame.
  - intros name. rewrite Hu, list_elem_of_filter, Hin. split.
    + intros [E [expected He]]. rewrite He. f_equal. by apply (Hun name).
    + intros He. split; [by apply (Hun name "")|by eexists].
  - intros Hs'. rewrite Hf, Hu, Z.add_0_l, <-Nat2Z.inj_add. f_equal.
    rewrite <-length_map_to_list, <-(length_fmap fst).
    transitivity (length names); [|unfold names; by rewrite sort_strings_perm].
    pose proof (proj1 Hsound Hs') as Hx. clear -Hx. induction names as [|x l IH]; [done|].
    cbn [omap list_omap]. destruct (Hx x ltac:(set_solver)) as [E|[z E]].
    + rewrite filter_cons_True by done. destruct (file_of _ _ x); try done. cbn [file_size is_unchecked length].
      cbn. rewrite Nat.add_succ_r. f_equal. apply IH. set_solver.
    + rewrite E. rewrite filter_cons_False by (by rewrite E). cbn. f_equal. apply IH. set_solver.
Qed.
End SoundContents.

(** ** A store with one layer *)
Definition tree_of (tool : CheckoutWalk.node) : CheckoutWalk.node := dir_example 16877 (tree_example tool).
Definition good_tool : CheckoutWalk.node := leaf_example 33261 6.
Definition host_example (tool : CheckoutWalk.node) : CheckoutHost := {|
  ValidateLayerID := λ layer, bool_decide (slen layer = 64) && str_forall digest_character layer;
  driver_root := Some "/s/driver";
  EvalSymlinks := Some;
  OpenBeneath := λ root relative,
    if bool_decide (root = "/s/driver" ∧ relative = "checkouts/a")
    then Some (mkOpened "" 66 7 "directory" (tree_of tool)) else None;
  fvs_layer_path := λ layer, "/s/fvs/layers/" +:+ layer;
  prepared_directories := Ok {[digest_example := "/s/driver/checkouts/a"]};
  encode_record := λ _, "";
  decode_record := λ _, None;
  digestCheckoutFile := λ _ name,
    if bool_decide (name = "usr/bin/tool") then Ok (Some (6%Z, "Digest of usr/bin/tool")) else Ok None
|}.
Definition bound_files : gmap string string :=
  {[binding_path "/s/bindings" digest_example := binding_text (stored_example "s1")]}.
Definition tagged (text : string) : string := "h" +:+ text.

Lemma tagged_inj : ¬ collision tagged.
Proof. intros (x & y & Hne & E). apply Hne. by injection E. Qed.
Lemma example_named repository state entries :
  StateFiles (StateStore := store_example) repository state = Ok entries → well_named entries.
Proof. intros [= <-]. exact state_named. Qed.
Lemma example_trees tool :
  match tool with Node mode size None None => True | _ => False end →
  ∀ root relative o, OpenBeneath (CheckoutHost := host_example tool) root relative = Some o →
    op_Kind o = "directory" → kernel_tree (op_Root o).
Proof.
  intros Ht root relative o. unfold OpenBeneath, host_example. case_bool_decide; [|done].
  intros [= <-] _. split; [reflexivity|]. by apply tree_formed.
Qed.
Lemma example_valid tool layer : ValidateLayerID (CheckoutHost := host_example tool) layer = true → plain layer.
Proof.
  unfold ValidateLayerID, host_example. intros [Hl%bool_decide_eq_true Hs]%andb_true_iff.
  pose proof (digest_lacks slash layer eq_refl Hs) as Hb.
  split_and!; [intros E; rewrite E in Hl; discriminate Hl..|exact Hb].
Qed.

Definition verify_example (tool : CheckoutWalk.node) : result checkout_error (bool * bool) :=
  verify_checkout (S := store_example) (host := host_example tool) tagged keys_example "/s/bindings"
    bound_files digest_example "/s/driver/checkouts/a".
(** The right tree, one whose tool was given other permission bits, and one whose
    tool cannot be read. *)
Example checkouts_verified :
  verify_example good_tool = Ok (true, true) ∧ verify_example (leaf_example 35309 6) = Ok (true, false) ∧
  verify_example Unreadable = Err (Unmeasured "/s/driver/checkouts/a" (WalkStat "usr/bin/tool")).
Proof. vm_compute. done. Qed.

Lemma verified_checkout_witness :
  checkout_holds (S := store_example) (host := host_example good_tool) keys_example "/s/bindings" bound_files
    digest_example "/s/driver/checkouts/a".
Proof.
  assert (verify_example good_tool = Ok (true, true)) as Hv by (vm_compute; reflexivity).
  destruct (verified_checkout (S := store_example) (host := host_example good_tool) tagged keys_example
    (λ m, reflexivity _) "/s/bindings" (λ x E, ltac:(discriminate E)) example_named (example_trees good_tool I)
    bound_files digest_example "/s/driver/checkouts/a" true true Hv) as [_ H].
  destruct (H eq_refl) as [Hh|Hc]; [exact Hh|]. exfalso. exact (tagged_inj Hc).
Defined.

Definition prepare_example (tool : CheckoutWalk.node) : result checkout_error () * gmap string string :=
  recordPreparedCheckouts (S := store_example) (host := host_example tool) tagged keys_example "/s/bindings"
    (λ _, (false, false)) bound_files [digest_example] ["/s/driver/checkouts/a"].

Lemma prepared_checkouts_paired_witness :
  (prepare_example (leaf_example 33261 7)).1 = Err (Unexpected digest_example "/s/driver/checkouts/a") ∧
  checkout_holds (S := store_example) (host := host_example good_tool) keys_example "/s/bindings" bound_files
    digest_example "/s/driver/checkouts/a".
Proof.
  split; [vm_compute; reflexivity|].
  assert ((prepare_example good_tool).1 = Ok ()) as Hp by (vm_compute; reflexivity).
  destruct (prepare_example good_tool) as [r files'] eqn:Ep. cbn [fst] in Hp. rewrite Hp in Ep.
  destruct (prepared_checkouts_paired (S := store_example) (host := host_example good_tool) tagged keys_example
    (λ m, reflexivity _) "/s/bindings" (λ x E, ltac:(discriminate E)) example_named (example_trees good_tool I)
    eq_refl (example_valid good_tool) (λ _, (false, false)) bound_files [digest_example] ["/s/driver/checkouts/a"]
    files' Ep) as [_ H].
  destruct (H 0 digest_example "/s/driver/checkouts/a" eq_refl eq_refl) as [Hh|[Hc|[l Hl]]]; [exact Hh| |].
  - exfalso. exact (tagged_inj Hc).
  - exfalso.
    assert (is_ok (boundCheckoutShape (S := store_example) (host := host_example good_tool) tagged keys_example
      "/s/bindings" bound_files digest_example) = true) as Hok by (vm_compute; reflexivity).
    rewrite Hl in Hok. discriminate Hok.
Defined.

Lemma opened_below_root_witness :
  ∃ rest, rest ≠ [] ∧ path_parts "/s/driver/checkouts/a" = path_parts "/s/driver" ++ rest.
Proof.
  apply (opened_below_root "/s/driver" "/s/driver/checkouts/a" eq_refl eq_refl). reflexivity.
Defined.

Lemma sound_contents_witness :
  match CheckPreparedCheckoutContents (S := store_example) (host := host_example good_tool) tagged keys_example
          "/s/bindings" bound_files digest_example with
  | Ok check => Sound check = true ∧ cc_Files check = 1%Z
  | Err _ => False
  end.
Proof.
  set (r := CheckPreparedCheckoutContents _ _ _ _ _).
  assert (is_ok r = true) as Hok by (vm_compute; reflexivity).
  assert (match r with Ok check => cc_Files check = 1%Z | Err _ => False end) as Hn by (vm_compute; reflexivity).
  assert (match boundCheckoutShape (S := store_example) (host := host_example good_tool) tagged keys_example
    "/s/bindings" bound_files digest_example with
    | Ok shape => map_to_list (cs_contents shape) = [("usr/bin/tool", "digest of usr/bin/tool")]
    | Err _ => False end) as Hcontents by (vm_compute; reflexivity).
  destruct r as [check|] eqn:E; [|discriminate Hok]. split; [|exact Hn].
  destruct (sound_contents (S := store_example) (host := host_example good_tool) tagged keys_example "/s/bindings"
    bound_files digest_example check E) as (shape & directories & path & o & Hs & Hd & Hp & Ho & [_ H] & _).
  rewrite Hs in Hcontents. apply H. intros name expected Hc Hne.
  apply elem_of_map_to_list in Hc. rewrite Hcontents in Hc. apply list_elem_of_singleton in Hc.
  injection Hc as -> ->. exists 6%Z, "Digest of usr/bin/tool". split; [reflexivity|]. vm_compute. reflexivity.
Defined.

Definition record_of (measurement : string) : checkoutRecord :=
  mkRecord 2 digest_example "/s/driver/checkouts/a" 66 7 "s1" measurement measurement.
(** A host that writes the records of [record_of]. *)
Definition recording_host : CheckoutHost := {|
  ValidateLayerID := ValidateLayerID (CheckoutHost := host_example good_tool);
  driver_root := None; EvalSymlinks := Some; OpenBeneath := λ _ _, None; fvs_layer_path := λ layer, layer;
  prepared_directories := Err (); encode_record := cr_Measurement;
  decode_record := λ data, Some (record_of (trim_suffix newline data)); digestCheckoutFile := λ _ _, Err ()
|}.

Lemma record_of_writable (measurement : string) :
  measurement = "m1" ∨ measurement = "m2" → writable (host := recording_host) (record_of measurement).
Proof.
  intros [-> | ->]; (split; [apply Nat.leb_le; vm_compute; reflexivity|]);
    (split; [vm_compute; reflexivity|split; discriminate]).
Qed.

Lemma published_record_witness :
  let publish := publish_record (host := recording_host) "/s/bindings" false false in
  ∃ files, publish ∅ (record_of "m1") = (Ok (), files) ∧ publish files (record_of "m2") = (Err (Changed digest_example), files).
Proof.
  intros publish. destruct (publish ∅ (record_of "m1")) as [r1 files] eqn:H1.
  destruct (published_record (host := recording_host) "/s/bindings" eq_refl (example_valid good_tool)
    ∅ (record_of "m1") r1 files eq_refl (record_of_writable "m1" (or_introl eq_refl)) H1) as [[-> Hl] _].
  exists files. split; [reflexivity|].
  destruct (publish files (record_of "m2")) as [r2 files'] eqn:H2.
  destruct (published_record (host := recording_host) "/s/bindings" eq_refl (example_valid good_tool)
    files (record_of "m2") r2 files' eq_refl (record_of_writable "m2" (or_intror eq_refl)) H2) as [H _].
  change (cr_Layer (record_of "m1")) with digest_example in Hl.
  change (cr_Layer (record_of "m2")) with digest_example in H.
  rewrite Hl in H. destruct H as [-> ->]. reflexivity.
Defined.
