(* ===== verification/OciReference.v ===== *)
(** * Image references ([pkg/oci/reference.go])

    A reference as a user writes it, normalised to a registry, a repository and a
    tag or digest. *)
From Stdlib Require Import Ascii.
From stdpp Require Import base strings list sets.
From S2P Require Import Prelude.
From S2P Require Import GoStrings.
From S2P Require Import Regex.
From S2P Require Import Utf8.
From stdpp Require Import options.

(** ** Patterns *)
Definition repository_word : regex :=
  let word := RPlus (RSet [("a", "z"); ("0", "9")]%char) in
  RSeq word (RStar (RSeq (RSet [(".", "."); ("_", "_"); ("-", "-")]%char) word)).
Definition repositoryPattern : regex :=
  RSeq repository_word (RStar (RSeq (RChar slash) repository_word)).

Definition tagPattern : regex :=
  RSeq (RSet [("A", "Z"); ("a", "z"); ("0", "9"); ("_", "_")]%char)
    (RUpTo 127 (RSet [("A", "Z"); ("a", "z"); ("0", "9"); ("_", "_"); (".", "."); ("-", "-")]%char)).

Definition referenceDigestPattern : regex :=
  RSeq (RLit "sha256:") (RTimes 64 (RSet [("a", "f"); ("0", "9")]%char)).

(** ** References *)
Record Reference : Type := mkReference {
  re_Registry : string;
  re_Repository : string;
  re_Identifier : string;
  re_IsDigest : bool
}.

Inductive reference_error : Type :=
  | InvalidReference | UnsupportedDigest (digest : string) | InvalidTag (tag : string).

Definition contains_any (chars : list ascii) (s : string) : bool :=
  existsb (λ c, has_byte c s) chars.

(** [strings.Count(value, c)] for one byte. *)
Fixpoint count_byte (c : ascii) (s : string) : nat :=
  match s with
  | "" => 0
  | String a s => (if bool_decide (a = c) then 1 else 0) + count_byte c s
  end.

(** [name[:lastColon]] and [name[lastColon+1:]]. *)
Definition before_index (i : Z) (s : string) : string := str_take (Z.to_nat i) s.
Definition after_index (i : Z) (s : string) : string := str_drop (Z.to_nat i + 1) s.

Definition splitIdentifier (value : string) : result reference_error (string * string * bool) :=
  refuse_if (1 <? count_byte "@" value) InvalidReference ;;;
  match cut "@" value with
  | (name, Some digest) =>
      check_that (matches referenceDigestPattern digest) (UnsupportedDigest digest) ;;;
      let lastSlash := last_index slash name in
      let lastColon := last_index ":" name in
      if (lastSlash <? lastColon)%Z then
        let tag := after_index lastColon name in
        check_that (matches tagPattern tag) (InvalidTag tag) ;;;
        Ok (before_index lastColon name, digest, true)
      else Ok (name, digest, true)
  | (_, None) =>
      let lastSlash := last_index slash value in
      let lastColon := last_index ":" value in
      let '(name, identifier) :=
        if (lastSlash <? lastColon)%Z then (before_index lastColon value, after_index lastColon value)
        else (value, "latest") in
      check_that (matches tagPattern identifier) (InvalidTag identifier) ;;;
      Ok (name, identifier, false)
  end.

Definition isRegistry (value : string) : bool :=
  bool_decide (value = "localhost") || contains_any [".";":"]%char value.

Definition validRegistry (value : string) : bool :=
  negb (bool_decide (value = "")) && negb (contains_any [" "; "/"; "@"]%char value) &&
  negb (has_prefix "." value) && negb (has_suffix "." value).

(** What is made of the registry and the parts of the name that are left.
    [strings.ToLower] is [lower] here: a repository that is not ASCII is refused by
    its pattern either way. *)
Definition assemble (registry : string) (parts : list string) (identifier : string) (isDigest : bool) :
    result reference_error Reference :=
  let registry := if bool_decide (registry = "docker.io") then "index.docker.io" else registry in
  let parts :=
    match parts with
    | [_] => if bool_decide (registry = "index.docker.io") then "library" :: parts else parts
    | _ => parts
    end in
  let rawRepository := join "/" parts in
  let repository := lower rawRepository in
  check_that (bool_decide (rawRepository = repository)) InvalidReference ;;;
  check_that (validRegistry registry && matches repositoryPattern repository) InvalidReference ;;;
  Ok (mkReference registry repository identifier isDigest).

Definition ParseReference (value : string) : result reference_error Reference :=
  let value := trim_space value in
  refuse_if (bool_decide (value = "") || contains_any ["000"; "013"; "010"; "?"; "#"]%char value)
    InvalidReference ;;;
  '(name, identifier, isDigest) ← splitIdentifier value;
  match split_byte slash name with
  | first :: (_ :: _) as rest =>
      if isRegistry first then assemble (lower first) rest identifier isDigest
      else assemble "index.docker.io" (first :: rest) identifier isDigest
  | parts => assemble "index.docker.io" parts identifier isDigest
  end.

Definition ContextName (r : Reference) : string := re_Registry r +:+ "/" +:+ re_Repository r.

Definition Name (r : Reference) : string :=
  ContextName r +:+ (if re_IsDigest r then "@" else ":") +:+ re_Identifier r.

Definition WithTag (r : Reference) (tag : string) : result reference_error Reference :=
  check_that (matches tagPattern tag) (InvalidTag tag) ;;;
  Ok (mkReference (re_Registry r) (re_Repository r) tag false).

Example parse_short :
  ParseReference "alpine" = Ok (mkReference "index.docker.io" "library/alpine" "latest" false).
Proof. vm_compute. reflexivity. Qed.
Example parse_port :
  ParseReference "Localhost:5000/a/b:1.2 " = Ok (mkReference "localhost:5000" "a/b" "1.2" false).
Proof. vm_compute. reflexivity. Qed.
Example parse_option_like :
  ParseReference "--volume=.:/x" = Ok (mkReference "--volume=.:" "x" "latest" false).
Proof. vm_compute. reflexivity. Qed.

(** ** Positions *)
Lemma last_index_bounds c s : (-1 ≤ last_index c s < Z.of_nat (slen s))%Z.
Proof.
  unfold slen. induction s as [|a s IH]; cbn [last_index String.length]; [lia|].
  destruct (Z.leb_spec 0 (last_index c s)); [lia|]. case_bool_decide; lia.
Qed.

Lemma last_index_app_none c s1 s2 : has_byte c s2 = false → last_index c (s1 +:+ s2) = last_index c s1.
Proof.
  intros Hs. induction s1 as [|a s1 IH]; [by apply last_index_none|]. cbn [last_index String.append].
  by rewrite IH.
Qed.

Lemma last_index_from c s1 s2 : (Z.of_nat (slen s1) ≤ last_index c (s1 +:+ String c s2))%Z.
Proof.
  unfold slen. induction s1 as [|a s1 IH]; cbn [last_index String.append String.length].
  - rewrite bool_decide_eq_true_2 by done. destruct (Z.leb_spec 0 (last_index c s2)); lia.
  - rewrite (proj2 (Z.leb_le _ _)); lia.
Qed.

Lemma count_byte_app c s1 s2 : count_byte c (s1 +:+ s2) = count_byte c s1 + count_byte c s2.
Proof. induction s1 as [|a s1 IH]; [done|]. cbn [count_byte String.append]. rewrite IH. lia. Qed.

Lemma count_byte_none c s : has_byte c s = false → count_byte c s = 0.
Proof.
  induction s as [|a s IH]; [done|]. rewrite has_byte_cons. bools. intros [? ?].
  cbn [count_byte]. by rewrite bool_decide_eq_false_2, IH by done.
Qed.

Lemma at_index t c s :
  before_index (Z.of_nat (slen t)) (t +:+ String c s) = t ∧
  after_index (Z.of_nat (slen t)) (t +:+ String c s) = s.
Proof.
  unfold before_index, after_index. rewrite Nat2Z.id. split; [apply str_take_app|].
  induction t as [|a t IH]; [done|]. cbn. exact IH.
Qed.

(** ** Graphic characters: ASCII, neither a space nor a control *)
Definition graphic (c : ascii) : bool := (32 <? byte c)%N && (byte c <? 127)%N.

Lemma graphic_not_space c : graphic c = true → ascii_byte c = true ∧ is_space (byte c) = false.
Proof. revert c. by_bytes. Qed.

Lemma drop_spaces_none l : (∀ x, x ∈ l → is_space x.1 = false) → drop_spaces l = l.
Proof. destruct l as [|x l]; [done|]. intros H. cbn. by rewrite (H x) by apply list_elem_of_here. Qed.

Lemma trim_space_graphic s : str_forall graphic s = true → trim_space s = s.
Proof.
  intros Hg. unfold trim_space.
  assert (∀ x, x ∈ runes s → is_space x.1 = false) as Hx.
  { rewrite runes_ascii by (eapply str_forall_impl; [|exact Hg]; intros c Hc; by apply graphic_not_space).
    intros x (c & -> & Hc)%list_elem_of_fmap. cbn. apply graphic_not_space. revert Hg Hc.
    induction s as [|a s IH]; [by intros _ ?%elem_of_nil|]. cbn.
    intros [Ha Hs]%andb_true_iff [->|Hc]%elem_of_cons; auto. }
  rewrite (drop_spaces_none (runes s)) by done.
  rewrite drop_spaces_none; [|intros x Hr; apply Hx; by apply elem_of_reverse].
  rewrite reverse_involutive. apply runes_concat.
Qed.

(** ** The normal form of a reference *)
Record normal_reference (r : Reference) : Prop := {
  nr_registry : validRegistry (re_Registry r) = true ∧ isRegistry (re_Registry r) = true;
  nr_lower : lower (re_Registry r) = re_Registry r ∧ re_Registry r ≠ "docker.io";
  nr_plain : contains_any ["000"; "013"; "010"; "?"; "#"]%char (re_Registry r) = false;
  nr_repository : matches repositoryPattern (re_Repository r) = true;
  nr_library : re_Registry r = "index.docker.io" → has_byte slash (re_Repository r) = true;
  nr_identifier : matches (if re_IsDigest r then referenceDigestPattern else tagPattern) (re_Identifier r) = true
}.

Lemma lower_byte_facts c :
  lower_byte (lower_byte c) = lower_byte c ∧
  (uses repositoryPattern c = true → lower_byte c = c ∧ graphic c = true ∧ c ≠ ":"%char ∧ c ≠ "@"%char) ∧
  (uses tagPattern c = true → graphic c = true ∧ c ≠ ":"%char ∧ c ≠ slash ∧ c ≠ "@"%char) ∧
  (uses referenceDigestPattern c = true → graphic c = true ∧ c ≠ "@"%char).
Proof. revert c. by_bytes. Qed.

Lemma lower_idemp s : lower (lower s) = lower s.
Proof. induction s as [|c s IH]; [done|]. cbn. rewrite IH. f_equal. by destruct (lower_byte_facts c). Qed.

Lemma lower_has_byte c s :
  (∀ d, bool_decide (lower_byte d = c) = bool_decide (d = c)) → has_byte c (lower s) = has_byte c s.
Proof.
  intros Hc. induction s as [|d s IH]; [done|]. cbn [lower]. by rewrite !has_byte_cons, IH, Hc.
Qed.

Lemma lower_contains_any l s :
  (∀ c d, c ∈ l → bool_decide (lower_byte d = c) = bool_decide (d = c)) →
  contains_any l (lower s) = contains_any l s.
Proof.
  intros Hl. unfold contains_any. induction l as [|c l IH]; [done|]. cbn.
  rewrite lower_has_byte by (intros d; apply Hl, list_elem_of_here).
  f_equal. apply IH. intros c' d Hc. apply Hl. by right.
Qed.

Lemma forall_lacks (f : ascii → bool) a s :
  (∀ c, f c = true → c ≠ a) → str_forall f s = true → has_byte a s = false.
Proof.
  intros Hf. induction s as [|c s IH]; [done|]. cbn. intros [Hc Hs]%andb_true_iff.
  rewrite has_byte_cons, bool_decide_eq_false_2, IH by auto. done.
Qed.

Lemma repository_facts s :
  matches repositoryPattern s = true →
  lower s = s ∧ str_forall graphic s = true ∧ has_byte ":" s = false ∧ has_byte "@" s = false.
Proof.
  intros Hm%matches_lang%lang_uses.
  assert (∀ c, uses repositoryPattern c = true → lower_byte c = c ∧ graphic c = true ∧ c ≠ ":"%char ∧ c ≠ "@"%char)
    as Hu by (intros c; apply lower_byte_facts).
  split_and!.
  - induction s as [|c s IH]; [done|]. cbn in *. apply andb_true_iff in Hm as [Hc Hm].
    rewrite IH by done. f_equal. by apply Hu.
  - eapply str_forall_impl; [|exact Hm]. intros c Hc. by apply Hu.
  - eapply forall_lacks; [|exact Hm]. intros c Hc. by apply Hu.
  - eapply forall_lacks; [|exact Hm]. intros c Hc. by apply Hu.
Qed.

Lemma identifier_facts (digest : bool) s :
  matches (if digest then referenceDigestPattern else tagPattern) s = true →
  str_forall graphic s = true ∧ has_byte "@" s = false ∧
  (digest = false → has_byte ":" s = false ∧ has_byte slash s = false).
Proof.
  intros Hm%matches_lang%lang_uses.
  destruct digest.
  - assert (∀ c, uses referenceDigestPattern c = true → graphic c = true ∧ c ≠ "@"%char) as Hu
      by (intros c; apply lower_byte_facts).
    split_and!; [eapply str_forall_impl; [|exact Hm]; apply Hu|eapply forall_lacks; [|exact Hm]; apply Hu|done].
  - assert (∀ c, uses tagPattern c = true → graphic c = true ∧ c ≠ ":"%char ∧ c ≠ slash ∧ c ≠ "@"%char) as Hu
      by (intros c; apply lower_byte_facts).
    split_and!; [eapply str_forall_impl; [|exact Hm]; apply Hu|eapply forall_lacks; [|exact Hm]; apply Hu|].
    intros _. split; (eapply forall_lacks; [|exact Hm]; apply Hu).
Qed.

Lemma contains_any_false l s : contains_any l s = false ↔ ∀ c, c ∈ l → has_byte c s = false.
Proof. unfold contains_any. apply existsb_none. Qed.

Lemma valid_registry_facts s :
  validRegistry s = true → s ≠ "" ∧ has_byte slash s = false ∧ has_byte "@" s = false.
Proof.
  unfold validRegistry. rewrite !andb_true_iff, !negb_true_iff, contains_any_false, bool_decide_eq_false.
  intros [[[Hne Hc] _] _]. split_and!; [done| |]; apply Hc; set_solver.
Qed.

(** The context and the identifier are told apart again. *)
Lemma split_identifier_name r :
  normal_reference r → splitIdentifier (Name r) = Ok (ContextName r, re_Identifier r, re_IsDigest r).
Proof.
  intros [[Hv _] _ _ Hr _ Hi]. apply valid_registry_facts in Hv as (_ & _ & Ha).
  apply repository_facts in Hr as (_ & _ & Hcol & Hat). apply identifier_facts in Hi as Hf.
  destruct Hf as (_ & Hia & Hplain). unfold splitIdentifier, Name.
  assert (has_byte "@" (ContextName r) = false) as Hctx.
  { unfold ContextName. by rewrite !has_byte_app, Ha, Hat. }
  destruct (re_IsDigest r); cbn [String.append].
  - rewrite count_byte_app, (count_byte_none _ (ContextName r)) by done. cbn [count_byte].
    rewrite bool_decide_eq_true_2, (count_byte_none _ (re_Identifier r)) by done.
    rewrite cut_some by done. cbn. rewrite Hi. cbn. unfold ContextName at 1 2.
    rewrite (proj2 (Z.ltb_ge _ _)); [done|]. cbn [String.append].
    assert (has_byte ":" (String slash (re_Repository r)) = false) as Hc by (by rewrite has_byte_cons).
    rewrite (last_index_app_none ":" (re_Registry r)) by done.
    pose proof (last_index_bounds ":" (re_Registry r)).
    pose proof (last_index_from slash (re_Registry r) (re_Repository r)). lia.
  - destruct (Hplain eq_refl) as [Hic His].
    assert (has_byte "@" (ContextName r +:+ String ":" (re_Identifier r)) = false) as Hno
      by by rewrite has_byte_app, has_byte_cons, Hctx, Hia.
    rewrite count_byte_none, cut_none by done. cbn [Nat.ltb Nat.leb refuse_if mbind result_bind].
    rewrite last_index_some by done.
    rewrite (last_index_app_none slash (ContextName r)) by (by rewrite has_byte_cons, His).
    rewrite (proj2 (Z.ltb_lt _ _)) by apply last_index_bounds.
    destruct (at_index (ContextName r) ":" (re_Identifier r)) as [-> ->]. by rewrite Hi.
Qed.

Lemma parse_normal r :
  normal_reference r → str_forall graphic (re_Registry r) = true → ParseReference (Name r) = Ok r.
Proof.
  intros Hn Hg. pose proof (split_identifier_name r Hn) as Hs.
  destruct Hn as [[Hv Hreg] [Hl Hd] Hp Hr Hlib Hi]. pose proof (repository_facts _ Hr) as (Hlow & Hrg & Hrc & Hra).
  pose proof (identifier_facts _ _ Hi) as (Hig & _ & _).
  pose proof (valid_registry_facts _ Hv) as (Hne & Hslash & _).
  unfold ParseReference. rewrite trim_space_graphic.
  2: { unfold Name, ContextName. rewrite !str_forall_app, Hg, Hrg, Hig. by destruct (re_IsDigest r). }
  rewrite (proj2 (orb_false_iff _ _)).
  2: { split; [apply bool_decide_eq_false; unfold Name, ContextName; by destruct (re_Registry r)|].
    apply contains_any_false. intros c Hc. unfold Name, ContextName. rewrite !has_byte_app.
    rewrite (proj1 (contains_any_false _ _) Hp c Hc).
    assert (has_byte c (re_Repository r) = false ∧ has_byte c (re_Identifier r) = false) as [-> ->].
    { apply matches_lang, lang_uses in Hr, Hi.
      split; [eapply forall_lacks; [|exact Hr]|eapply forall_lacks; [|exact Hi]]; intros d Hd' ->; revert Hd';
        [|destruct (re_IsDigest r)];
        (repeat (apply elem_of_cons in Hc as [->|Hc]; [vm_compute; discriminate|])); by apply elem_of_nil in Hc. }
    repeat (apply elem_of_cons in Hc as [->|Hc]; [by destruct (re_IsDigest r)|]). by apply elem_of_nil in Hc. }
  cbn [refuse_if mbind result_bind]. rewrite Hs. cbn [mbind result_bind].
  unfold ContextName. cbn [String.append]. rewrite split_byte_app by done.
  pose proof (join_split slash (re_Repository r)) as Hj.
  destruct (split_byte_cons slash (re_Repository r)) as (x & l & E). rewrite E in Hj |- *.
  rewrite Hreg, Hl. unfold assemble. rewrite (bool_decide_eq_false_2 _ Hd).
  destruct l as [|y l].
  - rewrite (bool_decide_eq_false_2 (_ = "index.docker.io")).
    2: { intros Ei%Hlib. assert (has_byte slash (re_Repository r) = false); [|congruence].
      rewrite <-Hj. apply (split_byte_no_sep slash (re_Repository r)). rewrite E. set_solver. }
    rewrite Hj, Hlow, bool_decide_eq_true_2, Hv, Hr by done. by destruct r.
  - rewrite Hj, Hlow, bool_decide_eq_true_2, Hv, Hr by done. by destruct r.
Qed.

(** ** Parsing answers the normal form *)
Lemma split_lacks c sep s x : has_byte c s = false → x ∈ split_byte sep s → has_byte c x = false.
Proof.
  revert x. induction s as [|a s IH]; intros x; cbn [split_byte].
  - by intros _ ->%list_elem_of_singleton.
  - rewrite has_byte_cons, orb_false_iff. intros [Ha Hs].
    destruct (split_byte_cons sep s) as (h & t & E). rewrite E in IH |- *.
    destruct (bool_decide (a = sep)); intros [->|Hx]%elem_of_cons; [done|by apply IH| |by apply IH; [|by right]].
    rewrite has_byte_cons, Ha. by apply IH; [|left].
Qed.

Lemma take_lacks c n s : has_byte c s = false → has_byte c (str_take n s) = false.
Proof. rewrite <-(str_take_drop n s) at 1. rewrite has_byte_app. by intros []%orb_false_iff. Qed.

Lemma split_identifier_ok value name identifier isDigest :
  splitIdentifier value = Ok (name, identifier, isDigest) →
  matches (if isDigest then referenceDigestPattern else tagPattern) identifier = true ∧
  ∀ c, has_byte c value = false → has_byte c name = false.
Proof.
  unfold splitIdentifier. intros [_ H]%bind_unit_ok. pose proof (cut_spec "@" value) as Hcut.
  destruct (cut "@" value) as [t [d|]].
  - destruct Hcut as [-> _]. apply bind_unit_ok in H as [Hd%check_that_ok H].
    assert (∀ c, has_byte c (t +:+ String "@" d) = false → has_byte c t = false) as Ht
      by (intros c; rewrite has_byte_app; by intros []%orb_false_iff).
    destruct (_ <? _)%Z; [apply bind_unit_ok in H as [_ H]|]; injection H as <- <- <-; (split; [done|]); [|done].
    intros c Hc. apply take_lacks. auto.
  - destruct (_ <? _)%Z; apply bind_unit_ok in H as [Hd%check_that_ok H]; injection H as <- <- <-;
      (split; [done|]); [|done]. intros c Hc. by apply take_lacks.
Qed.

Lemma is_registry_lower s : isRegistry s = true → isRegistry (lower s) = true.
Proof.
  unfold isRegistry. rewrite !orb_true_iff, !bool_decide_eq_true. intros [->|H]; [by left|right].
  rewrite lower_contains_any; [done|]. intros c d Hc.
  repeat (apply elem_of_cons in Hc as [->|Hc]; [revert d; by_bytes|]). by apply elem_of_nil in Hc.
Qed.

Lemma lower_lacks c s :
  c ∈ ["000"; "013"; "010"; "?"; "#"]%char → has_byte c s = false → has_byte c (lower s) = false.
Proof.
  intros Hc. rewrite lower_has_byte; [done|]. intros d.
  repeat (apply elem_of_cons in Hc as [->|Hc]; [revert d; by_bytes|]). by apply elem_of_nil in Hc.
Qed.

Lemma assemble_normal registry parts identifier (isDigest : bool) r :
  isRegistry registry = true → lower registry = registry →
  (∀ c, c ∈ ["000"; "013"; "010"; "?"; "#"]%char → has_byte c registry = false) → parts ≠ [] →
  matches (if isDigest then referenceDigestPattern else tagPattern) identifier = true →
  assemble registry parts identifier isDigest = Ok r → normal_reference r.
Proof.
  intros Hreg Hlow Hplain Hne Hi. unfold assemble. cbv zeta.
  set (g := if bool_decide (registry = "docker.io") then "index.docker.io" else registry).
  assert (isRegistry g = true ∧ lower g = g ∧ g ≠ "docker.io" ∧
    contains_any ["000"; "013"; "010"; "?"; "#"]%char g = false) as (H1 & H2 & H3 & H4).
  { unfold g. case_bool_decide; [by split_and!|]. split_and!; [done..|]. by apply contains_any_false. }
  clearbody g. intros [He%check_that_ok H]%bind_unit_ok. apply bind_unit_ok in H as [H%check_that_ok Hr].
  apply andb_true_iff in H as [Hv Hm]. injection Hr as <-. split; cbn; try done.
  intros Hg. apply bool_decide_eq_true in He. rewrite <-He.
  rewrite (bool_decide_eq_true_2 _ Hg). destruct parts as [|x [|y l]]; [done| |];
    cbn [join String.concat]; rewrite !has_byte_app, ?has_byte_cons; apply orb_true_iff; by right.
Qed.

Lemma parse_reference_normal value r : ParseReference value = Ok r → normal_reference r.
Proof.
  unfold ParseReference. generalize (trim_space value). clear value. intros value.
  intros [Hbad%refuse_if_ok H]%bind_unit_ok. apply orb_false_iff in Hbad as [_ Hplain].
  apply bind_ok in H as ([[name identifier] isDigest] & (Hi & Hname)%split_identifier_ok & H).
  assert (∀ c, c ∈ ["000"; "013"; "010"; "?"; "#"]%char → has_byte c name = false) as Hn.
  { intros c Hc. apply Hname. by apply (proj1 (contains_any_false _ _) Hplain). }
  assert (∀ parts, parts ≠ [] → assemble "index.docker.io" parts identifier isDigest = Ok r → normal_reference r)
    as Hdefault.
  { intros parts Hp. apply (assemble_normal "index.docker.io"); try done.
    intros c Hc. repeat (apply elem_of_cons in Hc as [->|Hc]; [done|]). by apply elem_of_nil in Hc. }
  destruct (split_byte_cons slash name) as (first & rest & E). rewrite E in H.
  destruct rest as [|y rest]; [by eapply Hdefault, H|].
  destruct (isRegistry first) eqn:Hf; [|by eapply Hdefault, H]. revert H.
  apply assemble_normal; [by apply is_registry_lower|apply lower_idemp| |done|done].
  intros c Hc. apply lower_lacks; [done|]. apply (split_lacks c slash name); [by apply Hn|]. rewrite E. by left.
Qed.

(** ** Properties *)

(** A parsed reference is in normal form, and its full name parses back to it:
    for a registry of graphic ASCII characters, [ParseReference] of [Name] is the
    identity, whichever spelling the reference was read from. *)
Theorem reference_round_trip value r :
  ParseReference value = Ok r → str_forall graphic (re_Registry r) = true →
  normal_reference r ∧ ParseReference (Name r) = Ok r.
Proof. intros H%parse_reference_normal Hg. split; [done|]. by apply parse_normal. Qed.

Lemma reference_round_trip_witness :
  Name (mkReference "index.docker.io" "library/alpine" "3.20" false) = "index.docker.io/library/alpine:3.20" ∧
  ParseReference "index.docker.io/library/alpine:3.20" =
    Ok (mkReference "index.docker.io" "library/alpine" "3.20" false).
Proof.
  split; [reflexivity|].
  refine (proj2 (reference_round_trip "docker.io/alpine:3.20" (mkReference "index.docker.io" "library/alpine" "3.20" false) _ _));
    vm_compute; reflexivity.
Defined.
