(* ===== verification/Repository.v ===== *)
(** * Repositories of packages ([pkg/cpak/repo_reference.go], [repo-provider.go],
    [image_ref.go], [desktop_entry_name.go])

    The origin a package is named by, the reference it is fetched at, and where
    what was fetched is kept. *)
From Stdlib Require Import Ascii.
From stdpp Require Import base strings list numbers.
From S2P Require Import Prelude.
From S2P Require Import GoStrings.
From S2P Require Import Regex.
From S2P Require Import Utf8.
From S2P Require Import GoPath.
From S2P Require Import Decimal.
From S2P Require Import OciReference.
From stdpp Require Import options.

#[local] Open Scope nat_scope.

Inductive repository_error : Type :=
  | InvalidGitReference | InvalidFileName | Unresolvable | EscapesRoot
  | InvalidOrigin | NotLowercase | InvalidHost | InvalidPort | MissingPort
  | InvalidGitURL | HostUnsupported (host : string) | DirectoryFailed | FetchFailed
  | InvalidDesktopEntry | NotALauncher | HandlerDatabase
  | UnsupportedImageRef | NoTag | ImageUnparsed | ImageDigest | TagRefused.

(** ** Names ([repo_reference.go]) *)
Definition letter_or_digit : list (ascii * ascii) := [("A", "Z"); ("a", "z"); ("0", "9")]%char.
Definition gitReferencePattern : regex :=
  RSeq (RSet letter_or_digit)
    (RUpTo 254 (RSet (letter_or_digit ++ [(".", "."); ("_", "_"); ("/", "/"); ("-", "-")]%char))).

Definition validateGitReference (reference : string) : result repository_error unit :=
  check_that (matches gitReferencePattern reference) InvalidGitReference ;;;
  refuse_if (contains ".." reference) InvalidGitReference ;;;
  refuse_if (contains "//" reference || has_suffix "/" reference) InvalidGitReference ;;;
  refuse_if (has_suffix ".lock" reference) InvalidGitReference.

Definition singlePathComponent (name : string) : result repository_error string :=
  let cleaned := clean name in
  refuse_if (negb (bool_decide (cleaned = name)) || bool_decide (cleaned = "") ||
    bool_decide (cleaned = ".") || bool_decide (cleaned = "..")) InvalidFileName ;;;
  refuse_if (contains_any ["/"; "\"]%char cleaned || has_byte "000" cleaned) InvalidFileName ;;;
  Ok cleaned.

(** [filepath.Abs], in a working directory that may be unknown. *)
Definition absolute (cwd : option string) (path : string) : option string :=
  if is_abs path then Some (clean path) else (λ cwd, path_join [cwd; path]) <$> cwd.

Definition containedPath (cwd : option string) (root relative : string) : result repository_error string :=
  match absolute cwd root with
  | None => Err Unresolvable
  | Some root =>
      let candidate := path_join [root; relative] in
      refuse_if (negb (bool_decide (candidate = root)) && negb (has_prefix (root +:+ "/") candidate)) EscapesRoot ;;;
      Ok candidate
  end.

(** ** Origins ([repo-provider.go]) *)

(** The part of the standard library that is a table: the lower case of a rune
    that is not ASCII, and the textual addresses. *)
Class NetText : Type := {
  lower_rune : N → N;
  ParseIP : string → bool
}.

Section Origins.
Context {text : NetText}.

(** [strings.ToLower]. *)
Definition ToLower (s : string) : string :=
  if str_forall ascii_byte s then lower s
  else concat_strings ((λ x, if (x.1 <? 128)%N then lower x.2 else encode_rune (lower_rune x.1)) <$> runes s).

(** [net.SplitHostPort]: the host, the port, or no answer. *)
Definition SplitHostPort (value : string) : option (string * string) :=
  let i := last_index ":" value in
  if (i <? 0)%Z then None
  else
    let port := after_index i value in
    match value with
    | String "[" rest =>
        match cut "]" rest with
        | (_, None) => None
        | (host, Some tail) =>
            if has_byte "[" host then None
            else match tail with
            | String ":" port' =>
                if bool_decide (port' = port) && negb (has_byte "[" tail) && negb (has_byte "]" tail)
                then Some (host, port) else None
            | _ => None
            end
        end
    | _ =>
        let host := before_index i value in
        if has_byte ":" host || has_byte "[" value || has_byte "]" value then None else Some (host, port)
    end.

(** [net.JoinHostPort]. *)
Definition JoinHostPort (host port : string) : string :=
  if has_byte ":" host then "[" +:+ host +:+ "]:" +:+ port else host +:+ ":" +:+ port.

Definition host_character (c : ascii) : bool :=
  in_set [("a", "z"); ("0", "9"); (".", "."); ("-", "-")]%char c.
Definition path_character (c : ascii) : bool :=
  in_set [("a", "z"); ("0", "9"); (".", "."); ("_", "_"); ("-", "-")]%char c.

Definition check_host (host port : string) : result repository_error string :=
  refuse_if ((slen host =? 0) || (253 <? slen host) || contains ".." host) InvalidHost ;;;
  check_that (ParseIP host || (has_byte "." host && str_forall host_character host)) InvalidHost ;;;
  Ok (if bool_decide (port = "") then host else JoinHostPort host port).

Definition normalizeRepositoryHost (value : string) : result repository_error string :=
  let value := ToLower value in
  if has_byte ":" value then
    match SplitHostPort value with
    | None => Err MissingPort
    | Some (host, port) =>
        match atoi port with
        | Some number => refuse_if ((number <? 1)%Z || (65535 <? number)%Z) InvalidPort
        | None => Err InvalidPort
        end ;;;
        check_host host port
    end
  else check_host value "".

Definition check_part (part : string) : result repository_error unit :=
  refuse_if (bool_decide (part = "") || (100 <? slen part) || bool_decide (part = ".") ||
    bool_decide (part = "..") || contains ".." part) InvalidOrigin ;;;
  check_that (bool_decide (ToLower part = part)) NotLowercase ;;;
  check_that (str_forall path_character part) InvalidOrigin.

Definition normalizeRepositoryOrigin (origin : string) : result repository_error string :=
  check_that (bool_decide (trim_space origin = origin)) InvalidOrigin ;;;
  match split_byte slash origin with
  | [host; user; repository] =>
      host ← wrap (λ _, InvalidOrigin) (normalizeRepositoryHost host);
      for_each check_part [user; repository] ;;;
      Ok (join "/" [host; user; repository])
  | _ => Err InvalidOrigin
  end.

(** [strings.TrimRight] of slashes. *)
Fixpoint trim_right_byte (c : ascii) (s : string) : string :=
  match s with
  | "" => ""
  | String a s =>
      let t := trim_right_byte c s in
      if bool_decide (t = "") && bool_decide (a = c) then "" else String a t
  end.

(** The directory [generateGitDir] creates and answers. *)
Definition generateGitDir (gitURL gitDir : string) : result repository_error string :=
  origin ← normalizeRepositoryOrigin gitURL;
  Ok (path_join (trim_right_byte slash gitDir :: split_byte slash origin)).

(** [strings.EqualFold] with a text that no rune above ASCII folds to. *)
Definition equal_fold (s t : string) : bool := bool_decide (ToLower s = ToLower t).

(** [repositoryURL] and [latestReleaseURL] differ in their end. *)
Definition api_url (origin APIBaseURL tail : string) : result repository_error string :=
  match split_byte slash origin with
  | [host; user; repository] =>
      let base := trim_right_byte slash APIBaseURL in
      if bool_decide (base = "") then
        check_that (equal_fold host "github.com") (HostUnsupported host) ;;;
        Ok ("https://api.github.com/repos/" +:+ user +:+ "/" +:+ repository +:+ tail)
      else Ok (base +:+ "/repos/" +:+ user +:+ "/" +:+ repository +:+ tail)
  | _ => Err InvalidGitURL
  end.
Definition repositoryURL (origin APIBaseURL : string) := api_url origin APIBaseURL "".
Definition latestReleaseURL (origin APIBaseURL : string) := api_url origin APIBaseURL "/releases/latest".
End Origins.

(** ** Fetching a file of a repository ([getFileInDirectory]) *)

(** [url.PathEscape]. *)
Definition unescaped (c : ascii) : bool :=
  in_set (letter_or_digit ++ [("-", "-"); ("_", "_"); (".", "."); ("~", "~"); ("$", "$"); ("&", "&"); ("+", "+");
    (":", ":"); ("=", "="); ("@", "@")]%char) c.
Definition upper_hex_digit (n : N) : ascii := ascii_of_N (if (n <? 10)%N then 48 + n else 55 + n).
Fixpoint PathEscape (s : string) : string :=
  match s with
  | "" => ""
  | String c s =>
      if unescaped c then String c (PathEscape s)
      else String "%" (String (upper_hex_digit (byte c / 16)) (String (upper_hex_digit (byte c mod 16)) (PathEscape s)))
  end.

(** What is asked of the network, in turn, and the file the answer is kept in. *)
Record fetch : Type := mkFetch { fe_URLs : list string; fe_Directory : string; fe_File : string }.

Definition getFileInDirectory (cwd : option string) (scheme origin gitDir filePath reference kind : string) :
    result repository_error fetch :=
  validateGitReference reference ;;;
  name ← singlePathComponent filePath;
  let githubURL := scheme +:+ "://" +:+ origin +:+ "/raw/" +:+ reference +:+ "/" +:+ filePath in
  let gitlabURL := scheme +:+ "://" +:+ origin +:+ "/-/raw/" +:+ reference +:+ "/" +:+ filePath in
  directory ← containedPath cwd gitDir (path_join [kind; PathEscape reference]);
  file ← containedPath cwd directory name;
  Ok (mkFetch [githubURL; gitlabURL] directory file).

(** ** The image of a source ([image_ref.go]) *)
Definition tag_character (r : N) : bool :=
  (r <? 128)%N && in_set (letter_or_digit ++ [("_", "_"); (".", "."); ("-", "-")]%char) (ascii_of_N r).

(** The loop over the runes: whether anything was written, and whether the last
    thing written was a dash for a rune that is left out. *)
Fixpoint tag_runes (l : list (N * string)) (written lastDash : bool) : string :=
  match l with
  | [] => ""
  | (r, _) :: l =>
      if tag_character r then String (ascii_of_N r) (tag_runes l true false)
      else if written && negb lastDash then String "-" (tag_runes l true true)
      else tag_runes l written lastDash
  end.

Definition dot_or_dash (c : ascii) : bool := bool_decide (c = ".")%char || bool_decide (c = "-")%char.
Fixpoint trim_left (f : ascii → bool) (s : string) : string :=
  match s with
  | "" => ""
  | String c t => if f c then trim_left f t else s
  end.
Fixpoint trim_right (f : ascii → bool) (s : string) : string :=
  match s with
  | "" => ""
  | String c s =>
      let t := trim_right f s in
      if bool_decide (t = "") && f c then "" else String c t
  end.

Definition sourceImageTag (value : string) : string :=
  let tag := trim_right dot_or_dash (trim_left dot_or_dash (tag_runes (runes value) false false)) in
  if 128 <? slen tag then trim_right dot_or_dash (str_take 128 tag) else tag.

(** The reference of the image of a source. *)
Definition resolveManifestImage (image imageRef branch release commit : string) : result repository_error string :=
  if bool_decide (imageRef = "") then Ok image
  else
    check_that (bool_decide (imageRef = "source")) UnsupportedImageRef ;;;
    let value := if bool_decide (release = "") then branch else release in
    let value := if bool_decide (commit = "") then value else "sha-" +:+ str_take 7 commit in
    let value := if bool_decide (value = "") then "main" else value in
    let tag := sourceImageTag value in
    refuse_if (bool_decide (tag = "")) NoTag ;;;
    ref ← wrap (λ _, ImageUnparsed) (ParseReference image);
    refuse_if (re_IsDigest ref) ImageDigest ;;;
    ref ← wrap (λ _, TagRefused) (WithTag ref tag);
    Ok (Name ref).

(** ** Desktop entries ([desktop_entry_name.go]) *)

(** [filepath.Base]. *)
Definition base (path : string) : string :=
  if bool_decide (path = "") then "."
  else
    let path := trim_right_byte slash path in
    let i := last_index slash path in
    let name := if (i <? 0)%Z then path else after_index i path in
    if bool_decide (name = "") then "/" else name.

Definition desktopEntrySuffix : string := ".desktop".
Definition desktopHandlerFiles : list string := ["mimeapps.list"; "defaults.list"; "mimeinfo.cache"].

Definition desktopEntryExportName (entry : string) : result repository_error string :=
  name ← wrap (λ _, InvalidDesktopEntry) (singlePathComponent (base entry));
  check_that (has_suffix desktopEntrySuffix name && negb (bool_decide (name = desktopEntrySuffix))) NotALauncher ;;;
  refuse_if (bool_decide (name ∈ desktopHandlerFiles)) HandlerDatabase ;;;
  Ok name.

Example base_examples :
  base "usr/share/applications/org.x.desktop" = "org.x.desktop" ∧ base "///" = "/" ∧ base "a/b//" = "b" ∧ base "" = ".".
Proof. vm_compute. done. Qed.
Example tag_examples :
  sourceImageTag "feature/é x--y." = "feature-x--y" ∧ sourceImageTag "..-" = "".
Proof. vm_compute. done. Qed.

(** ** Names below a directory *)

(** An element of a path that names what is below a directory. *)
Definition plain (x : string) : Prop := x ≠ "" ∧ x ≠ "." ∧ x ≠ ".." ∧ has_byte slash x = false.

Lemma plain_split l : l ≠ [] → Forall plain l → split_byte slash (join "/" l) = l.
Proof.
  intros Hne Hl. apply (split_join slash); [done|]. intros x Hx.
  rewrite list.Forall_forall in Hl. by destruct (Hl x Hx) as (?&_&_&?).
Qed.

Lemma plain_join l :
  l ≠ [] → Forall plain l →
  clean (join "/" l) = join "/" l ∧ is_abs (join "/" l) = false ∧ path_parts (join "/" l) = l.
Proof.
  intros Hne Hl. pose proof (plain_split l Hne Hl) as Hsplit. rewrite list.Forall_forall in Hl.
  assert (is_abs (join "/" l) = false) as Ha.
  { destruct l as [|x l]; [done|]. destruct (Hl x) as (Hx & _ & _ & Hs); [by left|].
    destruct x as [|c x]; [done|].
    assert (∃ t, join "/" (String c x :: l) = String c t) as [t ->] by (destruct l; eexists; reflexivity).
    rewrite is_abs_cons. rewrite has_byte_cons in Hs. by apply orb_false_iff in Hs as [Hs _]. }
  assert (path_parts (join "/" l) = l) as Hp.
  { unfold path_parts, clean_stack. rewrite Hsplit.
    rewrite Ha, clean_foldl_push by (intros x Hx; destruct (Hl x Hx) as (?&?&?&?); done).
    by rewrite app_nil_r, reverse_involutive. }
  split_and!; [|done..]. unfold clean. rewrite Ha, Hp. by rewrite bool_decide_eq_false_2.
Qed.

Lemma plain_below dir l :
  is_abs dir = true → l ≠ [] → Forall plain l →
  clean (path_join [dir; join "/" l]) = path_join [dir; join "/" l] ∧
  is_abs (path_join [dir; join "/" l]) = true ∧
  path_parts (path_join [dir; join "/" l]) = path_parts dir ++ l.
Proof.
  intros Hd Hne Hl. destruct (plain_join l Hne Hl) as (Hc & Ha & Hp).
  assert (∀ t, path_parts t = [] → t ≠ join "/" l) as Hneq by (intros t Ht ->; congruence).
  assert (has_prefix "../" (join "/" l) = false) as Hpre.
  { apply not_true_iff_false. intros (t & Ht)%has_prefix_iff.
    assert (".." ∈ split_byte slash (join "/" l)) as Hin.
    { rewrite Ht. cbn. by left. }
    rewrite plain_split in Hin by done. rewrite list.Forall_forall in Hl. by apply Hl in Hin as (_&_&?&_). }
  destruct (join_below dir (join "/" l)) as (H1 & H2 & H3); try done.
  - by intros E; apply (Hneq ""); rewrite ?E.
  - by intros E; apply (Hneq "."); rewrite ?E.
  - intros E. rewrite E in Hp. change (path_parts "..") with [".."] in Hp. subst l.
    apply Forall_singleton in Hl as (_&_&?&_). done.
  - by rewrite H3, Hp.
Qed.

Lemma plain_one x : Forall plain [x] ↔ plain x.
Proof. by rewrite Forall_singleton. Qed.

(** ** What is accepted *)
Lemma join_abs dir p : is_abs dir = true → is_abs (path_join [dir; p]) = true ∧
  clean (path_join [dir; p]) = path_join [dir; p].
Proof.
  intros Hd. unfold path_join. rewrite bool_decide_eq_false_2 by (by intros ->).
  rewrite clean_abs, clean_idemp. split; [|done]. apply has_prefix_iff in Hd as (t & ->).
  change (is_abs ("/" +:+ (t +:+ "/" +:+ p)) = true). apply has_prefix_app.
Qed.

Lemma absolute_ok cwd root r :
  (∀ d, cwd = Some d → is_abs d = true) → absolute cwd root = Some r → is_abs r = true ∧ clean r = r.
Proof.
  unfold absolute. intros Hc. destruct (is_abs root) eqn:Ha.
  - intros [= <-]. by rewrite clean_abs, clean_idemp.
  - destruct cwd as [d|]; [|done]. intros [= <-]. by apply join_abs, Hc.
Qed.

Lemma contained_ok cwd root relative path :
  (∀ d, cwd = Some d → is_abs d = true) → containedPath cwd root relative = Ok path →
  ∃ r, absolute cwd root = Some r ∧ path = path_join [r; relative] ∧
    is_abs path = true ∧ clean path = path ∧ path_parts r `prefix_of` path_parts path.
Proof.
  intros Hcwd. unfold containedPath. destruct (absolute cwd root) as [r|] eqn:Er; [|done].
  destruct (absolute_ok cwd root r Hcwd Er) as [Ha Hc].
  intros [Hin%refuse_if_ok [= <-]]%bind_unit_ok. exists r. split; [done|]. split; [done|].
  destruct (join_abs r relative Ha) as [Hp Hq].
  split; [done|]. split; [done|]. apply andb_false_iff in Hin as [Hin|Hin]; apply negb_false_iff in Hin.
  - apply bool_decide_eq_true in Hin. by rewrite Hin.
  - destruct (decide (path_parts r = [])) as [->|Hne]; [apply prefix_nil|].
    assert (has_prefix (clean r +:+ "/") (clean (path_join [r; relative])) = true) as Hpre by (by rewrite Hc, Hq).
    apply inside_parts in Hpre as (rest & _ & ->); [|done..]. by apply prefix_app_r.
Qed.

Lemma single_component name x :
  singlePathComponent name = Ok x → x = name ∧ plain x ∧ has_byte "\" x = false ∧ has_byte "000" x = false.
Proof.
  unfold singlePathComponent. cbv zeta.
  intros [H1%refuse_if_ok H]%bind_unit_ok. apply bind_unit_ok in H as [H2%refuse_if_ok [= <-]].
  bools_in H1. destruct H1 as [[[H1 H3] H4] H5]. cbn [contains_any existsb] in H2. bools_in H2. rewrite H1 in *.
  unfold plain. naive_solver.
Qed.

Lemma reference_plain reference :
  validateGitReference reference = Ok tt →
  reference ≠ "" ∧ str_forall (in_set (letter_or_digit ++ [(".", "."); ("_", "_"); ("/", "/"); ("-", "-")]%char))
    reference = true ∧ (∀ c t, reference = String c t → in_set letter_or_digit c = true) ∧
  contains ".." reference = false.
Proof.
  unfold validateGitReference. intros [Hm%check_that_ok H]%bind_unit_ok.
  apply bind_unit_ok in H as [Hd%refuse_if_ok _]. split_and!; [| | |done].
  - apply (matches_nonempty gitReferencePattern); [cbn; lia|done].
  - eapply matches_uses; [|exact Hm]. by_bytes.
  - intros c t ->. apply matches_lang in Hm.
    inversion Hm as [| |r1 r2 s1 s2 H1 H2 E1 E2| | | |]; subst.
    inversion H1 as [|rs a Ha| | | | |]; subst. cbn in E2. by injection E2 as -> _.
Qed.

(** ** Escaping *)
Lemma upper_hex_inj n m : (n < 16)%N → (m < 16)%N → upper_hex_digit n = upper_hex_digit m → n = m.
Proof.
  intros Hn Hm. assert (∀ k, (k < 16)%N → k ∈ [0; 1; 2; 3; 4; 5; 6; 7; 8; 9; 10; 11; 12; 13; 14; 15]%N) as Hk.
  { intros k Hk. rewrite !elem_of_cons. lia. }
  apply Hk in Hn, Hm. clear Hk.
  repeat (apply elem_of_cons in Hn as [->|Hn]; [|]); [..|by apply not_elem_of_nil in Hn];
    repeat (apply elem_of_cons in Hm as [->|Hm]; [vm_compute; congruence|]); by apply not_elem_of_nil in Hm.
Qed.

Lemma escaped_byte_inj a b :
  upper_hex_digit (byte a / 16) = upper_hex_digit (byte b / 16) →
  upper_hex_digit (byte a mod 16) = upper_hex_digit (byte b mod 16) → a = b.
Proof.
  pose proof (N_ascii_bounded a). pose proof (N_ascii_bounded b). unfold byte.
  intros H1%upper_hex_inj H2%upper_hex_inj; [|by apply N.mod_lt|by apply N.mod_lt
    |apply N.Div0.div_lt_upper_bound; lia|apply N.Div0.div_lt_upper_bound; lia].
  rewrite <-(ascii_N_embedding a), <-(ascii_N_embedding b). f_equal.
  rewrite (N.div_mod (N_of_ascii a) 16), (N.div_mod (N_of_ascii b) 16), H1, H2 by done. done.
Qed.

Lemma escape_keeps_no_percent c : unescaped c = true → c ≠ "%"%char.
Proof. intros H ->. by vm_compute in H. Qed.

(** Two texts are escaped in different ways. *)
Lemma path_escape_inj s t : PathEscape s = PathEscape t → s = t.
Proof.
  revert t. induction s as [|a s IH]; intros [|b t]; cbn [PathEscape].
  - done.
  - by destruct (unescaped b).
  - by destruct (unescaped a).
  - destruct (unescaped a) eqn:Ea, (unescaped b) eqn:Eb.
    + intros [= -> ?%IH]. by subst.
    + intros [= -> _]. by apply escape_keeps_no_percent in Ea.
    + intros [= <- _]. by apply escape_keeps_no_percent in Eb.
    + intros [= H1 H2 ?%IH]. subst. f_equal. by apply escaped_byte_inj.
Qed.

Lemma escape_no_slash s : has_byte slash (PathEscape s) = false.
Proof.
  induction s as [|c s IH]; [done|]. cbn [PathEscape]. destruct (unescaped c) eqn:E.
  - rewrite has_byte_cons, IH, orb_false_r. apply bool_decide_eq_false. intros ->. by vm_compute in E.
  - rewrite !has_byte_cons, IH, !orb_false_r. clear. revert c. by_bytes.
Qed.

Lemma escape_plain reference : validateGitReference reference = Ok tt → plain (PathEscape reference).
Proof.
  intros (Hne & _ & Hfirst & _)%reference_plain. destruct reference as [|c t]; [done|].
  specialize (Hfirst c t eq_refl). cbn [PathEscape].
  assert (unescaped c = true ∧ c ≠ "."%char) as [-> Hdot].
  { clear -Hfirst. revert c Hfirst. by_bytes. }
  split; [done|]. split; [by intros [= -> _]|]. split; [by intros [= -> _]|].
  pose proof (escape_no_slash (String c t)) as H. cbn [PathEscape] in H.
  destruct (unescaped c) eqn:E; [done|]. clear -E Hfirst. exfalso. revert c E Hfirst. by_bytes.
Qed.

(** ** Properties *)

(** A path [containedPath] answers is inside its root.  It is an absolute,
    clean path whose elements start with those of the root, whatever the relative
    path spelled. *)
Theorem contained_inside cwd root relative path :
  (∀ d, cwd = Some d → is_abs d = true) →
  containedPath cwd root relative = Ok path →
  is_abs path = true ∧ clean path = path ∧
  ∃ r, absolute cwd root = Some r ∧ path_parts r `prefix_of` path_parts path.
Proof. intros Hc (r & Hr & _ & ? & ? & ?)%contained_ok; [|done]. eauto. Qed.

Lemma contained_inside_witness :
  is_abs "/home/ada/exports/a" = true ∧ clean "/home/ada/exports/a" = "/home/ada/exports/a" ∧
  ∃ r, absolute (Some "/home/ada") "exports" = Some r ∧ path_parts r `prefix_of` path_parts "/home/ada/exports/a".
Proof.
  apply (contained_inside (Some "/home/ada") "exports" "../exports/./a").
  - by intros d [= <-].
  - vm_compute. reflexivity.
Defined.

Lemma contained_abs cwd root relative path :
  is_abs root = true → containedPath cwd root relative = Ok path →
  path = path_join [clean root; relative] ∧ is_abs path = true.
Proof.
  intros Ha. unfold containedPath, absolute. rewrite Ha.
  intros [_ [= <-]]%bind_unit_ok. split; [done|]. apply join_abs. by rewrite clean_abs.
Qed.

Lemma contained_plain cwd root l path :
  is_abs root = true → l ≠ [] → Forall plain l → containedPath cwd root (join "/" l) = Ok path →
  is_abs path = true ∧ path_parts path = path_parts root ++ l.
Proof.
  intros Ha Hne Hl (-> & Hp)%contained_abs; [|done]. split; [done|].
  destruct (plain_below (clean root) l) as (_ & _ & ->); [by rewrite clean_abs|done..|].
  by rewrite path_parts_clean.
Qed.

Lemma fetch_parts cwd scheme origin gitDir filePath reference kind f :
  is_abs gitDir = true → plain kind →
  getFileInDirectory cwd scheme origin gitDir filePath reference kind = Ok f →
  path_parts (fe_File f) = path_parts gitDir ++ [kind; PathEscape reference; filePath] ∧
  validateGitReference reference = Ok tt ∧
  fe_URLs f = [scheme +:+ "://" +:+ origin +:+ "/raw/" +:+ reference +:+ "/" +:+ filePath;
    scheme +:+ "://" +:+ origin +:+ "/-/raw/" +:+ reference +:+ "/" +:+ filePath].
Proof.
  intros Hg Hk. unfold getFileInDirectory. intros [Hr H]%bind_unit_ok.
  apply bind_ok in H as (name & (-> & Hname & _)%single_component & H).
  apply bind_ok in H as (directory & Hd & H). apply bind_ok in H as (file & Hf & [= <-]).
  split; [|done].
  assert (Forall plain [kind; PathEscape reference]) as Hl by (by repeat constructor; try apply Hk; apply escape_plain).
  assert (path_join [kind; PathEscape reference] = join "/" [kind; PathEscape reference]) as Hj.
  { unfold path_join. rewrite bool_decide_eq_false_2 by apply Hk. by apply plain_join. }
  rewrite Hj in Hd. apply contained_plain in Hd as [Had Hpd]; [|done..].
  change filePath with (join "/" [filePath]) in Hf at 1.
  apply contained_plain in Hf as [_ Hpf]; [|done|done|by apply plain_one].
  cbn [fe_File]. by rewrite Hpf, Hpd, <-(assoc_L (++)).
Qed.

(** The caches of branches, releases and commits. *)
Definition reference_kinds : list string := ["branches"; "releases"; "commits"].

Lemma kind_plain kind : kind ∈ reference_kinds → plain kind.
Proof.
  unfold reference_kinds. rewrite !elem_of_cons. intros [->|[->|[->|[]%elem_of_nil]]]; by vm_compute.
Qed.

(** C25: what is fetched of a repository is kept apart.  The file is exactly three
    elements below the directory of the repository - the kind of the reference, the
    reference escaped and the name asked for - so two different requests never
    share a file, and no reference or name reaches another directory. *)
Theorem fetched_files_apart cwd scheme origin gitDir kind1 ref1 file1 kind2 ref2 file2 f1 f2 :
  is_abs gitDir = true → kind1 ∈ reference_kinds → kind2 ∈ reference_kinds →
  getFileInDirectory cwd scheme origin gitDir file1 ref1 kind1 = Ok f1 →
  getFileInDirectory cwd scheme origin gitDir file2 ref2 kind2 = Ok f2 →
  path_parts (fe_File f1) = path_parts gitDir ++ [kind1; PathEscape ref1; file1] ∧
  (fe_File f1 = fe_File f2 → kind1 = kind2 ∧ ref1 = ref2 ∧ file1 = file2).
Proof.
  intros Hg Hk1 Hk2 (Hp1 & _)%fetch_parts; [|done|by apply kind_plain].
  intros (Hp2 & _)%fetch_parts; [|done|by apply kind_plain]. split; [done|].
  intros E. rewrite E, Hp2 in Hp1. apply app_inv_head in Hp1.
  injection Hp1 as -> Hr%path_escape_inj ->. done.
Qed.

Lemma fetched_files_apart_witness :
  ∃ f1 f2, fe_File f1 = "/cache/github.com/ada/app/branches/feature%2Fx/cpak.json" ∧
    (fe_File f1 = fe_File f2 → "branches" = "releases" ∧ "feature/x" = "v1.0" ∧ "cpak.json" = "cpak.json").
Proof.
  destruct (getFileInDirectory None "https" "github.com/ada/app" "/cache/github.com/ada/app" "cpak.json"
    "feature/x" "branches") as [f1|] eqn:E1; [|vm_compute in E1; discriminate E1].
  destruct (getFileInDirectory None "https" "github.com/ada/app" "/cache/github.com/ada/app" "cpak.json"
    "v1.0" "releases") as [f2|] eqn:E2; [|vm_compute in E2; discriminate E2].
  exists f1, f2. split; [vm_compute in E1; injection E1 as <-; reflexivity|].
  apply (fetched_files_apart None "https" "github.com/ada/app" "/cache/github.com/ada/app"
    "branches" "feature/x" "cpak.json" "releases" "v1.0" "cpak.json" f1 f2 eq_refl).
  - by left.
  - by right; left.
  - exact E1.
  - exact E2.
Defined.

(** ** Hosts and ports *)
Lemma last_split c s : has_byte c s = true → ∃ s1 s2, s = s1 +:+ String c s2 ∧ has_byte c s2 = false.
Proof.
  induction s as [|a s IH]; [done|]. rewrite has_byte_cons. destruct (has_byte c s) eqn:E.
  - intros _. destruct IH as (s1 & s2 & -> & H); [done|]. by exists (String a s1), s2.
  - rewrite orb_false_r. intros ->%bool_decide_eq_true. by exists "", s.
Qed.

Lemma last_index_nonneg c s : (0 ≤ last_index c s)%Z → has_byte c s = true.
Proof. intros H. destruct (has_byte c s) eqn:E; [done|]. rewrite last_index_none in H by done. lia. Qed.

Lemma split_plain_host value :
  (∀ t, value ≠ String "[" t) → has_byte ":" value = true →
  SplitHostPort value =
    let host := before_index (last_index ":" value) value in
    if has_byte ":" host || has_byte "[" value || has_byte "]" value then None
    else Some (host, after_index (last_index ":" value) value).
Proof.
  intros Hv Hc. unfold SplitHostPort. cbv zeta. destruct (last_split ":" value Hc) as (s1 & s2 & Hs & Hs2).
  assert ((last_index ":" value <? 0)%Z = false) as -> by (apply Z.ltb_ge; rewrite Hs, last_index_some by done; lia).
  destruct value as [|c t]; [done|]. destruct (decide (c = "["%char)) as [->|Hne]; [by destruct (Hv t)|].
  destruct c as [[] [] [] [] [] [] [] []]; try reflexivity. by destruct Hne.
Qed.

Definition bracket_free (s : string) : Prop := has_byte "[" s = false ∧ has_byte "]" s = false.

Lemma split_host_port_ok value host port :
  SplitHostPort value = Some (host, port) →
  (value = host +:+ ":" +:+ port ∨ value = "[" +:+ host +:+ "]:" +:+ port) ∧
  bracket_free host ∧ bracket_free port ∧ has_byte ":" port = false.
Proof.
  intros H. assert (has_byte ":" value = true) as Hc.
  { apply last_index_nonneg. unfold SplitHostPort in H. cbv zeta in H. destruct (Z.ltb_spec (last_index ":" value) 0); [done|lia]. }
  destruct (last_split ":" value Hc) as (s1 & s2 & Hs & Hs2).
  assert (last_index ":" value = Z.of_nat (slen s1)) as Hi by (by rewrite Hs, last_index_some).
  destruct (at_index s1 ":" s2) as [Hb Ha].
  assert ((∃ t, value = String "[" t) ∨ ∀ t, value ≠ String "[" t) as [(t & Et)|Hn].
  { destruct value as [|c t]; [by right|]. destruct (decide (c = "["%char)) as [->|]; [left; by exists t|right; congruence]. }
  - unfold SplitHostPort in H. cbv zeta in H. rewrite Hi, Hs, Ha, <-Hs, Et in H.
    rewrite (proj2 (Z.ltb_ge _ _)) in H by lia.
    pose proof (cut_spec "]" t) as Hcut. destruct (cut "]" t) as [h [tail|]]; [|done]. destruct Hcut as [-> Hh].
    destruct (has_byte "[" h) eqn:Eh; [done|].
    destruct tail as [|c port']; [done|].
    destruct (decide (c = ":"%char)) as [->|Hne].
    2: { exfalso. destruct c as [[] [] [] [] [] [] [] []]; try discriminate H. by apply Hne. }
    case_bool_decide as Hp; [|done]. subst port'. cbn [andb] in H.
    destruct (has_byte "[" (String ":" s2)) eqn:E1; [done|]. destruct (has_byte "]" (String ":" s2)) eqn:E2; [done|].
    injection H as <- <-. rewrite has_byte_cons in E1, E2. apply orb_false_iff in E1 as [_ ?], E2 as [_ ?].
    split; [|done]. right. by rewrite Et.
  - rewrite split_plain_host in H by done. cbv zeta in H.
    rewrite Hi, Hs, Hb, Ha in H. destruct (has_byte ":" s1) eqn:E1; [done|].
    destruct (has_byte "[" (s1 +:+ String ":" s2)) eqn:E2; [done|].
    destruct (has_byte "]" (s1 +:+ String ":" s2)) eqn:E3; [done|]. injection H as <- <-.
    rewrite has_byte_app, has_byte_cons in E2, E3. apply orb_false_iff in E2 as [? [_ ?]%orb_false_iff], E3 as [? [_ ?]%orb_false_iff].
    split; [|done]. by left.
Qed.

Lemma split_join_host_port host port :
  bracket_free host → bracket_free port → has_byte ":" port = false →
  SplitHostPort (JoinHostPort host port) = Some (host, port).
Proof.
  intros [Hh1 Hh2] [Hp1 Hp2] Hp. unfold JoinHostPort. destruct (has_byte ":" host) eqn:E.
  - change ("[" +:+ host +:+ "]:" +:+ port) with (String "[" (host +:+ String "]" (String ":" port))).
    unfold SplitHostPort. cbv zeta.
    assert (String "[" (host +:+ String "]" (String ":" port)) = ("[" +:+ host +:+ "]") +:+ String ":" port) as Hs
      by (by autorewrite with strs).
    rewrite Hs. rewrite last_index_some by done. rewrite (proj2 (Z.ltb_ge _ _)) by lia.
    destruct (at_index ("[" +:+ host +:+ "]") ":" port) as [_ ->].
    rewrite cut_some by done. rewrite Hh1, bool_decide_eq_true_2 by done.
    rewrite !has_byte_cons, Hp1, Hp2. done.
  - change (host +:+ ":" +:+ port) with (host +:+ String ":" port).
    rewrite split_plain_host.
    + cbv zeta. rewrite last_index_some by done. destruct (at_index host ":" port) as [-> ->].
      by rewrite E, !has_byte_app, !has_byte_cons, Hh1, Hh2, Hp1, Hp2.
    + intros t Ht. destruct host as [|c host]; [done|]. injection Ht as -> _. done.
    + by rewrite has_byte_app, has_byte_cons, orb_true_r.
Qed.

(** ** The canonical origin *)

(** What the tables of the standard library are relied on for: an upper case
    letter is no lower case of a rune, and an address is written in the digits of
    hexadecimal, dots and colons. *)
Class NetTextLaws (text : NetText) : Prop := {
  lower_rune_law : ∀ r, lower (encode_rune (lower_rune r)) = encode_rune (lower_rune r);
  parse_ip_law : ∀ h, ParseIP h = true →
    str_forall (in_set [("0", "9"); ("a", "f"); ("A", "F"); (".", "."); (":", ":")]%char) h = true
}.

Lemma lower_app s t : lower (s +:+ t) = lower s +:+ lower t.
Proof. induction s as [|c s IH]; [done|]. cbn. by rewrite IH. Qed.

Section Canonical.
Context {text : NetText} {laws : NetTextLaws text}.

Lemma to_lower_lower s : lower (ToLower s) = ToLower s.
Proof using laws.
  unfold ToLower. destruct (str_forall ascii_byte s); [apply lower_idemp|].
  induction (runes s) as [|x l IH]; [done|]. cbn [fmap list_fmap concat_strings foldr].
  unfold concat_strings in IH. rewrite lower_app, IH. f_equal.
  destruct (x.1 <? 128)%N; [apply lower_idemp|apply lower_rune_law].
Qed.

(** The bytes of a canonical host. *)
Definition canonical_byte (c : ascii) : bool :=
  in_set [("a", "z"); ("0", "9"); (".", "."); ("-", "-"); (":", ":"); ("[", "["); ("]", "]"); ("+", "+")]%char c.

Lemma canonical_facts s :
  str_forall canonical_byte s = true →
  ToLower s = s ∧ str_forall graphic s = true ∧ has_byte slash s = false.
Proof.
  intros H.
  assert (∀ c, canonical_byte c = true → ascii_byte c = true ∧ lower_byte c = c ∧ graphic c = true ∧ c ≠ slash) as Hc
    by by_bytes.
  split_and!.
  - unfold ToLower. rewrite (str_forall_impl canonical_byte) by (try done; intros c Hx; by apply Hc).
    induction s as [|c s IH]; [done|]. cbn in *. apply andb_true_iff in H as [Hx H]. rewrite IH by done.
    f_equal. by apply Hc.
  - eapply str_forall_impl; [|exact H]. intros c Hx. by apply Hc.
  - eapply forall_lacks; [|exact H]. intros c Hx. by apply Hc.
Qed.

Lemma digits_canonical acc s n : digits_value acc s = Some n → str_forall canonical_byte s = true.
Proof.
  revert acc. induction s as [|c s IH]; intros acc; [done|]. cbn [digits_value str_forall].
  destruct (digit_value c) as [d|] eqn:E; [|done]. cbn. intros H. rewrite (IH _ H), andb_true_r.
  clear -E. revert c E. intros c. destruct (canonical_byte c) eqn:Hc; [done|]. revert c Hc. by_bytes.
Qed.

Lemma atoi_canonical s n : atoi s = Some n → str_forall canonical_byte s = true.
Proof.
  assert (∀ t m, parse_uint t = Some m → str_forall canonical_byte t = true) as Hp.
  { intros t m. unfold parse_uint. destruct t as [|c t]; [done|].
    destruct (digits_value 0 (String c t)) as [k|] eqn:E; [|done]. intros _. by eapply digits_canonical. }
  assert (∀ c t m, parse_uint t = Some m → canonical_byte c = true → str_forall canonical_byte (String c t) = true) as Hq.
  { intros c t m Ht Hc. cbn [str_forall]. by rewrite Hc, (Hp t m). }
  unfold atoi. destruct (match s with String "-" t => _ | _ => _ end) as [negative digits] eqn:E.
  destruct (parse_uint digits) as [m|] eqn:Em; [|done]. intros _.
  destruct s as [|c s]; [done|].
  destruct (decide (c = "-"%char)) as [->|Hm]; [injection E as _ <-; by eapply Hq|].
  destruct (decide (c = "+"%char)) as [->|Hn]; [injection E as _ <-; by eapply Hq|].
  assert (digits = String c s) as ->.
  { clear -E Hm Hn. destruct c as [[] [] [] [] [] [] [] []]; try (by injection E as _ <-); done. }
  by eapply Hp.
Qed.

Lemma lower_fixed_app s t : lower (s +:+ t) = s +:+ t → lower s = s ∧ lower t = t.
Proof.
  induction s as [|c s IH]; [done|]. cbn. intros [= Hc [-> ->]%IH]. by rewrite Hc.
Qed.

Lemma check_host_ok host port h :
  lower host = host → str_forall canonical_byte port = true → check_host host port = Ok h →
  str_forall canonical_byte h = true ∧ (host ≠ "" ∧ host ≠ "..") ∧
  (port = "" → h = host) ∧ (port ≠ "" → h = JoinHostPort host port).
Proof using laws.
  intros Hl Hcp. unfold check_host.
  intros [Hs%refuse_if_ok H]%bind_unit_ok. apply bind_unit_ok in H as [Hi%check_that_ok [= <-]].
  rewrite !orb_false_iff in Hs. destruct Hs as [[Hne _] Hdd].
  assert (str_forall canonical_byte host = true) as Hh.
  { apply orb_true_iff in Hi as [Hi|[_ Hi]%andb_true_iff].
    - apply parse_ip_law in Hi. clear -Hi Hl. induction host as [|c s IH]; [done|]. cbn [str_forall lower] in *.
      apply andb_true_iff in Hi as [Hc Hi]. injection Hl as Hlc Hl. rewrite IH by done. rewrite andb_true_r.
      clear -Hc Hlc. revert c Hc Hlc. by_bytes.
    - eapply str_forall_impl; [|exact Hi]. by_bytes. }
  split_and!.
  - case_bool_decide; [done|]. unfold JoinHostPort. by destruct (has_byte ":" host); rewrite !str_forall_app, Hh, Hcp.
  - intros ->. done.
  - intros ->. done.
  - intros ->. done.
  - intros Hn. by rewrite bool_decide_eq_false_2.
Qed.

Lemma host_canonical h h' :
  normalizeRepositoryHost h = Ok h' →
  str_forall canonical_byte h' = true ∧ (h' ≠ "" ∧ h' ≠ "..") ∧ normalizeRepositoryHost h' = Ok h'.
Proof using laws.
  unfold normalizeRepositoryHost. cbv zeta. pose proof (to_lower_lower h) as Hl.
  destruct (has_byte ":" (ToLower h)) eqn:Ec.
  - destruct (SplitHostPort (ToLower h)) as [[host port]|] eqn:Es; [|done].
    apply split_host_port_ok in Es as (Hv & Hb & Hbp & Hp).
    intros [Hport H]%bind_unit_ok. pose proof Hport as Hport'.
    destruct (atoi port) as [n|] eqn:En; [|done].
    assert (port ≠ "") as Hne by (by intros ->).
    assert (lower host = host) as Hlh.
    { destruct Hv as [Hv|Hv]; rewrite Hv in Hl; [by apply lower_fixed_app in Hl as [? _]|].
      apply lower_fixed_app in Hl as [_ Hl]. by apply lower_fixed_app in Hl as [? _]. }
    pose proof (atoi_canonical _ _ En) as Hcp.
    destruct (check_host_ok host port h') as (Hh & Hn & _ & Hj); [done..|]. rewrite (Hj Hne) in *.
    split; [done|].
    assert (has_byte ":" (JoinHostPort host port) = true) as Hcol.
    { unfold JoinHostPort. by destruct (has_byte ":" host) eqn:E; rewrite !has_byte_app; cbn; rewrite ?orb_true_r. }
    split; [by split; intros E; rewrite E in Hcol|].
    destruct (canonical_facts (JoinHostPort host port)) as (-> & _); [done|].
    rewrite Hcol, split_join_host_port by done. rewrite En, Hport. exact H.
  - intros H. destruct (check_host_ok (ToLower h) "" h') as (Hh & Hn & Hj & _); [done..|]. rewrite (Hj eq_refl) in *.
    split; [done|]. split; [done|]. destruct (canonical_facts (ToLower h)) as (-> & _); [done|].
    by rewrite Ec.
Qed.

Lemma part_canonical part : check_part part = Ok tt → str_forall path_character part = true ∧ plain part.
Proof.
  unfold check_part. intros [H1%refuse_if_ok H]%bind_unit_ok. apply bind_unit_ok in H as [_ H%check_that_ok].
  split; [done|]. bools_in H1. unfold plain. split_and!; try naive_solver.
  eapply forall_lacks; [|exact H]. intros c Hc ->. by vm_compute in Hc.
Qed.
End Canonical.

Lemma path_parts_under dir t :
  is_abs dir = true →
  path_parts (path_join [dir; t]) = reverse (foldl (clean_step true) (clean_stack dir) (split_byte slash t)).
Proof.
  intros Hd. unfold path_join. rewrite bool_decide_eq_false_2 by (by intros ->).
  rewrite path_parts_clean. change (join "/" [dir; t]) with (dir +:+ String slash t).
  assert (is_abs (dir +:+ String slash t) = true) as Ha.
  { apply has_prefix_iff in Hd as (u & ->). rewrite app_assoc_str. apply has_prefix_app. }
  unfold path_parts, clean_stack. by rewrite Ha, Hd, split_byte_app_sep, foldl_app.
Qed.

Section Canonical_origin.
Context {text : NetText} {laws : NetTextLaws text}.

(** The origin of a package has one spelling.  What [normalizeRepositoryOrigin]
    answers is answered for itself: it is a host, a user and a repository in lower
    case ASCII, and the directory of its cache is exactly those three elements below
    the cache - two, when the host is the single dot that the check of a host name
    lets through. *)
Theorem origin_canonical origin canonical gitDir directory :
  normalizeRepositoryOrigin origin = Ok canonical →
  is_abs gitDir = true → trim_right_byte slash gitDir = gitDir →
  generateGitDir origin gitDir = Ok directory →
  normalizeRepositoryOrigin canonical = Ok canonical ∧
  ∃ host user repository, canonical = join "/" [host; user; repository] ∧
    str_forall canonical_byte host = true ∧
    str_forall path_character user = true ∧ str_forall path_character repository = true ∧
    path_parts directory = path_parts gitDir ++ (if bool_decide (host = ".") then [] else [host]) ++ [user; repository].
Proof using laws.
  intros H Ha Ht Hd. unfold generateGitDir in Hd. rewrite H in Hd. cbn [mbind result_bind] in Hd.
  rewrite Ht in Hd. injection Hd as <-. revert H. unfold normalizeRepositoryOrigin.
  intros [_ H]%bind_unit_ok. destruct (split_byte slash origin) as [|h [|user [|repository []]]]; try done.
  apply bind_ok in H as (host & Hh%wrap_ok & H).
  apply bind_unit_ok in H as [Hall H]. injection H as <-.
  pose proof (proj1 (for_each_ok check_part [user; repository] tt) Hall) as Hparts.
  destruct (host_canonical h host Hh) as (Hc & [Hne Hdd] & Hn).
  destruct (part_canonical user) as [Hu Pu]; [by apply Hparts; left|].
  destruct (part_canonical repository) as [Hr Pr]; [by apply Hparts; right; left|].
  destruct (canonical_facts host) as (_ & Hg & Hs); [done|].
  assert (split_byte slash (join "/" [host; user; repository]) = [host; user; repository]) as Hsplit.
  { apply (split_join slash); [done|]. intros x. rewrite !elem_of_cons.
    intros [->|[->|[->|[]%elem_of_nil]]]; [exact Hs|apply Pu|apply Pr]. }
  change (host +:+ String "/" (user +:+ String "/" repository)) with (join "/" [host; user; repository]).
  split.
  - assert (str_forall graphic (join "/" [host; user; repository]) = true) as Hgr.
    { change (join "/" [host; user; repository]) with (host +:+ "/" +:+ user +:+ "/" +:+ repository).
      assert (∀ p, str_forall path_character p = true → str_forall graphic p = true) as Hpg.
      { intros p Hp. eapply str_forall_impl; [|exact Hp]. by_bytes. }
      apply Hpg in Hu, Hr. rewrite !str_forall_app, Hg, Hu, Hr. done. }
    rewrite trim_space_graphic, bool_decide_eq_true_2 by done. rewrite Hsplit.
    change (check_that true InvalidOrigin) with (@Ok repository_error () tt). cbn [mbind result_bind].
    rewrite Hn. cbn [wrap mbind result_bind]. rewrite Hall. done.
  - exists host, user, repository. split_and!; [done..|]. rewrite Hsplit.
    assert (path_join (gitDir :: [host; user; repository]) = path_join [gitDir; join "/" [host; user; repository]]) as ->.
    { unfold path_join. by rewrite !bool_decide_eq_false_2 by (by intros ->). }
    destruct (decide (host = ".")) as [->|Hdot].
    + rewrite bool_decide_eq_true_2, path_parts_under, Hsplit by done. cbn [app].
      change (foldl (clean_step true) (clean_stack gitDir) [".";user;repository])
        with (foldl (clean_step true) (clean_stack gitDir) [user; repository]).
      rewrite clean_foldl_push, reverse_app, reverse_involutive; [done|].
      intros x. rewrite !elem_of_cons. intros [->|[->|[]%elem_of_nil]]; split_and!; try apply Pu; apply Pr.
    + rewrite bool_decide_eq_false_2 by done. assert (Forall plain [host; user; repository]).
      { constructor; [by unfold plain; split_and!|]. constructor; [done|]. by apply plain_one. }
      by apply plain_below.
Qed.
End Canonical_origin.

#[export] Instance net_text_example : NetText := {|
  lower_rune _ := 969%N;
  ParseIP h := bool_decide (h = "::1")
|}.
#[export] Instance net_text_laws_example : NetTextLaws net_text_example.
Proof. split; [done|]. intros h ->%bool_decide_eq_true. done. Qed.

Lemma origin_canonical_witness :
  normalizeRepositoryOrigin "[::1]:8443/ada/app" = Ok "[::1]:8443/ada/app" ∧
  ∃ host user repository, "[::1]:8443/ada/app" = join "/" [host; user; repository] ∧
    str_forall canonical_byte host = true ∧
    str_forall path_character user = true ∧ str_forall path_character repository = true ∧
    path_parts "/cache/[::1]:8443/ada/app" =
      path_parts "/cache" ++ (if bool_decide (host = ".") then [] else [host]) ++ [user; repository].
Proof.
  apply (origin_canonical "[::1]:8443/ada/app"); vm_compute; reflexivity.
Defined.

(** ** Tags and launchers *)
Definition tag_set : list (ascii * ascii) :=
  [("A", "Z"); ("a", "z"); ("0", "9"); ("_", "_"); (".", "."); ("-", "-")]%char.
Definition tag_byte (c : ascii) : bool := in_set tag_set c.

Lemma upto_matches n rs s :
  str_forall (in_set rs) s = true → slen s ≤ n → lang (RUpTo n (RSet rs)) s.
Proof.
  revert s. induction n as [|n IH]; intros [|c s]; cbn [str_forall RUpTo]; unfold slen; cbn [String.length];
    try (by eauto with regex); [lia|]. unfold ROpt.
  intros [Hc Hs]%andb_true_iff Hn. apply lang_alt_l.
  change (String c s) with (String c "" +:+ s). apply lang_seq; [by apply lang_set|]. apply IH; [done|]. unfold slen. lia.
Qed.

Lemma tag_matches c s :
  tag_byte c = true → dot_or_dash c = false → str_forall tag_byte s = true → slen (String c s) ≤ 128 →
  matches tagPattern (String c s) = true.
Proof.
  intros Hc Hd Hs Hn. apply matches_lang. change (String c s) with (String c "" +:+ s).
  apply lang_seq; [|apply upto_matches; [exact Hs|unfold slen in *; cbn in Hn; lia]].
  apply lang_set. revert c Hc Hd Hn. clear. intros c Hc Hd _. revert c Hc Hd. by_bytes.
Qed.

Lemma tag_runes_bytes l written lastDash : str_forall tag_byte (tag_runes l written lastDash) = true.
Proof.
  revert written lastDash. induction l as [|[r w] l IH]; intros written lastDash; [done|]. cbn [tag_runes].
  destruct (tag_character r) eqn:E.
  - cbn [str_forall]. rewrite IH, andb_true_r. unfold tag_character in E. apply andb_true_iff in E as [_ E].
    revert E. generalize (ascii_of_N r). by_bytes.
  - destruct (written && negb lastDash); [|apply IH]. cbn [str_forall]. by rewrite IH.
Qed.

Lemma trim_left_forall f (g : ascii → bool) s : str_forall g s = true → str_forall g (trim_left f s) = true.
Proof.
  induction s as [|c s IH]; [done|]. cbn. destruct (f c); [|done]. intros [_ ?]%andb_true_iff. auto.
Qed.
Lemma trim_left_head f s c t : trim_left f s = String c t → f c = false.
Proof. induction s as [|a s IH]; [done|]. cbn. destruct (f a) eqn:E; [done|]. by intros [= -> _]. Qed.

Lemma trim_right_spec f s : ∃ t, s = trim_right f s +:+ t.
Proof.
  induction s as [|c s [t IH]]; [by exists ""|]. cbn. destruct (bool_decide _ && f c) eqn:E.
  - by exists (String c s).
  - exists t. by rewrite IH at 1.
Qed.

Lemma trim_right_forall f (g : ascii → bool) s : str_forall g s = true → str_forall g (trim_right f s) = true.
Proof.
  destruct (trim_right_spec f s) as [t Ht]. rewrite Ht at 1. rewrite str_forall_app. by intros [? _]%andb_true_iff.
Qed.
Lemma trim_right_prefix f s c t : trim_right f s = String c t → ∃ u, s = String c u.
Proof. destruct (trim_right_spec f s) as [u Hu]. intros E. rewrite E in Hu. rewrite Hu. by eexists. Qed.
Lemma trim_right_len f s : slen (trim_right f s) ≤ slen s.
Proof. destruct (trim_right_spec f s) as [u Hu]. rewrite Hu at 2. rewrite slen_app. lia. Qed.

(** The tag a source is mapped to can be used.  What [sourceImageTag] makes of
    any name - a branch, a release, a commit, in any language and of any length - is
    the empty string or a tag the registry accepts, so setting it never fails. *)
Theorem source_tag_valid value :
  sourceImageTag value = "" ∨ matches tagPattern (sourceImageTag value) = true.
Proof.
  unfold sourceImageTag. cbv zeta. set (inner := trim_left dot_or_dash (tag_runes (runes value) false false)).
  assert (str_forall tag_byte inner = true) as Hb by apply trim_left_forall, tag_runes_bytes.
  assert (∀ u, (∃ t, inner = u +:+ t) → slen (trim_right dot_or_dash u) ≤ 128 →
    trim_right dot_or_dash u = "" ∨ matches tagPattern (trim_right dot_or_dash u) = true) as Hall.
  { intros u [t Ht] Hn. destruct (trim_right dot_or_dash u) as [|c s] eqn:E; [by left|]. right.
    pose proof (trim_right_prefix _ _ _ _ E) as [u' Hu'].
    assert (dot_or_dash c = false) as Hd.
    { apply (trim_left_head dot_or_dash (tag_runes (runes value) false false) c (u' +:+ t)).
      fold inner. by rewrite Ht, Hu'. }
    rewrite Ht, str_forall_app in Hb. apply andb_true_iff in Hb as [Hb _].
    apply (trim_right_forall dot_or_dash) in Hb. rewrite E in Hb. cbn [str_forall] in Hb.
    apply andb_true_iff in Hb as [Hc Hs]. by apply tag_matches. }
  destruct (Nat.ltb_spec 128 (slen (trim_right dot_or_dash inner))) as [Hlong|Hshort].
  - destruct (trim_right_spec dot_or_dash inner) as [t Ht]. apply Hall.
    + exists (str_drop 128 (trim_right dot_or_dash inner) +:+ t). rewrite <-app_assoc_str, str_take_drop. exact Ht.
    + etrans; [apply trim_right_len|]. rewrite slen_take. lia.
  - apply Hall; [exists ""; by rewrite app_nil_str|done].
Qed.

(** The image of a source reads back as a reference with that tag. *)
Lemma source_image_tag image branch release commit name :
  resolveManifestImage image "source" branch release commit = Ok name →
  ∃ ref tag, ParseReference image = Ok ref ∧ re_IsDigest ref = false ∧ matches tagPattern tag = true ∧
    name = Name (mkReference (re_Registry ref) (re_Repository ref) tag false).
Proof.
  unfold resolveManifestImage. cbv zeta. rewrite bool_decide_eq_false_2 by done.
  intros [_ H]%bind_unit_ok. apply bind_unit_ok in H as [_ H].
  apply bind_ok in H as (ref & Href%wrap_ok & H). apply bind_unit_ok in H as [Hd%refuse_if_ok H].
  apply bind_ok in H as (ref' & Hw%wrap_ok & [= <-]). unfold WithTag in Hw.
  apply bind_unit_ok in Hw as [Ht%check_that_ok [= <-]]. by eexists ref, _.
Qed.

(** A declared desktop entry is exported as a launcher of its own name in the
    directory of launchers.  The name it is written under is one element, ends in
    [.desktop] and is none of the files that decide what opens a document. *)
Theorem launcher_confined entry name directory :
  desktopEntryExportName entry = Ok name → is_abs directory = true →
  path_parts (path_join [directory; name]) = path_parts directory ++ [name] ∧
  (∃ stem, stem ≠ "" ∧ name = stem +:+ ".desktop") ∧ name ∉ desktopHandlerFiles.
Proof.
  unfold desktopEntryExportName. intros (n & Hn%wrap_ok & H)%bind_ok Hd.
  apply single_component in Hn as (_ & Hp & _ & _).
  apply bind_unit_ok in H as [Hs%check_that_ok H]. apply bind_unit_ok in H as [Hh%refuse_if_ok [= <-]].
  apply bool_decide_eq_false in Hh. apply andb_true_iff in Hs as [(stem & ->)%has_suffix_iff Hne].
  split_and!; [|exists stem; split; [by intros ->|done]|done].
  apply (plain_below directory [stem +:+ ".desktop"]); [done..|by apply plain_one].
Qed.

Lemma launcher_confined_witness :
  path_parts (path_join ["/home/ada/.local/share/applications"; "org.ada.app.desktop"]) =
    path_parts "/home/ada/.local/share/applications" ++ ["org.ada.app.desktop"] ∧
  (∃ stem, stem ≠ "" ∧ "org.ada.app.desktop" = stem +:+ ".desktop") ∧ "org.ada.app.desktop" ∉ desktopHandlerFiles.
Proof. apply (launcher_confined "/usr/share/applications/org.ada.app.desktop"); vm_compute; reflexivity. Defined.
