(* ===== verification/DesktopEntry.v ===== *)
(** * Desktop entries ([pkg/cpak/desktop_entry_line.go], [desktop_file_span.go],
    [desktop_launcher.go], [installer.go], [application_catalog.go])

    How a line of a desktop entry is read, what an exported entry is rewritten to,
    which arguments of a launch are files, and what a host entry is reduced to. *)
From Stdlib Require Import Ascii.
From stdpp Require Import base strings list numbers gmap pretty.
From S2P Require Import Prelude.
From S2P Require Import GoStrings.
From S2P Require Import Utf8.
From S2P Require Import GoPath.
From S2P Require Import Json.
From S2P Require Import Decimal.
From S2P Require Import Hex.
From S2P Require Import Override.
From S2P Require Import Applications.
From S2P Require Import OciReference.
From S2P Require Import Repository.
From stdpp Require Import options.

#[local] Open Scope nat_scope.

(** ** Strings *)
Definition blank (c : ascii) : bool := bool_decide (c = " "%char) || bool_decide (c = "009"%char).
Definition newline : ascii := "010".
Definition quote_byte : ascii := "034".
Definition backslash_byte : ascii := "\".
Definition dollar : ascii := "$".
Definition backquote : ascii := "`".

(** [strings.ReplaceAll], the bytes of a match being skipped. *)
Fixpoint replace_from (old new : string) (skip : nat) (s : string) : string :=
  match s with
  | "" => ""
  | String c t =>
      match skip with
      | S skip => replace_from old new skip t
      | 0 =>
          if has_prefix old s then new +:+ replace_from old new (slen old - 1) t
          else String c (replace_from old new 0 t)
      end
  end.
Definition replace_all (old new s : string) : string := replace_from old new 0 s.

(** [strings.Cut] for a separator of any length. *)
Fixpoint cut_string (sep s : string) : string * option string :=
  if has_prefix sep s then ("", Some (str_drop (slen sep) s))
  else match s with
  | "" => ("", None)
  | String c t => let '(before, after) := cut_string sep t in (String c before, after)
  end.

(** ** The lines of an entry ([desktop_entry_line.go]) *)
Definition desktopEntryKey (line : string) : option (string * string) :=
  let trimmed := trim_left blank line in
  if bool_decide (trimmed = "") || has_prefix "#" trimmed || has_prefix "[" trimmed then None
  else match cut "=" trimmed with
  | (_, None) => None
  | (name, Some rest) =>
      let name := trim_right blank name in
      if bool_decide (name = "") then None else Some (name, trim_left blank rest)
  end.

Definition desktopEntryGroup (line : string) : option string :=
  let trimmed := trim_space line in
  if has_prefix "[" trimmed then Some trimmed else None.

(** [desktopEntryValue]: the first value of a key in the group, or nothing. *)
Fixpoint entry_value (key : string) (inDesktopEntry : bool) (lines : list string) : string :=
  match lines with
  | [] => ""
  | line :: lines =>
      let line := trim_space line in
      if has_prefix "[" line then entry_value key (bool_decide (line = "[Desktop Entry]")) lines
      else if inDesktopEntry && has_prefix (key +:+ "=") line then trim_space (trim_prefix (key +:+ "=") line)
      else entry_value key inDesktopEntry lines
  end.
Definition desktopEntryValue (data key : string) : string := entry_value key false (split_byte newline data).

(** ** The span of the files ([desktop_file_span.go]) *)
Record desktopFileSpan : Type := mkSpan { sp_Before : Z; sp_After : Z }.
#[export] Instance span_eq_dec : EqDecision desktopFileSpan.
Proof. solve_decision. Defined.

Definition desktopFileSpanFlag : string := "--desktop-file-span".
Definition desktopFilePlaceholders : list string := ["%f"; "%F"; "%u"; "%U"].

Definition span_string (s : desktopFileSpan) : string := pretty (sp_Before s) +:+ "," +:+ pretty (sp_After s).

Definition parse_count (s : string) : option Z :=
  n ← atoi s; if (n <? 0)%Z then None else Some n.
Definition parseDesktopFileSpan (value : string) : option desktopFileSpan :=
  match cut "," value with
  | (_, None) => None
  | (before, Some after) =>
      leading ← parse_count before; trailing ← parse_count after; Some (mkSpan leading trailing)
  end.

Definition selects_argument (s : desktopFileSpan) (index total : Z) : bool :=
  if (total <=? sp_Before s + sp_After s)%Z then false
  else ((sp_Before s <=? index) && (index <? total - sp_After s))%Z.

(** The one placeholder among the arguments: its position, or that there are two. *)
Definition is_placeholder (argument : string) : bool :=
  bool_decide (trim_right (λ c, bool_decide (c = quote_byte)) (trim_left (λ c, bool_decide (c = quote_byte)) argument)
    ∈ desktopFilePlaceholders).
Fixpoint find_placeholder (index : nat) (placeholder : option nat) (arguments : list string) : result () (option nat) :=
  match arguments with
  | [] => Ok placeholder
  | argument :: arguments =>
      if is_placeholder argument then
        match placeholder with
        | Some _ => Err ()
        | None => find_placeholder (index + 1) (Some index) arguments
        end
      else find_placeholder (index + 1) placeholder arguments
  end.
Definition countDesktopFileSpan (arguments : list string) : result () (option desktopFileSpan) :=
  match find_placeholder 0 None arguments with
  | Err _ => Err ()
  | Ok None => Ok None
  | Ok (Some p) => Ok (Some (mkSpan (Z.of_nat p) (Z.of_nat (length arguments) - Z.of_nat p - 1)))
  end.

(** ** The command of an entry ([desktop_launcher.go], [installer.go]) *)
Definition special_byte (c : ascii) : bool :=
  blank c || bool_decide (c = newline) || bool_decide (c = quote_byte) || bool_decide (c = backquote) ||
  bool_decide (c = dollar) || bool_decide (c = backslash_byte).
Definition escaped_byte (c : ascii) : bool :=
  bool_decide (c = backslash_byte) || bool_decide (c = quote_byte) || bool_decide (c = backquote) || bool_decide (c = dollar).
Fixpoint escape_bytes (s : string) : string :=
  match s with
  | "" => ""
  | String c s => if escaped_byte c then String backslash_byte (String c (escape_bytes s)) else String c (escape_bytes s)
  end.
Definition desktopExecArgument (value : string) : string :=
  if negb (str_exists special_byte value) then value
  else String quote_byte (escape_bytes value +:+ String quote_byte "").

(** The tokens of an argument list, the current one last. *)
Fixpoint split_arguments (value token : string) (quoted escaped : bool) : list string :=
  match value with
  | "" => if bool_decide (token = "") then [] else [token]
  | String c value =>
      let longer := token +:+ String c "" in
      if escaped then split_arguments value longer quoted false
      else if bool_decide (c = backslash_byte) then split_arguments value longer quoted true
      else if bool_decide (c = quote_byte) then split_arguments value longer (negb quoted) false
      else if blank c && negb quoted then
        (if bool_decide (token = "") then [] else [token]) ++ split_arguments value "" quoted false
      else split_arguments value longer quoted false
  end.
Definition splitDesktopArguments (value : string) : list string := split_arguments value "" false false.

(** Where the command of an [Exec] value ends. *)
Fixpoint command_end (command : string) (quoted escaped : bool) : nat :=
  match command with
  | "" => 0
  | String c command =>
      if escaped then S (command_end command quoted false)
      else if bool_decide (c = backslash_byte) then S (command_end command quoted true)
      else if bool_decide (c = quote_byte) then S (command_end command (negb quoted) false)
      else if blank c && negb quoted then 0
      else S (command_end command quoted false)
  end.

Definition rewriteDesktopExec (launcher origin command : string) : string :=
  let command := trim_space command in
  let end_ := command_end command false false in
  let binary := str_take end_ command in
  let binary :=
    match binary with
    | String c rest => if bool_decide (c = quote_byte) then String quote_byte ("@" +:+ rest) else "@" +:+ binary
    | "" => "@"
    end in
  let arguments := trim_space (str_drop end_ command) in
  let span := match countDesktopFileSpan (splitDesktopArguments arguments) with Ok span => span | Err _ => None end in
  "Exec=" +:+ desktopExecArgument launcher +:+ " run --desktop-launch " +:+ origin +:+
  match span with Some span => " " +:+ desktopFileSpanFlag +:+ " " +:+ span_string span | None => "" end +:+
  " " +:+ binary +:+ (if bool_decide (arguments = "") then "" else " -- " +:+ arguments).

(** The lines of an exported entry ([writeDesktopExport]). *)
Definition export_line (launcher origin iconName line : string) : string :=
  match desktopEntryKey line with
  | Some (key, value) =>
      if bool_decide (key = "Exec") then rewriteDesktopExec launcher origin value
      else if bool_decide (key = "TryExec") then "TryExec=" +:+ launcher
      else if bool_decide (key = "Icon") && negb (bool_decide (iconName = "")) then "Icon=" +:+ iconName
      else line
  | None => line
  end.
Definition export_content (launcher origin iconName content : string) : string :=
  join (String newline "") (export_line launcher origin iconName <$> split_byte newline content).

(** ** Repairing what was exported before ([desktop_launcher.go]) *)
Definition legacyGrantMarkerStart : string := "@@cpak:file-grant:start@@".
Definition legacyGrantMarkerEnd : string := "@@cpak:file-grant:end@@".

Definition strip_marker (line marker : string) : string :=
  replace_all marker "" (replace_all (" " +:+ marker +:+ " ") " " line).
Definition is_space_byte (c : ascii) : bool := bool_decide (c = " "%char).
Definition stripLegacyGrantMarkers (line : string) : string :=
  trim_right is_space_byte (strip_marker (strip_marker line legacyGrantMarkerStart) legacyGrantMarkerEnd).

Definition withDesktopFileSpan (line : string) : string :=
  if contains (" " +:+ desktopFileSpanFlag +:+ " ") line then line
  else match cut_string " -- " line with
  | (_, None) => line
  | (head, Some arguments) =>
      match countDesktopFileSpan (splitDesktopArguments arguments) with
      | Err _ | Ok None => line
      | Ok (Some span) =>
          match cut_string " --desktop-launch " head with
          | (_, None) => line
          | (before, Some rest) =>
              match cut " " rest with
              | (_, None) => line
              | (origin, Some tail) =>
                  before +:+ " --desktop-launch " +:+ origin +:+ " " +:+ desktopFileSpanFlag +:+ " " +:+ span_string span +:+
                    " " +:+ tail +:+ " -- " +:+ arguments
              end
          end
      end
  end.

Definition repair_line (launcher line : string) : string :=
  let line :=
    if bool_decide (line = "Exec=cpak") then "Exec=" +:+ desktopExecArgument launcher
    else if has_prefix "Exec=cpak " line then "Exec=" +:+ desktopExecArgument launcher +:+ trim_prefix "Exec=cpak" line
    else if bool_decide (line = "TryExec=cpak") then "TryExec=" +:+ launcher else line in
  let prefix := "Exec=" +:+ desktopExecArgument launcher +:+ " run " in
  let line :=
    if has_prefix prefix line && negb (has_prefix (prefix +:+ "--desktop-launch ") line)
    then prefix +:+ "--desktop-launch " +:+ trim_prefix prefix line else line in
  if has_prefix (prefix +:+ "--desktop-launch ") line then withDesktopFileSpan (stripLegacyGrantMarkers line) else line.
Definition repairDesktopLauncher (content launcher : string) : string :=
  join (String newline "") (repair_line launcher <$> split_byte newline content).

(** ** Entries of the host ([application_catalog.go]) *)
Inductive entry_error : Type := GroupMissing | CommandMissing.

(** The loop over the lines: the kept lines, and whether the group and its command
    were found. *)
Fixpoint host_lines (rewriteExec : string → string) (icon : string) (inDesktopEntry foundDesktopEntry foundExec : bool)
    (lines : list string) : list string * bool * bool :=
  match lines with
  | [] => ([], foundDesktopEntry, foundExec)
  | line :: lines =>
      let keep written foundExec inDesktopEntry foundDesktopEntry :=
        let '(result, group, command) := host_lines rewriteExec icon inDesktopEntry foundDesktopEntry foundExec lines in
        (written ++ result, group, command) in
      let trimmed := trim_space line in
      if has_prefix "[" trimmed then
        if foundDesktopEntry && negb (bool_decide (trimmed = "[Desktop Entry]")) then ([], foundDesktopEntry, foundExec)
        else
          let inDesktopEntry := bool_decide (trimmed = "[Desktop Entry]") in
          keep [line] foundExec inDesktopEntry (foundDesktopEntry || inDesktopEntry)
      else if negb inDesktopEntry then
        keep (if negb foundDesktopEntry then [line] else []) foundExec inDesktopEntry foundDesktopEntry
      else match desktopEntryKey line with
      | None => keep [line] foundExec inDesktopEntry foundDesktopEntry
      | Some (key, value) =>
          if bool_decide (key = "Exec") then keep ["Exec=" +:+ rewriteExec (trim_space value)] true inDesktopEntry foundDesktopEntry
          else if bool_decide (key = "Icon") then
            keep [if bool_decide (icon = "") then line else "Icon=" +:+ icon] foundExec inDesktopEntry foundDesktopEntry
          else if bool_decide (key ∈ ["TryExec"; "Actions"; "DBusActivatable"])
          then keep [] foundExec inDesktopEntry foundDesktopEntry
          else keep [line] foundExec inDesktopEntry foundDesktopEntry
      end
  end.

Definition rewriteHostDesktopEntry (data : string) (rewriteExec : string → string) (icon : string) : result entry_error string :=
  let '(result, foundDesktopEntry, foundExec) := host_lines rewriteExec icon false false false (split_byte newline data) in
  check_that foundDesktopEntry GroupMissing ;;;
  check_that foundExec CommandMissing ;;;
  Ok (join (String newline "") (result ++ ["DBusActivatable=false"; ""])).

Definition sanitizeHostDesktopEntry (data token icon : string) : result entry_error string :=
  result ← rewriteHostDesktopEntry data (λ _, "/usr/local/bin/cpak-launch-app " +:+ token +:+ " %U") icon;
  Ok (result +:+ "X-cpak-HostApplication=true" +:+ String newline "").
Definition sanitizeHostApplicationLauncher (data : string) : result entry_error string :=
  rewriteHostDesktopEntry data (λ value, value) "".

(** The command an entry would run, read rune by rune. *)
Fixpoint executable_loop (command : list (N * string)) (result : string) (quoted escaped : bool) : option string :=
  match command with
  | [] => if escaped || quoted || bool_decide (result = "") then None else Some result
  | (r, _) :: command =>
      let longer := result +:+ encode_rune r in
      if escaped then executable_loop command longer quoted false
      else if (r =? 92)%N then executable_loop command result quoted true
      else if (r =? 34)%N then executable_loop command result (negb quoted) false
      else if negb quoted && ((r =? 32)%N || (r =? 9)%N) then
        if bool_decide (result = "") then executable_loop command result quoted false else Some result
      else executable_loop command longer quoted false
  end.
Definition desktopEntryExecutable (command : string) : option string :=
  let command := trim_space command in
  if bool_decide (command = "") then None else executable_loop (runes command) "" false false.

(** ** Names of exports ([installer.go]) *)
Section Exports.
Context (sha256 : string → string) (home : string).

Definition applicationExportID (app : Application) : string := "cpak-" +:+ hex_encode (sha256 (ap_CpakId app)).
Definition desktopEntryExportPath (app : Application) (desktopEntry : string) : string :=
  path_join [home; ".local"; "share"; "applications"; applicationExportID app +:+ "-" +:+ base desktopEntry].

(** [shellLiteral]: a word of the shell. *)
Definition shellLiteral (value : string) : string := "'" +:+ replace_all "'" "'\''" value +:+ "'".
Definition all_arguments : string := String quote_byte ("$@" +:+ String quote_byte "").
Definition export_command (launcher origin binary : string) : string :=
  "exec " +:+ launcher +:+ " run " +:+ shellLiteral origin +:+ " " +:+ shellLiteral ("@" +:+ binary) +:+ " -- " +:+ all_arguments.
Definition export_script (launcher origin binary : string) : string :=
  "#!/bin/sh" +:+ String newline "" +:+ export_command launcher origin binary +:+ String newline "".
End Exports.


(** ** Trimming *)
Definition items_concat (l : list (N * string)) : string := foldr (λ x acc, x.2 +:+ acc) "" l.

Lemma items_concat_app l1 l2 : items_concat (l1 ++ l2) = items_concat l1 +:+ items_concat l2.
Proof. unfold items_concat. induction l1 as [|x l1 IH]; [done|]. simpl. by rewrite IH, app_assoc_str. Qed.

Lemma drop_spaces_suffix l : ∃ p, l = p ++ drop_spaces l.
Proof.
  induction l as [|x l (p & IH)]; [by exists []|]. cbn [drop_spaces].
  case_match; [exists (x :: p); by rewrite <- app_comm_cons, <- IH | by exists []].
Qed.

Lemma trim_space_items s :
  ∃ p m q, runes s = p ++ m ++ q ∧ trim_space s = items_concat m.
Proof.
  destruct (drop_spaces_suffix (runes s)) as (p & Hp).
  destruct (drop_spaces_suffix (reverse (drop_spaces (runes s)))) as (q & Hq).
  exists p, (reverse (drop_spaces (reverse (drop_spaces (runes s))))), (reverse q).
  split; [|done]. rewrite <- reverse_app, <- Hq, reverse_involutive. exact Hp.
Qed.

(** Trimming takes bytes off the two ends. *)
Lemma trim_space_within s : ∃ a b, s = a +:+ trim_space s +:+ b.
Proof.
  destruct (trim_space_items s) as (p & m & q & Hs & ->).
  exists (items_concat p), (items_concat q).
  rewrite <- !items_concat_app, <- Hs. symmetry. apply runes_concat.
Qed.

Lemma trim_space_lacks c s : has_byte c s = false → has_byte c (trim_space s) = false.
Proof.
  intros H. destruct (trim_space_within s) as (a & b & E). rewrite E in H.
  rewrite !has_byte_app in H. bools_in H. tauto.
Qed.

Lemma take_drop_lacks c n s : has_byte c s = false → has_byte c (str_take n s) = false ∧ has_byte c (str_drop n s) = false.
Proof. intros H. rewrite <- (str_take_drop n s), has_byte_app in H. bools_in H. tauto. Qed.

Lemma trim_left_suffix f s : ∃ p, s = p +:+ trim_left f s.
Proof.
  induction s as [|c s (p & IH)]; [by exists ""|]. cbn [trim_left].
  case_match; [exists (String c p); cbn; by rewrite <- IH | by exists ""].
Qed.

Lemma trim_left_keeps f c s : f c = false → trim_left f (String c s) = String c s.
Proof. intros H. cbn. by rewrite H. Qed.

Lemma trim_left_lacks f c s : has_byte c s = false → has_byte c (trim_left f s) = false.
Proof. intros H. destruct (trim_left_suffix f s) as (p & E). rewrite E, has_byte_app in H. bools_in H. tauto. Qed.

(** ** The scanner of an argument list *)

(** A stretch without an unquoted blank, and the state it leaves. *)
Fixpoint unbroken (s : string) (quoted escaped : bool) : option (bool * bool) :=
  match s with
  | "" => Some (quoted, escaped)
  | String c s =>
      if escaped then unbroken s quoted false
      else if bool_decide (c = backslash_byte) then unbroken s quoted true
      else if bool_decide (c = quote_byte) then unbroken s (negb quoted) false
      else if blank c && negb quoted then None
      else unbroken s quoted false
  end.

Lemma split_unbroken s t token quoted escaped q e :
  unbroken s quoted escaped = Some (q, e) →
  split_arguments (s +:+ t) token quoted escaped = split_arguments t (token +:+ s) q e.
Proof.
  revert token quoted escaped. induction s as [|c s IH]; intros token quoted escaped; cbn [unbroken String.append].
  - intros [= -> ->]. by rewrite app_nil_str.
  - intros H. cbn [split_arguments].
    assert (∀ x, (token +:+ String c "") +:+ x = token +:+ String c x) as Happ by (intros; by rewrite app_assoc_str).
    repeat case_match; try done; rewrite (IH _ _ _ H), Happ; reflexivity.
Qed.

Lemma unbroken_app s t quoted escaped :
  unbroken (s +:+ t) quoted escaped =
  match unbroken s quoted escaped with Some (q, e) => unbroken t q e | None => None end.
Proof.
  revert quoted escaped. induction s as [|c s IH]; intros quoted escaped; [done|].
  cbn [unbroken String.append]. rewrite !IH. repeat case_match; reflexivity || congruence.
Qed.

(** A token followed by a blank is one of the list. *)
Lemma split_token s t :
  unbroken s false false = Some (false, false) → s ≠ "" →
  splitDesktopArguments (s +:+ " " +:+ t) = s :: splitDesktopArguments t.
Proof.
  intros H Hs. unfold splitDesktopArguments. rewrite (split_unbroken _ _ _ _ _ _ _ H).
  simpl. rewrite bool_decide_eq_false_2 by exact Hs. reflexivity.
Qed.

Lemma split_last s st :
  unbroken s false false = Some st → s ≠ "" → splitDesktopArguments s = [s].
Proof.
  destruct st as [q e]. intros H Hs. unfold splitDesktopArguments.
  rewrite <- (app_nil_str s) at 1. rewrite (split_unbroken _ _ _ _ _ _ _ H).
  simpl. rewrite bool_decide_eq_false_2 by exact Hs. reflexivity.
Qed.

Lemma command_end_spec s quoted escaped :
  let n := command_end s quoted escaped in
  ∃ q e, unbroken (str_take n s) quoted escaped = Some (q, e) ∧
    (str_drop n s = "" ∨ (q = false ∧ e = false)).
Proof.
  revert quoted escaped. induction s as [|c s IH]; intros quoted escaped; [by eexists _, _; split; [|left]|].
  cbn [command_end].
  destruct escaped.
  { destruct (IH quoted false) as (q & e & H & H'). exists q, e. by cbn. }
  destruct (bool_decide (c = backslash_byte)) eqn:E1.
  { destruct (IH quoted true) as (q & e & H & H'). exists q, e. cbn. by rewrite E1. }
  destruct (bool_decide (c = quote_byte)) eqn:E2.
  { destruct (IH (negb quoted) false) as (q & e & H & H'). exists q, e. cbn. by rewrite E1, E2. }
  destruct (blank c && negb quoted) eqn:E3.
  { apply andb_true_iff in E3 as [_ Hq]. exists quoted, false. split; [done|right]. by destruct quoted. }
  destruct (IH quoted false) as (q & e & H & H'). exists q, e. cbn. by rewrite E1, E2, E3.
Qed.

(** A byte the scanner gives no meaning to. *)
Definition plain_byte (c : ascii) : bool :=
  negb (blank c || bool_decide (c = newline) || bool_decide (c = quote_byte) || bool_decide (c = backslash_byte)).
Definition plain_word (s : string) : bool := negb (bool_decide (s = "")) && str_forall plain_byte s.

Lemma plain_unbroken s : str_forall plain_byte s = true → unbroken s false false = Some (false, false).
Proof.
  induction s as [|c s IH]; [done|]. cbn [str_forall unbroken]. unfold plain_byte at 1. bools.
  intros [[[[Hb _] Hq] Hs] H]. rewrite Hb, !bool_decide_eq_false_2 by done. cbn. auto.
Qed.

Lemma plain_lacks_newline s : str_forall plain_byte s = true → has_byte newline s = false.
Proof.
  induction s as [|c s IH]; [done|]. cbn [str_forall]. unfold plain_byte at 1. rewrite has_byte_cons. bools.
  intros [[[[_ Hn] _] _] H]. split; [done|auto].
Qed.

Lemma escaped_unbroken s : unbroken (escape_bytes s) true false = Some (true, false).
Proof.
  induction s as [|c s IH]; cbn [escape_bytes unbroken]; [done|].
  destruct (escaped_byte c) eqn:E.
  - exact IH.
  - cbn [unbroken]. unfold escaped_byte in E. bools_in E. rewrite !bool_decide_eq_false_2 by tauto.
    rewrite andb_false_r. exact IH.
Qed.

Lemma str_exists_none f s : str_exists f s = false → str_forall (λ c, negb (f c)) s = true.
Proof. unfold str_exists. by rewrite negb_false_iff. Qed.

(** The launcher is one token, and starts the value of the key. *)
Lemma exec_argument_token value : unbroken (desktopExecArgument value) false false = Some (false, false).
Proof.
  unfold desktopExecArgument. destruct (str_exists special_byte value) eqn:E; cbn [negb].
  - change (unbroken (escape_bytes value +:+ String quote_byte "") true false = Some (false, false)).
    by rewrite unbroken_app, escaped_unbroken.
  - apply plain_unbroken. eapply str_forall_impl; [|apply str_exists_none, E].
    intros c. cbn beta. unfold special_byte, plain_byte. bools. tauto.
Qed.

Lemma exec_argument_cons value :
  has_prefix "/" value = true → ∃ c s, desktopExecArgument value = String c s ∧ blank c = false.
Proof.
  intros (t & ->)%has_prefix_iff. unfold desktopExecArgument. case_match; eexists _, _; split; reflexivity.
Qed.

Lemma escape_bytes_lacks_newline s : has_byte newline s = false → has_byte newline (escape_bytes s) = false.
Proof.
  induction s as [|c s IH]; [done|]. rewrite has_byte_cons. bools. intros [? ?]. cbn [escape_bytes].
  case_match; rewrite !has_byte_cons; bools; auto.
Qed.

Lemma exec_argument_lacks_newline s : has_byte newline s = false → has_byte newline (desktopExecArgument s) = false.
Proof.
  intros H. unfold desktopExecArgument. case_match; [done|].
  rewrite has_byte_cons, has_byte_app, escape_bytes_lacks_newline by done. done.
Qed.

(** The parts of a rewritten command. *)
Definition span_flag (arguments : string) : string :=
  match countDesktopFileSpan (splitDesktopArguments arguments) with
  | Ok (Some span) => " " +:+ desktopFileSpanFlag +:+ " " +:+ span_string span
  | _ => ""
  end.
Definition span_words (arguments : string) : list string :=
  match countDesktopFileSpan (splitDesktopArguments arguments) with
  | Ok (Some span) => [desktopFileSpanFlag; span_string span]
  | _ => []
  end.
Definition mark_binary (binary : string) : string :=
  match binary with
  | String c rest => if bool_decide (c = quote_byte) then String quote_byte ("@" +:+ rest) else "@" +:+ binary
  | "" => "@"
  end.

Definition exec_value (launcher origin binary arguments : string) : string :=
  desktopExecArgument launcher +:+ " run --desktop-launch " +:+ origin +:+ span_flag arguments +:+
  " " +:+ binary +:+ (if bool_decide (arguments = "") then "" else " -- " +:+ arguments).

Lemma rewrite_exec_shape launcher origin command :
  ∃ binary arguments a b c,
    command = a +:+ binary +:+ b +:+ arguments +:+ c ∧
    rewriteDesktopExec launcher origin command = "Exec=" +:+ exec_value launcher origin (mark_binary binary) arguments ∧
    ∃ q e, unbroken binary false false = Some (q, e) ∧ (arguments = "" ∨ (q = false ∧ e = false)).
Proof.
  destruct (trim_space_within command) as (a & d & Hc). set (t := trim_space command) in *.
  destruct (command_end_spec t false false) as (q & e & Hu & He). set (n := command_end t false false) in *.
  destruct (trim_space_within (str_drop n t)) as (b & c & Hd).
  exists (str_take n t), (trim_space (str_drop n t)), a, b, (c +:+ d).
  split; [|split].
  - rewrite Hc at 1. rewrite <- (str_take_drop n t) at 1. rewrite Hd at 1. by rewrite !app_assoc_str.
  - unfold rewriteDesktopExec. fold t. fold n. unfold exec_value, span_flag.
    destruct (countDesktopFileSpan _) as [[|]|]; reflexivity.
  - exists q, e. split; [exact Hu|]. destruct He as [He|He]; [left; by rewrite He|by right].
Qed.

Lemma mark_binary_token binary q e :
  unbroken binary false false = Some (q, e) → unbroken (mark_binary binary) false false = Some (q, e).
Proof.
  destruct binary as [|c s]; [done|]. unfold mark_binary. case_bool_decide as Hc; [subst c|]; done.
Qed.

Lemma mark_binary_marked binary :
  mark_binary binary ≠ "" ∧ (has_prefix "@" (mark_binary binary) = true ∨ has_prefix (String quote_byte "@") (mark_binary binary) = true).
Proof.
  destruct binary as [|c s]; [by split; [|left]|]. unfold mark_binary.
  case_bool_decide; (split; [done|]); [right|left]; apply has_prefix_iff; eexists; reflexivity.
Qed.

Lemma numeric_plain c : numeric c = true → plain_byte c = true.
Proof. destruct c as [[] [] [] [] [] [] [] []]; vm_compute; congruence. Qed.

Lemma span_string_plain span : plain_word (span_string span) = true.
Proof.
  destruct (pretty_numeric (sp_Before span)) as [H1 H1'], (pretty_numeric (sp_After span)) as [H2 H2'].
  unfold plain_word, span_string. apply andb_true_intro. split.
  - rewrite bool_decide_eq_false_2; [done|]. by destruct (pretty (sp_Before span)).
  - rewrite !str_forall_app. rewrite (str_forall_impl _ _ _ numeric_plain H1), (str_forall_impl _ _ _ numeric_plain H2). done.
Qed.

Lemma plain_word_token s : plain_word s = true → unbroken s false false = Some (false, false) ∧ s ≠ "" ∧ has_byte newline s = false.
Proof.
  unfold plain_word. bools. intros [Hs H].
  eauto using plain_unbroken, plain_lacks_newline.
Qed.

(** The words of an exported command. *)
Definition exec_words (launcher origin binary arguments : string) : list string :=
  [desktopExecArgument launcher; "run"; "--desktop-launch"; origin] ++ span_words arguments ++ [binary] ++
  (if bool_decide (arguments = "") then [] else "--" :: splitDesktopArguments arguments).

Lemma exec_value_words launcher origin binary arguments q e :
  plain_word origin = true → desktopExecArgument launcher ≠ "" →
  unbroken binary false false = Some (q, e) → binary ≠ "" → (arguments = "" ∨ (q = false ∧ e = false)) →
  splitDesktopArguments (exec_value launcher origin binary arguments) = exec_words launcher origin binary arguments.
Proof.
  intros (Ho & Ho' & _)%plain_word_token Hl Hb Hb' Ha. unfold exec_value, exec_words.
  change (" run --desktop-launch " +:+ ?x) with (" " +:+ "run" +:+ " " +:+ "--desktop-launch" +:+ " " +:+ x).
  rewrite split_token by (done || apply exec_argument_token).
  rewrite (split_token "run"), (split_token "--desktop-launch") by done. cbn [app]. do 3 f_equal.
  assert (∀ t, splitDesktopArguments (origin +:+ span_flag arguments +:+ " " +:+ t) = origin :: span_words arguments ++ splitDesktopArguments t) as ->.
  { intros t. unfold span_flag, span_words. destruct (countDesktopFileSpan _) as [[span|]|].
    - rewrite !app_assoc_str. destruct (plain_word_token _ (span_string_plain span)) as (Hp & Hp' & _).
      rewrite (split_token origin) by done.
      rewrite (split_token desktopFileSpanFlag), split_token by done. done.
    - change (origin +:+ "" +:+ " " +:+ t) with (origin +:+ " " +:+ t). by rewrite split_token.
    - change (origin +:+ "" +:+ " " +:+ t) with (origin +:+ " " +:+ t). by rewrite split_token. }
  f_equal. f_equal. case_bool_decide as Hargs.
  - rewrite app_nil_str. by eapply split_last.
  - destruct Ha as [|[-> ->]]; [done|].
    change (" -- " +:+ arguments) with (" " +:+ "--" +:+ " " +:+ arguments).
    rewrite (split_token binary) by done. by rewrite (split_token "--").
Qed.

Lemma exec_value_lacks_newline launcher origin binary arguments :
  plain_word origin = true → has_byte newline launcher = false → has_byte newline binary = false →
  has_byte newline arguments = false → has_byte newline (exec_value launcher origin binary arguments) = false.
Proof.
  intros (_ & _ & Ho)%plain_word_token Hl Hb Ha. unfold exec_value, span_flag.
  destruct (plain_word_token (span_string (mkSpan 0 0)) (span_string_plain _)) as (_ & _ & _).
  rewrite !has_byte_app, (exec_argument_lacks_newline _ Hl), Ho, Hb.
  assert (has_byte newline match countDesktopFileSpan (splitDesktopArguments arguments) with
    | Ok (Some span) => " " +:+ desktopFileSpanFlag +:+ " " +:+ span_string span | _ => "" end = false) as ->.
  { destruct (countDesktopFileSpan _) as [[span|]|]; [|done..].
    rewrite !has_byte_app. by destruct (plain_word_token _ (span_string_plain span)) as (_ & _ & ->). }
  case_bool_decide; [done|]. by rewrite has_byte_app, Ha.
Qed.

Lemma mark_binary_lacks_newline binary : has_byte newline binary = false → has_byte newline (mark_binary binary) = false.
Proof.
  destruct binary as [|c s]; [done|]. unfold mark_binary. rewrite has_byte_cons. bools. intros [Hc H].
  case_match; repeat (rewrite has_byte_app || rewrite has_byte_cons); rewrite H, ?(bool_decide_eq_false_2 _ Hc); done.
Qed.

(** The lines of the content, one by one. *)
Lemma exec_key value : desktopEntryKey ("Exec=" +:+ value) = Some ("Exec", trim_left blank value).
Proof. reflexivity. Qed.
Lemma tryexec_key value : desktopEntryKey ("TryExec=" +:+ value) = Some ("TryExec", trim_left blank value).
Proof. reflexivity. Qed.
Lemma icon_key value : desktopEntryKey ("Icon=" +:+ value) = Some ("Icon", trim_left blank value).
Proof. reflexivity. Qed.

Lemma key_value_lacks c line key value :
  desktopEntryKey line = Some (key, value) → has_byte c line = false → has_byte c value = false.
Proof.
  unfold desktopEntryKey. intros H Hl. apply (trim_left_lacks blank) in Hl.
  destruct (_ || _); [done|]. pose proof (cut_spec "=" (trim_left blank line)) as Hc.
  destruct (cut "=" (trim_left blank line)) as [name [rest|]]; [|done]. destruct Hc as [E _].
  case_bool_decide; [done|]. injection H as <- <-. apply trim_left_lacks.
  rewrite E, has_byte_app, has_byte_cons in Hl. bools_in Hl. tauto.
Qed.

Lemma rewrite_exec_lacks_newline launcher origin command :
  plain_word origin = true → has_byte newline launcher = false → has_byte newline command = false →
  has_byte newline (rewriteDesktopExec launcher origin command) = false.
Proof.
  intros Ho Hl Hc. destruct (rewrite_exec_shape launcher origin command) as (binary & arguments & a & b & c & E & -> & _).
  rewrite E, !has_byte_app in Hc. bools_in Hc. rewrite has_byte_app. bools. split; [done|].
  apply exec_value_lacks_newline; [done|done|apply mark_binary_lacks_newline; tauto|tauto].
Qed.

Lemma export_line_lacks_newline launcher origin icon line :
  plain_word origin = true → has_byte newline launcher = false → has_byte newline icon = false →
  has_byte newline line = false → has_byte newline (export_line launcher origin icon line) = false.
Proof.
  intros Ho Hl Hi Hline. unfold export_line. destruct (desktopEntryKey line) as [[key value]|] eqn:E; [|done].
  pose proof (key_value_lacks _ _ _ _ E Hline). repeat case_if.
  - by apply rewrite_exec_lacks_newline.
  - by rewrite has_byte_app, Hl.
  - by rewrite has_byte_app, Hi.
  - done.
Qed.

Lemma export_content_lines launcher origin icon content :
  plain_word origin = true → has_byte newline launcher = false → has_byte newline icon = false →
  split_byte newline (export_content launcher origin icon content) =
  export_line launcher origin icon <$> split_byte newline content.
Proof.
  intros Ho Hl Hi. unfold export_content. apply split_join.
  - destruct (split_byte_cons newline content) as (h & t & ->). done.
  - intros x (line & -> & Hline)%list_elem_of_fmap. apply export_line_lacks_newline; [done..|].
    by eapply split_byte_no_sep.
Qed.

(** The one placeholder of the arguments. *)
Lemma find_placeholder_none index placeholder arguments :
  (∀ x, x ∈ arguments → is_placeholder x = false) → find_placeholder index placeholder arguments = Ok placeholder.
Proof.
  revert index. induction arguments as [|x l IH]; intros index H; [done|]. cbn [find_placeholder].
  rewrite (H x) by apply list_elem_of_here. apply IH. intros y Hy. apply H. by apply list_elem_of_further.
Qed.

Lemma find_placeholder_skip index placeholder before l :
  (∀ x, x ∈ before → is_placeholder x = false) →
  find_placeholder index placeholder (before ++ l) = find_placeholder (index + length before) placeholder l.
Proof.
  revert index. induction before as [|x before IH]; intros index H; cbn [app length find_placeholder].
  - by rewrite Nat.add_0_r.
  - rewrite (H x) by apply list_elem_of_here. rewrite IH by (intros y Hy; apply H; by apply list_elem_of_further).
    f_equal. lia.
Qed.

Lemma find_placeholder_shape index arguments p :
  find_placeholder index None arguments = Ok p →
  match p with
  | None => ∀ x, x ∈ arguments → is_placeholder x = false
  | Some p => ∃ before x after, arguments = before ++ x :: after ∧ p = index + length before ∧ is_placeholder x = true ∧
      (∀ y, y ∈ before ++ after → is_placeholder y = false)
  end.
Proof.
  revert index. induction arguments as [|x l IH]; intros index; cbn [find_placeholder].
  { intros [= <-] y ?%not_elem_of_nil. done. }
  destruct (is_placeholder x) eqn:Hx.
  - assert (∀ i l, find_placeholder i (Some index) l = Ok p → p = Some index ∧ ∀ y, y ∈ l → is_placeholder y = false) as Hsome.
    { clear. intros i l. revert i. induction l as [|y l IH]; intros i; cbn [find_placeholder].
      - intros [= <-]. split; [done|]. by intros y ?%not_elem_of_nil.
      - destruct (is_placeholder y) eqn:Hy; [done|]. intros H. destruct (IH _ H) as [-> Hl]. split; [done|].
        intros z [->|Hz]%elem_of_cons; auto. }
    intros [-> Hl]%Hsome. exists [], x, l. split; [done|]. split; [cbn; lia|]. done.
  - intros H. specialize (IH _ H). destruct p as [p|].
    + destruct IH as (before & y & after & -> & -> & Hy & Hrest). exists (x :: before), y, after.
      split; [done|]. split; [cbn; lia|]. split; [done|]. intros z [->|Hz]%elem_of_cons; auto.
    + intros z [->|Hz]%elem_of_cons; auto.
Qed.

Lemma find_placeholder_two index arguments :
  find_placeholder index None arguments = Err () →
  ∃ before x between y after, arguments = before ++ x :: between ++ y :: after ∧
    is_placeholder x = true ∧ is_placeholder y = true.
Proof.
  revert index. induction arguments as [|x l IH]; intros index; cbn [find_placeholder]; [done|].
  destruct (is_placeholder x) eqn:Hx.
  - assert (∀ i l, find_placeholder i (Some index) l = Err () → ∃ between y after, l = between ++ y :: after ∧ is_placeholder y = true) as Hsome.
    { clear. intros i l. revert i. induction l as [|y l IH]; intros i; cbn [find_placeholder]; [done|].
      destruct (is_placeholder y) eqn:Hy; [by exists [], y, l|].
      intros H. destruct (IH _ H) as (between & z & after & -> & Hz). by exists (y :: between), z, after. }
    intros (between & y & after & -> & Hy)%Hsome. by exists [], x, between, y, after.
  - intros (before & y & between & z & after & -> & H)%IH. by exists (x :: before), y, between, z, after.
Qed.

(** ** What an exported entry says

    A line sets a key when it is the key and the value around an equals sign, with
    spaces and tabs before the key and around the sign. *)
Definition blanks (s : string) : Prop := str_forall (λ c, bool_decide (c ∈ [" "; "009"]%char)) s = true.
Definition begins (s : string) (l : list ascii) : Prop := ∃ c t, s = String c t ∧ c ∈ l.
Definition ends (s : string) (l : list ascii) : Prop := ∃ t c, s = t +:+ String c "" ∧ c ∈ l.
Definition line_sets (line key value : string) : Prop :=
  ∃ lead gap gap', line = lead +:+ key +:+ gap +:+ "=" +:+ gap' +:+ value ∧
    blanks lead ∧ blanks gap ∧ blanks gap' ∧
    key ≠ "" ∧ has_byte "=" key = false ∧ ¬ begins key [" "; "009"; "#"; "["]%char ∧
    ¬ ends key [" "; "009"]%char ∧ ¬ begins value [" "; "009"]%char.

(** The words of a list of arguments: a stretch in which no blank is outside double
    quotes and not escaped, between blanks. *)
Inductive spells : string → list string → Prop :=
  | spells_end s : blanks s → spells s []
  | spells_last w st : w ≠ "" → unbroken w false false = Some st → spells w [w]
  | spells_word w b s l : w ≠ "" → unbroken w false false = Some (false, false) → blanks b → b ≠ "" →
      spells s l → spells (w +:+ b +:+ s) (w :: l)
  | spells_skip b s l : blanks b → spells s l → spells (b +:+ s) l.

(** A word as it is after quoting: its quotes are dropped, and what follows a backslash
    stands for itself. *)
Fixpoint unquoted_bytes (escaped : bool) (s : string) : string :=
  match s with
  | "" => ""
  | String c s =>
      if escaped then String c (unquoted_bytes false s)
      else if bool_decide (c = backslash_byte) then unquoted_bytes true s
      else if bool_decide (c = quote_byte) then unquoted_bytes false s
      else String c (unquoted_bytes false s)
  end.
Definition unquoted (s : string) : string := unquoted_bytes false s.

(** The option that says which arguments are files: the number of the words before the
    one placeholder, and of those after it. *)
Inductive span_option (words : list string) : list string → Prop :=
  | span_of before placeholder after : words = before ++ placeholder :: after →
      is_placeholder placeholder = true → (∀ x, x ∈ before ++ after → is_placeholder x = false) →
      span_option words ["--desktop-file-span"; pretty (Z.of_nat (length before)) +:+ "," +:+ pretty (Z.of_nat (length after))]
  | span_none : (∀ x, x ∈ words → is_placeholder x = false) → span_option words []
  | span_several before x between y after : words = before ++ x :: between ++ y :: after →
      is_placeholder x = true → is_placeholder y = true → span_option words [].

(** A command is its first word, and the arguments after it. *)
Definition takes_command (command binary arguments : string) : Prop :=
  ∃ rest st, trim_space command = binary +:+ rest ∧ arguments = trim_space rest ∧
    unbroken binary false false = Some st ∧ (rest = "" ∨ st = (false, false) ∧ begins rest [" "; "009"]%char).

(** The value the exported entry has for a command of the publisher. *)
Definition exported_command (launcher origin command value : string) : Prop :=
  ∃ binary arguments words option first name,
    takes_command command binary arguments ∧ spells arguments words ∧ span_option words option ∧
    unquoted first = launcher ∧ unquoted name = "@" +:+ unquoted binary ∧
    spells value ([first; "run"; "--desktop-launch"; origin] ++ option ++ [name] ++
      (if bool_decide (arguments = "") then [] else "--" :: words)).

(** A line of the publisher, and the line it is exported as. *)
Record exported_line (launcher origin icon line line' : string) : Prop := {
  el_exec command : line_sets line "Exec" command →
    ∃ value, line_sets line' "Exec" value ∧ exported_command launcher origin command value;
  el_try value : line_sets line "TryExec" value → line_sets line' "TryExec" launcher;
  el_icon value : line_sets line "Icon" value → line' = (if bool_decide (icon = "") then line else "Icon=" +:+ icon);
  el_other : (∀ key value, key ∈ ["Exec"; "TryExec"; "Icon"] → ¬ line_sets line key value) → line' = line;
  el_same key value : line_sets line' key value → key ∈ ["Exec"; "TryExec"; "Icon"] → ∃ old, line_sets line key old
}.

(** *** The reader of a line *)
Lemma blank_listed c : blank c = bool_decide (c ∈ [" "; "009"]%char).
Proof. apply eq_true_iff_eq. unfold blank. rewrite orb_true_iff, !bool_decide_eq_true, !elem_of_cons, elem_of_nil. tauto. Qed.

Lemma blank_iff c : blank c = true ↔ c ∈ [" "; "009"]%char.
Proof. by rewrite blank_listed, bool_decide_eq_true. Qed.

Lemma blanks_forall s : blanks s ↔ str_forall blank s = true.
Proof. unfold blanks. split; apply str_forall_impl; intros c; by rewrite blank_listed. Qed.

Lemma begins_blank c s : begins (String c s) [" "; "009"]%char ↔ blank c = true.
Proof.
  rewrite blank_iff. split; [|intros; by exists c, s].
  by intros (c' & t & [= <- <-] & ?).
Qed.

Lemma trim_left_split s : ∃ lead, s = lead +:+ trim_left blank s ∧ blanks lead ∧ ¬ begins (trim_left blank s) [" "; "009"]%char.
Proof.
  induction s as [|c s IH]; [exists ""; split; [done|]; split; [done|]; by intros (?&?&?&?)|]. cbn [trim_left].
  destruct (blank c) eqn:E.
  - destruct IH as (lead & H1 & H2%blanks_forall & H3). exists (String c lead). split; [cbn; by f_equal|].
    split; [|done]. apply blanks_forall. cbn [str_forall]. by rewrite E.
  - exists "". split; [done|]. split; [done|]. rewrite begins_blank. congruence.
Qed.

Lemma trim_left_unique lead s : blanks lead → ¬ begins s [" "; "009"]%char → trim_left blank (lead +:+ s) = s.
Proof.
  intros Hl%blanks_forall Hs. induction lead as [|c lead IH]; cbn [str_forall String.append] in *.
  - destruct s as [|c s]; [done|]. apply trim_left_keeps, not_true_iff_false. by rewrite <-begins_blank.
  - apply andb_true_iff in Hl as [Hc Hl]. cbn [trim_left]. rewrite Hc. auto.
Qed.

Lemma ends_snoc t c s l : t +:+ String c "" = s → c ∈ l → ends s l.
Proof. intros <- Hc. by exists t, c. Qed.

Lemma ends_cons c s l : s ≠ "" → ends (String c s) l → ends s l.
Proof.
  intros Hs (t & d & E & Hd). destruct t as [|x t].
  - injection E as _ ->. done.
  - injection E as _ ->. by exists t, d.
Qed.

Lemma ends_one c l : ends (String c "") l → c ∈ l.
Proof. intros ([|x t] & d & E & Hd); [by injection E as ->|]. injection E as _ E. by destruct t. Qed.

Lemma trim_right_split s : ∃ tail, s = trim_right blank s +:+ tail ∧ blanks tail ∧ ¬ ends (trim_right blank s) [" "; "009"]%char.
Proof.
  induction s as [|c s (tail & H1 & H2 & H3)]; [exists ""; split; [done|]; split; [done|]; by intros ([]&?&?&?)|].
  cbn [trim_right]. destruct (decide (trim_right blank s = "")) as [Et|Et].
  - rewrite Et in H1 |- *. cbn in H1. subst tail. rewrite bool_decide_true by done. destruct (blank c) eqn:E; cbn.
    + exists (String c s). split; [done|]. split; [|by intros ([]&?&?&?)].
      apply blanks_forall. apply blanks_forall in H2. cbn [str_forall]. by rewrite E.
    + exists s. split; [done|]. split; [done|]. intros Hc%ends_one%blank_iff. congruence.
  - rewrite bool_decide_false by done. exists tail. cbn. split; [by f_equal|]. split; [done|].
    intros H. by apply ends_cons in H.
Qed.

Lemma trim_right_blanks s : blanks s → trim_right blank s = "".
Proof.
  intros H%blanks_forall. induction s as [|c s IH]; [done|]. cbn [str_forall trim_right] in *.
  apply andb_true_iff in H as [Hc H]. by rewrite IH, Hc.
Qed.

Lemma trim_right_unique s tail : blanks tail → ¬ ends s [" "; "009"]%char → trim_right blank (s +:+ tail) = s.
Proof.
  intros Ht. induction s as [|c s IH]; intros Hs; [by apply trim_right_blanks|]. cbn [String.append trim_right].
  destruct (decide (s = "")) as [->|Hne].
  - cbn. rewrite trim_right_blanks by done. cbn. destruct (blank c) eqn:E; [|done].
    destruct Hs. exists "", c. split; [done|]. by apply blank_iff.
  - rewrite IH; [by rewrite bool_decide_false|]. intros (t & d & -> & Hd). apply Hs. by exists (String c t), d.
Qed.

(** A line is read as what it sets, and as nothing else. *)
Lemma key_line_sets line key value : desktopEntryKey line = Some (key, value) ↔ line_sets line key value.
Proof.
  unfold desktopEntryKey, line_sets. split.
  - destruct (trim_left_split line) as (lead & Hl & Hb & Hs). set (t := trim_left blank line) in *.
    destruct (bool_decide (t = "") || _ || _) eqn:E; [done|].
    apply orb_false_iff in E as [[_ E1]%orb_false_iff E2]. pose proof (cut_spec "=" t) as Hc.
    destruct (cut "=" t) as [name [rest|]]; [|done]. destruct Hc as [Ht Hname].
    case_bool_decide as Hk; [done|]. intros [= <- <-].
    destruct (trim_right_split name) as (gap & Hn & Hg & Hne).
    destruct (trim_left_split rest) as (gap' & Hr & Hg' & Hv).
    exists lead, gap, gap'. split.
    { rewrite Hl at 1. rewrite Ht at 1. rewrite Hn at 1. rewrite Hr at 1. by rewrite !app_assoc_str. }
    split_and!; try done.
    + rewrite Hn, has_byte_app in Hname. by apply orb_false_iff in Hname as [? _].
    + intros (c & u & Hcu & Hin). rewrite Hn, Hcu in Ht.
      assert (t = String c (u +:+ gap +:+ String "=" rest)) as Et by (rewrite Ht; cbn; by rewrite !app_assoc_str).
      apply elem_of_app with (l1 := [" "; "009"]%char) (l2 := ["#"; "["]%char) in Hin as [Hin|Hin].
      * apply Hs. rewrite Et. by eexists _, _.
      * rewrite Et in E1, E2. apply elem_of_cons in Hin as [->|Hin%list_elem_of_singleton].
        -- pose proof (has_prefix_app "#" (u +:+ gap +:+ String "=" rest)) as Hp. cbn [String.append] in Hp. congruence.
        -- subst c. pose proof (has_prefix_app "[" (u +:+ gap +:+ String "=" rest)) as Hp. cbn [String.append] in Hp. congruence.
  - intros (lead & gap & gap' & -> & Hb & Hg & Hg' & Hne & Heq & Hbeg & Hend & Hv).
    destruct key as [|c key]; [done|].
    assert (c ∉ [" "; "009"; "#"; "["]%char) as Hno.
    { intros Hc. apply Hbeg. by exists c, key. }
    change [" "; "009"; "#"; "["]%char with ([" "; "009"] ++ ["#"; "["])%char in Hno.
    apply not_elem_of_app in Hno as [Hno1 Hno2]. apply not_elem_of_cons in Hno2 as [Hh Hno2].
    apply not_elem_of_cons in Hno2 as [Hs _].
    rewrite trim_left_unique; [|done|].
    2:{ by intros (x & u & [= <- _] & Hin). }
    cbn [String.append]. rewrite bool_decide_false by done. cbn [orb].
    assert (has_prefix "#" (String c (key +:+ gap +:+ String "=" (gap' +:+ value))) = false) as ->.
    { apply not_true_iff_false. by intros (u & [= -> _])%has_prefix_iff. }
    assert (has_prefix "[" (String c (key +:+ gap +:+ String "=" (gap' +:+ value))) = false) as ->.
    { apply not_true_iff_false. by intros (u & [= -> _])%has_prefix_iff. }
    cbn [orb]. assert (has_byte "=" gap = false) as Hgap.
    { clear -Hg. apply blanks_forall in Hg. induction gap as [|d gap IH]; [done|]. cbn [str_forall] in Hg.
      apply andb_true_iff in Hg as [Hd Hg]. rewrite has_byte_cons, IH by done. rewrite orb_false_r.
      apply bool_decide_eq_false. intros ->. discriminate Hd. }
    change (String c (key +:+ gap +:+ String "=" (gap' +:+ value))) with ((String c key) +:+ gap +:+ String "=" (gap' +:+ value)).
    rewrite <-app_assoc_str, cut_some by (rewrite has_byte_app, Heq; done).
    rewrite trim_right_unique, bool_decide_false by done. by rewrite trim_left_unique.
Qed.

(** *** The scanner of the words *)
Lemma split_spells s token quoted escaped :
  unbroken token false false = Some (quoted, escaped) →
  spells (token +:+ s) (split_arguments s token quoted escaped).
Proof.
  revert token quoted escaped. induction s as [|c s IH]; intros token quoted escaped Hu; cbn [split_arguments].
  { rewrite app_nil_str. case_bool_decide as H; [subst token; by apply spells_end|]. by eapply spells_last. }
  assert (∀ st, unbroken (String c "") quoted escaped = Some st →
    spells (token +:+ String c s) (split_arguments s (token +:+ String c "") st.1 st.2)) as Hlonger.
  { intros [q e] Hst. replace (token +:+ String c s) with ((token +:+ String c "") +:+ s) by (by rewrite app_assoc_str).
    apply IH. by rewrite unbroken_app, Hu. }
  cbn [unbroken] in Hlonger.
  destruct escaped; [by apply (Hlonger (quoted, false))|].
  destruct (bool_decide (c = backslash_byte)); [by apply (Hlonger (quoted, true))|].
  destruct (bool_decide (c = quote_byte)); [by apply (Hlonger (negb quoted, false))|].
  destruct (blank c && negb quoted) eqn:Eb; [|by apply (Hlonger (quoted, false))].
  apply andb_true_iff in Eb as [Hb Hq]. apply negb_true_iff in Hq as ->.
  assert (blanks (String c "")) as Hbs by (apply blanks_forall; cbn; by rewrite Hb).
  specialize (IH "" false false eq_refl). change ("" +:+ s) with s in IH.
  change (String c s) with (String c "" +:+ s). case_bool_decide as Ht.
  - subst token. cbn [app]. by apply (spells_skip (String c "")).
  - cbn [app]. by apply (spells_word token (String c "")).
Qed.

Lemma arguments_spelt s : spells s (splitDesktopArguments s).
Proof. by apply (split_spells s ""). Qed.

(** *** Quoting *)
Lemma unquoted_escaped s t : unquoted (escape_bytes s +:+ t) = s +:+ unquoted t.
Proof.
  unfold unquoted. induction s as [|c s IH]; [done|]. cbn [escape_bytes String.append].
  destruct (escaped_byte c) eqn:E; cbn [String.append unquoted_bytes].
  - change (bool_decide (backslash_byte = backslash_byte)) with true. cbv iota. by rewrite IH.
  - unfold escaped_byte in E. bools_in E. rewrite !bool_decide_false by tauto. by rewrite IH.
Qed.

Lemma unquoted_plain s : str_forall (λ c, negb (special_byte c)) s = true → unquoted s = s.
Proof.
  unfold unquoted. induction s as [|c s IH]; [done|]. cbn [str_forall unquoted_bytes]. intros [Hc Hs]%andb_true_iff.
  apply negb_true_iff in Hc. unfold special_byte in Hc. bools_in Hc. rewrite !bool_decide_false by tauto. by rewrite IH.
Qed.

(** The quoted launcher is the launcher. *)
Lemma unquoted_argument value : unquoted (desktopExecArgument value) = value.
Proof.
  unfold desktopExecArgument. destruct (str_exists special_byte value) eqn:E; cbn [negb].
  - change (unquoted (escape_bytes value +:+ String quote_byte "") = value).
    rewrite unquoted_escaped. change (unquoted (String quote_byte "")) with "". apply app_nil_str.
  - by apply unquoted_plain, str_exists_none.
Qed.

(** The mark goes inside the quotes of the binary. *)
Lemma unquoted_mark binary : unquoted (mark_binary binary) = "@" +:+ unquoted binary.
Proof.
  destruct binary as [|c s]; [done|]. unfold mark_binary. case_bool_decide as Hc; [by subst c|done].
Qed.

(** *** The parts of a command *)
Lemma command_end_rest s quoted escaped :
  let rest := str_drop (command_end s quoted escaped) s in rest = "" ∨ begins rest [" "; "009"]%char.
Proof.
  revert quoted escaped. induction s as [|c s IH]; intros quoted escaped; [by left|]. cbn [command_end].
  repeat case_match; try apply IH. right. cbn. apply begins_blank.
  match goal with H : blank c && _ = true |- _ => by apply andb_true_iff in H as [? _] end.
Qed.

Lemma rewrite_exec_takes launcher origin command :
  ∃ binary arguments q e, takes_command command binary arguments ∧
    rewriteDesktopExec launcher origin command = "Exec=" +:+ exec_value launcher origin (mark_binary binary) arguments ∧
    unbroken binary false false = Some (q, e) ∧ (arguments = "" ∨ (q = false ∧ e = false)).
Proof.
  set (t := trim_space command). destruct (command_end_spec t false false) as (q & e & Hu & He).
  pose proof (command_end_rest t false false) as Hr. cbv zeta in He, Hr. set (n := command_end t false false) in *.
  exists (str_take n t), (trim_space (str_drop n t)), q, e. split; [|split; [|split; [done|]]].
  - exists (str_drop n t), (q, e). fold t. rewrite str_take_drop. split_and!; [done..|].
    destruct He as [He|[-> ->]]; [by left|]. destruct Hr as [Hr|Hr]; [by left|by right].
  - unfold rewriteDesktopExec. fold t. fold n. unfold exec_value, span_flag.
    destruct (countDesktopFileSpan _) as [[|]|]; reflexivity.
  - destruct He as [He|He]; [left; by rewrite He|by right].
Qed.

Lemma span_words_option arguments : span_option (splitDesktopArguments arguments) (span_words arguments).
Proof.
  unfold span_words, countDesktopFileSpan. set (words := splitDesktopArguments arguments).
  destruct (find_placeholder 0 None words) as [[p|]|[]] eqn:E.
  - apply find_placeholder_shape in E as (before & x & after & Ew & -> & Hx & Hno). cbn [plus].
    replace (Z.of_nat (length words) - Z.of_nat (length before) - 1)%Z with (Z.of_nat (length after))
      by (rewrite Ew, length_app; cbn [length]; lia).
    by eapply span_of.
  - apply find_placeholder_shape in E. by apply span_none.
  - apply find_placeholder_two in E as (before & x & between & y & after & Ew & Hx & Hy). by eapply span_several.
Qed.

Lemma exec_value_head launcher origin binary arguments :
  has_prefix "/" launcher = true → ¬ begins (exec_value launcher origin binary arguments) [" "; "009"]%char.
Proof.
  intros (c & s & E & Hc)%exec_argument_cons. unfold exec_value. rewrite E. cbn [String.append].
  rewrite begins_blank. congruence.
Qed.

(** What a command of the publisher is exported as. *)
Lemma exec_exported launcher origin command :
  has_prefix "/" launcher = true → plain_word origin = true →
  ∃ value, rewriteDesktopExec launcher origin command = "Exec=" +:+ value ∧
    ¬ begins value [" "; "009"]%char ∧ exported_command launcher origin command value.
Proof.
  intros Hl Ho. destruct (rewrite_exec_takes launcher origin command) as (binary & arguments & q & e & Ht & Hr & Hu & Ha).
  exists (exec_value launcher origin (mark_binary binary) arguments). split; [done|]. split; [by apply exec_value_head|].
  exists binary, arguments, (splitDesktopArguments arguments), (span_words arguments), (desktopExecArgument launcher), (mark_binary binary).
  split; [done|]. split; [apply arguments_spelt|]. split; [apply span_words_option|].
  split; [apply unquoted_argument|]. split; [apply unquoted_mark|].
  pose proof (arguments_spelt (exec_value launcher origin (mark_binary binary) arguments)) as Hs.
  rewrite (exec_value_words _ _ _ _ q e) in Hs; [done|done| |by apply mark_binary_token|apply mark_binary_marked|done].
  destruct (exec_argument_cons launcher Hl) as (c & s & -> & _). done.
Qed.

(** *** The lines *)
Lemma trim_left_none value : ¬ begins value [" "; "009"]%char → trim_left blank value = value.
Proof. by apply (trim_left_unique "" value). Qed.

Lemma lines_exported launcher origin icon line :
  has_prefix "/" launcher = true → plain_word origin = true →
  exported_line launcher origin icon line (export_line launcher origin icon line).
Proof.
  intros Hl Ho. unfold export_line. destruct (desktopEntryKey line) as [[k v]|] eqn:E.
  2:{ assert (∀ key value, ¬ line_sets line key value) as Hno by (intros key value H%key_line_sets; congruence).
      split; intros; try by edestruct Hno. done. }
  assert (∀ key value, line_sets line key value → key = k ∧ value = v) as Honly.
  { intros key value H%key_line_sets. rewrite E in H. by injection H as -> ->. }
  apply key_line_sets in E.
  assert (∀ rest key value, desktopEntryKey (k +:+ "=" +:+ rest) = Some (k, trim_left blank rest) →
    line_sets (k +:+ "=" +:+ rest) key value → ∃ old, line_sets line key old) as Hkeep.
  { intros rest key value Hk Hs%key_line_sets. rewrite Hk in Hs. injection Hs as -> _. by exists v. }
  assert (¬ begins launcher [" "; "009"]%char) as Hlb by (apply has_prefix_iff in Hl as (t & ->); cbn [String.append]; by rewrite begins_blank).
  case_bool_decide as H1; [|case_bool_decide as H2; [|destruct (bool_decide (k = "Icon") && _) eqn:H3]].
  - destruct (exec_exported launcher origin v Hl Ho) as (value & Hv & Hb & Hx). rewrite Hv. subst k. split.
    + intros command [_ ->]%Honly. exists value. split; [|done]. apply key_line_sets. rewrite exec_key.
      by rewrite trim_left_none.
    + intros ? [? _]%Honly. congruence.
    + intros ? [? _]%Honly. congruence.
    + intros Hno. edestruct Hno; [|exact E]. set_solver.
    + intros key val Hs _. by apply (Hkeep value key val (exec_key value)).
  - subst k. split.
    + intros ? [? _]%Honly. congruence.
    + intros _ _. apply key_line_sets. rewrite tryexec_key. by rewrite trim_left_none.
    + intros ? [? _]%Honly. congruence.
    + intros Hno. edestruct Hno; [|exact E]. set_solver.
    + intros key val Hs _. by apply (Hkeep launcher key val (tryexec_key launcher)).
  - apply andb_true_iff in H3 as [->%bool_decide_eq_true Hi]. apply negb_true_iff in Hi. split.
    + intros ? [? _]%Honly. congruence.
    + intros ? [? _]%Honly. congruence.
    + by rewrite Hi.
    + intros Hno. edestruct Hno; [|exact E]. set_solver.
    + intros key val Hs _. by apply (Hkeep icon key val (icon_key icon)).
  - split.
    + intros ? [? _]%Honly. congruence.
    + intros ? [? _]%Honly. congruence.
    + intros ? [<- _]%Honly. rewrite bool_decide_true in H3 by done. apply negb_false_iff in H3. by rewrite H3.
    + done.
    + intros key val Hs _. by exists val.
Qed.

(** C15: what the launchers of the desktop read of an exported entry.  Its lines are
    the publisher's, one for one, and each is as [exported_line] says.  A line that sets
    [Exec] - with spaces and tabs wherever they may be - becomes one that sets it to a
    command whose words are the launcher, [run --desktop-launch], the origin, the option
    that counts the arguments around the one placeholder of the publisher's when there is
    one, the publisher's binary with the mark of a binary of the application, and, after
    [--], the words the publisher wrote after it.  A line that sets [TryExec] names the
    launcher, one that sets [Icon] the exported icon when there is one; every other line
    is the publisher's, and no line sets one of the three that did not before.  Words are
    told apart by spaces and tabs outside double quotes and backslashes, and keys by
    spaces and tabs, as the code reads them: what a launcher makes of single quotes and of
    other white space is in [single_quotes_swallow_separator] and [form_feed_hides_exec]. *)
Theorem exported_entry_confined launcher origin icon content :
  has_prefix "/" launcher = true → has_byte newline launcher = false → plain_word origin = true →
  has_byte newline icon = false →
  Forall2 (exported_line launcher origin icon) (split_byte newline content)
    (split_byte newline (export_content launcher origin icon content)).
Proof.
  intros Hl Hl' Ho Hi. rewrite export_content_lines by done. apply Forall2_fmap_r, Forall_Forall2_diag, list.Forall_forall.
  intros line _. by apply lines_exported.
Qed.

(** ** Which arguments are files *)
Lemma atoi_count (n : nat) : (Z.of_nat n < 2 ^ 63)%Z → parse_count (pretty (Z.of_nat n)) = Some (Z.of_nat n).
Proof.
  intros H. unfold parse_count. rewrite atoi_pretty by lia. simpl. by rewrite (proj2 (Z.ltb_ge _ _)) by lia.
Qed.

Lemma pretty_lacks_comma (z : Z) : has_byte "," (pretty z) = false.
Proof.
  destruct (pretty_numeric z) as [H _]. unfold has_byte, str_exists. apply negb_false_iff.
  eapply str_forall_impl, H. intros c Hc. apply negb_true_iff, bool_decide_eq_false. by intros ->.
Qed.

(** The arguments of a launch after the launcher put [files] where the one placeholder
    was. *)
Definition launched (arguments files : list string) : list (bool * string) :=
  arguments ≫= λ x, if is_placeholder x then (λ f, (true, f)) <$> files else [(false, x)].

Definition chosen (span : desktopFileSpan) (arguments : list string) : list (bool * string) :=
  imap (λ i x, (selects_argument span (Z.of_nat i) (Z.of_nat (length arguments)), x)) arguments.

Lemma launched_text before files :
  (∀ x, x ∈ before → is_placeholder x = false) → launched before files = (λ x, (false, x)) <$> before.
Proof.
  unfold launched. induction before as [|x l IH]; intros H; [done|]. cbn.
  rewrite (H x) by apply list_elem_of_here. cbn. f_equal. apply IH. intros y Hy. apply H. by apply list_elem_of_further.
Qed.

Lemma launched_split before placeholder after files :
  is_placeholder placeholder = true → (∀ y, y ∈ before ++ after → is_placeholder y = false) →
  launched (before ++ placeholder :: after) files =
    ((λ x, (false, x)) <$> before) ++ ((λ x, (true, x)) <$> files) ++ ((λ x, (false, x)) <$> after).
Proof.
  intros Hp Hno. unfold launched. rewrite bind_app, bind_cons, Hp. fold (launched before files) (launched after files).
  rewrite !launched_text; [done|..]; intros x Hx; apply Hno, elem_of_app; auto.
Qed.

Lemma imap_marks (b : bool) (f : nat → bool) (l : list string) :
  (∀ i, i < length l → f i = b) → imap (λ i x, (f i, x)) l = (λ x, (b, x)) <$> l.
Proof.
  intros H. apply list_eq. intros i. rewrite list_lookup_imap, list_lookup_fmap.
  destruct (l !! i) eqn:E; cbn; [|done]. by rewrite H by (eapply lookup_lt_Some, E).
Qed.

(** The arguments a span marks are those in the middle. *)
Lemma chosen_split before files after :
  chosen (mkSpan (Z.of_nat (length before)) (Z.of_nat (length after))) (before ++ files ++ after) =
    ((λ x, (false, x)) <$> before) ++ ((λ x, (true, x)) <$> files) ++ ((λ x, (false, x)) <$> after).
Proof.
  unfold chosen. rewrite !imap_app, !length_app. unfold compose.
  rewrite (imap_marks false), (imap_marks true), (imap_marks false); [done|..]; intros i Hi; unfold selects_argument; cbn [sp_Before sp_After].
  - case_if; [done|]. bools_all. right. lia.
  - case_if; bools_all; lia.
  - case_if; [done|]. bools_all. left. lia.
Qed.

(** The files of a menu launch.  The span counted when an entry is exported reads
    back from the flag, and whatever files the launcher puts where the placeholder
    was, it marks exactly those arguments and none the publisher wrote; no span is
    counted for arguments without a placeholder, nor for arguments with two. *)
Theorem span_marks_files arguments files :
  (Z.of_nat (length arguments) < 2 ^ 63)%Z →
  match countDesktopFileSpan arguments with
  | Ok (Some span) =>
      parseDesktopFileSpan (span_string span) = Some span ∧
      chosen span (launched arguments files).*2 = launched arguments files
  | Ok None => ∀ x, x ∈ arguments → is_placeholder x = false
  | Err _ => ∃ before x between y after, arguments = before ++ x :: between ++ y :: after ∧
      is_placeholder x = true ∧ is_placeholder y = true
  end.
Proof.
  intros Hlen. unfold countDesktopFileSpan. destruct (find_placeholder 0 None arguments) as [[p|]|[]] eqn:E.
  - apply find_placeholder_shape in E as (before & x & after & -> & -> & Hx & Hno).
    rewrite length_app in *. cbn [length plus] in *.
    replace (Z.of_nat (length before + S (length after)) - Z.of_nat (length before) - 1)%Z with (Z.of_nat (length after)) by lia.
    split.
    + unfold parseDesktopFileSpan, span_string. cbn [sp_Before sp_After].
      change ("," +:+ pretty (Z.of_nat (length after))) with (String "," (pretty (Z.of_nat (length after)))).
      rewrite cut_some; [by rewrite !atoi_count by lia|].
      apply pretty_lacks_comma.
    + rewrite launched_split by done. rewrite !fmap_app, <- !list_fmap_compose. unfold compose. cbn [snd].
      rewrite !list_fmap_id. apply chosen_split.
  - by apply find_placeholder_shape in E.
  - by eapply find_placeholder_two.
Qed.

(** ** The words of a shell command *)

(** The fields of a simple command, by the quoting rules of the shell: what is between
    single quotes stands for itself, a backslash quotes one byte, blanks separate,
    and the last word may be the arguments of the script.  A byte with another meaning
    outside quotes is no such command. *)
Definition shell_safe (c : ascii) : bool :=
  let n := byte c in
  (((48 <=? n) && (n <=? 57)) || ((65 <=? n) && (n <=? 90)) || ((97 <=? n) && (n <=? 122)))%N ||
  bool_decide (c ∈ ["/"; "."; "-"; "_"; "@"; ","; ":"; "+"]%char).
Definition flush (word : option string) : list string := option_list word.
Fixpoint shell_fields (args : list string) (s : string) (word : option string) (quoted : bool) : option (list string) :=
  let longer c := Some (default "" word +:+ String c "") in
  if negb quoted && bool_decide (word = None) && bool_decide (s = all_arguments) then Some args
  else match s with
  | "" => if quoted then None else Some (flush word)
  | String c rest =>
      if quoted then
        if bool_decide (c = "'"%char) then shell_fields args rest word false
        else shell_fields args rest (longer c) true
      else if bool_decide (c = "'"%char) then shell_fields args rest (Some (default "" word)) true
      else if bool_decide (c = backslash_byte) then
        match rest with
        | String d rest => if bool_decide (d = newline) then None else shell_fields args rest (longer d) false
        | "" => None
        end
      else if blank c then (λ l, flush word ++ l) <$> shell_fields args rest None false
      else if shell_safe c then shell_fields args rest (longer c) false
      else None
  end.
Definition shell_words (args : list string) (s : string) : option (list string) := shell_fields args s None false.

Lemma fields_inside args c s word :
  shell_fields args (String c s) word true =
    if bool_decide (c = "'"%char) then shell_fields args s word false
    else shell_fields args s (Some (default "" word +:+ String c "")) true.
Proof. reflexivity. Qed.

Lemma fields_begun args c s w :
  shell_fields args (String c s) (Some w) false =
    if bool_decide (c = "'"%char) then shell_fields args s (Some w) true
    else if bool_decide (c = backslash_byte) then
      match s with
      | String d s => if bool_decide (d = newline) then None else shell_fields args s (Some (w +:+ String d "")) false
      | "" => None
      end
    else if blank c then (λ l, w :: l) <$> shell_fields args s None false
    else if shell_safe c then shell_fields args s (Some (w +:+ String c "")) false
    else None.
Proof. reflexivity. Qed.

Lemma replace_quote c s :
  replace_all "'" "'\''" (String c s) =
    (if bool_decide (c = "'"%char) then "'\''" else String c "") +:+ replace_all "'" "'\''" s.
Proof.
  unfold replace_all. cbn [replace_from]. unfold has_prefix. cbn [String.prefix].
  case_bool_decide as Hc.
  - subst. destruct s; reflexivity.
  - destruct (ascii_dec "'" c) as [<-|_]; done.
Qed.

(** A quoted value reads as the value, whatever its bytes. *)
Lemma literal_fields args value t w :
  shell_fields args (replace_all "'" "'\''" value +:+ "'" +:+ t) (Some w) true = shell_fields args t (Some (w +:+ value)) false.
Proof.
  revert w. induction value as [|c s IH]; intros w.
  - change (replace_all "'" "'\''" "" +:+ "'" +:+ t) with (String "'" t). rewrite fields_inside.
    by rewrite bool_decide_eq_true_2, app_nil_str.
  - rewrite replace_quote, app_assoc_str.
    assert (w +:+ String c s = (w +:+ String c "") +:+ s) as -> by (by rewrite app_assoc_str).
    case_bool_decide as Hc.
    + subst c. change ("'\''" +:+ ?x) with (String "'" (String "\" (String "'" (String "'" x)))).
      rewrite fields_inside, bool_decide_eq_true_2 by done. rewrite fields_begun, bool_decide_eq_false_2 by done.
      rewrite bool_decide_eq_true_2 by done. rewrite bool_decide_eq_false_2 by done.
      rewrite fields_begun, bool_decide_eq_true_2 by done. apply IH.
    + change (String c "" +:+ ?x) with (String c x). rewrite fields_inside, bool_decide_eq_false_2 by done. apply IH.
Qed.

Lemma literal_word args value t :
  shell_fields args (shellLiteral value +:+ " " +:+ t) None false = (λ l, value :: l) <$> shell_fields args t None false.
Proof.
  unfold shellLiteral. rewrite !app_assoc_str.
  change ("'" +:+ ?x) with (String "'" x) at 1.
  assert (∀ x, shell_fields args (String "'" x) None false = shell_fields args x (Some "") true) as -> by done.
  rewrite literal_fields. change (" " +:+ t) with (String " " t). by rewrite fields_begun.
Qed.

Lemma safe_fields args s t w :
  str_forall shell_safe s = true →
  shell_fields args (s +:+ " " +:+ t) (Some w) false = (λ l, (w +:+ s) :: l) <$> shell_fields args t None false.
Proof.
  revert w. induction s as [|c s IH]; intros w; cbn [str_forall].
  - intros _. rewrite app_nil_str. reflexivity.
  - intros [Hc Hs]%andb_true_iff. cbn [String.append]. rewrite fields_begun.
    assert (c ≠ "'"%char ∧ c ≠ backslash_byte ∧ blank c = false) as (H1 & H2 & H3).
    { split; [|split]; [by intros ->..|]. unfold blank. bools. split; by intros ->. }
    rewrite !bool_decide_eq_false_2, H3, Hc by done. rewrite IH by done. by rewrite app_assoc_str.
Qed.

Lemma safe_word args s t :
  s ≠ "" → str_forall shell_safe s = true →
  shell_fields args (s +:+ " " +:+ t) None false = (λ l, s :: l) <$> shell_fields args t None false.
Proof.
  destruct s as [|c s]; [done|]. intros _. cbn [str_forall]. intros [Hc Hs]%andb_true_iff.
  assert (c ≠ "'"%char ∧ c ≠ backslash_byte ∧ blank c = false ∧ c ≠ quote_byte) as (H1 & H2 & H3 & H4).
  { repeat split; [by intros ->..| |by intros ->]. unfold blank. bools. split; by intros ->. }
  cbn [String.append shell_fields].
  rewrite (bool_decide_eq_false_2 (String c _ = all_arguments)) by (by intros [=]).
  rewrite !(bool_decide_eq_false_2 (c = _)), H3, Hc by done. cbn [negb andb default]. 
  rewrite bool_decide_eq_true_2 by done. cbn [andb].
  exact (safe_fields args s t (String c "") Hs).
Qed.

(** C36: The wrapper of a binary.  Whatever its arguments are, the shell runs the
    launcher with [run], the origin of the application, the binary with its mark and
    [--], each the word the code means it to be whatever bytes the manifest put in it,
    followed by the arguments of the wrapper, as long as the path of the launcher
    itself needs no quotes. *)
Theorem wrapper_runs_binary launcher origin binary args :
  launcher ≠ "" → str_forall shell_safe launcher = true →
  shell_words args (export_command launcher origin binary) =
    Some (["exec"; launcher; "run"; origin; "@" +:+ binary; "--"] ++ args).
Proof.
  intros Hl Hs. unfold shell_words, export_command.
  change ("exec " +:+ ?x) with ("exec" +:+ " " +:+ x). rewrite safe_word by done.
  change (" run " +:+ ?x) with (" " +:+ "run" +:+ " " +:+ x). rewrite safe_word by done. rewrite safe_word by done.
  rewrite literal_word. change (" -- " +:+ ?x) with (" " +:+ "--" +:+ " " +:+ x). rewrite literal_word, safe_word by done.
  reflexivity.
Qed.

(** The launcher is not quoted: a path with a blank is two words. *)
Lemma launcher_unquoted :
  shell_words [] (export_command "/opt/my tools/cpak" "acme.org/editor" "edit") =
    Some ["exec"; "/opt/my"; "tools/cpak"; "run"; "acme.org/editor"; "@edit"; "--"].
Proof. vm_compute. reflexivity. Qed.

(** ** Trimming the ends of a line *)
Lemma decode_snoc a s c :
  ascii_byte c = true → decode_rune (String a s +:+ String c "") = decode_rune (String a s).
Proof.
  unfold ascii_byte. intros Hc%N.ltb_lt.
  destruct s as [|b [|d [|e s]]]; cbn [String.append decode_rune]; repeat case_match; try done; exfalso;
    unfold within in *; bools_all; lia.
Qed.

Lemma str_take_app_short w s t : w ≤ slen s → str_take w (s +:+ t) = str_take w s ∧ str_drop w (s +:+ t) = str_drop w s +:+ t.
Proof.
  revert s. induction w as [|w IH]; intros [|c s]; unfold slen; cbn; intros Hw; [done..|lia|].
  destruct (IH s) as [-> ->]; [unfold slen; lia|done].
Qed.

Lemma runes_one c : ascii_byte c = true → runes (String c "") = [(byte c, String c "")].
Proof. intros Hc. rewrite runes_ascii; [done|]. cbn [str_forall]. by rewrite Hc. Qed.

Lemma runes_snoc s c : ascii_byte c = true → runes (s +:+ String c "") = runes s ++ [(byte c, String c "")].
Proof.
  intros Hc. induction s as [s IH] using (induction_ltof1 _ slen). unfold ltof in IH.
  destruct s as [|a s]; [by apply runes_one|].
  pose proof (runes_cons a s) as H1. pose proof (runes_cons a (s +:+ String c "")) as H2.
  change (String a (s +:+ String c "")) with (String a s +:+ String c "") in H2.
  rewrite decode_snoc in H2 by done. pose proof (decode_width a s) as Hw. cbn zeta in Hw.
  destruct (decode_rune (String a s)) as [r w]. cbn [snd] in Hw.
  destruct (str_take_app_short w (String a s) (String c "")) as [E1 E2]; [lia|].
  rewrite H2, H1, E1, E2. cbn [app]. f_equal. apply IH.
  rewrite <- (str_take_drop w (String a s)) at 2. rewrite slen_app, slen_take. lia.
Qed.

Lemma drop_spaces_snoc_space l x :
  is_space x.1 = true → drop_spaces (l ++ [x]) = match drop_spaces l with [] => [] | l' => l' ++ [x] end.
Proof.
  intros Hx. induction l as [|y l IH]; cbn [app drop_spaces]; [by rewrite Hx|].
  destruct (is_space y.1); [exact IH|done].
Qed.

Lemma drop_spaces_snoc_keep l x : is_space x.1 = false → drop_spaces (l ++ [x]) = drop_spaces l ++ [x].
Proof.
  intros Hx. induction l as [|y l IH]; cbn [app drop_spaces]; [by rewrite Hx|].
  destruct (is_space y.1); [exact IH|done].
Qed.

(** A space at the end of a line is trimmed with the rest. *)
Lemma trim_space_snoc s c : ascii_byte c = true → is_space (byte c) = true → trim_space (s +:+ String c "") = trim_space s.
Proof.
  intros Hc Hs. unfold trim_space. rewrite runes_snoc by done. rewrite drop_spaces_snoc_space by done.
  destruct (drop_spaces (runes s)) as [|y l]; [done|]. rewrite reverse_app.
  change (drop_spaces (reverse [(byte c, String c "")] ++ reverse (y :: l)))
    with (if is_space (byte c) then drop_spaces (reverse (y :: l)) else (byte c, String c "") :: reverse (y :: l)).
  by rewrite Hs.
Qed.

(** A line that starts with no space keeps its first byte. *)
Lemma trim_space_head c s :
  ascii_byte c = true → is_space (byte c) = false → ∃ t, trim_space (String c s) = String c t.
Proof.
  intros Hc Hs. unfold trim_space. pose proof (runes_cons c s) as H. rewrite decode_low in H by done.
  cbn [str_take str_drop] in H. rewrite H. cbn [drop_spaces fst]. rewrite Hs.
  rewrite reverse_cons, drop_spaces_snoc_keep by done. rewrite reverse_app.
  eexists. cbn [reverse rev_append app]. reflexivity.
Qed.

(** ** Entries of the host *)

(** The keys set in the group of the entry, in order. *)
Fixpoint group_pairs (inside : bool) (lines : list string) : list (string * string) :=
  match lines with
  | [] => []
  | line :: lines =>
      let trimmed := trim_space line in
      if has_prefix "[" trimmed then group_pairs (bool_decide (trimmed = "[Desktop Entry]")) lines
      else (if inside then option_list (desktopEntryKey line) else []) ++ group_pairs inside lines
  end.
Definition entry_pairs (content : string) : list (string * string) := group_pairs false (split_byte newline content).

(** A line that starts with a letter opens no group. *)
Lemma no_header c s : graphic c = true → c ≠ "["%char → has_prefix "[" (trim_space (String c s)) = false.
Proof.
  intros Hg Hc. apply graphic_not_space in Hg as [Ha Hs]. destruct (trim_space_head c s Ha Hs) as (t & ->).
  unfold has_prefix. cbn [String.prefix]. destruct (ascii_dec "[" c); [congruence|done].
Qed.

(** What a sanitized entry may say. *)
Definition sanitized (launch : string) (pair : string * string) : Prop :=
  (pair.1 = "Exec" → pair.2 = launch) ∧ pair.1 ∉ ["TryExec"; "Actions"] ∧ (pair.1 = "DBusActivatable" → pair.2 = "false").

Lemma sanitized_exec launch : sanitized launch ("Exec", launch).
Proof. split; [done|]. split; [|done]. cbn. by apply (bool_decide_unpack _). Qed.

Lemma sanitized_other launch key value :
  key ≠ "Exec" → key ∉ ["TryExec"; "Actions"; "DBusActivatable"] → sanitized launch (key, value).
Proof.
  intros H1 H2. split; [done|]. cbn [fst snd]. rewrite !not_elem_of_cons in *. split; [tauto|]. intros ->. tauto.
Qed.

Lemma icon_sanitized launch value : sanitized launch ("Icon", value).
Proof. apply sanitized_other; [done|by apply (bool_decide_unpack _)]. Qed.

Lemma group_pairs_line launch inside line lines :
  (inside = true → ∀ pair, desktopEntryKey line = Some pair → sanitized launch pair) →
  Forall (sanitized launch) (group_pairs (if has_prefix "[" (trim_space line) then bool_decide (trim_space line = "[Desktop Entry]") else inside) lines) →
  Forall (sanitized launch) (group_pairs inside (line :: lines)).
Proof.
  intros Hl H. cbn [group_pairs]. destruct (has_prefix "[" (trim_space line)); [exact H|].
  apply Forall_app. split; [|exact H]. destruct inside; [|done]. destruct (desktopEntryKey line) as [pair|]; cbn; [|done].
  apply Forall_singleton. auto.
Qed.

Lemma group_pairs_skip launch inside line lines :
  (inside = true → ∀ pair, desktopEntryKey line = Some pair → sanitized launch pair) →
  has_prefix "[" (trim_space line) = false →
  Forall (sanitized launch) (group_pairs inside lines) →
  Forall (sanitized launch) (group_pairs inside (line :: lines)).
Proof. intros Hl Hh H. apply group_pairs_line; [done|]. by rewrite Hh. Qed.

Lemma host_lines_sanitized launch icon tail lines inD foundD foundE r g c :
  (∃ ch s, launch = String ch s ∧ blank ch = false) →
  (∀ b, Forall (sanitized launch) (group_pairs b tail)) →
  host_lines (λ _, launch) icon inD foundD foundE lines = (r, g, c) →
  Forall (sanitized launch) (group_pairs inD (r ++ tail)) ∧
  (c = true → foundE = true ∨ ("Exec", launch) ∈ group_pairs inD (r ++ tail)).
Proof.
  intros Hlaunch Htail. revert inD foundD foundE r g c.
  induction lines as [|line lines IH]; intros inD foundD foundE r g c; cbn [host_lines].
  { intros [= <- <- <-]. split; [apply Htail|by left]. }
  destruct (has_prefix "[" (trim_space line)) eqn:Hh.
  - destruct (foundD && negb (bool_decide (trim_space line = "[Desktop Entry]"))) eqn:Hb.
    { intros [= <- <- <-]. split; [apply Htail|by left]. }
    destruct (host_lines _ _ _ _ _ _) as [[r' g'] c'] eqn:E. intros [= <- <- <-].
    apply IH in E as [E1 E2]. cbn [app]. cbn [group_pairs]. rewrite Hh. done.
  - destruct inD; cbn [negb].
    + destruct (desktopEntryKey line) as [[key value]|] eqn:Hk.
      2: { destruct (host_lines _ _ _ _ _ _) as [[r' g'] c'] eqn:E. intros [= <- <- <-].
           apply IH in E as [E1 E2]. cbn [app group_pairs]. rewrite Hh, Hk. done. }
      repeat case_bool_decide; destruct (host_lines _ _ _ _ _ _) as [[r' g'] c'] eqn:E; intros [= <- <- <-];
        apply IH in E as [E1 E2]; try done; cbn [app group_pairs].
      * rewrite no_header by done.
        change (String "E" (String "x" (String "e" (String "c" (String "=" launch))))) with ("Exec=" +:+ launch). rewrite exec_key. destruct Hlaunch as (ch & s & -> & Hch).
        rewrite trim_left_keeps by done. cbn [option_list app]. split; [|intros _; right; by left].
        apply Forall_cons. split; [apply sanitized_exec|done].
      * rewrite Hh, Hk. subst. split; [apply Forall_cons; split; [apply icon_sanitized|done]|]. intros Hc. destruct (E2 Hc); [by left|right; by right].
      * rewrite no_header by done.
        change (String "I" (String "c" (String "o" (String "n" (String "=" icon))))) with ("Icon=" +:+ icon). rewrite icon_key. split; [apply Forall_cons; split; [apply icon_sanitized|done]|]. intros Hc. destruct (E2 Hc); [by left|right; by right].
      * rewrite Hh, Hk. split; [apply Forall_cons; split; [by apply sanitized_other|done]|].
        intros Hc. destruct (E2 Hc); [by left|right; by right].
    + destruct foundD; cbn [negb app]; destruct (host_lines _ _ _ _ _ _) as [[r' g'] c'] eqn:E; intros [= <- <- <-];
        apply IH in E as [E1 E2]; [done|]. cbn [app group_pairs]. rewrite Hh. done.
Qed.

Lemma host_lines_lack_newline f icon inD foundD foundE lines :
  (∀ x, has_byte newline (f x) = false) → has_byte newline icon = false →
  (∀ x, x ∈ lines → has_byte newline x = false) →
  ∀ x, x ∈ (host_lines f icon inD foundD foundE lines).1.1 → has_byte newline x = false.
Proof.
  intros Hf Hi. revert inD foundD foundE. induction lines as [|line lines IH]; intros inD foundD foundE Hl x.
  { intros Hx%elem_of_nil. done. }
  assert (has_byte newline line = false) as Hline by (apply Hl; by left).
  assert (∀ inD foundD foundE kept, Forall (λ x, has_byte newline x = false) kept →
    x ∈ (let '(result, group, command) := host_lines f icon inD foundD foundE lines in (kept ++ result, group, command)).1.1 →
    has_byte newline x = false) as Hkeep.
  { intros b1 b2 b3 kept Hk. specialize (IH b1 b2 b3 ltac:(intros y Hy; apply Hl; by right) x).
    destruct (host_lines _ _ _ _ _ _) as [[r g] c]. cbn [fst] in *. rewrite elem_of_app, Forall_forall in *. intros [Hx|Hx]; auto. }
  cbn [host_lines].
  destruct (has_prefix "[" (trim_space line)).
  { destruct (foundD && _); [by intros Hx%elem_of_nil|]. apply Hkeep. by repeat constructor. }
  destruct inD; cbn [negb]; [|destruct foundD; cbn [negb]; apply Hkeep; by repeat constructor].
  destruct (desktopEntryKey line) as [[key value]|]; [|apply Hkeep; by repeat constructor].
  repeat case_bool_decide; apply Hkeep; repeat constructor; try done.
  by rewrite has_byte_app, Hf.
Qed.

Lemma join_cons sep x l : l ≠ [] → join sep (x :: l) = x +:+ sep +:+ join sep l.
Proof. by destruct l. Qed.

Lemma join_snoc sep l x : l ≠ [] → join sep (l ++ [x]) = join sep l +:+ sep +:+ x.
Proof.
  intros Hl. induction l as [|y l IH]; [done|]. cbn [app]. rewrite join_cons by (by destruct l).
  destruct l as [|z l]; [done|]. rewrite IH, (join_cons _ y) by done. by rewrite !app_assoc_str.
Qed.

(** What an application is shown of an application of the host.  Read line by
    line, the group of a sanitized entry sets the command, and every line that sets it
    sets it to the launcher that asks the broker for the entry; nothing is left of the
    keys that name another command, and the entry is never activated over the bus. *)
Theorem host_entry_confined data token icon content :
  has_byte newline token = false → has_byte newline icon = false →
  sanitizeHostDesktopEntry data token icon = Ok content →
  let launch := "/usr/local/bin/cpak-launch-app " +:+ token +:+ " %U" in
  Forall (sanitized launch) (entry_pairs content) ∧ ("Exec", launch) ∈ entry_pairs content.
Proof.
  intros Ht Hi H. cbn zeta. set (launch := "/usr/local/bin/cpak-launch-app " +:+ token +:+ " %U").
  unfold sanitizeHostDesktopEntry in H. apply bind_ok in H as (text & H & [= <-]).
  unfold rewriteHostDesktopEntry in H. fold launch in H.
  pose proof (host_lines_lack_newline (λ _, launch) icon false false false (split_byte newline data)) as Hn.
  destruct (host_lines (λ _, launch) icon false false false (split_byte newline data)) as [[r g] c] eqn:E.
  rewrite !bind_unit_ok, !check_that_ok in H. destruct H as (_ & -> & [= <-]).
  set (tail := ["DBusActivatable=false"; "X-cpak-HostApplication=true"; ""]).
  set (mark := String "X" _). change mark with ("X-cpak-HostApplication=true" +:+ String newline ""). clear mark.
  assert (join (String newline "") (r ++ ["DBusActivatable=false"; ""]) +:+ "X-cpak-HostApplication=true" +:+ String newline "" =
    join (String newline "") (r ++ tail)) as ->.
  { unfold tail. assert (∀ (a b c : string), r ++ [a; b; c] = ((r ++ [a]) ++ [b]) ++ [c] ∧ r ++ [a; b] = (r ++ [a]) ++ [b]) as H
      by (intros; by rewrite <- !app_assoc). rewrite (proj1 (H _ _ _)), (proj2 (H _ _ "")).
    rewrite (join_snoc _ (r ++ _)), (join_snoc _ ((r ++ _) ++ _)), (join_snoc _ (r ++ _)) by (by destruct r).
    by rewrite !app_assoc_str. }
  unfold entry_pairs. rewrite split_join.
  - apply (host_lines_sanitized launch icon tail) in E as [E1 E2].
    + split; [exact E1|]. destruct (E2 eq_refl); done.
    + by eexists _, _.
    + intros b. apply group_pairs_skip; [|done|apply group_pairs_skip; [|done|apply group_pairs_skip; [done|done|done]]].
      * intros _ pair [= <-]. split; [done|]. split; [by apply (bool_decide_unpack _)|done].
      * intros _ pair [= <-]. apply sanitized_other; [done|by apply (bool_decide_unpack _)].
  - by destruct r.
  - intros x. rewrite elem_of_app. intros [Hx|Hx].
    + eapply Hn; [|done| |exact Hx].
      * intros _. unfold launch. by rewrite !has_byte_app, Ht.
      * intros y Hy. by eapply split_byte_no_sep.
    + unfold tail in Hx. rewrite !elem_of_cons, elem_of_nil in Hx. by destruct Hx as [->|[->|[->|[]]]].
Qed.

(** ** Examples *)
Definition demo_entry : string :=
  join (String newline "") ["[Desktop Entry]"; "Name=Demo"; " Exec = demo --open %U"; "TryExec=demo"; "Icon=demo"; "[Desktop Action new]"; "Exec=demo --new"].

Example demo_exported :
  split_byte newline (export_content "/usr/bin/cpak" "acme.org/demo" "/icons/demo.png" demo_entry) =
  ["[Desktop Entry]"; "Name=Demo"; "Exec=/usr/bin/cpak run --desktop-launch acme.org/demo --desktop-file-span 1,0 @demo -- --open %U";
   "TryExec=/usr/bin/cpak"; "Icon=/icons/demo.png"; "[Desktop Action new]";
   "Exec=/usr/bin/cpak run --desktop-launch acme.org/demo @demo -- --new"].
Proof. vm_compute. reflexivity. Qed.

Example repaired :
  repairDesktopLauncher "Exec=cpak run acme.org/demo @demo -- @@cpak:file-grant:start@@ %f @@cpak:file-grant:end@@" "/usr/bin/cpak" =
  "Exec=/usr/bin/cpak run --desktop-launch acme.org/demo --desktop-file-span 0,0 @demo -- %f".
Proof. vm_compute. reflexivity. Qed.

Lemma exported_entry_confined_witness :
  exported_line "/usr/bin/cpak" "acme.org/demo" "/icons/demo.png" " Exec = demo --open %U"
    "Exec=/usr/bin/cpak run --desktop-launch acme.org/demo --desktop-file-span 1,0 @demo -- --open %U" ∧
  exported_line "/usr/bin/cpak" "acme.org/demo" "/icons/demo.png" "Name=Demo" "Name=Demo".
Proof.
  assert (split_byte newline (join (String newline "") [" Exec = demo --open %U"; "Name=Demo"]) =
    [" Exec = demo --open %U"; "Name=Demo"]) as Hold by (vm_compute; reflexivity).
  assert (split_byte newline (export_content "/usr/bin/cpak" "acme.org/demo" "/icons/demo.png"
      (join (String newline "") [" Exec = demo --open %U"; "Name=Demo"])) =
    ["Exec=/usr/bin/cpak run --desktop-launch acme.org/demo --desktop-file-span 1,0 @demo -- --open %U"; "Name=Demo"])
    as Hnew by (vm_compute; reflexivity).
  pose proof (exported_entry_confined "/usr/bin/cpak" "acme.org/demo" "/icons/demo.png"
    (join (String newline "") [" Exec = demo --open %U"; "Name=Demo"]) eq_refl eq_refl eq_refl eq_refl) as H.
  rewrite Hold, Hnew in H. apply list.Forall2_cons in H as [H1 [H2 _]%list.Forall2_cons]. by split.
Defined.

Lemma span_marks_files_witness :
  countDesktopFileSpan ["--open"; "%U"; "--fast"] = Ok (Some (mkSpan 1 1)) ∧
  chosen (mkSpan 1 1) ["--open"; "/a"; "/b"; "--fast"] = [(false, "--open"); (true, "/a"); (true, "/b"); (false, "--fast")].
Proof.
  split; [vm_compute; reflexivity|].
  destruct (span_marks_files ["--open"; "%U"; "--fast"] ["/a"; "/b"] ltac:(vm_compute; reflexivity)) as [_ H].
  exact H.
Defined.

Lemma wrapper_runs_binary_witness :
  shell_words ["a b"] (export_command "/usr/bin/cpak" "acme.org/demo" "it's; rm -rf") =
    Some (["exec"; "/usr/bin/cpak"; "run"; "acme.org/demo"; "@it's; rm -rf"; "--"] ++ ["a b"]).
Proof. apply wrapper_runs_binary; [done|vm_compute; reflexivity]. Defined.

Lemma host_entry_confined_witness :
  ("Exec", "/usr/local/bin/cpak-launch-app 0f %U") ∈
    entry_pairs (match sanitizeHostDesktopEntry demo_entry "0f" "" with Ok content => content | Err _ => "" end).
Proof. apply (host_entry_confined demo_entry "0f" ""); vm_compute; reflexivity. Defined.

(** ** What the scanners do not see

    A quoted word of the shell is one argument to a launcher that reads the value with
    the shell's quoting rules, single quotes included; the scanner knows double quotes
    only.  The separator ends inside such a word, and what follows it are flags of
    [cpak run] that the publisher wrote. *)
Definition swallowing_command : string := "'x y' --desktop-file-span 0,9 /home/ada".
Lemma single_quotes_swallow_separator :
  rewriteDesktopExec "/usr/bin/cpak" "acme.org/demo" swallowing_command =
    "Exec=/usr/bin/cpak run --desktop-launch acme.org/demo @'x -- y' --desktop-file-span 0,9 /home/ada" ∧
  shell_words [] (trim_prefix "Exec=" (rewriteDesktopExec "/usr/bin/cpak" "acme.org/demo" swallowing_command)) =
    Some ["/usr/bin/cpak"; "run"; "--desktop-launch"; "acme.org/demo"; "@x -- y"; "--desktop-file-span"; "0,9"; "/home/ada"].
Proof. vm_compute. done. Qed.

(** A form feed before a key is skipped by the parser of the launchers and is part of
    the key here, so that the line is left as the publisher wrote it. *)
Lemma form_feed_hides_exec launcher origin icon :
  export_content launcher origin icon (String "012" "Exec=/bin/sh") = String "012" "Exec=/bin/sh" ∧
  desktopEntryKey (String "012" "Exec=/bin/sh") = Some (String "012" "Exec", "/bin/sh").
Proof. split; reflexivity. Qed.
