(* ===== verification/DesktopAlias.v ===== *)
(** * Desktop aliases ([pkg/cpak/installer.go])

    The copy of a desktop entry under the name the package chose: the marks written into
    it, what they read back as, and which file of the user's applications directory is
    ever written or taken away. *)
From Stdlib Require Import Ascii.
From stdpp Require Import base strings list numbers.
From S2P Require Import Prelude.
From S2P Require Import GoStrings.
From S2P Require Import Utf8.
From S2P Require Import GoPath.
From S2P Require Import Override.
From S2P Require Import Applications.
From S2P Require Import OciReference.
From S2P Require Import Repository.
From S2P Require Import DesktopEntry.
From stdpp Require Import options.

#[local] Open Scope nat_scope.

(** ** The marks of an alias ([setDesktopEntryValue]) *)
Definition return_byte : string := String "013" "".

(** Where the key goes among the trimmed lines: over a line, or before one. *)
Inductive placement : Type := Over (i : nat) | Before (i : nat) | Nowhere.
#[export] Instance placement_eq_dec : EqDecision placement.
Proof. solve_decision. Defined.
Fixpoint place_key (key : string) (i : nat) (inDesktopEntry : bool) (insertAt : option nat) (lines : list string) : placement :=
  match lines with
  | [] => match insertAt with Some at_ => Before at_ | None => Nowhere end
  | line :: lines =>
      let line := trim_space line in
      if has_prefix "[" line then
        if inDesktopEntry then Before i
        else place_key key (i + 1) (bool_decide (line = "[Desktop Entry]")) insertAt lines
      else if negb inDesktopEntry then place_key key (i + 1) false insertAt lines
      else if has_prefix (key +:+ "=") line then Over i
      else place_key key (i + 1) true (Some (i + 1)) lines
  end.

Definition byte_order_mark : string := String "239" (String "187" (String "191" "")).
Definition setDesktopEntryValue (content key value : string) : string :=
  let content := trim_prefix byte_order_mark content in
  let lines := trim_suffix return_byte <$> split_byte newline content in
  match place_key key 0 false None lines with
  | Over i => join (String newline "") (<[i := key +:+ "=" +:+ value]> lines)
  | Before i => join (String newline "") (take i lines ++ (key +:+ "=" +:+ value) :: drop i lines)
  | Nowhere => content
  end.


Definition originalDesktopEntryExportPath (home name : string) : string :=
  path_join [home; ".local"; "share"; "applications"; base name].

(** ** The alias of an entry ([exportDesktopAlias], [removeDesktopAlias])

    The files of the user's applications directory, each of which holds a content,
    is missing, or cannot be read. *)
Inductive file_state : Type := Missing | Unreadable | Holds (content : string).
#[export] Instance file_state_eq_dec : EqDecision file_state.
Proof. solve_decision. Defined.
Definition files : Type := string → file_state.
Definition set_file (f : files) (path : string) (s : file_state) : files :=
  λ p, if bool_decide (p = path) then s else f p.

Inductive export_error : Type := ReadFailed | WriteFailed | RemoveFailed.

Section Alias.
Context (home XDG_DATA_DIRS : string) (exists_ : string → bool).
(** Whether a file can be written, and removed. *)
Context (writable removable : string → bool).

Definition data_directories : list string :=
  split_byte ":" (if bool_decide (XDG_DATA_DIRS = "") then "/usr/local/share:/usr/share" else XDG_DATA_DIRS).
Definition desktopEntryExistsInSystemData (name : string) : bool :=
  existsb (λ directory, has_prefix "/" directory && exists_ (path_join [directory; "applications"; base name])) data_directories.

(** The content of the alias. *)
Definition alias_content (app : Application) (content : string) : string :=
  setDesktopEntryValue
    (setDesktopEntryValue (setDesktopEntryValue content "NoDisplay" "true") "X-cpak-Origin" (ap_Origin app))
    "X-cpak-ID" (ap_CpakId app).

Definition write_alias (app : Application) (path content : string) (f : files) : result export_error () * files :=
  let content := alias_content app content in
  if negb (bool_decide (desktopEntryValue content "X-cpak-ID" = ap_CpakId app)) then (Ok (), f)
  else if writable path then (Ok (), set_file f path (Holds content)) else (Err WriteFailed, f).

Definition exportDesktopAlias (app : Application) (name content : string) (f : files) : result export_error () * files :=
  match desktopEntryExportName name with
  | Err _ => (Ok (), f)
  | Ok name =>
      let path := originalDesktopEntryExportPath home name in
      match f path with
      | Holds existing =>
          if negb (bool_decide (desktopEntryValue existing "X-cpak-Origin" = ap_Origin app)) then (Ok (), f)
          else write_alias app path content f
      | Unreadable => (Err ReadFailed, f)
      | Missing =>
          if desktopEntryExistsInSystemData name then (Ok (), f) else write_alias app path content f
      end
  end.

Definition removeDesktopAlias (app : Application) (name : string) (f : files) : result export_error () * files :=
  let path := originalDesktopEntryExportPath home name in
  match f path with
  | Missing => (Ok (), f)
  | Unreadable => (Err ReadFailed, f)
  | Holds content =>
      if negb (bool_decide (desktopEntryValue content "X-cpak-ID" = ap_CpakId app)) then (Ok (), f)
      else if removable path then (Ok (), set_file f path Missing) else (Err RemoveFailed, f)
  end.
End Alias.

(** ** Values written into an entry *)
Lemma trim_return line : trim_space (trim_suffix return_byte line) = trim_space line.
Proof.
  destruct (trim_suffix_cases return_byte line) as [[-> _]|E]; [done|].
  rewrite E at 2. symmetry. by apply trim_space_snoc.
Qed.

(** Reading looks at the trimmed lines. *)
Lemma entry_value_trimmed key b l1 l2 :
  trim_space <$> l1 = trim_space <$> l2 → entry_value key b l1 = entry_value key b l2.
Proof.
  revert b l2. induction l1 as [|x l1 IH]; intros b [|y l2]; cbn [fmap list_fmap]; [done|discriminate..|].
  intros [= Hx Hl]. cbn [entry_value]. rewrite Hx. repeat case_match; auto.
Qed.

Lemma trim_returns key b lines : entry_value key b (trim_suffix return_byte <$> lines) = entry_value key b lines.
Proof.
  apply entry_value_trimmed. rewrite <- list_fmap_compose. apply list_fmap_ext. intros i x _. apply trim_return.
Qed.

(** A key and a value that stand on a line as they are. *)
Definition written (key value : string) : Prop :=
  str_forall graphic key = true ∧ str_forall graphic value = true ∧ has_byte "=" key = false ∧ has_prefix "[" key = false.

Lemma written_line key value :
  written key value → let line := key +:+ "=" +:+ value in
  trim_space line = line ∧ trim_space value = value ∧ has_prefix "[" line = false ∧ has_prefix (key +:+ "=") line = true ∧
  trim_prefix (key +:+ "=") line = value ∧ has_byte newline line = false.
Proof.
  intros (Hk & Hv & He & Hb). cbn zeta.
  assert (∀ s, str_forall graphic s = true → has_byte newline s = false) as Hn.
  { intros s Hs. unfold has_byte, str_exists. apply negb_false_iff. eapply str_forall_impl, Hs.
    intros c Hc. apply negb_true_iff, bool_decide_eq_false. by intros ->. }
  repeat split.
  - apply trim_space_graphic. rewrite !str_forall_app, Hk, Hv. done.
  - by apply trim_space_graphic.
  - destruct key as [|c key]; [done|]. cbn [String.append has_prefix String.prefix] in *. unfold has_prefix in *.
    cbn [String.prefix] in *. destruct (ascii_dec "[" c); [|done]. by destruct key.
  - rewrite <- app_assoc_str. apply has_prefix_app.
  - rewrite <- app_assoc_str. apply trim_prefix_app.
  - rewrite !has_byte_app, (Hn key), (Hn value) by done. done.
Qed.

Lemma other_key key key' s :
  has_byte "=" key = false → has_byte "=" key' = false → key ≠ key' →
  has_prefix (key +:+ "=") s = true → has_prefix (key' +:+ "=") s = false.
Proof.
  intros Hk Hk' Hne (t & E)%has_prefix_iff. apply not_true_iff_false. intros (t' & E')%has_prefix_iff.
  apply (f_equal (cut "=")) in E, E'. rewrite !app_assoc_str in *. change ("=" +:+ ?x) with (String "=" x) in *.
  rewrite cut_some in E, E' by done. congruence.
Qed.

(** Where a value was put, and what is read after. *)
Definition placed (line : string) (p : placement) (lines : list string) : list string :=
  match p with
  | Over i => <[i := line]> lines
  | Before i => take i lines ++ line :: drop i lines
  | Nowhere => lines
  end.
Definition shift (k : nat) (p : placement) : placement :=
  match p with Over i => Over (i - k) | Before i => Before (i - k) | Nowhere => Nowhere end.
Definition at_least (k : nat) (p : placement) : Prop :=
  match p with Over i | Before i => k ≤ i | Nowhere => True end.

Lemma placed_cons line i p x lines :
  at_least (i + 1) p → placed line (shift i p) (x :: lines) = x :: placed line (shift (i + 1) p) lines.
Proof.
  destruct p as [j|j|]; cbn [at_least shift placed]; [| |done]; intros H;
    replace (j - i) with (S (j - (i + 1))) by lia; done.
Qed.

(** What a value put among the lines does to every reading. *)
Definition place_ok (key value : string) (i : nat) (b : bool) (ins : option nat) (lines : list string) (p : placement) : Prop :=
  let read key' := entry_value key' b (placed (key +:+ "=" +:+ value) (shift i p) lines) in
  at_least i p ∧ (p ≠ Nowhere → read key = value) ∧
  (∀ key', has_byte "=" key' = false → key' ≠ key → read key' = entry_value key' b lines) ∧
  (p = Nowhere → ins = None ∧ ∀ key', entry_value key' b lines = "").

(** A line that is passed: what it means to a reader stays the same. *)
Lemma place_next key value i b b' ins ins' x lines (stops : string → bool) (v : string → string) p :
  (∀ k l, entry_value k b (x :: l) = if stops k then v k else entry_value k b' l) →
  stops key = false → (ins' = None → ins = None ∧ ∀ k, stops k = false) →
  place_ok key value (i + 1) b' ins' lines p → place_ok key value i b ins (x :: lines) p.
Proof.
  intros Hstep Hkey Hstop (H1 & H2 & H3 & H4). unfold place_ok. rewrite placed_cons by done.
  split; [destruct p; cbn in *; lia|]. split; [|split].
  - intros Hp. rewrite Hstep, Hkey. auto.
  - intros key' Hk Hne. rewrite !Hstep. by rewrite H3.
  - intros Hp. destruct (H4 Hp) as [Hi Hv]. destruct (Hstop Hi) as [Hi' Hs]. split; [done|].
    intros key'. by rewrite Hstep, Hs.
Qed.

Lemma place_spec key value i b ins lines :
  written key value → (ins = None ∨ (ins = Some i ∧ b = true)) →
  place_ok key value i b ins lines (place_key key i b ins lines).
Proof.
  intros Hw. destruct (written_line key value Hw) as (Ht & Hv & Hg & Hp & Hc & _). cbn zeta in *.
  set (line := key +:+ "=" +:+ value) in *.
  assert (∀ k l, entry_value k true (line :: l) =
    if has_prefix (k +:+ "=") line then trim_space (trim_prefix (k +:+ "=") line) else entry_value k true l) as Hread.
  { intros k l. cbn [entry_value]. by rewrite Ht, Hg. }
  assert (∀ l, entry_value key true (line :: l) = value) as Hmine by (intros; by rewrite Hread, Hp, Hc).
  assert (∀ key' l, has_byte "=" key' = false → key' ≠ key → entry_value key' true (line :: l) = entry_value key' true l) as Hother.
  { intros key' l H1 H2. rewrite Hread, (other_key key key'); [done|apply Hw|done..]. }
  revert i b ins. induction lines as [|x lines IH]; intros i b ins Hins; cbn [place_key].
  { destruct Hins as [->|[-> ->]]; unfold place_ok; cbn [at_least shift placed]; [done|].
    rewrite Nat.sub_diag. cbn [take drop app]. split; [done|]. split; [intros _; apply Hmine|]. split; [intros; by rewrite Hother|done]. }
  destruct (has_prefix "[" (trim_space x)) eqn:Hx; [destruct b|destruct b; cbn [negb]].
  - unfold place_ok. cbn [at_least shift placed]. rewrite Nat.sub_diag. cbn [take drop app].
    split; [done|]. split; [intros _; apply Hmine|]. split; [intros; by rewrite Hother|done].
  - destruct Hins as [->|[_ [=]]].
    eapply (place_next _ _ _ _ (bool_decide (trim_space x = "[Desktop Entry]")) _ None _ _ (λ _, false) (λ _, "")); [|done|done|apply IH; by left].
    intros k l. cbn [entry_value]. by rewrite Hx.
  - destruct (has_prefix (key +:+ "=") (trim_space x)) eqn:Hkey.
    + unfold place_ok. cbn [at_least shift placed]. rewrite Nat.sub_diag. cbn [insert list_insert].
      split; [done|]. split; [intros _; apply Hmine|]. split; [|done].
      intros key' H1 H2. rewrite Hother by done. cbn [entry_value]. rewrite Hx.
      rewrite (other_key key key'); [done|apply Hw|done|done|done].
    + eapply (place_next _ _ _ _ true _ (Some (i + 1)) _ _ (λ k, has_prefix (k +:+ "=") (trim_space x))
        (λ k, trim_space (trim_prefix (k +:+ "=") (trim_space x)))); [|done|done|apply IH; by right].
      intros k l. cbn [entry_value]. by rewrite Hx.
  - destruct Hins as [->|[_ [=]]].
    eapply (place_next _ _ _ _ false _ None _ _ (λ _, false) (λ _, "")); [|done|done|apply IH; by left].
    intros k l. cbn [entry_value]. by rewrite Hx.
Qed.

(** The value of a key of the content after it is set, and the values of the others. *)
Lemma placed_lacks_newline line p lines :
  has_byte newline line = false → (∀ x, x ∈ lines → has_byte newline x = false) →
  ∀ x, x ∈ placed line p lines → has_byte newline x = false.
Proof.
  intros Hl H x. destruct p as [i|i|]; cbn [placed].
  - intros [j Hj]%list_elem_of_lookup. apply list_lookup_insert_Some in Hj as [(_ & <- & _)|[_ Hj]]; [done|].
    apply H. by eapply list_elem_of_lookup_2.
  - rewrite elem_of_app, elem_of_cons. intros [Hx|[->|Hx]]; [|done|]; apply H.
    + apply elem_of_take in Hx as (j & Hx & _). by eapply list_elem_of_lookup_2.
    + apply list_elem_of_lookup in Hx as (j & Hx). rewrite lookup_drop in Hx. by eapply list_elem_of_lookup_2.
  - apply H.
Qed.

Definition entry_lines (content : string) : list string := trim_suffix return_byte <$> split_byte newline content.
Definition has_group (content : string) : bool :=
  negb (bool_decide (place_key "" 0 false None (entry_lines (trim_prefix byte_order_mark content)) = Nowhere)).

Lemma place_nowhere key key' i b ins lines :
  place_key key i b ins lines = Nowhere → place_key key' i b ins lines = Nowhere.
Proof.
  revert i b ins. induction lines as [|x lines IH]; intros i b ins; cbn [place_key]; [done|].
  destruct (has_prefix "[" (trim_space x)); [destruct b; [done|apply IH]|].
  destruct b; cbn [negb]; [|apply IH].
  assert (∀ k j, place_key k j true (Some j) lines ≠ Nowhere) as Hsome.
  { clear. intros k. induction lines as [|x lines IH]; intros j; cbn [place_key negb]; [done|].
    case_match; [done|]. case_match; [done|]. apply IH. }
  intros H. exfalso. destruct (has_prefix (key +:+ "=") (trim_space x)); [done|]. by eapply Hsome.
Qed.

Lemma has_group_placed key content :
  has_group content = true ↔ place_key key 0 false None (entry_lines (trim_prefix byte_order_mark content)) ≠ Nowhere.
Proof.
  unfold has_group. rewrite negb_true_iff, bool_decide_eq_false.
  split; intros H H'; apply H; by eapply place_nowhere.
Qed.

Lemma placed_nonempty line p lines : lines ≠ [] → placed line p lines ≠ [].
Proof.
  destruct p as [i|i|]; cbn [placed]; [| |done]; intros Hl E; apply (f_equal length) in E.
  - rewrite length_insert in E. by destruct lines.
  - rewrite length_app in E. cbn in E. lia.
Qed.

(** What setting a value does, reading the result back. *)
Lemma set_value content key value :
  written key value →
  let content' := setDesktopEntryValue content key value in
  (has_group content = true → desktopEntryValue content' key = value) ∧
  (has_group content = false → content' = trim_prefix byte_order_mark content ∧ ∀ k, desktopEntryValue content' k = "") ∧
  (∀ k, has_byte "=" k = false → k ≠ key → desktopEntryValue content' k = desktopEntryValue (trim_prefix byte_order_mark content) k).
Proof.
  intros Hw. set (base := trim_prefix byte_order_mark content).
  destruct (place_spec key value 0 false None (entry_lines base) Hw) as (_ & H2 & H3 & H4); [by left|].
  destruct (written_line key value Hw) as (_ & _ & _ & _ & _ & Hn). cbn zeta in *.
  assert (∀ k, entry_value k false (entry_lines base) = desktopEntryValue base k) as Hbase by (intros k; apply trim_returns).
  pose proof (has_group_placed key content) as Hg. fold base in Hg.
  assert (∀ x, x ∈ entry_lines base → has_byte newline x = false) as Hnl.
  { intros x (y & -> & Hy)%list_elem_of_fmap. apply split_byte_no_sep in Hy.
    destruct (trim_suffix_cases return_byte y) as [[-> _]|E]; [done|]. rewrite E, has_byte_app in Hy. by bools_in Hy; destruct Hy. }
  set (p := place_key key 0 false None (entry_lines base)) in *.
  assert (p ≠ Nowhere → ∀ k, desktopEntryValue (setDesktopEntryValue content key value) k =
    entry_value k false (placed (key +:+ "=" +:+ value) (shift 0 p) (entry_lines base))) as Hset.
  { intros Hp k. unfold setDesktopEntryValue. fold base. fold (entry_lines base). fold p.
    assert (shift 0 p = p) as -> by (destruct p; cbn; by rewrite ?Nat.sub_0_r).
    assert (placed (key +:+ "=" +:+ value) p (entry_lines base) ≠ []) as Hne.
    { apply placed_nonempty. unfold entry_lines. by destruct (split_byte_cons newline base) as (h & t & ->). }
    pose proof (placed_lacks_newline _ p _ Hn Hnl) as Hlack.
    pose proof (split_join newline _ Hne Hlack) as Hsplit.
    unfold desktopEntryValue. destruct p as [i|i|]; [..|done]; cbn [placed] in Hsplit |- *; by rewrite Hsplit. }
  assert (p = Nowhere → setDesktopEntryValue content key value = base) as Hnone.
  { intros E. unfold setDesktopEntryValue. fold base. fold (entry_lines base). fold p. by rewrite E. }
  split; [|split].
  - intros Hp%Hg. rewrite Hset by done. by apply H2.
  - intros H. apply not_true_iff_false in H. rewrite Hg in H. assert (p = Nowhere) as E by (by destruct (decide (p = Nowhere))).
    split; [by apply Hnone|]. intros k. rewrite (Hnone E), <- Hbase. by apply H4.
  - intros k Hk Hne. destruct (decide (p = Nowhere)) as [E|Hp]; [by rewrite (Hnone E)|].
    rewrite Hset, H3 by done. apply Hbase.
Qed.

(** *** The mark at the start of the content *)
Lemma prefix_of_line p x t :
  has_byte newline p = false → has_prefix p (x +:+ String newline t) = has_prefix p x.
Proof.
  revert x. induction p as [|c p IH]; intros x; [by destruct x|]. rewrite has_byte_cons. bools. intros [Hc Hp].
  destruct x as [|a x]; unfold has_prefix in *; cbn [String.append String.prefix].
  - destruct (ascii_dec c newline); [congruence|done].
  - destruct (ascii_dec c a); [by apply IH|done].
Qed.

Lemma prefix_of_join p x l :
  has_byte newline p = false → has_prefix p (join (String newline "") (x :: l)) = has_prefix p x.
Proof.
  intros Hp. destruct l as [|y l]; [done|].
  change (join (String newline "") (x :: y :: l)) with (x +:+ String newline (join (String newline "") (y :: l))).
  by apply prefix_of_line.
Qed.

Lemma unmarked_trim content : has_prefix byte_order_mark content = false → trim_prefix byte_order_mark content = content.
Proof. unfold trim_prefix. by intros ->. Qed.

Lemma set_keeps_mark content key value :
  written key value → has_prefix byte_order_mark (trim_prefix byte_order_mark content) = false →
  has_prefix byte_order_mark (setDesktopEntryValue content key value) = false.
Proof.
  intros Hw Hno.
  unfold setDesktopEntryValue. set (base := trim_prefix byte_order_mark content) in *. fold (entry_lines base).
  set (line := key +:+ "=" +:+ value).
  assert (has_prefix byte_order_mark line = false) as Hline.
  { destruct Hw as (Hk & _). unfold line. destruct key as [|c key]; [done|]. cbn [str_forall] in Hk.
    apply andb_true_iff in Hk as [Hc _]. unfold has_prefix, byte_order_mark. cbn [String.append String.prefix].
    destruct (ascii_dec "239" c) as [<-|]; [vm_compute in Hc; discriminate|done]. }
  assert (∃ x l, entry_lines base = x :: l ∧ has_prefix byte_order_mark x = false) as (x & l & -> & Hx).
  { unfold entry_lines. destruct (split_byte_cons newline base) as (h & t & Ht). rewrite Ht.
    eexists _, _. split; [reflexivity|]. apply not_true_iff_false. intros Hb. apply not_true_iff_false in Hno. apply Hno.
    rewrite <- (join_split newline base), Ht, prefix_of_join by done.
    destruct (trim_suffix_cases return_byte h) as [[E _]|E]; [by rewrite <- E|].
    rewrite E. eapply has_prefix_trans, has_prefix_app. exact Hb. }
  destruct (place_key _ _ _ _ _) as [[|i]|[|i]|]; [..|done];
    cbn [insert list_insert take drop app]; rewrite prefix_of_join; done.
Qed.

(** The keys of the alias. *)
Definition alias_keys : list string := ["NoDisplay"; "X-cpak-Origin"; "X-cpak-ID"].

Lemma set_keeps_group content key value :
  written key value → has_prefix byte_order_mark (trim_prefix byte_order_mark content) = false → value ≠ "" →
  has_group content = has_group (setDesktopEntryValue content key value).
Proof.
  intros Hw Hno Hv. destruct (set_value content key value Hw) as (H1 & H2 & _).
  destruct (set_value (setDesktopEntryValue content key value) key value Hw) as (_ & H2' & _).
  destruct (has_group content) eqn:Hg.
  - symmetry. apply not_false_iff_true. intros H. destruct (H2' H) as [E Hk].
    rewrite unmarked_trim in E by (by apply set_keeps_mark). apply Hv. rewrite <- H1, <- E by done. apply Hk.
  - destruct (H2 eq_refl) as [-> _]. unfold has_group in *.
    assert (trim_prefix byte_order_mark (trim_prefix byte_order_mark content) = trim_prefix byte_order_mark content) as ->
      by (by apply unmarked_trim). by rewrite Hg.
Qed.

(** What the alias of an entry says of itself. *)
Lemma alias_marks app content :
  str_forall graphic (ap_Origin app) = true → ap_Origin app ≠ "" → str_forall graphic (ap_CpakId app) = true → ap_CpakId app ≠ "" →
  has_prefix byte_order_mark (trim_prefix byte_order_mark content) = false →
  let alias := alias_content app content in
  (has_group content = true →
     desktopEntryValue alias "NoDisplay" = "true" ∧ desktopEntryValue alias "X-cpak-Origin" = ap_Origin app ∧
     desktopEntryValue alias "X-cpak-ID" = ap_CpakId app) ∧
  (has_group content = false → desktopEntryValue alias "X-cpak-ID" = "") ∧
  (∀ key, has_byte "=" key = false → key ∉ alias_keys →
     desktopEntryValue alias key = desktopEntryValue (trim_prefix byte_order_mark content) key).
Proof.
  intros Ho Ho' Hi Hi' Hno. unfold alias_content.
  assert (written "NoDisplay" "true" ∧ written "X-cpak-Origin" (ap_Origin app) ∧ written "X-cpak-ID" (ap_CpakId app)) as (W1 & W2 & W3)
    by (repeat split; done).
  destruct (set_value content "NoDisplay" "true" W1) as (V1 & _ & K1). pose proof (set_keeps_mark content _ _ W1 Hno) as M1.
  pose proof (set_keeps_group content _ _ W1 Hno ltac:(done)) as G1. cbn zeta in *.
  set (c1 := setDesktopEntryValue content "NoDisplay" "true") in *. clearbody c1.
  assert (trim_prefix byte_order_mark c1 = c1) as T1 by (by apply unmarked_trim).
  destruct (set_value c1 "X-cpak-Origin" (ap_Origin app) W2) as (V2 & _ & K2).
  pose proof (set_keeps_mark c1 _ _ W2 ltac:(by rewrite T1)) as M2.
  pose proof (set_keeps_group c1 _ _ W2 ltac:(by rewrite T1) Ho') as G2. cbn zeta in *. rewrite T1 in K2.
  set (c2 := setDesktopEntryValue c1 "X-cpak-Origin" (ap_Origin app)) in *. clearbody c2.
  assert (trim_prefix byte_order_mark c2 = c2) as T2 by (by apply unmarked_trim).
  destruct (set_value c2 "X-cpak-ID" (ap_CpakId app) W3) as (V3 & E3 & K3). cbn zeta in *. rewrite T2 in K3.
  split; [|split].
  - intros Hg. rewrite G1 in Hg. pose proof Hg as Hg'. rewrite G2 in Hg'.
    rewrite (K3 "NoDisplay"), (K2 "NoDisplay"), (K3 "X-cpak-Origin") by done. rewrite V1, V2, V3 by congruence. done.
  - intros Hg. rewrite G1, G2 in Hg. by apply E3.
  - intros key Hk Hn. unfold alias_keys in Hn. rewrite !not_elem_of_cons in Hn. destruct Hn as (? & ? & ? & _).
    by rewrite K3, K2, K1.
Qed.

(** *** The name of an alias *)
Lemma last_index_negative c s : (last_index c s < 0)%Z → has_byte c s = false.
Proof.
  induction s as [|a s IH]; [done|]. cbn [last_index]. rewrite has_byte_cons.
  destruct (Z.leb_spec 0 (last_index c s)) as [Hi|Hi]; [lia|]. rewrite IH by done. by case_bool_decide.
Qed.

Lemma after_last_index c s : (0 ≤ last_index c s)%Z → has_byte c (after_index (last_index c s) s) = false.
Proof.
  unfold after_index. induction s as [|a s IH]; cbn [last_index]; [lia|].
  destruct (Z.leb_spec 0 (last_index c s)) as [Hi|Hi].
  - intros _. replace (Z.to_nat (last_index c s + 1) + 1) with (S (Z.to_nat (last_index c s) + 1)) by lia. cbn [str_drop]. auto.
  - case_bool_decide; [|lia]. intros _. change (Z.to_nat 0 + 1) with 1. cbn [str_drop]. by apply last_index_negative.
Qed.

Lemma base_slashless s : has_byte slash s = false → s ≠ "" → base s = s.
Proof.
  intros Hs Hne. unfold base. rewrite bool_decide_eq_false_2 by done.
  assert (trim_right_byte slash s = s) as ->.
  { clear Hne. induction s as [|a s IH]; [done|]. rewrite has_byte_cons in Hs. bools_in Hs. destruct Hs as [Ha Hs].
    cbn [trim_right_byte]. rewrite IH by done. by rewrite (bool_decide_eq_false_2 (a = slash)), andb_false_r. }
  rewrite last_index_none by done. cbn [Z.ltb Z.compare]. by rewrite bool_decide_eq_false_2.
Qed.

Lemma base_idempotent s : base (base s) = base s.
Proof.
  unfold base at 2 3. case_bool_decide; [done|]. set (t := trim_right_byte slash s).
  destruct (Z.ltb_spec (last_index slash t) 0) as [Hi|Hi]; case_bool_decide as Hn; [done| |done|]; apply base_slashless; try done.
  - by apply last_index_negative.
  - by apply after_last_index.
Qed.

Lemma export_name_base entry name :
  desktopEntryExportName entry = Ok name →
  name = base entry ∧ has_suffix desktopEntrySuffix name = true ∧ name ∉ desktopHandlerFiles.
Proof.
  unfold desktopEntryExportName, singlePathComponent. rewrite bind_ok. intros (n & Hn & H).
  rewrite wrap_ok in Hn. cbn zeta in Hn. rewrite !bind_unit_ok, !refuse_if_ok in Hn. destruct Hn as (Hc & _ & [= <-]).
  rewrite !bind_unit_ok, check_that_ok, refuse_if_ok in H. bools_in Hc. bools_in H.
  destruct Hc as [[[E _] _] _]. rewrite E in H. destruct H as ([Hs _] & Hd & [= <-]). done.
Qed.

(** ** Files of the user's applications directory *)
Section AliasTheorems.
Context (home XDG_DATA_DIRS : string) (exists_ writable removable : string → bool).
Let export := exportDesktopAlias home XDG_DATA_DIRS exists_ writable.
Let remove := removeDesktopAlias home removable.

Lemma set_file_same f p s : set_file f p s p = s.
Proof. unfold set_file. by rewrite bool_decide_eq_true_2. Qed.
Lemma set_file_other f p s q : q ≠ p → set_file f p s q = f q.
Proof. intros H. unfold set_file. by rewrite bool_decide_eq_false_2. Qed.

Lemma write_alias_effect app path content f r f' :
  write_alias writable app path content f = (r, f') →
  (f' = f) ∨ (r = Ok () ∧ f' = set_file f path (Holds (alias_content app content)) ∧
    desktopEntryValue (alias_content app content) "X-cpak-ID" = ap_CpakId app).
Proof.
  unfold write_alias. case_bool_decide as H; cbn [negb].
  - case_match; intros [= <- <-]; [by right|by left].
  - intros [= <- <-]. by left.
Qed.

(** C16: The alias of a desktop entry never takes a file of another.  Exporting one
    touches at most the file of that name in the user's applications directory, and
    only when the name is that of a launcher and no database of handlers, and either
    there was no such file and no application of the system has that name, or the file
    there is marked with the origin of the same application.  What it writes names the
    installation, so that removing the alias of that entry takes the file away, and
    removing it for an installation whose identifier is not on the file changes
    nothing. *)
Theorem alias_never_takes_another app entry content f r f' :
  export app (base entry) content f = (r, f') → f' ≠ f →
  let path := originalDesktopEntryExportPath home entry in
  r = Ok () ∧ (∀ p, p ≠ path → f' p = f p) ∧
  has_suffix ".desktop" (base entry) = true ∧ base entry ∉ desktopHandlerFiles ∧
  (f path = Missing ∧ desktopEntryExistsInSystemData XDG_DATA_DIRS exists_ (base entry) = false ∨
   ∃ old, f path = Holds old ∧ desktopEntryValue old "X-cpak-Origin" = ap_Origin app) ∧
  (removable path = true → (remove app entry f').1 = Ok () ∧ (remove app entry f').2 path = Missing ∧
     ∀ p, p ≠ path → (remove app entry f').2 p = f p) ∧
  (∀ other, ap_CpakId other ≠ ap_CpakId app → remove other entry f' = (Ok (), f')).
Proof.
  unfold export, remove, exportDesktopAlias. intros H Hne. cbn zeta.
  destruct (desktopEntryExportName (base entry)) as [name|] eqn:En; [|injection H as <- <-; done].
  apply export_name_base in En as (-> & Hs & Hd). rewrite base_idempotent in H, Hs, Hd.
  assert (originalDesktopEntryExportPath home (base entry) = originalDesktopEntryExportPath home entry) as Hpath
    by (unfold originalDesktopEntryExportPath; by rewrite base_idempotent).
  rewrite Hpath in H. set (path := originalDesktopEntryExportPath home entry) in *.
  assert (∃ r' f'', write_alias writable app path content f = (r', f'') ∧ r = r' ∧ f' = f'' ∧
    (f path = Missing ∧ desktopEntryExistsInSystemData XDG_DATA_DIRS exists_ (base entry) = false ∨
     ∃ old, f path = Holds old ∧ desktopEntryValue old "X-cpak-Origin" = ap_Origin app)) as (r' & f'' & Hw & -> & -> & Hbefore).
  { destruct (f path) as [| |old] eqn:Ef.
    - destruct (desktopEntryExistsInSystemData _ _ _) eqn:Esys; [injection H as <- <-; done|]. eauto 10.
    - injection H as <- <-; done.
    - case_bool_decide as Eo; cbn [negb] in H; [|injection H as <- <-; done]. eauto 10. }
  destruct (write_alias_effect _ _ _ _ _ _ Hw) as [->|(-> & -> & Hid)]; [done|].
  split; [done|]. split; [intros p Hp; by apply set_file_other|]. split; [exact Hs|]. split; [exact Hd|]. split; [exact Hbefore|].
  unfold removeDesktopAlias. fold path. rewrite set_file_same. split.
  - intros Hr. rewrite Hid, bool_decide_eq_true_2, Hr by done. cbn. rewrite set_file_same. split; [done|]. split; [done|].
    intros p Hp. by rewrite !set_file_other.
  - intros other Ho. rewrite Hid, bool_decide_eq_false_2 by congruence. done.
Qed.
End AliasTheorems.

(** ** An example *)
Definition demo_application (id : string) : Application :=
  mkApplication id "demo" "1" "" "v1" "" "acme.org/demo" "" "" "" "" [] [] ["demo"] ["demo.desktop"] [] [] None 0 [] NewOverride false "".

Lemma alias_never_takes_another_witness :
  let after := (exportDesktopAlias "/home/ada" "" (λ _, false) (λ _, true) (demo_application "abc") "demo.desktop" demo_entry (λ _, Missing)).2 in
  (removeDesktopAlias "/home/ada" (λ _, true) (demo_application "abc") "/usr/share/applications/demo.desktop" after).1 = Ok () ∧
  removeDesktopAlias "/home/ada" (λ _, true) (demo_application "xyz") "/usr/share/applications/demo.desktop" after = (Ok (), after).
Proof.
  destruct (alias_never_takes_another "/home/ada" "" (λ _, false) (λ _, true) (λ _, true) (demo_application "abc")
    "/usr/share/applications/demo.desktop" demo_entry (λ _, Missing) (Ok ())
    (exportDesktopAlias "/home/ada" "" (λ _, false) (λ _, true) (demo_application "abc") "demo.desktop" demo_entry (λ _, Missing)).2)
    as (_ & _ & _ & _ & _ & H1 & H2).
  - vm_compute. reflexivity.
  - intros E. apply (f_equal (λ f, f "/home/ada/.local/share/applications/demo.desktop")) in E. vm_compute in E. discriminate.
  - split; [apply H1; reflexivity|]. apply (H2 (demo_application "xyz")). vm_compute. discriminate.
Defined.
