(* ===== verification/Manifest.v ===== *)
(** * Manifests ([pkg/cpak/manifest.go], [runtime-source.go], [pkg/types/manifest.go])

    What a publisher may write in a manifest: its validation, the migration of the
    older versions and the permissions an installation applies. *)
From Stdlib Require Import Ascii.
From stdpp Require Import base strings list numbers gmap pretty.
From S2P Require Import Prelude.
From S2P Require Import GoStrings.
From S2P Require Import Regex.
From S2P Require Import Utf8.
From S2P Require Import GoPath.
From S2P Require Import DBusPolicy.
From S2P Require Import HostActions.
From S2P Require Import Filesystem.
From S2P Require Import Override.
From S2P Require Import Applications.
From S2P Require Import Hex.
From S2P Require Import OciReference.
From S2P Require Import Repository.
From stdpp Require Import options.

#[local] Open Scope nat_scope.

(** ** Data *)

(** The last three fields are what [DecodeManifest] notes of the JSON object: the
    legacy filesystem fields that were written, whether [filesystem] was, and the
    fields manifest version 3 removed. *)
Record CpakManifest : Type := mkManifest {
  ma_ManifestVersion : string;
  ma_Name : string;
  ma_Description : string;
  ma_Version : string;
  ma_Image : string;
  ma_ImageRef : string;
  ma_Binaries : list string;
  ma_DesktopEntries : list string;
  ma_FormFactors : list string;
  ma_Sessions : list Session;
  ma_Dependencies : list Dependency;
  ma_Addons : list string;
  ma_AddonProvider : option AddonProvider;
  ma_IdleTime : Z;
  ma_Override : Override;
  ma_RuntimeSources : list RuntimeSource;
  ma_legacyFilesystemFields : list string;
  ma_filesystemDeclared : bool;
  ma_manifestV3RemovedFields : list string
}.

Definition with_override (m : CpakManifest) (version : string) (o : Override) : CpakManifest :=
  mkManifest version (ma_Name m) (ma_Description m) (ma_Version m) (ma_Image m) (ma_ImageRef m) (ma_Binaries m)
    (ma_DesktopEntries m) (ma_FormFactors m) (ma_Sessions m) (ma_Dependencies m) (ma_Addons m) (ma_AddonProvider m)
    (ma_IdleTime m) o (ma_RuntimeSources m) (ma_legacyFilesystemFields m) (ma_filesystemDeclared m)
    (ma_manifestV3RemovedFields m).

Inductive manifest_error : Type :=
  | UnsupportedVersion (version : string) | RemovedFields (fields : list string)
  | NameMissing | DescriptionMissing | ManifestText | ImageMissing | ImageInvalid (e : reference_error)
  | ImageRefUnsupported (ref : string) | ImageRefDigest | BinariesMissing
  | DesktopEntryInvalid (e : repository_error) | DependencyMode (origin mode : string)
  | SourceURL | SourceInsecure | SourceHost | SourceChecksum | SourceSize | SourceInstaller | SourceDestination
  | SourceArchitecture | SourceName
  | AddonID | AddonSlot | AddonMode | AddonPath (path : string) | AddonEnvironment (variable : string)
  | NoTypedProvider (command : string) | ManifestActions (e : host_action_error) | ManifestPicker (e : picker_error)
  | IsolatedCapabilities | RawHostAccess (field : string) | BusPolicyInvalid (e : dbus_error)
  | BusPolicyVersion | BusCannotCall (name : string) | BusCannotOwn (name : string)
  | SessionID (id : string) | SessionTwice (id : string) | SessionText (id : string) | SessionKind (id kind : string)
  | SessionEntrypoint (id : string) | SessionAsRoot (id : string) | SessionHostCommands (id : string)
  | ManifestGrants (e : fs_error)
  | ActionsVersion | GrantsVersion | LegacyFields (fields : list string) | DigestRequired | SchemaInvalid.

(** ** Parameters *)

(** [url.Parse]: the scheme, the host and the path; and the validation against the
    JSON schema that is generated from the struct. *)
Class ManifestChecks : Type := {
  ParseURL : string → option (string * string * string);
  SchemaValid : CpakManifest → bool
}.

(** ** Legacy host commands *)

(** The switches a legacy host command stands for, in the order of the list. *)
Fixpoint legacy_commands (commands : list string) (switches : bool * bool * bool) :
    result string (bool * bool * bool) :=
  match commands with
  | [] => Ok switches
  | command :: commands =>
      let '(notification, uri, applications) := switches in
      if bool_decide (command = "notify-send") then legacy_commands commands (true, uri, applications)
      else if bool_decide (command = "xdg-open") then legacy_commands commands (notification, true, applications)
      else if bool_decide (command = "cpak-launch-app") then legacy_commands commands (notification, uri, true)
      else Err command
  end.

Definition with_switches (o : Override) (notification uri applications : bool) : Override := {|
  SocketX11 := SocketX11 o;
  DisplayX11 := DisplayX11 o;
  SocketWayland := SocketWayland o;
  SocketPulseAudio := SocketPulseAudio o;
  SocketSessionBus := SocketSessionBus o;
  SocketSystemBus := SocketSystemBus o;
  SocketSshAgent := SocketSshAgent o;
  SocketCups := SocketCups o;
  SocketGpgAgent := SocketGpgAgent o;
  SocketAtSpiBus := SocketAtSpiBus o;
  SocketBluetooth := SocketBluetooth o;
  Bluetooth := Bluetooth o;
  DeviceDri := DeviceDri o;
  DeviceKvm := DeviceKvm o;
  DeviceShm := DeviceShm o;
  DeviceAlsa := DeviceAlsa o;
  DeviceVideo := DeviceVideo o;
  DeviceFuse := DeviceFuse o;
  DeviceTun := DeviceTun o;
  DeviceUsb := DeviceUsb o;
  DeviceSerial := DeviceSerial o;
  DeviceInput := DeviceInput o;
  DeviceTTY := DeviceTTY o;
  DeviceAll := DeviceAll o;
  Notification := notification;
  OpenURI := uri;
  HostApplications := applications;
  HostActions := HostActions o;
  FilePicker := FilePicker o;
  SessionBus := SessionBus o;
  Filesystem := Filesystem o;
  FsHost := FsHost o;
  FsHostEtc := FsHostEtc o;
  FsHostHome := FsHostHome o;
  FsExtra := FsExtra o;
  Env := Env o;
  Network := Network o;
  Process := Process o;
  UserNamespaces := UserNamespaces o;
  MemoryMaxMB := MemoryMaxMB o;
  CPUQuota := CPUQuota o;
  PidsMax := PidsMax o;
  AsRoot := AsRoot o;
  AllowedHostCommands := []
|}.

Definition migrateLegacyHostCommands (o : Override) : result string Override :=
  match AllowedHostCommands o with
  | [] => Ok o
  | commands =>
      switches ← legacy_commands commands (Notification o, OpenURI o, HostApplications o);
      Ok (with_switches o switches.1.1 switches.1.2 switches.2)
  end.

(** ** Text *)
Definition manifestTextLimit : nat := 4096.

Definition carriesTerminalControl (value : string) : bool := contains_rune is_control value.

Definition valid_line (value : string) : bool :=
  (slen value <=? manifestTextLimit) && negb (carriesTerminalControl value).
Definition validateManifestLine (value : string) : result manifest_error unit :=
  check_that (valid_line value) ManifestText.

(** A newline and a tab are left out of the controls. *)
Definition prose_control (r : N) : bool := is_control r && negb ((r =? 10)%N || (r =? 9)%N).
Definition validateManifestProse (value : string) : result manifest_error unit :=
  check_that ((slen value <=? manifestTextLimit) && negb (contains_rune prose_control value)) ManifestText.

Definition validateSessionText (value : string) (limit : nat) : bool :=
  negb (bool_decide (value = "") || (limit <? slen value) || carriesTerminalControl value).

(** The strings of a grant, in the order of the checks. *)
Definition override_text (o : Override) : list string :=
  Env o ++ concat ((λ p, [fp_path p; fp_access p]) <$> Filesystem o) ++ FsExtra o ++ AllowedHostCommands o ++
  concat ((λ a, ha_provider a :: ha_capabilities a) <$> HostActions o).
Definition validateOverrideText (o : Override) : result manifest_error unit :=
  for_each validateManifestLine (override_text o).

Definition dependency_text (d : Dependency) : list string :=
  [de_Id d; de_Origin d; de_Branch d; de_Release d; de_Commit d; de_Mode d].
Definition source_text (s : RuntimeSource) : list string :=
  [rs_Name s; rs_URL s; rs_SHA256 s; rs_Installer s; rs_Architecture s].
Definition export_paths (e : AddonExports) : list string :=
  ex_Path e ++ ex_LibraryPath e ++ ex_IncludePath e ++ ex_PkgConfigPath e ++ ex_CMakePrefixPath e.
Definition provider_text (p : AddonProvider) : list string :=
  [pr_ID p; pr_Slot p; pr_Mode p] ++ export_paths (pr_Exports p) ++ ex_Environment (pr_Exports p).

(** The strings held to one line, after the description and the name. *)
Definition manifest_text (m : CpakManifest) : list string :=
  ma_Name m :: ma_Binaries m ++ ma_DesktopEntries m ++ ma_FormFactors m ++
  concat (dependency_text <$> ma_Dependencies m) ++ concat (source_text <$> ma_RuntimeSources m) ++ ma_Addons m ++
  match ma_AddonProvider m with Some p => provider_text p | None => [] end.

Definition validateManifestText (m : CpakManifest) : result manifest_error unit :=
  validateManifestProse (ma_Description m) ;;;
  for_each validateManifestLine (manifest_text m) ;;;
  validateOverrideText (ma_Override m) ;;;
  for_each (λ s, validateOverrideText (ss_Override s)) (ma_Sessions m).

(** ** Runtime sources ([runtime-source.go]) *)
Definition MaxRuntimeSourceSize : Z := Z.shiftl 2 30.
Definition isSHA256 (value : string) : bool :=
  (slen value =? 64) && bool_decide (is_Some (hex_decode value)).

Definition one_of (name : string) (names : list string) : bool := bool_decide (name ∈ names).

Section Checks.
Context {checks : ManifestChecks}.

(** [path.Base] is [filepath.Base] here. *)
Definition RuntimeSourceFileName (s : RuntimeSource) : string :=
  if negb (bool_decide (rs_Name s = "")) then rs_Name s
  else match ParseURL (rs_URL s) with
  | None => ""
  | Some (_, _, path) => base path
  end.

Definition ValidateRuntimeSource (s : RuntimeSource) : result manifest_error unit :=
  match ParseURL (rs_URL s) with
  | None => Err SourceURL
  | Some (scheme, host, _) =>
      check_that (bool_decide (lower scheme = "https")) SourceInsecure ;;;
      refuse_if (bool_decide (host = "")) SourceHost ;;;
      check_that (isSHA256 (rs_SHA256 s)) SourceChecksum ;;;
      refuse_if ((rs_Size s <=? 0)%Z || (MaxRuntimeSourceSize <? rs_Size s)%Z) SourceSize ;;;
      check_that (one_of (rs_Installer s) ["dpkg"; "deb-extract"; "rpm"; "tar"; "file"]) SourceInstaller ;;;
      (if bool_decide (rs_Installer s = "file") then
        check_that (bool_decide (clean (rs_Destination s) = rs_Destination s) && has_prefix "/opt/" (rs_Destination s))
          SourceDestination
      else refuse_if (negb (bool_decide (rs_Destination s = ""))) SourceDestination) ;;;
      check_that (one_of (rs_Architecture s) [""; "amd64"; "arm64"]) SourceArchitecture ;;;
      let name := RuntimeSourceFileName s in
      refuse_if (one_of name [""; "."; ".."] || contains_any ["/"; "\"]%char name) SourceName
  end.

Definition RuntimeSourcesForArchitecture (sources : list RuntimeSource) (architecture : string) : list RuntimeSource :=
  filter (λ s, bool_decide (rs_Architecture s = "") || bool_decide (rs_Architecture s = architecture) = true) sources.

(** ** Addon providers *)
Definition lower_alphanumeric : regex := RPlus (RSet [("a", "z"); ("0", "9")]%char).
Definition sessionIDPattern : regex :=
  RSeq lower_alphanumeric (RStar (RSeq (RSet [(".", "."); ("-", "-")]%char) lower_alphanumeric)).
Definition addonNamePattern : regex :=
  RSeq lower_alphanumeric (RStar (RSeq (RSet [(".", "."); ("_", "_"); ("-", "-")]%char) lower_alphanumeric)).
Definition addonEnvironmentName : regex :=
  RSeq (RSet [("A", "Z"); ("a", "z"); ("_", "_")]%char)
    (RStar (RSet [("A", "Z"); ("a", "z"); ("0", "9"); ("_", "_")]%char)).

Definition validateAddonProvider (provider : option AddonProvider) : result manifest_error unit :=
  match provider with
  | None => Ok tt
  | Some p =>
      check_that (matches addonNamePattern (pr_ID p)) AddonID ;;;
      check_that (matches addonNamePattern (pr_Slot p)) AddonSlot ;;;
      check_that (one_of (pr_Mode p) [AddonSlotExclusive; AddonSlotMultiple]) AddonMode ;;;
      for_each (λ entry, check_that (is_abs entry && bool_decide (clean entry = entry) && negb (has_byte ":" entry))
        (AddonPath entry)) (export_paths (pr_Exports p)) ;;;
      for_each (λ variable,
        match cut "=" variable with
        | (name, Some _) => check_that (matches addonEnvironmentName name) (AddonEnvironment variable)
        | (_, None) => Err (AddonEnvironment variable)
        end) (ex_Environment (pr_Exports p))
  end.

(** ** Bus policies *)
Definition forbiddenSessionBusName (name : string) : bool :=
  one_of name ["org.freedesktop.DBus"; "org.freedesktop.Flatpak"; "org.freedesktop.portal.Desktop";
    "org.freedesktop.secrets"; "org.freedesktop.systemd1"; "org.gnome.keyring"].

Definition raw_access (o : Override) : list (bool * string) :=
  [(SocketSessionBus o, "socketSessionBus"); (SocketSystemBus o, "socketSystemBus"); (SocketX11 o, "socketX11");
   (SocketAtSpiBus o, "socketAtSpiBus"); (SocketBluetooth o, "socketBluetooth")].

Definition validateManifestBusPolicy (version : string) (o : Override) : result manifest_error unit :=
  refuse_if ((DisplayX11 o || Bluetooth o) && negb (bool_decide (version = "3.0"))) IsolatedCapabilities ;;;
  for_each (λ access, refuse_if access.1 (RawHostAccess access.2)) (raw_access o) ;;;
  wrap BusPolicyInvalid (ValidateDBusPolicy (SessionBus o)) ;;;
  refuse_if (Enabled (SessionBus o) && negb (bool_decide (version = "3.0"))) BusPolicyVersion ;;;
  for_each (λ rule, refuse_if (forbiddenSessionBusName (dc_name rule)) (BusCannotCall (dc_name rule)))
    (dp_talk (SessionBus o)) ;;;
  for_each (λ name, refuse_if (forbiddenSessionBusName name) (BusCannotOwn name)) (dp_own (SessionBus o)).

(** ** Login sessions *)
Definition validate_session (version : string) (binaries : list string) (s : Session) : result manifest_error unit :=
  check_that (validateSessionText (ss_Name s) 80) (SessionText (ss_ID s)) ;;;
  check_that (bool_decide (ss_Description s = "") || validateSessionText (ss_Description s) 160) (SessionText (ss_ID s)) ;;;
  check_that (one_of (ss_Kind s) ["desktop"; "kiosk"]) (SessionKind (ss_ID s) (ss_Kind s)) ;;;
  check_that (one_of (ss_Entrypoint s) binaries) (SessionEntrypoint (ss_ID s)) ;;;
  refuse_if (AsRoot (ss_Override s)) (SessionAsRoot (ss_ID s)) ;;;
  check_that (length (AllowedHostCommands (ss_Override s)) =? 0) (SessionHostCommands (ss_ID s)) ;;;
  wrap ManifestActions (ValidateHostActions (HostActions (ss_Override s))) ;;;
  wrap ManifestPicker (ValidateFilePickerGrant (FilePicker (ss_Override s))) ;;;
  validateManifestBusPolicy version (ss_Override s) ;;;
  wrap ManifestGrants (ValidateFilesystemPermissions (Filesystem (ss_Override s))).

Definition valid_session_id (id : string) : bool :=
  negb (slen id =? 0) && (slen id <=? 96) && matches sessionIDPattern id.

Definition validateSessions (m : CpakManifest) : result manifest_error unit :=
  for_seen ss_ID (λ s, check_that (valid_session_id (ss_ID s)) (SessionID (ss_ID s)))
    (validate_session (ma_ManifestVersion m) (ma_Binaries m)) (λ s, SessionTwice (ss_ID s)) ∅ (ma_Sessions m).

(** ** Legacy filesystem fields *)
Fixpoint uniqueManifestFields (fields : list string) : list string :=
  match fields with
  | a :: ((b :: _) as rest) => if bool_decide (a = b) then uniqueManifestFields rest else a :: uniqueManifestFields rest
  | _ => fields
  end.

Definition legacyFilesystemFields (m : CpakManifest) : list string :=
  let o := ma_Override m in
  uniqueManifestFields (sort_strings (ma_legacyFilesystemFields m ++
    (if FsHost o then ["fsHost"] else []) ++ (if FsHostEtc o then ["fsHostEtc"] else []) ++
    (if FsHostHome o then ["fsHostHome"] else []) ++ (if negb (length (FsExtra o) =? 0) then ["fsExtra"] else []))).

(** ** The manifest *)
Definition validate_image (m : CpakManifest) : result manifest_error unit :=
  refuse_if (bool_decide (ma_Image m = "")) ImageMissing ;;;
  reference ← wrap ImageInvalid (ParseReference (ma_Image m));
  check_that (one_of (ma_ImageRef m) [""; "source"]) (ImageRefUnsupported (ma_ImageRef m)) ;;;
  refuse_if (bool_decide (ma_ImageRef m = "source") && re_IsDigest reference) ImageRefDigest.

Definition pinned (m : CpakManifest) : bool :=
  bool_decide (ma_ImageRef m = "") &&
  match ParseReference (ma_Image m) with Ok reference => re_IsDigest reference | Err _ => false end.

(** What is checked of the permissions and the version, after the legacy host
    commands were turned into switches. *)
Definition validate_permissions (m : CpakManifest) : result manifest_error unit :=
  let o := ma_Override m in
  wrap ManifestActions (ValidateHostActions (HostActions o)) ;;;
  wrap ManifestPicker (ValidateFilePickerGrant (FilePicker o)) ;;;
  validateManifestBusPolicy (ma_ManifestVersion m) o ;;;
  validateSessions m ;;;
  (if bool_decide (ma_ManifestVersion m = "1.0") then
    check_that (length (HostActions o) =? 0) ActionsVersion ;;;
    refuse_if (ma_filesystemDeclared m || negb (length (Filesystem o) =? 0)) GrantsVersion
  else
    check_that (length (legacyFilesystemFields m) =? 0) (LegacyFields (legacyFilesystemFields m)) ;;;
    wrap ManifestGrants (ValidateFilesystemPermissions (Filesystem o))) ;;;
  check_that (negb (bool_decide (ma_ManifestVersion m = "3.0")) || pinned m) DigestRequired ;;;
  check_that (SchemaValid m) SchemaInvalid.

Definition default_version (version : string) : string := if bool_decide (version = "") then "1.0" else version.

(** The manifest is changed in place: its version is filled in and the legacy host
    commands become switches. *)
Definition ValidateManifest (m : CpakManifest) : result manifest_error CpakManifest :=
  let version := default_version (ma_ManifestVersion m) in
  check_that (one_of version ["1.0"; "2.0"; "3.0"]) (UnsupportedVersion version) ;;;
  check_that (negb (bool_decide (version = "3.0")) || (length (ma_manifestV3RemovedFields m) =? 0))
    (RemovedFields (ma_manifestV3RemovedFields m)) ;;;
  refuse_if (bool_decide (ma_Name m = "")) NameMissing ;;;
  refuse_if (bool_decide (ma_Description m = "")) DescriptionMissing ;;;
  validateManifestText m ;;;
  validate_image m ;;;
  refuse_if (length (ma_Binaries m) =? 0) BinariesMissing ;;;
  for_each (λ entry, wrap DesktopEntryInvalid (_ ← desktopEntryExportName entry; Ok tt)) (ma_DesktopEntries m) ;;;
  for_each (λ d, check_that (one_of (de_Mode d) [""; "nested"; "layer"]) (DependencyMode (de_Origin d) (de_Mode d)))
    (ma_Dependencies m) ;;;
  for_each ValidateRuntimeSource (ma_RuntimeSources m) ;;;
  validateAddonProvider (ma_AddonProvider m) ;;;
  o ← wrap NoTypedProvider (migrateLegacyHostCommands (ma_Override m));
  let m := with_override m version o in
  validate_permissions m ;;;
  Ok m.
End Checks.

(** ** Migration *)
Definition MigrateManifest (m : CpakManifest) : result manifest_error CpakManifest :=
  let version := default_version (ma_ManifestVersion m) in
  if one_of version ["2.0"; "3.0"] then
    o ← wrap NoTypedProvider (migrateLegacyHostCommands (ma_Override m));
    Ok (with_override m version o)
  else
    check_that (bool_decide (version = "1.0")) (UnsupportedVersion version) ;;;
    let override := WithMigratedFilesystem (ma_Override m) in
    wrap ManifestGrants (ValidateFilesystemPermissions (Filesystem override)) ;;;
    override ← wrap NoTypedProvider (migrateLegacyHostCommands override);
    Ok (mkManifest "2.0" (ma_Name m) (ma_Description m) (ma_Version m) (ma_Image m) (ma_ImageRef m) (ma_Binaries m)
      (ma_DesktopEntries m) (ma_FormFactors m) (ma_Sessions m) (ma_Dependencies m) (ma_Addons m) (ma_AddonProvider m)
      (ma_IdleTime m) override (ma_RuntimeSources m) [] (negb (length (Filesystem override) =? 0))
      (ma_manifestV3RemovedFields m)).

(** The copy is migrated, the manifest stays. *)
Definition installedOverride (m : CpakManifest) : result manifest_error Override :=
  migrated ← MigrateManifest m;
  Ok (ma_Override migrated).

Definition installedRecordOverride (app : Application) : Override := WithMigratedFilesystem (ap_ParsedOverride app).

Definition refuseCpakStateGrants (h : host) (directories : list string) (o : Override) (sessions : list Session) :
    result fs_error unit :=
  RefuseCpakStateGrants h (Filesystem o) directories ;;;
  for_each (λ s, RefuseCpakStateGrants h (Filesystem (ss_Override s)) directories) sessions.

(** ** Decoding *)
Definition manifestV3RemovedOverrideFields : list string :=
  ["fsHost"; "fsHostEtc"; "fsHostHome"; "fsExtra";
   "socketX11"; "socketSessionBus"; "socketSystemBus"; "socketAtSpiBus"; "socketBluetooth"].

(** The first JSON value of the content, which is all of it: the manifest, and the
    keys of its permission object and of those of its sessions. *)
Class ManifestCodec : Type :=
  decode_manifest : string → option (CpakManifest * gset string * list (gset string)).

Definition removed_fields (override : gset string) (sessions : list (gset string)) : list string :=
  concat ((λ field,
    (if bool_decide (field ∈ override) then ["override." +:+ field] else []) ++
    concat (imap (λ index session,
      if bool_decide (field ∈ session) then ["sessions[" +:+ pretty index +:+ "].override." +:+ field] else []) sessions))
    <$> manifestV3RemovedOverrideFields).

Definition DecodeManifest {codec : ManifestCodec} (content : string) : option CpakManifest :=
  match decode_manifest content with
  | None => None
  | Some (m, override, sessions) =>
      Some (mkManifest (default_version (ma_ManifestVersion m)) (ma_Name m) (ma_Description m) (ma_Version m)
        (ma_Image m) (ma_ImageRef m) (ma_Binaries m) (ma_DesktopEntries m) (ma_FormFactors m) (ma_Sessions m)
        (ma_Dependencies m) (ma_Addons m) (ma_AddonProvider m) (ma_IdleTime m) (ma_Override m) (ma_RuntimeSources m)
        (filter (λ field, field ∈ override) ["fsHost"; "fsHostEtc"; "fsHostHome"; "fsExtra"])
        (bool_decide ("filesystem" ∈ override)) (removed_fields override sessions))
  end.

(** ** What validation says *)
Section Facts.
Context {checks : ManifestChecks}.

(** Drives nothing of a terminal. *)
Definition inert (s : string) : Prop := contains_rune is_control s = false.

Lemma line_inert s : validateManifestLine s = Ok tt → inert s.
Proof.
  unfold validateManifestLine, valid_line, carriesTerminalControl. rewrite check_that_ok.
  intros [_ H%negb_true_iff]%andb_true_iff. exact H.
Qed.

Lemma session_text_inert s limit : validateSessionText s limit = true → inert s.
Proof. unfold validateSessionText. rewrite negb_true_iff, !orb_false_iff. by intros [_ H]. Qed.

Lemma graphic_inert s : str_forall graphic s = true → inert s.
Proof.
  intros Hg. unfold inert, contains_rune.
  rewrite runes_ascii by (eapply str_forall_impl; [|exact Hg]; intros c Hc; by apply graphic_not_space).
  apply existsb_none. intros x (c & -> & Hc)%list_elem_of_fmap. cbn.
  assert (graphic c = true) as H.
  { revert Hg Hc. induction s as [|a s IH]; [by intros _ ?%elem_of_nil|]. cbn [str_forall String.list_ascii_of_string].
    intros [Ha Hs]%andb_true_iff [->|Hc]%elem_of_cons; auto. }
  clear -H. revert c H. by_bytes.
Qed.

Lemma pattern_inert r s :
  (∀ c, uses r c = true → graphic c = true) → matches r s = true → inert s.
Proof. intros Hr Hm. apply graphic_inert. by eapply matches_uses. Qed.

(** The strings of a bus policy. *)
Definition bus_text (p : DBusPolicy) : list string :=
  dp_own p ++ concat ((λ r, dc_name r :: dc_path r :: dc_interface r :: dc_members r) <$> dp_talk p).

Lemma concat_elem {A B} (f : A → list B) l x : x ∈ concat (f <$> l) → ∃ y, y ∈ l ∧ x ∈ f y.
Proof.
  induction l as [|y l IH]; cbn; [by intros ?%elem_of_nil|].
  intros [Hx|(z & Hz & Hx)%IH]%elem_of_app; [exists y|exists z]; (split; [|done]); [by left|by right].
Qed.
Lemma elem_concat {A B} (f : A → list B) l x y : y ∈ l → x ∈ f y → x ∈ concat (f <$> l).
Proof.
  induction 1 as [|y z l _ IH]; cbn; intros Hx; apply elem_of_app; [by left|right; by apply IH].
Qed.

Lemma bus_inert p s : ValidateDBusPolicy p = Ok tt → s ∈ bus_text p → inert s.
Proof.
  intros Hv%validate_policy_ok [Hs|Hs]%elem_of_app.
  - apply (pattern_inert dbusNamePattern); [by_bytes|]. by apply (vp_names p Hv).
  - apply concat_elem in Hs as (r & Hr & Hs). apply (vp_rules p Hv) in Hr.
    rewrite !elem_of_cons in Hs. destruct Hr as [Hn [Hp1 Hp] [Hi1 Hi] _ Hm _].
    destruct Hs as [->|[->|[->|Hs]]].
    + apply (pattern_inert dbusNamePattern); [by_bytes|]. apply Hn.
    + apply (pattern_inert dbusPathPattern); [by_bytes|done].
    + apply (pattern_inert dbusInterfacePattern); [by_bytes|done].
    + apply (pattern_inert dbusMemberPattern); [by_bytes|]. by apply Hm.
Qed.

(** The strings of a session, but for its override. *)
Definition session_text (s : Session) : list string :=
  [ss_ID s; ss_Name s; ss_Description s; ss_Kind s; ss_Entrypoint s].

Lemma one_of_elem x l : one_of x l = true ↔ x ∈ l.
Proof. unfold one_of. by rewrite bool_decide_eq_true. Qed.

(** A session that [validate_session] accepts. *)
Record valid_session (version : string) (binaries : list string) (s : Session) : Prop := {
  vs_name : validateSessionText (ss_Name s) 80 = true;
  vs_description : ss_Description s = "" ∨ validateSessionText (ss_Description s) 160 = true;
  vs_kind : ss_Kind s ∈ ["desktop"; "kiosk"];
  vs_entrypoint : ss_Entrypoint s ∈ binaries;
  vs_user : AsRoot (ss_Override s) = false;
  vs_commands : AllowedHostCommands (ss_Override s) = [];
  vs_actions : ValidateHostActions (HostActions (ss_Override s)) = Ok tt;
  vs_picker : ValidateFilePickerGrant (FilePicker (ss_Override s)) = Ok tt;
  vs_bus : validateManifestBusPolicy version (ss_Override s) = Ok tt;
  vs_grants : valid_grants (ss_Override s)
}.

Lemma validate_session_ok version binaries s :
  validate_session version binaries s = Ok tt → valid_session version binaries s.
Proof.
  unfold validate_session. rewrite !bind_unit_ok, !check_that_ok, refuse_if_ok, !one_of_elem, !wrap_ok,
    orb_true_iff, bool_decide_eq_true.
  intros (? & ? & ? & ? & ? & Hc & ? & ? & ? & ?). constructor; try done. by destruct (AllowedHostCommands _).
Qed.

(** What a bus policy that was accepted does not hold. *)
Record confined_bus (version : string) (o : Override) : Prop := {
  cb_isolated : DisplayX11 o = true ∨ Bluetooth o = true ∨ Enabled (SessionBus o) = true → version = "3.0";
  cb_raw : SocketSessionBus o = false ∧ SocketSystemBus o = false ∧ SocketX11 o = false ∧
    SocketAtSpiBus o = false ∧ SocketBluetooth o = false;
  cb_policy : ValidateDBusPolicy (SessionBus o) = Ok tt;
  cb_talk : ∀ r, r ∈ dp_talk (SessionBus o) → forbiddenSessionBusName (dc_name r) = false;
  cb_own : ∀ name, name ∈ dp_own (SessionBus o) → forbiddenSessionBusName name = false
}.

Lemma bus_policy_ok version o :
  validateManifestBusPolicy version o = Ok tt → confined_bus version o.
Proof.
  unfold validateManifestBusPolicy.
  rewrite !bind_unit_ok, !refuse_if_ok, !for_each_ok, wrap_ok.
  intros (Hi & Hr & Hp & He & Ht & Ho).
  assert (∀ b name, (b, name) ∈ raw_access o → b = false) as Hraw.
  { intros b name Hin. specialize (Hr _ Hin). by apply refuse_if_ok in Hr. }
  constructor; [|split_and!; (eapply Hraw; unfold raw_access; rewrite !elem_of_cons; naive_solver)|done| |].
  - intros H. destruct (decide (version = "3.0")) as [|Hne]; [done|exfalso].
    rewrite bool_decide_eq_false_2 in Hi, He by done. rewrite andb_true_r in Hi, He.
    apply orb_false_iff in Hi as [??]. destruct H as [H|[H|H]]; congruence.
  - intros r Hin. specialize (Ht r Hin). by apply refuse_if_ok in Ht.
  - intros name Hin. specialize (Ho name Hin). by apply refuse_if_ok in Ho.
Qed.
End Facts.

Section Validated.
Context {checks : ManifestChecks}.

Lemma migrate_commands_shape o o' :
  migrateLegacyHostCommands o = Ok o' →
  AllowedHostCommands o' = [] ∧ ∃ n u a, o' = with_switches o n u a.
Proof.
  unfold migrateLegacyHostCommands. destruct (AllowedHostCommands o) eqn:E.
  - intros [= <-]. split; [done|]. exists (Notification o), (OpenURI o), (HostApplications o).
    destruct o; cbn in *; by subst.
  - intros (switches & _ & [= <-])%bind_ok. split; [done|]. eauto.
Qed.

Lemma migrate_commands_none o : AllowedHostCommands o = [] → migrateLegacyHostCommands o = Ok o.
Proof. unfold migrateLegacyHostCommands. by intros ->. Qed.

(** What an accepted manifest is. *)
Record accepted (m m' : CpakManifest) (o : Override) : Prop := {
  ac_commands : migrateLegacyHostCommands (ma_Override m) = Ok o;
  ac_result : m' = with_override m (default_version (ma_ManifestVersion m)) o;
  ac_version : default_version (ma_ManifestVersion m) ∈ ["1.0"; "2.0"; "3.0"];
  ac_text : validateManifestText m = Ok tt;
  ac_image : validate_image m = Ok tt;
  ac_rest : validate_permissions m' = Ok tt
}.

Lemma validate_manifest_ok m m' : ValidateManifest m = Ok m' → ∃ o, accepted m m' o.
Proof.
  unfold ValidateManifest. cbv zeta.
  intros [Hv%check_that_ok%one_of_elem H]%bind_unit_ok.
  do 3 apply bind_unit_ok in H as [_ H]. apply bind_unit_ok in H as [Ht H]. apply bind_unit_ok in H as [Hi H].
  do 5 apply bind_unit_ok in H as [_ H]. apply bind_ok in H as (o & Ho%wrap_ok & H).
  apply bind_unit_ok in H as [Hr [= <-]]. by exists o.
Qed.

Lemma permissions_ok m :
  validate_permissions m = Ok tt →
  ValidateHostActions (HostActions (ma_Override m)) = Ok tt ∧
  confined_bus (ma_ManifestVersion m) (ma_Override m) ∧
  NoDup (ss_ID <$> ma_Sessions m) ∧
  (∀ s, s ∈ ma_Sessions m → valid_session_id (ss_ID s) = true ∧
    valid_session (ma_ManifestVersion m) (ma_Binaries m) s) ∧
  (if bool_decide (ma_ManifestVersion m = "1.0") then
    HostActions (ma_Override m) = [] ∧ Filesystem (ma_Override m) = []
  else legacyFilesystemFields m = [] ∧ valid_grants (ma_Override m)) ∧
  (ma_ManifestVersion m = "3.0" → pinned m = true) ∧ SchemaValid m = true.
Proof.
  unfold validate_permissions, validateSessions. cbv zeta. rewrite !bind_unit_ok, !wrap_ok, for_seen_ok.
  intros (Ha & _ & Hb%bus_policy_ok & [Hs Hd] & Hg & Hp%check_that_ok & Hschema%check_that_ok).
  split_and!; [done..| | | |done].
  - intros s Hin. destruct (Hs s Hin) as (Hid%check_that_ok & Hv%validate_session_ok & _). done.
  - destruct (bool_decide (ma_ManifestVersion m = "1.0")).
    + apply bind_unit_ok in Hg as [Hh%check_that_ok Hf%refuse_if_ok].
      apply orb_false_iff in Hf as [_ Hf]. by destruct (HostActions _), (Filesystem _).
    + apply bind_unit_ok in Hg as [Hl%check_that_ok Hf%wrap_ok]. by destruct (legacyFilesystemFields m).
  - intros E. by rewrite bool_decide_eq_true_2 in Hp.
Qed.

(** Every string of a manifest that is shown or written out, but for the
    description: the image, the version and the destination of a runtime source are
    not among them. *)
Definition policy_text (o : Override) : list string := override_text o ++ bus_text (SessionBus o).
Definition published_text (m : CpakManifest) : list string :=
  manifest_text m ++ policy_text (ma_Override m) ++
  concat ((λ s, session_text s ++ policy_text (ss_Override s)) <$> ma_Sessions m).

Lemma override_text_migrated o n u a s :
  s ∈ override_text (with_switches o n u a) → s ∈ override_text o.
Proof.
  unfold override_text. rewrite !elem_of_app.
  change (AllowedHostCommands (with_switches o n u a)) with (@nil string). rewrite elem_of_nil.
  change (Env (with_switches o n u a)) with (Env o). change (Filesystem (with_switches o n u a)) with (Filesystem o).
  change (FsExtra (with_switches o n u a)) with (FsExtra o).
  change (HostActions (with_switches o n u a)) with (HostActions o). tauto.
Qed.

Lemma session_inert version binaries s x :
  (∀ b, b ∈ binaries → inert b) → valid_session_id (ss_ID s) = true → valid_session version binaries s →
  x ∈ session_text s → inert x.
Proof.
  intros Hb Hid Hv. unfold session_text. rewrite !elem_of_cons.
  intros [->|[->|[->|[->|[->|[]%elem_of_nil]]]]].
  - unfold valid_session_id in Hid. apply andb_true_iff in Hid as [_ Hid].
    apply (pattern_inert sessionIDPattern); [by_bytes|done].
  - by eapply session_text_inert, vs_name.
  - destruct (vs_description _ _ _ Hv) as [->|H]; [done|]. by eapply session_text_inert.
  - pose proof (vs_kind _ _ _ Hv) as H. rewrite !elem_of_cons in H. by destruct H as [->|[->|[]%elem_of_nil]].
  - by apply Hb, (vs_entrypoint _ _ _ Hv).
Qed.

(** Nothing a validated manifest says drives a terminal.  No string of the
    manifest, of its permissions and of its sessions - the names, paths and
    identifiers that are shown to the user and written out - holds a control
    character, C1 included; the description holds none but a newline and a tab. *)
Theorem validated_manifest_inert m m' :
  ValidateManifest m = Ok m' →
  (∀ s, s ∈ published_text m' → inert s) ∧ contains_rune prose_control (ma_Description m') = false.
Proof.
  intros (o & Ho)%validate_manifest_ok.
  pose proof (ac_text _ _ _ Ho) as Ht. unfold validateManifestText, validateOverrideText in Ht.
  rewrite !bind_unit_ok, !for_each_ok in Ht. destruct Ht as (Hd & Hm & Hov & Hs).
  pose proof (ac_rest _ _ _ Ho) as (_ & Hbus & _ & Hsess & _)%permissions_ok.
  rewrite (ac_result _ _ _ Ho) in *. cbn in Hbus, Hsess.
  destruct (migrate_commands_shape _ _ (ac_commands _ _ _ Ho)) as (_ & n & u & a & Eo).
  assert (∀ s, s ∈ manifest_text m → inert s) as Hm' by (intros s Hin; by apply line_inert, Hm).
  split.
  - intros s [Hin|[[Hin|Hin]%elem_of_app|(t & Hin & Hx)%concat_elem]%elem_of_app]%elem_of_app.
    + by apply Hm'.
    + apply line_inert, Hov. cbn in Hin. rewrite Eo in Hin. by eapply override_text_migrated.
    + eapply bus_inert; [|exact Hin]. apply (cb_policy _ _ Hbus).
    + destruct (Hsess t Hin) as [Hid Hv]. apply elem_of_app in Hx as [Hx|[Hx|Hx]%elem_of_app].
      * eapply session_inert; [|exact Hid|exact Hv|exact Hx]. intros b Hb. apply Hm'. unfold manifest_text.
        right. apply elem_of_app. by left.
      * specialize (Hs t Hin). rewrite for_each_ok in Hs. by apply line_inert, Hs.
      * eapply bus_inert; [|exact Hx]. by apply (cb_policy _ _ (bus_policy_ok _ _ (vs_bus _ _ _ Hv))).
  - unfold validateManifestProse in Hd. apply check_that_ok, andb_true_iff in Hd as [_ Hd]. by apply negb_true_iff in Hd.
Qed.

Lemma unique_fields_nil l : uniqueManifestFields l = [] → l = [].
Proof.
  induction l as [|a [|b l] IH]; [done|done|]. cbn [uniqueManifestFields].
  case_bool_decide; [|done]. intros E. by apply IH in E.
Qed.

Lemma no_legacy_fields m :
  legacyFilesystemFields m = [] → has_legacy (ma_Override m) = false ∧ ma_legacyFilesystemFields m = [].
Proof.
  unfold legacyFilesystemFields. intros H%unique_fields_nil.
  pose proof (sort_strings_perm (ma_legacyFilesystemFields m ++
    (if FsHost (ma_Override m) then ["fsHost"] else []) ++ (if FsHostEtc (ma_Override m) then ["fsHostEtc"] else []) ++
    (if FsHostHome (ma_Override m) then ["fsHostHome"] else []) ++
    (if negb (length (FsExtra (ma_Override m)) =? 0) then ["fsExtra"] else []))) as Hp.
  cbv zeta in H. rewrite H in Hp. apply Permutation_nil_l, eq_sym in Hp.
  unfold has_legacy. do 4 apply app_eq_nil in Hp as [? Hp].
  destruct (FsHost _), (FsHostEtc _), (FsHostHome _), (negb _); done.
Qed.

(** C14: what a package can ask for.  In a validated manifest neither the
    application nor a login session reaches a raw bus, an X11 or a Bluetooth socket,
    its bus policy is valid and names no service that would let it out, and the
    isolated capabilities need version 3; sessions have distinct identifiers, start
    an exported binary, never as root and with no command of the host; version 3
    pins its image to a digest, and after version 1 no legacy field is left. *)
Theorem validated_manifest_confined m m' :
  ValidateManifest m = Ok m' →
  let version := ma_ManifestVersion m' in
  version ∈ ["1.0"; "2.0"; "3.0"] ∧
  (∀ o, o ∈ ma_Override m' :: (ss_Override <$> ma_Sessions m') →
    confined_bus version o ∧ AllowedHostCommands o = []) ∧
  NoDup (ss_ID <$> ma_Sessions m') ∧
  (∀ s, s ∈ ma_Sessions m' → ss_Entrypoint s ∈ ma_Binaries m' ∧ AsRoot (ss_Override s) = false ∧
    valid_grants (ss_Override s)) ∧
  (version = "3.0" → ∃ reference, ParseReference (ma_Image m') = Ok reference ∧ re_IsDigest reference = true) ∧
  (version ≠ "1.0" → has_legacy (ma_Override m') = false ∧ valid_grants (ma_Override m')).
Proof.
  intros (o & Ho)%validate_manifest_ok. cbv zeta.
  pose proof (ac_rest _ _ _ Ho) as (_ & Hbus & Hd & Hsess & Hg & Hpin & _)%permissions_ok.
  destruct (migrate_commands_shape _ _ (ac_commands _ _ _ Ho)) as (Hc & _).
  pose proof (ac_version _ _ _ Ho) as Hv.
  assert (ma_ManifestVersion m' = default_version (ma_ManifestVersion m) ∧ ma_Override m' = o) as [Ev Eo]
    by (by rewrite (ac_result _ _ _ Ho)).
  split_and!; [by rewrite Ev| |done| | |].
  - intros p [->|(s & -> & Hs)%list_elem_of_fmap]%elem_of_cons; [by rewrite Eo in *|].
    destruct (Hsess s Hs) as [_ H]. split; [by apply bus_policy_ok, (vs_bus _ _ _ H)|apply (vs_commands _ _ _ H)].
  - intros s Hs. destruct (Hsess s Hs) as [_ H].
    split_and!; [apply (vs_entrypoint _ _ _ H)|apply (vs_user _ _ _ H)|apply (vs_grants _ _ _ H)].
  - intros E. specialize (Hpin E). unfold pinned in Hpin. apply andb_true_iff in Hpin as [_ Hpin].
    destruct (ParseReference _) as [reference|]; [|done]. by exists reference.
  - intros E. rewrite bool_decide_eq_false_2 in Hg by done. destruct Hg as [Hl%no_legacy_fields ?]. naive_solver.
Qed.

(** A package that was accepted can be installed and updated.  The override an
    installation applies is always derived from a validated manifest: it is the
    permissions of the manifest with the legacy fields turned into typed grants, all
    of them valid, it stands for nothing the manifest did not ask for, and what the
    manifest asked for is kept at its access or at a wider one. *)
Theorem accepted_manifest_installs m m' :
  ValidateManifest m = Ok m' →
  ∃ o, installedOverride m' = Ok o ∧ valid_grants o ∧ has_legacy o = false ∧ AllowedHostCommands o = [] ∧
    o = with_lists (ma_Override m') (HostActions (ma_Override m')) (SessionBus (ma_Override m')) (Filesystem o)
      false false false [] [] ∧
    (∀ p, p ∈ Filesystem o → p ∈ legacy_grants (ma_Override m')) ∧
    (∀ p, p ∈ legacy_grants (ma_Override m') → ∃ q, q ∈ Filesystem o ∧ fp_path q = fp_path p ∧
      (fp_access q = fp_access p ∨ fp_access q = "read-write")).
Proof.
  intros (o & Ho)%validate_manifest_ok.
  pose proof (ac_rest _ _ _ Ho) as (_ & _ & _ & _ & Hg & _)%permissions_ok.
  destruct (migrate_commands_shape _ _ (ac_commands _ _ _ Ho)) as (Hc & _).
  pose proof (ac_version _ _ _ Ho) as Hv.
  assert (ma_ManifestVersion m' = default_version (ma_ManifestVersion m) ∧ ma_Override m' = o) as [Ev Eo]
    by (by rewrite (ac_result _ _ _ Ho)).
  rewrite Eo in *. rewrite <-Ev in Hv.
  assert (valid_grants o) as Hvalid.
  { destruct (bool_decide _); [|apply Hg]. unfold valid_grants. destruct Hg as [_ ->]. done. }
  pose proof (migrated_shape o) as Hshape. rewrite Hc in Hshape.
  assert (AllowedHostCommands (WithMigratedFilesystem o) = []) as Hc' by (by rewrite Hshape).
  assert (installedOverride m' = Ok (WithMigratedFilesystem o)) as Hi.
  { unfold installedOverride, MigrateManifest. cbv zeta. rewrite Eo.
    assert (default_version (ma_ManifestVersion m') = ma_ManifestVersion m') as -> by
      (rewrite !elem_of_cons in Hv; by destruct Hv as [->|[->|[->|[]%elem_of_nil]]]).
    destruct (bool_decide (ma_ManifestVersion m' = "1.0")) eqn:E1.
    - apply bool_decide_eq_true in E1. rewrite E1.
      change (one_of "1.0" ["2.0"; "3.0"]) with false. change (bool_decide ("1.0" = "1.0")) with true. cbn [check_that mbind result_bind].
      assert (ValidateFilesystemPermissions (Filesystem (WithMigratedFilesystem o)) = Ok tt) as -> by (by apply migrated_valid).
      cbn [wrap mbind result_bind]. by rewrite migrate_commands_none.
    - apply bool_decide_eq_false in E1.
      assert (one_of (ma_ManifestVersion m') ["2.0"; "3.0"] = true) as ->.
      { apply one_of_elem. by apply elem_of_cons in Hv as [?|?]. }
      rewrite migrate_commands_none by done. cbn.
      destruct Hg as [[Hl _]%no_legacy_fields _]. rewrite Eo in Hl. unfold WithMigratedFilesystem. by rewrite Hl. }
  exists (WithMigratedFilesystem o). split_and!; [done|by apply migrated_valid|apply migrated_no_legacy|done|exact Hshape| |].
  - intros p. apply migrated_elem.
  - intros p (q & ? & ? & ?)%migrated_wider; [|done]. naive_solver.
Qed.

Lemma default_version_idemp v : default_version (default_version v) = default_version v.
Proof. unfold default_version. destruct (decide (v = "")) as [->|H]; [done|]. by rewrite !(bool_decide_eq_false_2 _ H). Qed.

Lemma override_text_valid o n u a :
  validateOverrideText o = Ok tt → validateOverrideText (with_switches o n u a) = Ok tt.
Proof.
  unfold validateOverrideText. rewrite !for_each_ok. intros H x Hx. by eapply H, override_text_migrated.
Qed.

(** C37: validation settles a manifest.  It fills in the version and turns the
    commands into switches once: what it answers is accepted again and unchanged,
    so an installation, an update, a lock and a verification see one manifest. *)
Theorem validation_idempotent m m' :
  ValidateManifest m = Ok m' → ValidateManifest m' = Ok m'.
Proof.
  intros H. pose proof H as (o & Ho)%validate_manifest_ok.
  destruct (migrate_commands_shape _ _ (ac_commands _ _ _ Ho)) as (Hc & n & u & a & Eo).
  pose proof (ac_rest _ _ _ Ho) as Hrest. pose proof (ac_result _ _ _ Ho) as Em.
  assert (validateManifestText m' = Ok tt) as Ht'.
  { pose proof (ac_text _ _ _ Ho) as Ht. unfold validateManifestText in *. rewrite !bind_unit_ok in Ht |- *.
    destruct Ht as (? & ? & Hov & ?). rewrite Em, Eo. cbn [ma_Override with_override].
    split_and!; [done|done|by apply override_text_valid|done]. }
  unfold ValidateManifest in *. cbv zeta in *.
  assert (ma_ManifestVersion m' = default_version (ma_ManifestVersion m) ∧ ma_Override m' = o) as [Ev Eov] by (by rewrite Em).
  rewrite Ev, Eov, default_version_idemp, (migrate_commands_none o Hc), Ht'. cbn [wrap].
  assert (with_override m' (default_version (ma_ManifestVersion m)) o = m') as Em' by (by rewrite Em).
  repeat (apply bind_unit_ok in H as [? H]; apply bind_unit_ok; split; [by try rewrite Em|]).
  cbn [mbind result_bind]. rewrite Em'. apply bind_unit_ok. done.
Qed.
End Validated.

(** ** Example *)
#[export] Instance checks_example : ManifestChecks := {|
  ParseURL url := if bool_decide (url = "https://example.org/a.deb") then Some ("https", "example.org", "/a.deb") else None;
  SchemaValid _ := true
|}.

Definition example_session (o : Override) : Session :=
  mkSession "org.ada.kiosk" "Kiosk" "" "kiosk" "/usr/bin/app" o.
Definition example_manifest (version image : string) (o session : Override) : CpakManifest :=
  mkManifest version "app" "An app." "1" image "" ["/usr/bin/app"] ["usr/share/applications/app.desktop"] []
    [example_session session] [mkDependency "" "github.com/ada/lib" "main" "" "" "layer"] [] None 0 o
    [mkSource "" "https://example.org/a.deb" "00112233445566778899aabbccddeeff00112233445566778899aabbccddeeff" 10 "dpkg" "" ""]
    [] false [].

(** A manifest of the first version, that asks for the home and for a host command. *)
Definition legacy_override : Override :=
  with_lists NewOverride [] no_policy [] false true true ["/srv/data"; "relative"] ["notify-send"].
Definition legacy_manifest : CpakManifest := example_manifest "" "docker.io/ada/app:1" legacy_override NewOverride.
Definition settled_manifest : CpakManifest :=
  with_override legacy_manifest "1.0" (with_switches legacy_override true false false).

Example legacy_manifest_valid : ValidateManifest legacy_manifest = Ok settled_manifest.
Proof. vm_compute. reflexivity. Qed.
Example legacy_manifest_installs :
  (λ o, (Notification o, Filesystem o)) <$> match installedOverride settled_manifest with Ok o => Some o | Err _ => None end =
    Some (true, [mkPerm "/etc" "read-only"; mkPerm "home" "read-write"; mkPerm "/srv/data" "read-write"]).
Proof. vm_compute. reflexivity. Qed.

Lemma validated_manifest_inert_witness :
  (∀ s, s ∈ published_text settled_manifest → inert s) ∧
  contains_rune prose_control (ma_Description settled_manifest) = false.
Proof. apply (validated_manifest_inert legacy_manifest). vm_compute. reflexivity. Defined.

Lemma validated_manifest_confined_witness :
  Forall (λ s, ss_Entrypoint s ∈ ma_Binaries settled_manifest ∧
    AsRoot (ss_Override s) = false ∧ valid_grants (ss_Override s)) (ma_Sessions settled_manifest).
Proof. apply Forall_forall, (validated_manifest_confined legacy_manifest). vm_compute. reflexivity. Defined.

Lemma accepted_manifest_installs_witness :
  ∃ o, installedOverride settled_manifest = Ok o ∧ valid_grants o ∧ has_legacy o = false.
Proof.
  destruct (accepted_manifest_installs legacy_manifest settled_manifest) as (o & H1 & H2 & H3 & _).
  - vm_compute. reflexivity.
  - exists o. split; [exact H1|]. split; [exact H2|exact H3].
Defined.

Lemma validation_idempotent_witness : ValidateManifest settled_manifest = Ok settled_manifest.
Proof. apply (validation_idempotent legacy_manifest). vm_compute. reflexivity. Defined.

(** *** What the validation lets through *)

(** The legacy fields of a session: they are refused in version 3 only, where
    [DecodeManifest] notes them.  In version 2 a session keeps them, and no check of
    the typed grants sees them. *)
Lemma session_legacy_fields_unchecked h directories :
  let session := with_lists NewOverride [] no_policy [] false false true ["/home/ada/.local/share/cpak"] [] in
  let m := example_manifest "2.0" "docker.io/ada/app:1" NewOverride session in
  ValidateManifest m = Ok m ∧ refuseCpakStateGrants h directories (ma_Override m) (ma_Sessions m) = Ok tt ∧
  (ss_Override <$> ma_Sessions m) = [session] ∧ has_legacy session = true.
Proof. vm_compute. done. Qed.

(** The image and the version are not held to one line: the registry of an image is
    any text without a space or a slash, an escape sequence included. *)
Lemma image_drives_terminal :
  let m := example_manifest "1.0" (String "027" "[2J.io/ada/app") NewOverride NewOverride in
  ValidateManifest m = Ok m ∧ contains_rune is_control (ma_Image m) = true.
Proof. vm_compute. done. Qed.
