(* ===== verification/Updates.v ===== *)
(** * Updates and rollbacks ([pkg/cpak/transaction.go], [history.go], [apps.go], [store-db.go])

    The store of installed applications, the transaction around a replacement, what
    recovery makes of one that was interrupted, the history a rollback returns to and
    the update of an application. *)
From Stdlib Require Import Ascii.
From stdpp Require Import base strings list numbers gmap.
From S2P Require Import Prelude.
From S2P Require Import GoStrings.
From S2P Require Import GoPath.
From S2P Require Import DBusPolicy.
From S2P Require Import HostActions.
From S2P Require Import Filesystem.
From S2P Require Import Override.
From S2P Require Import Applications.
From S2P Require Import Hex.
From S2P Require Import Base64.
From S2P Require Import TrustedFiles.
From S2P Require Import Repository.
From S2P Require Import Manifest.
From S2P Require Import Integrity.
From stdpp Require Import options.

#[local] Open Scope nat_scope.

(** ** Parameters *)
Record updateTransaction : Type := mkTransaction {
  tx_Previous : Application;
  tx_Updated : Application;
  tx_Committed : bool
}.

(** The engine of the store: what it holds under each key, and the order in which
    an index answers. *)
Class Engine : Type := {
  engine : Type;
  held : engine → gmap string Application;
  Put : string → Application → engine → engine;
  Delete : string → engine → engine;
  GetByIndex : string → engine → list Application;
  Each : engine → list Application
}.
Class EngineLaws (E : Engine) : Prop := {
  held_Put : ∀ k a e, held (Put k a e) = <[k := a]> (held e);
  held_Delete : ∀ k e, held (Delete k e) = delete k (held e);
  each_spec : ∀ e a, a ∈ Each e ↔ ∃ k, held e !! k = Some a;
  index_spec : ∀ origin e a, a ∈ GetByIndex origin e ↔ ∃ k, held e !! k = Some a ∧ ap_Origin a = origin
}.

Class UpdateCodec : Type := {
  encode_transaction : updateTransaction → string;
  decode_transaction : string → option updateTransaction;
  encode_history : list Application → string;
  decode_history : string → option (list Application)
}.
(** What is [stored] can be written as JSON and read again; what was read is. *)
Class UpdateCodecLaws (C : UpdateCodec) (stored : Application → Prop) : Prop := {
  decode_encode_transaction : ∀ t, stored (tx_Previous t) → stored (tx_Updated t) →
    decode_transaction (encode_transaction t) = Some t;
  decode_encode_history : ∀ l, Forall stored l → decode_history (encode_history l) = Some l;
  decoded_stored : ∀ data l, decode_history data = Some l → Forall stored l
}.

Inductive update_error : Type :=
  | StoreUnopened | CpakIdMissing | EngineFailed | NotInstalled (origin : string)
  | FileFailed (e : file_error) | TransactionUndecoded (path : string) | HistoryUndecoded | NoHistory
  | RestoreFailed (updated app : string)
  | LatestReleaseUnsupported | ManifestRefused (e : manifest_error) | StateGrant (e : fs_error)
  | ImageUnresolved (e : repository_error) | HostFailed (step : string).

(** ** The state: the files, the engine, and the calls that will fail *)
Section Updates.
Context {E : Engine} {codec : UpdateCodec} (sha256 : string → string) (StorePath : string).

Record package_state : Type := mkState { st_world : world; st_engine : engine }.
Definition apps (s : package_state) : gmap string Application := held (st_engine s).

Notation P := (SM package_state update_error).

Definition on_files {A} (m : M file_error A) : P A := λ s,
  let '(r, w) := m (st_world s) in (wrap FileFailed r, mkState w (st_engine s)).

(** A call of the engine, or of the host, that may fail before it does anything. *)
Definition may_fail (e : update_error) : P () := λ s,
  let '(b, w) := next_fault (st_world s) in (if b then Err e else Ok (), mkState w (st_engine s)).
Definition engine_write (f : engine → engine) : P () := λ s,
  let '(b, w) := next_fault (st_world s) in
  if b then (Err EngineFailed, mkState w (st_engine s)) else (Ok (), mkState w (f (st_engine s))).
Definition engine_read {A} (f : engine → A) : P A := λ s,
  let '(b, w) := next_fault (st_world s) in
  (if b then Err EngineFailed else Ok (f (st_engine s)), mkState w (st_engine s)).

(** ** The store ([store-db.go]) *)
Definition NewStore : P () := may_fail StoreUnopened.

Definition NewApplication (app : Application) : P () :=
  if bool_decide (ap_CpakId app = "") then fail CpakIdMissing
  else engine_write (Put (ap_CpakId app) app).

Definition RemoveApplicationByCpakId (id : string) : P () := engine_write (Delete id).

Definition selects (version branch commit release : string) (app : Application) : bool :=
  let unset_or selector value := bool_decide (selector = "") || bool_decide (value = selector) in
  unset_or version (ap_Version app) && unset_or branch (ap_Branch app) && unset_or commit (ap_Commit app) &&
  unset_or release (ap_Release app).

Definition GetApplicationsByOrigin (origin version branch commit release : string) : P (list Application) :=
  found ← engine_read (GetByIndex origin);
  mret (filter (λ app, selects version branch commit release app = true) found).

Definition GetApplicationByOrigin (origin version branch commit release : string) : P Application :=
  found ← GetApplicationsByOrigin origin version branch commit release;
  match found with
  | app :: _ => mret app
  | [] => fail (NotInstalled origin)
  end.

(** The loop of the removals of an origin at a branch, a commit or a release. *)
Fixpoint remove_each (found : list Application) : P () :=
  match found with
  | [] => mret ()
  | app :: found => RemoveApplicationByCpakId (ap_CpakId app) ;;; remove_each found
  end.
Definition RemoveApplicationByOriginAndBranch (origin branch : string) : P () :=
  found ← GetApplicationsByOrigin origin "" branch "" ""; remove_each found.
Definition RemoveApplicationByOriginAndCommit (origin commit : string) : P () :=
  found ← GetApplicationsByOrigin origin "" "" commit ""; remove_each found.
Definition RemoveApplicationByOriginAndRelease (origin release : string) : P () :=
  found ← GetApplicationsByOrigin origin "" "" "" release; remove_each found.

Definition getStoredApplication (origin version branch commit release : string) : P Application :=
  NewStore ;;; GetApplicationByOrigin origin version branch commit release.
Definition storeApplication (app : Application) : P () := NewStore ;;; NewApplication app.
Definition GetInstalledApps : P (list Application) := NewStore ;;; engine_read Each.

(** ** Replacing an application ([apps.go]) *)
Definition replaceApplication (app updated : Application) : P () :=
  NewStore ;;;
  if bool_decide (ap_CpakId app = ap_CpakId updated) then NewApplication updated
  else
    RemoveApplicationByCpakId (ap_CpakId app) ;;;
    stored ← try (NewApplication updated);
    match stored with
    | Ok _ => mret ()
    | Err e =>
        restored ← try (NewApplication app);
        match restored with
        | Ok _ => fail e
        | Err _ => fail (RestoreFailed (ap_CpakId updated) (ap_CpakId app))
        end
    end.

(** ** Files *)

(** [filepath.Dir]. *)
Definition dir (path : string) : string := clean (str_take (Z.to_nat (last_index slash path + 1)) path).

(** A file is created beside [path], written, closed and renamed over it. *)
Definition replace_file (path data : string) : P () := on_files (
  mkdir_all (dir path) ;;;
  call ;;; call ;;; call ;;;
  rename_new path data 384).

(** ** Transactions ([transaction.go]) *)
Definition transactions_directory : string := path_join [StorePath; "transactions"; "updates"].
Definition transactionPath (app : Application) : string :=
  path_join [StorePath; "transactions"; "updates"; ap_CpakId app +:+ ".json"].

Definition writeUpdateTransaction (t : updateTransaction) : P () :=
  replace_file (transactionPath (tx_Previous t)) (encode_transaction t).
Definition beginUpdateTransaction (previous updated : Application) : P updateTransaction :=
  let t := mkTransaction previous updated false in
  writeUpdateTransaction t ;;; mret t.
Definition commitUpdateTransaction (t : updateTransaction) : P () :=
  writeUpdateTransaction (mkTransaction (tx_Previous t) (tx_Updated t) true).
Definition finishUpdateTransaction (t : updateTransaction) : P () :=
  removed ← try (on_files (remove (transactionPath (tx_Previous t))));
  match removed with
  | Ok _ | Err (FileFailed Missing) => mret ()
  | Err e => fail e
  end.

(** [filepath.Ext] of a name without a slash. *)
Definition ext (name : string) : string :=
  let i := last_index "." name in if (i <? 0)%Z then "" else str_drop (Z.to_nat i) name.

(** The name of a path that is in [directory] itself. *)
Definition child_name (directory path : string) : option string :=
  if has_prefix (directory +:+ "/") path then
    let name := trim_prefix (directory +:+ "/") path in
    if bool_decide (name = "") || has_byte slash name then None else Some name
  else None.

(** [os.ReadDir]: the names in their order, and whether each is a directory. *)
Definition child_names (directory : string) (fs : gmap string node) : list string :=
  sort_strings (omap (child_name directory) ((map_to_list fs).*1)).
Definition is_directory (n : option node) : bool := match n with Some (Directory _ _) => true | _ => false end.
Definition ReadDir (directory : string) : M file_error (list (string * bool)) := λ w,
  let '(b, w') := next_fault w in
  (if b then Err Failed
   else match w_fs w !! directory with
   | None => Err Missing
   | Some (Directory _ _) =>
       Ok ((λ name, (name, is_directory (w_fs w !! (directory +:+ "/" +:+ name)))) <$> child_names directory (w_fs w))
   | Some _ => Err Failed
   end, w').

(** What an update asks of the rest of the program and of the network: the fields
    of [updateDeps], the identity of a manifest, the directories of cpak and the
    report of an enrolment. *)
Record updateDeps : Type := mkDeps {
  latestRelease : string → P string;
  fetchManifest : string → string → string → P CpakManifest;
  installDeps : string → CpakManifest → P (list Dependency);
  pull : string → string → string → P (list string * string * string);
  buildRuntime : list string → list RuntimeSource → P (list string);
  buildLocale : list string → string → string → Override → P (list string);
  bindBuiltLayers : list string → list string → P ();
  prepareStorage : Application → P ();
  stop : Application → P ();
  createExports : Application → P ();
  removeExports : Application → Application → P ();
  reportUpdateEnrolment : Application → CpakManifest → P ();
  ManifestIdentityDigest : CpakManifest → result update_error string;
  StateGrants : Override → list Session → result fs_error ()
}.
Context (deps : updateDeps).

(** ** Recovery ([transaction.go]) *)
Definition recover_entry (entry : string * bool) : P () :=
  let '(name, directory) := entry in
  if (directory : bool) || negb (bool_decide (ext name = ".json")) then mret ()
  else
    let path := path_join [transactions_directory; name] in
    data ← on_files (read_file path);
    match decode_transaction data with
    | None => fail (TransactionUndecoded path)
    | Some transaction =>
        (if tx_Committed transaction then mret ()
         else
           replaceApplication (tx_Updated transaction) (tx_Previous transaction) ;;;
           createExports deps (tx_Previous transaction)) ;;;
        on_files (remove path)
    end.

Fixpoint recover_entries (entries : list (string * bool)) : P () :=
  match entries with
  | [] => mret ()
  | entry :: entries => recover_entry entry ;;; recover_entries entries
  end.

Definition RecoverUpdateTransactions : P () :=
  entries ← try (on_files (ReadDir transactions_directory));
  match entries with
  | Err (FileFailed Missing) => mret ()
  | Err e => fail e
  | Ok entries => recover_entries entries
  end.

(** ** The history of an origin ([history.go]) *)
Definition rollbackHistoryLimit : nat := 3.

Definition rollbackHistoryPath (origin : string) : string :=
  path_join [StorePath; "history"; hex_encode (sha256 origin) +:+ ".json"].

(** A file that is not there reads as no history. *)
Definition read_or_missing (path : string) : M file_error (option string) := λ w,
  let '(b, w') := next_fault w in
  (if b then Err Failed
   else match w_fs w !! path with
   | None => Ok None
   | Some (File _ _ data) => Ok (Some data)
   | Some _ => Err Failed
   end, w').

Definition readRollbackHistory (origin : string) : P (list Application) :=
  data ← on_files (read_or_missing (rollbackHistoryPath origin));
  match data with
  | None => mret []
  | Some data => match decode_history data with Some l => mret l | None => fail HistoryUndecoded end
  end.

Definition writeRollbackHistory (origin : string) (l : list Application) : P () :=
  replace_file (rollbackHistoryPath origin) (encode_history l).

(** The last [rollbackHistoryLimit] of them. *)
Definition keep_last (l : list Application) : list Application :=
  if rollbackHistoryLimit <? length l then drop (length l - rollbackHistoryLimit) l else l.
Definition recordRollbackHistory (app : Application) : P () :=
  l ← readRollbackHistory (ap_Origin app);
  writeRollbackHistory (ap_Origin app) (keep_last (l ++ [app])).

Definition clearRollbackHistory (origin : string) : P () :=
  removed ← try (on_files (remove (rollbackHistoryPath origin)));
  match removed with
  | Ok _ | Err (FileFailed Missing) => mret ()
  | Err e => fail e
  end.

Record RollbackResult : Type := mkRollback {
  rb_Origin : string; rb_Name : string; rb_FromVersion : string; rb_ToVersion : string
}.

(** The steps from the record that is installed to the one before it. *)
Definition roll_back_to (app previous : Application) (history : list Application) : P RollbackResult :=
  transaction ← beginUpdateTransaction app previous;
  createExports deps previous ;;;
  stop deps app ;;;
  replaceApplication app previous ;;;
  commitUpdateTransaction transaction ;;;
  removeExports deps app previous ;;;
  writeRollbackHistory (ap_Origin app) (take (length history - 1) history) ;;;
  finishUpdateTransaction transaction ;;;
  mret (mkRollback (ap_Origin app) (ap_Name previous) (ap_Version app) (ap_Version previous)).

Definition Rollback (origin : string) : P RollbackResult :=
  app ← getStoredApplication origin "" "" "" "";
  history ← readRollbackHistory (ap_Origin app);
  match last history with
  | None => fail NoHistory
  | Some previous => roll_back_to app previous history
  end.

(** ** An update ([apps.go]) *)
Inductive UpdateStatus : Type := Updated | UpToDate | Pinned | Unsupported | UpdateFailed | PermissionDenied.

Record UpdateResult : Type := mkResult {
  ur_Origin : string;
  ur_Name : string;
  ur_SourceType : string;
  ur_Status : option UpdateStatus;
  ur_OldVersion : string;
  ur_NewVersion : string;
  ur_PermissionChanges : list string;
  ur_PermissionAdditions : list string;
  ur_Err : option update_error
}.

Definition start_result (app : Application) : UpdateResult :=
  mkResult (ap_Origin app) (ap_Name app) (SourceType app) None (ap_Version app) (ap_Version app) [] [] None.
Definition with_status (r : UpdateResult) (s : UpdateStatus) (e : option update_error) : UpdateResult :=
  mkResult (ur_Origin r) (ur_Name r) (ur_SourceType r) (Some s) (ur_OldVersion r) (ur_NewVersion r)
    (ur_PermissionChanges r) (ur_PermissionAdditions r) e.
Definition with_version (r : UpdateResult) (version : string) : UpdateResult :=
  mkResult (ur_Origin r) (ur_Name r) (ur_SourceType r) (ur_Status r) (ur_OldVersion r) version
    (ur_PermissionChanges r) (ur_PermissionAdditions r) (ur_Err r).
Definition with_permissions (r : UpdateResult) (changes additions : list string) : UpdateResult :=
  mkResult (ur_Origin r) (ur_Name r) (ur_SourceType r) (ur_Status r) (ur_OldVersion r) (ur_NewVersion r)
    changes additions (ur_Err r).
Definition failedUpdate (r : UpdateResult) (e : update_error) : UpdateResult := with_status r UpdateFailed (Some e).

(** [Override.Diff]: the keys of the fields that differ. *)
Definition field_differs (o next : Override) (k : field_kind) : bool :=
  match k with
  | KBool get => negb (bool_decide (get o = get next))
  | KInt get => negb (bool_decide (get o = get next))
  | KStrings get => negb (bool_decide (get o = get next))
  | KActions get => negb (bool_decide (get o = get next))
  | KPermissions get => negb (bool_decide (get o = get next))
  | KFilePicker get => negb (bool_decide (get o = get next))
  | KSessionBus get => negb (bool_decide (get o = get next))
  end.
Definition Diff (o next : Override) : list string :=
  f_key <$> filter (λ f, field_differs o next (f_kind f) = true) fields.

(** One iteration over the updated sessions: the ones of the installation that are
    left, the changes and the additions. *)
Definition session_step (st : gmap string Session * list string * list string) (s : Session) :
    gmap string Session * list string * list string :=
  let '(previous, changes, additions) := st in
  let id := "session:" +:+ ss_ID s in
  match previous !! ss_ID s with
  | None => (previous, changes ++ [id], additions ++ [id])
  | Some old =>
      (delete (ss_ID s) previous,
       changes ++ ((λ key, id +:+ ":" +:+ key) <$> Diff (ss_Override old) (ss_Override s)),
       additions ++ ((λ key, id +:+ ":" +:+ key) <$> Additions (ss_Override old) (ss_Override s)))
  end.
Definition sessionPermissionChanges (current updated : list Session) : list string * list string :=
  let previous := foldl (λ m s, <[ss_ID s := s]> m) (∅ : gmap string Session) current in
  let '(left_over, changes, additions) := foldl session_step (previous, [], []) updated in
  (changes ++ ((λ kv, "session:" +:+ kv.1) <$> map_to_list left_over), additions).

Definition sameInstallation (app updated : Application) : bool :=
  let or_unset (held value : string) := bool_decide (held = "") || bool_decide (held = value) in
  bool_decide (ap_CpakId app = ap_CpakId updated) && bool_decide (ap_Version app = ap_Version updated) &&
  bool_decide (ap_Config app = ap_Config updated) &&
  or_unset (ap_Image app) (ap_Image updated) && or_unset (ap_ImageDigest app) (ap_ImageDigest updated) &&
  bool_decide (ap_ParsedLayers app = ap_ParsedLayers updated) &&
  bool_decide (ap_ParsedBinaries app = ap_ParsedBinaries updated) &&
  bool_decide (ap_ParsedDesktopEntries app = ap_ParsedDesktopEntries updated) &&
  bool_decide (ap_ParsedSessions app = ap_ParsedSessions updated) &&
  bool_decide (ap_ParsedAddons app = ap_ParsedAddons updated) &&
  bool_decide (ap_ParsedAddonProvider app = ap_ParsedAddonProvider updated) &&
  bool_decide (ap_IdleTime app = ap_IdleTime updated) &&
  bool_decide (ap_ParsedDependencies app = ap_ParsedDependencies updated) &&
  bool_decide (ap_RuntimeSources app = ap_RuntimeSources updated) &&
  bool_decide (ap_ParsedOverride app = ap_ParsedOverride updated).

(** The failures of [restoreExports] are only logged. *)
Definition restoreExports (app updated : Application) : P () :=
  try (E := update_error) (removeExports deps updated app) ;;; try (createExports deps app) ;;; mret ().

(** The rest of an update once what is to be installed is known, from the
    comparison with what is installed on. *)
Notation U := (SM package_state UpdateResult).
Definition or_failed {A} (r : UpdateResult) (m : P A) : U A := map_error (failedUpdate r) m.

(** A step whose failure rolls the exports back. *)
Definition or_restored (r : UpdateResult) (app updated : Application) (m : P ()) : U () :=
  done ← try m;
  match done with
  | Ok _ => mret ()
  | Err e => or_failed r (restoreExports app updated) ;;; fail (failedUpdate r e)
  end.

Definition refreshInstallation (app updated : Application) (manifest : CpakManifest) (r : UpdateResult) : U UpdateResult :=
  or_failed r (createExports deps updated) ;;;
  (if bool_decide (ap_ImageDigest app = "") || negb (bool_decide (ap_ManifestDigest app = ap_ManifestDigest updated))
   then or_failed r (replaceApplication app updated) else mret ()) ;;;
  try (reportUpdateEnrolment deps updated manifest) ;;;
  mret (with_status r UpToDate None).

Definition replaceInstallation (app updated : Application) (manifest : CpakManifest) (r : UpdateResult) : U UpdateResult :=
  transaction ← or_failed r (beginUpdateTransaction app updated);
  or_restored r app updated (createExports deps updated) ;;;
  or_restored r app updated (stop deps app) ;;;
  or_restored r app updated (recordRollbackHistory app) ;;;
  or_restored r app updated (replaceApplication app updated) ;;;
  or_failed r (commitUpdateTransaction transaction) ;;;
  (* a failure to remove what is stale is only logged *)
  try (removeExports deps app updated) ;;;
  or_failed r (finishUpdateTransaction transaction) ;;;
  try (reportUpdateEnrolment deps updated manifest) ;;;
  mret (with_version (with_status r Updated None) (ap_Version updated)).

(** The release an update moves to, and nothing for a branch. *)
Definition update_release (app : Application) (r : UpdateResult) : U string :=
  let source := SourceType app in
  if bool_decide (source = "branch") then mret (ap_Release app)
  else if bool_decide (source = "release") then
    latest ← try (latestRelease deps (ap_Origin app));
    match latest with
    | Ok latest => mret latest
    | Err LatestReleaseUnsupported => fail (with_status r Unsupported None)
    | Err e => fail (failedUpdate r e)
    end
  else fail (with_status r Unsupported None).

Definition permission_changes (app : Application) (override : Override) (manifest : CpakManifest) :
    list string * list string :=
  let stored := installedRecordOverride app in
  let '(changes, additions) := sessionPermissionChanges (ap_ParsedSessions app) (ma_Sessions manifest) in
  (Diff stored override ++ changes, Additions stored override ++ additions).

Context {checks : ManifestChecks} {text : NetText}.

(** The manifest of the update, as validation leaves it, and its override. *)
Definition update_manifest (app : Application) (release : string) (r : UpdateResult) : U (CpakManifest * Override) :=
  manifest ← or_failed r (fetchManifest deps (ap_Origin app) (ap_Branch app) release);
  manifest ← or_failed r (lift (wrap ManifestRefused (ValidateManifest manifest)));
  override ← or_failed r (lift (wrap ManifestRefused (installedOverride manifest)));
  mret (manifest, override).

Definition updated_application (app : Application) (manifest : CpakManifest) (override : Override)
    (release version id image : string) (dependencies : list Dependency) (layers : list string)
    (config imageDigest manifestDigest : string) : Application :=
  mkApplication id (ma_Name manifest) version (ap_Branch app) release "" (ap_Origin app) config image imageDigest
    manifestDigest layers dependencies (ma_Binaries manifest) (ma_DesktopEntries manifest)
    (ma_Sessions manifest) (ma_Addons manifest) (ma_AddonProvider manifest) (ma_IdleTime manifest)
    (ma_RuntimeSources manifest) override (ap_PulledIn app) (ap_PulledInBy app).

Definition cpak_image_id (app : Application) (manifest : CpakManifest) (version : string) : string :=
  base64_encode (ma_Name manifest +:+ ":" +:+ SourceType app +:+ ":" +:+ version +:+ ":" +:+ ap_Origin app).

(** What the update installs, prepared in the store. *)
Definition prepare_update (app : Application) (manifest : CpakManifest) (override : Override) (release : string)
    (r : UpdateResult) : U Application :=
  dependencies ← or_failed r (installDeps deps (ap_Origin app) manifest);
  let version := if bool_decide (release = "") then ap_Branch app else release in
  let id := cpak_image_id app manifest version in
  image ← or_failed r (lift (wrap ImageUnresolved
    (resolveManifestImage (ma_Image manifest) (ma_ImageRef manifest) (ap_Branch app) release "")));
  '(pulled, config, imageDigest) ← or_failed r (pull deps image id (ap_Origin app));
  layers ← or_failed r (buildRuntime deps pulled (ma_RuntimeSources manifest));
  layers ← or_failed r (buildLocale deps layers (ma_Image manifest) config (ma_Override manifest));
  or_failed r (bindBuiltLayers deps pulled layers) ;;;
  manifestDigest ← or_failed r (lift (ManifestIdentityDigest deps manifest));
  let updated := updated_application app manifest override release version id image dependencies layers config imageDigest
    manifestDigest in
  or_failed r (prepareStorage deps updated) ;;;
  mret updated.

Definition updateApplication (app : Application) (approvedAdditions : gset string) : U UpdateResult :=
  let r := start_result app in
  if negb (bool_decide (ap_Commit app = "")) then fail (with_status r Pinned None)
  else
    release ← update_release app r;
    '(manifest, override) ← update_manifest app release r;
    or_failed r (lift (wrap StateGrant (StateGrants deps override (ma_Sessions manifest)))) ;;;
    let '(changes, additions) := permission_changes app override manifest in
    let r := with_permissions r changes additions in
    if negb (forallb (λ addition, bool_decide (addition ∈ approvedAdditions)) additions)
    then fail (with_status r PermissionDenied None)
    else
      updated ← prepare_update app manifest override release r;
      if sameInstallation app updated then refreshInstallation app updated manifest r
      else replaceInstallation app updated manifest r.

(** Every outcome is a result. *)
Definition outcome (m : U UpdateResult) : package_state → UpdateResult * package_state := λ s,
  match m s with (Ok r, s') | (Err r, s') => (r, s') end.

Definition preflightUpdate (app : Application) : U UpdateResult :=
  let r := start_result app in
  if negb (bool_decide (ap_Commit app = "")) then fail (with_status r Pinned None)
  else
    release ← update_release app r;
    if bool_decide (SourceType app = "release") && bool_decide (release = ap_Release app)
    then mret (with_status r UpToDate None)
    else
      let r := if bool_decide (SourceType app = "release") then with_version r release else r in
      '(manifest, override) ← update_manifest app release r;
      let '(changes, additions) := permission_changes app override manifest in
      mret (with_permissions r changes additions).

(** ** All of them ([updateWithOptions]) *)
Fixpoint preflights (selected : list Application) (s : package_state) : list UpdateResult * package_state :=
  match selected with
  | [] => ([], s)
  | app :: selected =>
      let '(r, s) := outcome (preflightUpdate app) s in
      let '(rs, s) := preflights selected s in (r :: rs, s)
  end.

(** The additions that were approved, by origin. *)
Definition approved_additions (approved : bool) (needed : list UpdateResult) : gmap string (gset string) :=
  if approved then foldl (λ m r, <[ur_Origin r := list_to_set (ur_PermissionAdditions r)]> m) ∅ needed else ∅.

(** A package that is up to date has its storage and exports prepared again. *)
Definition prepare_again (app : Application) (r : UpdateResult) (s : package_state) : UpdateResult * package_state :=
  let '(prepared, s) := prepareStorage deps app s in
  let r := match prepared with Ok _ => r | Err e => failedUpdate r e end in
  let '(exported, s) := createExports deps app s in
  (match exported with Ok _ => r | Err e => failedUpdate r e end, s).

Definition update_one (approved : bool) (additions : gmap string (gset string)) (app : Application)
    (preflight : UpdateResult) (s : package_state) : UpdateResult * package_state :=
  match ur_Status preflight with
  | Some UpToDate => prepare_again app preflight s
  | Some _ => (preflight, s)
  | None =>
      if negb (length (ur_PermissionAdditions preflight) =? 0) && negb approved
      then (with_status preflight PermissionDenied None, s)
      else outcome (updateApplication app (default ∅ (additions !! ap_Origin app))) s
  end.

Fixpoint update_each (approved : bool) (additions : gmap string (gset string))
    (selected : list (Application * UpdateResult)) (s : package_state) : list UpdateResult * package_state :=
  match selected with
  | [] => ([], s)
  | (app, preflight) :: selected =>
      let '(r, s) := update_one approved additions app preflight s in
      let '(rs, s) := update_each approved additions selected s in (r :: rs, s)
  end.

(** [confirm] is the question to the user, when there is one. *)
Definition updateWithOptions (origin : string) (confirm : option (list UpdateResult → bool)) :
    P (list UpdateResult) :=
  RecoverUpdateTransactions ;;;
  apps ← GetInstalledApps;
  let origin := ToLower origin in
  let selected := filter (λ app, (bool_decide (origin = "") || bool_decide (ToLower (ap_Origin app) = origin)) = true) apps in
  if negb (bool_decide (origin = "")) && (length selected =? 0) then fail (NotInstalled origin)
  else λ s,
    let '(preflight, s) := preflights selected s in
    let needed := filter (λ r, ur_PermissionAdditions r ≠ []) preflight in
    let approved := bool_decide (needed = []) ||
      match confirm with Some ask => ask needed | None => false end in
    let '(results, s) := update_each approved (approved_additions approved needed) (zip selected preflight) s in
    (Ok results, s).

(** ** What the calls do to the state *)
Definition quiet_state (s : package_state) : Prop := quiet (st_world s).
Definition files (s : package_state) : gmap string node := w_fs (st_world s).

(** Neither the store nor a file of it changed. *)
Definition undisturbed (s s' : package_state) : Prop :=
  st_engine s' = st_engine s ∧ only_read (st_world s) (st_world s') ∧ (quiet_state s → quiet_state s').

#[local] Instance undisturbed_preorder : PreOrder undisturbed.
Proof.
  split.
  - intros s. split; [done|]. split; [apply only_read_preorder|done].
  - intros s1 s2 s3 (H1 & H2 & H3) (K1 & K2 & K3). split; [congruence|]. split; [by etrans|auto].
Qed.

Lemma undisturbed_quiet s s' : undisturbed s s' → quiet_state s → s' = s.
Proof.
  intros (He & [Hf Hu] & Hq) Hx. specialize (Hq Hx). unfold quiet_state, quiet in *.
  destruct s as [[] ?], s' as [[] ?]. cbn in *. congruence.
Qed.

(** The rest of the program, as far as the store goes: exports and containers are
    kept elsewhere, and a call that is not made to fail succeeds. *)
Definition elsewhere (m : P ()) : Prop :=
  ∀ s r s', m s = (r, s') → undisturbed s s' ∧ (quiet_state s → r = Ok ()).
Class DepsElsewhere : Prop := {
  createExports_elsewhere : ∀ app, elsewhere (createExports deps app);
  removeExports_elsewhere : ∀ app updated, elsewhere (removeExports deps app updated);
  stop_elsewhere : ∀ app, elsewhere (stop deps app);
  report_elsewhere : ∀ app manifest, elsewhere (reportUpdateEnrolment deps app manifest)
}.
Context (stored : Application → Prop).
Context {laws : EngineLaws E} {codec_laws : UpdateCodecLaws codec stored} {frame : DepsElsewhere}.

Lemma fault_step s b w :
  next_fault (st_world s) = (b, w) →
  undisturbed s (mkState w (st_engine s)) ∧ (quiet_state s → b = false).
Proof.
  intros H. apply next_fault_spec in H as [Hr Hq]. split.
  - split; [done|]. split; [done|]. unfold quiet_state. intros Hx. destruct (Hq Hx) as [_ ->]. done.
  - intros Hx. by destruct (Hq Hx).
Qed.

Lemma may_fail_elsewhere e : elsewhere (may_fail e).
Proof.
  intros s r s'. unfold may_fail. destruct (next_fault _) as [b w] eqn:Eb. intros [= <- <-].
  apply fault_step in Eb as [? Hq]. split; [done|]. intros Hx. by rewrite (Hq Hx).
Qed.

(** A write of the engine: done, or not. *)
Lemma engine_write_spec f s r s' :
  engine_write f s = (r, s') →
  only_read (st_world s) (st_world s') ∧ (quiet_state s → quiet_state s' ∧ r = Ok ()) ∧
  match r with Ok _ => st_engine s' = f (st_engine s) | Err _ => st_engine s' = st_engine s end.
Proof.
  unfold engine_write. destruct (next_fault _) as [b w] eqn:Eb. apply fault_step in Eb as [(_ & Hr & Hq) Hb].
  destruct b; intros [= <- <-]; (split; [done|]; split; [|done]); intros Hx; [by specialize (Hb Hx)|by split; [apply Hq|]].
Qed.

(** What a call does to the applications, whichever way it ends: it touches those of
    [ids] alone. *)
Definition touches (ids : list string) (s s' : package_state) : Prop :=
  only_read (st_world s) (st_world s') ∧ (quiet_state s → quiet_state s') ∧
  ∀ k, k ∉ ids → apps s' !! k = apps s !! k.

#[local] Instance touches_preorder ids : PreOrder (touches ids).
Proof.
  split.
  - intros s. split; [apply only_read_preorder|done].
  - intros s1 s2 s3 (H1 & H2 & H3) (K1 & K2 & K3). split; [by etrans|]. split; [auto|].
    intros k Hk. by rewrite K3, H3.
Qed.

Lemma undisturbed_touches ids s s' : undisturbed s s' → touches ids s s'.
Proof. intros (He & Hr & Hq). split; [done|]. split; [done|]. intros k _. unfold apps. by rewrite He. Qed.

Lemma new_application_spec app s r s' :
  NewApplication app s = (r, s') → ap_CpakId app ≠ "" →
  touches [ap_CpakId app] s s' ∧ (quiet_state s → r = Ok ()) ∧
  match r with Ok _ => apps s' = <[ap_CpakId app := app]> (apps s) | Err _ => apps s' = apps s end.
Proof using laws.
  unfold NewApplication. intros H Hid. rewrite bool_decide_eq_false_2 in H by done.
  apply engine_write_spec in H as (Hr & Hq & He). unfold apps.
  assert (match r with Ok _ => held (st_engine s') = <[ap_CpakId app := app]> (held (st_engine s))
    | Err _ => held (st_engine s') = held (st_engine s) end) as Ha.
  { destruct r; rewrite He; [by rewrite held_Put|done]. }
  split; [|split; [naive_solver|done]]. split; [done|]. split; [naive_solver|]. intros k Hk. unfold apps.
  destruct r; rewrite Ha; [|done]. rewrite lookup_insert_ne; [done|]. intros <-. apply Hk. by left.
Qed.

Lemma remove_application_spec id s r s' :
  RemoveApplicationByCpakId id s = (r, s') →
  touches [id] s s' ∧ (quiet_state s → r = Ok ()) ∧
  match r with Ok _ => apps s' = delete id (apps s) | Err _ => apps s' = apps s end.
Proof using laws.
  unfold RemoveApplicationByCpakId. intros (Hr & Hq & He)%engine_write_spec. unfold apps.
  assert (match r with Ok _ => held (st_engine s') = delete id (held (st_engine s))
    | Err _ => held (st_engine s') = held (st_engine s) end) as Ha.
  { destruct r; rewrite He; [by rewrite held_Delete|done]. }
  split; [|split; [naive_solver|done]]. split; [done|]. split; [naive_solver|]. intros k Hk. unfold apps.
  destruct r; rewrite Ha; [|done]. rewrite lookup_delete_ne; [done|]. intros ->. apply Hk. by left.
Qed.

(** What replacing makes of the applications. *)
Definition replaced (app updated : Application) (m : gmap string Application) : gmap string Application :=
  <[ap_CpakId updated := updated]> (delete (ap_CpakId app) m).

Lemma touches_wider ids ids' s s' : ids ⊆ ids' → touches ids s s' → touches ids' s s'.
Proof. intros Hi (H1 & H2 & H3). split; [done|]. split; [done|]. intros k Hk. apply H3. intros ?. by apply Hk, Hi. Qed.

(** Storing a record, whatever its identifier. *)
Lemma new_application_touches app s r s' :
  NewApplication app s = (r, s') → touches [ap_CpakId app] s s'.
Proof using laws.
  intros H. destruct (decide (ap_CpakId app = "")) as [E0|Hne]; [|by apply new_application_spec in H as [? _]].
  unfold NewApplication in H. rewrite bool_decide_eq_true_2 in H by done. by injection H as <- <-.
Qed.

Lemma replace_application_spec app updated s r s' :
  replaceApplication app updated s = (r, s') →
  touches [ap_CpakId app; ap_CpakId updated] s s' ∧
  (ap_CpakId updated ≠ "" → quiet_state s → r = Ok ()) ∧
  (ap_CpakId updated ≠ "" → r = Ok () → apps s' = replaced app updated (apps s)).
Proof using laws.
  set (ids := [ap_CpakId app; ap_CpakId updated]).
  assert ([ap_CpakId app] ⊆ ids) as Hia by (intros x ->%list_elem_of_singleton; by left).
  assert ([ap_CpakId updated] ⊆ ids) as Hiu by (intros x ->%list_elem_of_singleton; right; by left).
  unfold replaceApplication. intros H. apply bind_M in H as [([] & s1 & Hn & H)|(e & Hn & ->)];
    apply may_fail_elsewhere in Hn as [Hu Hq]; pose proof (undisturbed_touches ids _ _ Hu) as Ht.
  2: { split; [done|]. split; [|done]. intros _ Hx. by specialize (Hq Hx). }
  assert (apps s1 = apps s) as Ea by (unfold apps; by rewrite (proj1 Hu)).
  assert (quiet_state s → quiet_state s1) as Hq1 by apply Hu.
  case_bool_decide as Eid.
  - pose proof (new_application_touches _ _ _ _ H) as Ht2.
    split; [etrans; [exact Ht|]; eapply touches_wider; [exact Hiu|exact Ht2]|].
    split; intros Hne; apply new_application_spec in H as (_ & Hq2 & Hr); auto.
    intros ->. rewrite Hr, Ea. unfold replaced. rewrite Eid. by rewrite insert_delete_eq.
  - apply bind_M in H as [([] & s2 & Hd & H)|(e & Hd & ->)]; apply remove_application_spec in Hd as (Ht2 & Hq2 & Hr2);
      eapply touches_wider in Ht2; [|exact Hia| |exact Hia].
    2: { split; [by etrans|]. split; [|done]. intros _ Hx. by specialize (Hq2 (Hq1 Hx)). }
    assert (quiet_state s → quiet_state s2) as Hqs by (intros Hx; by apply Ht2, Hq1).
    rewrite bind_try in H. destruct (NewApplication updated s2) as [added s3] eqn:E3.
    pose proof (new_application_touches _ _ _ _ E3) as Ht3. eapply touches_wider in Ht3; [|exact Hiu].
    destruct added as [[]|e].
    + injection H as <- <-. split; [by repeat (etrans; [eassumption|])|]. split; [done|]. intros Hne _.
      apply new_application_spec in E3 as (_ & _ & Hr3); [|done]. by rewrite Hr3, Hr2, Ea.
    + rewrite bind_try in H. destruct (NewApplication app s3) as [back s4] eqn:E4.
      pose proof (new_application_touches _ _ _ _ E4) as Ht4. eapply touches_wider in Ht4; [|exact Hia].
      assert (touches ids s s4) by (by repeat (etrans; [eassumption|])).
      assert (s' = s4 ∧ r ≠ Ok ()) as [-> Hr] by (by destruct back; injection H as <- <-).
      split; [done|]. split; [|done]. intros Hne Hx. apply new_application_spec in E3 as (_ & Hq3 & _); [|done].
      by specialize (Hq3 (Hqs Hx)).
Qed.

(** ** The directory of the transactions *)
Definition transaction_name (p : Application) : string := ap_CpakId p +:+ ".json".

Lemma transaction_name_plain p : has_byte slash (ap_CpakId p) = false → plain (transaction_name p).
Proof.
  intros Hs. unfold transaction_name. split_and!.
  - by destruct (ap_CpakId p).
  - intros E0. apply (f_equal slen) in E0. rewrite slen_app in E0. cbn in E0. lia.
  - intros E0. apply (f_equal slen) in E0. rewrite slen_app in E0. cbn in E0. lia.
  - by rewrite has_byte_app, Hs.
Qed.

Lemma path_join_cons S l : S ≠ "" → path_join (S :: l) = clean (join "/" (S :: l)).
Proof. intros H. unfold path_join. by rewrite bool_decide_eq_false_2. Qed.

(** A path below the store is written out by its elements. *)
Lemma store_path l :
  is_abs StorePath = true → l ≠ [] → Forall plain l →
  path_join (StorePath :: l) = "/" +:+ join "/" (path_parts StorePath ++ l).
Proof.
  intros Ha Hne Hl. destruct (plain_below StorePath l Ha Hne Hl) as (Hc & Habs & Hp).
  assert (path_join (StorePath :: l) = path_join [StorePath; join "/" l]) as ->.
  { rewrite !path_join_cons by (by intros ->). by destruct l. }
  by rewrite <-Hc, clean_abs_eq, Hp by done.
Qed.

Lemma child_of_join (l : list string) x :
  l ≠ [] → "/" +:+ join "/" (l ++ [x]) = ("/" +:+ join "/" l) +:+ "/" +:+ x.
Proof. intros Hl. rewrite join_parts_app by done. by autorewrite with strs. Qed.

Lemma child_name_some d path name :
  child_name d path = Some name ↔ path = d +:+ "/" +:+ name ∧ name ≠ "" ∧ has_byte slash name = false.
Proof.
  unfold child_name. split.
  - destruct (has_prefix (d +:+ "/") path) eqn:Ep; [|done]. apply has_prefix_iff in Ep as (t & ->).
    rewrite trim_prefix_app. destruct (bool_decide _ || _) eqn:Eb; [done|]. intros [= <-].
    apply orb_false_iff in Eb as [Hn%bool_decide_eq_false Hs]. split; [by autorewrite with strs|done].
  - intros (-> & Hn & Hs). assert (d +:+ "/" +:+ name = (d +:+ "/") +:+ name) as -> by (by autorewrite with strs).
    rewrite has_prefix_app, trim_prefix_app, Hs, bool_decide_eq_false_2 by done. done.
Qed.

Lemma clean_trailing d : is_abs d = true → clean (d +:+ "/") = clean d.
Proof.
  intros Ha. assert (is_abs (d +:+ "/") = true) as Ha'.
  { apply has_prefix_iff in Ha as (t & ->). rewrite app_assoc_str. apply has_prefix_app. }
  apply clean_parts_inj; [done..|]. unfold path_parts, clean_stack. rewrite Ha, Ha'.
  change (d +:+ "/") with (d +:+ String slash ""). rewrite split_byte_app_sep, foldl_app. done.
Qed.

Lemma dir_child d x :
  is_abs d = true → clean d = d → has_byte slash x = false → dir (d +:+ "/" +:+ x) = d.
Proof.
  intros Ha Hc Hx. unfold dir. change (d +:+ "/" +:+ x) with (d +:+ String slash x).
  rewrite last_index_some by done.
  assert (str_take (Z.to_nat (Z.of_nat (slen d) + 1)) (d +:+ String slash x) = d +:+ "/") as ->.
  { replace (Z.to_nat (Z.of_nat (slen d) + 1)) with (slen (d +:+ "/")) by (rewrite slen_app; cbn; lia).
    assert (d +:+ String slash x = (d +:+ "/") +:+ x) as -> by (by autorewrite with strs). apply str_take_app. }
  by rewrite clean_trailing.
Qed.

Context (store_abs : is_abs StorePath = true).

Lemma transactions_elements :
  transactions_directory = "/" +:+ join "/" (path_parts StorePath ++ ["transactions"; "updates"]) ∧
  is_abs transactions_directory = true ∧ clean transactions_directory = transactions_directory ∧
  path_parts transactions_directory = path_parts StorePath ++ ["transactions"; "updates"].
Proof using store_abs.
  assert (Forall plain ["transactions"; "updates"]) as Hl by (by repeat constructor).
  destruct (plain_below StorePath ["transactions"; "updates"] store_abs) as (Hc & Ha & Hp); [done..|].
  assert (transactions_directory = path_join [StorePath; join "/" ["transactions"; "updates"]]) as Hd.
  { unfold transactions_directory. by rewrite !path_join_cons by (by intros E0; rewrite E0 in store_abs). }
  split_and!; [by apply store_path|by rewrite Hd|by rewrite Hd|by rewrite Hd, Hp].
Qed.

Lemma transaction_path p :
  has_byte slash (ap_CpakId p) = false →
  transactionPath p = transactions_directory +:+ "/" +:+ transaction_name p ∧
  dir (transactionPath p) = transactions_directory ∧
  path_join [transactions_directory; transaction_name p] = transactionPath p.
Proof using store_abs.
  intros Hs. pose proof (transaction_name_plain p Hs) as Hn. destruct transactions_elements as (Hd & Ha & Hc & Hp).
  assert (transactionPath p = transactions_directory +:+ "/" +:+ transaction_name p) as Hpath.
  { unfold transactionPath. fold (transaction_name p). rewrite store_path; [|done|done|].
    2: { constructor; [done|]. constructor; [done|]. by apply plain_one. }
    change ["transactions"; "updates"; transaction_name p] with (["transactions"; "updates"] ++ [transaction_name p]).
    rewrite (assoc_L (++)), child_of_join, Hd; [done|]. by destruct (path_parts StorePath). }
  split; [done|]. split.
  - rewrite Hpath. apply dir_child; [done|done|apply Hn].
  - destruct (plain_below transactions_directory [transaction_name p] Ha) as (Hc' & Ha' & Hp'); [done|by apply plain_one|].
    assert (path_join [transactions_directory; transaction_name p] =
      path_join [transactions_directory; join "/" [transaction_name p]]) as -> by done.
    rewrite <-Hc', clean_abs_eq, Hp', child_of_join, Hp, <-Hd by (done || (rewrite Hp; by destruct (path_parts StorePath))).
    by rewrite Hpath.
Qed.

(** Where the store keeps the histories is not among the transactions. *)
Definition below_store : string :=
  match path_parts StorePath with [] => "/" | l => "/" +:+ join "/" l +:+ "/" end.

Lemma below_store_path l :
  l ≠ [] → "/" +:+ join "/" (path_parts StorePath ++ l) = below_store +:+ join "/" l.
Proof.
  intros Hl. unfold below_store. destruct (path_parts StorePath) as [|x xs] eqn:E0; [done|].
  rewrite join_parts_app by done. by autorewrite with strs.
Qed.

Lemma hex_name_plain (data : string) : plain (hex_encode data +:+ ".json").
Proof.
  assert (has_byte slash (hex_encode data) = false) as Hs by (by apply hex_no_byte).
  split_and!; [by destruct (hex_encode data)| | |by rewrite has_byte_app, Hs];
    intros E0; apply (f_equal slen) in E0; rewrite slen_app in E0; cbn in E0; lia.
Qed.

Definition history_directory : string := path_join [StorePath; "history"].

Lemma history_path origin :
  rollbackHistoryPath origin = history_directory +:+ "/" +:+ hex_encode (sha256 origin) +:+ ".json" ∧
  dir (rollbackHistoryPath origin) = history_directory ∧
  history_directory = below_store +:+ "history".
Proof using store_abs.
  set (x := hex_encode (sha256 origin) +:+ ".json"). pose proof (hex_name_plain (sha256 origin)) as Hx. fold x in Hx.
  assert (plain "history") as Hp by done.
  assert (history_directory = "/" +:+ join "/" (path_parts StorePath ++ ["history"])) as Hd
    by (apply store_path; [done|done|by apply plain_one]).
  assert (rollbackHistoryPath origin = history_directory +:+ "/" +:+ x) as H.
  { unfold rollbackHistoryPath. fold x. rewrite store_path; [|done|done|by constructor; [|apply plain_one]].
    change ["history"; x] with (["history"] ++ [x]).
    rewrite (assoc_L (++)), child_of_join, Hd; [done|]. by destruct (path_parts StorePath). }
  split; [done|]. split; [|by rewrite Hd, below_store_path].
  destruct (plain_below StorePath ["history"] store_abs) as (Hc & Ha & _); [done|by apply plain_one|].
  assert (path_join [StorePath; join "/" ["history"]] = history_directory) as E0 by done. rewrite E0 in *.
  rewrite H. apply dir_child; [done|done|apply Hx].
Qed.

Lemma transactions_below : transactions_directory = below_store +:+ "transactions/updates".
Proof using store_abs. rewrite (proj1 transactions_elements). by rewrite below_store_path. Qed.

(** Neither a history nor their directory is one of the paths of the transactions. *)
Definition apart (path : string) : Prop :=
  path ≠ transactions_directory ∧ child_name transactions_directory path = None.

Lemma apart_history t : apart (below_store +:+ "history" +:+ t).
Proof using store_abs.
  split; rewrite transactions_below.
  - intros H. by apply (inj _) in H.
  - destruct (child_name _ _) as [name|] eqn:Ec; [|done]. apply child_name_some in Ec as (H & _).
    rewrite app_assoc_str in H. by apply (inj _) in H.
Qed.

Lemma apart_history_path origin :
  apart (rollbackHistoryPath origin) ∧ apart (dir (rollbackHistoryPath origin)).
Proof using store_abs.
  destruct (history_path origin) as (H & -> & ->). rewrite H, (proj2 (proj2 (history_path origin))), app_assoc_str.
  split; [apply apart_history|]. pose proof (apart_history "") as Ha. by rewrite app_nil_str in Ha.
Qed.

(** ** Replacing a file *)
Definition grown (d : string) (fs fs' : gmap string node) : Prop :=
  fs' = fs ∨ (fs !! d = None ∧ ∃ uid mode, fs' = <[d := Directory uid mode]> fs).

Lemma mkdir_all_grows path w r w' :
  mkdir_all path w = (r, w') →
  grown path (w_fs w) (w_fs w') ∧ (r = Ok () → is_directory (w_fs w' !! path) = true) ∧
  (quiet w → quiet w' ∧ (w_fs w !! path = None ∨ is_directory (w_fs w !! path) = true → r = Ok ())).
Proof.
  unfold mkdir_all. destruct (next_fault w) as [b w1] eqn:E0. apply next_fault_spec in E0 as [[Hf Hu] Hq].
  destruct b; [intros [= <- <-]; rewrite Hf; split; [by left|]; split; [done|]; intros Hx; by destruct (Hq Hx)|].
  destruct (w_fs w !! path) as [[]|] eqn:El; intros [= <- <-]; cbn; rewrite ?Hf.
  all: try (split; [by left|]; split; [by rewrite ?El|]; intros Hx; destruct (Hq Hx) as [_ ->]; split; [done|]; by intros [|]).
  split; [right; split; [done|]; eauto|]. split; [by rewrite lookup_insert_eq|].
  intros Hx. destruct (Hq Hx) as [_ ->]. by split.
Qed.

Lemma on_files_step {A} (m : M file_error A) s r s' :
  on_files m s = (r, s') → ∃ r0, m (st_world s) = (r0, st_world s') ∧ st_engine s' = st_engine s ∧ r = wrap FileFailed r0.
Proof. unfold on_files. destruct (m (st_world s)) as [r0 w] eqn:E0. intros [= <- <-]. by exists r0. Qed.

Lemma replace_file_spec path data s r s' :
  replace_file path data s = (r, s') →
  st_engine s' = st_engine s ∧ (quiet_state s → quiet_state s') ∧
  (∃ fs, grown (dir path) (files s) fs ∧
     match r with
     | Ok _ => is_directory (fs !! dir path) = true ∧ ∃ uid, files s' = <[path := File uid 384 data]> fs
     | Err _ => files s' = fs
     end) ∧
  (quiet_state s → files s !! dir path = None ∨ is_directory (files s !! dir path) = true →
   is_directory (files s !! path) = false → path ≠ dir path → r = Ok ()).
Proof.
  unfold replace_file. intros (r0 & H & He & ->)%on_files_step. split; [done|].
  apply bind_M in H as [([] & w1 & Hm & H)|(e & Hm & ->)]; apply mkdir_all_grows in Hm as (Hg & Hd & Hq).
  - assert (writes path data 384 (call ;;; call ;;; call ;;; rename_new path data 384)) as Hw
      by (do 3 apply call_writes; apply rename_new_writes).
    apply Hw in H as (Hu & Hr & Hq'). split; [intros Hx; by destruct (Hq' (proj1 (Hq Hx)))|]. split.
    + exists (w_fs w1). split; [done|]. destruct r0 as [[]|e]; cbn; [|done]. split; [by apply Hd|]. unfold files. eauto.
    + intros Hx _ Hp Hne. destruct (Hq' (proj1 (Hq Hx))) as [_ Hok]. rewrite Hok; [done|]. intros u m Hl.
      unfold files in Hp. destruct Hg as [Hg|(Hn & u' & m' & Hg)]; rewrite Hg in Hl.
      * by rewrite Hl in Hp.
      * rewrite lookup_insert_ne in Hl by done. by rewrite Hl in Hp.
  - split; [intros Hx; by destruct (Hq Hx)|]. split; [by exists (w_fs (st_world s'))|].
    intros Hx Hd' _ _. destruct (Hq Hx) as [_ Hok]. by rewrite Hok.
Qed.

(** ** The transaction of an application among the files *)
Definition child (name : string) : string := transactions_directory +:+ "/" +:+ name.

(** The directory of the transactions holds at most the one of [p]. *)
Definition tidy (p : Application) (s : package_state) : Prop :=
  match files s !! transactions_directory with
  | None => files s !! transactionPath p = None
  | n => is_directory n = true
  end ∧
  ∀ name, name ≠ "" → has_byte slash name = false → ext name = ".json" → name ≠ transaction_name p →
    files s !! child name = None.

Lemma child_not_apart name : name ≠ "" → has_byte slash name = false → ¬ apart (child name).
Proof.
  intros Hn Hs [_ Hc]. assert (child_name transactions_directory (child name) = Some name) as He
    by (by apply child_name_some). congruence.
Qed.

Lemma child_inj a b : child a = child b → a = b.
Proof. unfold child. intros H. apply (inj _) in H. by injection H. Qed.

Lemma child_ne name : child name ≠ transactions_directory.
Proof. intros H. apply (f_equal slen) in H. unfold child in H. rewrite !slen_app in H. cbn in H. lia. Qed.

Lemma transaction_child p : has_byte slash (ap_CpakId p) = false → transactionPath p = child (transaction_name p).
Proof using store_abs. intros Hs. by destruct (transaction_path p Hs). Qed.

Lemma transaction_ext p : ext (transaction_name p) = ".json".
Proof.
  unfold ext, transaction_name. change (ap_CpakId p +:+ ".json") with (ap_CpakId p +:+ String "." "json").
  rewrite last_index_some by done. destruct (Z.ltb_spec (Z.of_nat (slen (ap_CpakId p))) 0); [lia|].
  by rewrite Nat2Z.id, str_drop_app.
Qed.

(** Only files apart from the transactions changed. *)
Definition transactions_kept (s s' : package_state) : Prop := ∀ path, apart path ∨ files s' !! path = files s !! path.

Lemma kept_lookup s s' path : transactions_kept s s' → ¬ apart path → files s' !! path = files s !! path.
Proof. intros H Hn. by destruct (H path). Qed.

Section Transaction.
Context (p : Application) (plain_id : has_byte slash (ap_CpakId p) = false).

Lemma transaction_not_apart : ¬ apart (transactionPath p).
Proof using plain_id store_abs.
  rewrite transaction_child by done. destruct (transaction_name_plain p plain_id) as (? & _ & _ & ?).
  by apply child_not_apart.
Qed.

Lemma tidy_kept s s' :
  transactions_kept s s' → tidy p s → tidy p s' ∧ files s' !! transactionPath p = files s !! transactionPath p.
Proof using plain_id store_abs.
  intros Hk [Hd Hc]. pose proof (kept_lookup s s' (transactionPath p) Hk transaction_not_apart) as Hp.
  assert (¬ apart transactions_directory) as Hn by (by intros [? _]).
  split; [|done]. split.
  - rewrite (kept_lookup s s' _ Hk Hn), Hp. done.
  - intros name H1 H2 H3 H4. rewrite (kept_lookup s s' _ Hk) by (by apply child_not_apart). by apply Hc.
Qed.

(** Writing the transaction. *)
Lemma write_transaction_spec t s r s' :
  writeUpdateTransaction t s = (r, s') → tx_Previous t = p → tidy p s →
  st_engine s' = st_engine s ∧ tidy p s' ∧ (quiet_state s → quiet_state s') ∧
  match r with
  | Ok _ => ∃ uid, files s' !! transactionPath p = Some (File uid 384 (encode_transaction t))
  | Err _ => files s' !! transactionPath p = files s !! transactionPath p
  end ∧
  (quiet_state s → is_directory (files s !! transactionPath p) = false → r = Ok ()).
Proof using plain_id store_abs.
  unfold writeUpdateTransaction. intros H Hp [Hd Hc]. rewrite Hp in H.
  apply replace_file_spec in H as (He & Hq & (fs & Hg & Hr) & Hok).
  destruct (transaction_path p plain_id) as (_ & Hdir & _). rewrite Hdir in Hg, Hr, Hok.
  pose proof (transaction_child p plain_id) as Hch. rewrite Hch in *.
  assert (∀ name, fs !! child name = files s !! child name) as Hfs.
  { intros name. destruct Hg as [->|(_ & ? & ? & ->)]; [done|].
    rewrite lookup_insert_ne; [done|]. intros E0. by apply (child_ne name). }
  split; [done|]. split; [|split; [done|split]].
  - unfold tidy. rewrite Hch. split.
    + destruct r as [[]|e].
      * destruct Hr as (Hfd & uid & ->). rewrite lookup_insert_ne by apply child_ne. by destruct (fs !! _).
      * rewrite Hr, Hfs. destruct Hg as [->|(_ & ? & ? & ->)]; [done|]. by rewrite lookup_insert_eq.
    + intros name H1 H2 H3 H4.
      assert (files s' !! child name = files s !! child name) as ->; [|by apply Hc].
      destruct r as [[]|e]; [destruct Hr as (_ & uid & ->)|by rewrite Hr].
      rewrite lookup_insert_ne; [done|]. intros E0. by apply child_inj in E0.
  - destruct r as [[]|e]; [destruct Hr as (_ & uid & ->); exists uid; by rewrite lookup_insert_eq|by rewrite Hr].
  - intros Hx Hf. apply Hok; [done| |done|apply child_ne].
    destruct (files s !! transactions_directory) as [[]|]; by auto.
Qed.

(** Removing it. *)
Lemma remove_transaction_spec s r s' :
  on_files (remove (transactionPath p)) s = (r, s') → tidy p s →
  st_engine s' = st_engine s ∧ tidy p s' ∧ (quiet_state s → quiet_state s') ∧
  match r with
  | Ok _ => files s' !! transactionPath p = None
  | Err e => files s' !! transactionPath p = files s !! transactionPath p ∧
      (e = FileFailed Missing → files s !! transactionPath p = None)
  end ∧
  (quiet_state s → files s !! transactionPath p ≠ None → r = Ok ()).
Proof using plain_id store_abs.
  intros (r0 & H & He & ->)%on_files_step Ht. pose proof (transaction_child p plain_id) as Hch.
  unfold remove in H. destruct (next_fault (st_world s)) as [b w] eqn:Eb. apply next_fault_spec in Eb as [[Hf _] Hq].
  assert (files s' = files s → tidy p s') as Hsame by (intros E0; unfold tidy; by rewrite E0).
  unfold quiet_state. destruct b.
  { injection H as <- Hw. assert (files s' = files s) as E0 by (unfold files; by rewrite <-Hw).
    split; [done|]. split; [by apply Hsame|]. rewrite <-Hw. split; [|split; [|intros Hx; by destruct (Hq Hx)]].
    - intros Hx. by destruct (Hq Hx).
    - by rewrite E0. }
  destruct (w_fs (st_world s) !! transactionPath p) as [n|] eqn:Ep; injection H as <- Hw.
  - assert (files s' = delete (transactionPath p) (files s)) as E0 by (unfold files; by rewrite <-Hw).
    split; [done|]. split; [|split; [|split; [by rewrite E0, lookup_delete_eq|done]]].
    + destruct Ht as [Hd Hc]. unfold tidy. rewrite E0, Hch. split.
      * rewrite lookup_delete_ne, lookup_delete_eq by apply child_ne. by destruct (files s !! transactions_directory).
      * intros name H1 H2 H3 H4. rewrite lookup_delete_ne; [by apply Hc|]. intros E1. by apply child_inj in E1.
    + intros Hx. rewrite <-Hw. destruct (Hq Hx) as [_ ->]. done.
  - assert (files s' = files s) as E0 by (unfold files; by rewrite <-Hw, Hf).
    split; [done|]. split; [by apply Hsame|]. split; [|split; [by rewrite E0|by unfold files; intros _ []]].
    intros Hx. rewrite <-Hw. by destruct (Hq Hx) as [_ ->].
Qed.

End Transaction.

(** ** How far a replacement has got

    [done] says that the record of the update is the one to be kept. *)
Definition replaceable (p u : Application) (m : gmap string Application) : Prop :=
  has_byte slash (ap_CpakId p) = false ∧ ap_CpakId p ≠ "" ∧ ap_CpakId u ≠ "" ∧
  m !! ap_CpakId p = Some p ∧ (ap_CpakId u = ap_CpakId p ∨ m !! ap_CpakId u = None) ∧ stored p ∧ stored u.

Definition pending (t : updateTransaction) (s : package_state) : Prop :=
  ∃ uid, files s !! transactionPath (tx_Previous t) = Some (File uid 384 (encode_transaction t)).

Inductive phase (p u : Application) (m : gmap string Application) (done : bool) (s : package_state) : Prop :=
  | Settled :
      files s !! transactionPath p = None →
      apps s = replaced p u m ∨ (done = false ∧ apps s = m) → phase p u m done s
  | Prepared :
      done = false → pending (mkTransaction p u false) s →
      (∀ k, k ∉ [ap_CpakId p; ap_CpakId u] → apps s !! k = m !! k) → phase p u m done s
  | Decided :
      pending (mkTransaction p u true) s → apps s = replaced p u m → phase p u m done s.

Lemma not_in_two (k a b : string) : k ∉ [a; b] ↔ k ≠ a ∧ k ≠ b.
Proof. rewrite !not_elem_of_cons. split; [by intros (? & ? & _)|intros [? ?]; split_and!; [done..|apply not_elem_of_nil]]. Qed.

Lemma restored p u m m' :
  replaceable p u m → (∀ k, k ∉ [ap_CpakId p; ap_CpakId u] → m' !! k = m !! k) → replaced u p m' = m.
Proof.
  intros (_ & _ & _ & Hp & Hu & _) Hm. apply map_eq. intros k. unfold replaced.
  destruct (decide (k = ap_CpakId p)) as [->|Hkp]; [by rewrite lookup_insert_eq|].
  rewrite lookup_insert_ne by done. destruct (decide (k = ap_CpakId u)) as [->|Hku].
  - rewrite lookup_delete_eq. by destruct Hu.
  - rewrite lookup_delete_ne by done. apply Hm. by apply not_in_two.
Qed.

Lemma replaced_agrees p u m k : k ∉ [ap_CpakId p; ap_CpakId u] → replaced p u m !! k = m !! k.
Proof.
  rewrite not_in_two. intros [H1 H2]. unfold replaced.
  by rewrite lookup_insert_ne, lookup_delete_ne.
Qed.

Lemma phase_weaken p u m b s : phase p u m b s → phase p u m false s.
Proof. intros [H1 [H2|[_ H2]]|H1 H2 H3|H1 H2]; [apply Settled..|apply Prepared|apply Decided]; auto. Qed.

(** What the files of the transactions and the store say is all that matters. *)
Definition same_state (s s' : package_state) : Prop := transactions_kept s s' ∧ apps s' = apps s.

Lemma undisturbed_same s s' : undisturbed s s' → same_state s s'.
Proof.
  intros (He & [Hf _] & _). split; [|by unfold apps; rewrite He]. intros path. right. unfold files. by rewrite Hf.
Qed.

Lemma phase_same p u m b s s' :
  has_byte slash (ap_CpakId p) = false → same_state s s' → tidy p s → phase p u m b s →
  tidy p s' ∧ phase p u m b s'.
Proof using store_abs.
  intros Hs [Hk Ha] Ht Hp. destruct (tidy_kept p Hs s s' Hk Ht) as [Ht' Hf]. split; [done|].
  destruct Hp as [H1 H2|H1 H2 H3|H1 H2]; [apply Settled|apply Prepared|apply Decided];
    unfold pending in *; cbn [tx_Previous] in *; rewrite ?Hf, ?Ha; done.
Qed.

(** ** Recovery *)
Lemma child_names_spec d fs name :
  name ∈ child_names d fs ↔ is_Some (fs !! (d +:+ "/" +:+ name)) ∧ name ≠ "" ∧ has_byte slash name = false.
Proof.
  unfold child_names. rewrite sort_strings_elem, list_elem_of_omap. split.
  - intros (path & ([k n] & -> & Hk)%list_elem_of_fmap & Hc). cbn in Hc. apply child_name_some in Hc as (-> & Hn & Hs).
    apply elem_of_map_to_list in Hk. by eauto.
  - intros ([n Hn] & Hne & Hs). exists (d +:+ "/" +:+ name). split; [|by apply child_name_some].
    apply list_elem_of_fmap. exists (d +:+ "/" +:+ name, n). split; [done|]. by apply elem_of_map_to_list.
Qed.

Lemma child_names_nodup d fs : NoDup (child_names d fs).
Proof.
  unfold child_names. rewrite sort_strings_perm. pose proof (NoDup_fst_map_to_list fs) as Hn.
  induction ((map_to_list fs).*1) as [|path l IH]; [constructor|].
  apply NoDup_cons in Hn as [Hp Hn]. cbn. destruct (child_name d path) as [name|] eqn:Ec; [|by apply IH].
  apply NoDup_cons. split; [|by apply IH]. rewrite list_elem_of_omap. intros (path' & Hin & Ec').
  apply child_name_some in Ec as (-> & _). apply child_name_some in Ec' as (-> & _). done.
Qed.

(** An entry the recovery passes over, or the transaction of [p]. *)
Definition skipped (entry : string * bool) : bool := entry.2 || negb (bool_decide (ext entry.1 = ".json")).
Definition usual (p : Application) (entry : string * bool) : Prop :=
  (entry.1 ≠ transaction_name p ∧ skipped entry = true) ∨ entry = (transaction_name p, false).

Lemma recover_skipped entry : skipped entry = true → recover_entry entry = mret ().
Proof. destruct entry as [name directory]. unfold skipped, recover_entry. cbn. by intros ->. Qed.

Lemma read_dir_spec p s r s' :
  has_byte slash (ap_CpakId p) = false → tidy p s → is_directory (files s !! transactionPath p) = false →
  on_files (ReadDir transactions_directory) s = (r, s') →
  undisturbed s s' ∧
  (∀ entries, r = Ok entries → Forall (usual p) entries ∧ NoDup (entries.*1) ∧
     (transaction_name p ∈ entries.*1 ↔ files s !! transactionPath p ≠ None)) ∧
  (r = Err (FileFailed Missing) → files s !! transactionPath p = None) ∧
  (quiet_state s → ∀ e, r = Err e → e = FileFailed Missing).
Proof using store_abs.
  intros Hs [Hd Hc] Hf (r0 & H & He & ->)%on_files_step. unfold ReadDir in H.
  pose proof (transaction_child p Hs) as Hch. destruct (transaction_name_plain p Hs) as (Hne & _ & _ & Hns).
  destruct (next_fault (st_world s)) as [b w] eqn:Eb. apply next_fault_spec in Eb as [Hr Hq]. injection H as <- ->.
  assert (undisturbed s s') as Hu.
  { split; [done|]. split; [done|]. unfold quiet_state. intros Hx. destruct (Hq Hx) as [_ Hw]. by rewrite Hw. }
  split; [done|]. fold (files s). destruct b.
  { split; [done|]. split; [done|]. intros Hx. by destruct (Hq Hx). }
  destruct (files s !! transactions_directory) as [[?|? ?|?]|] eqn:Ed; cbn [wrap]; try done.
  2: { split; [done|]. split; [done|]. by intros _ e [= <-]. }
  split; [|done]. intros entries [= <-]. split; [|split].
  - apply list.Forall_forall. intros [name dr] (name' & [= -> ->] & Hin)%list_elem_of_fmap.
    apply child_names_spec in Hin as ([n Hn] & H1 & H2). fold (child name') in Hn. unfold usual, skipped. cbn [fst snd].
    destruct (decide (name' = transaction_name p)) as [->|Hx].
    + right. unfold child in Hch. cbn in Hch |- *. by rewrite <-Hch, Hf.
    + left. split; [done|]. case_bool_decide as Ej; [|by rewrite orb_true_r].
      unfold child in Hc, Hn. cbn in Hc, Hn |- *. by rewrite (Hc name' H1 H2 Ej Hx) in Hn.
  - rewrite <-list_fmap_compose. cbn. rewrite list_fmap_id. apply child_names_nodup.
  - rewrite <-list_fmap_compose. cbn. rewrite list_fmap_id, child_names_spec, Hch. fold (child (transaction_name p)).
    rewrite <-not_eq_None_Some. split; [by intros [? _]|intros Hx; split_and!; [exact Hx|done..]].
Qed.

(** ** The history of an origin *)
Definition held_history (origin : string) (s : package_state) : option (list Application) :=
  match files s !! rollbackHistoryPath origin with
  | None => Some []
  | Some (File _ _ data) => decode_history data
  | Some _ => None
  end.
Definition history_writable (origin : string) (s : package_state) : Prop :=
  (files s !! history_directory = None ∨ is_directory (files s !! history_directory) = true) ∧
  is_directory (files s !! rollbackHistoryPath origin) = false.

Lemma history_ne origin : rollbackHistoryPath origin ≠ dir (rollbackHistoryPath origin).
Proof using store_abs.
  destruct (history_path origin) as (H & -> & _). rewrite H. intros E0. apply (f_equal slen) in E0.
  rewrite slen_app in E0. cbn in E0. lia.
Qed.

Lemma read_history_spec origin s r s' :
  readRollbackHistory origin s = (r, s') →
  undisturbed s s' ∧ (∀ l, r = Ok l → held_history origin s = Some l) ∧
  (quiet_state s → ∀ l, held_history origin s = Some l → r = Ok l).
Proof.
  unfold readRollbackHistory, held_history, on_files, read_or_missing, mbind, M_bind. fold (files s).
  destruct (next_fault (st_world s)) as [b w] eqn:Eb. apply fault_step in Eb as [Hu Hq].
  destruct b; [intros [= <- <-]; split; [done|]; split; [done|]; intros Hx; by specialize (Hq Hx)|].
  destruct (files s !! _) as [[? ? data|? ?|? ?]|]; cbn [wrap]; [destruct (decode_history data)|..]; intros [= <- <-];
    (split; [done|]); split; try done; intros; by simplify_eq.
Qed.

Lemma write_history_spec origin l s r s' :
  writeRollbackHistory origin l s = (r, s') → Forall stored l →
  st_engine s' = st_engine s ∧ transactions_kept s s' ∧ (quiet_state s → quiet_state s') ∧
  held_history origin s' = match r with Ok _ => Some l | Err _ => held_history origin s end ∧
  (quiet_state s → history_writable origin s → r = Ok ()) ∧ (r = Ok () → history_writable origin s').
Proof using store_abs codec_laws.
  intros H Hst. apply replace_file_spec in H as (He & Hq & (fs & Hg & Hr) & Hok).
  destruct (apart_history_path origin) as [Ha1 Ha2]. pose proof (history_ne origin) as Hne.
  assert (∀ path, apart path ∨ fs !! path = files s !! path) as Hk.
  { intros path. destruct Hg as [->|(_ & ? & ? & ->)]; [by right|].
    destruct (decide (path = dir (rollbackHistoryPath origin))) as [->|Hx]; [by left|]. right. by rewrite lookup_insert_ne. }
  split; [done|]. split.
  { intros path. destruct r as [[]|e]; [destruct Hr as (_ & uid & ->)|by rewrite Hr].
    destruct (decide (path = rollbackHistoryPath origin)) as [->|Hx]; [by left|]. rewrite lookup_insert_ne by done. apply Hk. }
  split; [done|]. split.
  - unfold held_history. destruct r as [[]|e].
    + destruct Hr as (_ & uid & ->). rewrite lookup_insert_eq. by apply decode_encode_history.
    + rewrite Hr. destruct Hg as [->|(_ & ? & ? & ->)]; [done|]. by rewrite lookup_insert_ne.
  - destruct (history_path origin) as (_ & Hdir & _). rewrite Hdir in *. split.
    + intros Hx [Hd Hf]. by apply Hok.
    + intros ->. destruct Hr as (Hd & uid & E0). unfold history_writable. rewrite E0, lookup_insert_eq, lookup_insert_ne by done. auto.
Qed.

Lemma held_history_stored origin s l : held_history origin s = Some l → Forall stored l.
Proof using codec_laws.
  unfold held_history. destruct (files s !! _) as [[]|]; [by apply decoded_stored|done..|by intros [= <-]].
Qed.

Lemma keep_last_stored l : Forall stored l → Forall stored (keep_last l).
Proof. unfold keep_last. intros H. case_match; [by apply Forall_drop|done]. Qed.

(** Recording keeps the record that was installed last, and no more than the limit. *)
Lemma record_history_spec app s r s' :
  recordRollbackHistory app s = (r, s') → stored app →
  st_engine s' = st_engine s ∧ transactions_kept s s' ∧ (quiet_state s → quiet_state s') ∧
  match r with
  | Ok _ => ∃ l, held_history (ap_Origin app) s = Some l ∧ held_history (ap_Origin app) s' = Some (keep_last (l ++ [app])) ∧
      history_writable (ap_Origin app) s'
  | Err _ => held_history (ap_Origin app) s' = held_history (ap_Origin app) s
  end ∧
  (quiet_state s → ∀ l, history_writable (ap_Origin app) s → held_history (ap_Origin app) s = Some l → r = Ok ()).
Proof using store_abs codec_laws.
  unfold recordRollbackHistory. intros H Hst.
  apply bind_M in H as [(l & s1 & H1 & H)|(e & H1 & ->)]; apply read_history_spec in H1 as (Hu & Hl & Hq).
  - assert (files s1 = files s) as Ef by (unfold files; apply Hu).
    apply write_history_spec in H as (He & Hk & Hq' & Hh & Hok & Hw');
      [|apply keep_last_stored, Forall_app; split; [by eapply held_history_stored, Hl|by repeat constructor]]. unfold held_history, history_writable in *. rewrite Ef in *.
    split; [by rewrite He; apply Hu|]. split; [intros path; destruct (Hk path) as [?|Hk']; [by left|right; by rewrite Hk', Ef]|].
    split; [intros Hx; by apply Hq', Hu|]. split; [destruct r as [[]|e]; [exists l; eauto|done]|].
    intros Hx l' Hw _. apply Hok; [by apply Hu|done].
  - assert (files s' = files s) as Ef by (unfold files; apply Hu).
    split; [apply Hu|]. split; [intros path; right; by rewrite Ef|]. split; [apply Hu|].
    split; [unfold held_history; by rewrite Ef|]. intros Hx l _ Hh. by specialize (Hq Hx l Hh).
Qed.

(** ** Calls that leave the histories *)
Definition histories_kept (s s' : package_state) : Prop :=
  (∀ origin, held_history origin s' = held_history origin s) ∧
  ∀ origin, history_writable origin s → history_writable origin s'.

#[local] Instance histories_kept_preorder : PreOrder histories_kept.
Proof.
  split; [done|]. intros s1 s2 s3 [H1 H2] [K1 K2]. split; [intros o; by rewrite K1, H1|auto].
Qed.

Lemma histories_apart s s' : (∀ path, apart path → files s' !! path = files s !! path) → histories_kept s s'.
Proof using store_abs.
  intros H. split; intros origin; unfold held_history, history_writable;
    destruct (apart_history_path origin) as [Ha1 Ha2]; destruct (history_path origin) as (_ & Hd & _); rewrite Hd in Ha2;
    by rewrite ?(H _ Ha1), ?(H _ Ha2).
Qed.

Lemma histories_same s s' : files s' = files s → histories_kept s s'.
Proof using store_abs. intros H. apply histories_apart. intros path _. by rewrite H. Qed.

Lemma write_transaction_histories p t s r s' :
  writeUpdateTransaction t s = (r, s') → tx_Previous t = p → has_byte slash (ap_CpakId p) = false → histories_kept s s'.
Proof using store_abs.
  unfold writeUpdateTransaction. intros H <- Hs. apply replace_file_spec in H as (_ & _ & (fs & Hg & Hr) & _).
  destruct (transaction_path _ Hs) as (_ & Hdir & _). rewrite Hdir in Hg. apply histories_apart. intros path [Hd Hc].
  assert (path ≠ transactionPath (tx_Previous t)) as Hp.
  { intros ->. by apply (transaction_not_apart (tx_Previous t) Hs). }
  assert (fs !! path = files s !! path) as Hfs by (destruct Hg as [->|(_ & ? & ? & ->)]; [done|by rewrite lookup_insert_ne]).
  destruct r as [[]|e]; [destruct Hr as (_ & uid & ->); by rewrite lookup_insert_ne|by rewrite Hr].
Qed.

Lemma remove_transaction_histories p s r s' :
  on_files (remove (transactionPath p)) s = (r, s') → has_byte slash (ap_CpakId p) = false → histories_kept s s'.
Proof using store_abs.
  intros (r0 & H & He & ->)%on_files_step Hs. apply remove_spec in H as [_ H]. apply histories_apart. intros path Ha.
  assert (path ≠ transactionPath p) as Hp by (intros ->; by apply (transaction_not_apart p Hs)).
  unfold files. destruct r0 as [[]|e]; [rewrite H; by rewrite lookup_delete_ne|]. by destruct H as [-> _].
Qed.

Lemma read_transaction_spec path s r s' :
  on_files (read_file path) s = (r, s') →
  undisturbed s s' ∧ (∀ data, r = Ok data → ∃ uid mode, files s !! path = Some (File uid mode data)) ∧
  (quiet_state s → ∀ uid mode data, files s !! path = Some (File uid mode data) → r = Ok data).
Proof.
  intros (r0 & H & He & ->)%on_files_step. apply read_file_spec in H as (Hr & Hd & Hq). split.
  - split; [done|]. split; [done|]. unfold quiet_state. intros Hx. by destruct (Hq Hx) as [-> _].
  - split; [|intros Hx uid mode data Hl; by rewrite (proj2 (Hq Hx) _ _ _ Hl)].
    intros data Hw. apply Hd. destruct r0; [by injection Hw as ->|done].
Qed.

Lemma touches_kept ids s s' : touches ids s s' → transactions_kept s s'.
Proof. intros ([Hf _] & _) path. right. unfold files. by rewrite Hf. Qed.

Lemma swap_two (a b : string) : [a; b] ⊆ [b; a].
Proof. intros k. rewrite !elem_of_cons. intros [->|[->|Hk]]; [by right; left|by left|by apply not_elem_of_nil in Hk]. Qed.

Section Recovery.
Context (p u : Application) (m : gmap string Application) (ready : replaceable p u m).
Notation F := (transactionPath p).

#[local] Lemma plain_p : has_byte slash (ap_CpakId p) = false.
Proof using ready. apply ready. Qed.

(** The state of a prepared replacement, and what recovering it does. *)
Definition prepared (s : package_state) : Prop :=
  tidy p s ∧ pending (mkTransaction p u false) s ∧
  ∀ k, k ∉ [ap_CpakId p; ap_CpakId u] → apps s !! k = m !! k.

Lemma prepared_phase s : prepared s → tidy p s ∧ phase p u m false s.
Proof. intros (? & ? & ?). split; [done|]. by apply Prepared. Qed.

Lemma prepared_touches s s' : touches [ap_CpakId p; ap_CpakId u] s s' → prepared s → prepared s'.
Proof using ready store_abs.
  intros Ht (H1 & H2 & H3). destruct (tidy_kept p plain_p _ _ (touches_kept _ _ _ Ht) H1) as [H1' Hf].
  split; [done|]. split; [unfold pending in *; cbn [tx_Previous] in *; by rewrite Hf|].
  intros k Hk. rewrite (proj2 (proj2 Ht) k Hk). by apply H3.
Qed.

(** Undoing it: the store is as it was, and the transaction is removed. *)
Lemma undo_spec s r s' :
  (replaceApplication u p ;;; createExports deps p ;;; on_files (remove F)) s = (r, s') →
  prepared s →
  tidy p s' ∧ phase p u m false s' ∧ (quiet_state s → quiet_state s' ∧ r = Ok () ∧ files s' !! F = None).
Proof using ready store_abs laws frame.
  intros H Hp. apply bind_M in H as [([] & s1 & H1 & H)|(e & H1 & ->)]; apply replace_application_spec in H1 as (Ht & Hq & Hr);
    apply (touches_wider _ _ _ _ (swap_two _ _)) in Ht as Ht'; pose proof (prepared_touches _ _ Ht' Hp) as Hp1.
  2: { destruct (prepared_phase _ Hp1). split; [done|]. split; [done|]. intros Hx.
       assert (ap_CpakId p ≠ "") as Hne by apply ready. by specialize (Hq Hne Hx). }
  assert (apps s1 = m) as Ha.
  { rewrite Hr; [|apply ready|done]. apply restored; [done|]. apply Hp. }
  assert (quiet_state s → quiet_state s1) as Hqs by apply Ht.
  apply bind_M in H as [([] & s2 & H2 & H)|(e & H2 & ->)]; apply createExports_elsewhere in H2 as [Hu2 Hq2];
    pose proof (prepared_touches _ _ (undisturbed_touches _ _ _ Hu2) Hp1) as Hp2.
  2: { destruct (prepared_phase _ Hp2). split; [done|]. split; [done|]. intros Hx. by specialize (Hq2 (Hqs Hx)). }
  destruct Hp2 as (Ht2 & Hpend & Ha2).
  apply (remove_transaction_spec p plain_p) in H as (He & Ht3 & Hq3 & Hr3 & Hok); [|done].
  assert (apps s' = m) as Ha3 by (unfold apps; rewrite He, (proj1 Hu2); exact Ha).
  split; [done|]. split.
  - destruct r as [[]|e]; [apply Settled; auto|]. destruct Hr3 as [Hf _]. apply Prepared; [done| |].
    + unfold pending in *. cbn [tx_Previous] in *. by rewrite Hf.
    + intros k _. by rewrite Ha3.
  - intros Hx. assert (quiet_state s2) as Hq2' by (by apply Hu2, Hqs). split; [by apply Hq3|].
    assert (r = Ok ()) as ->; [|by split]. apply Hok; [done|]. destruct Hpend as (uid & Hf). cbn [tx_Previous] in Hf. by rewrite Hf.
Qed.

(** Dropping the transaction of a replacement that is decided. *)
Lemma drop_spec b s r s' :
  on_files (remove F) s = (r, s') → tidy p s → pending (mkTransaction p u true) s → apps s = replaced p u m →
  tidy p s' ∧ phase p u m b s' ∧ (quiet_state s → quiet_state s' ∧ r = Ok () ∧ files s' !! F = None).
Proof using ready store_abs.
  intros H Ht Hp Ha. apply (remove_transaction_spec p plain_p) in H as (He & Ht' & Hq & Hr & Hok); [|done].
  assert (apps s' = replaced p u m) as Ha' by (unfold apps; by rewrite He). split; [done|]. split.
  - destruct r as [[]|e]; [apply Settled; auto|]. destruct Hr as [Hf _]. apply Decided; [|done].
    unfold pending in *. cbn [tx_Previous] in *. by rewrite Hf.
  - intros Hx. split; [by apply Hq|]. assert (r = Ok ()) as ->; [|by split]. apply Hok; [done|].
    destruct Hp as (uid & Hf). cbn [tx_Previous] in Hf. by rewrite Hf.
Qed.

Lemma recover_transaction b s r s' :
  recover_entry (transaction_name p, false) s = (r, s') → tidy p s → phase p u m b s →
  tidy p s' ∧ phase p u m b s' ∧
  (quiet_state s → files s !! F ≠ None → quiet_state s' ∧ r = Ok () ∧ files s' !! F = None).
Proof using ready store_abs laws frame codec_laws.
  unfold recover_entry. rewrite transaction_ext. cbn [orb negb].
  rewrite bool_decide_eq_true_2, (proj2 (proj2 (transaction_path p plain_p))) by done. cbn [negb].
  intros H Ht Hp. apply bind_M in H as [(data & s1 & H1 & H)|(e & H1 & ->)];
    apply read_transaction_spec in H1 as (Hu & Hd & Hq);
    destruct (phase_same p u m b s s1 plain_p (undisturbed_same _ _ Hu) Ht Hp) as [Ht1 Hp1] ||
    destruct (phase_same p u m b s s' plain_p (undisturbed_same _ _ Hu) Ht Hp) as [Ht1 Hp1].
  2: { split; [done|]. split; [done|]. intros Hx Hne. exfalso.
       destruct Hp as [Hf _|_ (uid & Hf) _|(uid & Hf) _]; [done|..]; by specialize (Hq Hx _ _ _ Hf). }
  destruct (Hd data eq_refl) as (uid & mode & Hf). assert (files s1 = files s) as Efs by (unfold files; apply Hu).
  destruct Hp1 as [Hn _| Hb Hpend Ha|Hpend Ha].
  - by rewrite Efs, Hf in Hn.
  - subst b. pose proof Hpend as (uid' & Hf'). cbn [tx_Previous] in Hf'. rewrite Efs, Hf in Hf'. injection Hf' as -> -> ->.
    rewrite decode_encode_transaction in H by (cbn; apply ready). cbn [tx_Committed tx_Updated tx_Previous] in H.
    assert ((replaceApplication u p ;;; createExports deps p ;;; on_files (remove F)) s1 = (r, s')) as H'.
    { rewrite <-H. unfold mbind, M_bind. by destruct (replaceApplication u p s1) as [[]]. }
    apply undo_spec in H' as (H1 & H2 & H3); [|done]. split; [done|]. split; [done|]. intros Hx _. by apply H3, Hu.
  - pose proof Hpend as (uid' & Hf'). cbn [tx_Previous] in Hf'. rewrite Efs, Hf in Hf'. injection Hf' as -> -> ->.
    rewrite decode_encode_transaction in H by (cbn; apply ready). cbn [tx_Committed] in H.
    change ((mret () ;;; on_files (remove F)) s1) with (on_files (remove F) s1) in H.
    apply (drop_spec b) in H as (H1 & H2 & H3); [|done..]. split; [done|]. split; [done|]. intros Hx _. by apply H3, Hu.
Qed.

Lemma recover_entries_phase b entries s r s' :
  Forall (usual p) entries → recover_entries entries s = (r, s') → tidy p s → phase p u m b s →
  tidy p s' ∧ phase p u m b s'.
Proof using ready store_abs laws frame codec_laws.
  intros He. revert s. induction He as [|entry entries Hx He IH]; intros s H Ht Hp; [by injection H as <- <-|].
  cbn [recover_entries] in H. destruct Hx as [[Hne Hx]| ->].
  - rewrite recover_skipped in H by done. by apply IH in H.
  - apply bind_M in H as [([] & s1 & H1 & H)|(e & H1 & ->)]; apply (recover_transaction b) in H1 as (Ht1 & Hp1 & _); auto.
    by apply IH in H.
Qed.

Lemma recover_entries_skipped entries s :
  Forall (usual p) entries → transaction_name p ∉ entries.*1 → recover_entries entries s = (Ok (), s).
Proof.
  intros He. induction He as [|entry entries Hx He IH]; [done|]. cbn. rewrite not_elem_of_cons. intros [Hn Hl].
  destruct Hx as [[Hne Hx]| ->]; [|done]. rewrite recover_skipped by done. by apply IH.
Qed.

(** Without a failure the transaction is gone. *)
Lemma recover_entries_quiet b entries s :
  Forall (usual p) entries → NoDup (entries.*1) → tidy p s → phase p u m b s → quiet_state s →
  (transaction_name p ∈ entries.*1 ↔ files s !! F ≠ None) →
  ∃ s', recover_entries entries s = (Ok (), s') ∧ quiet_state s' ∧ files s' !! F = None.
Proof using ready store_abs laws frame codec_laws.
  intros He Hnd Ht Hp Hq Hin. induction He as [|entry entries Hx He IH].
  { exists s. split; [done|]. split; [done|]. destruct (files s !! F) eqn:Ef; [|done].
    exfalso. apply (not_elem_of_nil (transaction_name p)). by apply Hin. }
  cbn in Hnd, Hin. apply NoDup_cons in Hnd as [Hn Hnd]. cbn [recover_entries]. destruct Hx as [[Hne Hx]| ->].
  - rewrite recover_skipped by done. apply IH; [done|]. rewrite <-Hin, elem_of_cons. split; [by right|].
    intros [E0|?]; [by destruct Hne|done].
  - unfold mbind, M_bind. destruct (recover_entry (transaction_name p, false) s) as [r1 s1] eqn:E1.
    apply (recover_transaction b) in E1 as (Ht1 & Hp1 & Hq1); [|done..].
    assert (files s !! F ≠ None) as Hfile by (apply Hin; by left). destruct (Hq1 Hq Hfile) as (Hqs & -> & Hf).
    rewrite recover_entries_skipped by done. by exists s1.
Qed.

Lemma recover_phase b s r s' :
  RecoverUpdateTransactions s = (r, s') → tidy p s → phase p u m b s →
  tidy p s' ∧ phase p u m b s' ∧ (quiet_state s → r = Ok () ∧ files s' !! F = None).
Proof using ready store_abs laws frame codec_laws.
  unfold RecoverUpdateTransactions. rewrite bind_try. intros H Ht Hp.
  destruct (on_files (ReadDir transactions_directory) s) as [x s1] eqn:E1.
  apply (read_dir_spec p) in E1 as (Hu & Hok & Hmissing & Hq); [|apply ready|done|].
  2: { destruct Hp as [Hf _|_ (uid & Hf) _|(uid & Hf) _]; cbn [tx_Previous] in Hf; by rewrite Hf. }
  destruct (phase_same p u m b s s1 plain_p (undisturbed_same _ _ Hu) Ht Hp) as [Ht1 Hp1].
  assert (files s1 = files s) as Efs by (unfold files; apply Hu).
  destruct x as [entries|e].
  - destruct (Hok entries eq_refl) as (He & Hnd & Hin).
    pose proof (recover_entries_phase b entries s1 r s' He H Ht1 Hp1) as [Ht' Hp']. split; [done|]. split; [done|].
    intros Hx. destruct (recover_entries_quiet b entries s1) as (s2 & H2 & _ & Hf); [done..|by apply Hu|by rewrite Efs|].
    rewrite H2 in H. by injection H as <- <-.
  - assert (s' = s1) as -> by (by destruct e as [| | | |[]| | | | | | | | |]; injection H as _ <-).
    split; [done|]. split; [done|]. intros Hx. pose proof (Hq Hx e eq_refl) as ->.
    injection H as <-. split; [done|]. rewrite Efs. by apply Hmissing.
Qed.

(** ** Replacing an installation *)
Lemma prepared_same s s' : same_state s s' → prepared s → prepared s'.
Proof using ready store_abs.
  intros [Hk Ha] (H1 & H2 & H3). destruct (tidy_kept p plain_p _ _ Hk H1) as [H1' Hf].
  split; [done|]. split; [unfold pending in *; cbn [tx_Previous] in *; by rewrite Hf|]. by rewrite Ha.
Qed.

Lemma begin_spec s x s' :
  beginUpdateTransaction p u s = (x, s') → tidy p s → files s !! F = None → apps s = m →
  (quiet_state s → quiet_state s' ∧ is_ok x = true) ∧
  match x with
  | Ok t => t = mkTransaction p u false ∧ prepared s'
  | Err _ => tidy p s' ∧ phase p u m false s'
  end ∧ apps s' = m.
Proof using ready store_abs.
  unfold beginUpdateTransaction. intros H Ht Hf Ha.
  apply bind_M in H as [([] & s1 & H1 & H)|(e & H1 & ->)];
    apply (write_transaction_spec p plain_p) in H1 as (He & Ht' & Hq & Hr & Hok); try done.
  - injection H as <- <-. split; [by intros Hx; split; [apply Hq|]|]. split; [|unfold apps; by rewrite He]. split; [done|].
    split; [done|]. split; [exact Hr|]. intros k _. unfold apps. by rewrite He, <-Ha.
  - assert (apps s' = m) as Ha' by (unfold apps; by rewrite He). split.
    + intros Hx. split; [by apply Hq|]. assert (is_directory (files s !! F) = false) as Hd by (by rewrite Hf).
      by specialize (Hok Hx Hd).
    + split; [|done]. split; [done|]. apply Settled; [by rewrite Hr|auto].
Qed.

(** The last steps, once the record is replaced: the transaction is marked, stale
    exports and what else follows is dealt with, and the transaction is removed. *)
Lemma commit_spec s x s' :
  commitUpdateTransaction (mkTransaction p u false) s = (x, s') → prepared s → apps s = replaced p u m →
  (quiet_state s → quiet_state s' ∧ x = Ok ()) ∧ tidy p s' ∧ phase p u m (is_ok x) s' ∧
  (is_ok x = true → pending (mkTransaction p u true) s' ∧ apps s' = replaced p u m).
Proof using ready store_abs.
  unfold commitUpdateTransaction. cbn [tx_Previous tx_Updated]. intros H Hp Ha.
  apply (write_transaction_spec p plain_p) in H as (He & Ht & Hq & Hr & Hok); [|done|apply Hp].
  assert (apps s' = replaced p u m) as Ha' by (unfold apps; by rewrite He). destruct Hp as (_ & (uid & Hf) & _).
  cbn [tx_Previous] in Hf. split; [|split; [done|split]].
  - intros Hx. split; [by apply Hq|]. apply Hok; [done|]. by rewrite Hf.
  - destruct x as [[]|e]; [by apply Decided|]. apply Prepared; [done| |].
    + exists uid. cbn [tx_Previous]. by rewrite Hr.
    + intros k Hk. rewrite Ha'. by apply replaced_agrees.
  - destruct x as [[]|e]; [|done]. done.
Qed.

Lemma finish_spec s x s' :
  finishUpdateTransaction (mkTransaction p u false) s = (x, s') →
  tidy p s → pending (mkTransaction p u true) s → apps s = replaced p u m →
  (quiet_state s → quiet_state s' ∧ x = Ok ()) ∧ tidy p s' ∧ phase p u m true s' ∧
  apps s' = replaced p u m ∧ (is_ok x = true → files s' !! F = None).
Proof using ready store_abs.
  unfold finishUpdateTransaction. cbn [tx_Previous]. rewrite bind_try. intros H Ht Hp Ha.
  destruct (on_files (remove F) s) as [r s1] eqn:E1. pose proof Hp as (uid & Hf). cbn [tx_Previous] in Hf.
  assert (apps s1 = replaced p u m) as Ha1.
  { apply (remove_transaction_spec p plain_p) in E1 as (He & _); [|done]. unfold apps. by rewrite He. }
  pose proof (drop_spec true s r s1 E1 Ht Hp Ha) as (Ht1 & Hp1 & Hq1).
  apply (remove_transaction_spec p plain_p) in E1 as (He & _ & Hq & Hr & Hok); [|done].
  assert (s' = s1 ∧ (is_ok x = true → files s1 !! F = None)) as [-> Hx].
  { destruct r as [[]|e]; [by injection H as <- <-|]. destruct Hr as [_ Hm].
    destruct e as [| | | |[]| | | | | | | | |]; injection H as <- <-; (split; [done|]); try done. intros _. by rewrite Hm in Hf. }
  split; [|done]. intros Hx'. destruct (Hq1 Hx') as (? & -> & _). by injection H as <-.
Qed.

(** What the host does keeps a prepared replacement. *)
Lemma prepared_elsewhere f s x s' : elsewhere f → f s = (x, s') → prepared s → prepared s' ∧ apps s' = apps s ∧
  (quiet_state s → quiet_state s' ∧ x = Ok ()).
Proof using ready store_abs.
  intros Hf H Hp. apply Hf in H as [Hu Hq]. pose proof (undisturbed_same _ _ Hu) as Hs.
  split; [by eapply prepared_same|]. split; [apply Hs|]. intros Hx. split; [by apply Hu|auto].
Qed.

Lemma restore_exports_elsewhere app updated : elsewhere (restoreExports app updated).
Proof using frame.
  intros s x s'. unfold restoreExports. rewrite bind_try. destruct (removeExports deps updated app s) as [r1 s1] eqn:E1.
  rewrite bind_try. destruct (createExports deps app s1) as [r2 s2] eqn:E2. intros [= <- <-].
  apply removeExports_elsewhere in E1 as [H1 _]. apply createExports_elsewhere in E2 as [H2 _].
  split; [by etrans|done].
Qed.

(** A step whose failure rolls the exports back. *)
Lemma or_restored_spec r app updated f s x s' :
  or_restored r app updated f s = (x, s') →
  ∃ y s1, f s = (y, s1) ∧
    match y with Ok _ => x = Ok () ∧ s' = s1 | Err e => x = Err (failedUpdate r e) ∧ undisturbed s1 s' end.
Proof using frame.
  unfold or_restored. rewrite bind_try. destruct (f s) as [y s1] eqn:E1. intros H. exists y, s1. split; [done|].
  destruct y as [[]|e]; [by injection H as <- <-|]. unfold or_failed in H. rewrite bind_map_error in H.
  destruct (restoreExports app updated s1) as [z s2] eqn:E2. pose proof E2 as [Hu _]%restore_exports_elsewhere.
  assert (z = Ok ()) as ->.
  { unfold restoreExports in E2. rewrite bind_try in E2. destruct (removeExports deps updated app s1) as [? ?].
    rewrite bind_try in E2. destruct (createExports deps app _) as [? ?]. by injection E2 as <- _. }
  by injection H as <- <-.
Qed.

(** A prepared replacement, [a] being what the store holds, reached from [s]. *)
Definition stage (s : package_state) (a : gmap string Application) (s' : package_state) : Prop :=
  prepared s' ∧ apps s' = a ∧ (quiet_state s → quiet_state s').

Lemma stage_elsewhere s a s1 f x s2 :
  elsewhere f → f s1 = (x, s2) → stage s a s1 →
  stage s a s2 ∧ (quiet_state s → x = Ok ()) ∧ histories_kept s1 s2.
Proof using ready store_abs.
  intros Hf H (Hp & Ha & Hq). pose proof (Hf _ _ _ H) as [Hu Hok].
  pose proof (prepared_elsewhere f s1 x s2 Hf H Hp) as (Hp2 & Ha2 & Hq2).
  split; [split; [done|]; split; [by rewrite Ha2|]; intros Hx; by apply Hq2, Hq|]. split; [intros Hx; by apply Hok, Hq|].
  apply histories_same. unfold files. apply Hu.
Qed.

Lemma stage_failed s a s1 s2 : stage s a s1 → undisturbed s1 s2 → tidy p s2 ∧ phase p u m false s2.
Proof using ready store_abs.
  intros (Hp & _) Hu. apply prepared_phase. eapply prepared_same; [by apply undisturbed_same|done].
Qed.

(** Replacing the record at a stage. *)
Lemma stage_replace s s1 x s2 :
  replaceApplication p u s1 = (x, s2) → stage s m s1 →
  (quiet_state s → x = Ok ()) ∧ histories_kept s1 s2 ∧
  match x with Ok _ => stage s (replaced p u m) s2 | Err _ => prepared s2 end.
Proof using ready store_abs laws.
  intros H (Hp & Ha & Hq). apply replace_application_spec in H as (Ht & Hok & Hr).
  assert (ap_CpakId u ≠ "") as Hne by apply ready. pose proof (prepared_touches _ _ Ht Hp) as Hp2.
  split; [auto|]. split; [apply histories_same; unfold files; apply Ht|].
  destruct x as [[]|e]; [|done]. split; [done|]. split; [by rewrite Hr, Ha|]. intros Hx. by apply Ht, Hq.
Qed.

(** The end of a replacement: [between] is what is done once it is decided. *)
Definition conclude {A B} (between : SM package_state B A) (f : update_error → B) : SM package_state B () :=
  map_error f (commitUpdateTransaction (mkTransaction p u false)) ;;; between ;;;
  map_error f (finishUpdateTransaction (mkTransaction p u false)).

Lemma conclude_spec {A B} (between : SM package_state B A) (f : update_error → B) s s1 x s' :
  (∀ s2 y s3, between s2 = (y, s3) → same_state s2 s3 ∧ (quiet_state s2 → quiet_state s3)) →
  conclude between f s1 = (x, s') → stage s (replaced p u m) s1 →
  tidy p s' ∧ phase p u m (is_ok x) s' ∧
  (is_ok x = true → files s' !! F = None ∧ apps s' = replaced p u m) ∧
  (quiet_state s → ∃ s2 y s3, between s2 = (y, s3) ∧ quiet_state s2 ∧ histories_kept s1 s2 ∧
     (is_ok y = true → x = Ok () ∧ quiet_state s' ∧ histories_kept s3 s')).
Proof using ready store_abs.
  unfold conclude. intros Hb H (Hp & Ha & Hq). rewrite bind_map_error in H.
  destruct (commitUpdateTransaction _ s1) as [c s2] eqn:E2.
  assert (histories_kept s1 s2) as Hh by (by eapply write_transaction_histories; [exact E2|done|apply ready]).
  apply commit_spec in E2 as (Hqc & Ht & Hph & Hdec); [|done..].
  destruct c as [[]|e].
  2: { injection H as <- <-. split_and!; [done..|]. intros Hx. by destruct (Hqc (Hq Hx)). }
  destruct (Hdec eq_refl) as [Hpend Ha2]. destruct (between s2) as [y s3] eqn:E3. pose proof (Hb _ _ _ E3) as [[Hk Hka] Hq3].
  destruct (tidy_kept p plain_p _ _ Hk Ht) as [Ht3 Hf3].
  assert (pending (mkTransaction p u true) s3) as Hp3 by (unfold pending in *; cbn [tx_Previous] in *; by rewrite Hf3).
  assert (apps s3 = replaced p u m) as Ha3 by (by rewrite Hka). unfold mbind, M_bind in H. rewrite E3 in H.
  destruct y as [y|e].
  2: { injection H as <- <-. split; [done|]. split; [by apply Decided|]. split; [done|]. intros Hx.
       exists s2, (Err e), s3. split_and!; [done|by apply Hqc, Hq|done|done]. }
  unfold map_error in H. destruct (finishUpdateTransaction _ s3) as [z s4] eqn:E4. injection H as <- <-.
  assert (histories_kept s3 s4) as Hh4.
  { unfold finishUpdateTransaction in E4. rewrite bind_try in E4. cbn [tx_Previous] in E4. destruct (on_files (remove F) s3) as [w s5] eqn:E5.
    apply remove_transaction_histories in E5; [|apply ready].
    by destruct w as [[]|[| | | |[]| | | | | | | | |]]; injection E4 as _ <-. }
  apply finish_spec in E4 as (Hq4 & Ht4 & Hp4 & Ha4 & Hf4); [|done..].
  split; [done|]. split; [destruct z as [[]|e]; [done|by eapply phase_weaken]|]. split; [destruct z as [[]|e]; [by auto|done]|].
  intros Hx. assert (quiet_state s2) as Hx2 by (by apply Hqc, Hq). exists s2, (Ok y), s3. split_and!; [done..|].
  intros _. destruct (Hq4 (Hq3 Hx2)) as [? ->]. by split_and!.
Qed.

Lemma or_restored_bind {A} r app updated f (k : SM package_state UpdateResult A) s x s' :
  (or_restored r app updated f ;;; k) s = (x, s') →
  ∃ y s1, f s = (y, s1) ∧
    match y with Ok _ => k s1 = (x, s') | Err e => x = Err (failedUpdate r e) ∧ undisturbed s1 s' end.
Proof using frame.
  intros [(? & s1 & H & Hk)|(e & H & ->)]%bind_M; apply or_restored_spec in H as (y & s2 & Hf & H); exists y, s2.
  - split; [done|]. destruct y as [[]|e]; [by destruct H as [_ ->]|by destruct H].
  - split; [done|]. destruct y as [[]|e']; [by destruct H|]. destruct H as [H Hu]. injection H as ->. done.
Qed.

(** A replacement that stopped before it was decided, which takes a failing call. *)
Definition stopped {A B} (excused : Prop) (x : result B A) (s' : package_state) : Prop :=
  is_ok x = false ∧ tidy p s' ∧ phase p u m false s' ∧ excused.

(** What is left behind, whichever way a replacement ends, and what it does in a
    [calm] state: the history that [after] describes. *)
Definition ended {A B} (calm : Prop) (after : package_state → Prop) (x : result B A) (s' : package_state) : Prop :=
  tidy p s' ∧ phase p u m (is_ok x) s' ∧ (is_ok x = true → files s' !! F = None ∧ apps s' = replaced p u m) ∧
  (calm → is_ok x = true ∧ quiet_state s' ∧ after s').

Lemma stopped_ended {A B} (excused calm : Prop) after (x : result B A) s' :
  stopped excused x s' → (excused → ¬ calm) → ended calm after x s'.
Proof. intros (Hx & ? & ? & He) Hq. apply Hq in He. unfold ended. rewrite Hx. by split_and!. Qed.

Lemma failed_ended {A B} (calm : Prop) s after (x : result B A) s' :
  stopped (¬ quiet_state s) x s' → (calm → quiet_state s) → ended calm after x s'.
Proof. intros Hx Hq. eapply stopped_ended; [done|]. by intros Hn ?%Hq. Qed.

Lemma begin_stage {A B} f (k : updateTransaction → SM package_state B A) s x s' :
  (map_error f (beginUpdateTransaction p u) ≫= k) s = (x, s') → tidy p s → files s !! F = None → apps s = m →
  (∃ s1, k (mkTransaction p u false) s1 = (x, s') ∧ stage s m s1 ∧ histories_kept s s1) ∨
  stopped (¬ quiet_state s) x s'.
Proof using ready store_abs.
  intros H Ht Hf Ha. rewrite bind_map_error in H. destruct (beginUpdateTransaction p u s) as [t s1] eqn:E1.
  assert (histories_kept s s1) as Hh1.
  { unfold beginUpdateTransaction in E1. apply bind_M in E1 as [([] & s0 & E0 & E1)|(e & E0 & _)];
      (eapply write_transaction_histories in E0; [|done|apply ready]); [by injection E1 as _ <-|done]. }
  apply begin_spec in E1 as (Hq1 & Hr1 & Ha1); [|done..]. destruct t as [t|e].
  - destruct Hr1 as [-> Hp1]. left. exists s1. split; [done|]. split; [|done]. split; [done|]. split; [done|]. intros Hx. by apply Hq1.
  - right. injection H as <- <-. destruct Hr1. split_and!; [done..|]. intros Hx. by destruct (Hq1 Hx).
Qed.

Lemma stage_step {A} s a s1 r f (k : SM package_state UpdateResult A) x s' :
  elsewhere f → (or_restored r p u f ;;; k) s1 = (x, s') → stage s a s1 →
  (∃ s2, k s2 = (x, s') ∧ stage s a s2 ∧ histories_kept s1 s2) ∨ stopped (¬ quiet_state s) x s'.
Proof using ready store_abs frame.
  intros Hf H Hs. apply or_restored_bind in H as (y & s2 & H2 & H).
  destruct (stage_elsewhere _ _ _ _ _ _ Hf H2 Hs) as (Hs2 & Hy2 & Hh2). destruct y as [[]|e]; [left; eauto|right].
  destruct H as [-> Hu]. destruct (stage_failed _ _ _ _ Hs2 Hu). split_and!; [done..|]. intros Hx. by specialize (Hy2 Hx).
Qed.

Lemma stage_record {A} s s1 r (k : SM package_state UpdateResult A) x s' :
  (or_restored r p u (recordRollbackHistory p) ;;; k) s1 = (x, s') → stage s m s1 →
  (∃ s2 l, k s2 = (x, s') ∧ stage s m s2 ∧ held_history (ap_Origin p) s1 = Some l ∧
     held_history (ap_Origin p) s2 = Some (keep_last (l ++ [p])) ∧ history_writable (ap_Origin p) s2) ∨
  stopped (quiet_state s → history_writable (ap_Origin p) s1 → held_history (ap_Origin p) s1 = None) x s'.
Proof using ready store_abs codec_laws frame.
  intros H (Hp & Ha & Hq). apply or_restored_bind in H as (y & s2 & H2 & H).
  apply record_history_spec in H2 as (He & Hk & Hq2 & Hr & Hy); [|apply ready].
  assert (stage s m s2) as Hs2.
  { assert (apps s2 = apps s1) as E0 by (unfold apps; by rewrite He).
    split; [by eapply prepared_same|]. split; [by rewrite E0|auto]. }
  destruct y as [[]|e]; [left; destruct Hr as (l & ? & ? & ?); by exists s2, l|right].
  destruct H as [-> Hu]. destruct (stage_failed _ _ _ _ Hs2 Hu). split_and!; [done..|]. intros Hx Hw.
  destruct (held_history _ s1) as [l|]; [|done]. by specialize (Hy (Hq Hx) l Hw eq_refl).
Qed.

Lemma stage_restored_replace {A} s s1 r (k : SM package_state UpdateResult A) x s' :
  (or_restored r p u (replaceApplication p u) ;;; k) s1 = (x, s') → stage s m s1 →
  (∃ s2, k s2 = (x, s') ∧ stage s (replaced p u m) s2 ∧ histories_kept s1 s2) ∨ stopped (¬ quiet_state s) x s'.
Proof using ready store_abs laws frame.
  intros H Hs. apply or_restored_bind in H as (y & s2 & H2 & H). apply (stage_replace s) in H2 as (Hy & Hh & Hs2); [|done].
  destruct y as [[]|e]; [left; eauto|right]. destruct H as [-> Hu].
  destruct (prepared_phase s') as [? ?]; [by eapply prepared_same; [apply undisturbed_same|]|].
  split_and!; [done..|]. intros Hx. by specialize (Hy Hx).
Qed.

Lemma conclude_bind {A B C} (between : SM package_state B A) (f : update_error → B) (k : SM package_state B C) s x s' :
  (map_error f (commitUpdateTransaction (mkTransaction p u false)) ;;; between ;;;
   map_error f (finishUpdateTransaction (mkTransaction p u false)) ;;; k) s = (x, s') →
  ∃ y s1, conclude between f s = (y, s1) ∧
    match y with Ok _ => k s1 = (x, s') | Err e => x = Err e ∧ s' = s1 end.
Proof.
  unfold conclude, mbind, M_bind. destruct (map_error f (commitUpdateTransaction _) s) as [[[]|e] s1];
    [|intros [= <- <-]; by do 2 eexists].
  destruct (between s1) as [[a|e] s2]; [|intros [= <- <-]; by do 2 eexists].
  destruct (map_error f (finishUpdateTransaction _) s2) as [[[]|e] s3]; [by do 2 eexists|intros [= <- <-]; by do 2 eexists].
Qed.

Definition recorded (l : list Application) (s : package_state) : Prop :=
  history_writable (ap_Origin p) s ∧ held_history (ap_Origin p) s = Some l.

Lemma recorded_kept l s s' : histories_kept s s' → recorded l s → recorded l s'.
Proof. intros [H1 H2] [H3 H4]. split; [auto|]. by rewrite H1. Qed.

Lemma replace_installation_ends manifest r s x s' l :
  replaceInstallation p u manifest r s = (x, s') → tidy p s → files s !! F = None → apps s = m →
  ended (quiet_state s ∧ recorded l s) (recorded (keep_last (l ++ [p]))) x s'.
Proof using ready store_abs laws codec_laws frame.
  unfold replaceInstallation, or_failed. intros H Ht Hf Ha.
  apply begin_stage in H as [(s1 & H & Hs1 & Hh1)|?]; [|by eapply failed_ended; [|intros []]|done..].
  apply stage_step with (s := s) (a := m) in H as [(s2 & H & Hs2 & Hh2)|?];
    [|by eapply failed_ended; [|intros []]|apply createExports_elsewhere|done].
  apply stage_step with (s := s) (a := m) in H as [(s3 & H & Hs3 & Hh3)|?];
    [|by eapply failed_ended; [|intros []]|apply stop_elsewhere|done].
  assert (recorded l s → recorded l s3) as Hl3 by (intros Hl; do 3 (eapply recorded_kept; [eassumption|]); done).
  apply (stage_record s) in H as [(s4 & l' & H & Hs4 & Hl' & Hl4 & Hw4)|Hx];
    [|eapply stopped_ended; [done|]; intros Hx' [Hq [Hw Hl]%Hl3]; by rewrite Hx' in Hl|done].
  apply (stage_restored_replace s) in H as [(s5 & H & Hs5 & Hh5)|?]; [|by eapply failed_ended; [|intros []]|done].
  apply conclude_bind in H as (y & s6 & Hc & H). apply (conclude_spec _ _ s) in Hc as (Ht6 & Hp6 & Hd6 & Hq6); [| |done].
  2: { intros s7 z s8 Hz. unfold try in Hz. destruct (removeExports deps p u s7) as [z' s9] eqn:Ez. injection Hz as _ <-.
       apply removeExports_elsewhere in Ez as [Hu _]. split; [by apply undisturbed_same|apply Hu]. }
  assert (quiet_state s ∧ recorded l s → is_ok y = true ∧ quiet_state s6 ∧ recorded (keep_last (l ++ [p])) s6) as Hquiet.
  { intros [Hx [_ Hl]%Hl3]. assert (l' = l) as -> by congruence. destruct (Hq6 Hx) as (s7 & z & s8 & Hz & _ & Hh7 & Hfin). unfold try in Hz.
    destruct (removeExports deps p u s7) as [z' s9] eqn:Ez. injection Hz as <- ->.
    destruct (Hfin eq_refl) as (-> & Hqs & Hh8). split; [done|]. split; [done|].
    apply removeExports_elsewhere in Ez as [(_ & [Hfs _] & _) _].
    eapply recorded_kept; [exact Hh8|]. eapply recorded_kept; [by apply histories_same|].
    eapply recorded_kept; [exact Hh7|]. by eapply recorded_kept. }
  destruct y as [[]|e]; [|by destruct H as [-> ->]]. rewrite bind_try in H.
  destruct (reportUpdateEnrolment deps u manifest s6) as [z s7] eqn:Ez. injection H as <- <-.
  apply report_elsewhere in Ez as [Hu _]. destruct (phase_same _ _ _ _ _ _ plain_p (undisturbed_same _ _ Hu) Ht6 Hp6) as [Ht7 Hp7].
  destruct (Hd6 eq_refl) as [Hf6 Ha6]. assert (files s7 = files s6) as Efs by (unfold files; apply Hu).
  split; [done|]. split; [done|]. split; [intros _; split; [by rewrite Efs|unfold apps; by rewrite (proj1 Hu)]|].
  intros Hx. destruct (Hquiet Hx) as (_ & Hqs & Hr). split; [done|]. split; [by apply Hu|].
  eapply recorded_kept; [by apply histories_same|done].
Qed.

(** ** Rolling back *)
Lemma bind_unnamed {A B} (f : P A) (k : A → P B) s : (map_error id f ≫= k) s = (f ≫= k) s.
Proof. rewrite bind_map_error. unfold mbind, M_bind. by destruct (f s) as [[]]. Qed.

Lemma stage_plain_step {A} s a s1 f (k : P A) x s' :
  elsewhere f → (f ;;; k) s1 = (x, s') → stage s a s1 →
  (∃ s2, k s2 = (x, s') ∧ stage s a s2 ∧ histories_kept s1 s2) ∨ stopped (¬ quiet_state s) x s'.
Proof using ready store_abs.
  intros Hf H Hs. apply bind_M in H as [([] & s2 & H2 & H)|(e & H2 & ->)];
    destruct (stage_elsewhere _ _ _ _ _ _ Hf H2 Hs) as (Hs2 & Hy2 & Hh2); [left; eauto|right].
  destruct (stage_failed s a s' s' Hs2) as [? ?]; [reflexivity|]. split_and!; [done..|]. intros Hx. by specialize (Hy2 Hx).
Qed.

Lemma stage_plain_replace {A} s s1 (k : P A) x s' :
  (replaceApplication p u ;;; k) s1 = (x, s') → stage s m s1 →
  (∃ s2, k s2 = (x, s') ∧ stage s (replaced p u m) s2 ∧ histories_kept s1 s2) ∨ stopped (¬ quiet_state s) x s'.
Proof using ready store_abs laws.
  intros H Hs. apply bind_M in H as [([] & s2 & H2 & H)|(e & H2 & ->)];
    apply (stage_replace s) in H2 as (Hy & Hh & Hs2); try done; [left; eauto|right].
  destruct (prepared_phase s') as [? ?]; [done|]. split_and!; [done..|]. intros Hx. by specialize (Hy Hx).
Qed.

Lemma conclude_plain {A B C} (a : P A) (b : P B) (k : P C) s x s' :
  (commitUpdateTransaction (mkTransaction p u false) ;;; a ;;; b ;;;
   finishUpdateTransaction (mkTransaction p u false) ;;; k) s = (x, s') →
  ∃ y s1, conclude (a ;;; b) id s = (y, s1) ∧
    match y with Ok _ => k s1 = (x, s') | Err e => x = Err e ∧ s' = s1 end.
Proof.
  intros H. apply conclude_bind. rewrite <-H, bind_unnamed. unfold mbind, M_bind.
  destruct (commitUpdateTransaction _ s) as [[[]|] ?]; [|done]. destruct (a _) as [[?|] ?]; [|done].
  destruct (b _) as [[?|] ?]; [|done]. unfold map_error. by destruct (finishUpdateTransaction _ _) as [[]].
Qed.

Lemma roll_back_ends history s x s' :
  roll_back_to p u history s = (x, s') → Forall stored history → tidy p s → files s !! F = None → apps s = m →
  ended (quiet_state s ∧ history_writable (ap_Origin p) s) (recorded (take (length history - 1) history)) x s'.
Proof using ready store_abs laws codec_laws frame.
  unfold roll_back_to. intros H Hst Ht Hf Ha. assert (Forall stored (take (length history - 1) history)) as Hst' by (by apply Forall_take).
  rewrite <-bind_unnamed in H.
  apply begin_stage in H as [(s1 & H & Hs1 & Hh1)|?]; [|by eapply failed_ended; [|intros []]|done..].
  apply stage_plain_step with (s := s) (a := m) in H as [(s2 & H & Hs2 & Hh2)|?];
    [|by eapply failed_ended; [|intros []]|apply createExports_elsewhere|done].
  apply stage_plain_step with (s := s) (a := m) in H as [(s3 & H & Hs3 & Hh3)|?];
    [|by eapply failed_ended; [|intros []]|apply stop_elsewhere|done].
  apply (stage_plain_replace s) in H as [(s4 & H & Hs4 & Hh4)|?]; [|by eapply failed_ended; [|intros []]|done].
  assert (history_writable (ap_Origin p) s → history_writable (ap_Origin p) s4) as Hw4 by (intros Hw; by apply Hh4, Hh3, Hh2, Hh1).
  apply conclude_plain in H as (y & s5 & Hc & H). apply (conclude_spec _ _ s) in Hc as (Ht5 & Hp5 & Hd5 & Hq5); [| |done].
  2: { intros s6 z s7 Hz. apply bind_M in Hz as [([] & s8 & H8 & Hz)|(e & H8 & ->)];
         apply removeExports_elsewhere in H8 as [Hu _]; [|split; [by apply undisturbed_same|apply Hu]].
       apply write_history_spec in Hz as (He & Hk & Hq & _); [|done]. split; [split|].
       - intros path. destruct (Hk path) as [?|E0]; [by left|right]. rewrite E0. unfold files. by rewrite (proj1 (proj1 (proj2 Hu))).
       - unfold apps. by rewrite He, (proj1 Hu).
       - intros Hx. by apply Hq, Hu. }
  assert (quiet_state s ∧ history_writable (ap_Origin p) s → is_ok y = true ∧ quiet_state s5 ∧ recorded (take (length history - 1) history) s5) as Hquiet.
  { intros [Hx Hw]. destruct (Hq5 Hx) as (s6 & z & s7 & Hz & Hx6 & Hh6 & Hfin).
    apply bind_M in Hz as [([] & s8 & H8 & Hz)|(e & H8 & ->)]; apply removeExports_elsewhere in H8 as [Hu Hok8];
      [|by specialize (Hok8 Hx6)].
    apply write_history_spec in Hz as (_ & _ & Hq & Hh & Hok & Hw'); [|done]. destruct Hu as (_ & [Hfs _] & Hq8).
    assert (z = Ok ()) as ->.
    { apply Hok; [by apply Hq8|]. apply (histories_same s6 s8 Hfs). by apply Hh6, Hw4. }
    destruct (Hfin eq_refl) as (-> & Hqs & Hh8). split; [done|]. split; [done|].
    eapply recorded_kept; [exact Hh8|]. split; [by apply Hw'|done]. }
  destruct y as [[]|e]; [|by destruct H as [-> ->]]. injection H as <- <-. by split_and!.
Qed.
End Recovery.

(** ** Theorems *)

(** No transaction is left from before. *)
Definition no_transactions (s : package_state) : Prop :=
  (files s !! transactions_directory = None ∨ is_directory (files s !! transactions_directory) = true) ∧
  ∀ name, name ≠ "" → has_byte slash name = false → ext name = ".json" → files s !! child name = None.

Lemma no_transactions_tidy p s :
  has_byte slash (ap_CpakId p) = false → no_transactions s → tidy p s ∧ files s !! transactionPath p = None.
Proof using store_abs.
  intros Hs [Hd Hc]. destruct (transaction_name_plain p Hs) as (Hn & _ & _ & Hns).
  assert (files s !! transactionPath p = None) as Hf.
  { rewrite transaction_child by done. apply Hc; [done..|apply transaction_ext]. }
  split; [|done]. split; [|intros; by apply Hc].
  destruct (files s !! transactions_directory); [by destruct Hd|done].
Qed.

Lemma tidy_no_transactions p s : tidy p s → files s !! transactionPath p = None → has_byte slash (ap_CpakId p) = false →
  no_transactions s.
Proof using store_abs.
  intros [Hd Hc] Hf Hs. split.
  - destruct (files s !! transactions_directory); [by right|by left].
  - intros name H1 H2 H3. destruct (decide (name = transaction_name p)) as [->|Hx]; [by rewrite <-transaction_child|by apply Hc].
Qed.

(** cpak is started again: the calls that will fail are others. *)
Definition with_faults (faults : list bool) (s : package_state) : package_state :=
  mkState (mkWorld (files s) (w_uid (st_world s)) faults) (st_engine s).

(** Recoveries, each of which may be interrupted at any of its calls. *)
Fixpoint attempts (interrupted : list (list bool)) (s : package_state) : package_state :=
  match interrupted with
  | [] => s
  | faults :: interrupted => attempts interrupted (RecoverUpdateTransactions (with_faults faults s)).2
  end.

Lemma phase_with_faults p u m b faults s :
  tidy p s → phase p u m b s → tidy p (with_faults faults s) ∧ phase p u m b (with_faults faults s).
Proof. intros Ht Hp. split; [exact Ht|]. destruct Hp; [apply Settled|apply Prepared|apply Decided]; done. Qed.

Lemma attempts_phase p u m b interrupted s :
  replaceable p u m → tidy p s → phase p u m b s →
  tidy p (attempts interrupted s) ∧ phase p u m b (attempts interrupted s).
Proof using store_abs laws codec_laws frame.
  intros Hr. revert s. induction interrupted as [|faults interrupted IH]; intros s Ht Hp; [done|]. cbn [attempts].
  destruct (RecoverUpdateTransactions (with_faults faults s)) as [x s1] eqn:E1.
  destruct (phase_with_faults p u m b faults s Ht Hp) as [Ht0 Hp0].
  destruct (recover_phase p u m Hr b _ _ _ E1 Ht0 Hp0) as (Ht1 & Hp1 & _). by apply IH.
Qed.

(** A recovery that nothing interrupts settles what was left. *)
Lemma recovery_settles p u m b interrupted s y s' :
  replaceable p u m → tidy p s → phase p u m b s →
  RecoverUpdateTransactions (with_faults [] (attempts interrupted s)) = (y, s') →
  y = Ok () ∧ no_transactions s' ∧ (apps s' = replaced p u m ∨ b = false ∧ apps s' = m).
Proof using store_abs laws codec_laws frame.
  intros Hr Ht Hp H. destruct (attempts_phase p u m b interrupted s Hr Ht Hp) as [Ht1 Hp1].
  destruct (phase_with_faults p u m b [] _ Ht1 Hp1) as [Ht2 Hp2].
  destruct (recover_phase p u m Hr b _ _ _ H Ht2 Hp2) as (Ht3 & Hp3 & Hq). destruct (Hq eq_refl) as [-> Hf].
  split; [done|]. split; [eapply tidy_no_transactions; [done..|apply Hr]|]. destruct Hp3 as [_ Ha|_ (uid & Hf') _|(uid & Hf') _]; [done|..];
    cbn [tx_Previous] in Hf'; by rewrite Hf in Hf'.
Qed.

(** C4: an update is all or nothing.  Whatever call of replacing an installation fails, and
    whatever number of recoveries is interrupted after it, the first recovery that runs to its
    end succeeds, leaves no transaction behind, and leaves the store either as it was or with
    the new record in the place of the old one, and the latter if the update had been reported
    as done. *)
Theorem update_atomic (app updated : Application) (manifest : CpakManifest) (r : UpdateResult)
    (s s1 s2 : package_state) x interrupted y :
  no_transactions s → replaceable app updated (apps s) →
  replaceInstallation app updated manifest r s = (x, s1) →
  RecoverUpdateTransactions (with_faults [] (attempts interrupted s1)) = (y, s2) →
  y = Ok () ∧ no_transactions s2 ∧
  (apps s2 = replaced app updated (apps s) ∨ is_ok x = false ∧ apps s2 = apps s).
Proof using store_abs laws codec_laws frame.
  intros Hn Hr H1 H2. destruct (no_transactions_tidy app s (proj1 Hr) Hn) as [Ht Hf].
  destruct (replace_installation_ends app updated (apps s) Hr manifest r s x s1 [] H1 Ht Hf eq_refl) as (Ht1 & Hp1 & _).
  by eapply recovery_settles.
Qed.

(** The records of the store are under their identifiers. *)
Definition keyed (m : gmap string Application) : Prop := ∀ k a, m !! k = Some a → ap_CpakId a = k.

Lemma keep_last_spec l a : length l ≤ rollbackHistoryLimit →
  ∃ l', keep_last (l ++ [a]) = l' ++ [a] ∧ length l' < rollbackHistoryLimit ∧
    (length l < rollbackHistoryLimit → l' = l).
Proof.
  unfold keep_last, rollbackHistoryLimit. rewrite length_app. cbn [length]. intros Hl.
  destruct (Nat.ltb_spec 3 (length l + 1)).
  - exists (drop (length l + 1 - 3) l). rewrite drop_app_le by lia. split; [done|]. rewrite length_drop. split; [lia|]. lia.
  - exists l. split; [done|]. split; [lia|done].
Qed.

(** The application an origin stands for, when it is alone there. *)
Definition sole (app : Application) (m : gmap string Application) : Prop :=
  keyed m ∧ m !! ap_CpakId app = Some app ∧ ∀ k a, m !! k = Some a → ap_Origin a = ap_Origin app → a = app.

Lemma rollback_selects (app : Application) s x s' :
  sole app (apps s) → getStoredApplication (ap_Origin app) "" "" "" "" s = (x, s') →
  undisturbed s s' ∧ (∀ a, x = Ok a → a = app) ∧ (quiet_state s → x = Ok app).
Proof using laws.
  intros (Hk & Ha & Hu) H. unfold getStoredApplication in H.
  apply bind_M in H as [([] & s1 & H1 & H)|(e & H1 & ->)]; apply may_fail_elsewhere in H1 as [Hs1 Hq1];
    [|split; [done|]; split; [done|]; intros Hx; by specialize (Hq1 Hx)].
  unfold GetApplicationByOrigin, GetApplicationsByOrigin, engine_read, mbind, M_bind in H.
  destruct (next_fault (st_world s1)) as [b w] eqn:Eb. apply fault_step in Eb as [Hs2 Hq2].
  assert (undisturbed s (mkState w (st_engine s1))) as Hs by (by etrans). destruct b.
  { injection H as <- <-. split; [done|]. split; [done|]. intros Hx. by specialize (Hq2 (proj2 (proj2 Hs1) Hx)). }
  assert (∀ a, a ∈ GetByIndex (ap_Origin app) (st_engine s1) ↔ a = app) as Hin.
  { intros a. rewrite index_spec, (proj1 Hs1). split; [intros (k & ? & ?); by eapply Hu|]. intros ->. by exists (ap_CpakId app). }
  cbn in H. destruct (filter _ _) as [|a l] eqn:Ef.
  - exfalso. apply (not_elem_of_nil app). rewrite <-Ef. apply list_elem_of_filter. split; [done|]. by apply Hin.
  - assert (a = app) as ->; [|injection H as <- <-; split; [done|]; split; [by intros a [= ->]|done]].
    apply Hin. eapply (list_elem_of_filter _ _ _). rewrite Ef. by left.
Qed.

(** A rollback is all or nothing in the same way: whatever call of it fails and whatever
    recoveries are interrupted after it, the first recovery that runs to its end succeeds,
    leaves no transaction behind, and leaves the store either as it was or with the last record
    of the history in the place of the one that was installed. *)
Theorem rollback_atomic (app : Application) (history : list Application) (s s1 s2 : package_state) x interrupted y :
  no_transactions s → sole app (apps s) → held_history (ap_Origin app) s = Some history →
  (∀ previous, last history = Some previous → replaceable app previous (apps s)) →
  has_byte slash (ap_CpakId app) = false → ap_CpakId app ≠ "" → stored app →
  Rollback (ap_Origin app) s = (x, s1) →
  RecoverUpdateTransactions (with_faults [] (attempts interrupted s1)) = (y, s2) →
  y = Ok () ∧ no_transactions s2 ∧
  (is_ok x = false ∧ apps s2 = apps s ∨
   ∃ previous, last history = Some previous ∧ apps s2 = replaced app previous (apps s)).
Proof using store_abs laws codec_laws frame.
  intros Hn Hsole Hh Hrep Hs Hid Hst H1 H2.
  assert (replaceable app app (apps s)) as Hself by (split_and!; [done..|apply Hsole|by left|done|done]).
  assert (∀ t, undisturbed s t → tidy app t ∧ phase app app (apps s) false t) as Hstill.
  { intros t Hu. destruct (no_transactions_tidy app s Hs Hn) as [Ht Hf].
    apply (phase_same _ _ _ _ s t Hs (undisturbed_same _ _ Hu) Ht). apply Settled; auto. }
  assert (undisturbed s s1 ∧ is_ok x = false ∨ ∃ previous s0, last history = Some previous ∧ undisturbed s s0 ∧
    roll_back_to app previous history s0 = (x, s1)) as [[Hu Hx]|(previous & s0 & Hl & Hu & Hroll)].
  - unfold Rollback in H1. apply bind_M in H1 as [(a & s0 & Hg & H1)|(e & Hg & ->)];
      apply (rollback_selects _ _ _ _ Hsole) in Hg as (Hu & Ha & _); [|by left]. pose proof (Ha a eq_refl) as ->.
    apply bind_M in H1 as [(l & s3 & Hr & H1)|(e & Hr & ->)]; apply read_history_spec in Hr as (Hu3 & Hl & _); [|by left; split; [etrans|]].
    assert (l = history) as ->.
    { specialize (Hl l eq_refl). unfold held_history, files in Hl, Hh. rewrite (proj1 (proj1 (proj2 Hu))) in Hl. congruence. }
    assert (undisturbed s s3) by (by etrans).
    destruct (last history) as [previous|]; [right; by exists previous, s3|left]. by injection H1 as <- <-.
  - destruct (Hstill _ Hu) as [Ht1 Hp1]. destruct (recovery_settles app app (apps s) false interrupted s1 y s2) as (-> & Hn2 & Ha); [done..|].
    split; [done|]. split; [done|]. left. split; [done|]. destruct Ha as [->|[_ ->]]; [by apply restored|done].
  - pose proof (Hrep previous Hl) as Hr. destruct (Hstill _ Hu) as [Ht0 Hp0].
    assert (files s0 = files s ∧ apps s0 = apps s) as [Ef Ea] by (unfold files, apps; split; [apply Hu|by rewrite (proj1 Hu)]).
    destruct (roll_back_ends app previous (apps s) Hr history s0 x s1 Hroll (held_history_stored _ _ _ Hh) Ht0) as (Ht1 & Hp1 & _);
      [by rewrite Ef; apply (no_transactions_tidy app s)|done|].
    destruct (recovery_settles app previous (apps s) (is_ok x) interrupted s1 y s2) as (-> & Hn2 & Ha); [done..|].
    split; [done|]. split; [done|]. destruct Ha as [->|[Hx ->]]; [right; by exists previous|by left].
Qed.

(** The way back. *)
Lemma replaceable_back p u m :
  replaceable p u m → has_byte slash (ap_CpakId u) = false → replaceable u p (replaced p u m).
Proof.
  intros (_ & H1 & H2 & H3 & H4 & H5 & H6) Hs. split_and!; [done..| | |done|done].
  - unfold replaced. by rewrite lookup_insert_eq.
  - destruct (decide (ap_CpakId p = ap_CpakId u)) as [->|Hne]; [by left|right].
    unfold replaced. by rewrite lookup_insert_ne, lookup_delete_eq.
Qed.

Lemma restored_replaced p u m : replaceable p u m → replaced u p (replaced p u m) = m.
Proof. intros Hr. apply restored; [done|]. intros k Hk. by apply replaced_agrees. Qed.

Lemma keyed_replaced p u m : keyed m → keyed (replaced p u m).
Proof.
  unfold replaced. intros Hk k a [[<- <-]|[_ [_ Ha]%lookup_delete_Some]]%lookup_insert_Some; [done|by apply Hk].
Qed.

Lemma read_history_quiet origin l s :
  quiet_state s → held_history origin s = Some l → readRollbackHistory origin s = (Ok l, s).
Proof.
  intros Hq Hl. unfold readRollbackHistory, on_files, read_or_missing, mbind, M_bind, next_fault.
  unfold quiet_state, quiet in Hq. rewrite Hq. unfold held_history, files in Hl. destruct s as [w e]. cbn in *.
  destruct (w_fs w !! _) as [[]|]; cbn; [|done..|by injection Hl as <-]. by rewrite Hl.
Qed.

Lemma roll_back_reports app previous history s x s' :
  roll_back_to app previous history s = (Ok x, s') →
  x = mkRollback (ap_Origin app) (ap_Name previous) (ap_Version app) (ap_Version previous).
Proof.
  unfold roll_back_to. intros H. do 8 (apply bind_M_ok in H as (? & ? & _ & H)). by injection H.
Qed.

(** C28: rolling an update back undoes it.  When no call fails, an update of an application that
    is alone at its origin is done, and the rollback that follows it is done as well, reports
    the two versions, and leaves the store exactly as it was before the update; the history is
    what it was, unless it was full and its oldest record was given up for the update. *)
Theorem rollback_undoes_update (app updated : Application) (manifest : CpakManifest) (r : UpdateResult)
    (s : package_state) (l : list Application) :
  quiet_state s → no_transactions s → replaceable app updated (apps s) → sole app (apps s) →
  has_byte slash (ap_CpakId updated) = false → ap_Origin updated = ap_Origin app →
  history_writable (ap_Origin app) s → held_history (ap_Origin app) s = Some l → length l ≤ rollbackHistoryLimit →
  ∃ done_update s1 done_rollback s2,
    replaceInstallation app updated manifest r s = (Ok done_update, s1) ∧
    apps s1 = replaced app updated (apps s) ∧
    Rollback (ap_Origin app) s1 = (Ok done_rollback, s2) ∧
    done_rollback = mkRollback (ap_Origin updated) (ap_Name app) (ap_Version updated) (ap_Version app) ∧
    apps s2 = apps s ∧ no_transactions s2 ∧
    (length l < rollbackHistoryLimit → held_history (ap_Origin app) s2 = Some l).
Proof using store_abs laws codec_laws frame.
  intros Hq Hn Hr (Hk & Hin & Hu) Hsu Ho Hw Hl Hlen. set (m := apps s) in *.
  destruct (no_transactions_tidy app s (proj1 Hr) Hn) as [Ht Hf].
  destruct (replaceInstallation app updated manifest r s) as [x s1] eqn:E1.
  destruct (replace_installation_ends app updated m Hr manifest r s x s1 l E1 Ht Hf eq_refl) as (Ht1 & Hp1 & Hd1 & Hq1).
  destruct Hq1 as (Hx & Hqs & Hw1 & Hl1); [by split; [|split]|]. destruct (Hd1 Hx) as [Hf1 Ha1].
  destruct x as [done_update|]; [|done]. exists done_update, s1.
  destruct (keep_last_spec l app Hlen) as (l' & Ekeep & Hlen' & Hsame). rewrite Ekeep in Hl1.
  pose proof (tidy_no_transactions app s1 Ht1 Hf1 (proj1 Hr)) as Hn1.
  destruct (no_transactions_tidy updated s1 Hsu Hn1) as [Htu Hfu].
  assert (replaceable updated app (apps s1)) as Hru by (rewrite Ha1; by apply replaceable_back).
  assert (sole updated (apps s1)) as Hsole.
  { rewrite Ha1. split; [by apply keyed_replaced|]. split; [by apply lookup_insert_eq|].
    intros k a Hka Hoa. unfold replaced in Hka. apply lookup_insert_Some in Hka as [[_ <-]|[Hne Hka]]; [done|].
    apply lookup_delete_Some in Hka as [Hka' Hka]. exfalso. apply Hka'. rewrite Ho in Hoa. rewrite <-(Hu k a Hka Hoa). by apply Hk. }
  assert (getStoredApplication (ap_Origin app) "" "" "" "" s1 = (Ok updated, s1)) as Hget.
  { rewrite <-Ho. destruct (getStoredApplication (ap_Origin updated) "" "" "" "" s1) as [x0 s0] eqn:E0.
    pose proof (rollback_selects _ _ _ _ Hsole E0) as (Hd & _ & Hok). by rewrite (Hok Hqs), (undisturbed_quiet s1 s0 Hd Hqs). }
  assert (readRollbackHistory (ap_Origin updated) s1 = (Ok (l' ++ [app]), s1)) as Hread
    by (rewrite Ho; by apply read_history_quiet).
  destruct (roll_back_to updated app (l' ++ [app]) s1) as [z s2] eqn:E2.
  destruct (roll_back_ends updated app (apps s1) Hru (l' ++ [app]) s1 z s2 E2 (held_history_stored _ _ _ Hl1) Htu Hfu eq_refl) as (Ht2 & Hp2 & Hd2 & Hq2).
  destruct Hq2 as (Hz & _ & Hw2 & Hl2); [split; [done|by rewrite Ho]|]. destruct (Hd2 Hz) as [Hf2 Ha2].
  destruct z as [done_rollback|]; [|done]. exists done_rollback, s2.
  split; [done|]. split; [done|]. split.
  { unfold Rollback, mbind, M_bind. by rewrite Hget, Hread, last_snoc. }
  split; [by eapply roll_back_reports|]. split; [rewrite Ha2, Ha1; by apply restored_replaced|].
  split; [by eapply tidy_no_transactions|]. intros Hlt. rewrite Ho, length_app in Hl2. cbn [length] in Hl2.
  rewrite Hl2, Nat.add_sub, take_app_length. by rewrite Hsame.
Qed.

(** ** What was approved *)

(** The results an update stops with are not the ones of an update that was done. *)
Definition stops_short {A} (f : SM package_state UpdateResult A) : Prop :=
  ∀ s q s', f s = (Err q, s') → ur_Status q ≠ Some Updated.

Lemma stops_bind {A B} (f : SM package_state UpdateResult A) (k : A → SM package_state UpdateResult B) :
  stops_short f → (∀ a, stops_short (k a)) → stops_short (f ≫= k).
Proof.
  intros Hf Hk s q s' [(a & s1 & _ & H)|(e & H & [= ->])]%bind_M; [by apply Hk in H|by apply Hf in H].
Qed.
Lemma stops_ret {A} (a : A) : stops_short (mret a). Proof. done. Qed.
Lemma stops_fail {A} (r : UpdateResult) : ur_Status r ≠ Some Updated → stops_short (A := A) (fail r).
Proof. by intros H s q s' [= <- <-]. Qed.
Lemma stops_or_failed {A} r (f : P A) : stops_short (or_failed r f).
Proof. intros s q s'. unfold or_failed, map_error. destruct (f s) as [[]]; by intros [= <- <-]. Qed.
Lemma stops_try {A E'} (f : SM package_state E' A) : stops_short (try f).
Proof. intros s q s'. unfold try. by destruct (f s). Qed.
#[local] Hint Resolve stops_ret stops_or_failed stops_try : stops.
Ltac stops := repeat first [solve [auto with stops] | apply stops_bind; [|intros ?]].

Lemma stops_or_restored r app updated f : stops_short (or_restored r app updated f).
Proof. unfold or_restored. apply stops_bind; [auto with stops|]. intros [[]|e]; stops. by apply stops_fail. Qed.
#[local] Hint Resolve stops_or_restored : stops.

Lemma stops_release app r : stops_short (update_release app r).
Proof.
  unfold update_release. case_bool_decide; [auto with stops|]. case_bool_decide; [|by apply stops_fail].
  apply stops_bind; [auto with stops|]. intros [?|e]; [auto with stops|]. destruct e; by apply stops_fail.
Qed.
Lemma stops_manifest app release r : stops_short (update_manifest app release r).
Proof. unfold update_manifest. stops. Qed.
Lemma stops_prepare app manifest override release r : stops_short (prepare_update app manifest override release r).
Proof.
  unfold prepare_update. do 2 (apply stops_bind; [auto with stops|intros ?]). apply stops_bind; [auto with stops|].
  intros [[??] ?]. stops.
Qed.
#[local] Hint Resolve stops_release stops_manifest stops_prepare : stops.

Lemma stops_refresh app updated manifest r : stops_short (refreshInstallation app updated manifest r).
Proof. unfold refreshInstallation. apply stops_bind; [auto with stops|intros _]. apply stops_bind; [by case_match; auto with stops|intros _]. stops. Qed.
Lemma stops_replace app updated manifest r : stops_short (replaceInstallation app updated manifest r).
Proof. unfold replaceInstallation. stops. Qed.
#[local] Hint Resolve stops_refresh stops_replace : stops.

Lemma stops_update app approved : stops_short (updateApplication app approved).
Proof.
  unfold updateApplication. case_match; [by apply stops_fail|]. apply stops_bind; [auto with stops|intros release].
  apply stops_bind; [auto with stops|intros [manifest override]]. apply stops_bind; [auto with stops|intros _].
  destruct (permission_changes app override manifest) as [changes additions].
  case_match; [by apply stops_fail|]. apply stops_bind; [auto with stops|intros updated]. case_match; auto with stops.
Qed.

(** What a preflight answers is never that the update was done. *)
Lemma preflight_not_updated app s : ur_Status (outcome (preflightUpdate app) s).1 ≠ Some Updated.
Proof.
  unfold outcome. destruct (preflightUpdate app s) as [x s'] eqn:E1.
  assert (∀ q, x = Ok q → ur_Status q ≠ Some Updated) as Hok.
  { intros q ->. unfold preflightUpdate in E1. case_match; [done|].
    apply bind_M_ok in E1 as (release & s1 & _ & E1). case_match; [by injection E1 as <- _|].
    apply bind_M_ok in E1 as ([manifest override] & s2 & _ & E1).
    destruct (permission_changes app override manifest). injection E1 as <- _. by case_match. }
  destruct x as [q|q]; cbn; [by apply Hok|].
  assert (stops_short (preflightUpdate app)) as Hs; [|by apply Hs in E1].
  unfold preflightUpdate. case_match; [by apply stops_fail|]. apply stops_bind; [auto with stops|intros release].
  case_match; [auto with stops|]. apply stops_bind; [auto with stops|intros [manifest override]].
  destruct (permission_changes app override manifest). auto with stops.
Qed.

(** An installation that was replaced is in the store. *)
Lemma replace_ok_stored app updated s s' :
  replaceApplication app updated s = (Ok (), s') → apps s' !! ap_CpakId updated = Some updated.
Proof using laws.
  intros H. destruct (decide (ap_CpakId updated = "")) as [E0|Hne].
  - unfold replaceApplication in H. apply bind_M_ok in H as ([] & s1 & _ & H).
    assert (∀ a t, ap_CpakId a = "" → NewApplication a t = (Err CpakIdMissing, t)) as Hno.
    { intros a t Ha. unfold NewApplication. by rewrite bool_decide_eq_true_2. }
    case_bool_decide; [by rewrite Hno in H|]. apply bind_M_ok in H as ([] & s2 & _ & H).
    rewrite bind_try, Hno, bind_try in H by done. by destruct (NewApplication app s2) as [[]].
  - apply replace_application_spec in H as (_ & _ & Hr). rewrite Hr by done. apply lookup_insert_eq.
Qed.

Lemma file_step_apps {A} (f : M file_error A) s r s' : on_files f s = (r, s') → apps s' = apps s.
Proof. intros (? & _ & He & _)%on_files_step. unfold apps. by rewrite He. Qed.

Lemma replace_installation_stored app updated manifest r s q s' :
  replaceInstallation app updated manifest r s = (Ok q, s') →
  apps s' !! ap_CpakId updated = Some updated ∧ q = with_version (with_status r Updated None) (ap_Version updated).
Proof using laws frame.
  unfold replaceInstallation, or_failed. intros H. rewrite bind_map_error in H.
  destruct (beginUpdateTransaction app updated s) as [[t|] s1]; [|done].
  do 3 (apply or_restored_bind in H as ([[]|] & ? & _ & H); [|by destruct H]).
  apply or_restored_bind in H as ([[]|] & s2 & H2 & H); [|by destruct H]. apply replace_ok_stored in H2.
  rewrite bind_map_error in H. destruct (commitUpdateTransaction t s2) as [c s3] eqn:E3.
  apply file_step_apps in E3. destruct c as [[]|]; [|done]. rewrite bind_try in H.
  destruct (removeExports deps app updated s3) as [gone s4] eqn:E4. apply removeExports_elsewhere in E4 as [Hu4 _].
  rewrite bind_map_error in H. destruct (finishUpdateTransaction t s4) as [y s5] eqn:E5.
  assert (apps s5 = apps s4) as E6.
  { unfold finishUpdateTransaction in E5. rewrite bind_try in E5. destruct (on_files _ s4) as [z s6] eqn:E6.
    apply file_step_apps in E6. by destruct z as [[]|[| | | |[]| | | | | | | | |]]; injection E5 as _ <-. }
  destruct y as [[]|]; [|done]. rewrite bind_try in H.
  destruct (reportUpdateEnrolment deps updated manifest s5) as [z s6] eqn:E7. apply report_elsewhere in E7 as [Hu6 _].
  injection H as <- <-. split; [|done]. unfold apps in *. by rewrite (proj1 Hu6), E6, (proj1 Hu4), E3.
Qed.

(** *** What an update gives

    A field of a permission set gives more: a switch comes on, a list has something it
    did not have, the bus reaches further. *)
Definition widens_field (o next : Override) (f : field) : Prop :=
  match f_kind f with
  | KBool get => get o = false ∧ get next = true
  | KInt _ => False
  | KStrings get => ∃ x, x ∈ get next ∧ x ∉ get o
  | KActions get => ∃ x, x ∈ get next ∧ x ∉ get o
  | KPermissions get => ∃ x, x ∈ get next ∧ x ∉ get o
  | KFilePicker get => ∃ option : FilePickerGrant → bool,
      option ∈ [OpenFile; OpenFolder; SaveFile; Persistent; ContainingFolder] ∧
      option (get o) = false ∧ option (get next) = true
  | KSessionBus get => ¬ narrower (get o) (get next)
  end.

(** The session of the installation an updated one takes the place of. *)
Definition session_held (sessions : list Session) (id : string) : option Session :=
  last (filter (λ s, ss_ID s = id) sessions).

(** The permissions the record of an update has and the one before it had not: of the
    application, a session there was not, and one of a session there was. *)
Inductive gives (app updated : Application) : string → Prop :=
  | gives_field f : f ∈ fields →
      widens_field (installedRecordOverride app) (ap_ParsedOverride updated) f → gives app updated (f_key f)
  | gives_session x : x ∈ ap_ParsedSessions updated → session_held (ap_ParsedSessions app) (ss_ID x) = None →
      gives app updated ("session:" +:+ ss_ID x)
  | gives_session_field x old f : x ∈ ap_ParsedSessions updated →
      session_held (ap_ParsedSessions app) (ss_ID x) = Some old → f ∈ fields →
      widens_field (ss_Override old) (ss_Override x) f →
      gives app updated ("session:" +:+ ss_ID x +:+ ":" +:+ f_key f).

Lemma slice_widens {A} `{EqDecision A} (l l' : list A) x : x ∈ l' → x ∉ l → slice_additions l l' = true.
Proof.
  intros Hx Hno. apply not_false_iff_true. intros H. by eapply slice_no_additions in H.
Qed.

Lemma widens_added o next f : widens_field o next f → field_added o next (f_kind f) = true.
Proof.
  unfold widens_field. destruct (f_kind f) as [get|get|get|get|get|get|get]; cbn [field_added]; [|done|..].
  - by intros [-> ->].
  - intros (x & ? & ?). by eapply slice_widens.
  - intros (x & ? & ?). by eapply slice_widens.
  - intros (x & ? & ?). by eapply slice_widens.
  - intros (option & Hin & H1 & H2). apply not_false_iff_true. intros H. apply picker_no_additions in H as (Ha & Hb & Hc & Hd & He).
    rewrite !elem_of_cons, elem_of_nil in Hin. rewrite <-not_true_iff_false in H1. apply H1.
    destruct Hin as [->|[->|[->|[->|[->|[]]]]]]; auto.
  - rewrite <-restricts_narrower. by destruct (DBusPolicyRestricts _ _).
Qed.

Lemma widens_additions o next f : f ∈ fields → widens_field o next f → f_key f ∈ Additions o next.
Proof.
  intros Hf Hw%widens_added. unfold Additions. apply list_elem_of_fmap. exists f. split; [done|].
  by apply list_elem_of_filter.
Qed.

Lemma held_sessions sessions id :
  foldl (λ m x, <[ss_ID x := x]> m) (∅ : gmap string Session) sessions !! id = session_held sessions id.
Proof.
  unfold session_held. induction sessions as [|x sessions IH] using rev_ind; [done|].
  rewrite foldl_snoc, filter_app. destruct (decide (ss_ID x = id)) as [<-|Hne].
  - by rewrite lookup_insert_eq, filter_cons_True, filter_nil, last_snoc by done.
  - rewrite lookup_insert_ne, filter_cons_False, filter_nil, app_nil_r by done. done.
Qed.

(** What the loop over the updated sessions adds for one of them. *)
Definition session_adds (old : option Session) (x : Session) : list string :=
  match old with
  | None => ["session:" +:+ ss_ID x]
  | Some old => (λ key, ("session:" +:+ ss_ID x) +:+ ":" +:+ key) <$> Additions (ss_Override old) (ss_Override x)
  end.

Lemma session_steps_add sessions m changes additions m' changes' additions' x p :
  foldl session_step (m, changes, additions) sessions = (m', changes', additions') →
  NoDup (ss_ID <$> sessions) →
  p ∈ additions ∨ (x ∈ sessions ∧ p ∈ session_adds (m !! ss_ID x) x) → p ∈ additions'.
Proof.
  revert m changes additions. induction sessions as [|y sessions IH]; intros m changes additions H Hn Hp.
  { injection H as _ _ <-. destruct Hp as [?|[Hin _]]; [done|]. by apply not_elem_of_nil in Hin. }
  cbn [foldl] in H. cbn [fmap list_fmap] in Hn. apply NoDup_cons in Hn as [Hy Hn].
  assert (∃ m1 c1, session_step (m, changes, additions) y = (m1, c1, additions ++ session_adds (m !! ss_ID y) y) ∧
    ∀ id, id ≠ ss_ID y → m1 !! id = m !! id) as (m1 & c1 & Hstep & Hm1).
  { unfold session_step, session_adds. destruct (m !! ss_ID y) as [old|]; eexists _, _; (split; [done|]); intros id Hid; [|done].
    by rewrite lookup_delete_ne. }
  rewrite Hstep in H. eapply IH; [exact H|done|]. destruct Hp as [Hp|[[->|Hin]%elem_of_cons Hp]].
  - left. apply elem_of_app. by left.
  - left. apply elem_of_app. by right.
  - right. split; [done|]. rewrite Hm1; [done|]. intros Heq. apply Hy, list_elem_of_fmap. by exists x.
Qed.

(** Every permission the update gives is among the ones it is checked for. *)
Lemma gives_listed app updated p :
  NoDup (ss_ID <$> ap_ParsedSessions updated) → gives app updated p →
  p ∈ Additions (installedRecordOverride app) (ap_ParsedOverride updated) ++
    (sessionPermissionChanges (ap_ParsedSessions app) (ap_ParsedSessions updated)).2.
Proof.
  intros Hn Hg. apply elem_of_app.
  assert (∀ x, x ∈ ap_ParsedSessions updated → p ∈ session_adds (session_held (ap_ParsedSessions app) (ss_ID x)) x →
    p ∈ (sessionPermissionChanges (ap_ParsedSessions app) (ap_ParsedSessions updated)).2) as Hs.
  { intros x Hx Hp. unfold sessionPermissionChanges. rewrite <-held_sessions in Hp.
    destruct (foldl session_step _ _) as [[m' c'] a'] eqn:Hall. eapply session_steps_add; [exact Hall|done|by right]. }
  destruct Hg as [f Hf Hw|x Hx Ho|x old f Hx Ho Hf Hw].
  - left. by apply widens_additions.
  - right. apply (Hs x Hx). rewrite Ho. by left.
  - right. apply (Hs x Hx). rewrite Ho. cbn [session_adds]. apply list_elem_of_fmap. exists (f_key f).
    split; [by rewrite app_assoc_str|by apply widens_additions].
Qed.

Lemma update_manifest_sessions app release r s manifest override s' :
  update_manifest app release r s = (Ok (manifest, override), s') → NoDup (ss_ID <$> ma_Sessions manifest).
Proof.
  unfold update_manifest. intros H. apply bind_M_ok in H as (m & s1 & _ & H).
  apply bind_M_ok in H as (m' & s2 & Hm & H). apply bind_M_ok in H as (o & s3 & _ & H). injection H as <- _ _.
  unfold or_failed, map_error, lift in Hm. destruct (ValidateManifest m) as [m0|] eqn:Ev; [|done].
  cbn in Hm. injection Hm as -> _. apply validate_manifest_ok in Ev as (o' & Ho).
  by apply (ac_rest _ _ _) in Ho as (_ & _ & Hn & _)%permissions_ok.
Qed.

Lemma prepared_update_record app manifest override release r s updated s' :
  prepare_update app manifest override release r s = (Ok updated, s') →
  ap_Origin updated = ap_Origin app ∧ ap_ParsedOverride updated = override ∧ ap_ParsedSessions updated = ma_Sessions manifest.
Proof.
  unfold prepare_update. intros H. do 2 (apply bind_M_ok in H as (? & ? & _ & H)).
  apply bind_M_ok in H as ([[? ?] ?] & ? & _ & H). do 5 (apply bind_M_ok in H as (? & ? & _ & H)).
  by injection H as <- <-.
Qed.

(** When the update of an application is done, the record in the store is of the same
    origin, and every permission it gives is among the approved additions. *)
Lemma update_within_approval (app : Application) (approvedAdditions : gset string) (s s' : package_state) q :
  updateApplication app approvedAdditions s = (Ok q, s') → ur_Status q = Some Updated →
  ∃ updated, apps s' !! ap_CpakId updated = Some updated ∧ ap_Origin updated = ap_Origin app ∧
    ∀ p, gives app updated p → p ∈ approvedAdditions.
Proof using laws frame.
  unfold updateApplication. intros H Hst. case_match; [done|].
  apply bind_M_ok in H as (release & s1 & _ & H). apply bind_M_ok in H as ([manifest override] & s2 & Hman & H).
  apply update_manifest_sessions in Hman.
  apply bind_M_ok in H as (? & s3 & _ & H). destruct (permission_changes app override manifest) as [changes additions] eqn:Ep.
  destruct (forallb _ additions) eqn:Ea; [|done]. cbn [negb] in H. apply bind_M_ok in H as (updated & s4 & Hup & H).
  apply prepared_update_record in Hup as (Ho & <- & Hs). destruct (sameInstallation app updated).
  { unfold refreshInstallation in H. do 3 (apply bind_M_ok in H as (? & ? & _ & H)). by injection H as <- _. }
  apply replace_installation_stored in H as [Hstored ->]. exists updated. split; [done|]. split; [done|].
  intros p Hp%gives_listed; [|by rewrite Hs]. unfold permission_changes in Ep. rewrite <-Hs in Ep.
  destruct (sessionPermissionChanges _ _) as [changes' additions'].
  injection Ep as <- <-. rewrite forallb_elem in Ea. by apply Ea, bool_decide_eq_true in Hp.
Qed.

(** The origin of a result is the one of the application. *)
Lemma update_done_origin app approved s q s' :
  updateApplication app approved s = (Ok q, s') → ur_Status q = Some Updated → ur_Origin q = ap_Origin app.
Proof using laws frame.
  unfold updateApplication. intros H Hst. case_match; [done|].
  apply bind_M_ok in H as (release & s1 & _ & H). apply bind_M_ok in H as ([manifest override] & s2 & _ & H).
  apply bind_M_ok in H as (? & s3 & _ & H). destruct (permission_changes app override manifest) as [changes additions].
  case_match; [done|]. apply bind_M_ok in H as (updated & s4 & _ & H). case_match.
  { unfold refreshInstallation in H. do 3 (apply bind_M_ok in H as (? & ? & _ & H)). by injection H as <- _. }
  by apply replace_installation_stored in H as [_ ->].
Qed.

Lemma approved_additions_spec approved needed origin addition :
  addition ∈ default ∅ (approved_additions approved needed !! origin) →
  approved = true ∧ ∃ q, q ∈ needed ∧ ur_Origin q = origin ∧ addition ∈ ur_PermissionAdditions q.
Proof.
  unfold approved_additions. destruct approved; [|rewrite lookup_empty; by intros ?%not_elem_of_empty].
  intros H. split; [done|]. revert H.
  enough (∀ (m : gmap string (gset string)), addition ∈ default ∅
      (foldl (λ m r, <[ur_Origin r := list_to_set (ur_PermissionAdditions r)]> m) m needed !! origin) →
    addition ∈ default ∅ (m !! origin) ∨ ∃ q, q ∈ needed ∧ ur_Origin q = origin ∧ addition ∈ ur_PermissionAdditions q) as He.
  { intros [H|H]%He; [|done]. rewrite lookup_empty in H. by apply not_elem_of_empty in H. }
  induction needed as [|q needed IH]; intros m; [by left|]. cbn. intros [H|(q' & ? & ? & ?)]%IH.
  - destruct (decide (ur_Origin q = origin)) as [<-|Hne].
    + rewrite lookup_insert_eq in H. cbn in H. apply elem_of_list_to_set in H. right. exists q. split; [by left|done].
    + rewrite lookup_insert_ne in H by done. by left.
  - right. exists q'. split; [by right|done].
Qed.

(** An update that was done is the one of an application whose additions were
    approved. *)
Lemma update_one_done approved additions app preflight s q s' :
  update_one approved additions app preflight s = (q, s') → ur_Status preflight ≠ Some Updated →
  ur_Status q = Some Updated →
  updateApplication app (default ∅ (additions !! ap_Origin app)) s = (Ok q, s').
Proof.
  unfold update_one. intros H Hpre Hst. destruct (ur_Status preflight) as [st|] eqn:Ep.
  - assert (q = preflight ∨ ∃ s1 e, prepare_again app preflight s1 = (q, e)) as [->|(s1 & e & Hq)]
      by (destruct st; injection H as <- <- || right; eauto); [congruence|].
    unfold prepare_again in Hq. destruct (prepareStorage deps app s1) as [[] s2];
      destruct (createExports deps app s2) as [[] s3]; injection Hq as <- _; try done; congruence.
  - case_match; [by injection H as <- <-|]. unfold outcome in H.
    destruct (updateApplication app _ s) as [[q'|q'] s1] eqn:E1; injection H as -> ->; [done|].
    by apply stops_update in E1.
Qed.

Lemma update_each_done approved additions selected s results s' q :
  update_each approved additions selected s = (results, s') →
  Forall (λ sel : Application * UpdateResult, ur_Status sel.2 ≠ Some Updated) selected →
  q ∈ results → ur_Status q = Some Updated →
  ∃ app preflight before after, (app, preflight) ∈ selected ∧
    updateApplication app (default ∅ (additions !! ap_Origin app)) before = (Ok q, after).
Proof.
  revert s results. induction selected as [|[app preflight] selected IH]; intros s results H Hpre Hq Hst.
  { injection H as <- _. by apply not_elem_of_nil in Hq. }
  cbn in H. destruct (update_one approved additions app preflight s) as [r s1] eqn:E1.
  destruct (update_each approved additions selected s1) as [rs s2] eqn:E2. injection H as <- <-.
  apply list.Forall_cons in Hpre as [Hp Hpre]. apply elem_of_cons in Hq as [->|Hq].
  - exists app, preflight, s, s1. split; [by left|]. by eapply update_one_done.
  - destruct (IH _ _ E2 Hpre Hq Hst) as (app' & pre' & b & a & Hin & Hu). exists app', pre', b, a. split; [by right|done].
Qed.

Lemma preflights_not_updated selected s r :
  r ∈ (preflights selected s).1 → ur_Status r ≠ Some Updated.
Proof.
  revert s. induction selected as [|app selected IH]; intros s H; [by apply not_elem_of_nil in H|]. cbn in H.
  pose proof (preflight_not_updated app s) as Hp. destruct (outcome (preflightUpdate app) s) as [q s1].
  specialize (IH s1). destruct (preflights selected s1) as [rs s2]. apply elem_of_cons in H as [->|H]; auto.
Qed.

(** C7: no update goes past the question.  An update that was done is one of an
    installed application; the record it left in the store is of the same origin; and
    every permission that record gives - a field of the application, a session, or a
    field of a session, against the record that was installed - is one the user had
    been asked about, for an application of that origin, and had agreed to. *)
Theorem updates_were_approved (origin : string) (confirm : option (list UpdateResult → bool)) (s s' : package_state)
    results q :
  updateWithOptions origin confirm s = (Ok results, s') → q ∈ results → ur_Status q = Some Updated →
  ∃ s1 installed s2 app approved before after updated,
    RecoverUpdateTransactions s = (Ok (), s1) ∧ GetInstalledApps s1 = (Ok installed, s2) ∧ app ∈ installed ∧
    updateApplication app approved before = (Ok q, after) ∧
    apps after !! ap_CpakId updated = Some updated ∧ ap_Origin updated = ap_Origin app ∧
    ∀ p, gives app updated p → ∃ ask needed q', confirm = Some ask ∧ ask needed = true ∧
      q' ∈ needed ∧ ur_Origin q' = ap_Origin app ∧ p ∈ ur_PermissionAdditions q'.
Proof using laws frame.
  unfold updateWithOptions. intros H Hq Hst. apply bind_M_ok in H as ([] & s1 & H1 & H).
  apply bind_M_ok in H as (installed & s2 & H2 & H). case_match; [done|].
  match type of H with context [preflights ?sel s2] => set (selected := sel) in H end.
  destruct (preflights selected s2) as [preflight s3] eqn:E1.
  match type of H with context [update_each ?appr ?add ?sel s3] => destruct (update_each appr add sel s3) as [results' s4] eqn:E2 end.
  injection H as -> ->. apply (update_each_done _ _ _ _ _ _ q) in E2 as (app & pre & before & after & Hin & Hu); [| |done..].
  - pose proof Hu as (updated & Hstored & Ho & Hg)%update_within_approval; [|done].
    exists s1, installed, s2, app. eexists _, before, after, updated. split; [done|]. split; [done|]. split.
    { apply elem_of_zip_l in Hin. by apply list_elem_of_filter in Hin as [_ ?]. }
    split; [exact Hu|]. split; [done|]. split; [done|]. intros p Hp%Hg.
    apply approved_additions_spec in Hp as (Happr & q' & Hneeded & Ho' & Ha'). apply orb_true_iff in Happr as [Hn|Hc].
    { apply bool_decide_eq_true in Hn. rewrite Hn in Hneeded. by apply not_elem_of_nil in Hneeded. }
    destruct confirm as [ask|]; [|done]. by eexists ask, _, q'.
  - apply list.Forall_forall. intros [app r] Hin. cbn. apply (preflights_not_updated selected s2). rewrite E1. cbn.
    by apply elem_of_zip_r in Hin.
Qed.
End Updates.

(** ** Example *)
#[export] Instance engine_example : Engine := {|
  engine := gmap string Application;
  held e := e;
  Put k a e := <[k := a]> e;
  Delete k e := delete k e;
  GetByIndex origin e := filter (λ a, ap_Origin a = origin) (map_to_list e).*2;
  Each e := (map_to_list e).*2
|}.

Lemma in_values (e : gmap string Application) a : a ∈ (map_to_list e).*2 ↔ ∃ k, e !! k = Some a.
Proof.
  rewrite list_elem_of_fmap. split.
  - intros ([k b] & -> & H%elem_of_map_to_list). by exists k.
  - intros (k & H). exists (k, a). by rewrite elem_of_map_to_list.
Qed.

#[export] Instance engine_example_laws : EngineLaws engine_example.
Proof.
  split; [done|done|by intros; apply in_values|]. intros origin e a. cbn.
  rewrite list_elem_of_filter, in_values. split; [intros (? & k & ?); by exists k|intros (k & ? & ?); by split; [|exists k]].
Qed.

Definition app_of (id version : string) (o : Override) : Application :=
  mkApplication id "app" version "main" "" "" "github.com/ada/app" "" "docker.io/ada/app:1" "" "" [] [] [] [] [] [] None 0 []
    o false "".
Definition app1 : Application := app_of "YXBwMQ==" "1" NewOverride.
Definition app2 : Application := app_of "YXBwMg==" "2" NewOverride.

(** A codec for these two: the digits of their versions. *)
Definition known (a : Application) : Prop := a = app1 ∨ a = app2.
Definition digit_app (c : ascii) : option Application :=
  if bool_decide (c = "1"%char) then Some app1 else if bool_decide (c = "2"%char) then Some app2 else None.
#[export] Instance codec_example : UpdateCodec := {|
  encode_transaction t :=
    ap_Version (tx_Previous t) +:+ ap_Version (tx_Updated t) +:+ (if tx_Committed t then "c" else "p");
  decode_transaction data :=
    match data with
    | String a (String b (String c "")) =>
        p ← digit_app a; u ← digit_app b; Some (mkTransaction p u (bool_decide (c = "c"%char)))
    | _ => None
    end;
  encode_history l := String.concat "" (ap_Version <$> l);
  decode_history data := mapM digit_app (String.list_ascii_of_string data)
|}.

#[export] Instance codec_example_laws : UpdateCodecLaws codec_example known.
Proof.
  split.
  - intros [p u c]. cbn [tx_Previous tx_Updated]. intros [-> | ->] [-> | ->]; destruct c; by vm_compute.
  - intros l Hl. cbn. induction Hl as [|a l Ha Hl IH]; [done|].
    assert (∃ c, ap_Version a = String c "" ∧ digit_app c = Some a) as (c & Hc & Hd)
      by (destruct Ha as [-> | ->]; eexists; split; by vm_compute).
    rewrite fmap_cons, Hc. destruct l as [|b l]; [cbn; by rewrite Hd|]. cbn in *. by rewrite Hd, IH.
  - intros data l. cbn. revert l. induction data as [|c data IH]; intros l; [by intros [= <-]|]. cbn.
    destruct (digit_app c) as [a|] eqn:Ec; [|done]. cbn. destruct (mapM digit_app _) as [l'|]; [|done].
    intros [= <-]. constructor; [|by apply IH]. unfold digit_app in Ec.
    case_bool_decide; [by injection Ec as <-; left|]. case_bool_decide; [|done]. by injection Ec as <-; right.
Qed.

(** The rest of the program answers what [example_manifest] says, and does nothing. *)
Definition deps_example (manifest : CpakManifest) : updateDeps :=
  mkDeps (λ _, mret "2") (λ _ _ _, mret manifest) (λ _ _, mret []) (λ _ _ _, mret (["layer"], "config", "sha256:00"))
    (λ layers _, mret layers) (λ layers _ _ _, mret layers) (λ _ _, mret ()) (λ _, mret ()) (λ _, mret ()) (λ _, mret ())
    (λ _ _, mret ()) (λ _ _, mret ()) (λ m, Ok (ma_Version m)) (λ _ _, Ok ()).

#[export] Instance deps_example_elsewhere manifest : DepsElsewhere (deps_example manifest).
Proof. split; intros; intros s r s' [= <- <-]; by split. Qed.

Definition store_example : string := "/home/ada/.local/share/cpak".
Definition state_of (faults : list bool) (e : gmap string Application) : package_state :=
  mkState (mkWorld ∅ 1000 faults) e.
Definition installed_example : gmap string Application := <[ap_CpakId app1 := app1]> ∅.
Definition result_example : UpdateResult := start_result app1.

Lemma example_replaceable : replaceable known app1 app2 installed_example.
Proof. split_and!; try (by vm_compute); [by right; vm_compute|by left|by right]. Qed.

Lemma example_no_transactions faults e : no_transactions store_example (state_of faults e).
Proof. split; [by left|by intros]. Qed.

(** The update is cut off after its ninth call, and so is the recovery. *)
Definition cut (n : nat) : list bool := repeat false n ++ repeat true 30.
Definition update_example (faults : list bool) (e : gmap string Application) :=
  replaceInstallation (λ s, s) store_example (deps_example settled_manifest) app1 app2 settled_manifest
    result_example (state_of faults e).

Lemma update_atomic_witness :
  let s1 := (update_example (cut 9) installed_example).2 in
  let s2 := (RecoverUpdateTransactions store_example (deps_example settled_manifest)
    (with_faults [] (attempts store_example (deps_example settled_manifest) [cut 4; cut 2] s1))).2 in
  no_transactions store_example s2.
Proof.
  apply (update_atomic (λ s, s) store_example (deps_example settled_manifest) known eq_refl app1 app2 settled_manifest
    result_example (state_of (cut 9) installed_example) _ _ _ [cut 4; cut 2] _
    (example_no_transactions _ _) example_replaceable (surjective_pairing _) (surjective_pairing _)).
Defined.

(** Without a fault the update is done, and the history holds the record before. *)
Example example_update_done :
  let '(x, s) := update_example [] installed_example in
  is_ok x = true ∧ (st_engine s !! ap_CpakId app2, st_engine s !! ap_CpakId app1) = (Some app2, None) ∧
  held_history (λ s, s) store_example (ap_Origin app1) s = Some [app1].
Proof. by vm_compute. Qed.

(** With the commit of the transaction cut off the result is a failure, and the record is the
    new one until a recovery puts the old one back. *)
Lemma failed_update_observed :
  let '(x, s) := update_example (repeat false 14 ++ repeat true 30) installed_example in
  is_ok x = false ∧ Each (st_engine s) = [app2] ∧
  Each (st_engine (RecoverUpdateTransactions store_example (deps_example settled_manifest) (with_faults [] s)).2) = [app1].
Proof. vm_compute. repeat split. Qed.

(** What the recovery undoes is what was being replaced, and not what became of it since: an
    application that is removed after such an update is back after the recovery. *)
Lemma removed_application_returns :
  let '(_, s) := update_example (repeat false 14 ++ repeat true 30) installed_example in
  let '(x, s) := RemoveApplicationByCpakId (ap_CpakId app2) (with_faults [] s) in
  x = Ok () ∧ Each (st_engine s) = [] ∧
  Each (st_engine (RecoverUpdateTransactions store_example (deps_example settled_manifest) (with_faults [] s)).2) = [app1].
Proof. vm_compute. repeat split. Qed.

(** The identifier is Base64 of the standard alphabet, which has a slash: such a transaction is
    written to a directory of its own, and no recovery finds it. *)
Lemma slash_in_identifier :
  let app := app_of (base64_encode "Wh?:branch:main:github.com/ada/app") "1" NewOverride in
  ap_CpakId app = "V2g/OmJyYW5jaDptYWluOmdpdGh1Yi5jb20vYWRhL2FwcA==" ∧
  let '(x, s) := beginUpdateTransaction store_example app app2 (state_of [] installed_example) in
  let '(y, s') := RecoverUpdateTransactions store_example (deps_example settled_manifest) s in
  is_ok x = true ∧ y = Ok () ∧
  files s' !! (store_example +:+ "/transactions/updates/V2g/OmJyYW5jaDptYWluOmdpdGh1Yi5jb20vYWRhL2FwcA==.json") =
    Some (File 1000 384 "12p").
Proof. vm_compute. repeat split. Qed.

(** A store with the second record, and the first one in the history. *)
Definition history_file : string := rollbackHistoryPath (λ s, s) store_example (ap_Origin app1).
Definition state_with_history (faults : list bool) (e : gmap string Application) (history : string) : package_state :=
  mkState (mkWorld (<[history_file := File 1000 384 history]> (<[history_directory store_example := Directory 1000 493]> ∅))
    1000 faults) e.
Definition updated_example : gmap string Application := <[ap_CpakId app2 := app2]> ∅.

Lemma history_no_transactions faults e history : no_transactions store_example (state_with_history faults e history).
Proof.
  assert (∀ path, path ≠ history_file → path ≠ history_directory store_example →
    files (state_with_history faults e history) !! path = None) as H.
  { intros path H1 H2. unfold state_with_history, files. cbn. by rewrite !lookup_insert_ne. }
  split; [left; by apply H; vm_compute|]. intros name _ _ _. apply H; intros E0; unfold child in E0; vm_compute in E0; discriminate E0.
Qed.

Lemma sole_singleton a : sole a (<[ap_CpakId a := a]> ∅).
Proof.
  split; [|split; [apply lookup_insert_eq|]].
  - intros k b [[<- <-]|[_ ?]]%lookup_insert_Some; [done|]. by rewrite lookup_empty in *.
  - intros k b [[_ <-]|[_ ?]]%lookup_insert_Some; [done|]. by rewrite lookup_empty in *.
Qed.

Lemma rollback_atomic_witness :
  let s := state_with_history (cut 12) updated_example "1" in
  let s1 := (Rollback (λ s, s) store_example (deps_example settled_manifest) (ap_Origin app2) s).2 in
  no_transactions store_example
    (RecoverUpdateTransactions store_example (deps_example settled_manifest)
      (with_faults [] (attempts store_example (deps_example settled_manifest) [cut 3] s1))).2.
Proof.
  edestruct (rollback_atomic (λ s, s) store_example (deps_example settled_manifest) known eq_refl app2 [app1]
    (state_with_history (cut 12) updated_example "1")) as (_ & H & _); [apply history_no_transactions|apply sole_singleton| | | | | | | |exact H].
  - by vm_compute.
  - intros previous [= <-]. split_and!; try (by vm_compute); [by right; vm_compute|by right|by left].
  - by vm_compute.
  - by vm_compute.
  - by right.
  - apply surjective_pairing.
  - apply surjective_pairing.
Defined.

Lemma rollback_undoes_update_witness :
  ∃ done_rollback s2,
    Rollback (λ s, s) store_example (deps_example settled_manifest) (ap_Origin app1) (update_example [] installed_example).2 =
      (Ok done_rollback, s2) ∧ rb_ToVersion done_rollback = "1" ∧ apps s2 = installed_example.
Proof.
  destruct (rollback_undoes_update (λ s, s) store_example (deps_example settled_manifest) known eq_refl app1 app2
    settled_manifest result_example (state_of [] installed_example) []) as (u & s1 & b & s2 & H1 & _ & H2 & H3 & H4 & _).
  - done.
  - apply example_no_transactions.
  - apply example_replaceable.
  - apply sole_singleton.
  - by vm_compute.
  - by vm_compute.
  - split; [by left|done].
  - done.
  - cbn. lia.
  - exists b, s2. unfold update_example. rewrite H1. split; [exact H2|]. split; [by rewrite H3|exact H4].
Defined.

(** An update whose manifest asks for the notifications. *)
Definition asking_manifest : CpakManifest :=
  with_override settled_manifest "1.0" (with_switches NewOverride true false false).
Definition asked : list string := ["notification"; "session:org.ada.kiosk"].

Definition updating (confirm : list UpdateResult → bool) :=
  updateWithOptions (λ s, s) store_example (deps_example asking_manifest) "github.com/ada/app" (Some confirm)
    (state_of [] installed_example).

Lemma updates_were_approved_witness :
  let ask needed := bool_decide ((ur_PermissionAdditions <$> needed) = [asked]) in
  match (updating ask).1 with
  | Ok [q] => ur_Status q = Some Updated ∧ ∃ app updated after, apps after !! ap_CpakId updated = Some updated ∧
      ∀ p, gives app updated p → ∃ needed q', ask needed = true ∧ q' ∈ needed ∧ p ∈ ur_PermissionAdditions q'
  | _ => False
  end.
Proof.
  intros ask.
  assert (match (updating ask).1 with Ok [q] => ur_Status q | _ => None end = Some Updated) as H
    by (vm_compute; reflexivity).
  destruct (updating ask) as [[[|q [|]]|] s'] eqn:E1; try discriminate H. cbn in H.
  split; [exact H|].
  unfold updating in E1. destruct (updates_were_approved (λ s, s) store_example (deps_example asking_manifest) "github.com/ada/app" (Some ask)
    (state_of [] installed_example) s' [q] q E1) as (s1 & installed & s2 & app & approved & before & after & updated &
      _ & _ & _ & _ & Hstored & _ & Hg).
  - by left.
  - exact H.
  - exists app, updated, after. split; [exact Hstored|]. intros p Hp.
    destruct (Hg p Hp) as (ask' & needed & q' & [= <-] & Ha & Hin & _ & Hadd). exists needed, q'. by split_and!.
Defined.

(** Asked or not: the same update, refused when the user does not agree. *)
Lemma refusal_stops_update :
  match (updating (λ _, false)).1 with Ok [q] => ur_Status q = Some PermissionDenied | _ => False end.
Proof. vm_compute. reflexivity. Qed.
