(* ===== verification/Ceiling.v ===== *)
(** * The ceiling of the host ([pkg/systemauthority/ceiling.go])

    The widest policy an administrator allows, kept beside the ledger: what its
    file says, and which permissions it mentions. *)
From Stdlib Require Import Ascii.
From stdpp Require Import base strings list numbers gmap.
From S2P Require Import Prelude.
From S2P Require Import GoStrings.
From S2P Require Import GoPath.
From S2P Require Import DBusPolicy.
From S2P Require Import Filesystem.
From S2P Require Import Override.
From S2P Require Import TrustedFiles.
From S2P Require Import Integrity.
From S2P Require Import Roots.
From stdpp Require Import options.

Definition ceilingFileName : string := "ceiling".
Definition ceilingSizeLimit : N := N.shiftl 1 20.

(** [Named]: the keys the file holds, [None] for the nil map of a ceiling that did
    not come from a file. *)
Record Ceiling : Type := mkCeiling {
  cl_Present : bool;
  cl_Policy : Override;
  cl_Named : option (gset string)
}.
Definition no_ceiling : Ceiling := mkCeiling false NewOverride None.

Record CeilingStore : Type := mkCeilingStore { cs_Directory : string; cs_OwnerUID : N }.
Definition DefaultCeilingStore : CeilingStore := mkCeilingStore "/var/lib/cpak/integrity/v1" 0.

Inductive ceiling_error : Type :=
  | CeilingDecode | CeilingFilesystem (e : fs_error) | CeilingBus (e : dbus_error) | CeilingKeys
  | CeilingFile (e : file_error).

(** The two readings of the JSON of a ceiling: its first value as a policy, with no
    field the policy does not have, and the keys of the whole of it. *)
Class CeilingCodec : Type := {
  decode_ceiling : string → option Override;
  ceiling_keys : string → option (gset string)
}.

Section Ceiling.
Context {codec : CeilingCodec} (s : CeilingStore).

Definition parseCeiling (data : string) : result ceiling_error (Override * gset string) :=
  match decode_ceiling data with
  | None => Err CeilingDecode
  | Some policy =>
      wrap CeilingFilesystem (ValidateFilesystemPermissions (Filesystem policy)) ;;;
      wrap CeilingBus (ValidateDBusPolicy (SessionBus policy)) ;;;
      match ceiling_keys data with
      | None => Err CeilingKeys
      | Some named => Ok (policy, named)
      end
  end.

Definition ceiling_path : string := path_join [cs_Directory s; ceilingFileName].

(** A file that is missing or cannot be vouched for decides nothing. *)
Definition LoadCeiling : M ceiling_error Ceiling :=
  read ← try (readTrusted ceiling_path (cs_OwnerUID s) ceilingSizeLimit);
  match read with
  | Err _ | Ok None => mret no_ceiling
  | Ok (Some data) =>
      '(policy, named) ← lift (parseCeiling data);
      mret (mkCeiling true policy (Some named))
  end.

Definition StoreCeiling (data : string) : M ceiling_error () :=
  lift (parseCeiling data) ;;;
  map_error CeilingFile (ensureDirectory (cs_Directory s) (cs_OwnerUID s)) ;;;
  let data := if has_suffix newline data then data else data +:+ newline in
  map_error CeilingFile (writeAtomic ceiling_path data 420).

Definition ClearCeiling : M ceiling_error () :=
  removed ← try (remove ceiling_path);
  match removed with
  | Ok _ | Err Missing => mret ()
  | Err e => fail (CeilingFile e)
  end.

Definition ValidateCeiling (data : string) : result ceiling_error unit := parseCeiling data ;;; Ok tt.
End Ceiling.

(** What the rest of cpak reads, in which there is no error. *)
Definition HostCeiling {codec : CeilingCodec} {E} : M E Ceiling :=
  ceiling ← try (LoadCeiling DefaultCeilingStore);
  mret (match ceiling with Ok ceiling => ceiling | Err _ => no_ceiling end).

(** ** What a ceiling says *)
Section Facts.
Context {codec : CeilingCodec}.

Lemma parse_ceiling_ok data policy named :
  parseCeiling data = Ok (policy, named) →
  decode_ceiling data = Some policy ∧ ceiling_keys data = Some named ∧ valid_grants policy ∧
  ValidateDBusPolicy (SessionBus policy) = Ok tt.
Proof.
  unfold parseCeiling. destruct (decode_ceiling data) as [p|]; [|done].
  rewrite !bind_unit_ok, !wrap_ok. destruct (ceiling_keys data) as [n|]; [|naive_solver].
  intros (Hf & Hb & [= <- <-]). done.
Qed.

(** A ceiling that says something is what a file of the owner says. *)
Definition ceiling_of (s : CeilingStore) (fs : gmap string node) (c : Ceiling) : Prop :=
  ∃ data policy named, trusted_file fs (ceiling_path s) (cs_OwnerUID s) data ∧
    parseCeiling data = Ok (policy, named) ∧ c = mkCeiling true policy (Some named).

Lemma load_ceiling_spec s w r w' :
  LoadCeiling s w = (r, w') →
  only_read w w' ∧
  match r with
  | Ok c => c = no_ceiling ∨ ceiling_of s (w_fs w) c
  | Err e => ∃ data, trusted_file (w_fs w) (ceiling_path s) (cs_OwnerUID s) data ∧ parseCeiling data = Err e
  end ∧
  (quiet w → w' = w ∧ ∀ data, trusted_file (w_fs w) (ceiling_path s) (cs_OwnerUID s) data →
    (N.of_nat (slen data) ≤ ceilingSizeLimit)%N →
    r = ('(policy, named) ← parseCeiling data; Ok (mkCeiling true policy (Some named)))).
Proof.
  unfold LoadCeiling. rewrite bind_try.
  destruct (readTrusted _ _ _ w) as [read w1] eqn:E. apply read_trusted_spec in E as (Hr & Hread & Hq).
  destruct read as [[data|]|e].
  - rewrite bind_lift. destruct Hread as [Ht Hl].
    assert (∀ d, trusted_file (w_fs w) (ceiling_path s) (cs_OwnerUID s) d → d = data) as Hsame.
    { intros d (? & Hd & _). destruct Ht as (? & Hx & _). rewrite Hd in Hx. by injection Hx. }
    destruct (parseCeiling data) as [[policy named]|e] eqn:Hp; intros [= <- <-]; (split; [done|]).
    + split; [right; by exists data, policy, named|]. intros Hx. split; [by apply Hq|].
      intros d ->%Hsame _. by rewrite Hp.
    + split; [by exists data|]. intros Hx. split; [by apply Hq|]. intros d ->%Hsame _. by rewrite Hp.
  - intros [= <- <-]. split_and!; [done|by left|]. intros Hx. destruct (Hq Hx) as (-> & _ & Hok).
    split; [done|]. intros d Ht Hl. by specialize (Hok d Ht Hl).
  - intros [= <- <-]. split_and!; [done|by left|]. intros Hx. destruct (Hq Hx) as (-> & _ & Hok).
    split; [done|]. intros d Ht Hl. by specialize (Hok d Ht Hl).
Qed.

Lemma host_ceiling_spec {E} w (r : result E Ceiling) w' :
  HostCeiling w = (r, w') →
  only_read w w' ∧ (quiet w → w' = w) ∧ ∃ c, r = Ok c ∧ (c = no_ceiling ∨ ceiling_of DefaultCeilingStore (w_fs w) c).
Proof.
  unfold HostCeiling. rewrite bind_try. destruct (LoadCeiling _ w) as [read w1] eqn:E0.
  apply load_ceiling_spec in E0 as (Hr & Hc & Hq). intros [= <- <-]. split; [done|].
  split; [by intros Hx; apply Hq|].
  destruct read as [c|e]; eauto.
Qed.

(** JSON takes no notice of a line break after the value. *)
Definition break_ignored : Prop := ∀ data,
  decode_ceiling (data +:+ newline) = decode_ceiling data ∧
  ceiling_keys (data +:+ newline) = ceiling_keys data.

(** What [StoreCeiling] leaves in the file. *)
Definition stored (data : string) : string := if has_suffix newline data then data else data +:+ newline.

Lemma parse_stored data : break_ignored → parseCeiling (stored data) = parseCeiling data.
Proof.
  intros H. unfold stored. case_if; [done|]. unfold parseCeiling.
  by destruct (H data) as [-> ->].
Qed.

Lemma ceiling_path_below s :
  is_abs (cs_Directory s) = true → ceiling_path s ≠ cs_Directory s.
Proof.
  intros Ha E. destruct (join_below (cs_Directory s) ceilingFileName) as (_ & _ & Hp); try done.
  fold (ceiling_path s) in Hp. rewrite E in Hp. apply (f_equal length) in Hp.
  rewrite length_app in Hp. vm_compute (path_parts ceilingFileName) in Hp. cbn in Hp. lia.
Qed.

(** Recording a ceiling.  A document that is not a ceiling is refused before
    anything is written; whatever calls fail, an error leaves the ceiling as it
    was; and once a document the reader accepts the size of is recorded, what is
    loaded is its policy, naming exactly the keys it holds. *)
Theorem ceiling_recorded s data w r w' :
  is_abs (cs_Directory s) = true → w_uid w = cs_OwnerUID s → break_ignored →
  StoreCeiling s data w = (r, w') →
  (∀ e, parseCeiling data = Err e → r = Err e ∧ w' = w) ∧
  (r ≠ Ok () → w_fs w' !! ceiling_path s = w_fs w !! ceiling_path s) ∧
  (r = Ok () → ∃ policy named, parseCeiling data = Ok (policy, named) ∧
    ((N.of_nat (slen (stored data)) ≤ ceilingSizeLimit)%N →
      (LoadCeiling s (calm w')).1 = Ok (mkCeiling true policy (Some named)))).
Proof.
  intros Ha Hu Hbreak. unfold StoreCeiling. rewrite bind_lift.
  destruct (parseCeiling data) as [[policy named]|e] eqn:Hp;
    [|intros [= <- <-]; split_and!; [by intros ? [= ->]|done|done]].
  rewrite bind_map_error. destruct (ensureDirectory _ _ w) as [made w1] eqn:He.
  apply ensure_directory_grows in He as (Hu1 & _ & Hkeep & _).
  assert (w_fs w1 !! ceiling_path s = w_fs w !! ceiling_path s) as Hk
    by (apply Hkeep; by apply ceiling_path_below).
  destruct made as [[]|e]; [|intros [= <- <-]; by split_and!].
  fold (stored data). intros H. unfold map_error in H.
  destruct (writeAtomic _ _ _ w1) as [written w2] eqn:Hw. injection H as <- <-.
  apply write_atomic_writes in Hw as (_ & Hfs & _). rewrite Hu1 in Hfs. split_and!; [done| |].
  - intros Hne. destruct written as [[]|]; [done|]. by rewrite Hfs.
  - intros Hok. destruct written as [[]|]; [|done]. exists policy, named. split; [done|]. intros Hl.
    destruct (LoadCeiling s (calm w2)) as [loaded w3] eqn:Hload.
    apply load_ceiling_spec in Hload as (_ & _ & Hq). destruct (Hq eq_refl) as [_ Hr].
    cbn. rewrite (Hr (stored data)); [by rewrite parse_stored, Hp| |done].
    exists 420%N. cbn. rewrite Hfs, Hu. by rewrite lookup_insert_eq.
Qed.
End Facts.

(** A codec that knows one document, whatever lines follow it. *)
Definition first_line (d : string) : string := default "" (head (split_byte "010"%char d)).
#[export] Instance ceiling_codec_example : CeilingCodec := {|
  decode_ceiling d := if bool_decide (first_line d = "network") then Some NewOverride else None;
  ceiling_keys d := if bool_decide (first_line d = "network") then Some {[ "network" ]} else None
|}.

Lemma break_ignored_example : break_ignored.
Proof.
  intros d. cbn. assert (first_line (d +:+ newline) = first_line d) as ->; [|done].
  unfold first_line, newline. rewrite split_byte_app_sep.
  by destruct (split_byte_cons "010"%char d) as (? & ? & ->).
Qed.

Definition managed_host : world :=
  mkWorld {[ cs_Directory DefaultCeilingStore := Directory 0 493 ]} 0 [].

Lemma ceiling_recorded_witness :
  let w' := (StoreCeiling DefaultCeilingStore "network" managed_host).2 in
  (LoadCeiling DefaultCeilingStore (calm w')).1 = Ok (mkCeiling true NewOverride (Some {[ "network" ]})).
Proof.
  intros w'.
  assert (StoreCeiling DefaultCeilingStore "network" managed_host = (Ok tt, w')) as E
    by (vm_compute; reflexivity).
  destruct (proj2 (proj2 (ceiling_recorded DefaultCeilingStore "network" managed_host (Ok tt) w'
    eq_refl eq_refl break_ignored_example E)) eq_refl)
    as (policy & named & Hp & H).
  vm_compute in Hp. injection Hp as <- <-. apply H. vm_compute. discriminate.
Defined.

(** A document above the size the reader accepts is recorded all the same, and
    then decides nothing: the host is as if no ceiling was set. *)
Lemma oversized_ceiling_lifts {codec : CeilingCodec} s data w w' :
  w_uid w = cs_OwnerUID s → StoreCeiling s data w = (Ok tt, w') →
  (ceilingSizeLimit < N.of_nat (slen (stored data)))%N →
  (LoadCeiling s (calm w')).1 = Ok no_ceiling.
Proof.
  intros Hu H Hl. unfold StoreCeiling in H. rewrite bind_lift in H.
  destruct (parseCeiling data) as [[policy named]|e] eqn:Hp; [|done].
  rewrite bind_map_error in H. destruct (ensureDirectory _ _ w) as [made w1] eqn:He.
  apply ensure_directory_grows in He as (Hu1 & _). destruct made as [[]|e]; [|done].
  fold (stored data) in H. unfold map_error in H. destruct (writeAtomic _ _ _ w1) as [written w2] eqn:Hw.
  injection H as Hr <-. destruct written as [[]|]; [|done].
  apply write_atomic_writes in Hw as (_ & Hfs & _). rewrite Hu1 in Hfs.
  unfold LoadCeiling. rewrite bind_try, read_trusted_quiet by done. cbn [w_fs calm].
  rewrite Hfs, Hu, lookup_insert_eq. unfold read_result. cbn [private_mode].
  rewrite N.eqb_refl. apply N.ltb_lt in Hl. by rewrite Hl.
Qed.
