(* ===== verification/Intersection.v ===== *)
(** * Policies below a ceiling ([pkg/cpak/nested_auth.go])

    The intersection of two policies, and what holding a policy to the permissions
    a ceiling names makes of it. *)
From Stdlib Require Import Ascii.
From stdpp Require Import base strings list gmap.
From S2P Require Import Prelude.
From S2P Require Import GoStrings.
From S2P Require Import GoPath.
From S2P Require Import DBusPolicy.
From S2P Require Import HostActions.
From S2P Require Import Filesystem.
From S2P Require Import Override.
From S2P Require Import Integrity.
From S2P Require Import Ceiling.
From stdpp Require Import options.

(** ** The intersection *)
Definition intersectFilePicker (parent child : FilePickerGrant) : FilePickerGrant :=
  mkPicker (OpenFile parent && OpenFile child) (OpenFolder parent && OpenFolder child)
    (SaveFile parent && SaveFile child) (Persistent parent && Persistent child)
    (ContainingFolder parent && ContainingFolder child).

Definition minimumLimit (parent child : Z) : Z :=
  if (parent =? 0)%Z then child
  else if (child =? 0)%Z || (parent <? child)%Z then parent else child.

Definition intersectStrings (parent child : list string) : list string :=
  filter (λ value, value ∈ (list_to_set parent : gset string)) child.

Section Intersection.
Context (h : host).

Definition filesystemContains (parent child : string) : bool :=
  if bool_decide (parent = "host") then true
  else if bool_decide (child = "host") then false
  else if bool_decide (parent = "home") && bool_decide (child = "home") then true
  else
    match (if bool_decide (parent = "home") then h_home h else Some parent) with
    | None => false
    | Some parent =>
        match (if bool_decide (child = "home") then h_home h else Some child) with
        | None => false
        | Some child => bool_decide (parent = child) || has_prefix (parent +:+ "/") child
        end
    end.

(** The loop over what the parent was granted: the access left of one request,
    empty for none. *)
Definition narrow_access (requested : FilesystemPermission) (access : string)
    (granted : FilesystemPermission) : string :=
  if negb (filesystemContains (fp_path granted) (fp_path requested)) then access
  else
    let candidate :=
      if bool_decide (fp_access granted = "read-only") || bool_decide (fp_access requested = "read-only")
      then "read-only" else fp_access requested in
    if bool_decide (access = "") || bool_decide (candidate = "read-only") then candidate else access.
Definition granted_access (parent : list FilesystemPermission) (requested : FilesystemPermission) : string :=
  foldl (narrow_access requested) "" parent.

Definition granted_paths (parent child : list FilesystemPermission) : gmap string string :=
  foldl (λ permissions requested,
    let access := granted_access parent requested in
    if negb (bool_decide (access = "")) then <[fp_path requested := access]> permissions else permissions)
    ∅ child.

Definition intersectFilesystem (parent child : list FilesystemPermission) : list FilesystemPermission :=
  let permissions := granted_paths parent child in
  (λ path, mkPerm path (default "" (permissions !! path))) <$>
    sort_strings (map_to_list permissions).*1.

Definition intersectOverrides (parent child : Override) : Override :=
  let both (get : Override → bool) := get parent && get child in
  let least (get : Override → Z) := minimumLimit (get parent) (get child) in
  {| SocketX11 := both SocketX11;
     DisplayX11 := both DisplayX11;
     SocketWayland := both SocketWayland;
     SocketPulseAudio := both SocketPulseAudio;
     SocketSessionBus := both SocketSessionBus;
     SocketSystemBus := both SocketSystemBus;
     SocketSshAgent := both SocketSshAgent;
     SocketCups := both SocketCups;
     SocketGpgAgent := both SocketGpgAgent;
     SocketAtSpiBus := both SocketAtSpiBus;
     SocketBluetooth := both SocketBluetooth;
     Bluetooth := both Bluetooth;
     DeviceDri := both DeviceDri;
     DeviceKvm := both DeviceKvm;
     DeviceShm := both DeviceShm;
     DeviceAlsa := both DeviceAlsa;
     DeviceVideo := both DeviceVideo;
     DeviceFuse := both DeviceFuse;
     DeviceTun := both DeviceTun;
     DeviceUsb := both DeviceUsb;
     DeviceSerial := both DeviceSerial;
     DeviceInput := both DeviceInput;
     DeviceTTY := both DeviceTTY;
     DeviceAll := both DeviceAll;
     Notification := both Notification;
     OpenURI := both OpenURI;
     HostApplications := both HostApplications;
     HostActions := IntersectHostActions (HostActions parent) (HostActions child);
     FilePicker := intersectFilePicker (FilePicker parent) (FilePicker child);
     SessionBus := IntersectDBusPolicies (SessionBus parent) (SessionBus child);
     Filesystem := intersectFilesystem (Filesystem parent) (Filesystem child);
     FsHost := both FsHost;
     FsHostEtc := both FsHostEtc;
     FsHostHome := both FsHostHome;
     FsExtra := intersectStrings (FsExtra parent) (FsExtra child);
     Env := intersectStrings (Env parent) (Env child);
     Network := both Network;
     Process := both Process;
     UserNamespaces := both UserNamespaces;
     MemoryMaxMB := least MemoryMaxMB;
     CPUQuota := least CPUQuota;
     PidsMax := least PidsMax;
     AsRoot := both AsRoot;
     AllowedHostCommands := [] |}.
End Intersection.

(** ** Holding a policy to what a ceiling names *)

(** Families of keys: naming one on the left holds those on the right. *)
Definition permissionAliases : list (list string * list string) :=
  [(["deviceDri"; "deviceKvm"; "deviceShm"; "deviceAlsa"; "deviceVideo"; "deviceFuse"; "deviceTun";
     "deviceUsb"; "deviceSerial"; "deviceInput"; "deviceTTY"], ["deviceAll"]);
   (["filesystem"], ["fsHost"; "fsHostEtc"; "fsHostHome"; "fsExtra"]);
   (["socketSystemBus"; "socketBluetooth"], ["socketSystemBus"; "socketBluetooth"])].

Definition alias_family (named reached : gset string) (family : list string * list string) : gset string :=
  if existsb (λ trigger, bool_decide (trigger ∈ named)) family.1
  then reached ∪ list_to_set family.2 else reached.
Definition withAliases (named : gset string) : gset string :=
  foldl (alias_family named) named permissionAliases.

(** The walk over the fields, written out: each by the key of its JSON tag. *)
Definition heldToNamed (requested restricted : Override) (named : option (gset string)) : Override :=
  match named with
  | None => restricted
  | Some named =>
      let reached := withAliases named in
      let held {A} (key : string) (get : Override → A) : A :=
        if bool_decide (key ∈ reached) then get restricted else get requested in
      {| SocketX11 := held "socketX11" SocketX11;
         DisplayX11 := held "displayX11" DisplayX11;
         SocketWayland := held "socketWayland" SocketWayland;
         SocketPulseAudio := held "socketPulseAudio" SocketPulseAudio;
         SocketSessionBus := held "socketSessionBus" SocketSessionBus;
         SocketSystemBus := held "socketSystemBus" SocketSystemBus;
         SocketSshAgent := held "socketSshAgent" SocketSshAgent;
         SocketCups := held "socketCups" SocketCups;
         SocketGpgAgent := held "socketGpgAgent" SocketGpgAgent;
         SocketAtSpiBus := held "socketAtSpiBus" SocketAtSpiBus;
         SocketBluetooth := held "socketBluetooth" SocketBluetooth;
         Bluetooth := held "bluetooth" Bluetooth;
         DeviceDri := held "deviceDri" DeviceDri;
         DeviceKvm := held "deviceKvm" DeviceKvm;
         DeviceShm := held "deviceShm" DeviceShm;
         DeviceAlsa := held "deviceAlsa" DeviceAlsa;
         DeviceVideo := held "deviceVideo" DeviceVideo;
         DeviceFuse := held "deviceFuse" DeviceFuse;
         DeviceTun := held "deviceTun" DeviceTun;
         DeviceUsb := held "deviceUsb" DeviceUsb;
         DeviceSerial := held "deviceSerial" DeviceSerial;
         DeviceInput := held "deviceInput" DeviceInput;
         DeviceTTY := held "deviceTTY" DeviceTTY;
         DeviceAll := held "deviceAll" DeviceAll;
         Notification := held "notification" Notification;
         OpenURI := held "openURI" OpenURI;
         HostApplications := held "hostApplications" HostApplications;
         HostActions := held "hostActions" HostActions;
         FilePicker := held "filePicker" FilePicker;
         SessionBus := held "sessionBus" SessionBus;
         Filesystem := held "filesystem" Filesystem;
         FsHost := held "fsHost" FsHost;
         FsHostEtc := held "fsHostEtc" FsHostEtc;
         FsHostHome := held "fsHostHome" FsHostHome;
         FsExtra := held "fsExtra" FsExtra;
         Env := held "env" Env;
         Network := held "network" Network;
         Process := held "process" Process;
         UserNamespaces := held "userNamespaces" UserNamespaces;
         MemoryMaxMB := held "memoryMaxMB" MemoryMaxMB;
         CPUQuota := held "cpuQuota" CPUQuota;
         PidsMax := held "pidsMax" PidsMax;
         AsRoot := held "asRoot" AsRoot;
         AllowedHostCommands := held "allowedHostCommands" AllowedHostCommands |}
  end.

(** [underHostCeiling], for the ceiling that was read. *)
Definition under_ceiling (h : host) (ceiling : Ceiling) (requested : Override) : Override :=
  if negb (cl_Present ceiling) then requested
  else heldToNamed requested (intersectOverrides h (cl_Policy ceiling) requested) (cl_Named ceiling).

(** ** One grant within another

    A grant is within another when its access is covered and whatever it resolves
    to on the host lies below what the other resolves to. *)
Definition grant_within (h : host) (held wanted : FilesystemPermission) : Prop :=
  accessCovers (fp_access held) (fp_access wanted) = true ∧
  ∀ source target, ResolveFilesystemPermission h wanted = Ok (source, target) →
    ∃ source' target', ResolveFilesystemPermission h held = Ok (source', target') ∧
      path_parts source' `prefix_of` path_parts source.

#[export] Instance grant_within_preorder h : PreOrder (grant_within h).
Proof.
  split.
  - intros g. split; [apply accessCovers_iff; by left|]. intros s t Hr. by exists s, t.
  - intros g1 g2 g3 [Ha1 Hr1] [Ha2 Hr2]. split; [by eapply accessCovers_trans|].
    intros s t (s2 & t2 & H2 & Hp2)%Hr2. destruct (Hr1 _ _ H2) as (s1 & t1 & H1 & Hp1).
    exists s1, t1. split; [done|]. by etrans.
Qed.

Definition valid_grant (p : FilesystemPermission) : Prop :=
  validFilesystemPath (fp_path p) = true ∧ valid_access p.

Lemma valid_grant_single p : valid_grant p ↔ ValidateFilesystemPermissions [p] = Ok tt.
Proof.
  rewrite validate_permissions_ok. unfold valid_grant. split.
  - intros Hp. split; [apply NoDup_singleton|]. by intros q ->%list_elem_of_singleton.
  - intros [_ H]. by apply H, list_elem_of_singleton.
Qed.

Lemma resolve_same_path h p q r :
  fp_path p = fp_path q → valid_grant p →
  ResolveFilesystemPermission h q = Ok r → ResolveFilesystemPermission h p = Ok r.
Proof.
  intros E Hp%valid_grant_single. unfold ResolveFilesystemPermission.
  rewrite Hp, E, bind_unit_ok. by intros [_ ?].
Qed.

(** A directory that a clean absolute path lies below by its text is clean. *)
Lemma clean_below d t p :
  is_abs p = true → clean p = p → p = d +:+ "/" +:+ t → d ≠ "" →
  is_abs d = true ∧ clean d = d ∧ d ≠ "/" ∧ path_parts d `prefix_of` path_parts p.
Proof.
  intros Ha Hc Hp Hd.
  assert (is_abs d = true) as Had.
  { destruct d as [|c d]; [done|]. rewrite Hp in Ha. cbn [String.append] in Ha. by rewrite !is_abs_cons in *. }
  assert (split_byte slash p = split_byte slash d ++ split_byte slash t) as Hs
    by (rewrite Hp; apply split_byte_app_sep).
  pose proof Had as (d' & Hd')%has_prefix_iff.
  assert (path_parts p ≠ []) as Hne.
  { intros E. rewrite clean_abs_eq, E in Hc by done. cbn in Hc.
    apply (f_equal slen) in Hp. rewrite <-Hc, !slen_app in Hp. cbn in Hp.
    destruct d; [done|cbn in Hp; lia]. }
  assert (split_byte slash p = "" :: path_parts p) as Hsp.
  { rewrite <-Hc at 1. by rewrite clean_abs_eq, split_abs, split_join_parts. }
  rewrite Hsp, Hd', split_abs in Hs. cbn in Hs. injection Hs as Hs.
  assert (path_parts d = split_byte slash d') as Hparts.
  { unfold path_parts, clean_stack. rewrite Had, Hd', split_abs. cbn [foldl].
    change (clean_step true [] "") with ([] : list string).
    rewrite clean_foldl_push, app_nil_r, reverse_involutive; [done|].
    intros x Hx. assert (x ∈ path_parts p) as Hin by (rewrite Hs; set_solver).
    split; [by apply path_parts_elem in Hin as [? _]|].
    by apply abs_parts_no_dotdot in Hin as [??]. }
  split_and!; [done| | |].
  - rewrite clean_abs_eq, Hparts by done. rewrite Hd'. f_equal. apply join_split.
  - intros ->. injection Hd' as <-. vm_compute in Hparts. done.
  - rewrite Hparts, Hs. by apply prefix_app_r.
Qed.

Lemma abs_valid_shape path :
  is_abs path = true → homeFilesystemSubpath path = None ∧ assoc path xdgDirectoryKeys = None ∧
    path ≠ "host" ∧ path ≠ "home".
Proof.
  intros Ha. destruct path as [|c path]; [done|]. rewrite is_abs_cons in Ha. bools_in Ha. subst c.
  split_and!; [|done..]. unfold homeFilesystemSubpath. by rewrite bool_decide_eq_false_2.
Qed.

(** What a valid absolute grant resolves to. *)
Lemma resolve_abs h g :
  valid_grant g → is_abs (fp_path g) = true →
  ResolveFilesystemPermission h g = Ok (fp_path g, fp_path g) ∧
  clean (fp_path g) = fp_path g ∧ fp_path g ≠ "/".
Proof.
  intros Hv Ha. pose proof (abs_valid_shape _ Ha) as (Hs & Hx & Hh & _).
  pose proof Hv as Hr%valid_grant_single. destruct Hv as [Hp _].
  unfold ResolveFilesystemPermission. rewrite Hr. cbn [mbind result_bind].
  rewrite bool_decide_eq_false_2, Hs, Hx by done. split; [done|].
  unfold validFilesystemPath in Hp. rewrite bool_decide_eq_false_2, Hs, Hx in Hp by done. bools_in Hp. naive_solver.
Qed.

Lemma resolve_home h g source target :
  fp_path g = "home" → ResolveFilesystemPermission h g = Ok (source, target) →
  ∃ home, h_home h = Some home ∧ usable_home home = true ∧ source = home ∧ target = home.
Proof.
  intros E. unfold ResolveFilesystemPermission. rewrite bind_unit_ok, E. intros [_ H]. cbn in H.
  destruct (h_home h) as [home|]; [|done]. apply bind_unit_ok in H as [Hu%check_that_ok [= <- <-]]. eauto.
Qed.

Lemma resolve_home_usable h g home :
  valid_grant g → fp_path g = "home" → h_home h = Some home → usable_home home = true →
  ResolveFilesystemPermission h g = Ok (home, home).
Proof.
  intros Hv%valid_grant_single E Hh Hu. unfold ResolveFilesystemPermission.
  rewrite Hv, E. cbn. rewrite Hh. cbn. by rewrite Hu.
Qed.

Lemma resolve_needs_home h p source target :
  ResolveFilesystemPermission h p = Ok (source, target) → fp_path p ≠ "host" →
  is_abs (fp_path p) = false → ∃ home, h_home h = Some home ∧ usable_home home = true.
Proof.
  unfold ResolveFilesystemPermission. rewrite bind_unit_ok. intros [Hv%valid_grant_single H] Hh Ha.
  rewrite bool_decide_eq_false_2 in H by done.
  destruct (homeFilesystemSubpath _) eqn:Hs.
  - destruct (h_home h) as [home|]; [|done]. apply bind_unit_ok in H as [Hu%check_that_ok _]. eauto.
  - destruct (assoc _ _) eqn:Hx.
    + apply bind_ok in H as (q & H & _). unfold resolveXDGUserDirectory in H.
      destruct (h_home h) as [home|]; [|done]. apply bind_unit_ok in H as [Hu%check_that_ok _]. eauto.
    + destruct Hv as [Hp _]. unfold validFilesystemPath in Hp.
      rewrite bool_decide_eq_false_2, Hs, Hx, Ha in Hp by done. bools_in Hp. naive_solver.
Qed.

(** The test on the text of a clean absolute path. *)
Definition text_within (d p : string) : bool := bool_decide (d = p) || has_prefix (d +:+ "/") p.

Lemma text_within_abs d p :
  is_abs p = true → clean p = p → p ≠ "/" → d ≠ "" → text_within d p = true →
  is_abs d = true ∧ clean d = d ∧ d ≠ "/" ∧ path_parts d `prefix_of` path_parts p.
Proof.
  intros Ha Hc Hr Hd [->%bool_decide_eq_true|(t & Ht)%has_prefix_iff]%orb_true_iff; [done|].
  rewrite app_assoc_str in Ht. by eapply clean_below.
Qed.

Lemma text_within_head c d p :
  d ≠ "" → text_within d (String c p) = true → ∃ d', d = String c d'.
Proof.
  intros Hd [->%bool_decide_eq_true|(t & Ht)%has_prefix_iff]%orb_true_iff; [eauto|].
  destruct d as [|c' d]; [done|]. injection Ht as ->. eauto.
Qed.

(** A valid grant, by the spelling of its path. *)
Lemma valid_grant_cases g :
  valid_grant g →
  fp_path g = "host" ∨ is_abs (fp_path g) = true ∨ (∃ t, fp_path g = String "x" t) ∨
  (∃ rel, homeFilesystemSubpath (fp_path g) = Some rel).
Proof.
  intros [Hp _]. unfold validFilesystemPath in Hp. case_bool_decide as Hh; [by left|].
  destruct (homeFilesystemSubpath (fp_path g)) as [rel|] eqn:Hs; [eauto 6|].
  destruct (assoc _ _) as [k|] eqn:Hx; [|bools_in Hp; naive_solver].
  right; right; left. unfold assoc in Hx. destruct (List.find _ _) as [[key v]|] eqn:Hf; [|done].
  apply find_elem in Hf as [Hin E]. cbn in E. apply bool_decide_eq_true in E. subst key. clear -Hin.
  repeat (apply elem_of_cons in Hin as [E|Hin]; [injection E as E _; rewrite E; eauto|]).
  by apply elem_of_nil in Hin.
Qed.

Lemma home_subpath_elems rel x t :
  rel = x +:+ "/" +:+ t → clean rel = rel → is_abs rel = false → rel ≠ "." →
  clean x = x → is_abs x = false → x ≠ "." → path_parts x `prefix_of` path_parts rel.
Proof.
  intros E ??????. rewrite <-(clean_rel_split rel), <-(clean_rel_split x) by done.
  rewrite E. change ("/" +:+ t) with (String slash t). rewrite split_byte_app_sep. by apply prefix_app_r.
Qed.

(** Two grants below the home directory. *)
Lemma home_subpath_within h g w source target :
  valid_grant g → fp_path g ≠ "home" → fp_path w ≠ "home" → fp_path w ≠ "host" →
  text_within (fp_path g) (fp_path w) = true → is_abs (fp_path w) = false →
  ResolveFilesystemPermission h w = Ok (source, target) →
  ∃ source' target', ResolveFilesystemPermission h g = Ok (source', target') ∧
    path_parts source' `prefix_of` path_parts source.
Proof.
  intros Hv Hg Hw Hwh Hin Ha Hr.
  apply orb_true_iff in Hin as [E%bool_decide_eq_true|(t & Ht)%has_prefix_iff].
  { exists source, target. split; [by eapply resolve_same_path|done]. }
  rewrite app_assoc_str in Ht. destruct (resolve_needs_home _ _ _ _ Hr) as (home & Hh & Hu); [done..|].
  pose proof (proj1 (usable_home_iff _) Hu) as (_ & Hha & Hhc & _).
  (* the path of [w] names a subpath of home, not an XDG directory *)
  unfold ResolveFilesystemPermission in Hr. apply bind_unit_ok in Hr as [Hvw%valid_grant_single Hr].
  rewrite bool_decide_eq_false_2 in Hr by done.
  destruct (homeFilesystemSubpath (fp_path w)) as [rel|] eqn:Hs.
  - rewrite Hh in Hr. apply bind_unit_ok in Hr as [_ Hr].
    destruct (home_subpath_cases _ _ Hs) as [[? _]|(Hrel & Hc & Har & H1 & H2 & H3 & H4)]; [done|].
    rewrite bool_decide_eq_false_2 in Hr by done. injection Hr as <- <-.
    destruct (join_below home rel) as (_ & _ & Hparts); [done..|]. rewrite Hparts.
    destruct (valid_grant_cases g Hv) as [E|[E|[[u E]|[x Hx]]]].
    1: by rewrite E, Hrel in Ht.
    1: { exfalso. apply has_prefix_iff in E as [u E]. by rewrite E, Hrel in Ht. }
    1: by rewrite E, Hrel in Ht.
    destruct (home_subpath_cases _ _ Hx) as [[? _]|(Hgx & Hcx & Hax & G1 & G2 & G3 & G4)]; [done|].
    assert (rel = x +:+ "/" +:+ t) as Hrx.
    { rewrite Hrel, Hgx, !app_assoc_str in Ht. by apply app_inv_head_str in Ht. }
    exists (path_join [home; x]), (path_join [home; x]). split.
    + unfold ResolveFilesystemPermission. rewrite (proj1 (valid_grant_single g) Hv).
      cbn [mbind result_bind]. rewrite Hx, Hh, Hu, !bool_decide_eq_false_2; [done..|].
      by rewrite Hgx.
    + destruct (join_below home x) as (_ & _ & ->); [done..|].
      destruct (home_subpath_elems rel x t) as [l ->]; [done..|]. rewrite (assoc_L (++)). by apply prefix_app_r.
  - destruct (assoc (fp_path w) xdgDirectoryKeys) as [k|] eqn:Hx.
    + exfalso. unfold assoc in Hx. destruct (List.find _ _) as [[key v]|] eqn:Hf; [|done].
      apply find_elem in Hf as [Hin E]. cbn in E. apply bool_decide_eq_true in E. subst key.
      assert (has_byte slash (fp_path w) = true) as Hb.
      { rewrite Ht, !has_byte_app. cbn. by rewrite orb_true_r. }
      clear -Hin Hb. repeat (apply elem_of_cons in Hin as [E|Hin]; [injection E as E _; rewrite E in Hb; done|]).
      by apply elem_of_nil in Hin.
    + exfalso. destruct Hvw as [Hp _]. unfold validFilesystemPath in Hp.
      rewrite bool_decide_eq_false_2, Hs, Hx, Ha in Hp by done. bools_in Hp. naive_solver.
Qed.

(** The containment the code decides is containment on the host. *)
Lemma contains_within h g w source target :
  h_home h ≠ Some "" → valid_grant g → filesystemContains h (fp_path g) (fp_path w) = true →
  ResolveFilesystemPermission h w = Ok (source, target) →
  ∃ source' target', ResolveFilesystemPermission h g = Ok (source', target') ∧
    path_parts source' `prefix_of` path_parts source.
Proof.
  intros Hne Hv Hc Hr. unfold filesystemContains in Hc.
  case_bool_decide as Hgh.
  { exists "/", "/run/host". split; [|by apply prefix_nil].
    unfold ResolveFilesystemPermission. by rewrite (proj1 (valid_grant_single g) Hv), Hgh. }
  case_bool_decide as Hwh; [done|].
  assert (valid_grant w) as Hvw.
  { unfold ResolveFilesystemPermission in Hr. by apply bind_unit_ok in Hr as [?%valid_grant_single _]. }
  destruct (decide (fp_path g = "home")) as [Hg|Hg], (decide (fp_path w = "home")) as [Hw|Hw].
  - exists source, target. split; [|done]. eapply resolve_same_path; [by rewrite Hg, Hw|done..].
  - rewrite (bool_decide_eq_true_2 _ Hg), (bool_decide_eq_false_2 _ Hw) in Hc. cbn in Hc.
    destruct (h_home h) as [home|] eqn:Hh; [|done].
    assert (home ≠ "") by naive_solver. change (text_within home (fp_path w) = true) in Hc.
    assert (is_abs (fp_path w) = true) as Ha.
    { apply not_false_iff_true. intros Ha.
      destruct (resolve_needs_home _ _ _ _ Hr) as (home' & E & Hu); [done..|].
      rewrite Hh in E. injection E as <-. apply usable_home_iff in Hu as (_ & Hu & _).
      destruct home as [|c home]; [done|]. rewrite is_abs_cons in Hu. bools_in Hu. subst c.
      destruct (fp_path w) as [|c p]; [by destruct Hvw|].
      apply text_within_head in Hc as (? & [= <- _]); [|done]. by rewrite is_abs_cons, bool_decide_eq_true_2 in Ha. }
    destruct (resolve_abs h w Hvw Ha) as (E & Hcl & Hr0). rewrite E in Hr. injection Hr as <- <-.
    apply text_within_abs in Hc as (Hha & Hhc & Hhr & Hpre); [|done..].
    exists home, home. split; [|done]. apply resolve_home_usable; [done..|]. by apply usable_home_iff.
  - rewrite (bool_decide_eq_false_2 _ Hg), (bool_decide_eq_true_2 _ Hw) in Hc. cbn in Hc.
    apply resolve_home in Hr as (home & Hh & Hu & -> & ->); [|done]. rewrite Hh in Hc.
    apply usable_home_iff in Hu as (? & Ha & Hcl & Hr0).
    change (text_within (fp_path g) home = true) in Hc.
    apply text_within_abs in Hc as (Hga & _ & _ & Hpre); [|done..|by intros E; destruct Hv as [Hv _]; rewrite E in Hv].
    destruct (resolve_abs h g Hv Hga) as [E _]. eauto.
  - rewrite (bool_decide_eq_false_2 _ Hg), (bool_decide_eq_false_2 _ Hw) in Hc. cbn in Hc.
    change (text_within (fp_path g) (fp_path w) = true) in Hc.
    destruct (is_abs (fp_path w)) eqn:Ha; [|by eapply home_subpath_within].
    destruct (resolve_abs h w Hvw Ha) as (E & Hcl & Hr0). rewrite E in Hr. injection Hr as <- <-.
    apply text_within_abs in Hc as (Hga & _ & _ & Hpre); [|done..|by intros E'; destruct Hv as [Hv _]; rewrite E' in Hv].
    destruct (resolve_abs h g Hv Hga) as [E' _]. eauto.
Qed.

(** ** The access that is left *)
Lemma granted_access_spec h parent requested :
  let access := granted_access h parent requested in
  let contains g := filesystemContains h (fp_path g) (fp_path requested) = true in
  (access = "" ∨ access = "read-only" ∨ access = fp_access requested) ∧
  (fp_access requested ≠ "" → (access ≠ "" ↔ ∃ g, g ∈ parent ∧ contains g)) ∧
  (fp_access requested = "read-only" → access = "" ∨ access = "read-only") ∧
  (∀ g, g ∈ parent → contains g → fp_access g = "read-only" → access = "read-only").
Proof.
  cbv zeta. unfold granted_access. induction parent as [|g parent IH] using rev_ind.
  { cbn. split_and!; [by left| |by left|by intros ? ?%elem_of_nil].
    intros _. split; [done|]. by intros (? & ?%elem_of_nil & _). }
  rewrite foldl_snoc. set (access := foldl _ _ _) in *. destruct IH as (I1 & I2 & I3 & I4). clearbody access.
  unfold narrow_access. destruct (filesystemContains h (fp_path g) (fp_path requested)) eqn:Hc; cbn [negb].
  - setoid_rewrite elem_of_app. setoid_rewrite list_elem_of_singleton.
    destruct (bool_decide (fp_access g = _) || bool_decide (fp_access requested = _)) eqn:Hro; bools_in Hro.
    { rewrite orb_true_r. split_and!; [auto|intros _; split; [by eauto|done]|auto|auto]. }
    case_if; bools_all.
    + assert (access = "") as -> by tauto.
      split_and!; [auto|intros ?; split; [by eauto|done]|auto|].
      intros g0 [?| ->] ? ?; [|tauto]. by assert ("" = "read-only") by eauto.
    + split_and!; [done|intros ?; split; [by eauto|tauto]|done|].
      intros g0 [?| ->] ? ?; [by eauto|tauto].
  - split_and!; [done| |done|].
    + intros ?. rewrite I2 by done. setoid_rewrite elem_of_app. setoid_rewrite list_elem_of_singleton.
      split; intros (g' & Hin & Hg'); exists g'; [by split; [left|]|].
      destruct Hin as [?| ->]; [done|congruence].
    + intros g' [?| ->%list_elem_of_singleton]%elem_of_app; [eauto|congruence].
Qed.

Lemma granted_paths_lookup h parent child path access :
  granted_paths h parent child !! path = Some access →
  ∃ requested, requested ∈ child ∧ fp_path requested = path ∧
    access = granted_access h parent requested ∧ access ≠ "".
Proof.
  unfold granted_paths. induction child as [|r child IH] using rev_ind; [done|].
  rewrite foldl_snoc. set (m := foldl _ _ _) in *. clearbody m.
  assert (m !! path = Some access → ∃ requested, requested ∈ child ++ [r] ∧ fp_path requested = path ∧
    access = granted_access h parent requested ∧ access ≠ "") as IH'.
  { intros (q & ? & ?)%IH. exists q. rewrite elem_of_app. auto. }
  case_if; bools_all; [|done]. rewrite lookup_insert. case_decide as E; [|done].
  intros [= <-]. exists r. rewrite elem_of_app, list_elem_of_singleton. auto.
Qed.

Lemma granted_paths_dom h parent child path :
  is_Some (granted_paths h parent child !! path) ↔
  ∃ requested, requested ∈ child ∧ fp_path requested = path ∧ granted_access h parent requested ≠ "".
Proof.
  split; [intros [a (q & ? & ? & -> & ?)%granted_paths_lookup]; eauto|].
  unfold granted_paths. induction child as [|r child IH] using rev_ind; [by intros (? & ?%elem_of_nil & _)|].
  rewrite foldl_snoc. set (m := foldl _ _ _) in *. clearbody m.
  intros (q & [Hq| ->%list_elem_of_singleton]%elem_of_app & <- & Ha).
  - assert (is_Some (m !! fp_path q)) by eauto. case_if; [|done].
    destruct (decide (fp_path r = fp_path q)) as [->|?]; [by rewrite lookup_insert_eq|by rewrite lookup_insert_ne].
  - rewrite bool_decide_eq_false_2 by done. cbn. by rewrite lookup_insert_eq.
Qed.

(** What the intersection of two lists of grants holds. *)
Lemma intersect_filesystem_elem h parent child w :
  w ∈ intersectFilesystem h parent child →
  ∃ requested, requested ∈ child ∧ fp_path requested = fp_path w ∧
    fp_access w = granted_access h parent requested ∧ fp_access w ≠ "".
Proof.
  unfold intersectFilesystem. intros (path & -> & Hp)%list_elem_of_fmap.
  apply sort_strings_elem, list_elem_of_fmap in Hp as ([path' a] & -> & Hm).
  apply elem_of_map_to_list in Hm. cbn. rewrite Hm. by apply granted_paths_lookup.
Qed.

Lemma intersect_filesystem_path h parent child path :
  path ∈ fp_path <$> intersectFilesystem h parent child ↔
  ∃ requested, requested ∈ child ∧ fp_path requested = path ∧ granted_access h parent requested ≠ "".
Proof.
  rewrite <-granted_paths_dom. unfold intersectFilesystem. rewrite <-list_fmap_compose.
  rewrite list_elem_of_fmap. cbn. setoid_rewrite sort_strings_elem. setoid_rewrite list_elem_of_fmap.
  split.
  - intros (? & -> & [p a] & -> & Hm%elem_of_map_to_list). cbn. by rewrite Hm.
  - intros [a Ha]. exists path. split; [done|]. exists (path, a). by rewrite elem_of_map_to_list.
Qed.

Lemma intersect_filesystem_nodup h parent child : NoDup (fp_path <$> intersectFilesystem h parent child).
Proof.
  unfold intersectFilesystem. rewrite <-list_fmap_compose. cbn.
  rewrite list_fmap_id, sort_strings_perm. apply NoDup_fst_map_to_list.
Qed.

(** ** One policy within another *)
Definition all_switches : list (Override → bool) := switches ++ [FsHost; FsHostEtc; FsHostHome].

(** Nothing [inner] permits is more than [outer] permits. *)
Record confined (h : host) (outer inner : Override) : Prop := {
  c_switches : ∀ get : Override → bool, get ∈ all_switches → get inner = true → get outer = true;
  c_limits : ∀ get : Override → Z, get ∈ limits → limit_widens (get inner) (get outer) = false;
  c_commands : AllowedHostCommands inner ⊆ AllowedHostCommands outer;
  c_actions : ∀ p c, holds (HostActions inner) p c → holds (HostActions outer) p c;
  c_bus : narrower (SessionBus outer) (SessionBus inner);
  c_filesystem : ∀ w, w ∈ Filesystem inner → ∃ g, g ∈ Filesystem outer ∧ grant_within h g w;
  c_extra : FsExtra inner ⊆ FsExtra outer;
  c_env : Env inner ⊆ Env outer
}.

#[export] Instance confined_preorder h : PreOrder (confined h).
Proof.
  split.
  - intros o. split; try done; [intros; apply limit_widens_refl|]. intros w ?. by exists w.
  - intros a b c [] []. split; eauto using limit_widens_trans; try (by etrans).
    intros w (g & Hg & ?)%c_filesystem1. destruct (c_filesystem0 g Hg) as (g' & ? & ?).
    exists g'. split; [done|]. by etrans.
Qed.

Lemma minimum_limit_parent parent child : limit_widens (minimumLimit parent child) parent = false.
Proof. unfold minimumLimit, limit_widens. repeat case_if; bools_all; try done; lia. Qed.
Lemma minimum_limit_child parent child : limit_widens (minimumLimit parent child) child = false.
Proof. unfold minimumLimit, limit_widens. repeat case_if; bools_all; try done; lia. Qed.

Lemma intersect_strings_elem parent child v : v ∈ intersectStrings parent child ↔ v ∈ parent ∧ v ∈ child.
Proof. unfold intersectStrings. by rewrite list_elem_of_filter, elem_of_list_to_set. Qed.

Lemma intersect_actions parent child p c :
  holds (IntersectHostActions parent child) p c → holds parent p c ∧ holds child p c.
Proof.
  intros (g & (r & Hr & Hp & _ & Hc)%intersect_elem & <- & Hin). rewrite Hc in Hin.
  apply sort_strings_elem, list_elem_of_filter in Hin as [Hh%capabilities_held Hin].
  rewrite Hp. split; [done|]. by exists r.
Qed.

Lemma intersect_bus left right :
  narrower left (IntersectDBusPolicies left right) ∧ narrower right (IntersectDBusPolicies left right).
Proof.
  unfold narrower. setoid_rewrite intersect_own. setoid_rewrite intersect_call.
  setoid_rewrite andb_true_iff. naive_solver.
Qed.

Lemma both_cases (get : Override → bool) h parent child :
  get ∈ all_switches → get (intersectOverrides h parent child) = get parent && get child.
Proof. intros Hg. by repeat (apply elem_of_cons in Hg as [->|Hg]; [done|]); apply elem_of_nil in Hg. Qed.

Lemma least_cases (get : Override → Z) h parent child :
  get ∈ limits → get (intersectOverrides h parent child) = minimumLimit (get parent) (get child).
Proof. intros Hg. by repeat (apply elem_of_cons in Hg as [->|Hg]; [done|]); apply elem_of_nil in Hg. Qed.

Lemma valid_grants_elem o p : valid_grants o → p ∈ Filesystem o → valid_grant p.
Proof. unfold valid_grants. rewrite validate_permissions_ok. intros [_ H] Hp. by apply H. Qed.

Lemma intersect_filesystem_within h parent child w :
  h_home h ≠ Some "" → valid_grants parent → valid_grants child →
  w ∈ intersectFilesystem h (Filesystem parent) (Filesystem child) →
  valid_grant w ∧
  (∃ g, g ∈ Filesystem parent ∧ grant_within h g w) ∧
  (∃ g, g ∈ Filesystem child ∧ grant_within h g w).
Proof.
  intros Hne Hp Hc (r & Hr & Hpath & Ha & Hsome)%intersect_filesystem_elem.
  pose proof (valid_grants_elem _ _ Hc Hr) as [Hvr [Hacc Hhost]].
  destruct (granted_access_spec h (Filesystem parent) r) as (G1 & G2 & G3 & G4). rewrite <-Ha in *.
  destruct G2 as [G2 _]; [by destruct Hacc as [-> | ->]|].
  destruct (G2 Hsome) as (g & Hg & Hcont). clear G2.
  assert (valid_grant w) as Hvw.
  { split; [by rewrite <-Hpath|]. split; [destruct G1 as [|[->| ->]]; [done|by left|done]|].
    intros E. destruct G3 as [?| ->]; [|done..]. apply Hhost. by rewrite Hpath. }
  split; [done|]. split; [exists g|exists r]; (split; [done|]); split.
  - apply accessCovers_iff. pose proof (valid_grants_elem _ _ Hp Hg) as [_ [[E|E] _]]; rewrite E.
    + left. symmetry. by eapply G4.
    + destruct Hvw as [_ [[->| ->] _]]; auto.
  - intros s t Hs. rewrite Hpath in Hcont. eapply contains_within; [done| |done..].
    by apply (valid_grants_elem parent).
  - apply accessCovers_iff. destruct G1 as [|[->| ->]]; [done| |by left].
    destruct Hacc as [->| ->]; auto.
  - intros s t Hs. exists s, t. split; [|done]. eapply resolve_same_path; [done| |done]. by split.
Qed.

Lemma intersect_valid h parent child :
  h_home h ≠ Some "" → valid_grants parent → valid_grants child →
  valid_grants (intersectOverrides h parent child).
Proof.
  intros Hne Hp Hc. apply validate_permissions_ok. split; [apply intersect_filesystem_nodup|].
  intros p Hw. by apply intersect_filesystem_within in Hw as [Hv _].
Qed.

Lemma intersect_confined h parent child :
  h_home h ≠ Some "" → valid_grants parent → valid_grants child →
  confined h parent (intersectOverrides h parent child) ∧
  confined h child (intersectOverrides h parent child).
Proof.
  intros Hne Hp Hc. split; split.
  1, 9: by intros get Hg; rewrite both_cases, andb_true_iff by done; intros [].
  1, 8: intros get Hg; rewrite least_cases by done; auto using minimum_limit_parent, minimum_limit_child.
  1, 7: by intros v ?%elem_of_nil.
  1, 6: by intros p c []%intersect_actions.
  1, 5: by apply intersect_bus.
  1, 4: by intros w (_ & ? & ?)%intersect_filesystem_within.
  all: by intros v []%intersect_strings_elem.
Qed.

(** ** Holding a policy to a ceiling *)
Definition field_same (k : field_kind) (a b : Override) : Prop :=
  match k with
  | KBool get => get a = get b
  | KInt get => get a = get b
  | KStrings get => get a = get b
  | KActions get => get a = get b
  | KPermissions get => get a = get b
  | KFilePicker get => get a = get b
  | KSessionBus get => get a = get b
  end.

(** Every field of the table is the one of the policy its key chooses. *)
Lemma held_field requested restricted named f :
  f ∈ fields →
  field_same (f_kind f) (heldToNamed requested restricted (Some named))
    (if bool_decide (f_key f ∈ withAliases named) then restricted else requested).
Proof.
  intros Hf. unfold heldToNamed. set (reached := withAliases named). clearbody reached.
  repeat (apply elem_of_cons in Hf as [->|Hf]; [cbn; by case_bool_decide|]). by apply elem_of_nil in Hf.
Qed.

(** Any test of one field passes on the chosen policy when it does on both. *)
Lemma held_choice {A} (P : A → Prop) (b : bool) (x y : A) : P x → P y → P (if b then x else y).
Proof. by destruct b. Qed.

Lemma held_switch requested restricted named (get : Override → bool) :
  get ∈ all_switches → (get restricted = true → get requested = true) →
  get (heldToNamed requested restricted named) = true → get requested = true.
Proof.
  destruct named as [named|]; [|done]. unfold heldToNamed. set (reached := withAliases named). clearbody reached.
  intros Hg. repeat (apply elem_of_cons in Hg as [->|Hg];
    [cbn; by case_bool_decide|]). by apply elem_of_nil in Hg.
Qed.

Lemma held_confined h requested restricted named :
  confined h requested restricted → confined h requested (heldToNamed requested restricted named).
Proof.
  intros Hc. destruct named as [named|]; [|done].
  assert (confined h requested requested) as [] by done. destruct Hc. split.
  - intros get Hg. apply held_switch; auto.
  - intros get Hg. repeat (apply elem_of_cons in Hg as [->|Hg];
      [cbn; apply (held_choice (λ x, limit_widens x _ = false)); [apply c_limits1|apply c_limits0]; set_solver|]).
    by apply elem_of_nil in Hg.
  - cbn. by apply (held_choice (λ l, l ⊆ _)).
  - cbn. by apply (held_choice (λ l, ∀ p c, holds l p c → _)).
  - cbn. by apply (held_choice (narrower _)).
  - cbn. by apply (held_choice (λ l, ∀ w, w ∈ l → _)).
  - cbn. by apply (held_choice (λ l, l ⊆ _)).
  - cbn. by apply (held_choice (λ l, l ⊆ _)).
Qed.

Lemma alias_family_mono named reached family : reached ⊆ alias_family named reached family.
Proof. unfold alias_family. case_if; set_solver. Qed.

Lemma alias_families_mono named l reached : reached ⊆ foldl (alias_family named) reached l.
Proof.
  revert reached. induction l as [|x l IH]; intros reached; cbn; [done|].
  etrans; [apply alias_family_mono|apply IH].
Qed.

Lemma aliases_named named : named ⊆ withAliases named.
Proof. apply alias_families_mono. Qed.

Lemma aliases_family named family trigger key :
  family ∈ permissionAliases → trigger ∈ family.1 → trigger ∈ named → key ∈ family.2 →
  key ∈ withAliases named.
Proof.
  intros Hf Ht Hn Hk. unfold withAliases. generalize named at 2. revert Hf.
  induction permissionAliases as [|x l IH]; [by intros ?%elem_of_nil|].
  intros [<-|Hin]%elem_of_cons reached; cbn; [|by apply IH].
  apply alias_families_mono. unfold alias_family.
  assert (existsb (λ trigger, bool_decide (trigger ∈ named)) family.1 = true) as ->
    by (apply existsb_elem; exists trigger; by rewrite bool_decide_eq_true).
  by apply elem_of_union_r, elem_of_list_to_set.
Qed.

Lemma under_ceiling_valid h c requested :
  h_home h ≠ Some "" → valid_grants (cl_Policy c) → valid_grants requested →
  valid_grants (under_ceiling h c requested).
Proof.
  intros Hne Hc Hr. unfold under_ceiling. case_if; [done|].
  pose proof (intersect_valid h _ _ Hne Hc Hr). unfold heldToNamed.
  destruct (cl_Named c) as [named|]; [|done]. unfold valid_grants. cbn. by case_bool_decide.
Qed.

Lemma under_ceiling_confined h c requested :
  h_home h ≠ Some "" → valid_grants (cl_Policy c) → valid_grants requested →
  confined h requested (under_ceiling h c requested).
Proof.
  intros Hne Hc Hr. unfold under_ceiling. case_if; [done|]. apply held_confined.
  by apply intersect_confined.
Qed.

(** The keys of the devices, which the blanket key would open again. *)
Definition device_keys : list string :=
  ["deviceDri"; "deviceKvm"; "deviceShm"; "deviceAlsa"; "deviceVideo"; "deviceFuse"; "deviceTun";
   "deviceUsb"; "deviceSerial"; "deviceInput"; "deviceTTY"].

(** ** Properties *)

(** C27: the intersection of two policies permits nothing either of them does not:
    no switch, limit, host command, host action, bus call, environment variable or
    path, where a path is compared by what it resolves to on the host and its
    access.  A switch is on exactly when both have it, and a filesystem grant of
    the child survives exactly when some grant of the parent contains it. *)
Theorem intersection_confined h parent child :
  h_home h ≠ Some "" → valid_grants parent → valid_grants child →
  let effective := intersectOverrides h parent child in
  confined h parent effective ∧ confined h child effective ∧ valid_grants effective ∧
  (∀ get, get ∈ all_switches → get effective = get parent && get child) ∧
  ∀ path, path ∈ fp_path <$> Filesystem effective ↔
    path ∈ fp_path <$> Filesystem child ∧
    ∃ g, g ∈ Filesystem parent ∧ filesystemContains h (fp_path g) path = true.
Proof.
  intros Hne Hp Hc. destruct (intersect_confined h parent child) as [H1 H2]; [done..|].
  split_and!; [done|done|by apply intersect_valid|intros; by apply both_cases|].
  intros path. cbn. rewrite intersect_filesystem_path, list_elem_of_fmap. split.
  - intros (r & Hr & <- & Ha). split; [eauto|].
    apply (granted_access_spec h (Filesystem parent) r); [|done].
    by destruct (valid_grants_elem _ _ Hc Hr) as [_ [[-> | ->] _]].
  - intros [(r & -> & Hr) Hg]. exists r. split_and!; [done..|].
    apply (granted_access_spec h (Filesystem parent) r); [|done].
    by destruct (valid_grants_elem _ _ Hc Hr) as [_ [[-> | ->] _]].
Qed.

(** What a ceiling does to a policy.  Nothing is widened.  A ceiling assembled
    in code bounds every permission; one read from a file bounds exactly the
    permissions it names and their aliases, and leaves every other field as it was
    asked for.  What is closed under one name stays closed under the others:
    naming any device holds the blanket permission over all of them, naming the
    filesystem holds its legacy spellings and what is mounted, and either name of
    the system bus holds both. *)
Theorem ceiling_holds h c requested :
  h_home h ≠ Some "" → valid_grants (cl_Policy c) → valid_grants requested → cl_Present c = true →
  let effective := under_ceiling h c requested in
  let ceiling := cl_Policy c in
  confined h requested effective ∧
  (cl_Named c = None → confined h ceiling effective) ∧
  ∀ named, cl_Named c = Some named →
    (∀ f, f ∈ fields → field_same (f_kind f) effective
      (if bool_decide (f_key f ∈ withAliases named) then intersectOverrides h ceiling requested else requested)) ∧
    (∀ key, key ∈ device_keys → key ∈ named → DeviceAll effective = true → DeviceAll ceiling = true) ∧
    ("filesystem" ∈ named →
      (∀ get, get ∈ [FsHost; FsHostEtc; FsHostHome] → get effective = true → get ceiling = true) ∧
      FsExtra effective ⊆ FsExtra ceiling ∧
      ∀ w, w ∈ Filesystem effective → ∃ g, g ∈ Filesystem ceiling ∧ grant_within h g w) ∧
    (∀ key, key ∈ ["socketSystemBus"; "socketBluetooth"] → key ∈ named →
      (SocketSystemBus effective = true → SocketSystemBus ceiling = true) ∧
      (SocketBluetooth effective = true → SocketBluetooth ceiling = true)).
Proof.
  intros Hne Hc Hr Hp effective ceiling.
  destruct (intersect_confined h ceiling requested) as [H1 H2]; [done..|].
  split; [by apply under_ceiling_confined|]. unfold effective, under_ceiling. rewrite Hp. cbn [negb].
  split; [by intros ->|]. intros named ->. split; [intros f; apply held_field|].
  assert (∀ family trigger key, family ∈ permissionAliases → trigger ∈ family.1 → trigger ∈ named →
    key ∈ family.2 → bool_decide (key ∈ withAliases named) = true) as Hreach.
  { intros. apply bool_decide_eq_true. by eapply aliases_family. }
  split_and!.
  - intros key Hk Hn. cbn. rewrite (Hreach (device_keys, ["deviceAll"]) key); [|set_solver..].
    by intros []%andb_true_iff.
  - intros Hn. pose proof (Hreach (["filesystem"], ["fsHost"; "fsHostEtc"; "fsHostHome"; "fsExtra"]) "filesystem") as Hf.
    split_and!.
    + intros get Hg. repeat (apply elem_of_cons in Hg as [->|Hg];
        [cbn; rewrite Hf by set_solver; by intros []%andb_true_iff|]). by apply elem_of_nil in Hg.
    + cbn. rewrite Hf by set_solver. by destruct H1.
    + cbn. rewrite bool_decide_eq_true_2 by by apply aliases_named. by destruct H1.
  - intros key Hk Hn. cbn.
    rewrite !(Hreach (["socketSystemBus"; "socketBluetooth"], ["socketSystemBus"; "socketBluetooth"]) key) by set_solver.
    by split; intros []%andb_true_iff.
Qed.

Definition with_grants (filesystem : list FilesystemPermission) : Override :=
  with_lists NewOverride [] no_policy filesystem false false false [] [].

Lemma intersection_confined_witness :
  let effective := intersectOverrides example_host
    (with_grants [mkPerm "home" "read-only"])
    (with_grants [mkPerm "/home/ada/Music" "read-write"; mkPerm "/srv" "read-only"]) in
  Filesystem effective = [mkPerm "/home/ada/Music" "read-only"] ∧
  confined example_host (with_grants [mkPerm "home" "read-only"]) effective.
Proof.
  split; [vm_compute; reflexivity|].
  refine (proj1 (intersection_confined example_host _ _ _ _ _)); vm_compute; first [reflexivity|discriminate].
Defined.

(** A ceiling that closes the cameras, for an application that asks for all of
    [/dev] and the network. *)
Definition greedy : Override := {|
  SocketX11 := false; DisplayX11 := false; SocketWayland := false; SocketPulseAudio := false;
  SocketSessionBus := false; SocketSystemBus := true; SocketSshAgent := false; SocketCups := false;
  SocketGpgAgent := false; SocketAtSpiBus := false; SocketBluetooth := true; Bluetooth := false;
  DeviceDri := true; DeviceKvm := false; DeviceShm := false; DeviceAlsa := false; DeviceVideo := true;
  DeviceFuse := false; DeviceTun := false; DeviceUsb := false; DeviceSerial := false; DeviceInput := false;
  DeviceTTY := false; DeviceAll := true; Notification := false; OpenURI := false; HostApplications := false;
  HostActions := []; FilePicker := mkPicker false false false false false; SessionBus := no_policy;
  Filesystem := []; FsHost := false; FsHostEtc := false; FsHostHome := true; FsExtra := []; Env := ["LANG"];
  Network := true; Process := false; UserNamespaces := false; MemoryMaxMB := 0; CPUQuota := 0; PidsMax := 0;
  AsRoot := false; AllowedHostCommands := [] |}.
Definition no_cameras : Ceiling := mkCeiling true NewOverride (Some {[ "deviceVideo"; "socketBluetooth" ]}).

Lemma ceiling_holds_witness :
  let effective := under_ceiling example_host no_cameras greedy in
  (DeviceAll effective = true → DeviceAll NewOverride = true) ∧
  (DeviceVideo effective, DeviceAll effective, DeviceDri effective) = (false, false, true) ∧
  (SocketSystemBus effective, Network effective, Env effective) = (false, true, ["LANG"]).
Proof.
  split; [|vm_compute; split; reflexivity].
  refine (proj1 (proj2 (proj2 (proj2 (ceiling_holds example_host no_cameras greedy _ _ _ _)) _ _)) "deviceVideo" _ _);
    first [reflexivity|vm_compute; discriminate|apply list_elem_of_In; cbn; tauto|set_solver].
Defined.

(** [Restricts] takes a path below the home directory to be covered by a grant of
    the home directory; the intersection drops it, and a ceiling with it. *)
Lemma home_subpath_dropped :
  let home := with_grants [mkPerm "home" "read-write"] in
  let music := with_grants [mkPerm "home/Music" "read-write"] in
  Restricts home music = true ∧ Filesystem (intersectOverrides example_host home music) = [].
Proof. vm_compute. split; reflexivity. Qed.
