(* ===== verification/NestedAuth.v ===== *)
(** * The policy of a launch ([pkg/cpak/nested_auth.go], [override.go])

    What the owner of an application decided about it, the ceiling of the host over
    that, and who else bounds a launch: the package that asks for a nested run, or
    the one that brought an installation here. *)
From Stdlib Require Import Ascii.
From stdpp Require Import base strings list numbers gmap.
From S2P Require Import Prelude.
From S2P Require Import GoStrings.
From S2P Require Import GoPath.
From S2P Require Import DBusPolicy.
From S2P Require Import HostActions.
From S2P Require Import Filesystem.
From S2P Require Import Override.
From S2P Require Import Applications.
From S2P Require Import Hex.
From S2P Require Import TrustedFiles.
From S2P Require Import Integrity.
From S2P Require Import RecordPaths.
From S2P Require Import Manifest.
From S2P Require Import Ceiling.
From S2P Require Import Intersection.
From stdpp Require Import options.

(** ** The file of the owner ([override.go]) *)
Definition overrideSizeLimit : nat := N.to_nat (N.shiftl 1 20).

Inductive override_error : Type :=
  | NoHome | InvalidOrigin (origin : string) | OverrideFile (e : file_error) | NotRegularFile
  | WritableByOthers | NotTheCallers | OverrideDecode | OverrideFilesystem (e : fs_error)
  | NoTypedProvider (command : string) | OverrideActions (e : host_action_error)
  | OverrideBus (e : dbus_error).

(** [getCpakLocalName]. *)
Definition getCpakLocalName (origin : string) : result override_error string :=
  match split_byte slash origin with
  | [a; b; c] => Ok (path_join [a; b; c])
  | _ => Err (InvalidOrigin origin)
  end.

Definition validateOverrideFile (path : string) : M override_error () :=
  info ← map_error OverrideFile (lstat path);
  match info with
  | File uid mode _ =>
      if negb (private_mode mode) then fail WritableByOthers
      else λ w, if negb (uid =? w_uid w)%N then (Err NotTheCallers, w) else (Ok (), w)
  | _ => fail NotRegularFile
  end.

(** The first JSON value of a file, over the defaults and with no field the policy
    does not have. *)
Class OverrideCodec : Type := decode_override : string → option Override.

Section Owner.
Context (h : host) {overrides : OverrideCodec} {ceilings : CeilingCodec}.

Definition override_path (origin version : string) : result override_error string :=
  match h_home h with
  | None => Err NoHome
  | Some home =>
      local ← getCpakLocalName origin;
      Ok (path_join [path_join [home; ".config/cpak/overrides"; local; version]; "cpak.json"])
  end.

Definition LoadOverride (origin version : string) : M override_error Override :=
  path ← lift (override_path origin version);
  validateOverrideFile path ;;;
  data ← map_error OverrideFile (read_file path);
  match decode_override (str_take overrideSizeLimit data) with
  | None => fail OverrideDecode
  | Some o =>
      lift (wrap OverrideFilesystem (ValidateFilesystemPermissions (Filesystem o))) ;;;
      o ← lift (wrap NoTypedProvider (migrateLegacyHostCommands o));
      lift (wrap OverrideActions (ValidateHostActions (HostActions o))) ;;;
      lift (wrap OverrideBus (ValidateDBusPolicy (SessionBus o))) ;;;
      mret o
  end.

(** ** What a launch is held to *)
Definition requestedOverride {E} (app : Application) : M E Override :=
  user ← try (LoadOverride (ap_Origin app) (ap_Version app));
  mret (match user with Err _ => ap_ParsedOverride app | Ok o => o end).

Definition resolvedOverride {E} (app : Application) : M E Override :=
  requested ← requestedOverride app;
  ceiling ← HostCeiling;
  mret (under_ceiling h ceiling requested).

Record launchPolicy : Type := mkLaunchPolicy { enrolled : Override; effective : Override }.
Definition asLaunched (o : Override) : launchPolicy := mkLaunchPolicy o o.
Definition narrowedTo (enrolled ceiling : Override) : launchPolicy :=
  mkLaunchPolicy enrolled (intersectOverrides h ceiling enrolled).

(** ** Who bounds a launch *)
Definition declaresDependency (parent app : Application) : bool :=
  existsb (λ d, bool_decide (de_Id d = ap_CpakId app) && bool_decide (de_Origin d = ap_Origin app))
    (ap_ParsedDependencies parent).
Definition boundsTheLaunchOf (parent app : Application) : bool :=
  declaresDependency parent app &&
  (bool_decide (ap_PulledInBy app = "") || bool_decide (ap_Origin parent = ap_PulledInBy app)).

Inductive nested_error : Type :=
  | StoreUnread | UnknownCaller | NotDeclared (origin : string) | AmbiguousDependency (origin : string)
  | DependencyMissing | DependencyMismatch | NotExported (binary : string).

(** What is asked of the store of installations: every application, the tokens of
    the containers of one, and one by its identifier. *)
Class ApplicationStore : Type := {
  GetApplications : result unit (list Application);
  GetApplicationContainers : Application → result unit (list string);
  GetApplicationByCpakId : string → result unit Application
}.
Context {store : ApplicationStore}.

(** The loop over the installed applications. *)
Fixpoint bound_by (app : Application) (installed : list Application) (policy : launchPolicy) :
    M nested_error launchPolicy :=
  match installed with
  | [] => mret policy
  | parent :: installed =>
      if bool_decide (ap_CpakId parent = ap_CpakId app) || negb (boundsTheLaunchOf parent app)
      then bound_by app installed policy
      else
        ceiling ← resolvedOverride parent;
        bound_by app installed
          (mkLaunchPolicy (enrolled policy) (intersectOverrides h ceiling (effective policy)))
  end.

Definition standaloneLaunchPolicy (app : Application) : M nested_error launchPolicy :=
  resolved ← resolvedOverride app;
  if negb (ap_PulledIn app) then mret (asLaunched resolved)
  else
    installed ← lift (wrap (λ _, StoreUnread) GetApplications);
    bound_by app installed (asLaunched resolved).

(** ** Nested runs *)
Record RequestParams : Type := mkParams {
  rp_Token : string;
  rp_Origin : string;
  rp_Branch : string;
  rp_Commit : string;
  rp_Release : string;
  rp_Binary : string
}.

Definition nestedTokenBytes : nat := 32.
Definition validNestedToken (token : string) : bool :=
  (slen token =? nestedTokenBytes * 2) && bool_decide (is_Some (hex_decode token)).

(** The loop over the containers of one application. *)
Definition holds_token (token : string) (tokens : list string) : bool :=
  existsb (λ held, negb (bool_decide (held = "")) && bool_decide (held = token)) tokens.

Fixpoint find_caller (token : string) (applications : list Application) : result nested_error Application :=
  match applications with
  | [] => Err UnknownCaller
  | application :: applications =>
      tokens ← wrap (λ _, StoreUnread) (GetApplicationContainers application);
      if holds_token token tokens then Ok application else find_caller token applications
  end.

Definition parentForNestedToken (token : string) : result nested_error Application :=
  check_that (validNestedToken token) UnknownCaller ;;;
  applications ← wrap (λ _, StoreUnread) GetApplications;
  find_caller token applications.

Definition dependency_matches (params : RequestParams) (d : Dependency) : bool :=
  let selects (wanted held : string) := bool_decide (wanted = "") || bool_decide (held = wanted) in
  IsNested d && bool_decide (de_Origin d = rp_Origin params) &&
  selects (rp_Branch params) (de_Branch d) && selects (rp_Commit params) (de_Commit d) &&
  selects (rp_Release params) (de_Release d).

Definition declaredDependency (parent : Application) (params : RequestParams) : result nested_error Dependency :=
  match filter (λ d, dependency_matches params d = true) (ap_ParsedDependencies parent) with
  | [] => Err (NotDeclared (rp_Origin params))
  | [d] => Ok d
  | _ => Err (AmbiguousDependency (rp_Origin params))
  end.

Definition exportedNestedBinary (app : Application) (requested : string) : result nested_error string :=
  let requested := trim_prefix "@" requested in
  match List.find (λ binary, bool_decide (requested = binary) || bool_decide (base requested = base binary))
    (ap_ParsedBinaries app) with
  | Some binary => Ok binary
  | None => Err (NotExported requested)
  end.

Record authorizedNestedRun : Type := mkAuthorized {
  ar_parent : Application;
  ar_child : Application;
  ar_policy : launchPolicy;
  ar_binary : string
}.

Definition authorizeNestedRun (params : RequestParams) : M nested_error authorizedNestedRun :=
  parent ← lift (parentForNestedToken (rp_Token params));
  dependency ← lift (declaredDependency parent params);
  child ← lift (wrap (λ _, DependencyMissing) (GetApplicationByCpakId (de_Id dependency)));
  lift (check_that (bool_decide (ap_Origin child = de_Origin dependency)) DependencyMismatch) ;;;
  binary ← lift (exportedNestedBinary child (rp_Binary params));
  own ← resolvedOverride child;
  ceiling ← resolvedOverride parent;
  mret (mkAuthorized parent child (narrowedTo own ceiling) binary).
End Owner.

(** ** What is read *)
Section Bounds.
Context (h : host) {overrides : OverrideCodec} {ceilings : CeilingCodec}.

Lemma migrate_keeps o o' :
  migrateLegacyHostCommands o = Ok o' → Filesystem o' = Filesystem o ∧ AllowedHostCommands o' = [].
Proof.
  intros (Hc & n & u & a & ->)%migrate_commands_shape. done.
Qed.

(** Nothing but reads, which leave a world without faults as it is. *)
Definition reading (w w' : world) : Prop := only_read w w' ∧ (quiet w → w' = w).

#[export] Instance reading_preorder : PreOrder reading.
Proof.
  split; [by intros w|]. intros w1 w2 w3 [H1 Q1] [H2 Q2]. split; [by etrans|].
  intros Hq. rewrite (Q1 Hq) in *. auto.
Qed.

Lemma validate_file_reads path w r w' : validateOverrideFile path w = (r, w') → reading w w'.
Proof.
  unfold validateOverrideFile, fail, lift. rewrite bind_map_error.
  destruct (lstat path w) as [info w1] eqn:E. apply lstat_spec in E as (Hr & _ & Hq).
  assert (reading w w1) by done. clear Hr Hq.
  destruct info as [[uid mode d| |]|]; [|by intros [= <- <-]..].
  destruct (private_mode mode); cbn; [|by intros [= <- <-]].
  by destruct (negb _); intros [= <- <-].
Qed.

Lemma load_override_spec origin version w r w' :
  LoadOverride h origin version w = (r, w') →
  reading w w' ∧ ∀ o, r = Ok o → valid_grants o ∧ AllowedHostCommands o = [].
Proof.
  unfold LoadOverride. rewrite bind_lift. destruct (override_path _ _ _) as [path|e]; [|by intros [= <- <-]].
  intros [([] & w1 & Hv & H)|(e & Hv & ->)]%bind_M; apply validate_file_reads in Hv; [|done].
  rewrite bind_map_error in H. destruct (read_file path w1) as [data w2] eqn:E.
  apply read_file_spec in E as (Hr & _ & Hq). assert (reading w w2) as Hr2.
  { etrans; [done|]. split; [done|]. intros Hx. by apply Hq. }
  destruct data as [data|e]; [|by injection H as <- <-].
  destruct (decode_override _) as [o|]; [|by injection H as <- <-].
  rewrite bind_lift in H. destruct (wrap OverrideFilesystem _) as [[]|] eqn:Hf; [|by injection H as <- <-].
  apply wrap_ok in Hf. rewrite bind_lift in H.
  destruct (wrap NoTypedProvider (migrateLegacyHostCommands o)) as [o'|e] eqn:Hm; [|by injection H as <- <-].
  apply wrap_ok, migrate_keeps in Hm as [Hm Hc]. rewrite bind_lift in H.
  destruct (wrap OverrideActions _); [|by injection H as <- <-]. rewrite bind_lift in H.
  destruct (wrap OverrideBus _); [|by injection H as <- <-]. injection H as <- <-.
  split; [done|]. intros ? [= <-]. split; [|done]. unfold valid_grants. by rewrite Hm.
Qed.

(** What resolving an application gives on the files of [w], whichever calls
    fail. *)
Definition resolves (app : Application) (w : world) (o : Override) : Prop :=
  ∃ requested ceiling w1 w2 w3,
    only_read w w1 ∧ requestedOverride (E := nested_error) h app w1 = (Ok requested, w2) ∧
    HostCeiling (E := nested_error) w2 = (Ok ceiling, w3) ∧ o = under_ceiling h ceiling requested.

Lemma requested_spec {E} app w (r : result E Override) w' :
  requestedOverride h app w = (r, w') →
  reading w w' ∧ ∃ o, r = Ok o ∧ (valid_grants (ap_ParsedOverride app) → valid_grants o).
Proof.
  unfold requestedOverride. rewrite bind_try. destruct (LoadOverride _ _ _ w) as [user w1] eqn:E0.
  apply load_override_spec in E0 as [Hr Hv]. intros [= <- <-]. split; [done|].
  destruct user as [o|e]; eexists; (split; [done|]); [|done]. intros _. by apply (Hv o).
Qed.

Lemma resolved_spec app w (r : result nested_error Override) w' :
  resolvedOverride h app w = (r, w') → reading w w' ∧ ∃ o, r = Ok o ∧ resolves app w o.
Proof.
  unfold resolvedOverride. intros [(o & w1 & Ho & H)|(e & Ho & ->)]%bind_M;
    pose proof (requested_spec _ _ _ _ Ho) as (Hr & o' & E0 & _); [|done].
  injection E0 as <-. apply bind_M in H as [(c & w2 & Hc & H)|(e & Hc & ->)];
    pose proof (host_ceiling_spec _ _ _ Hc) as (Hr2 & Hq2 & c' & E0 & _); [|done].
  injection H as <- <-. split; [by etrans; [|split]|]. eexists. split; [done|].
  by exists o, c, w, w1, w2.
Qed.

Lemma resolves_later app w w1 o : reading w w1 → resolves app w1 o → resolves app w o.
Proof. intros [Hr _] (q & c & a & b & d & Ha & Hb & Hd & ->). exists q, c, a, b, d. split_and!; [by etrans|done..]. Qed.

Lemma ceiling_policy_valid s fs c : c = no_ceiling ∨ ceiling_of s fs c → valid_grants (cl_Policy c).
Proof. intros [->|(data & p & n & _ & (_ & _ & ? & _)%parse_ceiling_ok & ->)]; done. Qed.

Lemma resolves_valid app w o :
  h_home h ≠ Some "" → valid_grants (ap_ParsedOverride app) → resolves app w o → valid_grants o.
Proof.
  intros Hne Hv (q & c & w1 & w2 & w3 & _ & (_ & q' & Eq & Hq)%requested_spec & Hc & ->).
  injection Eq as <-. apply host_ceiling_spec in Hc as (_ & _ & c' & [= <-] & Hc).
  apply under_ceiling_valid; [done|by eapply ceiling_policy_valid|auto].
Qed.

Context {store : ApplicationStore}.

(** The installations were validated when they were made. *)
Definition well_installed : Prop :=
  (∀ l a, GetApplications = Ok l → a ∈ l → valid_grants (ap_ParsedOverride a)) ∧
  (∀ id a, GetApplicationByCpakId id = Ok a → valid_grants (ap_ParsedOverride a)).

Lemma bound_by_spec app installed policy w r w' :
  h_home h ≠ Some "" → (∀ a, a ∈ installed → valid_grants (ap_ParsedOverride a)) →
  valid_grants (effective policy) → bound_by h app installed policy w = (r, w') →
  reading w w' ∧ ∃ p, r = Ok p ∧
    enrolled p = enrolled policy ∧ valid_grants (effective p) ∧
    confined h (effective policy) (effective p) ∧
    ∀ parent, parent ∈ installed → ap_CpakId parent ≠ ap_CpakId app → boundsTheLaunchOf parent app = true →
      ∃ ceiling, resolves parent w ceiling ∧ confined h ceiling (effective p).
Proof.
  intros Hne. revert policy w. induction installed as [|parent installed IH]; intros policy w Hi Hv H.
  { injection H as <- <-. split; [done|]. exists policy. split_and!; try done. by intros ? ?%elem_of_nil. }
  cbn [bound_by] in H. destruct (_ || _) eqn:Hskip.
  - apply IH in H as (Hr & p & -> & He & Hvp & Hc & Hb); [|set_solver|done]. split; [done|].
    exists p. split_and!; [done..|]. intros q [->|?]%elem_of_cons Hid Hbq; [|by apply Hb].
    bools_in Hskip. rewrite Hbq in Hskip. by destruct Hskip.
  - apply bind_M in H as [(c & w1 & Hc & H)|(e & Hc & ->)];
      apply resolved_spec in Hc as (Hr & c' & E & Hres); [injection E as <-|done].
    assert (valid_grants c) as Hvc by (eapply resolves_valid; [done| |done]; set_solver).
    destruct (intersect_confined h c (effective policy)) as [Hc1 Hc2]; [done..|].
    apply IH in H as (Hr2 & p & -> & He & Hvp & Hcp & Hb); [|set_solver|by apply intersect_valid].
    cbn in *. split; [by etrans|]. exists p. split_and!; [done..|by etrans|].
    intros q [->|?]%elem_of_cons Hid Hbq; [exists c; split; [done|by etrans]|].
    destruct (Hb q) as (c2 & Hc2' & ?); [done..|]. exists c2. split; [|done]. by eapply resolves_later.
Qed.

Lemma find_caller_ok token applications app :
  find_caller token applications = Ok app →
  app ∈ applications ∧ ∃ tokens, GetApplicationContainers app = Ok tokens ∧ token ∈ tokens ∧ token ≠ "".
Proof.
  induction applications as [|a l IH]; [done|]. cbn [find_caller].
  intros (tokens & Ht%wrap_ok & H)%bind_ok. destruct (holds_token token tokens) eqn:Hh.
  - injection H as <-. split; [set_solver|]. exists tokens. split; [done|].
    unfold holds_token in Hh. bools_in Hh. destruct Hh as (x & Hx & Hh). bools_in Hh.
    destruct Hh as [? ->]. done.
  - apply IH in H as [? ?]. split; [set_solver|done].
Qed.

Lemma declared_ok parent params d :
  declaredDependency parent params = Ok d →
  (∀ d', d' ∈ ap_ParsedDependencies parent ∧ dependency_matches params d' = true ↔ d' = d).
Proof.
  unfold declaredDependency. destruct (filter _ _) as [|x [|y l]] eqn:E; [done| |done].
  intros [= <-] d'.
  pose proof (list_elem_of_filter (λ d, dependency_matches params d = true) (ap_ParsedDependencies parent) d') as Hf.
  rewrite E, list_elem_of_singleton in Hf. tauto.
Qed.

Lemma exported_ok app requested binary :
  exportedNestedBinary app requested = Ok binary →
  binary ∈ ap_ParsedBinaries app ∧
  (trim_prefix "@" requested = binary ∨ base (trim_prefix "@" requested) = base binary).
Proof.
  unfold exportedNestedBinary. destruct (List.find _ _) as [b|] eqn:E; [|done]. intros [= <-].
  apply find_elem in E as [? E]. bools_in E. done.
Qed.

(** ** Properties *)

(** An application that is launched on its own is shown to the gate under the
    policy its owner and the host settled, and runs under that policy or less.
    When another package brought it here, it also runs under no more than each
    installed package with a say in it - one that declares it, and brought it here
    if that is recorded - is itself held to; a launch the user asked for is left
    alone. *)
Theorem standalone_bounded app installed policy w w' :
  h_home h ≠ Some "" → valid_grants (ap_ParsedOverride app) →
  (∀ a, a ∈ installed → valid_grants (ap_ParsedOverride a)) → GetApplications = Ok installed →
  standaloneLaunchPolicy h app w = (Ok policy, w') →
  reading w w' ∧ resolves app w (enrolled policy) ∧
  confined h (enrolled policy) (effective policy) ∧
  (ap_PulledIn app = false → effective policy = enrolled policy) ∧
  (ap_PulledIn app = true → ∀ parent, parent ∈ installed → ap_CpakId parent ≠ ap_CpakId app →
    boundsTheLaunchOf parent app = true →
    ∃ ceiling, resolves parent w ceiling ∧ confined h ceiling (effective policy)).
Proof.
  intros Hne Hv Hi Hg H. unfold standaloneLaunchPolicy in H.
  apply bind_M_ok in H as (o & w1 & Ho & H). apply resolved_spec in Ho as (Hr & o' & [= <-] & Hres).
  destruct (ap_PulledIn app); cbn [negb] in H.
  - rewrite Hg, bind_lift in H. cbn [wrap] in H.
    apply bound_by_spec in H as (Hr2 & p & [= <-] & He & _ & Hc & Hb); [|done..|by eapply resolves_valid].
    rewrite He. split_and!; [by etrans|done|done|done|]. intros _ parent ? ? ?.
    destruct (Hb parent) as (c & ? & ?); [done..|]. exists c. split; [|done]. by eapply resolves_later.
  - injection H as <- <-. by split_and!.
Qed.

(** C11: a nested run that is authorized was asked for by the holder of a token of
    an installed container, for the one nested dependency its package declares
    under what was asked, for a binary the dependency exports.  It is shown to the
    gate under the policy the dependency is enrolled with and runs under no more
    than that, and under no more than what the package that asks is held to. *)
Theorem nested_run_bounded params run w w' :
  h_home h ≠ Some "" → well_installed → authorizeNestedRun h params w = (Ok run, w') →
  let parent := ar_parent run in
  let child := ar_child run in
  reading w w' ∧
  (validNestedToken (rp_Token params) = true ∧ ∃ applications tokens,
    GetApplications = Ok applications ∧ parent ∈ applications ∧
    GetApplicationContainers parent = Ok tokens ∧ rp_Token params ∈ tokens) ∧
  (∃ d, (∀ d', d' ∈ ap_ParsedDependencies parent ∧ dependency_matches params d' = true ↔ d' = d) ∧
    IsNested d = true ∧ GetApplicationByCpakId (de_Id d) = Ok child ∧
    ap_Origin child = de_Origin d ∧ de_Origin d = rp_Origin params) ∧
  (ar_binary run ∈ ap_ParsedBinaries child ∧
    (trim_prefix "@" (rp_Binary params) = ar_binary run ∨
     base (trim_prefix "@" (rp_Binary params)) = base (ar_binary run))) ∧
  resolves child w (enrolled (ar_policy run)) ∧
  confined h (enrolled (ar_policy run)) (effective (ar_policy run)) ∧
  ∃ ceiling, resolves parent w ceiling ∧ confined h ceiling (effective (ar_policy run)).
Proof.
  intros Hne [Hall Hid] H. unfold authorizeNestedRun in H.
  rewrite bind_lift in H. destruct (parentForNestedToken _) as [parent|] eqn:Hp; [|done].
  rewrite bind_lift in H. destruct (declaredDependency _ _) as [d|] eqn:Hd; [|done].
  rewrite bind_lift in H. destruct (wrap _ (GetApplicationByCpakId _)) as [child|] eqn:Hc; [|done].
  apply wrap_ok in Hc. rewrite bind_lift in H. destruct (check_that _ _) as [[]|] eqn:Ho; [|done].
  apply check_that_ok, bool_decide_eq_true in Ho.
  rewrite bind_lift in H. destruct (exportedNestedBinary _ _) as [binary|] eqn:Hb; [|done].
  apply bind_M_ok in H as (own & w1 & Hown & H). apply resolved_spec in Hown as (Hr1 & ? & [= <-] & Hown).
  apply bind_M_ok in H as (ceiling & w2 & Hceil & H).
  apply resolved_spec in Hceil as (Hr2 & ? & [= <-] & Hceil). injection H as <- <-.
  unfold parentForNestedToken in Hp. apply bind_unit_ok in Hp as [Ht%check_that_ok Hp].
  apply bind_ok in Hp as (l & Hl%wrap_ok & (Hin & tokens & ? & ? & _)%find_caller_ok).
  apply exported_ok in Hb. pose proof (declared_ok _ _ _ Hd) as Hone.
  destruct (proj2 (Hone d) eq_refl) as [_ Hm]. unfold dependency_matches in Hm. bools_in Hm.
  destruct (intersect_confined h ceiling own) as [H1 H2]; [done|..].
  { eapply resolves_valid; [done|by eapply Hall|done]. }
  { eapply resolves_valid; [done|by eapply Hid|done]. }
  split_and!; [by etrans|done|by eauto 10| |by apply Hb|by apply Hb|done|done|].
  - exists d. naive_solver.
  - exists ceiling. split; [by eapply resolves_later|done].
Qed.

(** ** The ceiling reaches every launch *)
Lemma bool_field_switch f get : f ∈ fields → f_kind f = KBool get → get ∈ all_switches.
Proof.
  intros Hf. repeat (apply elem_of_cons in Hf as [->|Hf];
    [intros E; first [discriminate E|injection E as <-; apply list_elem_of_In; cbn; tauto]|]).
  by apply elem_of_nil in Hf.
Qed.

(** A host whose ceiling names a switch and leaves it off. *)
Record closed (w : world) (get : Override → bool) : Prop := {
  cl_quiet : quiet w;
  cl_switch : get ∈ all_switches;
  cl_off : ∃ policy, HostCeiling (E := nested_error) w = (Ok policy, w) ∧
    ∀ requested, get (under_ceiling h policy requested) = false
}.

Lemma resolved_closed app w get r w' :
  closed w get → resolvedOverride (E := nested_error) h app w = (r, w') → w' = w ∧ ∃ o, r = Ok o ∧ get o = false.
Proof.
  intros [Hq Hs (c & Hc & Hoff)]. unfold resolvedOverride.
  intros [(o & w1 & Ho & H)|(e & Ho & ->)]%bind_M;
    pose proof (requested_spec _ _ _ _ Ho) as ([_ Hr] & o' & E0 & _); [|done]. rewrite (Hr Hq) in *.
  unfold mbind, M_bind in H. rewrite Hc in H. injection H as <- <-. eauto.
Qed.

Lemma bound_by_closed app installed policy w get r w' :
  closed w get → get (enrolled policy) = false → get (effective policy) = false →
  bound_by h app installed policy w = (r, w') →
  ∃ p, r = Ok p ∧ get (enrolled p) = false ∧ get (effective p) = false.
Proof.
  intros Hc. revert policy. induction installed as [|parent l IH]; intros policy He Hf H.
  { injection H as <- <-. eauto. }
  cbn [bound_by] in H. destruct (_ || _); [by eapply IH|].
  apply bind_M in H as [(o & w1 & Ho & H)|(e & Ho & ->)];
    apply (resolved_closed _ _ _ _ _ Hc) in Ho as (-> & ? & E0 & Hoff); [|done].
  eapply IH in H; [done|done|]. cbn. rewrite both_cases, Hf by apply Hc. apply andb_false_r.
Qed.

(** C5: a switch the file of the ceiling names and leaves off is off for every
    launch of the host: for an application started on its own, under whatever
    override its owner wrote, and for a nested run, both in what the gate is shown
    and in what the container is built from. *)
Theorem ceiling_reaches_launches w data ceiling named f get :
  quiet w →
  trusted_file (w_fs w) (ceiling_path DefaultCeilingStore) (cs_OwnerUID DefaultCeilingStore) data →
  (N.of_nat (slen data) ≤ ceilingSizeLimit)%N → parseCeiling data = Ok (ceiling, named) →
  f ∈ fields → f_kind f = KBool get → f_key f ∈ withAliases named → get ceiling = false →
  (∀ app policy w', standaloneLaunchPolicy h app w = (Ok policy, w') →
    get (enrolled policy) = false ∧ get (effective policy) = false) ∧
  (∀ params run w', authorizeNestedRun h params w = (Ok run, w') →
    get (enrolled (ar_policy run)) = false ∧ get (effective (ar_policy run)) = false).
Proof.
  intros Hq Ht Hl Hp Hf Hk Hn Hoff. pose proof (bool_field_switch _ _ Hf Hk) as Hs.
  assert (closed w get) as Hc.
  { split; [done|done|]. exists (mkCeiling true ceiling (Some named)). split.
    - unfold HostCeiling. rewrite bind_try. destruct (LoadCeiling _ w) as [r w1] eqn:E.
      apply load_ceiling_spec in E as (_ & _ & Hx). destruct (Hx Hq) as [-> Hr].
      by rewrite (Hr data Ht Hl), Hp.
    - intros requested. unfold under_ceiling. cbn [cl_Present negb cl_Policy cl_Named].
      pose proof (held_field requested (intersectOverrides h ceiling requested) named f Hf) as Hfield.
      rewrite Hk, bool_decide_eq_true_2 in Hfield by done. cbn [field_same] in Hfield.
      by rewrite Hfield, both_cases, Hoff. }
  split.
  - intros app policy w' H. unfold standaloneLaunchPolicy in H.
    apply bind_M_ok in H as (o & w1 & Ho & H).
    apply (resolved_closed _ _ _ _ _ Hc) in Ho as (-> & ? & [= <-] & Ho).
    destruct (negb _); [by injection H as <- <-|].
    rewrite bind_lift in H. destruct (wrap _ _); [|done].
    apply (bound_by_closed _ _ _ _ _ _ _ Hc) in H as (? & [= <-] & ? & ?); done.
  - intros params run w' H. unfold authorizeNestedRun in H.
    do 5 (rewrite bind_lift in H; destruct (_ : result nested_error _); [|done]).
    apply bind_M_ok in H as (own & w1 & Hown & H).
    apply (resolved_closed _ _ _ _ _ Hc) in Hown as (-> & ? & [= <-] & Hown).
    apply bind_M_ok in H as (par & w1 & Hpar & H).
    apply (resolved_closed _ _ _ _ _ Hc) in Hpar as (-> & ? & [= <-] & Hpar).
    injection H as <- <-. cbn. split; [done|]. by rewrite both_cases, Hpar.
Qed.
End Bounds.

(** ** A host with two packages

    An editor that brought a viewer with it.  The viewer asks for all of [/dev] and
    the network; the administrator closed the network; the owner wrote a file for
    the viewer. *)
#[export] Instance override_codec_example : OverrideCodec :=
  λ d, if bool_decide (d = "nothing") then Some NewOverride
       else if bool_decide (d = "greedy") then Some greedy else None.

Definition example_viewer : Application :=
  mkApplication "viewer" "Viewer" "1" "main" "" "" "github.com/ada/viewer" "" "" "" "" [] [] ["/usr/bin/view"] [] []
    [] None 0 [] greedy true "github.com/ada/editor".
Definition example_editor : Application :=
  mkApplication "editor" "Editor" "2" "main" "" "" "github.com/ada/editor" "" "" "" "" []
    [mkDependency "viewer" "github.com/ada/viewer" "main" "" "" "nested"] ["/usr/bin/edit"] [] []
    [] None 0 [] (with_grants [mkPerm "home" "read-only"]) false "".

Definition example_token : string := "00112233445566778899aabbccddeeff00112233445566778899aabbccddeeff".
#[export] Instance store_example : ApplicationStore := {|
  GetApplications := Ok [example_viewer; example_editor];
  GetApplicationContainers a :=
    Ok (if bool_decide (ap_CpakId a = "editor") then [""; example_token] else []);
  GetApplicationByCpakId id :=
    if bool_decide (id = "viewer") then Ok example_viewer
    else if bool_decide (id = "editor") then Ok example_editor else Err tt
|}.

Definition viewer_override : string :=
  "/home/ada/.config/cpak/overrides/github.com/ada/viewer/1/cpak.json".
Definition example_world (mode : N) : world := mkWorld (
  <[ceiling_path DefaultCeilingStore := File 0 420 "network"]>
    {[ viewer_override := File 1000 mode "greedy" ]}) 1000 [].
Definition view_request : RequestParams := mkParams example_token "github.com/ada/viewer" "" "" "" "@view".

Lemma well_installed_example : well_installed.
Proof.
  split.
  - intros l a [= <-] Ha. repeat (apply elem_of_cons in Ha as [->|Ha]; [vm_compute; reflexivity|]).
    by apply elem_of_nil in Ha.
  - intros id a. cbn. repeat case_bool_decide; try done; intros [= <-]; vm_compute; reflexivity.
Qed.

Lemma standalone_bounded_witness :
  let launched := standaloneLaunchPolicy example_host example_viewer (example_world 384) in
  match launched.1 with
  | Ok policy =>
      (DeviceAll (enrolled policy), Network (enrolled policy)) = (true, false) ∧
      (DeviceAll (effective policy), Filesystem (effective policy)) = (false, []) ∧
      ∃ ceiling, resolves example_host example_editor (example_world 384) ceiling ∧
        confined example_host ceiling (effective policy)
  | Err _ => False
  end.
Proof.
  intros launched. destruct launched as [r w'] eqn:E. unfold launched in E. cbn [fst].
  destruct r as [policy|e]; [|vm_compute in E; discriminate E].
  split; [vm_compute in E; injection E as <- _; reflexivity|].
  split; [vm_compute in E; injection E as <- _; reflexivity|].
  refine (proj2 (proj2 (proj2 (proj2 (standalone_bounded example_host example_viewer
    [example_viewer; example_editor] policy (example_world 384) w' _ _ _ eq_refl E)))) eq_refl example_editor _ _ _);
    [vm_compute; discriminate|vm_compute; reflexivity| |apply list_elem_of_further, list_elem_of_here
    |vm_compute; discriminate|vm_compute; reflexivity].
  intros a Ha. by apply (proj1 well_installed_example _ a eq_refl).
Defined.

Lemma nested_run_bounded_witness :
  let ran := authorizeNestedRun example_host view_request (example_world 384) in
  match ran.1 with
  | Ok run =>
      (ap_Name (ar_parent run), ap_Name (ar_child run), ar_binary run) = ("Editor", "Viewer", "/usr/bin/view") ∧
      (DeviceAll (enrolled (ar_policy run)), DeviceAll (effective (ar_policy run))) = (true, false) ∧
      confined example_host (enrolled (ar_policy run)) (effective (ar_policy run))
  | Err _ => False
  end.
Proof.
  intros ran. destruct ran as [r w'] eqn:E. unfold ran in E. cbn [fst].
  destruct r as [run|e]; [|vm_compute in E; discriminate E].
  split; [vm_compute in E; injection E as <- _; reflexivity|].
  split; [vm_compute in E; injection E as <- _; reflexivity|].
  refine (proj1 (proj2 (proj2 (proj2 (proj2 (proj2 (nested_run_bounded example_host view_request run
    (example_world 384) w' _ well_installed_example E))))))); vm_compute; discriminate.
Defined.

Lemma ceiling_reaches_launches_witness :
  let ran := authorizeNestedRun example_host view_request (example_world 384) in
  match ran.1 with
  | Ok run => Network greedy = true ∧ Network (enrolled (ar_policy run)) = false ∧
      Network (effective (ar_policy run)) = false
  | Err _ => False
  end.
Proof.
  intros ran. destruct ran as [r w'] eqn:E. unfold ran in E. cbn [fst].
  destruct r as [run|e]; [|vm_compute in E; discriminate E].
  split; [reflexivity|].
  refine (proj2 (ceiling_reaches_launches example_host (example_world 384) "network" NewOverride {[ "network" ]}
    (mkField "network" false (KBool Network)) Network eq_refl _ _ _ _ eq_refl _ eq_refl) view_request run w' E).
  - exists 420%N. split_and!; vm_compute; reflexivity.
  - vm_compute. discriminate.
  - vm_compute. reflexivity.
  - apply list_elem_of_In. cbn. tauto.
  - apply aliases_named. set_solver.
Defined.

(** A file the reader refuses counts as no decision at all: an owner who denied
    everything in a file the group can write launches with the policy of the
    manifest. *)
Lemma refused_override_widens :
  let w mode := mkWorld {[ viewer_override := File 1000 mode "nothing" ]} 1000 [] in
  let requested mode := (requestedOverride (E := nested_error) example_host example_viewer (w mode)).1 in
  requested 384%N = Ok NewOverride ∧ requested 436%N = Ok greedy ∧ DeviceAll greedy = true.
Proof. split_and!; vm_compute; reflexivity. Qed.
