(* ===== verification/Addons.v ===== *)
(** * Addons ([pkg/cpak/addon.go], [addon_environment.go])

    Which addons an application is composed with: the file in which the owner of the
    machine keeps the choice, the candidates the store holds, the one provider of an
    exclusive slot, the operations that change the choice, and the environment the
    providers export. *)
From Stdlib Require Import Ascii.
From stdpp Require Import base strings list numbers gmap.
From S2P Require Import Prelude.
From S2P Require Import GoStrings.
From S2P Require Import Regex.
From S2P Require Import Utf8.
From S2P Require Import GoPath.
From S2P Require Import TrustedFiles.
From S2P Require Import Override.
From S2P Require Import Applications.
From S2P Require Import Repository.
From S2P Require Import Composition.
From S2P Require Import Updates.
From S2P Require Import NestedAuth.
From stdpp Require Import options.

#[local] Open Scope nat_scope.

(** ** Data *)
Definition addonConfigurationVersion : Z := 3.

Record addonConfiguration : Type := mkAddons {
  ac_Version : Z;
  ac_Enabled : list string;
  ac_Chosen : list string;
  ac_Disabled : list string;
  ac_Slots : gmap string string
}.
Definition no_addons : addonConfiguration := mkAddons 0 [] [] [] ∅.

Record AddonStatus : Type := mkStatus {
  as_Origin : string; as_Enabled : bool; as_Installed : bool; as_Provider : string; as_Slot : string; as_Mode : string
}.

(** The JSON of the file: one value with the fields of the record and no other.  The
    order in which a map is walked is the runtime's. *)
Class AddonCodec : Type := {
  encode_addons : addonConfiguration → string;
  decode_addons : string → option addonConfiguration;
  walk : gmap string string → list (string * string)
}.

Inductive addon_error : Type :=
  | HomeUnknown | OriginUnnamed (e : override_error) | StoreError (e : update_error)
  | ConfigurationUndecoded | ConfigurationVersion (version : Z)
  | NoLongerSupported (origin : string) | AddonNotInstalled (origin : string)
  | MixedSlot (slot : string) | AmbiguousProvider (provider slot : string) | ProviderUnavailable (provider slot : string)
  | AddonUnsupported (origin : string) | AddonNotEnabled (origin : string) | SlotMultiple (slot : string)
  | ComponentsUnresolved (origin : string) (e : option composition_error)
  | AddonsUnread (origin : string) (e : addon_error).

Section Addons.
Context {text : NetText} {E : Engine} {codec : AddonCodec} (home : option string).

Notation A := (SM package_state addon_error).
Definition from_store {X} (m : SM package_state update_error X) : A X := map_error StoreError m.

(** ** Lists of origins *)
Definition normal (origin : string) : string := ToLower (trim_space origin).

(** [orderedOrigins]: in the order of their first spelling. *)
Fixpoint ordered_from (seen origins : list string) : list string :=
  match origins with
  | [] => []
  | origin :: origins =>
      let origin := normal origin in
      if bool_decide (origin = "") || bool_decide (origin ∈ seen) then ordered_from seen origins
      else origin :: ordered_from (origin :: seen) origins
  end.
Definition orderedOrigins (origins : list string) : list string := ordered_from [] origins.
Definition normalizedOrigins (origins : list string) : list string := sort_strings (orderedOrigins origins).

(** [originSet(origins)[origin]]. *)
Definition in_origins (origin : string) (origins : list string) : bool := bool_decide (origin ∈ normalizedOrigins origins).

Definition withoutOrigin (origins : list string) (removed : string) : list string :=
  filter (λ origin, origin ≠ removed) (normalizedOrigins origins).

Definition supportedAddon (app : Application) (origin : string) : bool :=
  existsb (λ supported, bool_decide (ToLower supported = ToLower origin)) (ap_ParsedAddons app).

(** ** The file of the owner *)
Definition addonConfigurationKey (app : Application) : string :=
  if negb (bool_decide (ap_Branch app = "")) then "branch-" +:+ ap_Branch app
  else if negb (bool_decide (ap_Release app = "")) then "release"
  else if negb (bool_decide (ap_Commit app = "")) then "commit-" +:+ ap_Commit app
  else ap_Version app.

Definition addonConfigurationPath (app : Application) : result addon_error string :=
  match home with
  | None => Err HomeUnknown
  | Some home =>
      localName ← wrap OriginUnnamed (getCpakLocalName (ap_Origin app));
      let version := PathEscape (addonConfigurationKey app) in
      let version := if bool_decide (version = "") then "default" else version in
      Ok (path_join [home; ".config"; "cpak"; "addons"; localName; version; "addons.json"])
  end.

Definition loadAddonConfiguration (app : Application) : A addonConfiguration :=
  path ← lift (addonConfigurationPath app);
  data ← from_store (on_files (read_or_missing path));
  match data with
  | None => mret no_addons
  | Some data =>
      match decode_addons data with
      | None => fail ConfigurationUndecoded
      | Some configuration =>
          if bool_decide (ac_Version configuration ∈ [1%Z; 2%Z; addonConfigurationVersion]) then mret configuration
          else fail (ConfigurationVersion (ac_Version configuration))
      end
  end.

Definition loadEnabledAddons (app : Application) : A (list string) :=
  configuration ← loadAddonConfiguration app;
  mret (normalizedOrigins (ac_Enabled configuration ++ ac_Chosen configuration)).

Definition loadChosenAddons (app : Application) : A (list string) :=
  configuration ← loadAddonConfiguration app; mret (normalizedOrigins (ac_Chosen configuration)).

Definition normalized_slots (slots : gmap string string) : gmap string string :=
  foldl (λ m '(slot, provider),
    if bool_decide (normal slot = "") || bool_decide (normal provider = "") then m
    else <[normal slot := normal provider]> m) ∅ (walk slots).

Definition normalized_configuration (c : addonConfiguration) : addonConfiguration :=
  mkAddons addonConfigurationVersion (normalizedOrigins (ac_Enabled c)) (normalizedOrigins (ac_Chosen c))
    (normalizedOrigins (ac_Disabled c)) (normalized_slots (ac_Slots c)).

(** The file is created beside its path, given its mode, written, synced, closed and
    renamed; then its directory is opened and synced. *)
Definition saveAddonConfiguration (app : Application) (c : addonConfiguration) : A () :=
  path ← lift (addonConfigurationPath app);
  from_store (on_files (
    mkdir_all (dir path) ;;;
    call ;;; call ;;; call ;;; call ;;; call ;;;
    rename_new path (encode_addons (normalized_configuration c) +:+ String "010" "") 384 ;;;
    call ;;; call)).

Definition with_lists (c : addonConfiguration) (enabled chosen disabled : list string) (slots : gmap string string) : addonConfiguration :=
  mkAddons (ac_Version c) enabled chosen disabled slots.

Definition saveEnabledAddons (app : Application) (enabled : list string) : A () :=
  c ← loadAddonConfiguration app;
  let names := normalizedOrigins enabled in
  saveAddonConfiguration app (with_lists c
    (filter (λ origin, in_origins origin (ac_Chosen c) = false) names)
    (filter (λ origin, in_origins origin (ac_Chosen c) = true) names) (ac_Disabled c) (ac_Slots c)).

Definition writeAddonConfiguration (app : Application) (enabled chosen : list string) : A () :=
  c ← loadAddonConfiguration app;
  saveAddonConfiguration app (with_lists c enabled chosen (ac_Disabled c) (ac_Slots c)).

Definition removeAddonConfiguration (app : Application) : A () :=
  path ← lift (addonConfigurationPath app);
  removed ← try (on_files (remove path));
  match removed with
  | Ok _ | Err (FileFailed Missing) => mret ()
  | Err e => fail (StoreError e)
  end.

(** ** What the store holds *)
Definition GetApplication (origin branch : string) : A Application := from_store (GetApplicationByOrigin origin "" branch "" "").

Definition installedAddon (origin : string) : A Application :=
  found ← try (GetApplication origin "main");
  match found with
  | Ok addon => if bool_decide (ap_CpakId addon = "") then GetApplication origin "" else mret addon
  | Err _ => GetApplication origin ""
  end.

(** An addon that may be active, and whether the owner asked for it. *)
Record candidate : Type := mkCandidate { cd_application : Application; cd_explicit : bool }.
Definition provider_of (c : candidate) : option AddonProvider := ap_ParsedAddonProvider (cd_application c).
Definition origin_of (c : candidate) : string := ap_Origin (cd_application c).

(** The first enabled addon the manifest does not offer any more. *)
Definition dropped_addon (app : Application) (c : addonConfiguration) : option string :=
  List.find (λ origin, negb (supportedAddon app origin)) (ac_Enabled c).

Definition explicit_addon (c : addonConfiguration) (origin : string) : bool := in_origins origin (ac_Enabled c ++ ac_Chosen c).

(** The loop that gathers the candidates. *)
Fixpoint gather (app : Application) (c : addonConfiguration) (origins : list string) : A (list candidate) :=
  match origins with
  | [] => mret []
  | origin :: origins =>
      if in_origins origin (ac_Disabled c) then gather app c origins
      else
        let explicit := explicit_addon c origin in
        found ← try (installedAddon origin);
        let missing := if (explicit : bool) then fail (AddonNotInstalled origin) else gather app c origins in
        match found with
        | Err _ => missing
        | Ok addon =>
            if bool_decide (ap_CpakId addon = "") then missing
            else if bool_decide (ap_ParsedAddonProvider addon = None) && negb explicit then gather app c origins
            else if negb (supportedAddon app origin) && negb (in_origins origin (ac_Chosen c)) then gather app c origins
            else rest ← gather app c origins; mret (mkCandidate addon explicit :: rest)
        end
  end.

(** ** Slots *)
Record slotGroup : Type := mkGroup { sg_Slot : string; sg_Mode : string; sg_Candidates : list candidate }.

(** A candidate joins the group of its slot, which is created when there is none. *)
Fixpoint join_group (slot mode : string) (c : candidate) (groups : list slotGroup) : result addon_error (list slotGroup) :=
  match groups with
  | [] => Ok [mkGroup slot mode [c]]
  | g :: groups =>
      if bool_decide (sg_Slot g = slot) then
        if bool_decide (sg_Mode g = mode) then Ok (mkGroup slot mode (sg_Candidates g ++ [c]) :: groups) else Err (MixedSlot slot)
      else groups ← join_group slot mode c groups; Ok (g :: groups)
  end.
Fixpoint group_candidates (groups : list slotGroup) (candidates : list candidate) : result addon_error (list slotGroup) :=
  match candidates with
  | [] => Ok groups
  | c :: candidates =>
      match provider_of c with
      | None => group_candidates groups candidates
      | Some p => groups ← join_group (pr_Slot p) (pr_Mode p) c groups; group_candidates groups candidates
      end
  end.

(** The candidate a selection names: none, one, or more than one. *)
Definition names_candidate (selection : string) (c : candidate) : bool :=
  bool_decide (origin_of c = selection) ||
  match provider_of c with Some p => bool_decide (pr_ID p = selection) | None => false end.
Fixpoint find_selected (slot selection : string) (selected : option candidate) (candidates : list candidate) :
    result addon_error (option candidate) :=
  match candidates with
  | [] => Ok selected
  | c :: candidates =>
      if names_candidate selection c then
        match selected with
        | Some _ => Err (AmbiguousProvider selection slot)
        | None => find_selected slot selection (Some c) candidates
        end
      else find_selected slot selection selected candidates
  end.

(** The origins of a group that are active. *)
Definition active_in_group (slots : gmap string string) (g : slotGroup) : result addon_error (list string) :=
  if bool_decide (sg_Mode g = AddonSlotMultiple) then Ok (origin_of <$> sg_Candidates g)
  else
    let selection := ToLower (default "" (slots !! sg_Slot g)) in
    if negb (bool_decide (selection = "")) then
      selected ← find_selected (sg_Slot g) selection None (sg_Candidates g);
      match selected with
      | None => Err (ProviderUnavailable selection (sg_Slot g))
      | Some c => Ok [origin_of c]
      end
    else match List.find cd_explicit (sg_Candidates g) with
    | Some c => Ok [origin_of c]
    | None => Ok (origin_of <$> take 1 (sg_Candidates g))
    end.
Fixpoint active_in_groups (slots : gmap string string) (groups : list slotGroup) : result addon_error (list string) :=
  match groups with
  | [] => Ok []
  | g :: groups => active ← active_in_group slots g; rest ← active_in_groups slots groups; Ok (active ++ rest)
  end.

Definition select_active (slots : gmap string string) (candidates : list candidate) : result addon_error (list Application) :=
  groups ← group_candidates [] candidates;
  provided ← active_in_groups slots groups;
  let plain := origin_of <$> filter (λ c, provider_of c = None) candidates in
  Ok (cd_application <$> filter (λ c, origin_of c ∈ plain ++ provided) candidates).

Definition activeAddonCandidatesFromStore (app : Application) : A (list Application) :=
  configuration ← loadAddonConfiguration app;
  match dropped_addon app configuration with
  | Some origin => fail (NoLongerSupported origin)
  | None =>
      candidates ← gather app configuration (orderedOrigins (ap_ParsedAddons app ++ ac_Chosen configuration));
      lift (select_active (ac_Slots configuration) candidates)
  end.

(** ** Status *)
Fixpoint statuses (active : list Application) (origins : list string) : A (list AddonStatus) :=
  match origins with
  | [] => mret []
  | origin :: origins =>
      found ← try (installedAddon origin);
      let enabled := bool_decide (origin ∈ ap_Origin <$> active) in
      let status :=
        match found with
        | Ok addon =>
            if bool_decide (ap_CpakId addon = "") then mkStatus origin enabled false "" "" ""
            else match ap_ParsedAddonProvider addon with
            | Some p => mkStatus origin enabled true (pr_ID p) (pr_Slot p) (pr_Mode p)
            | None => mkStatus origin enabled true "" "" ""
            end
        | Err _ => mkStatus origin enabled false "" "" ""
        end in
      rest ← statuses active origins; mret (status :: rest)
  end.
Definition AddonStatuses (app : Application) : A (list AddonStatus) :=
  from_store NewStore ;;;
  active ← activeAddonCandidatesFromStore app;
  configuration ← loadAddonConfiguration app;
  statuses active (orderedOrigins (ap_ParsedAddons app ++ ac_Chosen configuration)).

Record AddonSlotStatus : Type := mkSlotStatus { ss_Slot : string; ss_Mode : string; ss_Active : list string; ss_Available : list string }.
Definition slot_with (status : AddonStatus) (slot : AddonSlotStatus) : AddonSlotStatus :=
  mkSlotStatus (ss_Slot slot) (ss_Mode slot)
    (if as_Enabled status then ss_Active slot ++ [as_Origin status] else ss_Active slot)
    (if as_Installed status then ss_Available slot ++ [as_Origin status] else ss_Available slot).
Fixpoint join_slot (status : AddonStatus) (slots : list AddonSlotStatus) : result addon_error (list AddonSlotStatus) :=
  match slots with
  | [] => Ok [slot_with status (mkSlotStatus (as_Slot status) (as_Mode status) [] [])]
  | slot :: slots =>
      if bool_decide (ss_Slot slot = as_Slot status) then
        if bool_decide (ss_Mode slot = as_Mode status) then Ok (slot_with status slot :: slots) else Err (MixedSlot (as_Slot status))
      else slots ← join_slot status slots; Ok (slot :: slots)
  end.
Fixpoint slots_of (slots : list AddonSlotStatus) (statuses : list AddonStatus) : result addon_error (list AddonSlotStatus) :=
  match statuses with
  | [] => Ok slots
  | status :: statuses =>
      if bool_decide (as_Slot status = "") then slots_of slots statuses
      else slots ← join_slot status slots; slots_of slots statuses
  end.
Definition AddonSlots (app : Application) : A (list AddonSlotStatus) := statuses ← AddonStatuses app; lift (slots_of [] statuses).

(** The applications that are composed with an addon, or that enable it. *)
Definition reads_addons {X} (app : Application) (m : A X) : A X := map_error (AddonsUnread (ap_Origin app)) m.
Fixpoint users_among (origin : string) (apps : list Application) : A (list Application) :=
  match apps with
  | [] => mret []
  | app :: apps =>
      configured ← reads_addons app (loadEnabledAddons app);
      if in_origins origin configured then users ← users_among origin apps; mret (app :: users)
      else
        enabled ← reads_addons app (activeAddonCandidatesFromStore app);
        users ← users_among origin apps;
        mret (if bool_decide (origin ∈ ap_Origin <$> enabled) then app :: users else users)
  end.
Definition addonUsers (origin : string) : A (list Application) :=
  let origin := ToLower origin in
  apps ← from_store GetInstalledApps;
  from_store NewStore ;;;
  users_among origin apps.

(** ** The owner's operations *)

(** What they ask of the rest of the package. *)
Record addonDeps : Type := mkAddonDeps {
  ad_Install : string → A ();
  ad_PrepareApplicationStorage : Application → A ();
  ad_StopContainer : Application → A ()
}.
Context (deps : addonDeps).

Definition save_and_stop (app : Application) (c : addonConfiguration) : A () :=
  saveAddonConfiguration app c ;;;
  ad_PrepareApplicationStorage deps app ;;;
  ad_StopContainer deps app.

Definition enableAddon (app : Application) (origin : string) (chosen : bool) : A () :=
  let origin := normal origin in
  if negb (supportedAddon app origin) && negb chosen then fail (AddonUnsupported origin)
  else
    ad_Install deps origin ;;;
    enabled ← loadEnabledAddons app;
    if bool_decide (origin ∈ enabled) then mret ()
    else
      c ← loadAddonConfiguration app;
      from_store NewStore ;;;
      installed ← installedAddon origin;
      let other := chosen && negb (supportedAddon app origin) in
      save_and_stop app (with_lists c
        (if other then ac_Enabled c else ac_Enabled c ++ [origin])
        (if other then ac_Chosen c ++ [origin] else ac_Chosen c)
        (withoutOrigin (ac_Disabled c) origin)
        match ap_ParsedAddonProvider installed with
        | Some p => if bool_decide (pr_Mode p = AddonSlotExclusive) then <[pr_Slot p := origin]> (ac_Slots c) else ac_Slots c
        | None => ac_Slots c
        end).
Definition EnableAddon (app : Application) (origin : string) : A () := enableAddon app origin false.
Definition EnableChosenAddon (app : Application) (origin : string) : A () := enableAddon app origin true.

Definition DisableAddon (app : Application) (origin : string) : A () :=
  let origin := normal origin in
  from_store NewStore ;;;
  active ← activeAddonCandidatesFromStore app;
  installed ← try (installedAddon origin);
  if negb (bool_decide (origin ∈ ap_Origin <$> active)) then fail (AddonNotEnabled origin)
  else match installed with
  | Err e => fail e
  | Ok installed =>
      c ← loadAddonConfiguration app;
      save_and_stop app (with_lists c (withoutOrigin (ac_Enabled c) origin) (withoutOrigin (ac_Chosen c) origin)
        match ap_ParsedAddonProvider installed with Some _ => ac_Disabled c ++ [origin] | None => ac_Disabled c end
        match ap_ParsedAddonProvider installed with
        | Some p =>
            let selected := default "" (ac_Slots c !! pr_Slot p) in
            if bool_decide (selected = origin) || bool_decide (selected = pr_ID p) then delete (pr_Slot p) (ac_Slots c) else ac_Slots c
        | None => ac_Slots c
        end)
  end.

Definition SelectAddonProvider (app : Application) (slot provider : string) : A () :=
  let slot := normal slot in
  let provider := normal provider in
  statuses ← AddonStatuses app;
  match filter (λ status, as_Slot status = slot ∧ as_Installed status = true ∧
      (as_Origin status = provider ∨ as_Provider status = provider)) statuses with
  | [] => fail (ProviderUnavailable provider slot)
  | [selected] =>
      if negb (bool_decide (as_Mode selected = AddonSlotExclusive)) then fail (SlotMultiple slot)
      else
        c ← loadAddonConfiguration app;
        let supported := supportedAddon app (as_Origin selected) in
        save_and_stop app (with_lists c
          (if supported then ac_Enabled c ++ [as_Origin selected] else ac_Enabled c)
          (if supported then ac_Chosen c else ac_Chosen c ++ [as_Origin selected])
          (withoutOrigin (ac_Disabled c) (as_Origin selected))
          (<[slot := as_Origin selected]> (ac_Slots c)))
  | _ => fail (AmbiguousProvider provider slot)
  end.

(** ** Composition *)
Fixpoint with_components (addons : list Application) : A (list Application) :=
  match addons with
  | [] => mret []
  | addon :: addons => λ s,
      match resolveLayerDependenciesFromStore (apps s) addon with
      | Some (Ok components) => (rest ← with_components addons; mret (components ++ addon :: rest)) s
      | Some (Err e) => (Err (ComponentsUnresolved (ap_Origin addon) (Some e)), s)
      | None => (Err (ComponentsUnresolved (ap_Origin addon) None), s)
      end
  end.
Definition resolveEnabledAddonsFromStore (app : Application) : A (list Application) :=
  active ← activeAddonCandidatesFromStore app; with_components active.
Definition resolveEnabledAddons (app : Application) : A (list Application) :=
  from_store NewStore ;;; resolveEnabledAddonsFromStore app.
End Addons.

Record addonPolicyIdentity : Type := mkIdentity {
  ai_CpakID : string; ai_ImageDigest : string; ai_Layers : list string; ai_Provider : option AddonProvider
}.
Definition addonPolicyIdentities (addons : list Application) : list addonPolicyIdentity :=
  (λ addon, mkIdentity (ap_CpakId addon) (ap_ImageDigest addon) (ap_ParsedLayers addon) (ap_ParsedAddonProvider addon)) <$> addons.

(** ** The environment ([addon_environment.go], [container.go]) *)
Definition environmentValue (environment : list string) (name : string) : string :=
  foldl (λ value variable, if has_prefix (name +:+ "=") variable then trim_prefix (name +:+ "=") variable else value) "" environment.
Definition setEnvironmentValue (environment : list string) (name value : string) : list string :=
  filter (λ variable, has_prefix (name +:+ "=") variable = false) environment ++ [name +:+ "=" +:+ value].

(** The same loop over what was seen as that of the layers. *)
Definition prependEnvironmentPaths (environment : list string) (name : string) (entries : list string) : list string :=
  let current := environmentValue environment name in
  let all := entries ++ (if bool_decide (current = "") then [] else split_byte ":" current) in
  setEnvironmentValue environment name (join ":" (append_layers [] all)).

Definition exported_paths (e : AddonExports) : list (string * list string) :=
  [("PATH", ex_Path e); ("LD_LIBRARY_PATH", ex_LibraryPath e); ("LIBRARY_PATH", ex_LibraryPath e); ("CPATH", ex_IncludePath e);
   ("PKG_CONFIG_PATH", ex_PkgConfigPath e); ("CMAKE_PREFIX_PATH", ex_CMakePrefixPath e)].
Definition addon_path_names : list string :=
  ["PATH"; "LD_LIBRARY_PATH"; "LIBRARY_PATH"; "CPATH"; "PKG_CONFIG_PATH"; "CMAKE_PREFIX_PATH"].
Definition providers (addons : list Application) : list AddonProvider := omap ap_ParsedAddonProvider addons.
Definition exported_under (name : string) (addons : list Application) : list string :=
  providers addons ≫= λ p, concat ((λ x, if bool_decide (x.1 = name) then x.2 else []) <$> exported_paths (pr_Exports p)).

Definition set_variable (environment : list string) (variable : string) : list string :=
  match GoStrings.cut "="%char variable with
  | (name, Some value) => setEnvironmentValue environment name value
  | (_, None) => environment
  end.
Definition applyAddonEnvironment (environment : list string) (addons : list Application) : list string :=
  let environment := foldl (λ environment name,
    match exported_under name addons with
    | [] => environment
    | paths => prependEnvironmentPaths environment name paths
    end) environment addon_path_names in
  foldl set_variable environment (providers addons ≫= λ p, ex_Environment (pr_Exports p)).

(** ** The spelling of an origin *)
Lemma lower_ascii c : ascii_byte c = true → ascii_byte (lower_byte c) = true.
Proof. revert c. by_bytes. Qed.

Section Spelling.
Context {text : NetText}.

Definition lower_of (r : N) : N := if (r <? 128)%N then byte (lower_byte (ascii_of_N r)) else lower_rune r.

Lemma rune_text s x : x ∈ runes s → (x.1 < 128)%N → ∃ c, x = (byte c, String c "") ∧ ascii_byte c = true.
Proof.
  apply (runes_ind (λ s l, x ∈ l → (x.1 < 128)%N → ∃ c, x = (byte c, String c "") ∧ ascii_byte c = true));
    [by intros ?%elem_of_nil|].
  intros [|a t] r w Hne Hd Hw IH; [done|]. intros [->|Hx]%elem_of_cons Hr; [|by apply IH]. cbn [fst] in Hr.
  destruct (ascii_byte a) eqn:Ha.
  - rewrite decode_low in Hd by done. injection Hd as <- <-. by exists a.
  - apply decode_high in Hd as [Hd _]; [lia|done].
Qed.

Lemma lower_char c : ascii_byte c = true → encode_rune (lower_of (byte c)) = lower (String c "").
Proof.
  intros Hc. unfold lower_of. change (byte c <? 128)%N with (ascii_byte c). rewrite Hc. unfold byte at 2. rewrite ascii_N_embedding.
  by rewrite encode_ascii by (by apply lower_ascii).
Qed.

Lemma lower_chars s : str_forall ascii_byte s = true →
  lower s = foldr (λ x acc, encode_rune (lower_of x.1) +:+ acc) "" ((λ c, (byte c, String c "")) <$> String.list_ascii_of_string s).
Proof.
  induction s as [|c s IH]; [done|]. cbn [str_forall]. intros [Hc Hs]%andb_true_iff. cbn [String.list_ascii_of_string fmap list_fmap foldr].
  cbn [fst]. rewrite lower_char, <- IH by done. done.
Qed.

Lemma ToLower_map s : ToLower s = strings_map (λ r, Some (lower_of r)) s.
Proof.
  unfold ToLower, strings_map. destruct (str_forall ascii_byte s) eqn:Hs; [by rewrite lower_chars, runes_ascii|].
  pose proof (rune_text s) as Hr. induction (runes s) as [|x l IH]; [done|]. cbn [fmap list_fmap foldr from_option concat_strings].
  f_equal; [|apply IH; intros y Hy; apply Hr; by right].
  destruct (N.ltb_spec x.1 128) as [H|H].
  - destruct (Hr x ltac:(by left) H) as (c & -> & Hc). cbn [fst snd]. by rewrite lower_char.
  - unfold lower_of. by rewrite (proj2 (N.ltb_ge _ _) H).
Qed.

Lemma valid_normal s : valid_utf8 (normal s) = true.
Proof. unfold normal. rewrite ToLower_map. apply valid_strings_map. Qed.

(** ** Lists of origins *)
Lemma ordered_from_elem seen l x : x ∈ ordered_from seen l ↔ x ≠ "" ∧ x ∉ seen ∧ ∃ y, y ∈ l ∧ x = normal y.
Proof.
  revert seen. induction l as [|y l IH]; intros seen; cbn [ordered_from].
  { split; [by intros ?%elem_of_nil|]. by intros (_ & _ & y & ?%elem_of_nil & _). }
  destruct (bool_decide (normal y = "") || bool_decide (normal y ∈ seen)) eqn:E; bools_in E.
  - rewrite IH. split; intros (H1 & H2 & z & Hz & ->); split_and!; try done.
    + exists z. split; [by right|done].
    + apply elem_of_cons in Hz as [->|Hz]; [tauto|by exists z].
  - rewrite elem_of_cons, IH. split.
    + intros [->|(H1 & H2 & z & Hz & ->)]; [split_and!; [tauto..|exists y; split; [by left|done]]|].
      rewrite elem_of_cons in H2. split_and!; [tauto..|]. exists z. split; [by right|done].
    + intros (H1 & H2 & z & Hz & ->). destruct (decide (normal z = normal y)) as [->|Hne]; [by left|right].
      rewrite elem_of_cons. split_and!; [done|tauto|]. apply elem_of_cons in Hz as [->|Hz]; [done|by exists z].
Qed.

Lemma ordered_from_nodup seen l : NoDup (ordered_from seen l).
Proof.
  revert seen. induction l as [|y l IH]; intros seen; cbn [ordered_from]; [by apply NoDup_nil|].
  case_match; [done|]. apply NoDup_cons. split; [|done]. rewrite ordered_from_elem, elem_of_cons. tauto.
Qed.

Lemma orderedOrigins_elem l x : x ∈ orderedOrigins l ↔ x ≠ "" ∧ ∃ y, y ∈ l ∧ x = normal y.
Proof. unfold orderedOrigins. rewrite ordered_from_elem. pose proof (not_elem_of_nil x). tauto. Qed.

Lemma normalizedOrigins_elem l x : x ∈ normalizedOrigins l ↔ x ≠ "" ∧ ∃ y, y ∈ l ∧ x = normal y.
Proof. unfold normalizedOrigins. by rewrite sort_strings_elem, orderedOrigins_elem. Qed.

Lemma in_origins_elem x l : in_origins x l = true ↔ x ≠ "" ∧ ∃ y, y ∈ l ∧ x = normal y.
Proof. unfold in_origins. by rewrite bool_decide_eq_true, normalizedOrigins_elem. Qed.

Lemma normalized_keeps x l : normal x = x → x ≠ "" → x ∈ l → x ∈ normalizedOrigins l.
Proof. intros Hn Hx Hl. apply normalizedOrigins_elem. eauto. Qed.
End Spelling.

(** ** What the operations leave alone *)
#[local] Existing Instance undisturbed_preorder.

Section Reading.
Context {text : NetText} {E : Engine} {codec : AddonCodec} (home : option string).

(** A computation that changes neither the store nor a file. *)
Definition reading {Er X} (m : SM package_state Er X) : Prop := ∀ s r s', m s = (r, s') → undisturbed s s'.

Lemma reading_lift {Er X} (r : result Er X) : reading (lift r).
Proof. intros s r' s' [= <- <-]. done. Qed.
Lemma reading_ret {Er X} (x : X) : reading (mret x : SM package_state Er X).
Proof. intros s r' s' [= <- <-]. done. Qed.
Lemma reading_fail {Er X} (e : Er) : reading (fail e : SM package_state Er X).
Proof. apply reading_lift. Qed.
Lemma reading_bind {Er X Y} (m : SM package_state Er X) (f : X → SM package_state Er Y) :
  reading m → (∀ x, reading (f x)) → reading (m ≫= f).
Proof.
  intros Hm Hf s r s' [(x & s1 & H1 & H2)|(e & H1 & ->)]%bind_M; [|by eapply Hm].
  etrans; [by eapply Hm|by eapply Hf].
Qed.
Lemma reading_try {Er Er' X} (m : SM package_state Er X) : reading m → reading (try m : SM package_state Er' _).
Proof. intros Hm s r s'. unfold try. destruct (m s) as [r1 s1] eqn:H. intros [= <- <-]. by eapply Hm. Qed.
Lemma reading_map_error {Er Er' X} (f : Er → Er') (m : SM package_state Er X) : reading m → reading (map_error f m).
Proof. intros Hm s r s'. unfold map_error. destruct (m s) as [r1 s1] eqn:H. intros [= <- <-]. by eapply Hm. Qed.

Lemma reading_engine {X} (f : engine → X) : reading (engine_read f).
Proof.
  intros s r s'. unfold engine_read. destruct (next_fault (st_world s)) as [b w] eqn:Ef. intros [= _ <-].
  by apply fault_step in Ef as [? _].
Qed.
Lemma reading_file path : reading (on_files (read_or_missing path)).
Proof.
  intros s r s'. unfold on_files, read_or_missing. destruct (next_fault (st_world s)) as [b w] eqn:Ef. intros [= _ <-].
  by apply fault_step in Ef as [? _].
Qed.
Lemma reading_store : reading NewStore.
Proof.
  intros s r s'. unfold NewStore, may_fail. destruct (next_fault (st_world s)) as [b w] eqn:Ef. intros [= _ <-].
  by apply fault_step in Ef as [? _].
Qed.

Create HintDb reads.
#[local] Hint Resolve reading_lift reading_ret reading_fail reading_bind reading_try reading_map_error
  reading_engine reading_file reading_store : reads.
Ltac reads := repeat first
  [apply reading_bind; [|intros ?] | apply reading_lift | apply reading_ret | apply reading_fail | apply reading_try
  | apply reading_map_error | apply reading_engine | apply reading_file | apply reading_store | case_match].

Lemma reading_load app : reading (loadAddonConfiguration home app).
Proof. unfold loadAddonConfiguration, from_store. reads. Qed.
Lemma reading_application origin branch : reading (GetApplication origin branch).
Proof. unfold GetApplication, from_store, GetApplicationByOrigin, GetApplicationsByOrigin. reads. Qed.
Lemma reading_installed origin : reading (installedAddon origin).
Proof. unfold installedAddon. reads; apply reading_application. Qed.
Lemma reading_gather app c origins : reading (gather app c origins).
Proof.
  induction origins as [|origin origins IH]; cbn [gather]; [apply reading_ret|].
  case_match; [exact IH|]. apply reading_bind; [apply reading_try, reading_installed|]. intros [addon|e]; reads; exact IH.
Qed.
Lemma reading_active app : reading (activeAddonCandidatesFromStore home app).
Proof.
  unfold activeAddonCandidatesFromStore. apply reading_bind; [apply reading_load|]. intros c. reads. apply reading_gather.
Qed.
Lemma reading_enabled app : reading (loadEnabledAddons home app).
Proof. unfold loadEnabledAddons. apply reading_bind; [apply reading_load|]. intros c. reads. Qed.
Lemma reading_statuses active origins : reading (statuses active origins).
Proof.
  induction origins as [|origin origins IH]; cbn [statuses]; [apply reading_ret|].
  apply reading_bind; [apply reading_try, reading_installed|]. intros found. apply reading_bind; [exact IH|]. intros. apply reading_ret.
Qed.
Lemma reading_status app : reading (AddonStatuses home app).
Proof.
  unfold AddonStatuses, from_store. apply reading_bind; [reads|]. intros _. apply reading_bind; [apply reading_active|].
  intros active. apply reading_bind; [apply reading_load|]. intros c. apply reading_statuses.
Qed.

(** ** The file *)

(** What the file of an application says. *)
Definition configuration_of (n : option node) : result addon_error addonConfiguration :=
  match n with
  | None => Ok no_addons
  | Some (File _ _ data) =>
      match decode_addons data with
      | None => Err ConfigurationUndecoded
      | Some c =>
          if bool_decide (ac_Version c ∈ [1%Z; 2%Z; addonConfigurationVersion]) then Ok c else Err (ConfigurationVersion (ac_Version c))
      end
  | Some _ => Err (StoreError (FileFailed Failed))
  end.
Definition configured (app : Application) (s : package_state) (c : addonConfiguration) : Prop :=
  ∃ path, addonConfigurationPath home app = Ok path ∧ configuration_of (files s !! path) = Ok c.

Lemma configured_files app s s' c : files s = files s' → configured app s c → configured app s' c.
Proof. unfold configured. by intros ->. Qed.

Lemma configured_unique app s c c' : configured app s c → configured app s c' → c = c'.
Proof. intros (p & H1 & H2) (p' & H1' & H2'). congruence. Qed.

Lemma load_spec app s r s' :
  loadAddonConfiguration home app s = (r, s') →
  undisturbed s s' ∧ (∀ c, r = Ok c → configured app s c) ∧ (quiet_state s → ∀ c, configured app s c → r = Ok c).
Proof.
  intros H. split; [by eapply reading_load|]. unfold loadAddonConfiguration in H. rewrite bind_lift in H.
  unfold configured. destruct (addonConfigurationPath home app) as [path|e] eqn:Ep.
  2: { injection H as <- <-. split; [done|]. intros _ c (p & ? & _). done. }
  unfold from_store in H. rewrite bind_map_error in H. unfold on_files, read_or_missing in H.
  destruct (next_fault (st_world s)) as [b w] eqn:Ef. apply fault_step in Ef as [_ Hb]. cbn zeta iota in H.
  destruct b; [split; [injection H as <- <-; done|intros Hq; discriminate (Hb Hq)]|].
  assert (r = configuration_of (files s !! path)) as ->.
  { unfold files, configuration_of. destruct (w_fs (st_world s) !! path) as [[]|]; cbn in H;
      repeat case_match; injection H as <- <-; congruence || done. }
  split; [by intros c Hc; exists path|]. by intros _ c (p & [= <-] & Hc).
Qed.
End Reading.

(** ** Writing the file *)
Section Writing.
Context {text : NetText} {E : Engine} {codec : AddonCodec} (home : option string).

Definition configuration_strings (c : addonConfiguration) : list string :=
  ac_Enabled c ++ ac_Chosen c ++ ac_Disabled c ++ (map_to_list (ac_Slots c)).*1 ++ (map_to_list (ac_Slots c)).*2.
Definition writable (c : addonConfiguration) : Prop := Forall (λ s, valid_utf8 s = true) (configuration_strings c).

(** JSON keeps what is UTF-8, and a map is walked once through. *)
Class AddonCodecLaws : Prop := {
  decode_encode_addons : ∀ c, writable c → decode_addons (encode_addons c +:+ String "010" "") = Some c;
  walk_once : ∀ m, walk m ≡ₚ map_to_list m
}.
Context {laws : AddonCodecLaws}.

Lemma normalized_valid l : Forall (λ s, valid_utf8 s = true) (normalizedOrigins l).
Proof. apply Forall_forall. intros x (_ & y & _ & ->)%normalizedOrigins_elem. apply valid_normal. Qed.

Lemma normalized_slots_lookup slots k v :
  normalized_slots slots !! k = Some v → (∃ k', k = normal k') ∧ (∃ v', v = normal v').
Proof.
  unfold normalized_slots. enough (∀ l (m : gmap string string), (∀ k v, m !! k = Some v → (∃ k', k = normal k') ∧ (∃ v', v = normal v')) →
    ∀ k v, foldl (λ m '(slot, provider), if bool_decide (normal slot = "") || bool_decide (normal provider = "") then m
      else <[normal slot := normal provider]> m) m l !! k = Some v → (∃ k', k = normal k') ∧ (∃ v', v = normal v')) as He.
  { apply He. intros k' v'. by rewrite lookup_empty. }
  clear. induction l as [|[slot provider] l IH]; intros m Hm; [exact Hm|]. cbn [foldl]. apply IH. case_match; [exact Hm|].
  intros k v [[<- <-]|[_ H']]%lookup_insert_Some; [split; by eexists|by eapply Hm].
Qed.

Lemma normalized_writable c : writable (normalized_configuration c).
Proof.
  unfold writable, configuration_strings, normalized_configuration. cbn [ac_Enabled ac_Chosen ac_Disabled ac_Slots].
  rewrite !Forall_app. split_and!; try apply normalized_valid;
    apply Forall_forall; intros x ([k v] & -> & H%elem_of_map_to_list)%list_elem_of_fmap;
    apply normalized_slots_lookup in H as [(k' & ->) (v' & ->)]; apply valid_normal.
Qed.

Definition writes_or_not (path data : string) (m : M file_error ()) : Prop :=
  ∀ w r w', m w = (r, w') →
    (∃ uid, w_fs w' = <[path := File uid 384 data]> (w_fs w)) ∨ (r ≠ Ok () ∧ w_fs w' = w_fs w).

Lemma rename_over_spec path n w r w' :
  rename_over path n w = (r, w') → w_fs w' = match r with Ok _ => <[path := n]> (w_fs w) | Err _ => w_fs w end.
Proof.
  unfold rename_over. destruct (next_fault w) as [b w0] eqn:Ef. apply next_fault_spec in Ef as [[Hf _] _].
  repeat case_match; intros [= <- <-]; cbn; congruence.
Qed.

Lemma after_rename path data : writes_or_not path data (rename_new path data 384 ;;; call ;;; call).
Proof.
  intros w r w' [([] & w1 & H1 & H2)|(e & H1 & ->)]%bind_M; apply rename_over_spec in H1; [left|by right].
  exists (w_uid w). rewrite <- H1. apply bind_M in H2 as [([] & w2 & H2 & H3)|(e & H2 & ->)].
  - apply call_spec in H2 as [[Hf2 _] _], H3 as [[Hf3 _] _]. by rewrite Hf3, Hf2.
  - by apply call_spec in H2 as [[Hf2 _] _].
Qed.

Lemma after_call path data m : writes_or_not path data m → writes_or_not path data (call ;;; m).
Proof.
  intros Hm w r w' [([] & w1 & H1 & H2)|(e & H1 & ->)]%bind_M; apply call_spec in H1 as [[Hf _] _].
  - apply Hm in H2. by rewrite Hf in H2.
  - by right.
Qed.

Lemma save_spec app c s r s' path :
  saveAddonConfiguration home app c s = (r, s') → addonConfigurationPath home app = Ok path →
  st_engine s' = st_engine s ∧
  (configured home app s' (normalized_configuration c) ∨
   (r ≠ Ok () ∧ ∀ n, files s !! path = Some n → files s' !! path = Some n)).
Proof using laws.
  unfold saveAddonConfiguration. rewrite bind_lift. intros H Hp. rewrite Hp in H. unfold from_store, map_error in H.
  destruct (on_files _ s) as [r1 s1] eqn:E1. injection H as <- <-. apply on_files_step in E1 as (r0 & H & He & ->).
  split; [exact He|]. unfold files.
  assert (∀ w, grown (dir path) (w_fs (st_world s)) (w_fs w) → ∀ n, w_fs (st_world s) !! path = Some n → w_fs w !! path = Some n) as Hkeep.
  { intros w [Hg|(Hn & uid & mode & Hg)] n Hl; rewrite Hg; [exact Hl|]. rewrite lookup_insert_ne; [exact Hl|]. intros Ed. congruence. }
  apply bind_M in H as [([] & w1 & H1 & H2)|(e & H1 & ->)]; apply mkdir_all_grows in H1 as (Hg & _).
  - assert (writes_or_not path (encode_addons (normalized_configuration c) +:+ String "010" "")
      (call ;;; call ;;; call ;;; call ;;; call ;;;
       rename_new path (encode_addons (normalized_configuration c) +:+ String "010" "") 384 ;;; call ;;; call)) as Hw
      by (do 5 apply after_call; apply after_rename).
    apply Hw in H2 as [(u & Hf)|(Hr & Hf)].
    + left. exists path. split; [done|]. unfold files. rewrite Hf, lookup_insert_eq. cbn.
      by rewrite decode_encode_addons by apply normalized_writable.
    + right. split; [by destruct r0 as [[]|]|]. intros n Hl. rewrite Hf. by apply (Hkeep w1).
  - right. split; [done|]. by apply Hkeep.
Qed.
End Writing.

(** ** An addon the manifest no longer offers *)
Section Wedge.
Context {text : NetText} {E : Engine} {codec : AddonCodec} {laws : AddonCodecLaws} (home : option string) (deps : addonDeps).

(** Installing an addon, preparing the storage and stopping a container do not touch the
    file of the owner. *)
Definition leaves_choice (app : Application) (m : SM package_state addon_error ()) : Prop :=
  ∀ s r s' path, m s = (r, s') → addonConfigurationPath home app = Ok path → files s' !! path = files s !! path.
Record deps_leave_choice (app : Application) : Prop := {
  install_leaves : ∀ origin, leaves_choice app (ad_Install deps origin);
  prepare_leaves : ∀ app', leaves_choice app (ad_PrepareApplicationStorage deps app');
  stop_leaves : ∀ app', leaves_choice app (ad_StopContainer deps app')
}.

(** What the owner can ask, and anything that leaves the file alone. *)
Inductive owner_step (app : Application) : package_state → package_state → Prop :=
  | step_enable origin chosen s r s' : enableAddon home deps app origin chosen s = (r, s') → owner_step app s s'
  | step_disable origin s r s' : DisableAddon home deps app origin s = (r, s') → owner_step app s s'
  | step_select slot provider s r s' : SelectAddonProvider home deps app slot provider s = (r, s') → owner_step app s s'
  | step_other s s' : (∀ path, addonConfigurationPath home app = Ok path → files s' !! path = files s !! path) → owner_step app s s'.

Definition enabled_in_file (app : Application) (origin : string) (s : package_state) : Prop :=
  ∃ c, configured home app s c ∧ origin ∈ ac_Enabled c.

Lemma enabled_same app origin s s' :
  (∀ path, addonConfigurationPath home app = Ok path → files s' !! path = files s !! path) →
  enabled_in_file app origin s → enabled_in_file app origin s'.
Proof. intros H (c & (p & Hp & Hc) & Hin). exists c. split; [|done]. exists p. by rewrite H. Qed.

Lemma enabled_undisturbed app origin s s' : undisturbed s s' → enabled_in_file app origin s → enabled_in_file app origin s'.
Proof. intros (_ & [Hf _] & _). apply enabled_same. intros path _. unfold files. by rewrite Hf. Qed.

Lemma enabled_load app origin s c s' :
  loadAddonConfiguration home app s = (Ok c, s') → enabled_in_file app origin s → enabled_in_file app origin s' ∧ origin ∈ ac_Enabled c.
Proof.
  intros (Hu & Hc & _)%load_spec He. split; [by eapply enabled_undisturbed|]. destruct He as (c' & Hc' & Hin).
  by rewrite (configured_unique _ _ _ _ _ (Hc _ eq_refl) Hc').
Qed.

Lemma dropped_addon_fails app origin s r s' :
  supportedAddon app origin = false → enabled_in_file app origin s →
  activeAddonCandidatesFromStore home app s = (r, s') → ∃ e, r = Err e.
Proof.
  intros Hs He. unfold activeAddonCandidatesFromStore. intros [(c & s1 & H1 & H2)|(e & _ & ->)]%bind_M; [|by exists e].
  apply enabled_load with (origin := origin) in H1 as [_ Hin]; [|done].
  destruct (dropped_addon app c) as [o|] eqn:Ed; [injection H2 as <- _; by eexists|].
  unfold dropped_addon in Ed. apply find_none with (x := origin) in Ed; [|by apply list_elem_of_In]. by rewrite Hs in Ed.
Qed.

Lemma save_and_stop_enabled app origin c s r s' :
  deps_leave_choice app → normal origin = origin → origin ≠ "" → origin ∈ ac_Enabled c →
  enabled_in_file app origin s → save_and_stop home deps app c s = (r, s') → enabled_in_file app origin s'.
Proof using laws.
  intros Hd Hn Hne Hin He. unfold save_and_stop. intros H.
  assert (∀ r1 s1, saveAddonConfiguration home app c s = (r1, s1) → enabled_in_file app origin s1) as Hsave.
  { intros r1 s1 H1. destruct He as (c0 & (path & Hp & Hc0) & Hin0). destruct (save_spec home app c s r1 s1 path H1 Hp) as [_ [H2|[_ H2]]].
    - exists (normalized_configuration c). split; [done|]. by apply normalized_keeps.
    - exists c0. split; [|done]. exists path. split; [done|]. destruct (files s !! path) as [n|] eqn:El; [by rewrite (H2 n)|].
      cbn in Hc0. injection Hc0 as <-. by apply not_elem_of_nil in Hin0. }
  apply bind_M in H as [([] & s1 & H1 & H)|(e & H1 & ->)]; [|by eapply Hsave].
  apply Hsave in H1. apply bind_M in H as [([] & s2 & H2 & H)|(e & H2 & ->)].
  - apply (enabled_same _ _ s2); [intros path; exact (stop_leaves _ Hd _ _ _ _ path H)|].
    apply (enabled_same _ _ s1); [intros path; exact (prepare_leaves _ Hd _ _ _ _ path H2)|done].
  - apply (enabled_same _ _ s1); [intros path; exact (prepare_leaves _ Hd _ _ _ _ path H2)|done].
Qed.

Lemma bind_reading {Er X Y} app origin (m : SM package_state Er X) (f : X → SM package_state Er Y) s r s' :
  reading m → (m ≫= f) s = (r, s') → enabled_in_file app origin s →
  (enabled_in_file app origin s') ∨ (∃ x s1, enabled_in_file app origin s1 ∧ f x s1 = (r, s')).
Proof.
  intros Hm [(x & s1 & H1 & H2)|(e & H1 & _)]%bind_M He; apply Hm in H1; [right; exists x, s1; split; [|done]|left];
    by eapply enabled_undisturbed.
Qed.

Lemma owner_step_enabled app origin s s' :
  deps_leave_choice app → normal origin = origin → origin ≠ "" → supportedAddon app origin = false →
  owner_step app s s' → enabled_in_file app origin s → enabled_in_file app origin s'.
Proof using laws.
  intros Hd Hn Hne Hsup Hstep He. destruct Hstep as [o chosen s r s' H|o s r s' H|slot provider s r s' H|s s' H]; [| | |by eapply enabled_same].
  - unfold enableAddon in H. destruct (_ && _); [by injection H as <- <-|].
    apply bind_M in H as [([] & s1 & H1 & H)|(e & H1 & ->)];
      apply (enabled_same _ _ _ _ (λ path, install_leaves _ Hd _ _ _ _ path H1)) in He; [|exact He]. clear H1.
    apply (bind_reading app origin) in H as [?|(enabled & s2 & He2 & H)]; [done| |apply reading_enabled|done]. case_bool_decide; [by injection H as <- <-|].
    apply bind_M in H as [(c & s3 & H1 & H)|(e & H1 & ->)];
      [|eapply enabled_undisturbed; [by eapply reading_load|done]].
    apply enabled_load with (origin := origin) in H1 as [He3 Hin]; [|done].
    apply (bind_reading app origin) in H as [?|([] & s4 & He4 & H)]; [done| |exact (reading_map_error _ _ reading_store)|done].
    apply (bind_reading app origin) in H as [?|(installed & s5 & He5 & H)]; [done| |apply reading_installed|done].
    revert H. apply save_and_stop_enabled; try done. cbn [with_lists ac_Enabled]. case_match; [done|]. apply elem_of_app. by left.
  - unfold DisableAddon in H.
    apply (bind_reading app origin) in H as [?|([] & s1 & He1 & H)]; [done| |exact (reading_map_error _ _ reading_store)|done].
    apply bind_M in H as [(l & s2 & H1 & H)|(e & H1 & ->)]; [|eapply enabled_undisturbed; [by eapply reading_active|done]].
    apply dropped_addon_fails with (origin := origin) in H1 as [? [=]]; done.
  - unfold SelectAddonProvider in H. apply bind_M in H as [(l & s2 & H1 & H)|(e & H1 & ->)];
      [|eapply enabled_undisturbed; [by eapply reading_status|done]].
    unfold AddonStatuses in H1. apply bind_M_ok in H1 as ([] & s3 & H0 & H1).
    apply (enabled_undisturbed _ _ _ _ (reading_map_error _ _ reading_store _ _ _ H0)) in He.
    apply bind_M_ok in H1 as (active & s4 & H1 & _).
    apply dropped_addon_fails with (origin := origin) in H1 as [? [=]]; done.
Qed.

(** An enabled addon that the manifest stops offering blocks the application.  As
    long as the file of the owner enables an addon the manifest does not offer, its
    addons cannot be resolved, and nothing the owner can do about addons changes that:
    no sequence of enabling, enabling past the manifest, disabling and selecting, of
    this or any other addon and whatever calls fail on the way, takes the addon out of
    the file. *)
Theorem dropped_addon_blocks app origin s s' r s'' :
  deps_leave_choice app → normal origin = origin → origin ≠ "" → supportedAddon app origin = false →
  enabled_in_file app origin s → rtc (owner_step app) s s' →
  resolveEnabledAddons home app s' = (r, s'') → enabled_in_file app origin s' ∧ ∃ e, r = Err e.
Proof using laws.
  intros Hd Hn Hne Hsup He Hrtc H. assert (enabled_in_file app origin s') as He'.
  { clear H. induction Hrtc as [|s s1 s' Hstep _ IH]; [done|]. by apply IH; eapply owner_step_enabled. }
  split; [done|]. unfold resolveEnabledAddons in H. apply bind_M in H as [([] & s1 & H1 & H)|(e & _ & ->)]; [|by exists e].
  apply (enabled_undisturbed _ _ _ _ (reading_map_error _ _ reading_store _ _ _ H1)) in He'.
  unfold resolveEnabledAddonsFromStore in H. apply bind_M in H as [(l & s2 & H2 & _)|(e & _ & ->)]; [|by exists e].
  apply dropped_addon_fails with (origin := origin) in H2 as [? [=]]; done.
Qed.
End Wedge.

(** ** Slots *)
Section Slots.
Context {text : NetText}.

(** A group holds candidates of its slot and mode, and slots are not repeated. *)
Definition in_group (c : candidate) (g : slotGroup) : Prop :=
  ∃ p, provider_of c = Some p ∧ pr_Slot p = sg_Slot g ∧ pr_Mode p = sg_Mode g.
Definition grouped (groups : list slotGroup) : Prop :=
  NoDup (sg_Slot <$> groups) ∧ ∀ g c, g ∈ groups → c ∈ sg_Candidates g → in_group c g.
Definition held_by (c : candidate) (groups : list slotGroup) : Prop := ∃ g, g ∈ groups ∧ c ∈ sg_Candidates g.

Lemma join_group_spec p c groups groups' :
  provider_of c = Some p → grouped groups → join_group (pr_Slot p) (pr_Mode p) c groups = Ok groups' →
  grouped groups' ∧ (∀ c', held_by c' groups' ↔ c' = c ∨ held_by c' groups) ∧
  (∀ slot, slot ∈ sg_Slot <$> groups' ↔ slot = pr_Slot p ∨ slot ∈ sg_Slot <$> groups).
Proof.
  intros Hp. revert groups'. induction groups as [|g groups IH]; intros groups' [Hnd Hin]; cbn [join_group].
  - intros [= <-]. split; [|split].
    + split; [by apply NoDup_singleton|]. intros g c' ->%list_elem_of_singleton Hc'. cbn in Hc'. apply list_elem_of_singleton in Hc' as ->. by exists p.
    + intros c'. split.
      * intros (g & ->%list_elem_of_singleton & Hc). cbn in Hc. left. by apply list_elem_of_singleton in Hc.
      * intros [->|(g & ?%elem_of_nil & _)]; [|done]. exists (mkGroup (pr_Slot p) (pr_Mode p) [c]). split; left.
    + intros slot. cbn. rewrite list_elem_of_singleton. pose proof (not_elem_of_nil slot). tauto.
  - case_bool_decide as Hs; [case_bool_decide as Hm; [|done]|].
    + intros [= <-]. split; [|split].
      * split; [by rewrite <- Hs|]. intros g' c' [->|Hg']%elem_of_cons; [|by apply Hin; right].
        cbn [sg_Candidates]. intros [Hc'| ->%list_elem_of_singleton]%elem_of_app; [|by exists p].
        destruct (Hin g c' ltac:(by left) Hc') as (q & ? & ? & ?). exists q. cbn. split_and!; congruence.
      * intros c'. unfold held_by. setoid_rewrite elem_of_cons. split.
        -- intros (g' & [->|Hg'] & Hc'); [|right; by exists g'; split; [right|]].
           cbn in Hc'. apply elem_of_app in Hc' as [Hc'|Hc'%list_elem_of_singleton]; [right; by exists g; split; [left|]|by left].
        -- intros [->|(g' & [->|Hg'] & Hc')]; [exists (mkGroup (pr_Slot p) (pr_Mode p) (sg_Candidates g ++ [c])); (split; [by left|]); apply elem_of_app; right; left| |].
           ++ exists (mkGroup (pr_Slot p) (pr_Mode p) (sg_Candidates g ++ [c])). split; [by left|]. apply elem_of_app. by left.
           ++ exists g'. split; [by right|done].
      * intros slot. cbn [fmap list_fmap sg_Slot]. rewrite !elem_of_cons. split; [intros [->|?]; [by left|by right; right]|].
        intros [->|[->|?]]; [by left|left; congruence|by right].
    + destruct (join_group _ _ _ groups) as [groups1|e] eqn:Ej; [|done]. intros [= <-].
      apply NoDup_cons in Hnd as [Hg Hnd].
      destruct (IH groups1) as ([Hnd1 Hin1] & Hheld & Hslots); [split; [done|]; intros; apply Hin; [by right|done]|done|].
      split; [|split].
      * split.
        -- cbn [fmap list_fmap]. apply NoDup_cons. split; [|done]. rewrite Hslots. intros [?|?]; done.
        -- intros g' c' [->|Hg']%elem_of_cons Hc'; [apply Hin; [by left|done]|by apply Hin1].
      * intros c'. unfold held_by in *. setoid_rewrite elem_of_cons. split.
        -- intros (g' & [->|Hg'] & Hc'); [right; by exists g; split; [left|]|].
           destruct (proj1 (Hheld c')) as [->|(g2 & ? & ?)]; [by exists g'|by left|]. right. exists g2. split; [by right|done].
        -- intros [->|(g' & [->|Hg'] & Hc')].
           ++ destruct (proj2 (Hheld c)) as (g2 & ? & ?); [by left|]. exists g2. split; [by right|done].
           ++ exists g. split; [by left|done].
           ++ destruct (proj2 (Hheld c')) as (g2 & ? & ?); [right; by exists g'|]. exists g2. split; [by right|done].
      * intros slot. cbn [fmap list_fmap]. rewrite !elem_of_cons, Hslots. tauto.
Qed.

Lemma group_candidates_spec candidates groups groups' :
  grouped groups → group_candidates groups candidates = Ok groups' →
  grouped groups' ∧ (∀ c, held_by c groups' ↔ (c ∈ candidates ∧ provider_of c ≠ None) ∨ held_by c groups).
Proof.
  revert groups. induction candidates as [|c candidates IH]; intros groups Hg; cbn [group_candidates].
  - intros [= <-]. split; [done|]. intros c. pose proof (not_elem_of_nil c). tauto.
  - destruct (provider_of c) as [p|] eqn:Hp.
    + destruct (join_group _ _ _ _) as [groups1|e] eqn:Ej; [|done]. intros H.
      destruct (join_group_spec p c groups groups1 Hp Hg Ej) as (Hg1 & Hh & _).
      destruct (IH groups1 Hg1 H) as [Hg' Hh']. split; [done|]. intros c'. rewrite Hh', Hh, elem_of_cons.
      assert (c' = c → provider_of c' ≠ None) by (intros ->; by rewrite Hp). tauto.
    + intros H. destruct (IH groups Hg H) as [Hg' Hh']. split; [done|]. intros c'. rewrite Hh', elem_of_cons.
      assert (c' = c → provider_of c' = None) by (by intros ->). tauto.
Qed.

Lemma find_selected_elem slot selection selected candidates c :
  find_selected slot selection selected candidates = Ok (Some c) → selected = Some c ∨ (c ∈ candidates ∧ names_candidate selection c = true).
Proof.
  revert selected. induction candidates as [|x l IH]; intros selected; cbn [find_selected]; [intros [= ->]; by left|].
  destruct (names_candidate selection x) eqn:Ex.
  - destruct selected; [done|]. intros [[= ->]|[? ?]]%IH; right; (split; [|done]); [by left|by right].
  - intros [?|[? ?]]%IH; [by left|right; split; [by right|done]].
Qed.

(** A group of one provider at a time activates one of its candidates. *)
Lemma active_in_group_spec slots g origins :
  active_in_group slots g = Ok origins →
  (∀ o, o ∈ origins → ∃ c, c ∈ sg_Candidates g ∧ origin_of c = o) ∧
  (sg_Mode g = AddonSlotMultiple → origins = origin_of <$> sg_Candidates g) ∧
  (sg_Mode g ≠ AddonSlotMultiple → length origins ≤ 1 ∧ (sg_Candidates g ≠ [] → origins ≠ [])).
Proof.
  assert (∀ c, c ∈ sg_Candidates g → ∀ o, o ∈ [origin_of c] → ∃ c, c ∈ sg_Candidates g ∧ origin_of c = o) as Hone
    by (intros c Hc o ->%list_elem_of_singleton; by exists c).
  unfold active_in_group. case_bool_decide as Hm.
  { intros [= <-]. split; [|done]. by intros o (c & -> & Hc)%list_elem_of_fmap; exists c. }
  case_bool_decide; cbn [negb].
  - destruct (List.find _ _) as [c|] eqn:Ef; intros [= <-].
    + apply find_elem in Ef as [Hc _]. split; [by apply Hone|]. split; [done|]. intros _. by split; [cbn; lia|].
    + split; [intros o (c & -> & Hc)%list_elem_of_fmap; exists c; split; [|done]; by eapply elem_of_take in Hc as (i & Hc & _); eapply list_elem_of_lookup_2|].
      split; [done|]. intros _. rewrite length_fmap, length_take. split; [lia|]. by destruct (sg_Candidates g).
  - destruct (find_selected _ _ _ _) as [[c|]|e] eqn:Ef; intros [= <-].
    apply find_selected_elem in Ef as [?|[Hc _]]; [done|]. split; [by apply Hone|]. split; [done|]. intros _. by split; [cbn; lia|].
Qed.

Lemma active_in_groups_elem slots groups origins o :
  active_in_groups slots groups = Ok origins →
  o ∈ origins ↔ ∃ g active, g ∈ groups ∧ active_in_group slots g = Ok active ∧ o ∈ active.
Proof.
  revert origins. induction groups as [|g groups IH]; intros origins; cbn [active_in_groups].
  { intros [= <-]. split; [by intros ?%elem_of_nil|]. by intros (g & a & ?%elem_of_nil & _). }
  destruct (active_in_group slots g) as [active|e] eqn:Ea; [|done].
  destruct (active_in_groups slots groups) as [rest|e] eqn:Er; [|done]. intros [= <-].
  rewrite elem_of_app, (IH rest eq_refl). split.
  - intros [Ho|(g' & a & ? & ? & ?)]; [exists g, active; split_and!; [by left|done..]|exists g', a; split_and!; [by right|done..]].
  - intros (g' & a & [->|Hg]%elem_of_cons & Ha & Ho); [left; congruence|right; eauto].
Qed.

Lemma active_in_groups_ok slots groups origins g :
  active_in_groups slots groups = Ok origins → g ∈ groups → ∃ active, active_in_group slots g = Ok active.
Proof.
  revert origins. induction groups as [|g' groups IH]; intros origins; cbn [active_in_groups]; [by intros _ ?%elem_of_nil|].
  destruct (active_in_group slots g') as [active|e] eqn:Ea; [|done].
  destruct (active_in_groups slots groups) as [rest|e] eqn:Er; [|done]. intros _ [->|Hg]%elem_of_cons; eauto.
Qed.

(** The groups may be walked in any order: the same origins are active, and there is an
    answer in one order exactly when there is one in another. *)
Lemma groups_any_order slots groups groups' origins :
  groups ≡ₚ groups' → active_in_groups slots groups = Ok origins →
  ∃ origins', active_in_groups slots groups' = Ok origins' ∧ origins ≡ₚ origins'.
Proof.
  intros Hp. revert origins. induction Hp as [|g l l' _ IH|g g' l|l l' l'' _ IH1 _ IH2]; intros origins; cbn [active_in_groups].
  - intros [= <-]. by exists [].
  - destruct (active_in_group slots g) as [a|]; [|done]. destruct (active_in_groups slots l) as [rest|]; [|done]. intros [= <-].
    destruct (IH rest eq_refl) as (rest' & -> & Hr). exists (a ++ rest'). split; [done|]. by rewrite Hr.
  - destruct (active_in_group slots g) as [a|], (active_in_group slots g') as [a'|], (active_in_groups slots l) as [rest|]; try done.
    cbn. intros [= <-]. eexists. split; [done|]. rewrite !(assoc_L (++)). by rewrite (comm (++) a).
  - intros (o' & H1 & Hp1)%IH1. apply IH2 in H1 as (o'' & H2 & Hp2). exists o''. split; [done|]. by etrans.
Qed.

(** What is selected among candidates whose origins differ. *)
Lemma select_active_spec slots candidates l :
  NoDup (origin_of <$> candidates) → select_active slots candidates = Ok l →
  ∃ active, l = cd_application <$> active ∧ active `sublist_of` candidates ∧
    (∀ c, c ∈ candidates → provider_of c = None → c ∈ active) ∧
    (∀ c p, c ∈ candidates → provider_of c = Some p → pr_Mode p = AddonSlotMultiple → c ∈ active) ∧
    (∀ c p, c ∈ candidates → provider_of c = Some p →
       ∃ c' p', c' ∈ active ∧ provider_of c' = Some p' ∧ pr_Slot p' = pr_Slot p) ∧
    (∀ c c' p p', c ∈ active → c' ∈ active → provider_of c = Some p → provider_of c' = Some p' →
       pr_Slot p = pr_Slot p' → pr_Mode p = pr_Mode p' ∧ (pr_Mode p ≠ AddonSlotMultiple → c = c')).
Proof.
  intros Hnd. unfold select_active. destruct (group_candidates [] candidates) as [groups|e] eqn:Eg; [|done].
  cbn [mbind result_bind]. destruct (active_in_groups slots groups) as [provided|e] eqn:Ep; [|done]. intros [= <-].
  apply group_candidates_spec in Eg as [[Hs Hin] Hheld]; [|split; [by apply NoDup_nil|by intros ? ? ?%elem_of_nil]].
  assert (∀ c, held_by c groups ↔ c ∈ candidates ∧ provider_of c ≠ None) as Hh.
  { intros c. rewrite Hheld. split; [|by left]. intros [?|(g & ?%elem_of_nil & _)]; done. }
  clear Hheld. assert (∀ c c', c ∈ candidates → c' ∈ candidates → origin_of c = origin_of c' → c = c') as Hinj.
  { intros c c' [i Hi]%list_elem_of_lookup [j Hj]%list_elem_of_lookup Ho.
    assert (i = j) as -> by (eapply (NoDup_lookup _ _ _ (origin_of c) Hnd); rewrite list_lookup_fmap; [by rewrite Hi|by rewrite Hj, Ho]). congruence. }
  set (plain := origin_of <$> filter (λ c, provider_of c = None) candidates).
  assert (∀ c, c ∈ candidates → provider_of c ≠ None → origin_of c ∈ plain ++ provided →
    ∃ g a, g ∈ groups ∧ c ∈ sg_Candidates g ∧ active_in_group slots g = Ok a ∧ origin_of c ∈ a) as Hgroup.
  { intros c Hc Hne [(c' & Ho & [Hn Hc']%list_elem_of_filter)%list_elem_of_fmap|Ho]%elem_of_app.
    - by rewrite (Hinj _ _ Hc Hc' Ho) in Hne.
    - apply (active_in_groups_elem _ _ _ _ Ep) in Ho as (g & a & Hg & Ha & Ho). exists g, a. split_and!; [done| |done..].
      apply active_in_group_spec in Ha as [Ha _]. destruct (Ha _ Ho) as (c' & Hc' & Ho').
      rewrite (Hinj c c'); [done|done| |done]. apply Hh. by exists g. }
  exists (filter (λ c, origin_of c ∈ plain ++ provided) candidates). split; [done|]. split; [apply sublist_filter|]. split_and!.
  - intros c Hc Hn. apply list_elem_of_filter. split; [|done]. apply elem_of_app. left. apply list_elem_of_fmap. exists c. split; [done|].
    by apply list_elem_of_filter.
  - intros c p Hc Hp Hm. apply list_elem_of_filter. split; [|done]. apply elem_of_app. right.
    destruct (proj2 (Hh c)) as (g & Hg & Hcg); [by rewrite Hp|]. destruct (Hin _ _ Hg Hcg) as (q & Hq & Hqs & Hqm).
    destruct (active_in_groups_ok _ _ _ _ Ep Hg) as [a Ha]. apply (active_in_groups_elem _ _ _ _ Ep). exists g, a. split_and!; [done..|].
    apply active_in_group_spec in Ha as (_ & Ha & _). rewrite Ha by congruence. by apply list_elem_of_fmap_2.
  - intros c p Hc Hp. destruct (proj2 (Hh c)) as (g & Hg & Hcg); [by rewrite Hp|]. destruct (Hin _ _ Hg Hcg) as (q & Hq & Hqs & Hqm).
    destruct (active_in_groups_ok _ _ _ _ Ep Hg) as [a Ha]. pose proof (active_in_group_spec _ _ _ Ha) as (Ha1 & Ha2 & Ha3).
    assert (a ≠ []) as Hne.
    { destruct (decide (sg_Mode g = AddonSlotMultiple)) as [Hm|Hm]; [rewrite (Ha2 Hm)|]; [|apply Ha3; [done|]]; by destruct (sg_Candidates g); [apply elem_of_nil in Hcg|]. }
    destruct a as [|o a]; [done|]. destruct (Ha1 o ltac:(by left)) as (c' & Hc' & Ho'). destruct (Hin _ _ Hg Hc') as (p' & Hp' & Hps & _).
    exists c', p'. split_and!; [|done|congruence]. apply list_elem_of_filter. split; [|by apply Hh; exists g].
    apply elem_of_app. right. apply (active_in_groups_elem _ _ _ _ Ep). exists g, (o :: a). split_and!; [done..|]. rewrite Ho'. by left.
  - intros c c' p p' [Ho Hc]%list_elem_of_filter [Ho' Hc']%list_elem_of_filter Hp Hp' Hslot.
    destruct (Hgroup c) as (g & a & Hg & Hcg & Ha & Hoa); [done|by rewrite Hp|done|].
    destruct (Hgroup c') as (g' & a' & Hg' & Hcg' & Ha' & Hoa'); [done|by rewrite Hp'|done|].
    destruct (Hin _ _ Hg Hcg) as (q & Hq & Hqs & Hqm), (Hin _ _ Hg' Hcg') as (q' & Hq' & Hqs' & Hqm').
    assert (g = g') as <-.
    { apply list_elem_of_lookup in Hg as [i Hi], Hg' as [j Hj].
      assert (i = j) as -> by (eapply (NoDup_lookup _ _ _ (sg_Slot g) Hs); rewrite list_lookup_fmap; [by rewrite Hi|rewrite Hj; cbn; congruence]).
      congruence. }
    split; [congruence|]. intros Hm. apply Hinj; [done..|]. assert (a' = a) as -> by congruence.
    apply active_in_group_spec in Ha as (_ & _ & Ha). destruct Ha as [Hl _]; [congruence|].
    destruct a as [|o [|o2 a]]; [by apply elem_of_nil in Hoa| |cbn in Hl; lia].
    apply list_elem_of_singleton in Hoa, Hoa'. congruence.
Qed.
End Slots.

(** ** What is active *)
Section Active.
Context {text : NetText} {E : Engine} {elaws : EngineLaws E} {codec : AddonCodec} {laws : AddonCodecLaws} (home : option string) (deps : addonDeps).

Lemma application_spec origin branch s a s' :
  GetApplication origin branch s = (Ok a, s') → ap_Origin a = origin ∧ ∃ k, apps s !! k = Some a.
Proof using elaws.
  unfold GetApplication, from_store, map_error. destruct (GetApplicationByOrigin _ _ _ _ _ s) as [r s1] eqn:H1.
  intros [= Hr _]. destruct r as [a'|]; [|done]. injection Hr as ->.
  unfold GetApplicationByOrigin, GetApplicationsByOrigin in H1. apply bind_M_ok in H1 as (found & s2 & H1 & H2).
  apply bind_M_ok in H1 as (all & s3 & H1 & H3). injection H3 as <- <-.
  unfold engine_read in H1. destruct (next_fault (st_world s)) as [[] w]; [done|]. injection H1 as <- _.
  destruct (filter _ _) as [|a' l] eqn:Ef; [done|]. injection H2 as -> _.
  assert (a ∈ filter (λ app, selects "" branch "" "" app = true) (GetByIndex origin (st_engine s))) as [_ Ha]%list_elem_of_filter
    by (rewrite Ef; by left).
  apply index_spec in Ha as (k & Hk & Ho). split; [done|]. by exists k.
Qed.

Lemma installed_spec origin s a s' :
  installedAddon origin s = (Ok a, s') → ap_Origin a = origin ∧ ∃ k, apps s !! k = Some a.
Proof using elaws.
  unfold installedAddon. rewrite bind_try. destruct (GetApplication origin "main" s) as [[b|e] s1] eqn:H1.
  - case_bool_decide.
    + intros H2. pose proof (reading_application _ _ _ _ _ H1) as (He & _). apply application_spec in H2. unfold apps in *. by rewrite He in H2.
    + intros [= -> <-]. by apply application_spec in H1.
  - intros H2. pose proof (reading_application _ _ _ _ _ H1) as (He & _). apply application_spec in H2. unfold apps in *. by rewrite He in H2.
Qed.

Lemma sublist_map {X Y} (f : X → Y) (l k : list X) : l `sublist_of` k → f <$> l `sublist_of` f <$> k.
Proof using Type. induction 1; by econstructor. Qed.

Definition admissible (app : Application) (c : addonConfiguration) (s : package_state) (cand : candidate) : Prop :=
  (∃ k, apps s !! k = Some (cd_application cand)) ∧
  in_origins (origin_of cand) (ac_Disabled c) = false ∧
  cd_explicit cand = explicit_addon c (origin_of cand) ∧
  (supportedAddon app (origin_of cand) = true ∨ in_origins (origin_of cand) (ac_Chosen c) = true) ∧
  (provider_of cand = None → cd_explicit cand = true).

Lemma gather_spec app c origins s candidates s' :
  gather app c origins s = (Ok candidates, s') →
  origin_of <$> candidates `sublist_of` origins ∧ ∀ cand, cand ∈ candidates → admissible app c s cand.
Proof using elaws.
  revert s candidates s'. induction origins as [|origin origins IH]; intros s candidates s'; cbn [gather].
  { intros [= <- <-]. split; [done|]. by intros cand ?%elem_of_nil. }
  assert (∀ s1, undisturbed s s1 → ∀ l s2, gather app c origins s1 = (Ok l, s2) →
    origin_of <$> l `sublist_of` origins ∧ ∀ cand, cand ∈ l → admissible app c s cand) as Hrest.
  { intros s1 (He & _) l s2 [H1 H2]%IH. split; [done|]. intros cand Hc. apply H2 in Hc. unfold admissible, apps in *. by rewrite He in Hc. }
  destruct (in_origins origin (ac_Disabled c)) eqn:Hd.
  { intros [H1 H2]%IH. split; [by apply sublist_cons|done]. }
  rewrite bind_try. destruct (installedAddon origin s) as [[a|e] s1] eqn:Hi; pose proof (reading_installed _ _ _ _ Hi) as Hu.
  2: { case_match; [done|]. intros [H1 H2]%(Hrest _ Hu). split; [by apply sublist_cons|done]. }
  case_bool_decide; [case_match; [done|]; intros [H1 H2]%(Hrest _ Hu); split; [by apply sublist_cons|done]|].
  destruct (bool_decide _ && _) eqn:Hp; [intros [H1 H2]%(Hrest _ Hu); split; [by apply sublist_cons|done]|].
  destruct (negb (supportedAddon _ _) && _) eqn:Hs; [intros [H1 H2]%(Hrest _ Hu); split; [by apply sublist_cons|done]|].
  intros (rest & s2 & H1 & [= <- <-])%bind_M_ok. apply (Hrest _ Hu) in H1 as [H1 H2].
  apply installed_spec in Hi as [Ho Hk]. split.
  - cbn [fmap list_fmap]. unfold origin_of at 1. cbn [cd_application]. rewrite Ho. by apply sublist_skip.
  - intros cand [->|Hc]%elem_of_cons; [|by apply H2]. unfold admissible, origin_of, provider_of. cbn [cd_application cd_explicit]. rewrite Ho.
    split_and!; [done|done|done| |].
    + apply andb_false_iff in Hs as [Hs|Hs]; apply negb_false_iff in Hs; auto.
    + intros Hn. rewrite bool_decide_eq_true_2 in Hp by done. by apply negb_false_iff in Hp.
Qed.

(** C21: The addons an application is composed with.  Whatever the store holds, an addon is
    active only if it is installed, the owner has not disabled it, the manifest offers
    it or the owner chose it, and, when it provides no slot, the owner enabled it; no
    addon is active twice; all that are active in a slot share its mode, and in a slot
    that takes one provider at most one is. *)
Theorem active_addons_bounded app s l s' :
  activeAddonCandidatesFromStore home app s = (Ok l, s') →
  ∃ c, configured home app s c ∧ NoDup (ap_Origin <$> l) ∧
    (∀ a, a ∈ l → (∃ k, apps s !! k = Some a) ∧ in_origins (ap_Origin a) (ac_Disabled c) = false ∧
       (supportedAddon app (ap_Origin a) = true ∨ in_origins (ap_Origin a) (ac_Chosen c) = true) ∧
       (ap_ParsedAddonProvider a = None → explicit_addon c (ap_Origin a) = true)) ∧
    (∀ a b p q, a ∈ l → b ∈ l → ap_ParsedAddonProvider a = Some p → ap_ParsedAddonProvider b = Some q →
       pr_Slot p = pr_Slot q → pr_Mode p = pr_Mode q ∧ (pr_Mode p ≠ AddonSlotMultiple → a = b)).
Proof using elaws.
  unfold activeAddonCandidatesFromStore. intros (c & s1 & (Hu & Hc & _)%load_spec & H)%bind_M_ok.
  exists c. split; [by apply Hc|]. destruct (dropped_addon app c); [done|].
  apply bind_M_ok in H as (candidates & s2 & H1 & H2). injection H2 as H2 _.
  apply gather_spec in H1 as [Hsub Hadm].
  assert (NoDup (origin_of <$> candidates)) as Hnd by (eapply sublist_NoDup; [apply (ordered_from_nodup [])|exact Hsub]).
  apply select_active_spec in H2 as (active & -> & Hact & _ & _ & _ & Hslot); [|done].
  assert (∀ cand, cand ∈ active → cand ∈ candidates) as Hin by (intros cand ?; by eapply elem_of_sublist).
  split; [|split].
  - rewrite <- list_fmap_compose. eapply sublist_NoDup; [exact Hnd|]. by apply sublist_map.
  - intros a (cand & -> & Hcand)%list_elem_of_fmap. destruct (Hadm cand (Hin _ Hcand)) as (Hk & Hd & He & Hs & Hp).
    destruct Hu as (Heng & _). unfold apps in *. rewrite Heng in Hk. unfold origin_of, provider_of in *. rewrite He in Hp. done.
  - intros a b p q (ca & -> & Ha)%list_elem_of_fmap (cb & -> & Hb)%list_elem_of_fmap Hp Hq Hpq.
    destruct (Hslot ca cb p q Ha Hb Hp Hq Hpq) as [Hm Hone]. split; [done|]. intros Hne. by rewrite (Hone Hne).
Qed.

(** ** Disabling *)
Lemma quiet_read {X} (f : engine → X) s : quiet_state s → engine_read f s = (Ok (f (st_engine s)), s).
Proof.
  intros Hq. unfold engine_read. destruct (next_fault (st_world s)) as [b w] eqn:Ef.
  apply next_fault_spec in Ef as [_ Ef]. destruct (Ef Hq) as [-> ->]. by destruct s.
Qed.

Lemma quiet_application origin branch s : quiet_state s →
  GetApplication origin branch s =
    (match filter (λ app, selects "" branch "" "" app = true) (GetByIndex origin (st_engine s)) with
     | app :: _ => Ok app
     | [] => Err (StoreError (NotInstalled origin))
     end, s).
Proof.
  intros Hq. unfold GetApplication, from_store, map_error, GetApplicationByOrigin, GetApplicationsByOrigin, mbind, M_bind.
  rewrite quiet_read by done. cbn. by destruct (filter _ _).
Qed.

Lemma quiet_installed origin s t :
  quiet_state s → quiet_state t → GetByIndex origin (st_engine t) = GetByIndex origin (st_engine s) →
  (installedAddon origin t).1 = (installedAddon origin s).1.
Proof.
  intros Hs Ht He. unfold installedAddon. rewrite !bind_try, !quiet_application, He by done.
  destruct (filter _ _); [by rewrite !quiet_application, He|]. case_bool_decide; [by rewrite !quiet_application, He|done].
Qed.

Lemma gather_without app c origins o s candidates s' :
  quiet_state s → gather app c origins s = (Ok candidates, s') →
  (in_origins o (ac_Disabled c) = true ∨
   (explicit_addon c o = false ∧ ∀ a, (installedAddon o s).1 = Ok a → ap_ParsedAddonProvider a = None)) →
  ∀ cand, cand ∈ candidates → origin_of cand ≠ o.
Proof using elaws.
  intros Hq H Ho cand Hc. revert candidates s' H Hc. induction origins as [|origin origins IH]; intros candidates s'; cbn [gather].
  { intros [= <- _]. by intros ?%elem_of_nil. }
  destruct (in_origins origin (ac_Disabled c)) eqn:Hd; [apply IH|].
  rewrite bind_try. destruct (installedAddon origin s) as [r s1] eqn:Hi.
  pose proof (undisturbed_quiet _ _ (reading_installed _ _ _ _ Hi) Hq) as ->.
  destruct r as [a|e]; [|case_match; [done|apply IH]]. case_bool_decide; [case_match; [done|apply IH]|].
  destruct (bool_decide _ && _) eqn:Hp; [apply IH|]. destruct (negb (supportedAddon _ _) && _) eqn:Hs; [apply IH|].
  intros (rest & s2 & H1 & [= <- <-])%bind_M_ok [->|Hc]%elem_of_cons; [|by eapply IH].
  pose proof (installed_spec _ _ _ _ Hi) as [Hoa _]. unfold origin_of. cbn [cd_application]. rewrite Hoa. intros ->.
  destruct Ho as [Ho|[Hx Hn]]; [congruence|]. rewrite Hi in Hn. rewrite bool_decide_eq_true_2, Hx in Hp by (by apply Hn). done.
Qed.

Lemma without_origin_elem l o x : Forall (λ y, normal y = y) l → x ∈ withoutOrigin l o → x ∈ l ∧ x ≠ o.
Proof.
  intros Hl. unfold withoutOrigin. rewrite list_elem_of_filter, normalizedOrigins_elem. intros (Hne & _ & y & Hy & ->).
  rewrite Forall_forall in Hl. rewrite (Hl y Hy) in *. done.
Qed.

(** C23: A disabled addon stays out.  When disabling an addon is done, the application is
    composed without it from then on, for as long as the file of the owner and what is
    installed under its origin stay as they are, whether it provides a slot, which
    would make it active unasked, or not. *)
Theorem disabled_addon_inactive app o c s s' t l t' :
  deps_leave_choice home deps app → normal o = o → o ≠ "" →
  quiet_state s → configured home app s c → Forall (λ x, normal x = x) (ac_Enabled c ++ ac_Chosen c) →
  DisableAddon home deps app o s = (Ok (), s') →
  quiet_state t → (∀ path, addonConfigurationPath home app = Ok path → files t !! path = files s' !! path) →
  GetByIndex o (st_engine t) = GetByIndex o (st_engine s) →
  activeAddonCandidatesFromStore home app t = (Ok l, t') → o ∉ ap_Origin <$> l.
Proof using elaws laws.
  intros Hd Hn Hne Hq Hc Hnorm H Hqt Hfiles Hidx Hact.
  unfold DisableAddon in H. rewrite Hn in H.
  apply bind_M_ok in H as ([] & s1 & H1 & H). pose proof (undisturbed_quiet _ _ (reading_map_error _ _ reading_store _ _ _ H1) Hq) as ->.
  apply bind_M_ok in H as (active & s2 & H2 & H). pose proof (undisturbed_quiet _ _ (reading_active _ _ _ _ _ H2) Hq) as ->.
  rewrite bind_try in H. destruct (installedAddon o s) as [r s3] eqn:Hi.
  pose proof (undisturbed_quiet _ _ (reading_installed _ _ _ _ Hi) Hq) as ->.
  case_bool_decide; cbn [negb] in H; [|done]. destruct r as [inst|]; [|done].
  apply bind_M_ok in H as (c0 & s4 & H3 & H). pose proof (undisturbed_quiet _ _ (reading_load _ _ _ _ _ H3) Hq) as ->.
  apply load_spec in H3 as (_ & H3 & _). pose proof (configured_unique _ _ _ _ _ (H3 _ eq_refl) Hc) as ->. clear H3.
  match type of H with save_and_stop _ _ _ ?X _ = _ => set (changed := X) in H end.
  assert (configured home app s' (normalized_configuration changed)) as Hnew.
  { unfold save_and_stop in H. apply bind_M_ok in H as ([] & u1 & E1 & H). apply bind_M_ok in H as ([] & u2 & E2 & H).
    destruct Hc as (path & Hp & _). destruct (save_spec home app changed s (Ok ()) u1 path E1 Hp) as [_ [(p & Hp' & Hcf)|[Hx _]]]; [|done].
    exists p. split; [done|]. rewrite (stop_leaves _ _ _ Hd _ _ _ _ p H Hp'), (prepare_leaves _ _ _ Hd _ _ _ _ p E2 Hp'). done. }
  assert (configured home app t (normalized_configuration changed)) as Hnewt.
  { destruct Hnew as (p & Hp & Hcf). exists p. by rewrite Hfiles. }
  unfold activeAddonCandidatesFromStore in Hact. apply bind_M_ok in Hact as (c1 & t1 & E1 & Hact).
  pose proof (undisturbed_quiet _ _ (reading_load _ _ _ _ _ E1) Hqt) as ->. apply load_spec in E1 as (_ & E1 & _).
  pose proof (configured_unique _ _ _ _ _ (E1 _ eq_refl) Hnewt) as ->. clear E1.
  destruct (dropped_addon app _); [done|]. apply bind_M_ok in Hact as (candidates & t2 & E2 & E3). injection E3 as E3 _.
  pose proof (gather_spec _ _ _ _ _ _ E2) as [Hsub _].
  assert (NoDup (origin_of <$> candidates)) as Hnd by (eapply sublist_NoDup; [apply (ordered_from_nodup [])|exact Hsub]).
  apply select_active_spec in E3 as (act & -> & Hsubl & _); [|done].
  intros (a & Ho & (cand & -> & Hcand)%list_elem_of_fmap)%list_elem_of_fmap.
  assert (cand ∈ candidates) as Hcand' by (by eapply elem_of_sublist).
  eapply (gather_without app (normalized_configuration changed) _ o t candidates t2 Hqt E2); [|exact Hcand'|done].
  destruct (ap_ParsedAddonProvider inst) as [p|] eqn:Hp.
  - left. apply in_origins_elem. split; [done|]. exists o. split; [|done]. cbn [normalized_configuration ac_Disabled].
    apply normalized_keeps; [done|done|]. unfold changed. cbn [with_lists ac_Disabled]. apply elem_of_app. right. by left.
  - right. split.
    + apply not_true_iff_false. unfold explicit_addon. rewrite in_origins_elem. cbn [normalized_configuration ac_Enabled ac_Chosen].
      apply Forall_app in Hnorm as [Hn1 Hn2].
      assert (∀ l, Forall (λ x, normal x = x) l → ∀ y, y ∈ normalizedOrigins (withoutOrigin l o) → normal y = y ∧ y ≠ o) as Hy.
      { intros l0 Hl0 y (_ & z & Hz & ->)%normalizedOrigins_elem. apply without_origin_elem in Hz as [Hz Hzo]; [|done].
        rewrite Forall_forall in Hl0. by rewrite !(Hl0 z Hz). }
      intros (_ & y & [Hy1|Hy1]%elem_of_app & Eo); [destruct (Hy _ Hn1 _ Hy1)|destruct (Hy _ Hn2 _ Hy1)]; congruence.
    + intros a Ha. rewrite (quiet_installed o s t Hq Hqt Hidx), Hi in Ha. injection Ha as <-. done.
Qed.
End Active.

(** ** The users of an addon *)
Section Users.
Context {text : NetText} {E : Engine} {codec : AddonCodec} {laws : AddonCodecLaws} (home : option string).

Lemma reading_users origin l : reading (users_among home origin l).
Proof using Type.
  induction l as [|app l IH]; cbn [users_among]; [apply reading_ret|].
  apply reading_bind; [apply reading_map_error, reading_enabled|]. intros configured. case_match.
  - apply reading_bind; [exact IH|]. intros. apply reading_ret.
  - apply reading_bind; [apply reading_map_error, reading_active|]. intros active.
    apply reading_bind; [exact IH|]. intros. apply reading_ret.
Qed.
Lemma reading_addonUsers origin : reading (addonUsers home origin).
Proof using Type.
  unfold addonUsers, from_store, GetInstalledApps.
  apply reading_bind; [apply reading_map_error, reading_bind; [apply reading_store|intros; apply reading_engine]|]. intros l.
  apply reading_bind; [apply reading_map_error, reading_store|]. intros _. apply reading_users.
Qed.

(** An application that is asked about has an answer of its own, or is a user. *)
Lemma users_dropped origin app o l s users s' :
  app ∈ l → supportedAddon app o = false → enabled_in_file home app o s →
  users_among home origin l s = (Ok users, s') → users ≠ [].
Proof using Type.
  intros Happ Hs. revert s users s'. induction l as [|app' l IH]; intros s users s' He; cbn [users_among]; unfold reads_addons;
    [by apply elem_of_nil in Happ|].
  intros (configured & s1 & H1 & H2)%bind_M_ok.
  apply (enabled_undisturbed _ _ _ _ _ (reading_map_error _ _ (reading_enabled _ _) _ _ _ H1)) in He. case_match.
  { apply bind_M_ok in H2 as (rest & s2 & _ & H2). by injection H2 as <- _. }
  apply bind_M_ok in H2 as (active & s2 & H2 & H3).
  pose proof (enabled_undisturbed _ _ _ _ _ (reading_map_error _ _ (reading_active _ _) _ _ _ H2) He) as He2.
  apply bind_M_ok in H3 as (rest & s3 & H3 & H4). injection H4 as <- _. apply elem_of_cons in Happ as [<-|Happ].
  - unfold map_error in H2. destruct (activeAddonCandidatesFromStore home app s1) as [r s4] eqn:Ea.
    apply dropped_addon_fails with (origin := o) in Ea as [e ->]; [|done..]. discriminate H2.
  - apply IH in H3; [|done..]. by case_match.
Qed.

(** What is left out of the users of an addon neither enables it nor is composed with it. *)
Lemma users_elem origin l s users s' app :
  users_among home origin l s = (Ok users, s') → app ∈ l → app ∉ users →
  ∃ s1 r s2 active s3, undisturbed s s1 ∧ loadEnabledAddons home app s1 = (Ok r, s2) ∧ in_origins origin r = false ∧
    activeAddonCandidatesFromStore home app s2 = (Ok active, s3) ∧ origin ∉ ap_Origin <$> active.
Proof using Type.
  revert s users s'. induction l as [|app' l IH]; intros s users s'; cbn [users_among]; [by intros _ ?%elem_of_nil|].
  unfold reads_addons. intros (configured & s1 & H1 & H2)%bind_M_ok Happ Hout.
  pose proof (reading_map_error _ _ (reading_enabled _ _) _ _ _ H1) as Hu1.
  assert (∀ s2 rest s3, undisturbed s s2 → users_among home origin l s2 = (Ok rest, s3) → app ∈ l → app ∉ rest →
    ∃ s1 r s2 active s3, undisturbed s s1 ∧ loadEnabledAddons home app s1 = (Ok r, s2) ∧ in_origins origin r = false ∧
      activeAddonCandidatesFromStore home app s2 = (Ok active, s3) ∧ origin ∉ ap_Origin <$> active) as Hlater.
  { intros s2 rest s3 Hu Hr Hin Hn. destruct (IH _ _ _ Hr Hin Hn) as (t1 & r & t2 & a & t3 & Ht & Hrest).
    exists t1, r, t2, a, t3. split; [by etrans|done]. }
  unfold map_error in H1. destruct (loadEnabledAddons home app' s) as [r0 s0] eqn:E0. injection H1 as Hr0 ->.
  destruct r0 as [r0|]; [|done]. injection Hr0 as ->. destruct (in_origins origin configured) eqn:Ein.
  - apply bind_M_ok in H2 as (rest & s2 & H2 & H3). injection H3 as <- <-. apply not_elem_of_cons in Hout as [Hne Hout].
    apply elem_of_cons in Happ as [->|Happ]; [done|]. by eapply Hlater.
  - apply bind_M_ok in H2 as (active & s2 & H2 & H3).
    pose proof (reading_map_error _ _ (reading_active _ _) _ _ _ H2) as Hu2. unfold map_error in H2.
    destruct (activeAddonCandidatesFromStore home app' s1) as [r1 s4] eqn:E1. injection H2 as Hr1 ->.
    destruct r1 as [r1|]; [|done]. injection Hr1 as ->.
    apply bind_M_ok in H3 as (rest & s3 & H3 & H4). injection H4 as <- <-.
    assert (app ∈ l ∧ app ∉ rest ∨ app = app' ∧ origin ∉ ap_Origin <$> active) as [[Hin Hn]|[-> Hn]].
    { apply elem_of_cons in Happ. case_bool_decide; [apply not_elem_of_cons in Hout|]; destruct Happ as [->|Happ]; tauto. }
    + eapply (Hlater s2); [by etrans|exact H3|done..].
    + exists s, configured, s1, active, s2. done.
Qed.
End Users.

(** ** Examples *)

(** A codec: the binary digits of a number that stands for the configuration. *)
#[export] Instance configuration_eq_dec : EqDecision addonConfiguration.
Proof. solve_decision. Defined.
#[export] Instance configuration_countable : Countable addonConfiguration.
Proof.
  refine (inj_countable' (λ c, (ac_Version c, ac_Enabled c, ac_Chosen c, ac_Disabled c, ac_Slots c))
    (λ '(v, e, c, d, s), mkAddons v e c d s) _). by intros [].
Defined.
Fixpoint binary (p : positive) : string :=
  match p with xH => "" | xO p => String "0" (binary p) | xI p => String "1" (binary p) end.
Fixpoint of_binary (s : string) : positive :=
  match s with
  | "" => xH
  | String c s => if bool_decide (c = "0"%char) then xO (of_binary s) else if bool_decide (c = "1"%char) then xI (of_binary s) else xH
  end.
Lemma of_binary_spec p rest : of_binary (binary p +:+ String "010" rest) = p.
Proof. induction p as [p IH|p IH|]; [..|done]; cbn; by f_equal. Qed.
#[export] Instance addon_codec_example : AddonCodec := {|
  encode_addons c := binary (encode c);
  decode_addons s := decode (of_binary s);
  walk := map_to_list
|}.
#[export] Instance addon_codec_laws_example : AddonCodecLaws.
Proof.
  split; [|done]. intros c _. unfold decode_addons, encode_addons, addon_codec_example. rewrite of_binary_spec. apply countable.decode_encode.
Qed.

Definition nothing_exported : AddonExports := mkExports [] [] [] [] [] [].
Definition addon_app (id origin : string) (addons : list string) (provider : option AddonProvider) : Application :=
  mkApplication id id "1" "main" "" "" origin "" "" "" "" [] [] [] [] [] addons provider 0 [] NewOverride false "".
Definition renderer (id : string) : option AddonProvider := Some (mkProvider id "gl" AddonSlotExclusive nothing_exported).
Definition swift : Application := addon_app "s" "h/a/s" [] (renderer "swift").
Definition metal : Application := addon_app "m" "h/a/m" [] (renderer "metal").
Definition themes : Application := addon_app "t" "h/a/t" [] None.
Definition game : Application := addon_app "g" "h/a/g" ["h/a/s"; "H/A/M"; "h/a/t"] None.

Definition home_example : option string := Some "/h".
Definition game_file : string := "/h/.config/cpak/addons/h/a/g/branch-main/addons.json".
Definition addons_state (configuration : option addonConfiguration) : package_state :=
  mkState (mkWorld (match configuration with
    | Some c => {[ game_file := File 1000 384 (encode_addons c +:+ String "010" "") ]}
    | None => ∅
    end) 1000 []) (list_to_map ((λ a, (ap_CpakId a, a)) <$> [swift; metal; themes; game])).
Definition addon_deps_example : addonDeps := mkAddonDeps (λ _, mret ()) (λ _, mret ()) (λ _, mret ()).
Lemma addon_deps_leave app : deps_leave_choice home_example addon_deps_example app.
Proof. split; intros ?; by intros s r s' path [= <- <-] _. Qed.

(** Without a choice of the owner the first provider of the slot is active, and the addon
    that provides none is not. *)
Example default_provider :
  (activeAddonCandidatesFromStore home_example game (addons_state None)).1 = Ok [swift].
Proof. by vm_compute. Qed.

Lemma active_addons_bounded_witness :
  ∃ s', activeAddonCandidatesFromStore home_example game (addons_state None) = (Ok [swift], s') ∧
    ∃ c, configured home_example game (addons_state None) c ∧ NoDup (ap_Origin <$> [swift]).
Proof.
  assert ((activeAddonCandidatesFromStore home_example game (addons_state None)).1 = Ok [swift]) as H by (vm_compute; reflexivity).
  destruct (activeAddonCandidatesFromStore home_example game (addons_state None)) as [r s'] eqn:E1. cbn in H. subst r.
  exists s'. split; [done|].
  destruct (active_addons_bounded home_example game (addons_state None) [swift] s' E1) as (c & H1 & H2 & _).
  exists c. by split.
Defined.

Definition game_without_themes : Application := addon_app "g" "h/a/g" ["h/a/s"] None.
Definition themes_enabled : addonConfiguration := mkAddons 3 ["h/a/t"] [] [] ∅.

(** The manifest stops offering the themes; the owner disables them, and selects another
    provider. *)
Lemma dropped_addon_blocks_witness :
  let s0 := addons_state (Some themes_enabled) in
  let s1 := (DisableAddon home_example addon_deps_example game_without_themes "h/a/t" s0).2 in
  let s2 := (SelectAddonProvider home_example addon_deps_example game_without_themes "gl" "swift" s1).2 in
  ∃ e, (resolveEnabledAddons home_example game_without_themes s2).1 = Err e.
Proof.
  intros s0 s1 s2.
  destruct (resolveEnabledAddons home_example game_without_themes s2) as [r s3] eqn:E1. cbn [fst].
  refine (proj2 (dropped_addon_blocks home_example addon_deps_example game_without_themes "h/a/t" s0 s2 r s3
    (addon_deps_leave _) _ _ _ _ _ E1)).
  - by vm_compute.
  - done.
  - by vm_compute.
  - exists themes_enabled. split; [|by left]. exists game_file. split; [by vm_compute|].
    unfold s0, addons_state, files. cbn [st_world w_fs]. rewrite lookup_singleton_eq. unfold configuration_of.
    rewrite decode_encode_addons; [by vm_compute|]. repeat constructor.
  - apply (rtc_l _ _ s1); [|apply rtc_once].
    + apply (step_disable _ _ _ "h/a/t" _ (DisableAddon home_example addon_deps_example game_without_themes "h/a/t" s0).1). apply surjective_pairing.
    + apply (step_select _ _ _ "gl" "swift" _ (SelectAddonProvider home_example addon_deps_example game_without_themes "gl" "swift" s1).1). apply surjective_pairing.
Defined.

Lemma disabled_addon_inactive_witness :
  let s := (DisableAddon home_example addon_deps_example game "h/a/s" (addons_state None)).2 in
  ∃ l s', activeAddonCandidatesFromStore home_example game s = (Ok l, s') ∧ "h/a/s" ∉ ap_Origin <$> l.
Proof.
  intros s.
  assert (match (activeAddonCandidatesFromStore home_example game s).1 with Ok l => ap_Origin <$> l | Err _ => [] end = ["h/a/m"]) as H
    by (vm_compute; reflexivity).
  destruct (activeAddonCandidatesFromStore home_example game s) as [[l|e] s'] eqn:E1; [|discriminate H].
  exists l, s'. split; [done|].
  refine (disabled_addon_inactive home_example addon_deps_example game "h/a/s" no_addons (addons_state None) s s l s'
    (addon_deps_leave _) _ _ _ _ _ _ _ _ _ E1).
  - by vm_compute.
  - done.
  - done.
  - exists game_file. split; [by vm_compute|]. by vm_compute.
  - constructor.
  - assert ((DisableAddon home_example addon_deps_example game "h/a/s" (addons_state None)).1 = Ok ()) as Hd by (vm_compute; reflexivity).
    unfold s. destruct (DisableAddon _ _ _ _ _) as [r s2]. cbn in Hd. by subst r.
  - by vm_compute.
  - done.
  - by vm_compute.
Defined.

(** Enabling a provider again is done and does not select it: the other one stays. *)
Lemma enabled_again_unselected :
  let enable := EnableAddon home_example addon_deps_example game in
  let s := (enable "h/a/m" (addons_state None)).2 in
  let s := (enable "h/a/s" s).2 in
  let '(r, s) := enable "h/a/m" s in
  r = Ok () ∧ (activeAddonCandidatesFromStore home_example game s).1 = Ok [swift].
Proof. by vm_compute. Qed.

(** ** The environment *)
Section Environment.

(** The name of a variable does not have the byte that ends it. *)
Definition plain_name (name : string) : bool := negb (has_byte "="%char name).
Definition sets (name variable : string) : bool := has_prefix (name +:+ "=") variable.

Lemma sets_one n m v : plain_name n = true → plain_name m = true → sets n v = true → sets m v = true → n = m.
Proof using Type.
  unfold sets. rewrite !has_prefix_iff. intros Hn Hm (t & ->) (u & H). revert m Hm H.
  induction n as [|c n IH]; intros [|d m] Hm H; [done| | |].
  - injection H as <- _. by cbn in Hm.
  - injection H as -> _. by cbn in Hn.
  - unfold plain_name in *. rewrite has_byte_cons in Hn, Hm. cbn in H. injection H as -> H. f_equal. apply IH; [|..|exact H].
    + by destruct (has_byte "="%char n); [rewrite orb_true_r in Hn|].
    + by destruct (has_byte "="%char m); [rewrite orb_true_r in Hm|].
Qed.

Lemma value_same n l l' v : 
  filter (λ x, sets n x = true) l = filter (λ x, sets n x = true) l' →
  foldl (λ value variable, if sets n variable then trim_prefix (n +:+ "=") variable else value) v l =
  foldl (λ value variable, if sets n variable then trim_prefix (n +:+ "=") variable else value) v l'.
Proof using Type.
  assert (∀ k w, foldl (λ value variable, if sets n variable then trim_prefix (n +:+ "=") variable else value) w k =
    foldl (λ _ variable, trim_prefix (n +:+ "=") variable) w (filter (λ x, sets n x = true) k)) as H.
  { induction k as [|x k IH]; intros w; [done|]. rewrite filter_cons. cbn [foldl]. rewrite IH.
    destruct (sets n x) eqn:E; [by rewrite decide_True|by rewrite decide_False]. }
  by rewrite !H; intros ->.
Qed.

Lemma value_set env name value : environmentValue (setEnvironmentValue env name value) name = value.
Proof using Type.
  unfold environmentValue, setEnvironmentValue. rewrite foldl_app. cbn [foldl].
  rewrite <- app_assoc_str, has_prefix_app. by rewrite trim_prefix_app.
Qed.
Lemma value_other env name other value : plain_name name = true → plain_name other = true → name ≠ other →
  environmentValue (setEnvironmentValue env name value) other = environmentValue env other.
Proof using Type.
  intros Hn Ho Hne. unfold environmentValue, setEnvironmentValue. apply (value_same other).
  rewrite filter_app, list_filter_filter. replace (filter _ [_]) with (@nil string).
  - rewrite app_nil_r. apply list_filter_iff. intros x. split; [tauto|]. intros Hx. split; [done|].
    apply not_true_iff_false. intros Hy. apply Hne. by eapply sets_one.
  - rewrite filter_cons, decide_False; [done|]. intros Hx. apply Hne. eapply sets_one; [done|done| |exact Hx].
    unfold sets. rewrite <- app_assoc_str. apply has_prefix_app.
Qed.

Lemma split_value env name entries :
  environmentValue (prependEnvironmentPaths env name entries) name =
    join ":" (append_layers [] (entries ++ (if bool_decide (environmentValue env name = "") then [] else split_byte ":" (environmentValue env name)))).
Proof using Type. unfold prependEnvironmentPaths. apply value_set. Qed.

Definition prepend_paths (addons : list Application) (environment : list string) (name : string) : list string :=
  match exported_under name addons with [] => environment | paths => prependEnvironmentPaths environment name paths end.

Lemma prepended_other addons names env other : Forall (λ n, plain_name n = true) names → plain_name other = true → other ∉ names →
  environmentValue (foldl (prepend_paths addons) env names) other = environmentValue env other.
Proof using Type.
  intros Hn Ho. revert env. induction Hn as [|n names Hn _ IH]; intros env Hout; [done|]. apply not_elem_of_cons in Hout as [Hne Hout].
  cbn [foldl]. rewrite IH by done. unfold prepend_paths. destruct (exported_under n addons); [done|].
  apply value_other; [done..|congruence].
Qed.

Lemma settings_other env settings other : plain_name other = true → Forall (λ v, sets other v = false) settings →
  environmentValue (foldl set_variable env settings) other = environmentValue env other.
Proof using Type.
  intros Ho. revert env. induction settings as [|v settings IH]; intros env Hs; [done|]. apply Forall_cons in Hs as [Hv Hs].
  cbn [foldl]. rewrite IH by done. unfold set_variable. pose proof (cut_spec "="%char v) as Hc.
  destruct (GoStrings.cut "="%char v) as [name [value|]]; [|done]. destruct Hc as [-> Hn].
  apply value_other; [by unfold plain_name; rewrite Hn|done|]. intros ->. unfold sets in Hv.
  change (other +:+ String "=" value) with (other +:+ ("=" +:+ value)) in Hv. by rewrite <- app_assoc_str, has_prefix_app in Hv.
Qed.

(** C24: The paths of the providers come first.  A search path is what the providers of
    the active addons export to it, in the order of the addons, and then what it held,
    each entry once; a variable that no provider sets and that is no search path is
    what it was. *)
Theorem addon_environment env addons name :
  plain_name name = true →
  Forall (λ v, sets name v = false) (providers addons ≫= λ p, ex_Environment (pr_Exports p)) →
  environmentValue (applyAddonEnvironment env addons) name =
    if bool_decide (name ∈ addon_path_names) && negb (bool_decide (exported_under name addons = [])) then
      join ":" (append_layers [] (exported_under name addons ++
        (if bool_decide (environmentValue env name = "") then [] else split_byte ":" (environmentValue env name))))
    else environmentValue env name.
Proof using Type.
  intros Hn Hs. unfold applyAddonEnvironment. rewrite settings_other by done.
  change (foldl _ env addon_path_names) with (foldl (prepend_paths addons) env addon_path_names).
  assert (Forall (λ n, plain_name n = true) addon_path_names) as Hall by (repeat constructor).
  assert (NoDup addon_path_names) as Hnd by (apply (bool_decide_unpack (NoDup addon_path_names)); by vm_compute).
  case_bool_decide as Hin; [|by apply prepended_other].
  apply list_elem_of_split in Hin as (before & after & E0). rewrite E0 in Hall, Hnd |- *.
  apply Forall_app in Hall as [H1 [_ H2]%Forall_cons]. apply NoDup_app in Hnd as (_ & Hout & [Hout' _]%NoDup_cons).
  rewrite foldl_app. cbn [foldl]. rewrite (prepended_other addons after) by done. unfold prepend_paths at 1.
  assert (environmentValue (foldl (prepend_paths addons) env before) name = environmentValue env name) as Hv.
  { apply prepended_other; [done..|]. intros Hb. apply (Hout _ Hb). by left. }
  destruct (exported_under name addons) as [|p paths] eqn:Ee; cbn [negb andb]; [by rewrite bool_decide_eq_true_2|].
  rewrite bool_decide_eq_false_2 by done. cbn [negb]. rewrite split_value, Hv. done.
Qed.
End Environment.

Definition sdk_exports : AddonExports := mkExports ["/opt/sdk/bin"] ["/opt/sdk/lib"] [] [] [] ["SDK=1"].
Definition sdk : Application := addon_app "k" "h/a/k" [] (Some (mkProvider "k" "sdk" AddonSlotMultiple sdk_exports)).
Lemma addon_environment_witness :
  environmentValue (applyAddonEnvironment ["PATH=/usr/bin:/bin:/usr/bin"; "SDK=0"] [sdk]) "PATH" = "/opt/sdk/bin:/usr/bin:/bin".
Proof.
  rewrite (addon_environment ["PATH=/usr/bin:/bin:/usr/bin"; "SDK=0"] [sdk] "PATH"); [by vm_compute|by vm_compute|].
  repeat constructor.
Defined.

