(* ===== verification/Storage.v ===== *)
(** * The layers of the store ([pkg/cpak/fvs_storage.go], [storage_maintenance.go], [gc.go], [history.go])

    Which layers are in use, what removing an application and collecting garbage delete,
    and what the storage driver has prepared.  The repositories of layers (fvs), the older
    store of objects (dabadee) and the storage driver are libraries: their answers are
    arguments. *)
From Stdlib Require Import Ascii.
From stdpp Require Import base strings list numbers gmap.
From S2P Require Import Prelude.
From S2P Require Import GoStrings.
From S2P Require Import Regex.
From S2P Require Import GoPath.
From S2P Require Import Hex.
From S2P Require Import TrustedFiles.
From S2P Require Import Override.
From S2P Require Import Applications.
From S2P Require Import NestedAuth.
From S2P Require Import Repository.
From S2P Require Import Composition.
From S2P Require Import Updates.
From S2P Require Import Addons.
From stdpp Require Import options.

#[local] Open Scope nat_scope.

(** ** Data *)
Record GarbageItem : Type := mkItem { gi_Path : string; gi_Bytes : Z }.
Record GarbageReport : Type := mkGarbage {
  gr_Applied : bool; gr_Layers : list GarbageItem; gr_Cache : list GarbageItem;
  gr_Objects : Z; gr_Chunks : Z; gr_ObjectBytes : Z;
  gr_FVSBlocks : Z; gr_FVSObjects : Z; gr_FVSObjectBytes : Z;
  gr_LegacyObjects : Z; gr_LegacyChunks : Z; gr_LegacyBytes : Z;
  gr_DriverLayers : Z; gr_DriverBytes : Z; gr_Bytes : Z
}.
Record StorageStatus : Type := mkStorageStatus {
  st_Driver : string; st_Apps : Z; st_Layers : Z; st_Prepared : Z; st_Missing : Z
}.

Inductive storage_error : Type :=
  | StoreFault (e : update_error) | HistoryUndecoded (path : string)
  | ComponentsFailed (e : option composition_error) | AddonsFailed (e : addon_error) | NoStorageLayers
  | LayerUnremoved (layer : string) (e : update_error) | RecordUnremoved (path : string) (e : update_error)
  | LibraryFailed.

(** The index of the storage driver, and what fvs, dabadee and the driver do. *)
Class DriverIndex : Type := {
  index : Type;
  ix_Driver : index → string;
  ix_Layers : index → gmap string string;
  ix_Remove : list string → index → index;
  ValidateDriverPath : string → string → bool
}.
Notation G := (SM package_state storage_error).
Record fvsResult : Type := mkFvs { fr_RemovedBlocks : Z; fr_RemovedObjects : Z; fr_RemovedBytes : Z; fr_RemovedObjectBytes : Z }.
Record storageDeps {E : Engine} {I : DriverIndex} : Type := mkStorageDeps {
  (** [fvsrepo.States], [None] where there is no repository; [fvsrepo.GCShared]. *)
  States : string → G (option (list string));
  GCShared : list string → bool → G fvsResult;
  storageDriverName : G string;
  storageDriverRoot : string → string;
  (** [storageindex.Load], [None] where there is no index; [storageindex.Write]. *)
  LoadIndex : string → G (option index);
  WriteIndex : string → index → G ();
  prepareStorageDriver : list string → G ();
  (** Whether the driver has a service to remove with. *)
  driver_Remove : string → list string → G bool;
  driver_GC : string → list string → bool → G (list string * Z);
  (** The older store, when there is one. *)
  legacy_GC : bool → list string → G (option (Z * Z * Z))
}.

Section Storage.
Context {text : NetText} {E : Engine} {codec : AddonCodec} {ucodec : UpdateCodec} {I : DriverIndex}.
Context (home : option string) (StorePath CachePath : string) (node_size : node → Z) (deps : storageDeps).

Definition from_updates {X} (m : SM package_state update_error X) : G X := map_error StoreFault m.

(** ** Paths *)
Definition GetInStoreDir (sub : string) (args : list string) : string := path_join [StorePath; sub; path_join args].
Definition fvsRoot : string := GetInStoreDir "fvs" [].
Definition fvsLayersPath : string := path_join [fvsRoot; "layers"].
Definition fvsLayerPath (digest : string) : string := path_join [fvsLayersPath; digest].
Definition legacyLayersPath : string := GetInStoreDir "layers" [].

(** [os.RemoveAll] takes what is at a path and below it. *)
Definition within (path p : string) : bool := bool_decide (p = path) || has_prefix (path +:+ "/") p.
Definition remove_all (path : string) : M file_error () := λ w,
  let '(b, w') := next_fault w in
  if b then (Err Failed, w')
  else (Ok (), set_fs w' (filter (λ x, within path x.1 = false) (w_fs w))).

(** ** What is in use *)
Fixpoint read_histories (directory : string) (entries : list (string * bool)) : G (list Application) :=
  match entries with
  | [] => mret []
  | (name, is_dir) :: entries =>
      if (is_dir : bool) || negb (bool_decide (ext name = ".json")) then read_histories directory entries
      else
        let path := path_join [directory; name] in
        data ← from_updates (on_files (read_file path));
        match decode_history data with
        | None => fail (HistoryUndecoded path)
        | Some history => rest ← read_histories directory entries; mret (history ++ rest)
        end
  end.
Definition rollbackHistoryApplications : G (list Application) :=
  let directory := path_join [StorePath; "history"] in
  entries ← try (on_files (ReadDir directory));
  match entries with
  | Err (FileFailed Missing) => mret []
  | Err e => fail (StoreFault e)
  | Ok entries => read_histories directory entries
  end.

Fixpoint add_layers (result layers : list string) : list string :=
  match layers with
  | [] => result
  | layer :: layers => add_layers (if bool_decide (layer ∈ result) then result else result ++ [layer]) layers
  end.
Definition components_of (app : Application) : G (list Application) := λ s,
  (match resolveLayerDependenciesFromStore (apps s) app with
   | None => Err (ComponentsFailed None)
   | Some (Err e) => Err (ComponentsFailed (Some e))
   | Some (Ok components) => Ok components
   end, s).
Definition composition_of (app : Application) : G (list string) :=
  from_updates NewStore ;;;
  components ← components_of app;
  addons ← map_error AddonsFailed (resolveEnabledAddonsFromStore home app);
  mret (composedLayers app components addons).
Fixpoint storage_layers (result : list string) (l : list Application) : G (list string) :=
  match l with
  | [] => mret result
  | app :: l =>
      if bool_decide (ap_Origin app = "") then storage_layers (add_layers result (ap_ParsedLayers app)) l
      else layers ← composition_of app; storage_layers (add_layers result layers) l
  end.
Definition installedStorageLayersFrom (l : list Application) : G (list string) :=
  result ← storage_layers [] l;
  if bool_decide (result = []) && negb (bool_decide (l = [])) then fail NoStorageLayers else mret result.
Definition installedStorageLayers : G (list string) := l ← from_updates GetInstalledApps; installedStorageLayersFrom l.

(** ** The driver *)
Definition missing_layer (name : string) (i : index) (layer : string) : bool :=
  match ix_Layers i !! layer with Some path => negb (ValidateDriverPath (storageDriverRoot deps name) path) | None => true end.
Definition missingStorageLayers (name : string) (layers : list string) : G (list string) :=
  loaded ← LoadIndex deps name;
  mret match loaded with
  | None => layers
  | Some i => if negb (bool_decide (ix_Driver i = name)) then layers else filter (λ layer, missing_layer name i layer = true) layers
  end.
Definition storage_status : G StorageStatus :=
  l ← from_updates GetInstalledApps;
  layers ← installedStorageLayersFrom l;
  name ← storageDriverName deps;
  missing ← missingStorageLayers name layers;
  mret (mkStorageStatus name (Z.of_nat (length l)) (Z.of_nat (length layers))
    (Z.of_nat (length layers) - Z.of_nat (length missing)) (Z.of_nat (length missing))).
Definition PrepareInstalledStorage : G StorageStatus :=
  l ← from_updates GetInstalledApps;
  layers ← installedStorageLayersFrom l;
  name ← storageDriverName deps;
  missing ← missingStorageLayers name layers;
  (if bool_decide (missing = []) then mret () else prepareStorageDriver deps missing) ;;;
  storage_status.

Definition removePreparedLayers (layers : list string) : G () :=
  if bool_decide (layers = []) then mret ()
  else
    name ← storageDriverName deps;
    loaded ← LoadIndex deps name;
    match loaded with
    | None => mret ()
    | Some i =>
        let prepared := filter (λ layer, is_Some (ix_Layers i !! layer)) layers in
        if bool_decide (prepared = []) then mret ()
        else
          removed ← driver_Remove deps name prepared;
          if (removed : bool) then WriteIndex deps name (ix_Remove prepared i) else mret ()
    end.
Definition collectStorageDriverGarbage (live : list string) (apply : bool) : G (list string * Z) :=
  name ← storageDriverName deps;
  loaded ← LoadIndex deps name;
  match loaded with
  | None => mret ([], 0%Z)
  | Some i =>
      result ← driver_GC deps name (sort_strings live) apply;
      (if (apply : bool) && negb (bool_decide (result.1 = [])) then WriteIndex deps name (ix_Remove result.1 i) else mret ()) ;;;
      mret result
  end.

Definition fvsLayerAvailable (digest : string) : G bool :=
  states ← States deps (fvsLayerPath digest);
  mret match states with Some (_ :: _) => true | _ => false end.
Definition storedLayerAvailable (digest : string) : G bool :=
  available ← fvsLayerAvailable digest;
  if (available : bool) then mret true
  else
    info ← try (on_files (lstat (GetInStoreDir "layers" [digest])));
    match info with
    | Ok n => mret (is_directory (Some n))
    | Err (FileFailed Missing) => mret false
    | Err e => fail (StoreFault e)
    end.
Definition fvsRepositories : G (list string) :=
  entries ← try (on_files (ReadDir fvsLayersPath));
  match entries with
  | Err (FileFailed Missing) => mret []
  | Err e => fail (StoreFault e)
  | Ok entries => mret (omap (λ '(name, is_dir), if (is_dir : bool) && negb (contains ".partial" name) then Some (fvsLayerPath name) else None) entries)
  end.

(** ** Removing layers *)
Definition remove_or_missing (f : update_error → storage_error) (path : string) : G () :=
  removed ← try (on_files (remove path));
  match removed with
  | Ok _ | Err (FileFailed Missing) => mret ()
  | Err e => fail (f e)
  end.
Definition record_path (layer suffix : string) : string := GetInStoreDir "bindings" [layer +:+ suffix].
Definition removeLayerRecords (layer : string) : G () :=
  remove_or_missing (RecordUnremoved (record_path layer ".json")) (record_path layer ".json") ;;;
  remove_or_missing (RecordUnremoved (record_path layer ".checkout.json")) (record_path layer ".checkout.json").

Definition remove_layer (layer : string) : G () :=
  map_error (LayerUnremoved layer) (on_files (remove_all (fvsLayerPath layer)) ;;; on_files (remove_all (GetInStoreDir "layers" [layer]))) ;;;
  removeLayerRecords layer.
Fixpoint remove_layers (layers : list string) : G () :=
  match layers with [] => mret () | layer :: layers => remove_layer layer ;;; remove_layers layers end.

Definition layers_of (l : list Application) : list string := l ≫= ap_ParsedLayers.
Fixpoint removable_layers (referenced seen layers : list string) : list string :=
  match layers with
  | [] => []
  | layer :: layers =>
      if bool_decide (layer ∈ seen) || bool_decide (layer ∈ referenced) then removable_layers referenced seen layers
      else layer :: removable_layers referenced (layer :: seen) layers
  end.
Definition removeApplicationLayers (removed : Application) : G () :=
  l ← from_updates GetInstalledApps;
  history ← rollbackHistoryApplications;
  let removable := removable_layers (layers_of (l ++ history)) [] (ap_ParsedLayers removed) in
  removePreparedLayers removable ;;;
  remove_layers removable.

(** ** Garbage *)
Definition layer_digest (name suffix : string) : option string :=
  let digest := trim_suffix suffix name in
  if bool_decide (slen digest = 64) && str_forall (in_set [("0", "9"); ("a", "f")]%char) digest then Some digest else None.
Definition layerRecordDigest (name : string) : option string :=
  if has_suffix ".checkout.json" name then layer_digest name ".checkout.json"
  else if has_suffix ".json" name then layer_digest name ".json" else None.

(** The sizes of what a walk from a path meets. *)
Definition garbageItem (path : string) : M file_error GarbageItem := λ w,
  let '(b, w') := next_fault w in
  (if b then Err Failed
   else match w_fs w !! path with
   | None => Err Missing
   | Some _ => Ok (mkItem path (foldr Z.add 0%Z ((λ x, node_size x.2) <$> filter (λ x, within path x.1 = true) (map_to_list (w_fs w)))))
   end, w').
Definition collect (apply : bool) (f : update_error → storage_error) (path : string) : G GarbageItem :=
  item ← from_updates (on_files (garbageItem path));
  (if apply then map_error f (on_files (remove_all path)) else mret ()) ;;;
  mret item.

Fixpoint orphans_in (referenced : list string) (apply legacy : bool) (directory : string) (entries : list (string * bool)) : G (list GarbageItem) :=
  match entries with
  | [] => mret []
  | (name, is_dir) :: entries =>
      if negb is_dir then orphans_in referenced apply legacy directory entries
      else
        kept ← (if bool_decide (name ∈ referenced) then
                  if negb legacy then mret true else available ← fvsLayerAvailable name; mret (negb available)
                else mret false);
        if (kept : bool) then orphans_in referenced apply legacy directory entries
        else
          let path := path_join [directory; name] in
          item ← collect apply (LayerUnremoved path) path;
          rest ← orphans_in referenced apply legacy directory entries;
          mret (item :: rest)
  end.
Definition orphans_of (referenced : list string) (apply legacy : bool) (directory : string) : G (list GarbageItem) :=
  entries ← try (on_files (ReadDir directory));
  match entries with
  | Err (FileFailed Missing) => mret []
  | Err e => fail (StoreFault e)
  | Ok entries => orphans_in referenced apply legacy directory entries
  end.
Definition collectOrphanedLayers (referenced : list string) (apply : bool) : G (list GarbageItem) :=
  items ← orphans_of referenced apply (bool_decide (fvsLayersPath = legacyLayersPath)) fvsLayersPath;
  more ← orphans_of referenced apply true legacyLayersPath;
  mret (items ++ more).

Fixpoint orphaned_records (referenced : list string) (entries : list (string * bool)) : G () :=
  match entries with
  | [] => mret ()
  | (name, is_dir) :: entries =>
      match layerRecordDigest name with
      | Some layer =>
          if (is_dir : bool) || bool_decide (layer ∈ referenced) then orphaned_records referenced entries
          else removeLayerRecords layer ;;; orphaned_records referenced entries
      | None => orphaned_records referenced entries
      end
  end.
Definition collectOrphanedLayerRecords (referenced : list string) (apply : bool) : G () :=
  if negb apply then mret ()
  else
    entries ← try (on_files (ReadDir (GetInStoreDir "bindings" [])));
    match entries with
    | Err (FileFailed Missing) => mret ()
    | Err e => fail (StoreFault e)
    | Ok entries => orphaned_records referenced entries
    end.

Fixpoint cached_in (apply : bool) (entries : list (string * bool)) : G (list GarbageItem) :=
  match entries with
  | [] => mret []
  | (name, _) :: entries =>
      let path := path_join [CachePath; name] in
      item ← collect apply (LayerUnremoved path) path;
      rest ← cached_in apply entries;
      mret (item :: rest)
  end.
Definition collectCachedLayers (apply : bool) : G (list GarbageItem) :=
  entries ← try (on_files (ReadDir CachePath));
  match entries with
  | Err (FileFailed Missing) => mret []
  | Err e => fail (StoreFault e)
  | Ok entries => cached_in apply entries
  end.

Definition sum_items (l : list GarbageItem) : Z := foldr Z.add 0%Z (gi_Bytes <$> l).
Definition collectGarbageReport (l : list Application) (apply : bool) : G GarbageReport :=
  history ← rollbackHistoryApplications;
  installed ← installedStorageLayersFrom l;
  let referenced := layers_of (l ++ history) ++ installed in
  layers ← collectOrphanedLayers referenced apply;
  collectOrphanedLayerRecords referenced apply ;;;
  cache ← collectCachedLayers apply;
  repositories ← fvsRepositories;
  fvs ← GCShared deps repositories (negb apply);
  driver ← collectStorageDriverGarbage (remove_dups referenced) apply;
  legacy ← legacy_GC deps apply (if apply then [] else gi_Path <$> layers);
  let '(legacyObjects, legacyChunks, legacyBytes) := default (0, 0, 0)%Z legacy in
  let objectBytes := (fr_RemovedBytes fvs + fr_RemovedObjectBytes fvs + legacyBytes)%Z in
  mret (mkGarbage apply layers cache (fr_RemovedBlocks fvs + fr_RemovedObjects fvs + legacyObjects)%Z legacyChunks objectBytes
    (fr_RemovedBlocks fvs) (fr_RemovedObjects fvs) (fr_RemovedObjectBytes fvs) legacyObjects legacyChunks legacyBytes
    (Z.of_nat (length driver.1)) driver.2 (sum_items layers + sum_items cache + objectBytes + driver.2)%Z).
Definition CollectGarbage (apply : bool) : G GarbageReport := l ← from_updates GetInstalledApps; collectGarbageReport l apply.
Definition collectGarbage (l : list Application) (repair : bool) : G () := report ← collectGarbageReport l repair; mret ().
End Storage.

(** ** Paths below the store *)
Definition tail (t : string) : Prop := t = "" ∨ ∃ u, t = "/" +:+ u.

Lemma within_iff path p : within path p = true ↔ ∃ t, tail t ∧ p = path +:+ t.
Proof.
  unfold within, tail. rewrite orb_true_iff, bool_decide_eq_true, has_prefix_iff. split.
  - intros [->|(t & ->)]; [exists ""; split; [by left|by rewrite app_nil_str]|].
    exists ("/" +:+ t). split; [right; by exists t|by rewrite app_assoc_str].
  - intros (t & [->|(u & ->)] & ->); [left; by rewrite app_nil_str|right; exists u; by rewrite app_assoc_str].
Qed.

Lemma segment_inj n m t u :
  has_byte slash n = false → has_byte slash m = false → tail t → tail u → n +:+ t = m +:+ u → n = m.
Proof.
  intros Hn Hm Ht Hu. revert m Hm. induction n as [|c n IH]; intros [|d m] Hm H; [done| | |].
  - cbn in H. rewrite has_byte_cons in Hm. destruct Ht as [->|(v & ->)]; [done|]. injection H as <- _. done.
  - cbn in H. rewrite has_byte_cons in Hn. destruct Hu as [->|(v & ->)]; [done|]. injection H as -> _. done.
  - cbn in H. injection H as -> H. rewrite has_byte_cons in Hn, Hm. f_equal.
    apply orb_false_iff in Hn as [_ Hn], Hm as [_ Hm]. by apply IH.
Qed.

(** Paths of two names in one directory, or in directories that differ, do not meet. *)
Lemma within_sibling d n m p :
  has_byte slash n = false → has_byte slash m = false → n ≠ m →
  within (d +:+ n) p = true → within (d +:+ m) p = false.
Proof.
  intros Hn Hm Hne (t & Ht & ->)%within_iff. apply not_true_iff_false. intros (u & Hu & H)%within_iff.
  rewrite !app_assoc_str in H. apply (inj _) in H. by apply Hne, (segment_inj n m t u).
Qed.
Lemma within_below d n p : within (d +:+ "/" +:+ n) p = true → within d p = true.
Proof.
  intros (t & _ & ->)%within_iff. apply within_iff. exists ("/" +:+ n +:+ t). split; [right; by eexists|]. by rewrite !app_assoc_str.
Qed.

Lemma plain_two x y : plain x → plain y → Forall plain [x; y].
Proof. intros Hx Hy. apply Forall_cons. split; [done|by apply plain_one]. Qed.

Section Paths.
Context (StorePath : string) (store_abs : is_abs StorePath = true).

Lemma join_one a : path_join [a] = clean a ∨ a = "".
Proof. destruct (decide (a = "")) as [->|H]; [by right|left]. by rewrite path_join_cons. Qed.

Lemma plain_clean l : l ≠ [] → Forall plain l → path_join l = join "/" l.
Proof.
  intros Hne Hl. destruct l as [|x l]; [done|]. rewrite path_join_cons by (by apply Forall_cons in Hl as [[] _]).
  by apply plain_join.
Qed.

Lemma in_store_one sub : plain sub → GetInStoreDir StorePath sub [] = below_store StorePath +:+ sub.
Proof using store_abs.
  intros Hs. unfold GetInStoreDir. assert (path_join [StorePath; sub; path_join []] = path_join [StorePath; sub]) as ->.
  { rewrite !path_join_cons by (by intros ->). cbn [join]. unfold path_join. cbn.
    assert (is_abs (StorePath +:+ "/" +:+ sub) = true) as Ha.
    { apply has_prefix_iff in store_abs as (t & ->). rewrite app_assoc_str. apply has_prefix_app. }
    etrans; [|apply (clean_trailing _ Ha)]. f_equal. by rewrite !app_assoc_str. }
  rewrite store_path by (done || by apply plain_one). by rewrite below_store_path.
Qed.
Lemma in_store_two sub name : plain sub → plain name → GetInStoreDir StorePath sub [name] = below_store StorePath +:+ sub +:+ "/" +:+ name.
Proof using store_abs.
  intros Hs Hn. unfold GetInStoreDir. rewrite (plain_clean [name]) by (done || by apply plain_one). cbn [join].
  rewrite store_path by (done || by apply plain_two). by rewrite below_store_path.
Qed.

Lemma below_abs l : Forall plain l → l ≠ [] → is_abs (below_store StorePath +:+ join "/" l) = true ∧
  path_parts (below_store StorePath +:+ join "/" l) = path_parts StorePath ++ l ∧
  clean (below_store StorePath +:+ join "/" l) = below_store StorePath +:+ join "/" l.
Proof using store_abs.
  intros Hl Hne. rewrite <- below_store_path, <- store_path by done.
  destruct (plain_below StorePath l store_abs Hne Hl) as (Hc & Ha & Hp).
  assert (path_join (StorePath :: l) = path_join [StorePath; join "/" l]) as ->; [|done].
  rewrite !path_join_cons by (by intros ->). by destruct l.
Qed.

(** A name in a directory below the store. *)
Lemma join_in l name : Forall plain l → l ≠ [] → plain name →
  path_join [below_store StorePath +:+ join "/" l; name] = below_store StorePath +:+ join "/" l +:+ "/" +:+ name.
Proof using store_abs.
  intros Hl Hne Hn. destruct (below_abs l Hl Hne) as (Ha & Hp & Hc).
  destruct (plain_below _ [name] Ha) as (Hc' & Ha' & Hp'); [done|by apply plain_one|].
  change (join "/" [name]) with name in *. rewrite <- Hc', clean_abs_eq, Hp', Hp by done. rewrite <- (assoc_L (++)), below_store_path by (by destruct l).
  by rewrite join_parts_app.
Qed.

Lemma layers_path : fvsLayersPath StorePath = below_store StorePath +:+ "fvs/layers".
Proof using store_abs.
  unfold fvsLayersPath, fvsRoot. rewrite in_store_one by done. apply (join_in ["fvs"] "layers"); [by apply plain_one|done|done].
Qed.
Lemma layer_path name : plain name → fvsLayerPath StorePath name = below_store StorePath +:+ "fvs/layers/" +:+ name.
Proof using store_abs.
  intros Hn. unfold fvsLayerPath. rewrite layers_path. apply (join_in ["fvs"; "layers"] name); [by apply plain_two|done|done].
Qed.
Lemma legacy_path : legacyLayersPath StorePath = below_store StorePath +:+ "layers".
Proof using store_abs. by apply in_store_one. Qed.
Lemma legacy_layer name : plain name →
  GetInStoreDir StorePath "layers" [name] = below_store StorePath +:+ "layers/" +:+ name ∧
  path_join [legacyLayersPath StorePath; name] = below_store StorePath +:+ "layers/" +:+ name.
Proof using store_abs.
  intros Hn. split; [by apply in_store_two|]. rewrite legacy_path. apply (join_in ["layers"] name); [by apply plain_one|done|done].
Qed.
Lemma record_at name suffix : plain (name +:+ suffix) → record_path StorePath name suffix = below_store StorePath +:+ "bindings/" +:+ name +:+ suffix.
Proof using store_abs. intros Hn. unfold record_path. by apply in_store_two. Qed.
End Paths.

(** ** What is left alone *)

(** The paths of the file system are clean, so a directory has no entry of dots. *)
Definition clean_paths {E : Engine} (s : package_state) : Prop := ∀ p, is_Some (files s !! p) → clean p = p.

Section Keeping.
Context {E : Engine} (P : string → Prop).

Definition kept (s s' : package_state) : Prop :=
  clean_paths s' ∧ apps s' = apps s ∧ ∀ p, P p → files s' !! p = files s !! p.
Definition keeps {Er X} (Q : X → Prop) (m : SM package_state Er X) : Prop :=
  ∀ s r s', clean_paths s → m s = (r, s') → kept s s' ∧ ∀ x, r = Ok x → Q x.

Lemma kept_refl s : clean_paths s → kept s s.
Proof using Type. done. Qed.
Lemma kept_trans s s1 s2 : kept s s1 → kept s1 s2 → kept s s2.
Proof using Type. intros (_ & H1 & H2) (H & H3 & H4). split_and!; [done|congruence|]. intros p Hp. by rewrite H4, H2. Qed.

Lemma keeps_post {Er X} (Q Q' : X → Prop) (m : SM package_state Er X) : keeps Q m → (∀ x, Q x → Q' x) → keeps Q' m.
Proof using Type. intros Hm HQ s r s' Hc H. destruct (Hm _ _ _ Hc H) as [H1 H2]. split; [done|]. intros x Hx. by apply HQ, H2. Qed.
Lemma keeps_any {Er X} (Q : X → Prop) (m : SM package_state Er X) : keeps Q m → keeps (λ _, True) m.
Proof using Type. intros Hm. by eapply keeps_post. Qed.
Lemma keeps_lift {Er X} (r : result Er X) (Q : X → Prop) : (∀ x, r = Ok x → Q x) → keeps Q (lift r).
Proof using Type. intros Hr s r' s' Hc [= <- <-]. split; [by apply kept_refl|done]. Qed.
Lemma keeps_ret {Er X} (x : X) (Q : X → Prop) : Q x → keeps Q (mret x : SM package_state Er X).
Proof using Type. intros Hx s r' s' Hc [= <- <-]. split; [by apply kept_refl|]. by intros y [= <-]. Qed.
Lemma keeps_fail {Er X} (e : Er) (Q : X → Prop) : keeps Q (fail e : SM package_state Er X).
Proof using Type. by apply keeps_lift. Qed.
Lemma keeps_bind {Er X Y} Q (m : SM package_state Er X) (f : X → SM package_state Er Y) R :
  keeps Q m → (∀ x, Q x → keeps R (f x)) → keeps R (m ≫= f).
Proof using Type.
  intros Hm Hf s r s' Hc [(x & s1 & H1 & H2)|(e & H1 & ->)]%bind_M; destruct (Hm _ _ _ Hc H1) as [Hk HQ]; [|done].
  destruct (Hf x (HQ _ eq_refl) _ _ _ (proj1 Hk) H2) as [Hk' HR]. split; [by eapply kept_trans|done].
Qed.
Lemma keeps_try {Er Er' X} Q (m : SM package_state Er X) :
  keeps Q m → keeps (λ x, ∀ y, x = Ok y → Q y) (try m : SM package_state Er' _).
Proof using Type.
  intros Hm s r s' Hc. unfold try. destruct (m s) as [r1 s1] eqn:H. intros [= <- <-].
  destruct (Hm _ _ _ Hc H) as [Hk HQ]. split; [done|]. by intros x [= <-].
Qed.
Lemma keeps_map_error {Er Er' X} Q (f : Er → Er') (m : SM package_state Er X) : keeps Q m → keeps Q (map_error f m).
Proof using Type.
  intros Hm s r s' Hc. unfold map_error. destruct (m s) as [r1 s1] eqn:H. intros [= <- <-].
  destruct (Hm _ _ _ Hc H) as [Hk HQ]. split; [done|]. intros x Hx. apply HQ. by destruct r1; cbn in Hx; simplify_eq.
Qed.
Lemma undisturbed_kept s s' : clean_paths s → undisturbed s s' → kept s s'.
Proof using Type.
  intros Hc (He & [Hf _] & _). unfold kept, clean_paths, files, apps in *. rewrite He, Hf. split_and!; done.
Qed.
Lemma keeps_reading {Er X} (m : SM package_state Er X) : reading m → keeps (λ _, True) m.
Proof using Type. intros Hm s r s' Hc H. split; [|done]. apply undisturbed_kept; [done|by eapply Hm]. Qed.

(** What only takes files away. *)
Lemma shrunk_kept s s' : st_engine s' = st_engine s → (∀ p, files s' !! p = files s !! p ∨ (files s' !! p = None ∧ ¬P p)) →
  clean_paths s → kept s s'.
Proof using Type.
  intros He Hf Hc. split_and!.
  - intros p Hp. destruct (Hf p) as [Hx|[Hx _]]; rewrite Hx in Hp; [by apply Hc|by destruct Hp].
  - unfold apps. by rewrite He.
  - intros p Hp. by destruct (Hf p) as [Hx|[_ Hx]].
Qed.
Lemma keeps_remove path : ¬P path → keeps (λ _, True) (on_files (remove path)).
Proof using Type.
  intros Hp s r s' Hc (r0 & H & He & _)%on_files_step. split; [|done]. apply shrunk_kept; [done| |done]. intros p.
  unfold remove in H. destruct (next_fault (st_world s)) as [b w] eqn:Ef. apply next_fault_spec in Ef as [[Hf _] _]. unfold files.
  destruct b; [injection H as _ <-; left; by rewrite Hf|]. destruct (w_fs (st_world s) !! path); injection H as _ <-; [|left; by rewrite Hf].
  cbn. destruct (decide (path = p)) as [->|]; [right; split; [apply lookup_delete_eq|done]|left; by rewrite lookup_delete_ne].
Qed.
Lemma remove_all_files path w r w' : remove_all path w = (r, w') →
  w_fs w' = match r with Ok _ => filter (λ x, within path x.1 = false) (w_fs w) | Err _ => w_fs w end.
Proof using Type.
  unfold remove_all. destruct (next_fault w) as [b w0] eqn:Ef. apply next_fault_spec in Ef as [[Hf _] _].
  destruct b; intros [= <- <-]; [exact Hf|done].
Qed.
Lemma keeps_remove_all path : (∀ p, P p → within path p = false) → keeps (λ _, True) (on_files (remove_all path)).
Proof using Type.
  intros Hp s r s' Hc (r0 & H%remove_all_files & He & _)%on_files_step. split; [|done]. apply shrunk_kept; [done| |done]. intros p.
  unfold files. rewrite H. destruct r0; [|by left]. destruct (within path p) eqn:Ew.
  - right. split; [|intros Hx; by rewrite Hp in Ew]. apply map_lookup_filter_None. right. intros n _ Hn. cbn in Hn. congruence.
  - left. destruct (w_fs (st_world s) !! p) as [n|] eqn:El.
    + by apply map_lookup_filter_Some.
    + apply map_lookup_filter_None. by left.
Qed.

(** The entries of a directory are names. *)
Lemma dots_not_clean d x : is_abs d = true → x = "." ∨ x = ".." → clean (d +:+ "/" +:+ x) ≠ d +:+ "/" +:+ x.
Proof using Type.
  intros Ha Hx Hc. set (p := d +:+ "/" +:+ x) in *.
  assert (is_abs p = true) as Hp by (apply has_prefix_iff in Ha as (t & ->); unfold p; rewrite app_assoc_str; apply has_prefix_app).
  assert (x ∈ split_byte slash p) as Hin.
  { unfold p. change (d +:+ "/" +:+ x) with (d +:+ String slash x). rewrite split_byte_app_sep. apply elem_of_app. right.
    destruct Hx as [-> | ->]; by left. }
  rewrite <- Hc, clean_abs_eq in Hin by done. change ("/" +:+ join "/" (path_parts p)) with (String slash (join "/" (path_parts p))) in Hin.
  assert (x ∈ "" :: split_byte slash (join "/" (path_parts p))) as [->|Hin']%elem_of_cons by exact Hin; [by destruct Hx|].
  destruct (decide (path_parts p = [])) as [Hn|Hn].
  - rewrite Hn in Hin'. cbn in Hin'. apply list_elem_of_singleton in Hin' as ->. by destruct Hx.
  - rewrite split_join_parts in Hin' by done. apply abs_parts_no_dotdot in Hin' as [? ?]; [|done]. by destruct Hx.
Qed.
Definition named (entry : string * bool) : Prop := plain entry.1.
Lemma keeps_read_dir directory : is_abs directory = true → keeps (Forall named) (on_files (ReadDir directory)).
Proof using Type.
  intros Ha s r s' Hc (r0 & H & He & ->)%on_files_step. unfold ReadDir in H.
  destruct (next_fault (st_world s)) as [b w] eqn:Ef. apply next_fault_spec in Ef as [[Hf _] _]. injection H as <- ->.
  split; [apply shrunk_kept; [done| |done]; intros p; left; unfold files; by rewrite Hf|].
  intros entries Hok. destruct b; [done|]. destruct (w_fs (st_world s) !! directory) as [[]|]; try done. cbn in Hok. injection Hok as <-.
  apply list.Forall_forall. intros [name d] (name' & [= -> ->] & Hin)%list_elem_of_fmap.
  apply child_names_spec in Hin as (Hn & H1 & H2). unfold named. cbn [fst].
  split_and!; [done| | |done]; intros ->; eapply dots_not_clean; [exact Ha|by left| |exact Ha|by right|]; by apply Hc.
Qed.
End Keeping.

(** ** What belongs to a layer *)
Definition is_digest (layer : string) : bool :=
  bool_decide (slen layer = 64) && str_forall (in_set [("0", "9"); ("a", "f")]%char) layer.

Lemma digest_byte c layer : in_set [("0", "9"); ("a", "f")]%char c = false → is_digest layer = true → has_byte c layer = false.
Proof.
  unfold is_digest. intros Hc [_ H]%andb_true_iff. induction layer as [|d layer IH]; [done|].
  cbn [str_forall] in H. apply andb_true_iff in H as [Hd H]. rewrite has_byte_cons, IH by done. rewrite orb_false_r.
  apply bool_decide_eq_false. intros ->. by rewrite Hc in Hd.
Qed.
Lemma digest_plain_with layer suffix : is_digest layer = true → has_byte slash suffix = false → plain (layer +:+ suffix).
Proof.
  intros H Hs. pose proof (digest_byte slash layer eq_refl H) as Hb. apply andb_true_iff in H as [Hl%bool_decide_eq_true _].
  split_and!; [| | |by rewrite has_byte_app, Hb, Hs]; intros E0; apply (f_equal slen) in E0; rewrite slen_app, Hl in E0; cbn in E0; lia.
Qed.
Lemma digest_plain layer : is_digest layer = true → plain layer.
Proof. intros H. rewrite <- (app_nil_str layer). by apply digest_plain_with. Qed.
Lemma digest_of_record name layer : layerRecordDigest name = Some layer → is_digest layer = true.
Proof.
  assert (∀ suffix, layer_digest name suffix = Some layer → is_digest layer = true) as H.
  { intros suffix. unfold layer_digest. destruct (_ && _) eqn:E0; [|done]. intros [= <-]. exact E0. }
  unfold layerRecordDigest. destruct (has_suffix _ _); [apply H|]. destruct (has_suffix _ _); [apply H|done].
Qed.

Section Layers.
Context (StorePath : string) (store_abs : is_abs StorePath = true).

(** The repository of a layer and its records; with the copy of the older store. *)
Definition layer_area (layer p : string) : Prop :=
  within (fvsLayerPath StorePath layer) p = true ∨ p = record_path StorePath layer ".json" ∨ p = record_path StorePath layer ".checkout.json".
Definition all_areas (layer p : string) : Prop := layer_area layer p ∨ within (GetInStoreDir StorePath "layers" [layer]) p = true.

Lemma area_below layer p : is_digest layer = true → layer_area layer p →
  (∃ t, tail t ∧ p = below_store StorePath +:+ "fvs/layers/" +:+ layer +:+ t) ∨
  p = below_store StorePath +:+ "bindings/" +:+ layer +:+ ".json" ∨ p = below_store StorePath +:+ "bindings/" +:+ layer +:+ ".checkout.json".
Proof using store_abs.
  intros Hl [(t & Ht & ->)%within_iff|[-> | ->]].
  - left. exists t. split; [done|]. rewrite layer_path by (done || by apply digest_plain). by rewrite !app_assoc_str.
  - right; left. apply record_at; [done|by apply digest_plain_with].
  - right; right. apply record_at; [done|by apply digest_plain_with].
Qed.

Lemma area_other_layer layer name p : is_digest layer = true → plain name → name ≠ layer → all_areas layer p →
  within (fvsLayerPath StorePath name) p = false.
Proof using store_abs.
  intros Hl Hn Hne Hp. rewrite layer_path by done. pose proof (digest_plain _ Hl) as Hlp.
  assert (∀ v, p = below_store StorePath +:+ String "b" v ∨ p = below_store StorePath +:+ String "l" v →
    within (below_store StorePath +:+ "fvs/layers/" +:+ name) p = false) as Hx.
  { intros v Hv. apply not_true_iff_false. intros (u & _ & H)%within_iff. rewrite !app_assoc_str in H.
    by destruct Hv as [Hv|Hv]; rewrite Hv in H; apply (inj _) in H. }
  destruct Hp as [Hp|Hp]; [apply area_below in Hp as [(t & Ht & ->)|[-> | ->]]; [| | |done]|].
  - rewrite <- (app_assoc_str _ "fvs/layers/" name). eapply (within_sibling (below_store StorePath +:+ "fvs/layers/") layer); [apply Hlp|apply Hn|done|].
    apply within_iff. exists t. split; [done|]. by rewrite !app_assoc_str.
  - eapply Hx. left. done.
  - eapply Hx. left. done.
  - destruct (legacy_layer StorePath store_abs layer Hlp) as [Hlg _]. rewrite Hlg in Hp. apply within_iff in Hp as (t & _ & ->).
    eapply Hx. right. by rewrite !app_assoc_str.
Qed.
Lemma area_legacy layer name p : is_digest layer = true → plain name → layer_area layer p →
  within (below_store StorePath +:+ "layers/" +:+ name) p = false.
Proof using store_abs.
  intros Hl Hn [(t & Ht & ->)|[-> | ->]]%area_below; [..|done]; apply not_true_iff_false; intros (u & _ & H)%within_iff;
    rewrite !app_assoc_str in H; by apply (inj _) in H.
Qed.
Lemma all_areas_legacy layer name p : is_digest layer = true → plain name → name ≠ layer → all_areas layer p →
  within (below_store StorePath +:+ "layers/" +:+ name) p = false.
Proof using store_abs.
  intros Hl Hn Hne [Hp|Hp]; [by eapply area_legacy|]. pose proof (digest_plain _ Hl) as Hlp.
  destruct (legacy_layer StorePath store_abs layer Hlp) as [Hlg _]. rewrite Hlg in Hp. rewrite <- app_assoc_str in Hp |- *.
  eapply (within_sibling _ layer); [apply Hlp|apply Hn|done|exact Hp].
Qed.
Lemma area_record layer name suffix p : is_digest layer = true → is_digest name = true → name ≠ layer →
  suffix = ".json" ∨ suffix = ".checkout.json" → all_areas layer p → p ≠ record_path StorePath name suffix.
Proof using store_abs.
  intros Hl Hn Hne Hs Hp. assert (has_byte slash suffix = false) as Hb by (by destruct Hs as [-> | ->]).
  rewrite record_at by (done || by apply digest_plain_with).
  assert (∀ t, p = below_store StorePath +:+ "bindings/" +:+ layer +:+ String "." t → p ≠ below_store StorePath +:+ "bindings/" +:+ name +:+ suffix) as Hx.
  { intros t -> H. apply (inj _), (inj _) in H. apply Hne. symmetry.
    assert (∀ a b u v, has_byte "." a = false → has_byte "." b = false → a +:+ String "." u = b +:+ String "." v → a = b) as Hd.
    { clear. intros a. induction a as [|c a IH]; intros [|d b] u v Ha Hb H; [done| | |].
      - cbn in H. injection H as <- _. by rewrite has_byte_cons in Hb.
      - cbn in H. injection H as -> _. by rewrite has_byte_cons in Ha.
      - cbn in H. injection H as -> H. rewrite has_byte_cons in Ha, Hb. apply orb_false_iff in Ha as [_ Ha], Hb as [_ Hb]. f_equal. by eapply IH. }
    destruct Hs as [-> | ->]; eapply Hd; (exact H || by apply digest_byte). }
  destruct Hp as [Hp|Hp]; [apply area_below in Hp as [(t & Ht & ->)|[Hp|Hp]]; [| | |done]|].
  - intros H. by apply (inj _) in H.
  - by eapply Hx.
  - by eapply Hx.
  - destruct (legacy_layer StorePath store_abs layer (digest_plain _ Hl)) as [Hlg _]. rewrite Hlg in Hp. apply within_iff in Hp as (t & _ & ->).
    intros H. rewrite !app_assoc_str in H. by apply (inj _) in H.
Qed.
End Layers.

(** ** What the operations leave alone *)
Section Operations.
Context {text : NetText} {E : Engine} {codec : AddonCodec} {ucodec : UpdateCodec} {I : DriverIndex}.
Context (home : option string) (StorePath CachePath : string) (node_size : node → Z) (deps : storageDeps).

(** The libraries change no record of an application and none of the paths of [P]. *)
Record deps_keep (P : string → Prop) : Prop := {
  keep_States : ∀ x, keeps P (λ _, True) (States deps x);
  keep_GCShared : ∀ x b, keeps P (λ _, True) (GCShared deps x b);
  keep_driverName : keeps P (λ _, True) (storageDriverName deps);
  keep_LoadIndex : ∀ x, keeps P (λ _, True) (LoadIndex deps x);
  keep_WriteIndex : ∀ x i, keeps P (λ _, True) (WriteIndex deps x i);
  keep_Remove : ∀ x l, keeps P (λ _, True) (driver_Remove deps x l);
  keep_GC : ∀ x l b, keeps P (λ _, True) (driver_GC deps x l b);
  keep_legacy : ∀ b l, keeps P (λ _, True) (legacy_GC deps b l)
}.
(** Asked not to apply anything they only read. *)
Record deps_read : Prop := {
  read_States : ∀ x, reading (States deps x);
  read_GCShared : ∀ x, reading (GCShared deps x true);
  read_driverName : reading (storageDriverName deps);
  read_LoadIndex : ∀ x, reading (LoadIndex deps x);
  read_GC : ∀ x l, reading (driver_GC deps x l false);
  read_legacy : ∀ l, reading (legacy_GC deps false l)
}.

Lemma reading_read_file path : reading (on_files (read_file path)).
Proof using Type.
  intros s r s' (r0 & H & He & _)%on_files_step. unfold read_file in H. destruct (next_fault (st_world s)) as [b w] eqn:Ef. apply next_fault_spec in Ef as [Hf Hu]. injection H as _ ->.
  split; [done|]. split; [exact Hf|].
  unfold quiet_state. intros Hq. by destruct (Hu Hq) as [_ ->].
Qed.
Lemma reading_read_dir path : reading (on_files (ReadDir path)).
Proof using Type.
  intros s r s' (r0 & H & He & _)%on_files_step. unfold ReadDir in H.
  destruct (next_fault (st_world s)) as [b w] eqn:Ef. apply next_fault_spec in Ef as [Hf Hu]. injection H as _ ->.
  split; [done|]. split; [exact Hf|]. unfold quiet_state. intros Hq. by destruct (Hu Hq) as [_ ->].
Qed.
Lemma reading_apps : reading GetInstalledApps.
Proof using Type. unfold GetInstalledApps. apply reading_bind; [apply reading_store|intros; apply reading_engine]. Qed.
Lemma reading_histories directory entries : reading (read_histories (ucodec := ucodec) directory entries).
Proof using Type.
  induction entries as [|[name d] entries IH]; cbn [read_histories]; [apply reading_ret|]. case_match; [exact IH|].
  apply reading_bind; [apply reading_map_error, reading_read_file|]. intros data. case_match; [|apply reading_fail].
  apply reading_bind; [exact IH|intros; apply reading_ret].
Qed.
Lemma reading_rollback : reading (rollbackHistoryApplications (ucodec := ucodec) StorePath).
Proof using Type.
  unfold rollbackHistoryApplications. apply reading_bind; [apply reading_try, reading_read_dir|]. intros [entries|e]; [apply reading_histories|].
  repeat case_match; apply reading_ret || apply reading_fail.
Qed.
Lemma reading_with_components l : reading (with_components l).
Proof using Type.
  induction l as [|a l IH]; intros s r s' H; cbn [with_components] in H; [by injection H as _ <-|].
  destruct (resolveLayerDependenciesFromStore _ _) as [[|]|]; [|by injection H as _ <-..].
  eapply (reading_bind _ _ IH); [intros; apply reading_ret|exact H].
Qed.
Lemma reading_enabled_addons app : reading (resolveEnabledAddonsFromStore home app).
Proof using Type. unfold resolveEnabledAddonsFromStore. apply reading_bind; [apply reading_active|intros; apply reading_with_components]. Qed.
Lemma reading_composition app : reading (composition_of home app).
Proof using Type.
  unfold composition_of. apply reading_bind; [apply reading_map_error, reading_store|]. intros _.
  apply reading_bind; [intros s r s' H; unfold components_of in H; by injection H as _ <-|]. intros components.
  apply reading_bind; [apply reading_map_error, reading_enabled_addons|intros; apply reading_ret].
Qed.
Lemma reading_layers result l : reading (storage_layers home result l).
Proof using Type.
  revert result. induction l as [|a l IH]; intros result; cbn [storage_layers]; [apply reading_ret|]. case_match; [apply IH|].
  apply reading_bind; [apply reading_composition|intros; apply IH].
Qed.
Lemma reading_installed_layers l : reading (installedStorageLayersFrom home l).
Proof using Type.
  unfold installedStorageLayersFrom. apply reading_bind; [apply reading_layers|]. intros result.
  case_match; [apply reading_fail|apply reading_ret].
Qed.

Section Kept.
Context (P : string → Prop) (Hdeps : deps_keep P).

(** fvs has a state of the layer, or once had. *)
Definition fvs_has (layer : string) : Prop :=
  ∃ s x l s', States deps (fvsLayerPath StorePath layer) s = (Ok (Some (x :: l)), s').
Lemma keeps_available digest : keeps P (λ available, available = true → fvs_has digest) (fvsLayerAvailable StorePath deps digest).
Proof using Hdeps.
  unfold fvsLayerAvailable. eapply keeps_bind with (Q := λ states, match states with Some (_ :: _) => fvs_has digest | _ => True end).
  - intros s r s' Hc H. split; [by apply (keep_States _ Hdeps _ _ _ _ Hc H)|]. intros [[|x l]|] ->; [done| |done]. by exists s, x, l, s'.
  - intros [[|x l]|] Hl; by apply keeps_ret.
Qed.

Lemma keeps_prepared layers : keeps P (λ _, True) (removePreparedLayers deps layers).
Proof using Hdeps.
  unfold removePreparedLayers. case_match; [by apply keeps_ret|]. eapply keeps_bind; [apply keep_driverName, Hdeps|]. intros name _.
  eapply keeps_bind; [apply keep_LoadIndex, Hdeps|]. intros [i|] _; [|by apply keeps_ret]. cbn zeta. case_match; [by apply keeps_ret|].
  eapply keeps_bind; [apply keep_Remove, Hdeps|]. intros [] _; [apply keep_WriteIndex, Hdeps|by apply keeps_ret].
Qed.
Lemma keeps_driver_garbage live apply : keeps P (λ _, True) (collectStorageDriverGarbage deps live apply).
Proof using Hdeps.
  unfold collectStorageDriverGarbage. eapply keeps_bind; [apply keep_driverName, Hdeps|]. intros name _.
  eapply keeps_bind; [apply keep_LoadIndex, Hdeps|]. intros [i|] _; [|by apply keeps_ret].
  eapply keeps_bind; [apply keep_GC, Hdeps|]. intros result _. eapply keeps_bind with (Q := λ _, True); [|intros; by apply keeps_ret].
  case_match; [apply keep_WriteIndex, Hdeps|by apply keeps_ret].
Qed.

Lemma keeps_read_or {X} directory (f : list (string * bool) → SM package_state storage_error X) (x : X) :
  is_abs directory = true → (∀ entries, Forall named entries → keeps P (λ _, True) (f entries)) →
  keeps P (λ _, True) (entries ← try (on_files (ReadDir directory));
    match entries with
    | Err (FileFailed Missing) => mret x
    | Err e => fail (StoreFault e)
    | Ok entries => f entries
    end).
Proof using Type.
  intros Ha Hf. eapply keeps_bind; [apply keeps_try, keeps_read_dir, Ha|]. intros [entries|e] Hn; [by apply Hf, Hn|].
  repeat case_match; by apply keeps_ret || apply keeps_fail.
Qed.

Lemma keeps_collect apply f path : (∀ p, P p → within path p = false) → keeps P (λ _, True) (collect node_size apply f path).
Proof using Type.
  intros Hp. unfold collect. eapply keeps_bind.
  { apply keeps_reading, reading_map_error. intros s r s' (r0 & H & He & _)%on_files_step. unfold garbageItem in H.
    destruct (next_fault (st_world s)) as [b w] eqn:Ef. apply next_fault_spec in Ef as [Hf Hu]. injection H as _ ->.
    split; [done|]. split; [exact Hf|]. unfold quiet_state. intros Hq. by destruct (Hu Hq) as [_ ->]. }
  intros item _. eapply keeps_bind with (Q := λ _, True); [|intros; by apply keeps_ret].
  destruct apply; [by apply keeps_map_error, keeps_remove_all|by apply keeps_ret].
Qed.

Lemma keeps_orphans referenced apply legacy directory entries :
  (∀ name p, plain name → (name ∉ referenced ∨ legacy = true ∧ fvs_has name) → P p → within (path_join [directory; name]) p = false) →
  Forall named entries → keeps P (λ _, True) (orphans_in StorePath node_size deps referenced apply legacy directory entries).
Proof using Hdeps.
  intros Hp Hn. induction Hn as [|[name d] entries Hname _ IH]; cbn [orphans_in]; [by apply keeps_ret|]. unfold named in Hname. cbn in Hname.
  destruct d; cbn [negb]; [|exact IH].
  apply keeps_bind with (Q := λ kept : bool, kept = false → name ∉ referenced ∨ legacy = true ∧ fvs_has name).
  { case_bool_decide; [|apply keeps_ret; by left]. destruct legacy; cbn [negb]; [|by apply keeps_ret].
    eapply keeps_bind; [apply keeps_available|]. intros available Ha. apply keeps_ret. intros ->%negb_false_iff. right. by split; [|apply Ha]. }
  intros [] Hk; [exact IH|]. eapply keeps_bind; [apply keeps_collect; intros p; apply Hp; [done|by apply Hk]|].
  intros. eapply keeps_bind; [exact IH|intros; by apply keeps_ret].
Qed.

Lemma keeps_records layer : (∀ suffix, suffix = ".json" ∨ suffix = ".checkout.json" → ¬P (record_path StorePath layer suffix)) →
  keeps P (λ _, True) (removeLayerRecords StorePath layer).
Proof using Type.
  intros Hp. assert (∀ f path, ¬P path → keeps P (λ _, True) (remove_or_missing f path)) as Hr.
  { intros f path Hx. unfold remove_or_missing. eapply keeps_bind; [by apply keeps_try, keeps_remove|]. intros r _.
    repeat case_match; by apply keeps_ret || apply keeps_fail. }
  unfold removeLayerRecords. eapply keeps_bind; [apply Hr, Hp; by left|]. intros _ _. apply Hr, Hp. by right.
Qed.
Lemma keeps_orphaned_records referenced entries :
  (∀ layer suffix, is_digest layer = true → layer ∉ referenced → suffix = ".json" ∨ suffix = ".checkout.json" → ¬P (record_path StorePath layer suffix)) →
  keeps P (λ _, True) (orphaned_records StorePath referenced entries).
Proof using Type.
  intros Hp. induction entries as [|[name d] entries IH]; cbn [orphaned_records]; [by apply keeps_ret|].
  destruct (layerRecordDigest name) as [layer|] eqn:El; [|exact IH]. destruct (_ || _) eqn:Ed; [exact IH|].
  apply orb_false_iff in Ed as [_ Hr%bool_decide_eq_false]. eapply keeps_bind; [|intros; exact IH].
  apply keeps_records. intros suffix. apply Hp; [by eapply digest_of_record|done].
Qed.
Lemma keeps_cached apply entries :
  (∀ name p, plain name → P p → within (path_join [CachePath; name]) p = false) →
  Forall named entries → keeps P (λ _, True) (cached_in CachePath node_size apply entries).
Proof using Type.
  intros Hp Hn. induction Hn as [|[name d] entries Hname _ IH]; cbn [cached_in]; [by apply keeps_ret|].
  eapply keeps_bind; [apply keeps_collect; intros p; by apply Hp|]. intros. eapply keeps_bind; [exact IH|intros; by apply keeps_ret].
Qed.
Lemma keeps_remove_layers layers :
  (∀ name p, name ∈ layers → P p → within (fvsLayerPath StorePath name) p = false ∧ within (GetInStoreDir StorePath "layers" [name]) p = false) →
  (∀ name suffix, name ∈ layers → suffix = ".json" ∨ suffix = ".checkout.json" → ¬P (record_path StorePath name suffix)) →
  keeps P (λ _, True) (remove_layers StorePath layers).
Proof using Type.
  intros Hp Hr. induction layers as [|layer layers IH]; cbn [remove_layers]; [by apply keeps_ret|].
  eapply keeps_bind; [|intros; apply IH; [intros name p Hi; apply Hp; by right|intros name suffix Hi; apply Hr; by right]]. unfold remove_layer.
  eapply keeps_bind; [|intros; apply keeps_records; intros; apply Hr; [by left|done]].
  apply keeps_map_error. eapply keeps_bind; [apply keeps_remove_all; intros p HP; apply Hp; [by left|done]|].
  intros _ _. apply keeps_remove_all. intros p HP. apply Hp; [by left|done].
Qed.
End Kept.
End Operations.

Section Theorems.
Context {text : NetText} {E : Engine} {elaws : EngineLaws E} {codec : AddonCodec} {ucodec : UpdateCodec} {I : DriverIndex}.
Context (home : option string) (StorePath CachePath : string) (node_size : node → Z) (deps : storageDeps).
Context (store_abs : is_abs StorePath = true).

Lemma map_error_step {Er Er' X} (f : Er → Er') (m : SM package_state Er X) s r s' :
  map_error f m s = (r, s') → ∃ r0, m s = (r0, s') ∧ ∀ x, r = Ok x → r0 = Ok x.
Proof using Type.
  unfold map_error. destruct (m s) as [r0 s0]. intros [= <- <-]. exists r0. split; [done|]. by intros x; destruct r0; cbn; intros [= ->].
Qed.

(** An application a rollback can bring back. *)
Definition in_history (s : package_state) (app : Application) : Prop :=
  let directory := path_join [StorePath; "history"] in
  is_directory (files s !! directory) = true ∧
  ∃ name uid mode data l, plain name ∧ ext name = ".json" ∧
    files s !! (directory +:+ "/" +:+ name) = Some (File uid mode data) ∧ decode_history data = Some l ∧ app ∈ l.
(** A layer of an application that is installed, or that a rollback can bring back. *)
Definition needed (s : package_state) (layer : string) : Prop :=
  ∃ app, layer ∈ ap_ParsedLayers app ∧ ((∃ k, apps s !! k = Some app) ∨ in_history s app).

Lemma history_undisturbed s s' app : undisturbed s s' → in_history s app → in_history s' app.
Proof using Type. intros (_ & [Hf _] & _). unfold in_history, files. by rewrite Hf. Qed.

Lemma history_names name : plain name → path_join [path_join [StorePath; "history"]; name] = path_join [StorePath; "history"] +:+ "/" +:+ name.
Proof using store_abs.
  intros Hn. rewrite (store_path StorePath ["history"]) by (done || by apply plain_one). rewrite below_store_path by done.
  rewrite (join_in StorePath store_abs ["history"] name) by (done || by apply plain_one). by rewrite app_assoc_str.
Qed.

Lemma histories_elem entries s h s' name uid mode data l app :
  Forall (λ e : string * bool, plain e.1) entries → read_histories (path_join [StorePath; "history"]) entries s = (Ok h, s') →
  (name, false) ∈ entries → ext name = ".json" → files s !! (path_join [StorePath; "history"] +:+ "/" +:+ name) = Some (File uid mode data) →
  decode_history data = Some l → app ∈ l → app ∈ h.
Proof using store_abs.
  intros Hn. revert s h s'. induction Hn as [|[n d] entries Hname _ IH]; intros s h s'; cbn [read_histories]; [by intros _ ?%elem_of_nil|].
  intros H Hin He Hf Hd Hl. destruct (_ || _) eqn:Es.
  - eapply IH; [exact H| |done..]. apply elem_of_cons in Hin as [[= <- <-]|Hin]; [|done].
    rewrite He, bool_decide_eq_true_2 in Es by done. discriminate Es.
  - apply bind_M_ok in H as (data' & s1 & H1 & H2). pose proof (reading_map_error _ _ (reading_read_file _) _ _ _ H1) as (_ & [Hf1 _] & _).
    unfold from_updates, map_error in H1. destruct (on_files _ s) as [r1 s2] eqn:E1. injection H1 as Hr <-.
    destruct r1 as [d1|]; [|done]. injection Hr as ->. apply on_files_step in E1 as (r0 & E1 & _ & Hr). destruct r0 as [d2|]; [|done]. injection Hr as ->.
    destruct (decode_history d2) as [history|] eqn:Eh; [|done]. apply bind_M_ok in H2 as (rest & s3 & H2 & [= <- _]).
    apply elem_of_app. apply elem_of_cons in Hin as [[= <- <-]|Hin].
    + left. apply read_file_spec in E1 as (_ & E1 & _). destruct (E1 _ eq_refl) as (u & m & E2).
      cbn [fst] in Hname. rewrite history_names in E2 by done. unfold files in Hf. rewrite Hf in E2. injection E2 as -> -> ->. congruence.
    + right. eapply IH; [exact H2|done|done| |done|done]. unfold files in *. by rewrite Hf1.
Qed.

Lemma rollback_elem s h s' app :
  clean_paths s → rollbackHistoryApplications StorePath s = (Ok h, s') → in_history s app → app ∈ h.
Proof using store_abs.
  intros Hc H (Hd & name & uid & mode & data & l & Hn & He & Hf & Hdec & Hl). unfold rollbackHistoryApplications in H.
  rewrite bind_try in H. destruct (on_files _ s) as [r s1] eqn:E1.
  pose proof (reading_read_dir _ _ _ _ E1) as (_ & [Hf1 _] & _).
  assert (is_abs (path_join [StorePath; "history"]) = true) as Ha.
  { rewrite (store_path StorePath ["history"]) by (done || by apply plain_one). apply has_prefix_app. }
  destruct (keeps_read_dir (λ _, True) _ Ha _ _ _ Hc E1) as [_ Hnames].
  apply on_files_step in E1 as (r0 & E1 & _ & ->). unfold ReadDir in E1. destruct (next_fault (st_world s)) as [b w] eqn:Ef.
  injection E1 as <- ->. unfold files in Hd, Hf. destruct b; [done|].
  destruct (w_fs (st_world s) !! path_join [StorePath; "history"]) as [[]|]; try done. cbn [wrap] in *.
  eapply (histories_elem _ _ _ _ name uid mode data l app (Hnames _ eq_refl) H); [|done| |done|done].
  - apply list_elem_of_fmap. exists name. split; [change (String "/" name) with ("/" +:+ name); by rewrite Hf|]. apply child_names_spec. split; [by eexists|]. by destruct Hn as (? & _ & _ & ?).
  - unfold files. by rewrite Hf1.
Qed.

Lemma histories_inv entries s h s' app :
  Forall (λ e : string * bool, plain e.1) entries → read_histories (path_join [StorePath; "history"]) entries s = (Ok h, s') → app ∈ h →
  ∃ name uid mode data l, name ∈ entries.*1 ∧ plain name ∧ ext name = ".json" ∧
    files s !! (path_join [StorePath; "history"] +:+ "/" +:+ name) = Some (File uid mode data) ∧ decode_history data = Some l ∧ app ∈ l.
Proof using store_abs.
  intros Hn. revert s h s'. induction Hn as [|[n d] entries Hname _ IH]; intros s h s'; cbn [read_histories];
    [by intros [= <- _] ?%elem_of_nil|]. cbn [fst] in Hname.
  assert (∀ s1 h1 s2, files s1 = files s → read_histories (path_join [StorePath; "history"]) entries s1 = (Ok h1, s2) → app ∈ h1 →
    ∃ name uid mode data l, name ∈ ((n, d) :: entries).*1 ∧ plain name ∧ ext name = ".json" ∧
      files s !! (path_join [StorePath; "history"] +:+ "/" +:+ name) = Some (File uid mode data) ∧ decode_history data = Some l ∧ app ∈ l) as Hrest.
  { intros s1 h1 s2 Hf H1 Ha. destruct (IH _ _ _ H1 Ha) as (name & uid & mode & data & l & Hin & H2).
    exists name, uid, mode, data, l. rewrite <- Hf. split; [by right|exact H2]. }
  destruct (_ || _) eqn:Es; [by apply Hrest|]. intros H Happ.
  apply bind_M_ok in H as (data' & s1 & H1 & H2). pose proof (reading_map_error _ _ (reading_read_file _) _ _ _ H1) as (_ & [Hf1 _] & _).
  apply map_error_step in H1 as (r1 & E1 & Hr). rewrite (Hr _ eq_refl) in E1. apply on_files_step in E1 as (r0 & E1 & _ & Hr0).
  destruct r0 as [d2|]; [|done]. injection Hr0 as ->. destruct (decode_history d2) as [history|] eqn:Eh; [|done].
  apply bind_M_ok in H2 as (rest & s3 & H2 & [= <- _]). apply elem_of_app in Happ as [Happ|Happ]; [|by eapply Hrest].
  apply read_file_spec in E1 as (_ & E1 & _). destruct (E1 _ eq_refl) as (u & m & E2). rewrite history_names in E2 by done.
  apply orb_false_iff in Es as [-> Hj%negb_false_iff%bool_decide_eq_true].
  exists n, u, m, d2, history. split; [by left|done].
Qed.
Lemma rollback_inv s h s' app :
  clean_paths s → rollbackHistoryApplications StorePath s = (Ok h, s') → app ∈ h → in_history s app.
Proof using store_abs.
  intros Hc H Happ. unfold rollbackHistoryApplications in H. rewrite bind_try in H. destruct (on_files _ s) as [r s1] eqn:E1.
  pose proof (reading_read_dir _ _ _ _ E1) as (_ & [Hf1 _] & _).
  assert (is_abs (path_join [StorePath; "history"]) = true) as Ha.
  { rewrite (store_path StorePath ["history"]) by (done || by apply plain_one). apply has_prefix_app. }
  destruct (keeps_read_dir (λ _, True) _ Ha _ _ _ Hc E1) as [_ Hnames].
  apply on_files_step in E1 as (r0 & E1 & _ & ->). unfold ReadDir in E1. destruct (next_fault (st_world s)) as [b w] eqn:Ef.
  injection E1 as <- ->. destruct b; [done|].
  unfold in_history, files. destruct (w_fs (st_world s) !! path_join [StorePath; "history"]) as [[]|] eqn:Ed; cbn [wrap] in *; try done;
    [|by injection H as <- _; apply elem_of_nil in Happ].
  split; [done|]. destruct (histories_inv _ _ _ _ _ (Hnames _ eq_refl) H Happ) as (name & u & m & data & l & _ & H1).
  exists name, u, m, data, l. unfold files in H1. by rewrite Hf1 in H1.
Qed.

Lemma installed_elem s l s' : GetInstalledApps s = (Ok l, s') → ∀ app, app ∈ l ↔ ∃ k, apps s !! k = Some app.
Proof using elaws.
  unfold GetInstalledApps. intros ([] & s1 & H1 & H2)%bind_M_ok app. apply reading_store in H1 as (He & _).
  unfold engine_read in H2. destruct (next_fault _) as [[] w]; [done|]. injection H2 as <- _. rewrite each_spec. unfold apps. by rewrite He.
Qed.

Lemma layers_elem (l : list Application) app layer : app ∈ l → layer ∈ ap_ParsedLayers app → layer ∈ layers_of l.
Proof using Type. intros Hl Ha. unfold layers_of. apply list_elem_of_bind. by exists app. Qed.

Lemma removable_elem referenced seen layers x :
  x ∈ removable_layers referenced seen layers ↔ x ∈ layers ∧ x ∉ seen ∧ x ∉ referenced.
Proof using Type.
  revert seen. induction layers as [|y layers IH]; intros seen; cbn [removable_layers].
  { split; [by intros ?%elem_of_nil|by intros [?%elem_of_nil _]]. }
  destruct (bool_decide (y ∈ seen) || bool_decide (y ∈ referenced)) eqn:Eb; bools_in Eb.
  - rewrite IH, elem_of_cons. split; [tauto|]. intros ([->|?] & ? & ?); tauto.
  - rewrite elem_of_cons, IH, !elem_of_cons. split.
    + intros [->|(? & ? & ?)]; tauto.
    + intros ([->|?] & ? & ?); [by left|]. destruct (decide (x = y)); tauto.
Qed.

(** What is referenced when the layers are compared: all that is needed. *)
Lemma referenced_needed s l s1 h s2 layer :
  clean_paths s → from_updates GetInstalledApps s = (Ok l, s1) → rollbackHistoryApplications StorePath s1 = (Ok h, s2) →
  needed s layer ↔ layer ∈ layers_of (l ++ h).
Proof using elaws store_abs.
  intros Hc H1 H2. pose proof (reading_map_error _ _ reading_apps _ _ _ H1) as Hu.
  pose proof (undisturbed_kept (λ _, True) _ _ Hc Hu) as (Hc1 & _).
  assert (∀ app, app ∈ l ↔ ∃ k, apps s !! k = Some app) as Hl.
  { apply map_error_step in H1 as (r & E1 & Hr). rewrite (Hr _ eq_refl) in E1. by eapply installed_elem. }
  assert (∀ app, app ∈ h ↔ in_history s app) as Hh.
  { intros app. assert (in_history s app ↔ in_history s1 app) as -> by (destruct Hu as (_ & [Hf _] & _); unfold in_history, files; by rewrite Hf).
    split; [by eapply rollback_inv|by eapply rollback_elem]. }
  unfold needed, layers_of. rewrite list_elem_of_bind. setoid_rewrite elem_of_app. setoid_rewrite Hl. setoid_rewrite Hh.
  split; intros (app & H3 & H4); exists app; tauto.
Qed.

Lemma remove_layer_area layer p : is_digest layer = true → all_areas StorePath layer p →
  within (fvsLayerPath StorePath layer) p = true ∨ within (GetInStoreDir StorePath "layers" [layer]) p = true ∨
  p = record_path StorePath layer ".json" ∨ p = record_path StorePath layer ".checkout.json".
Proof using Type. intros _ [[?|[?|?]]|?]; tauto. Qed.

(** Files go, and what is taken away stays away. *)
Definition shrinks (s s' : package_state) : Prop := ∀ p, files s !! p = None → files s' !! p = None.
Lemma remove_shrinks path s r s' : on_files (remove path) s = (r, s') → shrinks s s' ∧ (r = Ok () ∨ r = Err (FileFailed Missing) → files s' !! path = None).
Proof using Type.
  intros (r0 & H & _ & ->)%on_files_step. unfold remove in H. destruct (next_fault (st_world s)) as [b w] eqn:Ef.
  apply next_fault_spec in Ef as [[Hf _] _]. unfold shrinks, files.
  destruct b; [injection H as <- <-; split; [intros p; by rewrite Hf|by intros [|]]|].
  destruct (w_fs (st_world s) !! path) eqn:El; injection H as <- <-; cbn.
  - split; [intros p Hp|intros _; apply lookup_delete_eq]. apply lookup_delete_None. by right.
  - split; [intros p; by rewrite Hf|intros _; by rewrite Hf].
Qed.
Lemma remove_all_shrinks path s r s' : on_files (remove_all path) s = (r, s') →
  shrinks s s' ∧ (r = Ok () → ∀ p, within path p = true → files s' !! p = None).
Proof using Type.
  intros (r0 & H%remove_all_files & _ & ->)%on_files_step. unfold shrinks, files. rewrite H. destruct r0; [|done]. split.
  - intros p Hp. apply map_lookup_filter_None. by left.
  - intros _ p Hp. apply map_lookup_filter_None. right. intros n _ Hn. cbn in Hn. congruence.
Qed.
Lemma remove_or_missing_shrinks f path s r s' : remove_or_missing f path s = (r, s') → shrinks s s' ∧ (r = Ok () → files s' !! path = None).
Proof using Type.
  unfold remove_or_missing. rewrite bind_try. destruct (on_files (remove path) s) as [r1 s1] eqn:E1. apply remove_shrinks in E1 as [H1 H2].
  intros H. assert (s' = s1) as -> by (repeat case_match; by injection H). split; [done|]. intros ->.
  repeat case_match; try done; apply H2; [|by right]. left. by repeat match goal with x : () |- _ => destruct x end.
Qed.
Lemma remove_layer_gone layer s r s' : remove_layer StorePath layer s = (r, s') →
  shrinks s s' ∧ (r = Ok () → is_digest layer = true → ∀ p, all_areas StorePath layer p → files s' !! p = None).
Proof using Type.
  unfold remove_layer, removeLayerRecords. intros H.
  apply bind_M in H as [([] & s1 & (r1 & E1 & H1)%map_error_step & H)|(e & (r1 & E1 & _)%map_error_step & ->)].
  - rewrite (H1 () eq_refl) in E1. apply bind_M_ok in E1 as ([] & s3 & [G1 G2]%remove_all_shrinks & [G3 G4]%remove_all_shrinks).
    apply bind_M in H as [([] & s4 & [G5 G6]%remove_or_missing_shrinks & [G7 G8]%remove_or_missing_shrinks)|(e & [G5 G6]%remove_or_missing_shrinks & ->)].
    + split; [intros p Hp; by apply G7, G5, G3, G1|]. intros -> Hd p Hp.
      apply (remove_layer_area _ _ Hd) in Hp as [Hp|[Hp|[-> | ->]]];
        [apply G7, G5, G3; by apply G2|apply G7, G5; by apply G4|apply G7; by apply G6|by apply G8].
    + split; [intros p Hp; by apply G5, G3, G1|done].
  - split; [|done].
    apply bind_M in E1 as [([] & s3 & [G1 _]%remove_all_shrinks & [G3 _]%remove_all_shrinks)|(e' & [G1 _]%remove_all_shrinks & _)]; [|done].
    intros p Hp. by apply G3, G1.
Qed.
Lemma remove_layers_gone layers s r s' : remove_layers StorePath layers s = (r, s') →
  shrinks s s' ∧ (r = Ok () → ∀ layer p, layer ∈ layers → is_digest layer = true → all_areas StorePath layer p → files s' !! p = None).
Proof using Type.
  revert s. induction layers as [|x layers IH]; intros s; cbn [remove_layers].
  { intros [= <- <-]. split; [by intros p|]. by intros _ ? ? ?%elem_of_nil. }
  intros [([] & s1 & [G1 G2]%remove_layer_gone & [G3 G4]%IH)|(e & [G1 G2]%remove_layer_gone & ->)]%bind_M; [|by split].
  split; [intros p Hp; by apply G3, G1|]. intros -> layer p [->|Hl]%elem_of_cons Hd Hp; [apply G3; by eapply G2|by eapply G4].
Qed.

(** C18: Removing an application takes no layer another one needs.  Whatever calls fail
    on the way, the repository, the older copy and the records of every layer of an
    application that is still installed, or that a rollback can bring back, are left as
    they were, and so are the records of the applications; and when the removal is
    done, nothing is left of the layers of the removed application that none of them
    has. *)
Theorem removal_keeps_needed_layers removed s r s' :
  clean_paths s → Forall (λ layer, is_digest layer = true) (ap_ParsedLayers removed) →
  removeApplicationLayers StorePath deps removed s = (r, s') →
  (∀ layer, is_digest layer = true → deps_keep deps (all_areas StorePath layer) → needed s layer →
     apps s' = apps s ∧ ∀ p, all_areas StorePath layer p → files s' !! p = files s !! p) ∧
  (r = Ok () → ∀ layer p, layer ∈ ap_ParsedLayers removed → ¬needed s layer → all_areas StorePath layer p → files s' !! p = None).
Proof using elaws store_abs.
  intros Hc Hdig H. unfold removeApplicationLayers in H. rewrite list.Forall_forall in Hdig. split.
  - intros layer Hd Hk Hn. set (P := all_areas StorePath layer) in *.
    enough (kept P s s') as (_ & ? & ?) by done.
    apply bind_M in H as [(l & s1 & H1 & H)|(e & H1 & _)]; pose proof (undisturbed_kept P _ _ Hc (reading_map_error _ _ reading_apps _ _ _ H1)) as K1; [|done].
    apply bind_M in H as [(h & s2 & H2 & H)|(e & H2 & _)];
      pose proof (undisturbed_kept P _ _ (proj1 K1) (reading_rollback _ _ _ _ H2)) as K2; [|by eapply kept_trans].
    pose proof (proj1 (referenced_needed _ _ _ _ _ layer Hc H1 H2) Hn) as Href.
    refine (kept_trans _ _ _ _ (kept_trans _ _ _ _ K1 K2) _).
    assert (∀ name, name ∈ removable_layers (layers_of (l ++ h)) [] (ap_ParsedLayers removed) → is_digest name = true ∧ name ≠ layer) as Hx.
    { intros name (Hin & _ & Hout)%removable_elem. split; [by apply Hdig|]. by intros ->. }
    refine (proj1 ((_ : keeps P (λ _, True) _) _ _ _ (proj1 K2) H)).
    eapply keeps_bind; [by apply keeps_prepared|]. intros _ _. apply keeps_remove_layers.
    + intros name p [Hnd Hne]%Hx Hp. split; [by eapply area_other_layer; [..|exact Hp]; [|..|apply digest_plain|]|].
      rewrite (proj1 (legacy_layer StorePath store_abs name (digest_plain _ Hnd))).
      eapply all_areas_legacy; [done|exact Hd|by apply digest_plain|done|exact Hp].
    + intros name suffix [Hnd Hne]%Hx Hs Hp. by eapply (area_record StorePath store_abs layer name suffix).
  - intros ->. apply bind_M_ok in H as (l & s1 & H1 & H). apply bind_M_ok in H as (h & s2 & H2 & H).
    intros layer p Hin Hout Hp. rewrite (referenced_needed _ _ _ _ _ _ Hc H1 H2) in Hout. apply bind_M_ok in H as ([] & s3 & _ & [_ H]%remove_layers_gone).
    eapply H; [done|by apply removable_elem; split_and!; [|apply not_elem_of_nil|]|by apply Hdig|done].
Qed.

(** What collecting garbage leaves of a layer: all of it, less the copy of the older
    store when fvs has the layer. *)
Definition spared (layer p : string) : Prop :=
  layer_area StorePath layer p ∨ (¬fvs_has StorePath deps layer ∧ within (GetInStoreDir StorePath "layers" [layer]) p = true).
Lemma spared_area layer p : spared layer p → all_areas StorePath layer p.
Proof using Type. intros [?|[_ ?]]; [by left|by right]. Qed.
Lemma spared_below layer p : is_digest layer = true → spared layer p → ∃ t, p = below_store StorePath +:+ t.
Proof using store_abs.
  intros Hd [Hp|[_ Hp]].
  - apply area_below in Hp as [(t & _ & ->)|[-> | ->]]; [by eexists..|done|done].
  - rewrite (proj1 (legacy_layer StorePath store_abs layer (digest_plain _ Hd))) in Hp. apply within_iff in Hp as (t & _ & ->).
    rewrite app_assoc_str. by eexists.
Qed.

Lemma keeps_garbage layer referenced apply :
  is_digest layer = true → deps_keep deps (spared layer) → layer ∈ referenced → is_abs CachePath = true →
  (∀ name t, plain name → within (path_join [CachePath; name]) (below_store StorePath +:+ t) = false) →
  keeps (spared layer) (λ _, True) (collectOrphanedLayers StorePath node_size deps referenced apply) ∧
  keeps (spared layer) (λ _, True) (collectOrphanedLayerRecords StorePath referenced apply) ∧
  keeps (spared layer) (λ _, True) (collectCachedLayers CachePath node_size apply) ∧
  keeps (spared layer) (λ _, True) (fvsRepositories StorePath).
Proof using store_abs.
  intros Hd Hk Hr Hca Hcache.
  assert (∀ sub, plain sub → is_abs (below_store StorePath +:+ sub) = true) as Habs.
  { intros sub Hs. apply (below_abs StorePath store_abs [sub]); [by apply plain_one|done]. }
  assert (is_abs (fvsLayersPath StorePath) = true) as Hfvs.
  { rewrite layers_path by done. by apply (below_abs StorePath store_abs ["fvs"; "layers"]); [apply plain_two|]. }
  assert (is_abs (legacyLayersPath StorePath) = true) as Hleg by (rewrite legacy_path by done; by apply Habs).
  split_and!.
  - unfold collectOrphanedLayers. eapply keeps_bind; [|intros items _; eapply keeps_bind; [|intros; by apply keeps_ret]].
    + apply keeps_read_or; [done|]. intros entries Hn. apply keeps_orphans; [done| |done]. intros name p Hname Hx Hp.
      eapply area_other_layer; [done|exact Hd|done| |by apply spared_area]. intros ->. destruct Hx as [?|[Hl%bool_decide_eq_true _]]; [done|].
      rewrite layers_path, legacy_path in Hl by done. by apply (inj _) in Hl.
    + apply keeps_read_or; [done|]. intros entries Hn. apply keeps_orphans; [done| |done]. intros name p Hname Hx Hp.
      rewrite (proj2 (legacy_layer StorePath store_abs name Hname)).
      destruct (decide (name = layer)) as [->|Hne]; [|eapply all_areas_legacy; [done|exact Hd|done|done|by apply spared_area]].
      destruct Hp as [Hp|[Hno _]]; [by eapply area_legacy|]. by destruct Hx as [?|[_ ?]].
  - unfold collectOrphanedLayerRecords. destruct apply; cbn [negb]; [|by apply keeps_ret]. apply keeps_read_or.
    + rewrite in_store_one by done. by apply Habs.
    + intros entries _. apply keeps_orphaned_records. intros name suffix Hn Hout Hs Hp.
      eapply (area_record StorePath store_abs layer name suffix); [done|done|by intros ->|done|by apply spared_area|done].
  - apply keeps_read_or; [done|]. intros entries Hn. apply keeps_cached; [|done]. intros name p Hname Hp.
    apply spared_below in Hp as [t ->]; [|done]. by apply Hcache.
  - apply keeps_read_or; [done|]. intros entries _. by apply keeps_ret.
Qed.

Lemma reading_garbage referenced : deps_read deps →
  reading (collectOrphanedLayers StorePath node_size deps referenced false) ∧ reading (collectCachedLayers CachePath node_size false) ∧
  reading (fvsRepositories StorePath).
Proof using Type.
  intros Hd. assert (∀ f path, reading (collect node_size false f path)) as Hc.
  { intros f path. unfold collect. apply reading_bind; [apply reading_map_error|intros; apply reading_bind; intros; apply reading_ret].
    intros s r s' (r0 & H & He & _)%on_files_step. unfold garbageItem in H.
    destruct (next_fault (st_world s)) as [b w] eqn:Ef. apply next_fault_spec in Ef as [Hf Hu]. injection H as _ ->.
    split; [done|]. split; [exact Hf|]. unfold quiet_state. intros Hq. by destruct (Hu Hq) as [_ ->]. }
  assert (∀ X directory (f : list (string * bool) → SM package_state storage_error X) (x : X), (∀ entries, reading (f entries)) →
    reading (entries ← try (on_files (ReadDir directory));
      match entries with Err (FileFailed Missing) => mret x | Err e => fail (StoreFault e) | Ok entries => f entries end)) as Hread.
  { intros X directory f x Hf. apply reading_bind; [apply reading_try, reading_read_dir|]. intros [entries|e]; [apply Hf|].
    repeat case_match; apply reading_ret || apply reading_fail. }
  assert (∀ legacy directory, reading (orphans_of StorePath node_size deps referenced false legacy directory)) as Ho.
  { intros legacy directory. apply Hread. intros entries. induction entries as [|[name d] entries IH]; cbn [orphans_in]; [apply reading_ret|].
    case_match; [exact IH|]. apply reading_bind.
    - repeat case_match; try apply reading_ret. apply reading_bind; [|intros; apply reading_ret].
      apply reading_bind; [apply read_States, Hd|intros; apply reading_ret].
    - intros []; [exact IH|]. apply reading_bind; [apply Hc|]. intros. apply reading_bind; [exact IH|intros; apply reading_ret]. }
  split_and!.
  - unfold collectOrphanedLayers. apply reading_bind; [apply Ho|]. intros. apply reading_bind; [apply Ho|intros; apply reading_ret].
  - apply Hread. intros entries. induction entries as [|[name d] entries IH]; cbn [cached_in]; [apply reading_ret|].
    apply reading_bind; [apply Hc|]. intros. apply reading_bind; [exact IH|intros; apply reading_ret].
  - apply Hread. intros. apply reading_ret.
Qed.

(** C19: Collecting garbage keeps what is in use.  Whatever calls fail on the way, the
    repository and the records of every layer of an application that is installed, or
    that a rollback can bring back, are left as they were, and so is the copy of the
    older store unless fvs has the layer; asked only to report, nothing changes. *)
Theorem garbage_spares_needed_layers apply s r s' :
  clean_paths s → is_abs CachePath = true →
  (∀ name t, plain name → within (path_join [CachePath; name]) (below_store StorePath +:+ t) = false) →
  CollectGarbage home StorePath CachePath node_size deps apply s = (r, s') →
  (∀ layer, is_digest layer = true → deps_keep deps (spared layer) → needed s layer →
     apps s' = apps s ∧ ∀ p, spared layer p → files s' !! p = files s !! p) ∧
  (apply = false → deps_read deps → undisturbed s s').
Proof using elaws store_abs.
  intros Hc Hca Hcache H. split.
  - intros layer Hd Hk Hn. set (P := spared layer) in *. enough (kept P s s') as (_ & ? & ?) by done.
    unfold CollectGarbage in H.
    apply bind_M in H as [(l & s1 & H1 & H)|(e & H1 & _)]; pose proof (undisturbed_kept P _ _ Hc (reading_map_error _ _ reading_apps _ _ _ H1)) as K1; [|done].
    unfold collectGarbageReport in H. apply bind_M in H as [(h & s2 & H2 & H)|(e & H2 & _)];
      pose proof (undisturbed_kept P _ _ (proj1 K1) (reading_rollback _ _ _ _ H2)) as K2; [|by eapply kept_trans].
    pose proof (proj1 (referenced_needed _ _ _ _ _ layer Hc H1 H2) Hn) as Href.
    refine (kept_trans _ _ _ _ (kept_trans _ _ _ _ K1 K2) _).
    refine (proj1 ((_ : keeps P (λ _, True) _) _ _ _ (proj1 K2) H)).
    eapply keeps_bind; [apply keeps_reading, reading_installed_layers|]. intros installed _. cbn zeta.
    destruct (keeps_garbage layer (layers_of (l ++ h) ++ installed) apply Hd Hk) as (G1 & G2 & G3 & G4); [apply elem_of_app; by left|done|done|].
    eapply keeps_bind; [exact G1|]. intros layers _. eapply keeps_bind; [exact G2|]. intros _ _. eapply keeps_bind; [exact G3|]. intros cache _.
    eapply keeps_bind; [exact G4|]. intros repositories _. eapply keeps_bind; [apply keep_GCShared, Hk|]. intros fvs _.
    eapply keeps_bind; [by apply keeps_driver_garbage|]. intros driver _. eapply keeps_bind; [apply keep_legacy, Hk|]. intros legacy _.
    destruct (default _ legacy) as [[? ?] ?]. by apply keeps_ret.
  - intros -> Hd. revert H. unfold CollectGarbage, collectGarbageReport. generalize dependent s'. generalize dependent r. generalize s. clear Hc.
    change (reading (l ← from_updates GetInstalledApps; collectGarbageReport home StorePath CachePath node_size deps l false)).
    apply reading_bind; [apply reading_map_error, reading_apps|]. intros l. unfold collectGarbageReport.
    apply reading_bind; [apply reading_rollback|]. intros h. apply reading_bind; [apply reading_installed_layers|]. intros installed. cbn zeta.
    destruct (reading_garbage (layers_of (l ++ h) ++ installed) Hd) as (G1 & G2 & G3).
    apply reading_bind; [exact G1|]. intros layers. apply reading_bind; [apply reading_ret|]. intros _. apply reading_bind; [exact G2|]. intros cache.
    apply reading_bind; [exact G3|]. intros repositories. apply reading_bind; [apply read_GCShared, Hd|]. intros fvs. apply reading_bind.
    { unfold collectStorageDriverGarbage. apply reading_bind; [apply read_driverName, Hd|]. intros name.
      apply reading_bind; [apply read_LoadIndex, Hd|]. intros [i|]; [|apply reading_ret]. apply reading_bind; [apply read_GC, Hd|]. intros result.
      apply reading_bind; intros; apply reading_ret. }
    intros driver. apply reading_bind; [apply read_legacy, Hd|]. intros legacy. destruct (default _ legacy) as [[? ?] ?]. apply reading_ret.
Qed.
End Theorems.

(** ** Examples *)
#[export] Instance driver_index_example : DriverIndex := {|
  index := unit; ix_Driver _ := ""; ix_Layers _ := ∅; ix_Remove _ i := i; ValidateDriverPath _ _ := false
|}.
Definition storage_deps_example : storageDeps := mkStorageDeps _ _
  (λ _, mret None) (λ _ _, mret (mkFvs 0 0 0 0)) (mret "fvs") (λ _, "/d") (λ _, mret None) (λ _ _, mret ()) (λ _, mret ())
  (λ _ _, mret true) (λ _ _ _, mret ([], 0%Z)) (λ _ _, mret None).
Lemma storage_deps_keep P : deps_keep storage_deps_example P.
Proof. split; intros; by apply keeps_ret. Qed.

Definition layer_named (c : ascii) : string := String.string_of_list_ascii (repeat c 64).
Definition shared_layer : string := layer_named "a".
Definition own_layer : string := layer_named "b".
Definition app_with (id : string) (layers : list string) : Application :=
  mkApplication id id "1" "main" "" "" ("h/a/" +:+ id) "" "" "" "" layers [] [] [] [] [] None 0 [] NewOverride false "".
Definition layer_file (layer : string) : string := "/s/fvs/layers/" +:+ layer +:+ "/state".
Definition storage_files : gmap string node :=
  list_to_map (((λ path, (path, Directory 1000 493)) <$> ["/s/fvs/layers"; "/s/fvs/layers/" +:+ shared_layer; "/s/fvs/layers/" +:+ own_layer]) ++
    [("/s/bindings/" +:+ own_layer +:+ ".json", File 1000 384 ""); (layer_file shared_layer, File 1000 384 "1"); (layer_file own_layer, File 1000 384 "2")]).
Definition storage_state : package_state :=
  mkState (mkWorld storage_files 1000 []) (<["k" := app_with "k" [shared_layer]]> ∅).

Lemma storage_clean : clean_paths storage_state.
Proof.
  assert (map_Forall (λ p (_ : node), clean p = p) storage_files) as H.
  { refine (bool_decide_unpack _ _). by vm_compute. }
  intros p [n Hn]. exact (H p n Hn).
Qed.
Lemma shared_needed : needed "/s" storage_state shared_layer.
Proof. exists (app_with "k" [shared_layer]). split; [by left|]. left. by exists "k". Qed.
Lemma own_unneeded : ¬needed "/s" storage_state own_layer.
Proof.
  intros (app & Hl & [(k & Hk)|[Hd _]]); [|by vm_compute in Hd].
  unfold apps, storage_state in Hk. cbn in Hk. apply lookup_insert_Some in Hk as [[<- <-]|[_ Hk]]; [|by rewrite lookup_empty in Hk].
  apply list_elem_of_singleton in Hl. by vm_compute in Hl.
Qed.

Lemma removal_keeps_needed_layers_witness :
  let '(r, s) := removeApplicationLayers "/s" storage_deps_example (app_with "r" [shared_layer; own_layer]) storage_state in
  r = Ok () ∧ files s !! layer_file shared_layer = files storage_state !! layer_file shared_layer ∧ files s !! layer_file own_layer = None.
Proof.
  destruct (removeApplicationLayers _ _ _ _) as [r s] eqn:H.
  assert (r = Ok ()) as ->.
  { assert ((removeApplicationLayers "/s" storage_deps_example (app_with "r" [shared_layer; own_layer]) storage_state).1 = Ok ()) as Hr
      by (vm_compute; reflexivity). by rewrite H in Hr. }
  destruct (removal_keeps_needed_layers "/s" storage_deps_example eq_refl (app_with "r" [shared_layer; own_layer]) storage_state (Ok ()) s
    storage_clean) as [H1 H2]; [|exact H|].
  { repeat constructor. }
  split; [reflexivity|]. split.
  - apply (H1 shared_layer); [by vm_compute|apply storage_deps_keep|exact shared_needed|]. left. left. by vm_compute.
  - apply (H2 eq_refl own_layer); [by right; left|exact own_unneeded|]. left. left. by vm_compute.
Defined.

Lemma cache_apart_example name t : plain name → within (path_join ["/c"; name]) (below_store "/s" +:+ t) = false.
Proof.
  intros Hn. assert (path_join ["/c"; name] = "/c/" +:+ name) as -> by (rewrite (store_path "/c" [name]); [done..|by apply plain_one]).
  apply not_true_iff_false. intros (u & _ & H)%within_iff. done.
Qed.
Lemma garbage_spares_needed_layers_witness :
  let '(r, s) := CollectGarbage home_example "/s" "/c" (λ _, 1%Z) storage_deps_example true storage_state in
  is_ok r = true ∧ files s !! layer_file shared_layer = files storage_state !! layer_file shared_layer ∧
  files s !! layer_file own_layer = None.
Proof.
  destruct (CollectGarbage _ _ _ _ _ _ _) as [r s] eqn:H.
  assert ((let '(r, s) := CollectGarbage home_example "/s" "/c" (λ _, 1%Z) storage_deps_example true storage_state in
    (is_ok r, files s !! layer_file own_layer)) = (true, None)) as Hr by (vm_compute; reflexivity).
  rewrite H in Hr. injection Hr as Hr Hf. split; [exact Hr|]. split; [|exact Hf].
  destruct (garbage_spares_needed_layers home_example "/s" "/c" (λ _, 1%Z) storage_deps_example eq_refl true storage_state r s
    storage_clean eq_refl cache_apart_example H) as [H1 _].
  apply (H1 shared_layer); [by vm_compute|apply storage_deps_keep|exact shared_needed|]. left. left. by vm_compute.
Defined.
