(* ===== verification/Removal.v ===== *)
(** * Removing an application ([pkg/cpak/installer.go], [container.go])

    [Remove] and [Purge] with the checks that refuse them: what still depends on the
    application, what is composed with it as an addon, the login sessions that go with it,
    its layers, its data and its exported launchers. *)
From Stdlib Require Import Ascii.
From stdpp Require Import base strings list numbers gmap.
From S2P Require Import Prelude.
From S2P Require Import GoStrings.
From S2P Require Import Utf8.
From S2P Require Import GoPath.
From S2P Require Import Hex.
From S2P Require Import TrustedFiles.
From S2P Require Import Override.
From S2P Require Import Applications.
From S2P Require Import Repository.
From S2P Require Import Composition.
From S2P Require Import Updates.
From S2P Require Import NestedAuth.
From S2P Require Import Addons.
From S2P Require Import Storage.
From stdpp Require Import options.

#[local] Open Scope nat_scope.

Inductive removal_error : Type :=
  | StoreRefused (e : update_error) | NotFound (origin : string) | SeveralInstalled (origin : string) | NoSelector (origin : string)
  | UsersUnread (e : addon_error) | EnabledBy (origins : list string) | RequiredBy (origins : list string)
  | StopFailed (e : removal_error) | SessionsFailed (e : removal_error) | ConfigurationKept (e : addon_error)
  | LayersKept (e : storage_error) | DataKept (e : removal_error) | IdInvalid | OutsideFailed.

Notation G := (SM package_state removal_error).

(** What a removal asks of the rest of the program: containers, the session registry of
    the authority, desktop files, grants and the enrolment. *)
Record removalDeps {E : Engine} : Type := mkRemovalDeps {
  StopContainerInstance : Application → string → G ();
  disableRegisteredSessions : string → list Session → G ();
  removeExports_of : Application → G ();
  grants_Clear : string → G ();
  forgetEnrolment : Application → G ()
}.

Section Removal.
Context {text : NetText} {sha256 : string → string} {E : Engine} {codec : AddonCodec} {ucodec : UpdateCodec} {I : DriverIndex}.
Context (home : option string) (StorePath ExportsPath : string) (storage : storageDeps) (deps : removalDeps).

Definition stored {X} (m : SM package_state update_error X) : G X := map_error StoreRefused m.

(** ** Containers *)
Definition StopInstance (origin version branch commit release instance : string) : G () :=
  stored NewStore ;;;
  app ← stored (GetApplicationByOrigin origin version branch commit release);
  if bool_decide (ap_CpakId app = "") then fail (NotFound origin)
  else StopContainerInstance deps app instance.
Definition Stop (origin version branch commit release : string) : G () := StopInstance origin version branch commit release "".

(** ** What is in the way *)
Definition dependencyUsers (cpakID : string) : G (list Application) :=
  l ← stored GetInstalledApps;
  mret (filter (λ app, cpakID ∈ de_Id <$> ap_ParsedDependencies app) l).

Definition version_selected (branch commit release : string) (app : Application) : bool :=
  (negb (bool_decide (branch = "")) && bool_decide (ap_Branch app = branch)) ||
  (negb (bool_decide (commit = "")) && bool_decide (ap_Commit app = commit)) ||
  (negb (bool_decide (release = "")) && bool_decide (ap_Release app = release)).
Definition sessionsRemovedByVersionSelection (l : list Application) (branch commit release : string) : list Session * nat :=
  let chosen := filter (λ app, version_selected branch commit release app = true) l in
  let others := filter (λ app, version_selected branch commit release app = false) l in
  let held := others ≫= λ app, ss_ID <$> ap_ParsedSessions app in
  (filter (λ session, ss_ID session ∉ held) (chosen ≫= ap_ParsedSessions), length others).

(** ** Data *)
Definition remove_or_gone (path : string) : G () :=
  removed ← try (on_files (remove path));
  match removed with
  | Ok _ | Err (FileFailed Missing) => mret ()
  | Err e => fail (StoreRefused e)
  end.
Definition applicationDataPath (id : string) : result removal_error string :=
  if bool_decide (trim_space id = "") || bool_decide (id = ".") || bool_decide (id = "..") ||
     has_byte slash id || has_byte "\"%char id || has_byte "000"%char id then Err IdInvalid
  else Ok (GetInStoreDir StorePath "application-data" [id]).
Definition applicationIdentityPath (id : string) : result removal_error string :=
  if bool_decide (trim_space id = "") then Err IdInvalid
  else Ok (GetInStoreDir StorePath "identities" [hex_encode (sha256 id) +:+ ".machine-id"]).
Definition purgeApplicationData (app : Application) (clearOriginState : bool) : G () :=
  match applicationDataPath (ap_CpakId app) with
  | Ok path => stored (on_files (remove_all path))
  | Err _ => mret ()
  end ;;;
  identity ← lift (applicationIdentityPath (ap_CpakId app));
  remove_or_gone identity ;;;
  if clearOriginState then grants_Clear deps (ap_Origin app) else mret ().

(** ** Exports *)

(** A failure that is passed over. *)
Definition logged (m : G ()) : G () := outcome ← (try m : G (result removal_error ())); mret ().

(** The directories left empty are removed upwards. *)
Fixpoint prune (fuel : nat) (directory : string) : G () :=
  match fuel with
  | 0 => mret ()
  | S fuel =>
      if bool_decide (directory = ExportsPath) || bool_decide (directory = "/") then mret ()
      else
        entries ← try (on_files (ReadDir directory) : SM package_state update_error _);
        match entries with
        | Ok [] =>
            logged (stored (on_files (remove directory))) ;;;
            prune fuel (dir directory)
        | _ => mret ()
        end
  end.
Definition removeBinaryExport (origin name : string) : G () :=
  let path := path_join (ExportsPath :: split_byte slash origin ++ [name]) in
  remove_or_gone path ;;;
  prune (S (slen path)) (dir path).

(** ** Removing *)
Definition removed_by (origin branch commit release : string) : SM package_state update_error () :=
  if negb (bool_decide (branch = "")) then RemoveApplicationByOriginAndBranch origin branch
  else if negb (bool_decide (commit = "")) then RemoveApplicationByOriginAndCommit origin commit
  else RemoveApplicationByOriginAndRelease origin release.

(** The part after the application is chosen. *)
Definition remove_chosen (app : Application) (installed : list Application) (origin branch commit release : string) (purge : bool) : G () :=
  let '(sessions, remaining) := sessionsRemovedByVersionSelection installed branch commit release in
  users ← map_error UsersUnread (addonUsers home (ap_Origin app));
  match users with
  | _ :: _ => fail (EnabledBy (ap_Origin <$> users))
  | [] =>
      users ← dependencyUsers (ap_CpakId app);
      match users with
      | _ :: _ => fail (RequiredBy (ap_Origin <$> users))
      | [] =>
          map_error StopFailed (Stop (ap_Origin app) (ap_Version app) (ap_Branch app) (ap_Commit app) (ap_Release app)) ;;;
          (if bool_decide (sessions = []) then mret () else map_error SessionsFailed (disableRegisteredSessions deps origin sessions)) ;;;
          stored NewStore ;;;
          stored (removed_by origin branch commit release) ;;;
          logged (removeExports_of deps app) ;;;
          map_error ConfigurationKept (removeAddonConfiguration home app) ;;;
          stored (clearRollbackHistory sha256 StorePath origin) ;;;
          map_error LayersKept (removeApplicationLayers StorePath storage app) ;;;
          (if purge then map_error DataKept (purgeApplicationData app (bool_decide (remaining = 0))) else mret ()) ;;;
          logged (forgetEnrolment deps app)
      end
  end.

Definition remove_application (origin branch commit release : string) (purge : bool) : G () :=
  stored NewStore ;;;
  installed ← stored (GetApplicationsByOrigin origin "" "" "" "");
  selector ← (if bool_decide (branch = "") && bool_decide (commit = "") && bool_decide (release = "") then
                match installed with
                | [] => fail (NotFound origin)
                | [app] =>
                    if bool_decide (ap_Branch app = "") && bool_decide (ap_Commit app = "") && bool_decide (ap_Release app = "")
                    then fail (NoSelector origin) else mret (ap_Branch app, ap_Commit app, ap_Release app)
                | _ => fail (SeveralInstalled origin)
                end
              else mret (branch, commit, release));
  let '(branch, commit, release) := selector in
  found ← try (GetApplicationByOrigin origin "" branch commit release);
  match found with
  | Err _ => fail (NotFound origin)
  | Ok app =>
      if bool_decide (ap_CpakId app = "") then fail (NotFound origin)
      else remove_chosen app installed origin branch commit release purge
  end.
Definition Remove (origin branch commit release : string) : G () := remove_application origin branch commit release false.
Definition Purge (origin branch commit release : string) : G () := remove_application origin branch commit release true.
End Removal.

(** ** Which records go *)
Section Records.
Context {E : Engine} {elaws : EngineLaws E}.

(** The records of applications are left alone. *)
Definition same_apps {Er X} (m : SM package_state Er X) : Prop := ∀ s r s', m s = (r, s') → apps s' = apps s.
Lemma same_reading {Er X} (m : SM package_state Er X) : reading m → same_apps m.
Proof using Type. intros Hm s r s' H. unfold apps. by destruct (Hm _ _ _ H) as [-> _]. Qed.
Lemma reading_selected origin version branch commit release : reading (GetApplicationsByOrigin origin version branch commit release).
Proof using Type. unfold GetApplicationsByOrigin. apply reading_bind; [apply reading_engine|intros; apply reading_ret]. Qed.
Lemma selected_elem origin version branch commit release s found s' :
  GetApplicationsByOrigin origin version branch commit release s = (Ok found, s') →
  ∀ a, a ∈ found ↔ (∃ k, apps s !! k = Some a) ∧ ap_Origin a = origin ∧ selects version branch commit release a = true.
Proof using elaws.
  unfold GetApplicationsByOrigin. intros (all & s1 & H1 & [= <- _])%bind_M_ok a. unfold engine_read in H1.
  destruct (next_fault _) as [[] w]; [done|]. injection H1 as <- _. rewrite list_elem_of_filter, index_spec. unfold apps.
  split; [intros (Hs & k & Hk & Ho); split_and!; [by exists k|done|done]|intros ((k & Hk) & Ho & Hs); split; [done|by exists k]].
Qed.

(** Only what was found is removed, each under its own identifier. *)
Lemma remove_each_spec found s r s' :
  remove_each found s = (r, s') →
  (∀ k a, apps s' !! k = Some a → apps s !! k = Some a) ∧
  (∀ k, apps s !! k ≠ None → apps s' !! k = None → ∃ a, a ∈ found ∧ ap_CpakId a = k) ∧
  (r = Ok () → ∀ a, a ∈ found → apps s' !! ap_CpakId a = None).
Proof using elaws.
  revert s. induction found as [|x found IH]; intros s; cbn [remove_each].
  { intros [= <- <-]. split_and!; [done|by intros k Hk Hn|by intros _ a ?%elem_of_nil]. }
  assert (∀ s1 r1, RemoveApplicationByCpakId (ap_CpakId x) s = (r1, s1) →
    apps s1 = match r1 with Ok _ => delete (ap_CpakId x) (apps s) | Err _ => apps s end) as Hrem.
  { intros s1 r1. unfold RemoveApplicationByCpakId, engine_write. destruct (next_fault _) as [[] w]; intros [= <- <-]; [done|]. apply held_Delete. }
  intros [([] & s1 & H1 & (G1 & G2 & G3)%IH)|(e & H1 & ->)]%bind_M; apply Hrem in H1; rewrite H1 in *.
  - split_and!.
    + intros k a Hk. apply G1 in Hk. by apply lookup_delete_Some in Hk as [_ Hk].
    + intros k Hk Hn. destruct (decide (ap_CpakId x = k)) as [Hx|Hx]; [exists x; by split; [left|]|].
      destruct (G2 k) as (a & Ha & Hak); [by rewrite lookup_delete_ne|done|]. exists a. by split; [right|].
    + intros -> a [->|Ha]%elem_of_cons; [|by apply G3]. destruct (apps s' !! ap_CpakId x) as [b|] eqn:Eb; [|done].
      apply G1 in Eb. by rewrite lookup_delete_eq in Eb.
  - split_and!; [done|by intros k Hk Hn|done].
Qed.

Lemma removed_by_spec origin branch commit release s r s' :
  removed_by origin branch commit release s = (r, s') → keyed (apps s) →
  (branch ≠ "" ∨ commit ≠ "" ∨ release ≠ "") →
  (∀ k a, apps s' !! k = Some a → apps s !! k = Some a) ∧
  (∀ k a, apps s !! k = Some a → apps s' !! k = None → ap_Origin a = origin ∧ version_selected branch commit release a = true) ∧
  (r = Ok () → ∀ k a, apps s !! k = Some a → ap_Origin a = origin →
     selects "" branch commit release a = true → apps s' !! k = None).
Proof using elaws.
  intros H Hk Hsel.
  assert (∀ b c l found s1, GetApplicationsByOrigin origin "" b c l s = (Ok found, s1) → remove_each found s1 = (r, s') →
    (∀ a, selects "" b c l a = true → version_selected branch commit release a = true) →
    (∀ a, selects "" branch commit release a = true → selects "" b c l a = true) →
    (∀ k a, apps s' !! k = Some a → apps s !! k = Some a) ∧
    (∀ k a, apps s !! k = Some a → apps s' !! k = None → ap_Origin a = origin ∧ version_selected branch commit release a = true) ∧
    (r = Ok () → ∀ k a, apps s !! k = Some a → ap_Origin a = origin → selects "" branch commit release a = true → apps s' !! k = None)) as Hcase.
  { intros b c l found s1 H1 H2 Himp Himp'. pose proof (same_reading _ (reading_selected _ _ _ _ _) _ _ _ H1) as Ha.
    pose proof (selected_elem _ _ _ _ _ _ _ _ H1) as Hin. apply remove_each_spec in H2 as (G1 & G2 & G3). rewrite Ha in *. split_and!.
    - exact G1.
    - intros k a Hka Hn. destruct (G2 k) as (a' & Ha' & Hid); [by rewrite Hka|done|]. apply Hin in Ha' as ((k' & Hk') & Ho & Hs).
      pose proof (Hk _ _ Hk') as Hid'. assert (k' = k) as -> by congruence. assert (a' = a) as -> by congruence. split; [done|by apply Himp].
    - intros -> k a Hka Ho Hs. rewrite <- (Hk _ _ Hka). apply G3; [done|]. apply Hin. split_and!; [by exists k|done|by apply Himp']. }
  assert (∀ b c l, (found ← GetApplicationsByOrigin origin "" b c l; remove_each found) s = (r, s') →
    (∀ a, selects "" b c l a = true → version_selected branch commit release a = true) →
    (∀ a, selects "" branch commit release a = true → selects "" b c l a = true) →
    (∀ k a, apps s' !! k = Some a → apps s !! k = Some a) ∧
    (∀ k a, apps s !! k = Some a → apps s' !! k = None → ap_Origin a = origin ∧ version_selected branch commit release a = true) ∧
    (r = Ok () → ∀ k a, apps s !! k = Some a → ap_Origin a = origin → selects "" branch commit release a = true → apps s' !! k = None)) as Hall.
  { intros b c l [(found & s1 & H1 & H2)|(e & H1 & ->)]%bind_M H3 H4; [by eapply Hcase|].
    pose proof (same_reading _ (reading_selected _ _ _ _ _) _ _ _ H1) as ->. split_and!; [done| |done]. intros k a H5 H6. congruence. }
  unfold removed_by in H. unfold removed_by, selects, version_selected in Hall |- *.
  destruct (decide (branch = "")) as [Hb|Hb]; [rewrite (bool_decide_eq_true_2 _ Hb) in H|rewrite (bool_decide_eq_false_2 _ Hb) in H]; cbn [negb] in H.
  1: destruct (decide (commit = "")) as [Hcm|Hcm]; [rewrite (bool_decide_eq_true_2 _ Hcm) in H|rewrite (bool_decide_eq_false_2 _ Hcm) in H]; cbn [negb] in H.
  - eapply (Hall "" "" release); [exact H|..]; intros a.
    + rewrite (bool_decide_eq_false_2 (release = "")) by tauto. rewrite !(bool_decide_eq_true_2 ("" = "") eq_refl). cbn. intros Ha. by rewrite Ha, !orb_true_r.
    + by rewrite Hb, Hcm.
  - eapply (Hall "" commit ""); [exact H|..]; intros a.
    + rewrite (bool_decide_eq_false_2 (commit = "")) by done. rewrite !(bool_decide_eq_true_2 ("" = "") eq_refl). cbn. rewrite ?andb_true_r. intros Ha. by rewrite Ha, !orb_true_r.
    + rewrite Hb, (bool_decide_eq_false_2 (commit = "")) by done. rewrite !(bool_decide_eq_true_2 ("" = "") eq_refl). cbn. intros [Ha _]%andb_true_iff. by rewrite Ha.
  - eapply (Hall branch "" ""); [exact H|..]; intros a.
    + rewrite (bool_decide_eq_false_2 (branch = "")) by done. rewrite !(bool_decide_eq_true_2 ("" = "") eq_refl). cbn. rewrite ?andb_true_r. intros Ha. by rewrite Ha.
    + rewrite (bool_decide_eq_false_2 (branch = "")) by done. rewrite !(bool_decide_eq_true_2 ("" = "") eq_refl). cbn. rewrite !andb_true_iff. by intros [[-> _] _].
Qed.
End Records.

(** ** What a removal changes *)
Section Theorems.
Context {text : NetText} {sha256 : string → string} {E : Engine} {elaws : EngineLaws E} {codec : AddonCodec} {ucodec : UpdateCodec} {I : DriverIndex}.
Context (home : option string) (StorePath CachePath ExportsPath : string) (storage : storageDeps) (deps : removalDeps).

(** Nothing below asks the rest of the program to change the records of applications. *)
Record removal_deps_apart : Prop := {
  apart_stop : ∀ app instance, same_apps (StopContainerInstance deps app instance);
  apart_sessions : ∀ origin l, same_apps (disableRegisteredSessions deps origin l);
  apart_exports : ∀ app, same_apps (removeExports_of deps app);
  apart_grants : ∀ origin, same_apps (grants_Clear deps origin);
  apart_enrolment : ∀ app, same_apps (forgetEnrolment deps app);
  apart_driverName : same_apps (storageDriverName storage);
  apart_LoadIndex : ∀ x, same_apps (LoadIndex storage x);
  apart_WriteIndex : ∀ x i, same_apps (WriteIndex storage x i);
  apart_Remove : ∀ x l, same_apps (driver_Remove storage x l)
}.

Lemma same_bind {Er X Y} (m : SM package_state Er X) (f : X → SM package_state Er Y) :
  same_apps m → (∀ x, same_apps (f x)) → same_apps (m ≫= f).
Proof using Type.
  intros Hm Hf s r s' [(x & s1 & H1 & H2)|(e & H1 & _)]%bind_M; [|by eapply Hm].
  rewrite (Hf _ _ _ _ H2). by eapply Hm.
Qed.
Lemma same_map_error {Er Er' X} (f : Er → Er') (m : SM package_state Er X) : same_apps m → same_apps (map_error f m).
Proof using Type. intros Hm s r s' (r0 & H & _)%map_error_step. by eapply Hm. Qed.
Lemma same_try {Er Er' X} (m : SM package_state Er X) : same_apps m → same_apps (try m : SM package_state Er' _).
Proof using Type. intros Hm s r s'. unfold try. destruct (m s) as [r1 s1] eqn:H. intros [= <- <-]. by eapply Hm. Qed.
Lemma same_files {X} (m : M file_error X) : same_apps (on_files m).
Proof using Type. intros s r s' (r0 & _ & He & _)%on_files_step. unfold apps. by rewrite He. Qed.
Lemma same_ret {Er X} (r : result Er X) : same_apps (lift r).
Proof using Type. by intros s r' s' [= _ <-]. Qed.
Lemma same_logged m : same_apps m → same_apps (logged m).
Proof using Type. intros Hm. unfold logged. apply same_bind; [by apply same_try|intros; apply same_ret]. Qed.
Lemma same_or_gone path : same_apps (remove_or_gone path).
Proof using Type.
  unfold remove_or_gone. apply same_bind; [apply same_try, same_files|]. intros r. repeat case_match; apply same_ret.
Qed.
Lemma same_layers layers : same_apps (remove_layers StorePath layers).
Proof using Type.
  assert (∀ f path, same_apps (remove_or_missing f path)) as Hr.
  { intros f path. unfold remove_or_missing. apply same_bind; [apply same_try, same_files|]. intros r. repeat case_match; apply same_ret. }
  induction layers as [|layer layers IH]; cbn [remove_layers]; [apply same_ret|]. apply same_bind; [|intros; exact IH]. unfold remove_layer.
  apply same_bind; [apply same_map_error, same_bind; [apply same_files|intros; apply same_files]|].
  intros _. unfold removeLayerRecords. apply same_bind; [apply Hr|intros; apply Hr].
Qed.
Lemma same_application_layers app : removal_deps_apart → same_apps (removeApplicationLayers StorePath storage app).
Proof using Type.
  intros Hd. unfold removeApplicationLayers. apply same_bind; [apply same_reading, reading_map_error, reading_apps|]. intros l.
  apply same_bind; [apply same_reading, reading_rollback|]. intros h. cbn zeta. apply same_bind; [|intros; apply same_layers].
  unfold removePreparedLayers. case_match; [apply same_ret|]. apply same_bind; [apply Hd|]. intros name. apply same_bind; [apply Hd|].
  intros [i|]; [|apply same_ret]. cbn zeta. case_match; [apply same_ret|]. apply same_bind; [apply Hd|]. intros []; [apply Hd|apply same_ret].
Qed.
Lemma same_purge app clear : removal_deps_apart → same_apps (purgeApplicationData (sha256 := sha256) StorePath deps app clear).
Proof using Type.
  intros Hd. unfold purgeApplicationData. apply same_bind; [case_match; [apply same_map_error, same_files|apply same_ret]|]. intros _.
  apply same_bind; [apply same_ret|]. intros identity. apply same_bind; [apply same_or_gone|]. intros _. case_match; [apply Hd|apply same_ret].
Qed.
Lemma same_configuration app : same_apps (removeAddonConfiguration home app).
Proof using Type.
  unfold removeAddonConfiguration. apply same_bind; [apply same_ret|]. intros path. apply same_bind; [apply same_try, same_files|].
  intros r. repeat case_match; apply same_ret.
Qed.
Lemma same_history origin : same_apps (clearRollbackHistory sha256 StorePath origin).
Proof using Type. unfold clearRollbackHistory. apply same_bind; [apply same_try, same_files|]. intros r. repeat case_match; apply same_ret. Qed.

Lemma same_stop origin version branch commit release : removal_deps_apart → same_apps (Stop deps origin version branch commit release).
Proof using Type.
  intros Hd. unfold Stop, StopInstance. apply same_bind; [apply same_reading, reading_map_error, reading_store|]. intros _.
  apply same_bind; [apply same_map_error; unfold GetApplicationByOrigin; apply same_bind; [apply same_reading, reading_selected|intros []; apply same_ret]|].
  intros a. case_match; [apply same_ret|apply Hd].
Qed.
Lemma same_sessions origin l : removal_deps_apart →
  same_apps (if bool_decide (l = []) then mret () else map_error SessionsFailed (disableRegisteredSessions deps origin l)).
Proof using Type. intros Hd. case_match; [apply same_ret|apply same_map_error, Hd]. Qed.
(** What follows the removal of the records. *)
Lemma same_rest app origin (purge : bool) clear : removal_deps_apart →
  same_apps (logged (removeExports_of deps app) ;;;
    map_error ConfigurationKept (removeAddonConfiguration home app) ;;;
    stored (clearRollbackHistory sha256 StorePath origin) ;;;
    map_error LayersKept (removeApplicationLayers StorePath storage app) ;;;
    (if purge then map_error DataKept (purgeApplicationData (sha256 := sha256) StorePath deps app clear) else mret ()) ;;;
    logged (forgetEnrolment deps app)).
Proof using Type.
  intros Hd. apply same_bind; [apply same_logged, Hd|]. intros _. apply same_bind; [apply same_map_error, same_configuration|]. intros _.
  apply same_bind; [apply same_map_error, same_history|]. intros _. apply same_bind; [by apply same_map_error, same_application_layers|]. intros _.
  apply same_bind; [case_match; [by apply same_map_error, same_purge|apply same_ret]|]. intros _. apply same_logged, Hd.
Qed.
End Theorems.

(** ** What refuses a removal *)
#[local] Existing Instance undisturbed_preorder.

Section Refusals.
Context {text : NetText} {sha256 : string → string} {E : Engine} {elaws : EngineLaws E} {codec : AddonCodec} {ucodec : UpdateCodec} {I : DriverIndex}.
Context (home : option string) (StorePath CachePath : string) (node_size : node → Z) (storage : storageDeps) (deps : removalDeps).

(** The application is neither enabled nor active as an addon of another one. *)
Definition not_addon_of (a : Application) (origin : string) (s : package_state) : Prop :=
  (∃ c, configured home a s c ∧ in_origins origin (normalizedOrigins (ac_Enabled c ++ ac_Chosen c)) = false) ∧
  ∃ s1 active s2, undisturbed s s1 ∧ activeAddonCandidatesFromStore home a s1 = (Ok active, s2) ∧ origin ∉ ap_Origin <$> active.

Lemma configured_before a s s' c : undisturbed s s' → configured home a s' c → configured home a s c.
Proof using Type. intros (_ & [Hf _] & _). apply configured_files. by unfold files. Qed.

Lemma not_addon_before a origin s s' : undisturbed s s' → not_addon_of a origin s' → not_addon_of a origin s.
Proof using Type.
  intros Hu [(c & Hc & Ho) (s1 & active & s2 & U & H1 & H2)]. split; [exists c; split; [by eapply configured_before|done]|].
  exists s1, active, s2. split_and!; [by etrans|done..].
Qed.

Lemma no_users_spec origin s s' : addonUsers home origin s = (Ok [], s') →
  ∀ k a, apps s !! k = Some a → not_addon_of a (ToLower origin) s.
Proof using elaws.
  unfold addonUsers. intros (l & s1 & (r1 & E1 & Hr)%map_error_step & H)%bind_M_ok k a Hk.
  rewrite (Hr _ eq_refl) in E1. apply bind_M_ok in H as ([] & s2 & H2 & H3).
  pose proof (reading_apps _ _ _ E1) as U1. pose proof (reading_map_error _ _ reading_store _ _ _ H2) as U2.
  assert (undisturbed s s2) as U by (by etrans).
  destruct (users_elem home _ _ _ _ _ a H3) as (s3 & r & s4 & active & s5 & U3 & H4 & H5 & H6 & H7);
    [apply (installed_elem _ _ _ E1); by exists k|apply not_elem_of_nil|].
  unfold loadEnabledAddons in H4. apply bind_M_ok in H4 as (c & s6 & H4 & [= <- <-]). apply load_spec in H4 as (U4 & H4 & _). split.
  - exists c. split; [|done]. eapply configured_before; [|by apply H4]. by etrans.
  - exists s6, active, s5. split_and!; [|done..]. etrans; [exact U|]. by etrans.
Qed.

Lemma reading_dependencies id : reading (dependencyUsers id).
Proof using Type. unfold dependencyUsers. apply reading_bind; [apply reading_map_error, reading_apps|intros; apply reading_ret]. Qed.
Lemma no_dependents_spec id s s' : dependencyUsers id s = (Ok [], s') → ∀ k a, apps s !! k = Some a → id ∉ de_Id <$> ap_ParsedDependencies a.
Proof using elaws.
  unfold dependencyUsers. intros (l & s1 & (r1 & E1 & Hr)%map_error_step & [= H _])%bind_M_ok k a Hk Hin.
  rewrite (Hr _ eq_refl) in E1. assert (a ∈ filter (λ app, id ∈ de_Id <$> ap_ParsedDependencies app) l) as Ha.
  { apply list_elem_of_filter. split; [done|]. apply (installed_elem _ _ _ E1). by exists k. }
  rewrite H in Ha. by apply elem_of_nil in Ha.
Qed.

(** What is chosen is installed under the origin that was asked for. *)
Lemma chosen_spec origin branch commit release purge s r s' :
  remove_application (sha256 := sha256) home StorePath storage deps origin branch commit release purge s = (r, s') →
  (undisturbed s s' ∧ ∃ e, r = Err e) ∨
  ∃ app installed b c l s1, undisturbed s s1 ∧ (∃ k, apps s !! k = Some app) ∧ ap_Origin app = origin ∧
    selects "" b c l app = true ∧ (b ≠ "" ∨ c ≠ "" ∨ l ≠ "") ∧ ((b, c, l) = (branch, commit, release) ∨ (branch = "" ∧ commit = "" ∧ release = "")) ∧
    remove_chosen (sha256 := sha256) home StorePath storage deps app installed origin b c l purge s1 = (r, s').
Proof using elaws.
  unfold remove_application. intros [([] & s1 & H1 & H)|(e & H1 & ->)]%bind_M; pose proof (reading_map_error _ _ reading_store _ _ _ H1) as U1;
    [|left; split; [done|by eexists]]. clear H1.
  apply bind_M in H as [(installed & s2 & H1 & H)|(e & H1 & ->)]; pose proof (reading_map_error _ _ (reading_selected _ _ _ _ _) _ _ _ H1) as U2.
  2: { left. split; [by etrans|by eexists]. }
  assert (undisturbed s s2) as U by (by etrans). apply bind_M in H as [([[b c] l] & s3 & H2 & H)|(e & H2 & ->)].
  2: { left. split; [|by eexists]. enough (s' = s2) as -> by done. repeat case_match; (by injection H2) || discriminate H2. }
  assert (s3 = s2 ∧ (b ≠ "" ∨ c ≠ "" ∨ l ≠ "") ∧ ((b, c, l) = (branch, commit, release) ∨ (branch = "" ∧ commit = "" ∧ release = ""))) as (-> & Hsel & Hbcl).
  { destruct (_ && _ && _) eqn:Eb in H2.
    - apply andb_true_iff in Eb as [[Eb1%bool_decide_eq_true Eb2%bool_decide_eq_true]%andb_true_iff Eb3%bool_decide_eq_true].
      destruct installed as [|a [|]]; [done| |done]. destruct (_ && _ && _) eqn:Ea in H2; [done|]. injection H2 as <- <- <- <-.
      apply andb_false_iff in Ea as [[Ea%bool_decide_eq_false|Ea%bool_decide_eq_false]%andb_false_iff|Ea%bool_decide_eq_false]; tauto.
    - injection H2 as <- <- <- <-. split; [done|]. split; [|by left].
      apply andb_false_iff in Eb as [[Ea%bool_decide_eq_false|Ea%bool_decide_eq_false]%andb_false_iff|Ea%bool_decide_eq_false]; tauto. }
  rewrite bind_try in H. destruct (GetApplicationByOrigin _ _ _ _ _ s2) as [found s3] eqn:H3.
  assert (undisturbed s2 s3) as U3.
  { revert H3. unfold GetApplicationByOrigin. apply reading_bind; [apply reading_selected|]. intros []; apply reading_ret || apply reading_fail. }
  assert (undisturbed s s3) as U' by (by etrans).
  destruct found as [app|e]; [|injection H as <- <-; left; split; [done|by eexists]].
  destruct (bool_decide (ap_CpakId app = "")); [injection H as <- <-; left; split; [done|by eexists]|].
  right. exists app, installed, b, c, l, s3. unfold GetApplicationByOrigin in H3. apply bind_M_ok in H3 as (found & s4 & H3 & H4).
  destruct found as [|a rest]; [done|]. injection H4 as -> ->.
  destruct (proj1 (selected_elem _ _ _ _ _ _ _ _ H3 app) ltac:(by left)) as (Hk & Ho & Hs). destruct U as (He & _). unfold apps in *. rewrite He in Hk.
  split_and!; done.
Qed.

(** C17: An application that another one needs is not removed.  Whatever is asked to be
    removed or purged and whatever calls fail on the way, the installed applications
    change only by losing records of that origin at the branch, the commit or the
    release in question, and only when no installed application depends on the one
    that was chosen or is composed with it as an addon; when the removal is done, the
    chosen version is gone. *)
Theorem removal_respects_users origin branch commit release purge s r s' :
  keyed (apps s) → removal_deps_apart storage deps →
  remove_application (sha256 := sha256) home StorePath storage deps origin branch commit release purge s = (r, s') →
  (apps s' = apps s ∧ r ≠ Ok ()) ∨
  ∃ app b c l, (∃ k, apps s !! k = Some app) ∧ ap_Origin app = origin ∧ selects "" b c l app = true ∧
    ((b, c, l) = (branch, commit, release) ∨ (branch = "" ∧ commit = "" ∧ release = "")) ∧
    (∀ k a, apps s !! k = Some a → (ap_CpakId app ∉ de_Id <$> ap_ParsedDependencies a) ∧ not_addon_of a (ToLower origin) s) ∧
    (∀ k a, apps s' !! k = Some a → apps s !! k = Some a) ∧
    (∀ k a, apps s !! k = Some a → apps s' !! k = None → ap_Origin a = origin ∧ version_selected b c l a = true) ∧
    (r = Ok () → ∀ k a, apps s !! k = Some a → ap_Origin a = origin → selects "" b c l a = true → apps s' !! k = None).
Proof using elaws.
  intros Hk Hd [[(He & _) (e & ->)]|(app & installed & b & c & l & s1 & U & Happ & Ho & Hs & Hsel & Hbcl & H)]%chosen_spec.
  { left. split; [by unfold apps; rewrite He|done]. }
  assert (apps s1 = apps s) as Ha by (destruct U as (He & _); by unfold apps; rewrite He).
  unfold remove_chosen in H. destruct (sessionsRemovedByVersionSelection _ _ _ _) as [sessions remaining].
  apply bind_M in H as [(users & s2 & (r2 & H2 & Hr2)%map_error_step & H)|(e & (r2 & H2 & _)%map_error_step & ->)].
  2: { left. split; [|done]. rewrite <- Ha. by apply (same_reading _ (reading_addonUsers home _) _ _ _ H2). }
  rewrite (Hr2 _ eq_refl) in H2. pose proof (reading_addonUsers home _ _ _ _ H2) as U2. assert (apps s2 = apps s1) as Ha2 by (apply (same_reading _ (reading_addonUsers home _) _ _ _ H2)).
  destruct users as [|u users]; [|injection H as <- <-; left; split; [by rewrite Ha2|done]].
  apply bind_M in H as [(users & s3 & H3 & H)|(e & H3 & ->)].
  2: { left. split; [|done]. by rewrite (same_reading _ (reading_dependencies _) _ _ _ H3), Ha2. }
  pose proof (same_reading _ (reading_dependencies _) _ _ _ H3) as Ha3.
  destruct users as [|u users]; [|injection H as <- <-; left; split; [by rewrite Ha3, Ha2|done]].
  assert (∀ k a, apps s !! k = Some a → (ap_CpakId app ∉ de_Id <$> ap_ParsedDependencies a) ∧ not_addon_of a (ToLower origin) s) as Hfree.
  { intros k a Hka. split; [eapply (no_dependents_spec _ _ _ H3); by rewrite Ha2, Ha|].
    rewrite <- Ho. eapply not_addon_before; [exact U|]. eapply (no_users_spec _ _ _ H2). by rewrite Ha. }
  assert (apps s3 = apps s) as Ha' by congruence. clear Ha Ha2 Ha3 H2 H3 U2 U.
  apply bind_M in H as [([] & s4 & H4 & H)|(e & H4 & ->)];
    apply same_map_error in H4; try by eapply same_stop.
  2: { left. by rewrite H4. }
  apply bind_M in H as [([] & s5 & H5 & H)|(e & H5 & ->)]; eapply same_sessions in H5; try done.
  2: { left. by rewrite H5, H4. }
  apply bind_M in H as [([] & s6 & H6 & H)|(e & H6 & ->)]; pose proof (same_reading _ (reading_map_error StoreRefused _ reading_store) _ _ _ H6) as Ha6.
  2: { left. split; [|done]. by rewrite Ha6, H5, H4. }
  right. exists app, b, c, l. do 5 (split; [done|]).
  assert (apps s6 = apps s) as Hs6 by congruence. rewrite <- Hs6 in Hk |- *.
  apply bind_M in H as [([] & s7 & (r7 & H7 & Hr7)%map_error_step & H)|(e & (r7 & H7 & _)%map_error_step & ->)];
    (apply removed_by_spec in H7 as (G1 & G2 & G3); [|done..]).
  2: { split_and!; [done|done|done]. }
  eapply same_rest in H; [|done]. rewrite H.
  split_and!; [done|done|]. intros ->. apply G3. by apply Hr7.
Qed.

(** C20: One dropped addon stops every removal.  When the manifest of an installed
    application stops offering an addon its owner enabled, nothing can be removed or
    purged any more, that application and the addon included, and no garbage can be
    collected, however the owner enables, disables and selects addons in between. *)
Theorem dropped_addon_stops_removal (adeps : addonDeps) {alaws : AddonCodecLaws} app o s0 s origin branch commit release purge r s' apply g s'' :
  deps_leave_choice home adeps app → normal o = o → o ≠ "" → supportedAddon app o = false →
  enabled_in_file home app o s0 → rtc (owner_step home adeps app) s0 s → (∃ k, apps s !! k = Some app) →
  remove_application (sha256 := sha256) home StorePath storage deps origin branch commit release purge s = (r, s') →
  CollectGarbage home StorePath CachePath node_size storage apply s = (g, s'') →
  (undisturbed s s' ∧ ∃ e, r = Err e) ∧ ∃ e, g = Err e.
Proof using elaws.
  intros Hd Hn Hne Hsup He Hrtc [k Hk] H Hg. assert (enabled_in_file home app o s) as Hes.
  { clear - Hd Hn Hne Hsup He Hrtc alaws. induction Hrtc as [|s s1 s' Hstep _ IH]; [done|]. by apply IH; eapply owner_step_enabled. }
  split.
  - apply chosen_spec in H as [[U He']|(a & installed & b & c & l & s1 & U & _ & _ & _ & _ & _ & H)]; [by split|].
    pose proof (enabled_undisturbed _ _ _ _ _ U Hes) as Hes1. unfold remove_chosen in H.
    destruct (sessionsRemovedByVersionSelection _ _ _ _) as [sessions remaining].
    apply bind_M in H as [(users & s2 & (r2 & H2 & Hr2)%map_error_step & H)|(e & (r2 & H2 & _)%map_error_step & ->)];
      pose proof (reading_addonUsers home _ _ _ _ H2) as U2; [|split; [by etrans|by eexists]].
    destruct users as [|u users]; [|injection H as <- <-; split; [by etrans|by eexists]]. exfalso. rewrite (Hr2 _ eq_refl) in H2.
    unfold addonUsers in H2. apply bind_M_ok in H2 as (all & s3 & (r3 & E3 & Hr3)%map_error_step & H2). rewrite (Hr3 _ eq_refl) in E3.
    apply bind_M_ok in H2 as ([] & s4 & H4 & H5).
    pose proof (reading_apps _ _ _ E3) as U3. pose proof (reading_map_error _ _ reading_store _ _ _ H4) as U4.
    eapply (users_dropped home (ToLower (ap_Origin a)) app o); [|exact Hsup| |exact H5|done].
    + apply (installed_elem _ _ _ E3). exists k. destruct U as (Heng & _). unfold apps in *. by rewrite Heng.
    + eapply enabled_undisturbed; [|exact Hes1]. by etrans.
  - destruct g as [report|e]; [|by eexists]. exfalso. unfold CollectGarbage in Hg.
    apply bind_M_ok in Hg as (l & s1 & (r1 & E1 & Hr1)%map_error_step & Hg). rewrite (Hr1 _ eq_refl) in E1.
    pose proof (reading_apps _ _ _ E1) as U1. unfold collectGarbageReport in Hg. apply bind_M_ok in Hg as (h & s2 & H2 & Hg).
    pose proof (reading_rollback StorePath _ _ _ H2) as U2. apply bind_M_ok in Hg as (layers & s3 & H3 & _).
    unfold installedStorageLayersFrom in H3. apply bind_M_ok in H3 as (result & s4 & H3 & _).
    assert (app ∈ l) as Hin by (apply (installed_elem _ _ _ E1); by exists k).
    assert (enabled_in_file home app o s2) as Hes2 by (eapply enabled_undisturbed; [|exact Hes]; by etrans).
    revert H3. generalize (@nil string). clear - Hin Hes2 Hsup. revert s2 Hes2. induction l as [|x l IH]; intros s2 Hes2 acc; [by apply elem_of_nil in Hin|].
    cbn [storage_layers]. case_bool_decide as Ho.
    { apply elem_of_cons in Hin as [<-|Hin]; [|by apply IH]. exfalso. destruct Hes2 as (c & (p & Hp & _) & _).
      unfold addonConfigurationPath in Hp. destruct home; [|done]. by rewrite Ho in Hp. }
    intros (composed & s5 & H5 & H6)%bind_M_ok. pose proof (reading_composition home x _ _ _ H5) as U5.
    apply elem_of_cons in Hin as [<-|Hin]; [|eapply IH; [done|eapply enabled_undisturbed; [exact U5|done]|exact H6]].
    unfold composition_of in H5. apply bind_M_ok in H5 as ([] & s6 & H5 & H7). pose proof (reading_map_error _ _ reading_store _ _ _ H5) as U6.
    apply bind_M_ok in H7 as (components & s7 & H7 & H8). assert (s7 = s6) as -> by (unfold components_of in H7; by injection H7).
    apply bind_M_ok in H8 as (addons & s8 & (r8 & E8 & Hr8)%map_error_step & _). rewrite (Hr8 _ eq_refl) in E8.
    unfold resolveEnabledAddonsFromStore in E8. apply bind_M_ok in E8 as (active & s9 & H9 & _).
    apply dropped_addon_fails with (origin := o) in H9 as [? [=]]; [done|]. by eapply enabled_undisturbed.
Qed.
End Refusals.

(** ** Sessions, data and exports *)
Section Rest.
Context {text : NetText} {sha256 : string → string} {E : Engine}.
Context (StorePath ExportsPath : string) (deps : removalDeps).

(** Only the login sessions that no remaining version declares are disabled: a session
    is if a version that goes declares it and none that stays does, and the data of the
    origin is cleared only when no version stays. *)
Theorem disabled_sessions_unshared l branch commit release :
  let '(sessions, remaining) := sessionsRemovedByVersionSelection l branch commit release in
  (∀ session, session ∈ sessions ↔
     (∃ app, app ∈ l ∧ version_selected branch commit release app = true ∧ session ∈ ap_ParsedSessions app) ∧
     ∀ app other, app ∈ l → version_selected branch commit release app = false → other ∈ ap_ParsedSessions app → ss_ID other ≠ ss_ID session) ∧
  (remaining = 0 ↔ ∀ app, app ∈ l → version_selected branch commit release app = true).
Proof using Type.
  unfold sessionsRemovedByVersionSelection. split.
  - intros session. rewrite list_elem_of_filter, list_elem_of_bind. setoid_rewrite list_elem_of_bind. split.
    + intros [Hout (app & Hs & [Hv Happ]%list_elem_of_filter)]. split; [by exists app|]. intros a other Ha Hva Ho Heq. apply Hout.
      exists a. split; [rewrite <- Heq; by apply list_elem_of_fmap_2|by apply list_elem_of_filter].
    + intros [(app & Happ & Hv & Hs) Hout]. split; [|exists app; split; [done|by apply list_elem_of_filter]].
      intros (a & (other & Heq & Ho)%list_elem_of_fmap & [Hva Ha]%list_elem_of_filter). by eapply Hout.
  - rewrite length_zero_iff_nil. split.
    + intros Hn app Happ. destruct (version_selected _ _ _ app) eqn:Hv; [done|].
      assert (app ∈ filter (λ app, version_selected branch commit release app = false) l) as Hin by (by apply list_elem_of_filter).
      rewrite Hn in Hin. by apply elem_of_nil in Hin.
    + intros Hall. destruct (filter _ l) as [|a rest] eqn:Ef; [done|].
      assert (a ∈ filter (λ app, version_selected branch commit release app = false) l) as [Hv Ha]%list_elem_of_filter by (rewrite Ef; by left).
      rewrite Hall in Hv by done. done.
Qed.

Lemma on_files_remove path p s r s' : on_files (remove path) s = (r, s') → files s' !! p = files s !! p ∨ p = path.
Proof using Type.
  intros (r0 & H & _)%on_files_step. unfold remove in H. destruct (next_fault (st_world s)) as [b w] eqn:Ef.
  apply next_fault_spec in Ef as [[Hf _] _]. unfold files. destruct b; [injection H as _ <-; left; by rewrite Hf|].
  destruct (w_fs (st_world s) !! path); injection H as _ <-; [|left; by rewrite Hf].
  cbn. destruct (decide (path = p)) as [->|Hne]; [by right|left; by rewrite lookup_delete_ne].
Qed.
Lemma remove_or_gone_only path p s r s' : remove_or_gone path s = (r, s') → files s' !! p = files s !! p ∨ p = path.
Proof using Type.
  unfold remove_or_gone. rewrite bind_try. destruct (on_files (remove path) s) as [r1 s1] eqn:E1. apply on_files_remove with (p := p) in E1.
  intros H. assert (s' = s1) as ->; [|done]. repeat case_match; by injection H.
Qed.

Lemma data_path id path : is_abs StorePath = true → applicationDataPath StorePath id = Ok path →
  plain id ∧ path = below_store StorePath +:+ "application-data/" +:+ id.
Proof using Type.
  intros Ha. unfold applicationDataPath. destruct (_ || _) eqn:Ed; [done|]. intros [= <-].
  repeat match goal with H : _ || _ = false |- _ => apply orb_false_iff in H as [? ?] end. bools_in H. bools_in H3. bools_in H4.
  assert (plain id) as Hp by (split_and!; [by intros ->|done..]). split; [done|]. by apply in_store_two.
Qed.

Lemma machine_name (data : string) : plain (hex_encode data +:+ ".machine-id").
Proof using Type.
  assert (has_byte slash (hex_encode data) = false) as Hs by (by apply hex_no_byte).
  split_and!; [by destruct (hex_encode data)| | |by rewrite has_byte_app, Hs];
    intros E0; apply (f_equal slen) in E0; rewrite slen_app in E0; cbn in E0; lia.
Qed.

(** Purging an application reaches its own data only.  Whatever calls fail, the files
    that change are below the directory of its identifier among the data of
    applications, which is a name of its own, or are its identity file. *)
Theorem purge_confined app clear s r s' p :
  is_abs StorePath = true → (∀ origin s r s', grants_Clear deps origin s = (r, s') → files s' !! p = files s !! p) →
  purgeApplicationData (sha256 := sha256) StorePath deps app clear s = (r, s') → files s' !! p ≠ files s !! p →
  (plain (ap_CpakId app) ∧ within (below_store StorePath +:+ "application-data/" +:+ ap_CpakId app) p = true) ∨
  p = below_store StorePath +:+ "identities/" +:+ hex_encode (sha256 (ap_CpakId app)) +:+ ".machine-id".
Proof using Type.
  intros Ha Hg H Hp. set (Q := _ ∨ _). destruct (decide (Q)) as [HQ|HQ]; [exact HQ|]. exfalso. apply Hp. clear Hp.
  unfold purgeApplicationData in H.
  assert (∀ m s r s', m = match applicationDataPath StorePath (ap_CpakId app) with Ok path => stored (on_files (remove_all path)) | Err _ => mret () end →
    m s = (r, s') → files s' !! p = files s !! p) as H0.
  { intros m t x t' ->. destruct (applicationDataPath _ _) as [path|] eqn:Ed; [|by intros [= _ <-]].
    apply data_path in Ed as [Hpl Hpath]; [|done]. intros (r0 & E0 & _)%map_error_step. apply on_files_step in E0 as (r1 & E1%remove_all_files & _).
    unfold files. rewrite E1. destruct r1; [|done]. destruct (w_fs (st_world t) !! p) as [n|] eqn:El.
    - apply map_lookup_filter_Some. split; [done|]. cbn. apply not_true_iff_false. intros Hw. apply HQ. left. by rewrite <- Hpath.
    - apply map_lookup_filter_None. by left. }
  apply bind_M in H as [([] & s1 & H1 & H)|(e & H1 & _)]; apply (H0 _ _ _ _ eq_refl) in H1; [|done]. rewrite <- H1.
  rewrite bind_lift in H. unfold applicationIdentityPath in H. destruct (bool_decide _); [by injection H as _ <-|].
  rewrite in_store_two in H by (done || by apply machine_name).
  apply bind_M in H as [([] & s2 & H2 & H)|(e & H2 & _)]; (apply remove_or_gone_only with (p := p) in H2 as [H2|H2]; [|exfalso; apply HQ; by right]); [|done].
  rewrite <- H2. destruct clear; [by eapply Hg|by injection H as _ <-].
Qed.

(** ** Exported launchers *)
Context (exports_abs : is_abs ExportsPath = true) (exports_clean : clean ExportsPath = ExportsPath) (exports_below : path_parts ExportsPath ≠ []).

Definition below_exports (l : list string) : string := "/" +:+ join "/" (path_parts ExportsPath ++ l).
Lemma below_nil : below_exports [] = ExportsPath.
Proof using exports_abs exports_clean. unfold below_exports. by rewrite app_nil_r, <- clean_abs_eq, exports_clean. Qed.
Lemma below_path l : l ≠ [] → Forall plain l → path_join (ExportsPath :: l) = below_exports l ∧
  is_abs (below_exports l) = true ∧ clean (below_exports l) = below_exports l ∧ path_parts (below_exports l) = path_parts ExportsPath ++ l.
Proof using exports_abs.
  intros Hne Hl. assert (path_join (ExportsPath :: l) = below_exports l) as Hj by (by apply store_path). split; [done|].
  destruct (plain_below ExportsPath l exports_abs Hne Hl) as (Hc & Ha & Hp).
  assert (path_join (ExportsPath :: l) = path_join [ExportsPath; join "/" l]) as Hj'.
  { rewrite !path_join_cons by (by intros E0; rewrite E0 in exports_abs). by destruct l. }
  rewrite <- Hj, Hj'. done.
Qed.
Lemma below_dir l x : Forall plain l → plain x → dir (below_exports (l ++ [x])) = below_exports l.
Proof using exports_abs exports_clean exports_below.
  intros Hl Hx. unfold below_exports. rewrite (assoc_L (++)), child_of_join by (by destruct (path_parts ExportsPath)).
  fold (below_exports l). apply dir_child; [| |apply Hx].
  - destruct l; [by rewrite below_nil|]. by apply below_path.
  - destruct l; [by rewrite below_nil|]. by apply below_path.
Qed.

Lemma join_long (k : list string) : Forall (λ x, x ≠ "") k → length k ≤ slen (join "/" k).
Proof using Type.
  induction 1 as [|x k Hx Hk IH]; [done|]. assert (1 ≤ slen x) as Hs by (destruct x; [done|cbn; lia]).
  destruct k as [|y k]; [change (join "/" [x]) with x; cbn; lia|]. change (join "/" (x :: y :: k)) with (x +:+ "/" +:+ join "/" (y :: k)).
  rewrite !slen_app. change (length (x :: y :: k)) with (S (length (y :: k))). change (slen "/") with 1. lia.
Qed.

(** The walk up ends at the directory of exports, and takes only directories below it. *)
Lemma prune_below l fuel s r s' p :
  Forall plain l → length l < fuel → prune ExportsPath fuel (below_exports l) s = (r, s') →
  r = Ok () ∧ (files s' !! p = files s !! p ∨ has_prefix (ExportsPath +:+ "/") p = true).
Proof using exports_abs exports_clean exports_below.
  revert l s. induction fuel as [|fuel IH]; intros l s Hl Hf; [lia|]. cbn [prune].
  destruct l as [|x l] using rev_ind.
  { rewrite below_nil, bool_decide_eq_true_2 by done. cbn. intros [= <- <-]. split; [done|by left]. }
  clear IHl. destruct (_ || _); [intros [= <- <-]; split; [done|by left]|].
  rewrite bind_try. destruct (on_files (ReadDir _) s) as [entries s1] eqn:E1. pose proof (reading_read_dir _ _ _ _ E1) as (_ & [Hf1 _] & _).
  assert (files s1 = files s) as Hs1 by exact Hf1.
  destruct entries as [[|]|]; [|intros [= <- <-]; split; [done|left; by rewrite Hs1]..].
  intros H. apply Forall_app in Hl as [Hl Hx]. rewrite below_dir in H by (done || by apply plain_one).
  unfold logged in H. apply bind_M in H as [([] & s2 & H2 & H)|(e & H2 & _)].
  - rewrite bind_try in H2. destruct (stored _ s1) as [r2 s3] eqn:E2. injection H2 as <-. apply map_error_step in E2 as (r3 & E2 & _).
    apply on_files_remove with (p := p) in E2. rewrite length_app in Hf. cbn in Hf.
    destruct (IH l s3 Hl ltac:(lia) H) as [-> H3]. split; [done|]. rewrite <- Hs1.
    destruct E2 as [<-| ->]; [exact H3|]. right. apply has_prefix_iff. exists (join "/" (l ++ [x])). unfold below_exports.
    rewrite join_parts_app by (done || by destruct l). rewrite <- exports_clean at 2. rewrite clean_abs_eq by done. by autorewrite with strs.
  - rewrite bind_try in H2. by destruct (stored _ s1).
Qed.

(** Removing an exported launcher stays below the directory of exports.  The walk up
    from the launcher ends, whatever the directories hold, and nothing changes but the
    launcher and directories below the directory of exports, which stays. *)
Theorem binary_export_confined origin name s r s' p :
  Forall plain (split_byte slash origin) → plain name →
  removeBinaryExport ExportsPath origin name s = (r, s') →
  (files s' !! p = files s !! p ∨ has_prefix (ExportsPath +:+ "/") p = true) ∧
  (quiet_state s → r = Ok ()).
Proof using exports_abs exports_clean exports_below.
  intros Ho Hn H. unfold removeBinaryExport in H. set (l := split_byte slash origin) in *.
  assert (Forall plain (l ++ [name])) as Hl by (apply Forall_app; split; [done|by apply plain_one]).
  destruct (below_path (l ++ [name])) as (Hj & _ & _ & _); [by destruct l|done|]. rewrite Hj, below_dir in H by done.
  assert (has_prefix (ExportsPath +:+ "/") (below_exports (l ++ [name])) = true) as Hpre.
  { apply has_prefix_iff. exists (join "/" (l ++ [name])). unfold below_exports.
    rewrite join_parts_app by (done || by destruct l). rewrite <- exports_clean at 2. rewrite clean_abs_eq by done. by autorewrite with strs. }
  assert (length l < S (slen (below_exports (l ++ [name])))) as Hfuel.
  { unfold below_exports. rewrite slen_app. pose proof (join_long (path_parts ExportsPath ++ l ++ [name])) as Hlen.
    rewrite !length_app in Hlen. cbn [length] in Hlen. enough (length (path_parts ExportsPath) + (length l + 1) ≤ slen (join "/" (path_parts ExportsPath ++ l ++ [name]))) by lia.
    apply Hlen. apply Forall_app. split; [|eapply list.Forall_impl; [exact Hl|by intros x []]].
    apply list.Forall_forall. intros x Hx. by apply path_parts_elem in Hx as []. }
  apply bind_M in H as [([] & s1 & H1 & H)|(e & H1 & ->)].
  - apply (prune_below _ _ _ _ _ p Ho Hfuel) in H as [-> H]. apply remove_or_gone_only with (p := p) in H1. split; [|done].
    destruct H as [H|H]; [rewrite H|by right]. destruct H1 as [H1| ->]; [by left|by right].
  - split; [apply remove_or_gone_only with (p := p) in H1 as [?| ->]; [by left|by right]|].
    intros Hq. exfalso. unfold remove_or_gone in H1. rewrite bind_try in H1.
    unfold on_files, remove in H1. destruct (next_fault (st_world s)) as [b w] eqn:Ef. apply next_fault_spec in Ef as [_ Hb].
    destruct (Hb Hq) as [-> _]. by destruct (w_fs (st_world s) !! _).
Qed.
End Rest.

(** ** Examples *)
#[local] Instance node_eq_dec : EqDecision node.
Proof. solve_decision. Defined.
Definition removal_deps_example : removalDeps :=
  mkRemovalDeps _ (λ _ _, mret ()) (λ _ _, mret ()) (λ _, mret ()) (λ _, mret ()) (λ _, mret ()).
Lemma removal_deps_apart_example : removal_deps_apart storage_deps_example removal_deps_example.
Proof. split; intros; intros s r s' [= _ <-]; done. Qed.
Definition two_installed : package_state :=
  mkState (mkWorld storage_files 1000 []) (list_to_map ((λ a, (ap_CpakId a, a)) <$> [app_with "k" [shared_layer]; app_with "r" [shared_layer; own_layer]])).

Lemma removal_respects_users_witness :
  let '(r, s) := Purge (sha256 := id) home_example "/s" storage_deps_example removal_deps_example "h/a/r" "" "" "" two_installed in
  r = Ok () ∧ apps s !! "r" = None ∧ ∀ k a, apps s !! k = Some a → apps two_installed !! k = Some a.
Proof.
  destruct (Purge _ _ _ _ _ _ _ _ _) as [r s] eqn:H.
  assert ((Purge (sha256 := id) home_example "/s" storage_deps_example removal_deps_example "h/a/r" "" "" "" two_installed).1 = Ok ()) as Hr
    by (vm_compute; reflexivity).
  rewrite H in Hr. cbn in Hr. subst r. unfold Purge in H.
  assert (keyed (apps two_installed)) as Hk.
  { unfold two_installed, apps. cbn. intros k a Ha. repeat (apply lookup_insert_Some in Ha as [[<- <-]|[_ Ha]]; [done|]). by rewrite lookup_empty in Ha. }
  destruct (removal_respects_users (sha256 := id) home_example "/s" storage_deps_example removal_deps_example "h/a/r" "" "" "" true two_installed (Ok ()) s
    Hk removal_deps_apart_example H) as [[_ Hx]|(app & b & c & l & (k & Happ) & Ho & Hs & _ & _ & H1 & _ & H2)]; [by destruct Hx|].
  split; [reflexivity|]. split; [|exact H1].
  assert (k = "r" ∧ app = app_with "r" [shared_layer; own_layer]) as [-> ->].
  { clear - Happ Ho. unfold two_installed, apps in Happ. cbn in Happ.
    apply lookup_insert_Some in Happ as [[<- <-]|[_ Happ]]; [by vm_compute in Ho|].
    apply lookup_insert_Some in Happ as [[<- <-]|[_ Happ]]; [done|]. by rewrite lookup_empty in Happ. }
  by apply (H2 eq_refl "r" (app_with "r" [shared_layer; own_layer])).
Defined.

Lemma dropped_addon_stops_removal_witness :
  let s0 := addons_state (Some themes_enabled) in
  let s0 := mkState (st_world s0) (<["g" := game_without_themes]> (st_engine s0)) in
  let s1 := (DisableAddon home_example addon_deps_example game_without_themes "h/a/t" s0).2 in
  (∃ e, (Remove (sha256 := id) home_example "/s" storage_deps_example removal_deps_example "h/a/m" "main" "" "" s1).1 = Err e) ∧
  ∃ e, (CollectGarbage home_example "/s" "/c" (λ _, 1%Z) storage_deps_example false s1).1 = Err e.
Proof.
  intros s0' s0 s1. unfold Remove.
  assert (enabled_in_file home_example game_without_themes "h/a/t" s0) as He.
  { exists themes_enabled. split; [|by left]. exists game_file. split; [by vm_compute|].
    unfold s0, s0', addons_state, files. cbn [st_world w_fs]. rewrite lookup_singleton_eq. unfold configuration_of.
    rewrite decode_encode_addons; [by vm_compute|]. repeat constructor. }
  assert (rtc (owner_step home_example addon_deps_example game_without_themes) s0 s1) as Hrtc.
  { apply rtc_once. apply (step_disable _ _ _ "h/a/t" _ (DisableAddon home_example addon_deps_example game_without_themes "h/a/t" s0).1).
    apply surjective_pairing. }
  assert (∃ k, apps s1 !! k = Some game_without_themes) as Hk by (exists "g"; by vm_compute).
  destruct (remove_application _ _ _ _ _ _ _ _ _ s1) as [r s2] eqn:E1. destruct (CollectGarbage _ _ _ _ _ _ s1) as [g s3] eqn:E2. cbn [fst].
  pose proof (dropped_addon_stops_removal (sha256 := id) home_example "/s" "/c" (λ _, 1%Z) storage_deps_example removal_deps_example addon_deps_example
    game_without_themes "h/a/t" s0 s1 "h/a/m" "main" "" "" false r s2 false g s3 (addon_deps_leave _) ltac:(by vm_compute) ltac:(discriminate)
    ltac:(by vm_compute) He Hrtc Hk E1 E2) as [[_ H1] H2].
  exact (conj H1 H2).
Defined.

Lemma purge_confined_witness :
  let '(_, s) := purgeApplicationData (sha256 := id) "/s" removal_deps_example (app_with "r" []) true two_installed in
  files s !! layer_file own_layer = files two_installed !! layer_file own_layer.
Proof.
  destruct (purgeApplicationData _ _ _ _ _) as [r s] eqn:H.
  destruct (decide (files s !! layer_file own_layer = files two_installed !! layer_file own_layer)) as [|Hne]; [done|].
  destruct (purge_confined (sha256 := id) "/s" removal_deps_example (app_with "r" []) true two_installed r s (layer_file own_layer) eq_refl) as [[_ Hx]|Hx];
    [by intros origin t x t' [= _ <-]|exact H|exact Hne|vm_compute in Hx; discriminate Hx|vm_compute in Hx; discriminate Hx].
Defined.

Lemma binary_export_confined_witness :
  let '(r, s) := removeBinaryExport "/h/bin" "h/a/r" "tool" two_installed in
  r = Ok () ∧ files s !! layer_file own_layer = files two_installed !! layer_file own_layer.
Proof.
  assert (Forall plain (split_byte slash "h/a/r")) as Hp.
  { change (split_byte slash "h/a/r") with ["h"; "a"; "r"]. constructor; [done|]. apply plain_two; done. }
  assert (path_parts "/h/bin" ≠ []) as Hb by (by vm_compute).
  assert (plain "tool") as Ht by done.
  destruct (removeBinaryExport _ _ _ _) as [r s] eqn:H.
  pose proof (binary_export_confined "/h/bin" eq_refl eq_refl Hb "h/a/r" "tool" two_installed r s (layer_file own_layer) Hp Ht H) as [H1 H2].
  split; [apply H2; reflexivity|]. destruct H1 as [H1|H1]; [exact H1|]. vm_compute in H1. discriminate H1.
Defined.
