(* ===== verification/ContainerCli.v ===== *)
(** * The command line of the container shims ([pkg/systembroker/container_parser.go])

    A container command of a sandbox, as [podman] or [docker] would read it, and
    the request the shim makes of it ([protocol.go]). *)
From Stdlib Require Import Ascii.
From stdpp Require Import base strings list.
From coqutil Require Import Datatypes.RecordSetters.
Import RecordSetters.DoubleBraceUpdate.
From S2P Require Import Prelude.
From S2P Require Import GoStrings.
From S2P Require Import Decimal.
From stdpp Require Import options.

#[local] Open Scope nat_scope.

(** ** Requests *)
Record ContainerMount : Type := mkMount { mo_Source : string; mo_Target : string; mo_ReadOnly : bool }.

Record ContainerRequest : Type := mkContainerRequest {
  cr_Backend : string;
  cr_Operation : string;
  cr_Resources : list string;
  cr_Command : list string;
  cr_Image : string;
  cr_Name : string;
  cr_Environment : list string;
  cr_Mounts : list ContainerMount;
  cr_Ports : list string;
  cr_Workdir : string;
  cr_User : string;
  cr_Entrypoint : string;
  cr_All : bool;
  cr_Follow : bool;
  cr_Remove : bool;
  cr_Force : bool;
  cr_Detach : bool;
  cr_NoTrunc : bool;
  cr_NoStream : bool;
  cr_Timestamps : bool;
  cr_Tail : option Z;
  cr_Format : string;
  cr_Timeout : Z
}.

(** [ContainerRequest{Operation: operation}]. *)
Definition request_of (operation : string) : ContainerRequest := {|
  cr_Backend := ""; cr_Operation := operation; cr_Resources := []; cr_Command := []; cr_Image := "";
  cr_Name := ""; cr_Environment := []; cr_Mounts := []; cr_Ports := []; cr_Workdir := ""; cr_User := "";
  cr_Entrypoint := ""; cr_All := false; cr_Follow := false; cr_Remove := false; cr_Force := false;
  cr_Detach := false; cr_NoTrunc := false; cr_NoStream := false; cr_Timestamps := false; cr_Tail := None;
  cr_Format := ""; cr_Timeout := 0 |}.

Inductive cli_error : Type :=
  | CommandRequired | UnsupportedOperation (operation : string) | UnsupportedOption (name : string)
  | ValueRequired | InvalidTail | InvalidTimeout | InvalidMount | MountOptions
  | ResourceRequired (operation : string) | OneResource | ExecRequires | ImageRequired (operation : string).

(** The value of an option, written after an equals sign or as the next argument,
    with the arguments that follow it. *)
Definition containerOptionValue {A} (inline : option string) (rest : list string)
    (k : string → list string → result cli_error A) : result cli_error A :=
  match inline with
  | Some "" => Err ValueRequired
  | Some value => k value rest
  | None =>
      match rest with
      | [] | "" :: _ => Err ValueRequired
      | value :: rest => k value rest
      end
  end.

Definition is_one_of (name : string) (names : list string) : bool := bool_decide (name ∈ names).
Definition is_option (argument : string) : bool := has_prefix "-" argument.

(** ** Reading *)
Fixpoint parseContainerList (request : ContainerRequest) (args : list string) :
    result cli_error ContainerRequest :=
  match args with
  | [] => Ok request
  | argument :: args =>
      let '(name, inline) := cut "=" argument in
      if is_one_of name ["-a"; "--all"] then parseContainerList (request{{ cr_All := true }}) args
      else if is_one_of name ["--no-trunc"] then parseContainerList (request{{ cr_NoTrunc := true }}) args
      else if is_one_of name ["--format"] then
        containerOptionValue inline args (λ value args,
          parseContainerList (request{{ cr_Format := value }}) args)
      else Err (UnsupportedOption name)
  end.

Fixpoint inspect_arguments (request : ContainerRequest) (args : list string) :
    result cli_error ContainerRequest :=
  match args with
  | [] => Ok request
  | argument :: args =>
      let '(name, inline) := cut "=" argument in
      if is_one_of name ["--format"; "-f"] then
        containerOptionValue inline args (λ value args,
          inspect_arguments (request{{ cr_Format := value }}) args)
      else if is_option argument then Err (UnsupportedOption name)
      else inspect_arguments (request{{ cr_Resources := cr_Resources request ++ [argument] }}) args
  end.
Definition parseContainerInspect (request : ContainerRequest) (args : list string) :
    result cli_error ContainerRequest :=
  request ← inspect_arguments request args;
  refuse_if (length (cr_Resources request) =? 0) (ResourceRequired "inspect") ;;;
  Ok request.

Fixpoint logs_arguments (request : ContainerRequest) (args : list string) :
    result cli_error ContainerRequest :=
  match args with
  | [] => Ok request
  | argument :: args =>
      let '(name, inline) := cut "=" argument in
      if is_one_of name ["-f"; "--follow"] then logs_arguments (request{{ cr_Follow := true }}) args
      else if is_one_of name ["-t"; "--timestamps"] then logs_arguments (request{{ cr_Timestamps := true }}) args
      else if is_one_of name ["--tail"] then
        containerOptionValue inline args (λ value args,
          match atoi value with
          | Some tail => if (tail <? 0)%Z then Err InvalidTail
                         else logs_arguments (request{{ cr_Tail := Some tail }}) args
          | None => Err InvalidTail
          end)
      else if is_option argument then Err (UnsupportedOption name)
      else logs_arguments (request{{ cr_Resources := cr_Resources request ++ [argument] }}) args
  end.
Definition parseContainerLogs (request : ContainerRequest) (args : list string) :
    result cli_error ContainerRequest :=
  request ← logs_arguments request args;
  check_that (length (cr_Resources request) =? 1) OneResource ;;;
  Ok request.

Fixpoint parseContainerStats (request : ContainerRequest) (args : list string) :
    result cli_error ContainerRequest :=
  match args with
  | [] => Ok request
  | argument :: args =>
      let '(name, inline) := cut "=" argument in
      if is_one_of name ["--no-stream"] then parseContainerStats (request{{ cr_NoStream := true }}) args
      else if is_one_of name ["--format"] then
        containerOptionValue inline args (λ value args,
          parseContainerStats (request{{ cr_Format := value }}) args)
      else if is_option argument then Err (UnsupportedOption name)
      else parseContainerStats (request{{ cr_Resources := cr_Resources request ++ [argument] }}) args
  end.

Fixpoint mutation_arguments (request : ContainerRequest) (args : list string) :
    result cli_error ContainerRequest :=
  match args with
  | [] => Ok request
  | argument :: args =>
      let '(name, inline) := cut "=" argument in
      if is_one_of name ["-t"; "--time"] then
        containerOptionValue inline args (λ value args,
          match atoi value with
          | Some timeout =>
              if (timeout <? 0)%Z || (300 <? timeout)%Z then Err InvalidTimeout
              else mutation_arguments (request{{ cr_Timeout := timeout }}) args
          | None => Err InvalidTimeout
          end)
      else if is_one_of name ["-f"; "--force"] then
        if negb (bool_decide (cr_Operation request = "rm")) then Err (UnsupportedOption name)
        else mutation_arguments (request{{ cr_Force := true }}) args
      else if is_option argument then Err (UnsupportedOption name)
      else mutation_arguments (request{{ cr_Resources := cr_Resources request ++ [argument] }}) args
  end.
Definition parseContainerMutation (request : ContainerRequest) (args : list string) :
    result cli_error ContainerRequest :=
  request ← mutation_arguments request args;
  refuse_if (length (cr_Resources request) =? 0) (ResourceRequired (cr_Operation request)) ;;;
  Ok request.

(** The loop over the options, and what is made of the arguments it stops at. *)
Fixpoint parseContainerExec (request : ContainerRequest) (args : list string) :
    result cli_error ContainerRequest :=
  match args with
  | argument :: rest =>
      if is_option argument then
        let '(name, inline) := cut "=" argument in
        if is_one_of name ["-w"; "--workdir"] then
          containerOptionValue inline rest (λ value rest,
            parseContainerExec (request{{ cr_Workdir := value }}) rest)
        else if is_one_of name ["-u"; "--user"] then
          containerOptionValue inline rest (λ value rest,
            parseContainerExec (request{{ cr_User := value }}) rest)
        else if is_one_of name ["-e"; "--env"] then
          containerOptionValue inline rest (λ value rest,
            parseContainerExec (request{{ cr_Environment := cr_Environment request ++ [value] }}) rest)
        else Err (UnsupportedOption name)
      else
        match rest with
        | [] => Err ExecRequires
        | command => Ok (request{{ cr_Resources := [argument]; cr_Command := command }})
        end
  | [] => Err ExecRequires
  end.

Definition parseContainerMount (value : string) : result cli_error ContainerMount :=
  match split_byte ":" value with
  | [source; target] => Ok (mkMount source target false)
  | [source; target; option] =>
      if bool_decide (option = "ro") then Ok (mkMount source target true) else Err MountOptions
  | _ => Err InvalidMount
  end.

Fixpoint parseContainerCreate (request : ContainerRequest) (args : list string) :
    result cli_error ContainerRequest :=
  match args with
  | argument :: rest =>
      if is_option argument then
        let '(name, inline) := cut "=" argument in
        if is_one_of name ["--name"] then
          containerOptionValue inline rest (λ value rest,
            parseContainerCreate (request{{ cr_Name := value }}) rest)
        else if is_one_of name ["-e"; "--env"] then
          containerOptionValue inline rest (λ value rest,
            parseContainerCreate (request{{ cr_Environment := cr_Environment request ++ [value] }}) rest)
        else if is_one_of name ["-v"; "--volume"] then
          containerOptionValue inline rest (λ value rest,
            match parseContainerMount value with
            | Ok mount => parseContainerCreate (request{{ cr_Mounts := cr_Mounts request ++ [mount] }}) rest
            | Err e => Err e
            end)
        else if is_one_of name ["-p"; "--publish"] then
          containerOptionValue inline rest (λ value rest,
            parseContainerCreate (request{{ cr_Ports := cr_Ports request ++ [value] }}) rest)
        else if is_one_of name ["-w"; "--workdir"] then
          containerOptionValue inline rest (λ value rest,
            parseContainerCreate (request{{ cr_Workdir := value }}) rest)
        else if is_one_of name ["-u"; "--user"] then
          containerOptionValue inline rest (λ value rest,
            parseContainerCreate (request{{ cr_User := value }}) rest)
        else if is_one_of name ["--entrypoint"] then
          containerOptionValue inline rest (λ value rest,
            parseContainerCreate (request{{ cr_Entrypoint := value }}) rest)
        else if is_one_of name ["--rm"] then parseContainerCreate (request{{ cr_Remove := true }}) rest
        else if is_one_of name ["-d"; "--detach"] then parseContainerCreate (request{{ cr_Detach := true }}) rest
        else Err (UnsupportedOption name)
      else Ok (request{{ cr_Image := argument; cr_Command := rest }})
  | [] => Err (ImageRequired (cr_Operation request))
  end.

Definition parseContainerCommand (args : list string) : result cli_error ContainerRequest :=
  let args := match args with "container" :: (_ :: _) as rest => rest | _ => args end in
  let args := match args with "image" :: "ls" :: rest => "images" :: rest | _ => args end in
  match args with
  | [] => Err CommandRequired
  | first :: args =>
      let operation := if bool_decide (first = "ls") then "ps" else first in
      let request := request_of operation in
      if is_one_of operation ["version"; "info"; "ps"; "images"] then parseContainerList request args
      else if is_one_of operation ["inspect"] then parseContainerInspect request args
      else if is_one_of operation ["logs"] then parseContainerLogs request args
      else if is_one_of operation ["stats"] then parseContainerStats request args
      else if is_one_of operation ["start"; "stop"; "restart"; "rm"] then parseContainerMutation request args
      else if is_one_of operation ["exec"] then parseContainerExec request args
      else if is_one_of operation ["run"; "create"] then parseContainerCreate request args
      else Err (UnsupportedOperation operation)
  end.

Example parse_run :
  parseContainerCommand ["container"; "run"; "--rm"; "-v"; "/srv:/data:ro"; "--env=A=b"; "alpine"; "sh"; "-c"; "ls"] =
  Ok ((request_of "run"){{ cr_Remove := true; cr_Mounts := [mkMount "/srv" "/data" true];
    cr_Environment := ["A=b"]; cr_Image := "alpine"; cr_Command := ["sh"; "-c"; "ls"] }}).
Proof. vm_compute. reflexivity. Qed.
Example parse_privileged :
  parseContainerCommand ["run"; "--privileged"; "alpine"] = Err (UnsupportedOption "--privileged").
Proof. vm_compute. reflexivity. Qed.
