(* ===== verification/ContainerBroker.v ===== *)
(** * The broker of host containers ([pkg/systembroker/container.go])

    What the broker makes of a request for a host container: its validation, the
    capability it needs, the arguments the backend is started with and the
    ownership of the containers they name. *)
From Stdlib Require Import Ascii.
From stdpp Require Import base strings list sets gmap pretty.
From coqutil Require Import Datatypes.RecordSetters.
Import RecordSetters.DoubleBraceUpdate.
From S2P Require Import Prelude.
From S2P Require Import GoStrings.
From S2P Require Import Regex.
From S2P Require Import Utf8.
From S2P Require Import GoPath.
From S2P Require Import HostActions.
From S2P Require Import Decimal.
From S2P Require Import TrustedFiles.
From S2P Require Import OciReference.
From S2P Require Import ContainerCli.
From stdpp Require Import options.

#[local] Open Scope nat_scope.

(** ** The host

    The symbolic links of a path, whether a path can be opened, where a backend is
    installed and what it is, and what [inspect] of a backend prints of a
    container. *)
Class ContainerHost : Type := {
  EvalSymlinks : string → option string;
  OpenPath : string → bool;
  LookPath : string → option string;
  StatFile : string → option node;
  InspectOutput : string → string → option string
}.

Record ContainerPathGrant : Type := mkPathGrant { pg_Path : string; pg_ReadOnly : bool }.

Inductive container_error : Type :=
  | UnsupportedBackend | RequestTooLarge | BadResource | BadCommand | BadEnvironment | BadFormat
  | BadName | NameIsIdentifier | BadWorkdir | BadUser | BadEntrypoint | BadPortProtocol | BadPort | BadImage
  | BadShape (operation : string) | UnknownOperation
  | ReadDenied | CreateDenied | ManageDenied | ExecDenied
  | BadMount | MountColon | MountUnavailable | MountExceedsAccess | MountOutside
  | BackendUnavailable | BackendUntrusted | ContainerNotFound | ContainerNotOwned.

(** ** Patterns *)
Definition containerOwnerLabel : string := "io.cpak.owner".
Definition containerFormatJSON : string := "json".

Definition alphanumeric : list (ascii * ascii) := [("A", "Z"); ("a", "z"); ("0", "9")]%char.
Definition name_character : list (ascii * ascii) := alphanumeric ++ [("_", "_"); (".", "."); ("-", "-")]%char.

Definition containerResourcePattern : regex := RSeq (RSet alphanumeric) (RUpTo 127 (RSet name_character)).
(** A dot is any byte but a line feed. *)
Definition containerEnvironmentPattern : regex :=
  RSeq (RSet [("A", "Z"); ("a", "z"); ("_", "_")]%char)
    (RSeq (RStar (RSet [("A", "Z"); ("a", "z"); ("0", "9"); ("_", "_")]%char))
      (RSeq (RChar "=") (RStar (RSet [("000", "009"); ("011", "255")]%char)))).
Definition containerUserPattern : regex :=
  RSeq (RPlus (RSet name_character)) (ROpt (RSeq (RChar ":") (RPlus (RSet name_character)))).
Definition containerIdentifierPattern : regex :=
  let digit := RSet [("0", "9"); ("a", "f")]%char in RSeq (RTimes 12 digit) (RUpTo 52 digit).

(** ** Validation *)
Definition validateContainerPort (value : string) : result container_error unit :=
  let '(value, protocol) := cut "/" value in
  check_that (is_one_of (default "" protocol) [""; "tcp"; "udp"]) BadPortProtocol ;;;
  let parts := split_byte ":" value in
  check_that (length parts <=? 2) BadPort ;;;
  for_each (λ part,
    match atoi part with
    | Some port => refuse_if ((port <? 1)%Z || (65535 <? port)%Z) BadPort
    | None => Err BadPort
    end) parts.

Definition no_nul (s : string) : bool := negb (has_byte "000" s).
Definition set_ (s : string) : bool := negb (bool_decide (s = "")).
Definition filled {A} (l : list A) : bool := negb (length l =? 0).

Definition validateContainerShape (r : ContainerRequest) : result container_error unit :=
  let createFields := set_ (cr_Image r) || set_ (cr_Name r) || filled (cr_Mounts r) || filled (cr_Ports r) ||
    set_ (cr_Entrypoint r) || cr_Remove r || cr_Detach r in
  let execFields := filled (cr_Command r) || filled (cr_Environment r) || set_ (cr_Workdir r) || set_ (cr_User r) in
  let tail := bool_decide (is_Some (cr_Tail r)) in
  let readFields := cr_All r || cr_Follow r || cr_NoTrunc r || cr_NoStream r || cr_Timestamps r || tail ||
    set_ (cr_Format r) in
  let mutationFields := negb (cr_Timeout r =? 0)%Z || cr_Force r in
  let resources := length (cr_Resources r) in
  let operation := cr_Operation r in
  let bad := BadShape operation in
  if is_one_of operation ["version"; "info"] then
    refuse_if (negb (resources =? 0) || createFields || execFields || mutationFields || cr_All r || cr_Follow r ||
      cr_NoTrunc r || cr_NoStream r || cr_Timestamps r || tail) bad
  else if is_one_of operation ["ps"; "images"] then
    refuse_if (negb (resources =? 0) || createFields || execFields || mutationFields || cr_Follow r ||
      cr_NoStream r || cr_Timestamps r || tail) bad
  else if is_one_of operation ["inspect"] then
    refuse_if ((resources =? 0) || createFields || execFields || mutationFields || cr_All r || cr_Follow r ||
      cr_NoTrunc r || cr_NoStream r || cr_Timestamps r || tail) bad
  else if is_one_of operation ["logs"] then
    refuse_if (negb (resources =? 1) || createFields || execFields || mutationFields || cr_All r ||
      cr_NoTrunc r || cr_NoStream r || set_ (cr_Format r)) bad
  else if is_one_of operation ["stats"] then
    refuse_if (createFields || execFields || mutationFields || cr_All r || cr_Follow r || cr_NoTrunc r ||
      cr_Timestamps r || tail) bad
  else if is_one_of operation ["run"] then
    refuse_if (negb (set_ (cr_Image r)) || negb (resources =? 0) || readFields || mutationFields) bad
  else if is_one_of operation ["create"] then
    refuse_if (negb (set_ (cr_Image r)) || negb (resources =? 0) || readFields || mutationFields ||
      cr_Remove r || cr_Detach r) bad
  else if is_one_of operation ["start"] then
    refuse_if ((resources =? 0) || createFields || execFields || readFields || mutationFields) bad
  else if is_one_of operation ["stop"; "restart"] then
    refuse_if ((resources =? 0) || createFields || execFields || readFields || cr_Force r) bad
  else if is_one_of operation ["rm"] then
    refuse_if ((resources =? 0) || createFields || execFields || readFields || negb (cr_Timeout r =? 0)%Z) bad
  else if is_one_of operation ["exec"] then
    refuse_if (negb (resources =? 1) || (length (cr_Command r) =? 0) || createFields || readFields || mutationFields) bad
  else Err UnknownOperation.

Definition validateContainerRequest (r : ContainerRequest) : result container_error unit :=
  check_that (is_one_of (cr_Backend r) [""; "podman"; "docker"]) UnsupportedBackend ;;;
  refuse_if ((32 <? length (cr_Resources r)) || (128 <? length (cr_Command r)) ||
    (64 <? length (cr_Environment r)) || (32 <? length (cr_Mounts r)) || (32 <? length (cr_Ports r)))
    RequestTooLarge ;;;
  for_each (λ resource, check_that (matches containerResourcePattern resource) BadResource) (cr_Resources r) ;;;
  for_each (λ argument, check_that ((slen argument <=? 4096) && no_nul argument) BadCommand) (cr_Command r) ;;;
  for_each (λ environment, check_that ((slen environment <=? 4096) &&
    matches containerEnvironmentPattern environment && no_nul environment) BadEnvironment) (cr_Environment r) ;;;
  check_that (negb (set_ (cr_Format r)) || bool_decide (cr_Format r = containerFormatJSON)) BadFormat ;;;
  check_that (negb (set_ (cr_Name r)) || matches containerResourcePattern (cr_Name r)) BadName ;;;
  refuse_if (matches containerIdentifierPattern (cr_Name r)) NameIsIdentifier ;;;
  check_that (negb (set_ (cr_Workdir r)) ||
    (is_abs (cr_Workdir r) && bool_decide (clean (cr_Workdir r) = cr_Workdir r))) BadWorkdir ;;;
  check_that (negb (set_ (cr_User r)) || matches containerUserPattern (cr_User r)) BadUser ;;;
  check_that (negb (set_ (cr_Entrypoint r)) || ((slen (cr_Entrypoint r) <=? 4096) && no_nul (cr_Entrypoint r)))
    BadEntrypoint ;;;
  for_each validateContainerPort (cr_Ports r) ;;;
  check_that (negb (set_ (cr_Image r)) || is_ok (wrap (λ _, tt) (ParseReference (cr_Image r)))) BadImage ;;;
  validateContainerShape r.

(** ** Arguments *)
Section Arguments.
Context {containers : ContainerHost}.

Definition pathContains (parent child : string) : bool :=
  let parent := clean parent in
  let child := clean child in
  bool_decide (parent = child) || has_prefix (parent +:+ "/") child.

Definition confirmContainerMountSource (path : string) : result container_error unit :=
  check_that (OpenPath path) MountUnavailable.

(** The loop over the grants: the first that contains the source decides. *)
Fixpoint mount_under (resolved : string) (readOnly : bool) (grants : list ContainerPathGrant) :
    result container_error string :=
  match grants with
  | [] => Err MountOutside
  | grant :: grants =>
      if negb (pathContains (pg_Path grant) resolved) then mount_under resolved readOnly grants
      else
        refuse_if (pg_ReadOnly grant && negb readOnly) MountExceedsAccess ;;;
        confirmContainerMountSource resolved ;;;
        Ok resolved
  end.

Definition validateContainerMount (mount : ContainerMount) (grants : list ContainerPathGrant) :
    result container_error string :=
  let source := mo_Source mount in
  let target := mo_Target mount in
  check_that (is_abs source && is_abs target && bool_decide (clean source = source) &&
    bool_decide (clean target = target)) BadMount ;;;
  refuse_if (has_byte ":" source || has_byte ":" target) MountColon ;;;
  match EvalSymlinks source with
  | None => Err MountUnavailable
  | Some resolved =>
      refuse_if (has_byte ":" resolved) MountColon ;;;
      mount_under resolved (mo_ReadOnly mount) grants
  end.

Definition flag (set : bool) (name : string) : list string := if set then [name] else [].
Definition option_argument (name value : string) : list string := if set_ value then [name; value] else [].
(** [strconv.Itoa]. *)
Definition itoa (n : Z) : string := pretty n.

Definition containerReadArguments (r : ContainerRequest) : list string :=
  flag (cr_All r) "--all" ++ flag (cr_NoTrunc r) "--no-trunc" ++ flag (cr_Follow r) "--follow" ++
  flag (cr_Timestamps r) "--timestamps" ++ flag (cr_NoStream r) "--no-stream" ++
  match cr_Tail r with Some tail => ["--tail"; itoa tail] | None => [] end ++
  option_argument "--format" (cr_Format r) ++ cr_Resources r.

Definition repeated (name : string) (values : list string) : list string :=
  concat ((λ value, [name; value]) <$> values).

(** The loop over the mounts: the value of each [--volume]. *)
Fixpoint volumes (paths : list ContainerPathGrant) (mounts : list ContainerMount) :
    result container_error (list string) :=
  match mounts with
  | [] => Ok []
  | mount :: mounts =>
      source ← validateContainerMount mount paths;
      let value := source +:+ ":" +:+ mo_Target mount +:+ (if mo_ReadOnly mount then ":ro" else "") in
      values ← volumes paths mounts;
      Ok (value :: values)
  end.

Definition managed_labels (owner : string) : list string :=
  ["--label"; containerOwnerLabel +:+ "=" +:+ owner; "--label"; "io.cpak.managed=true"].

Definition containerCreateArguments (owner : string) (paths : list ContainerPathGrant) (r : ContainerRequest) :
    result container_error (list string) :=
  volumes ← volumes paths (cr_Mounts r);
  Ok (managed_labels owner ++
    option_argument "--name" (cr_Name r) ++ flag (cr_Remove r) "--rm" ++ flag (cr_Detach r) "--detach" ++
    option_argument "--workdir" (cr_Workdir r) ++ option_argument "--user" (cr_User r) ++
    option_argument "--entrypoint" (cr_Entrypoint r) ++
    repeated "--env" (cr_Environment r) ++ repeated "--publish" (cr_Ports r) ++ repeated "--volume" volumes ++
    cr_Image r :: cr_Command r).

Definition containerMutationArguments (r : ContainerRequest) : list string :=
  (if (0 <? cr_Timeout r)%Z then ["--time"; itoa (cr_Timeout r)] else []) ++
  flag (cr_Force r) "--force" ++ cr_Resources r.

(** [request.Resources[0]] is there: the shape of an exec request was checked. *)
Definition containerExecArguments (r : ContainerRequest) : list string :=
  option_argument "--workdir" (cr_Workdir r) ++ option_argument "--user" (cr_User r) ++
  repeated "--env" (cr_Environment r) ++ take 1 (cr_Resources r) ++ cr_Command r.

Definition allows (capabilities : gmap string bool) (capability : string) : bool :=
  default false (capabilities !! capability).

Definition containerArguments (owner : string) (capabilities : gmap string bool)
    (paths : list ContainerPathGrant) (r : ContainerRequest) : result container_error (list string * bool) :=
  validateContainerRequest r ;;;
  let operation := cr_Operation r in
  if is_one_of operation ["version"; "info"; "ps"; "images"; "inspect"; "logs"; "stats"] then
    check_that (allows capabilities HostActionContainersRead) ReadDenied ;;;
    Ok (operation :: containerReadArguments r, false)
  else if is_one_of operation ["run"; "create"] then
    check_that (allows capabilities HostActionContainersManageOwned) CreateDenied ;;;
    created ← containerCreateArguments owner paths r;
    Ok (operation :: created, false)
  else if is_one_of operation ["start"; "stop"; "restart"; "rm"] then
    check_that (allows capabilities HostActionContainersManageOwned) ManageDenied ;;;
    Ok (operation :: containerMutationArguments r, true)
  else if is_one_of operation ["exec"] then
    check_that (allows capabilities HostActionContainersExecOwned) ExecDenied ;;;
    Ok (operation :: containerExecArguments r, true)
  else Err UnknownOperation.

(** ** Execution *)
Definition containerBackend (r : ContainerRequest) : string :=
  if bool_decide (cr_Backend r = "") then "podman" else cr_Backend r.

Definition trustedContainerBinary (backend : string) : result container_error string :=
  check_that (is_one_of backend ["podman"; "docker"]) UnsupportedBackend ;;;
  match LookPath backend with
  | None => Err BackendUnavailable
  | Some path =>
      match EvalSymlinks path with
      | None => Err BackendUnavailable
      | Some path =>
          match StatFile path with
          | Some (File uid mode _) =>
              check_that (private_mode mode) BackendUntrusted ;;;
              check_that (uid =? 0)%N BackendUntrusted ;;;
              Ok path
          | _ => Err BackendUntrusted
          end
      end
  end.

Definition requireOwnedContainer (binary owner resource : string) : result container_error string :=
  match InspectOutput binary resource with
  | None => Err ContainerNotFound
  | Some output =>
      match cut " " (trim_space output) with
      | (identifier, Some label) =>
          check_that (bool_decide (trim_space label = owner)) ContainerNotOwned ;;;
          check_that (matches containerIdentifierPattern identifier) ContainerNotFound ;;;
          Ok identifier
      | (_, None) => Err ContainerNotOwned
      end
  end.

Fixpoint owned_identifiers (binary owner : string) (resources : list string) :
    result container_error (list string) :=
  match resources with
  | [] => Ok []
  | resource :: resources =>
      identifier ← requireOwnedContainer binary owner resource;
      identifiers ← owned_identifiers binary owner resources;
      Ok (identifier :: identifiers)
  end.

Definition ownedContainerRequest (binary owner : string) (r : ContainerRequest) :
    result container_error ContainerRequest :=
  identifiers ← owned_identifiers binary owner (cr_Resources r);
  Ok (r{{ cr_Resources := identifiers }}).

(** The command that is started: a binary and its arguments. *)
Definition executeContainer (owner : string) (capabilities : gmap string bool)
    (paths : list ContainerPathGrant) (r : ContainerRequest) :
    result container_error (string * list string) :=
  '(arguments, owned) ← containerArguments owner capabilities paths r;
  binary ← trustedContainerBinary (containerBackend r);
  if (owned : bool) then
    resolved ← ownedContainerRequest binary owner r;
    '(arguments, _) ← containerArguments owner capabilities paths resolved;
    Ok (binary, arguments)
  else Ok (binary, arguments).
End Arguments.

(** ** Reading arguments back *)

(** An argument no parser takes for an option. *)
Definition positional (argument : string) : Prop :=
  is_option argument = false ∧ has_byte "=" argument = false.

Lemma not_option_name argument names :
  is_option argument = false → forallb is_option names = true → is_one_of argument names = false.
Proof.
  intros Ha Hn. apply bool_decide_eq_false. intros Hin. rewrite forallb_elem in Hn.
  by rewrite (Hn _ Hin) in Ha.
Qed.

Lemma option_next {A} (value : string) (rest : list string) (k : string → list string → result cli_error A) :
  value ≠ "" → containerOptionValue None (value :: rest) k = k value rest.
Proof. by destruct value. Qed.

Lemma set_spec s : set_ s = true ↔ s ≠ "".
Proof. unfold set_. by rewrite negb_true_iff, bool_decide_eq_false. Qed.
Lemma set_none s : set_ s = false ↔ s = "".
Proof. unfold set_. by rewrite negb_false_iff, bool_decide_eq_true. Qed.

(** An option that is left out when its value is the empty string, a flag that is
    left out when it is not set, an option that is given once per value. *)
Section Options.
Context (parse : ContainerRequest → list string → result cli_error ContainerRequest).

Lemma parse_option_argument name (put : string → ContainerRequest → ContainerRequest) r value rest :
  (∀ v rest, v ≠ "" → parse r (name :: v :: rest) = parse (put v r) rest) → put "" r = r →
  parse r (option_argument name value ++ rest) = parse (put value r) rest.
Proof.
  intros Hp Hr. unfold option_argument. destruct (set_ value) eqn:E.
  - apply set_spec in E. by apply Hp.
  - apply set_none in E as ->. by rewrite Hr.
Qed.

Lemma parse_flag name (put : bool → ContainerRequest → ContainerRequest) r (set : bool) rest :
  (∀ rest, parse r (name :: rest) = parse (put true r) rest) → put false r = r →
  parse r (flag set name ++ rest) = parse (put set r) rest.
Proof. intros Hp Hr. destruct set; [apply Hp|by rewrite Hr]. Qed.

Lemma parse_repeated {A} name (add : A → ContainerRequest → ContainerRequest)
    (values : list string) (items : list A) r rest :
  Forall2 (λ v i, ∀ r rest, parse r (name :: v :: rest) = parse (add i r) rest) values items →
  parse r (repeated name values ++ rest) = parse (foldl (flip add) r items) rest.
Proof.
  intros H. revert r. induction H as [|v i values items Hv _ IH]; intros r; [done|].
  unfold repeated in *. cbn. by rewrite Hv, IH.
Qed.

Lemma parse_resources (resources : list string) r :
  (∀ r, parse r [] = Ok r) →
  (∀ x r rest, positional x → parse r (x :: rest) =
    parse (r{{ cr_Resources := cr_Resources r ++ [x] }}) rest) →
  Forall positional resources →
  parse r resources = Ok (r{{ cr_Resources := cr_Resources r ++ resources }}).
Proof.
  intros Hnil Hcons H. revert r. induction H as [|x l Hx _ IH]; intros r.
  - rewrite Hnil, app_nil_r. by destruct r.
  - rewrite Hcons, IH by done. destruct r; cbn. unfold constant. by rewrite <-app_assoc.
Qed.
End Options.

(** Reduces the reading of one option whose name is written out. *)
Ltac read_option := intros; try (rewrite option_next by done); try reflexivity.

Ltac read_positional :=
  let H1 := fresh in let H2 := fresh in
  intros ? ? ? [H1 H2]; cbn -[is_one_of cut is_option]; rewrite cut_none by done;
  rewrite ?not_option_name by done; rewrite H1; reflexivity.

Lemma list_read_back r :
  cr_Resources r = [] → (cr_Follow r || cr_Timestamps r || cr_NoStream r) = false → cr_Tail r = None →
  parseContainerList (request_of (cr_Operation r)) (containerReadArguments r) =
    Ok ((request_of (cr_Operation r)){{ cr_All := cr_All r; cr_NoTrunc := cr_NoTrunc r; cr_Format := cr_Format r }}).
Proof.
  intros Hr Hf Ht. rewrite !orb_false_iff in Hf. destruct Hf as [[Hf1 Hf2] Hf3].
  unfold containerReadArguments. rewrite Hr, Ht, Hf1, Hf2, Hf3, app_nil_r. cbn [flag app].
  rewrite (parse_flag parseContainerList "--all" (λ b r, r{{ cr_All := b }})) by (try done; read_option).
  rewrite (parse_flag parseContainerList "--no-trunc" (λ b r, r{{ cr_NoTrunc := b }})) by (try done; read_option).
  rewrite <-(app_nil_r (option_argument _ _)).
  rewrite (parse_option_argument parseContainerList "--format" (λ v r, r{{ cr_Format := v }}));
    [done| |done]. intros [|c v] rest Hv; [done|]. reflexivity.
Qed.

Lemma inspect_read_back r :
  (cr_All r || cr_NoTrunc r || cr_Follow r || cr_Timestamps r || cr_NoStream r) = false → cr_Tail r = None →
  Forall positional (cr_Resources r) →
  inspect_arguments (request_of "inspect") (containerReadArguments r) =
    Ok ((request_of "inspect"){{ cr_Format := cr_Format r; cr_Resources := cr_Resources r }}).
Proof.
  intros Hf Ht Hp. rewrite !orb_false_iff in Hf. destruct Hf as [[[[H1 H2] H3] H4] H5].
  unfold containerReadArguments. rewrite Ht, H1, H2, H3, H4, H5. cbn [flag app].
  rewrite (parse_option_argument inspect_arguments "--format" (λ v r, r{{ cr_Format := v }}));
    [|by intros [|c v] rest Hv|done].
  rewrite (parse_resources inspect_arguments); [done|done|read_positional|done].
Qed.

Lemma parse_tail tail r rest :
  (∀ t, tail = Some t → (0 ≤ t < 2 ^ 63)%Z) → cr_Tail r = None →
  logs_arguments r (match tail with Some t => ["--tail"; itoa t] | None => [] end ++ rest) =
    logs_arguments (r{{ cr_Tail := tail }}) rest.
Proof.
  intros Ht Hr. destruct tail as [t|].
  - specialize (Ht t eq_refl). pose proof (atoi_pretty t Ht) as Ha. unfold itoa. cbn [app].
    transitivity (containerOptionValue None (pretty t :: rest) (λ value args,
      match atoi value with
      | Some tail => if (tail <? 0)%Z then Err InvalidTail
                     else logs_arguments (r{{ cr_Tail := Some tail }}) args
      | None => Err InvalidTail
      end)); [reflexivity|].
    rewrite option_next by (by intros E; rewrite E in Ha).
    rewrite Ha. by rewrite (proj2 (Z.ltb_ge _ _)) by lia.
  - destruct r; cbn in *; by subst.
Qed.

Lemma logs_read_back r :
  (cr_All r || cr_NoTrunc r || cr_NoStream r) = false → cr_Format r = "" →
  (∀ t, cr_Tail r = Some t → (0 ≤ t < 2 ^ 63)%Z) → Forall positional (cr_Resources r) →
  logs_arguments (request_of "logs") (containerReadArguments r) =
    Ok ((request_of "logs"){{ cr_Follow := cr_Follow r; cr_Timestamps := cr_Timestamps r;
      cr_Tail := cr_Tail r; cr_Resources := cr_Resources r }}).
Proof.
  intros Hf Hfmt Ht Hp. rewrite !orb_false_iff in Hf. destruct Hf as [[H1 H2] H3].
  unfold containerReadArguments. rewrite Hfmt, H1, H2, H3. cbn [flag app option_argument].
  rewrite (parse_flag logs_arguments "--follow" (λ b r, r{{ cr_Follow := b }})) by done.
  rewrite (parse_flag logs_arguments "--timestamps" (λ b r, r{{ cr_Timestamps := b }})) by done.
  rewrite parse_tail by done. cbn [app option_argument set_].
  rewrite (parse_resources logs_arguments); [done|done|read_positional|done].
Qed.

Lemma stats_read_back r :
  (cr_All r || cr_NoTrunc r || cr_Follow r || cr_Timestamps r) = false → cr_Tail r = None →
  Forall positional (cr_Resources r) →
  parseContainerStats (request_of "stats") (containerReadArguments r) =
    Ok ((request_of "stats"){{ cr_NoStream := cr_NoStream r; cr_Format := cr_Format r;
      cr_Resources := cr_Resources r }}).
Proof.
  intros Hf Ht Hp. rewrite !orb_false_iff in Hf. destruct Hf as [[[H1 H2] H3] H4].
  unfold containerReadArguments. rewrite Ht, H1, H2, H3, H4. cbn [flag app].
  rewrite (parse_flag parseContainerStats "--no-stream" (λ b r, r{{ cr_NoStream := b }})) by done.
  rewrite (parse_option_argument parseContainerStats "--format" (λ v r, r{{ cr_Format := v }}));
    [|by intros [|c v] rest Hv|done].
  rewrite (parse_resources parseContainerStats); [done|done|read_positional|done].
Qed.

Lemma mutation_read_back r :
  (0 ≤ cr_Timeout r ≤ 300)%Z → (cr_Force r = true → cr_Operation r = "rm") → Forall positional (cr_Resources r) →
  mutation_arguments (request_of (cr_Operation r)) (containerMutationArguments r) =
    Ok ((request_of (cr_Operation r)){{ cr_Timeout := cr_Timeout r; cr_Force := cr_Force r;
      cr_Resources := cr_Resources r }}).
Proof.
  intros Ht Hf Hp. unfold containerMutationArguments.
  assert (∀ rest q, cr_Timeout q = 0%Z →
    mutation_arguments q ((if (0 <? cr_Timeout r)%Z then ["--time"; itoa (cr_Timeout r)] else []) ++ rest) =
    mutation_arguments (q{{ cr_Timeout := cr_Timeout r }}) rest) as Htime.
  { intros rest q Hq. destruct (Z.ltb_spec 0 (cr_Timeout r)).
    - pose proof (atoi_pretty (cr_Timeout r) ltac:(lia)) as Ha. unfold itoa. cbn [app].
      transitivity (containerOptionValue None (pretty (cr_Timeout r) :: rest) (λ value args,
        match atoi value with
        | Some timeout =>
            if (timeout <? 0)%Z || (300 <? timeout)%Z then Err InvalidTimeout
            else mutation_arguments (q{{ cr_Timeout := timeout }}) args
        | None => Err InvalidTimeout
        end)); [reflexivity|].
      rewrite option_next by (by intros E; rewrite E in Ha).
      rewrite Ha. by rewrite (proj2 (Z.ltb_ge _ _)), (proj2 (Z.ltb_ge _ _)) by lia.
    - assert (cr_Timeout r = 0%Z) as -> by lia. destruct q; cbn in *; by subst. }
  assert (∀ rest q, cr_Operation q = cr_Operation r → cr_Force q = false →
    mutation_arguments q (flag (cr_Force r) "--force" ++ rest) =
    mutation_arguments (q{{ cr_Force := cr_Force r }}) rest) as Hforce.
  { intros rest q Ho Hq. destruct (cr_Force r); [|by destruct q; cbn in *; subst].
    cbn. rewrite Ho, Hf by done. done. }
  rewrite Htime, Hforce by done. rewrite (parse_resources mutation_arguments); [done|done|read_positional|done].
Qed.

Lemma exec_read_back r resource command :
  cr_Resources r = [resource] → positional resource → cr_Command r = command → command ≠ [] →
  Forall (λ v, v ≠ "") (cr_Environment r) →
  parseContainerExec (request_of "exec") (containerExecArguments r) =
    Ok ((request_of "exec"){{ cr_Workdir := cr_Workdir r; cr_User := cr_User r;
      cr_Environment := cr_Environment r; cr_Resources := [resource]; cr_Command := command }}).
Proof.
  intros Hr [Hp _] Hc Hne He. unfold containerExecArguments. rewrite Hr, Hc. cbn [take app].
  rewrite (parse_option_argument parseContainerExec "--workdir" (λ v r, r{{ cr_Workdir := v }}));
    [|by intros [|c v] rest Hv|done].
  rewrite (parse_option_argument parseContainerExec "--user" (λ v r, r{{ cr_User := v }}));
    [|by intros [|c v] rest Hv|done].
  rewrite (parse_repeated parseContainerExec "--env" (λ v r, r{{ cr_Environment := cr_Environment r ++ [v] }})
    _ (cr_Environment r)).
  2: { apply Forall_Forall2_diag. eapply Forall_impl; [exact He|]. by intros [|c v] Hv r' rest. }
  assert (∀ l q, foldl (flip (λ v r, r{{ cr_Environment := cr_Environment r ++ [v] }})) q l =
    q{{ cr_Environment := cr_Environment q ++ l }}) as ->.
  { induction l as [|x l IH]; intros q; cbn [foldl flip]; [by rewrite app_nil_r; destruct q|].
    rewrite IH. destruct q; cbn. unfold constant. by rewrite <-app_assoc. }
  cbn [parseContainerExec]. rewrite Hp. by destruct command.
Qed.

Lemma create_read_back r values mounts :
  Forall (λ v, v ≠ "") (cr_Environment r) → Forall (λ v, v ≠ "") (cr_Ports r) →
  Forall2 (λ v m, v ≠ "" ∧ parseContainerMount v = Ok m) values mounts → is_option (cr_Image r) = false →
  parseContainerCreate (request_of (cr_Operation r)) (
    option_argument "--name" (cr_Name r) ++ flag (cr_Remove r) "--rm" ++ flag (cr_Detach r) "--detach" ++
    option_argument "--workdir" (cr_Workdir r) ++ option_argument "--user" (cr_User r) ++
    option_argument "--entrypoint" (cr_Entrypoint r) ++
    repeated "--env" (cr_Environment r) ++ repeated "--publish" (cr_Ports r) ++ repeated "--volume" values ++
    cr_Image r :: cr_Command r) =
  Ok ((request_of (cr_Operation r)){{ cr_Name := cr_Name r; cr_Remove := cr_Remove r; cr_Detach := cr_Detach r;
    cr_Workdir := cr_Workdir r; cr_User := cr_User r; cr_Entrypoint := cr_Entrypoint r;
    cr_Environment := cr_Environment r; cr_Ports := cr_Ports r; cr_Mounts := mounts;
    cr_Image := cr_Image r; cr_Command := cr_Command r }}).
Proof.
  intros He Hp Hm Hi.
  rewrite (parse_option_argument parseContainerCreate "--name" (λ v r, r{{ cr_Name := v }}));
    [|by intros [|c v] rest Hv|done].
  rewrite (parse_flag parseContainerCreate "--rm" (λ b r, r{{ cr_Remove := b }})) by done.
  rewrite (parse_flag parseContainerCreate "--detach" (λ b r, r{{ cr_Detach := b }})) by done.
  rewrite (parse_option_argument parseContainerCreate "--workdir" (λ v r, r{{ cr_Workdir := v }}));
    [|by intros [|c v] rest Hv|done].
  rewrite (parse_option_argument parseContainerCreate "--user" (λ v r, r{{ cr_User := v }}));
    [|by intros [|c v] rest Hv|done].
  rewrite (parse_option_argument parseContainerCreate "--entrypoint" (λ v r, r{{ cr_Entrypoint := v }}));
    [|by intros [|c v] rest Hv|done].
  rewrite (parse_repeated parseContainerCreate "--env" (λ v r, r{{ cr_Environment := cr_Environment r ++ [v] }})
    _ (cr_Environment r)).
  2: { apply Forall_Forall2_diag. eapply Forall_impl; [exact He|]. by intros [|c v] Hv r' rest. }
  rewrite (parse_repeated parseContainerCreate "--publish" (λ v r, r{{ cr_Ports := cr_Ports r ++ [v] }})
    _ (cr_Ports r)).
  2: { apply Forall_Forall2_diag. eapply Forall_impl; [exact Hp|]. by intros [|c v] Hv r' rest. }
  rewrite (parse_repeated parseContainerCreate "--volume" (λ m r, r{{ cr_Mounts := cr_Mounts r ++ [m] }}) _ mounts).
  2: { eapply Forall2_impl; [exact Hm|]. intros v m [Hv Hparse] r' rest.
    transitivity (containerOptionValue None (v :: rest) (λ value rest,
      match parseContainerMount value with
      | Ok mount => parseContainerCreate (r'{{ cr_Mounts := cr_Mounts r' ++ [mount] }}) rest
      | Err e => Err e
      end)); [reflexivity|]. by rewrite option_next, Hparse. }
  assert (∀ {A} (add : A → ContainerRequest → ContainerRequest) (all : list A → ContainerRequest → ContainerRequest),
    (∀ q, all [] q = q) → (∀ x l q, all l (add x q) = all (x :: l) q) →
    ∀ l q, foldl (flip add) q l = all l q) as Hfold.
  { intros A add all Hnil Hcons. induction l as [|x l IH]; intros q; cbn [foldl flip]; [done|].
    by rewrite IH, Hcons. }
  rewrite (Hfold _ (λ v r, r{{ cr_Environment := cr_Environment r ++ [v] }})
      (λ l q, q{{ cr_Environment := cr_Environment q ++ l }})),
    (Hfold _ (λ v r, r{{ cr_Ports := cr_Ports r ++ [v] }}) (λ l q, q{{ cr_Ports := cr_Ports q ++ l }})),
    (Hfold _ (λ m r, r{{ cr_Mounts := cr_Mounts r ++ [m] }}) (λ l q, q{{ cr_Mounts := cr_Mounts q ++ l }}));
    [cbn [parseContainerCreate]; by rewrite Hi|..];
    first [intros q; destruct q; cbn; unfold constant; by rewrite app_nil_r
          |intros x l q; destruct q; cbn; unfold constant; by rewrite <-app_assoc].
Qed.

(** ** What validation and the arguments say *)
Section Facts.
Context {containers : ContainerHost}.

Lemma mount_under_ok resolved readOnly grants source :
  mount_under resolved readOnly grants = Ok source →
  source = resolved ∧ ∃ g, g ∈ grants ∧ pathContains (pg_Path g) resolved = true ∧
    (pg_ReadOnly g = true → readOnly = true).
Proof.
  induction grants as [|g grants IH]; [done|]. cbn [mount_under].
  destruct (pathContains _ _) eqn:E; cbn [negb].
  - intros [Ha%refuse_if_ok H]%bind_unit_ok. apply bind_unit_ok in H as [_ [= <-]].
    split; [done|]. exists g. split; [by left|]. split; [done|]. revert Ha. by destruct (pg_ReadOnly g), readOnly.
  - intros (-> & g' & Hg & ?)%IH. split; [done|]. exists g'. split; [by right|done].
Qed.

Lemma validate_mount_ok mount grants source :
  validateContainerMount mount grants = Ok source →
  is_abs (mo_Source mount) = true ∧ is_abs (mo_Target mount) = true ∧ clean (mo_Target mount) = mo_Target mount ∧
  has_byte ":" source = false ∧ has_byte ":" (mo_Target mount) = false ∧
  EvalSymlinks (mo_Source mount) = Some source ∧
  ∃ g, g ∈ grants ∧ pathContains (pg_Path g) source = true ∧ (pg_ReadOnly g = true → mo_ReadOnly mount = true).
Proof.
  unfold validateContainerMount. intros [Hp%check_that_ok H]%bind_unit_ok.
  apply bind_unit_ok in H as [Hc%refuse_if_ok H]. bools_in Hp. bools_in Hc.
  destruct (EvalSymlinks _) as [resolved|]; [|done].
  apply bind_unit_ok in H as [Hr%refuse_if_ok (-> & ? & ?)%mount_under_ok]. naive_solver.
Qed.

(** A mount as the broker gives it to the backend: of the path its source resolves
    to. *)
Definition resolved_mount (paths : list ContainerPathGrant) (m m' : ContainerMount) : Prop :=
  validateContainerMount m paths = Ok (mo_Source m') ∧ mo_Target m' = mo_Target m ∧ mo_ReadOnly m' = mo_ReadOnly m.

(** The value of an option that mounts. *)
Definition mount_text (m : ContainerMount) : string :=
  mo_Source m +:+ ":" +:+ mo_Target m +:+ (if mo_ReadOnly m then ":ro" else "").

Lemma volumes_ok paths mounts values :
  volumes paths mounts = Ok values →
  ∃ resolved, Forall2 (resolved_mount paths) mounts resolved ∧ values = mount_text <$> resolved ∧
    Forall2 (λ v m, v ≠ "" ∧ parseContainerMount v = Ok m) values resolved.
Proof.
  revert values. induction mounts as [|m mounts IH]; intros values; cbn [volumes].
  - intros [= <-]. by exists [].
  - intros (source & Hv & H)%bind_ok. apply bind_ok in H as (rest & (ms & H1 & -> & H2)%IH & [= <-]).
    exists (mkMount source (mo_Target m) (mo_ReadOnly m) :: ms). split; [by constructor|]. split; [done|]. constructor; [|done].
    apply validate_mount_ok in Hv as (_ & _ & _ & Hs & Ht & _). split; [by destruct source|].
    unfold parseContainerMount. cbn [String.append]. rewrite split_byte_app by done.
    destruct (mo_ReadOnly m).
    + rewrite split_byte_app by done. done.
    + by rewrite app_nil_str, split_byte_none.
Qed.

Lemma pattern_positional x : matches containerResourcePattern x = true → positional x.
Proof.
  intros Hm. split.
  - apply not_true_iff_false. intros (t & ->)%has_prefix_iff. revert Hm. unfold containerResourcePattern.
    rewrite matches_lang. inversion 1 as [| |r1 r2 s1 s2 H1 H2 E1 E2| | | |]; subst.
    inversion H1 as [|rs c Hc| | | | |]; subst. cbn in E2. by injection E2 as -> _.
  - apply (matches_lacks containerResourcePattern); [by_bytes|done].
Qed.
Lemma request_facts r :
  validateContainerRequest r = Ok tt →
  Forall positional (cr_Resources r) ∧ Forall (λ v, v ≠ "") (cr_Environment r) ∧
  Forall (λ v, v ≠ "") (cr_Ports r) ∧ validateContainerShape r = Ok tt.
Proof.
  unfold validateContainerRequest. rewrite !bind_unit_ok, !for_each_ok.
  intros (_ & _ & Hr & _ & He & _ & _ & _ & _ & _ & _ & Hp & _ & Hs). rewrite !Forall_forall. split_and!.
  - intros x Hx. apply pattern_positional. by specialize (Hr x Hx) as ?%check_that_ok.
  - intros x Hx. specialize (He x Hx). apply check_that_ok in He. bools_in He. destruct He as [[_ He] _].
    apply (matches_nonempty containerEnvironmentPattern); [cbn; lia|done].
  - intros x Hx ->. by specialize (Hp _ Hx).
  - done.
Qed.

Lemma filled_none {A} (l : list A) : filled l = false → l = [].
Proof. by destruct l. Qed.
Lemma no_tail (t : option Z) : bool_decide (is_Some t) = false → t = None.
Proof. rewrite bool_decide_eq_false. destruct t; [|done]. intros H. by destruct H. Qed.
Lemma no_timeout (t : Z) : negb (t =? 0)%Z = false → t = 0%Z.
Proof. by rewrite negb_false_iff, Z.eqb_eq. Qed.
End Facts.

(** Take what a shape rules out, field by field. *)
Ltac take_shape H :=
  apply refuse_if_ok in H; rewrite ?orb_false_iff in H;
  repeat match goal with
  | H : _ ∧ _ |- _ => destruct H
  | H : filled _ = false |- _ => apply filled_none in H
  | H : set_ _ = false |- _ => apply set_none in H
  | H : bool_decide (is_Some _) = false |- _ => apply no_tail in H
  | H : negb (_ =? 0)%Z = false |- _ => apply no_timeout in H
  end.

Lemma one_of_cons name x l : is_one_of name (x :: l) = true → name = x ∨ is_one_of name l = true.
Proof. unfold is_one_of. rewrite !bool_decide_eq_true, elem_of_cons. done. Qed.
Lemma one_of_nil name : is_one_of name [] = true → False.
Proof. unfold is_one_of. rewrite bool_decide_eq_true. apply not_elem_of_nil. Qed.

(** Case analysis on the operation of a request. *)
Ltac each_operation E :=
  repeat (apply one_of_cons in E as [E|E]); [..|by apply one_of_nil in E].

Ltac decide_operation H :=
  repeat match type of H with
  | context [is_one_of ?a ?b] =>
      let v := eval vm_compute in (is_one_of a b) in change (is_one_of a b) with v in H
  end; cbv iota in H.

(** The arguments without the labels the broker gives a container it creates. *)
Definition unlabelled (arguments : list string) : list string :=
  match arguments with
  | operation :: rest => if is_one_of operation ["run"; "create"] then operation :: drop 4 rest else arguments
  | [] => []
  end.

(** Which parser an operation is read by. *)
Lemma command_parser op args :
  (is_one_of op ["version"; "info"; "ps"; "images"] = true →
    parseContainerCommand (op :: args) = parseContainerList (request_of op) args) ∧
  (is_one_of op ["start"; "stop"; "restart"; "rm"] = true →
    parseContainerCommand (op :: args) = parseContainerMutation (request_of op) args) ∧
  (is_one_of op ["run"; "create"] = true →
    parseContainerCommand (op :: args) = parseContainerCreate (request_of op) args).
Proof. split_and!; intros E; each_operation E; rewrite E; reflexivity. Qed.

Ltac same_request r := destruct r; cbn in *; unfold constant in *; subst; reflexivity.

(** ** What a backend is asked to do

    The words of a request, whatever way they are put together: an option with no
    value, one with a value, and one that is written once for each value. *)
Definition when (set : bool) (words : list string) : list string := if set then words else [].
Definition valued (name value : string) : list string := when (negb (bool_decide (value = ""))) [name; value].
Definition each (name : string) (values : list string) : list string :=
  flat_map (λ value, [name; value]) values.

(** A container that is created: every mount is an option of its own, and what
    follows the options is the image and its command. *)
Definition creation_words (r : ContainerRequest) (mounts : list ContainerMount) : list string :=
  valued "--name" (cr_Name r) ++ when (cr_Remove r) ["--rm"] ++ when (cr_Detach r) ["--detach"] ++
  valued "--workdir" (cr_Workdir r) ++ valued "--user" (cr_User r) ++ valued "--entrypoint" (cr_Entrypoint r) ++
  each "--env" (cr_Environment r) ++ each "--publish" (cr_Ports r) ++ each "--volume" (mount_text <$> mounts) ++
  [cr_Image r] ++ cr_Command r.

(** A command in a container, and a change of containers. *)
Definition exec_words (r : ContainerRequest) (container : string) : list string :=
  valued "--workdir" (cr_Workdir r) ++ valued "--user" (cr_User r) ++ each "--env" (cr_Environment r) ++
  [container] ++ cr_Command r.
Definition change_words (r : ContainerRequest) (named : list string) : list string :=
  when (bool_decide (0 < cr_Timeout r)%Z) ["--time"; pretty (cr_Timeout r)] ++ when (cr_Force r) ["--force"] ++ named.

(** A request that only reads. *)
Definition read_words (r : ContainerRequest) : list string :=
  when (cr_All r) ["--all"] ++ when (cr_NoTrunc r) ["--no-trunc"] ++ when (cr_Follow r) ["--follow"] ++
  when (cr_Timestamps r) ["--timestamps"] ++ when (cr_NoStream r) ["--no-stream"] ++
  from_option (λ tail, ["--tail"; pretty tail]) [] (cr_Tail r) ++ valued "--format" (cr_Format r) ++ cr_Resources r.

Lemma option_argument_valued name value : option_argument name value = valued name value.
Proof. by unfold option_argument, valued, when, set_. Qed.
Lemma repeated_each name values : repeated name values = each name values.
Proof. unfold repeated, each. induction values as [|v values IH]; [done|]. cbn. by rewrite <-IH. Qed.

Lemma creation_words_eq r mounts :
  creation_words r mounts =
  option_argument "--name" (cr_Name r) ++ flag (cr_Remove r) "--rm" ++ flag (cr_Detach r) "--detach" ++
    option_argument "--workdir" (cr_Workdir r) ++ option_argument "--user" (cr_User r) ++
    option_argument "--entrypoint" (cr_Entrypoint r) ++
    repeated "--env" (cr_Environment r) ++ repeated "--publish" (cr_Ports r) ++
    repeated "--volume" (mount_text <$> mounts) ++ cr_Image r :: cr_Command r.
Proof. rewrite !repeated_each, !option_argument_valued. reflexivity. Qed.

Lemma read_words_eq r : containerReadArguments r = read_words r.
Proof. unfold containerReadArguments. rewrite option_argument_valued. by destruct r as []. Qed.

Lemma change_words_eq r named :
  containerMutationArguments (r{{ cr_Resources := named }}) = change_words r named.
Proof.
  unfold containerMutationArguments, change_words, when, flag, itoa. destruct r; cbn.
  destruct (Z.ltb_spec 0 cr_Timeout); [rewrite bool_decide_true by done|rewrite bool_decide_false by lia]; done.
Qed.

Lemma exec_words_eq r container :
  containerExecArguments (r{{ cr_Resources := [container] }}) = exec_words r container.
Proof. unfold containerExecArguments. rewrite repeated_each, !option_argument_valued. by destruct r. Qed.

(** ** Properties *)
Section Properties.
Context {containers : ContainerHost}.

Lemma reads_read_back r :
  is_one_of (cr_Operation r) ["version"; "info"; "ps"; "images"; "inspect"; "logs"; "stats"] = true →
  validateContainerShape r = Ok tt → Forall positional (cr_Resources r) →
  (∀ t, cr_Tail r = Some t → (0 ≤ t < 2 ^ 63)%Z) →
  cr_Mounts r = [] ∧
  parseContainerCommand (cr_Operation r :: containerReadArguments r) = Ok (r{{ cr_Backend := "" }}).
Proof.
  intros E Hs Hp Ht. unfold validateContainerShape in Hs. cbv zeta in Hs.
  apply one_of_cons in E as [E|E]; [|apply one_of_cons in E as [E|E]; [|apply one_of_cons in E as [E|E];
    [|apply one_of_cons in E as [E|E]]]].
  1-4: rewrite E in Hs; decide_operation Hs; take_shape Hs; (split; [assumption|]);
    rewrite (proj1 (command_parser _ _)) by (rewrite E; reflexivity);
    assert (cr_Resources r = []) by (by destruct (cr_Resources r));
    rewrite list_read_back by (done || (rewrite !orb_false_iff; done)); same_request r.
  each_operation E; rewrite E in *; decide_operation Hs; take_shape Hs; (split; [assumption|]).
  - transitivity (parseContainerInspect (request_of "inspect") (containerReadArguments r)); [reflexivity|].
    unfold parseContainerInspect. rewrite inspect_read_back by (done || (rewrite !orb_false_iff; done)).
    cbn. unfold constant. rewrite H. cbn. same_request r.
  - transitivity (parseContainerLogs (request_of "logs") (containerReadArguments r)); [reflexivity|].
    unfold parseContainerLogs. rewrite logs_read_back by (done || (rewrite !orb_false_iff; done)).
    cbn. unfold constant. apply negb_false_iff in H. rewrite H. cbn. same_request r.
  - transitivity (parseContainerStats (request_of "stats") (containerReadArguments r)); [reflexivity|].
    rewrite stats_read_back by (done || (rewrite !orb_false_iff; done)). same_request r.
Qed.

Lemma mutations_read_back r :
  is_one_of (cr_Operation r) ["start"; "stop"; "restart"; "rm"] = true →
  validateContainerShape r = Ok tt → Forall positional (cr_Resources r) → (0 ≤ cr_Timeout r ≤ 300)%Z →
  cr_Mounts r = [] ∧
  parseContainerCommand (cr_Operation r :: containerMutationArguments r) = Ok (r{{ cr_Backend := "" }}).
Proof.
  intros E Hs Hp Ht. rewrite (proj1 (proj2 (command_parser _ _))) by done.
  unfold validateContainerShape in Hs. cbv zeta in Hs.
  unfold parseContainerMutation.
  each_operation E; rewrite E in Hs; decide_operation Hs; take_shape Hs; (split; [assumption|]);
    rewrite mutation_read_back by (done || (intros Hf; congruence)); cbn; unfold constant;
    match goal with H : (length (cr_Resources r) =? 0) = false |- _ => rewrite H end; cbn; same_request r.
Qed.

Lemma execs_read_back r :
  cr_Operation r = "exec" → validateContainerShape r = Ok tt → Forall positional (cr_Resources r) →
  Forall (λ v, v ≠ "") (cr_Environment r) →
  cr_Mounts r = [] ∧
  parseContainerCommand (cr_Operation r :: containerExecArguments r) = Ok (r{{ cr_Backend := "" }}).
Proof.
  intros E Hs Hp He. unfold validateContainerShape in Hs. cbv zeta in Hs. rewrite E in Hs |- *.
  decide_operation Hs. take_shape Hs. split; [assumption|].
  transitivity (parseContainerExec (request_of "exec") (containerExecArguments r)); [reflexivity|].
  destruct (cr_Resources r) as [|resource [|]] eqn:Hr; try done. apply Forall_cons in Hp as [Hp _].
  rewrite (exec_read_back r resource (cr_Command r)) by (try done; by destruct (cr_Command r)).
  same_request r.
Qed.

Lemma creates_read_back owner paths r created :
  is_one_of (cr_Operation r) ["run"; "create"] = true →
  validateContainerShape r = Ok tt → Forall (λ v, v ≠ "") (cr_Environment r) →
  Forall (λ v, v ≠ "") (cr_Ports r) → containerCreateArguments owner paths r = Ok created →
  ∃ mounts, Forall2 (resolved_mount paths) (cr_Mounts r) mounts ∧
    created = managed_labels owner ++ creation_words r mounts ∧
    (is_option (cr_Image r) = false →
      parseContainerCommand (cr_Operation r :: creation_words r mounts) =
        Ok (r{{ cr_Backend := ""; cr_Mounts := mounts }})).
Proof.
  intros E Hs He Hport (values & (mounts & Hm & -> & Hv)%volumes_ok & <-%(inj Ok))%bind_ok.
  exists mounts. rewrite creation_words_eq. split; [done|]. split; [reflexivity|]. intros Hi.
  rewrite (proj2 (proj2 (command_parser _ _))) by done.
  rewrite (create_read_back r (mount_text <$> mounts) mounts) by done.
  unfold validateContainerShape in Hs. cbv zeta in Hs.
  each_operation E; rewrite E in Hs; decide_operation Hs; take_shape Hs;
    (assert (cr_Resources r = []) by (by destruct (cr_Resources r))); same_request r.
Qed.

(** The backend runs the request that was validated.  The arguments it is
    started with, less the labels of cpak, read back under cpak's own grammar of
    the command line as that request, with the sources of its mounts resolved: no
    value is taken for an option or an option for a value - for a request within
    the bounds the shim keeps, and an image that is not written like an option. *)
Theorem arguments_read_back owner capabilities paths r arguments owned :
  containerArguments owner capabilities paths r = Ok (arguments, owned) →
  (0 ≤ cr_Timeout r ≤ 300)%Z → (∀ t, cr_Tail r = Some t → (0 ≤ t < 2 ^ 63)%Z) → is_option (cr_Image r) = false →
  ∃ mounts, Forall2 (resolved_mount paths) (cr_Mounts r) mounts ∧
    parseContainerCommand (unlabelled arguments) = Ok (r{{ cr_Backend := ""; cr_Mounts := mounts }}).
Proof.
  intros H Ht Htail Hi. unfold containerArguments in H. apply bind_unit_ok in H as [Hv H].
  apply request_facts in Hv as (Hp & He & Hport & Hs). cbv zeta in H.
  assert (∀ args, cr_Mounts r = [] → is_one_of (cr_Operation r) ["run"; "create"] = false →
    parseContainerCommand (cr_Operation r :: args) = Ok (r{{ cr_Backend := "" }}) →
    ∃ mounts, Forall2 (resolved_mount paths) (cr_Mounts r) mounts ∧
      parseContainerCommand (unlabelled (cr_Operation r :: args)) =
        Ok (r{{ cr_Backend := ""; cr_Mounts := mounts }})) as Hplain.
  { intros args Hm Ho Hr. exists []. rewrite Hm. split; [done|]. cbn [unlabelled]. rewrite Ho, Hr.
    f_equal. same_request r. }
  destruct (is_one_of _ ["version"; _; _; _; _; _; _]) eqn:E.
  { apply bind_unit_ok in H as [_ [= <- <-]]. destruct (reads_read_back r) as [Hm Hr]; [done..|].
    apply Hplain; [done| |done]. each_operation E; rewrite E; reflexivity. }
  clear E. destruct (is_one_of _ ["run"; _]) eqn:E.
  { apply bind_unit_ok in H as [_ H]. apply bind_ok in H as (created & Hc & [= <- <-]).
    destruct (creates_read_back owner paths r created) as (mounts & Hm & -> & Hr); [done..|].
    exists mounts. split; [done|]. cbn [unlabelled]. rewrite E. by apply Hr. }
  clear E. destruct (is_one_of _ ["start"; _; _; _]) eqn:E.
  { apply bind_unit_ok in H as [_ [= <- <-]]. destruct (mutations_read_back r) as [Hm Hr]; [done..|].
    by apply Hplain. }
  clear E. destruct (is_one_of _ ["exec"]) eqn:E; [|done].
  apply bind_unit_ok in H as [_ [= <- <-]]. apply one_of_cons in E as [E|E]; [|by apply one_of_nil in E].
  destruct (execs_read_back r) as [Hm Hr]; [done..|].
  by apply Hplain.
Qed.

(** *** What reaches the backend *)
Lemma path_contains_parts dir p :
  is_abs dir = true → pathContains dir p = true → is_abs p = true ∧ path_parts dir `prefix_of` path_parts p.
Proof.
  intros Hd [Hc%bool_decide_eq_true|Hc]%orb_true_iff.
  - split; [by rewrite <-clean_abs, <-Hc, clean_abs|]. by rewrite <-path_parts_clean, Hc, path_parts_clean.
  - assert (is_abs p = true) as Hp.
    { rewrite <-clean_abs. apply has_prefix_iff in Hc as (t & ->). rewrite clean_abs_eq by done.
      autorewrite with strs. apply has_prefix_app. }
    split; [done|]. destruct (decide (path_parts dir = [])) as [->|Hne]; [apply prefix_nil|].
    apply inside_parts in Hc as (rest & _ & ->); [|done..]. by apply prefix_app_r.
Qed.

Lemma clean_nonempty p : clean p ≠ "".
Proof.
  unfold clean. destruct (is_abs p); [done|]. case_bool_decide as E; [done|].
  destruct (path_parts p) as [|x l] eqn:Ep; [done|]. intros Hj.
  destruct (path_parts_elem p x) as [Hx _]; [rewrite Ep; by left|].
  destruct l as [|y l]; cbn in Hj; [done|]. by destruct x.
Qed.

Lemma contains_abs d p : pathContains d p = true → is_abs p = is_abs d.
Proof.
  intros [Hc%bool_decide_eq_true|Hc]%orb_true_iff.
  - by rewrite <-(clean_abs p), <-Hc, clean_abs.
  - apply has_prefix_iff in Hc as (t & Ht). rewrite <-(clean_abs p), <-(clean_abs d), Ht.
    pose proof (clean_nonempty d) as Hne. destruct (clean d) as [|c s]; [done|]. cbn [String.append]. by rewrite !is_abs_cons.
Qed.

(** The path is inside what a grant of the policy names, both from the root when one is,
    and the grant can be written to if the mount can. *)
Definition granted (paths : list ContainerPathGrant) (source : string) (readOnly : bool) : Prop :=
  ∃ g, g ∈ paths ∧ (pg_ReadOnly g = true → readOnly = true) ∧ is_abs (pg_Path g) = is_abs source ∧
    (is_abs source = true → path_parts (pg_Path g) `prefix_of` path_parts source).

(** The backend says that the identifier is of a container with that owner. *)
Definition owned_by (binary owner resource identifier : string) : Prop :=
  matches containerIdentifierPattern identifier = true ∧
  ∃ output label, InspectOutput binary resource = Some output ∧
    cut " " (trim_space output) = (identifier, Some label) ∧ trim_space label = owner.

Lemma require_owned_ok binary owner resource identifier :
  requireOwnedContainer binary owner resource = Ok identifier → owned_by binary owner resource identifier.
Proof.
  unfold requireOwnedContainer, owned_by. destruct (InspectOutput _ _) as [output|]; [|done].
  destruct (cut _ _) as [i [label|]] eqn:Ec; [|done]. intros [Ho%check_that_ok H]%bind_unit_ok.
  apply bind_unit_ok in H as [Hm%check_that_ok [= <-]]. split; [done|]. exists output, label.
  split; [done|]. split; [done|]. by apply bool_decide_eq_true in Ho.
Qed.

Lemma owned_identifiers_ok binary owner resources identifiers :
  owned_identifiers binary owner resources = Ok identifiers →
  Forall2 (owned_by binary owner) resources identifiers.
Proof.
  revert identifiers. induction resources as [|x l IH]; intros ids; cbn [owned_identifiers].
  - by intros [= <-].
  - intros (i & Hi%require_owned_ok & H)%bind_ok. apply bind_ok in H as (rest & ?%IH & [= <-]). by constructor.
Qed.

(** What is mounted for a mount of the request: the path its source resolves to, which
    a grant allows, on the target it names, writable when it asks for it.  The two
    paths hold no colon, so that they are what the backend reads out of the value. *)
Record mounted (paths : list ContainerPathGrant) (m m' : ContainerMount) : Prop := {
  mt_source : EvalSymlinks (mo_Source m) = Some (mo_Source m');
  mt_granted : granted paths (mo_Source m') (mo_ReadOnly m');
  mt_target : mo_Target m' = mo_Target m ∧ is_abs (mo_Target m) = true;
  mt_readOnly : mo_ReadOnly m' = mo_ReadOnly m;
  mt_apart : has_byte ":" (mo_Source m') = false ∧ has_byte ":" (mo_Target m') = false
}.

Lemma resolved_mount_granted paths m m' : resolved_mount paths m m' → mounted paths m m'.
Proof.
  intros (H & Ht & Hro). apply validate_mount_ok in H as (_ & Hta & _ & Hc1 & Hc2 & Hs & g & Hg & Hc & Hr).
  split; [done| |done|done|by rewrite Ht]. exists g. rewrite Hro. split; [done|]. split; [done|].
  apply contains_abs in Hc as Habs. split; [done|]. intros Ha. rewrite Habs in Ha. by apply path_contains_parts.
Qed.

Lemma trusted_binary_ok backend binary :
  trustedContainerBinary backend = Ok binary →
  ∃ mode data, StatFile binary = Some (File 0 mode data) ∧ private_mode mode = true.
Proof.
  unfold trustedContainerBinary. intros [_ H]%bind_unit_ok.
  destruct (LookPath _) as [path|]; [|done]. destruct (EvalSymlinks path) as [path'|]; [|done].
  destruct (StatFile path') as [[uid mode data| |]|] eqn:E; try done.
  apply bind_unit_ok in H as [Hm%check_that_ok H]. apply bind_unit_ok in H as [Hu%check_that_ok [= <-]].
  apply N.eqb_eq in Hu as ->. by exists mode, data.
Qed.

(** The capability an operation needs. *)
Definition capability_of (operation : string) : string :=
  if is_one_of operation ["run"; "create"; "start"; "stop"; "restart"; "rm"] then HostActionContainersManageOwned
  else if is_one_of operation ["exec"] then HostActionContainersExecOwned
  else HostActionContainersRead.

(** What each kind of operation is started with.  A container that is created is
    labelled with its owner and mounts what is granted and nothing else, by the options
    it is created with; an image that is not written like an option leaves the backend
    no other reading of them.  A container that is changed or entered is one the backend
    reported as the owner's.  What only reads names any container. *)
Definition confined_arguments (owner : string) (paths : list ContainerPathGrant) (binary : string)
    (r : ContainerRequest) (arguments : list string) : Prop :=
  let operation := cr_Operation r in
  if is_one_of operation ["run"; "create"] then
    ∃ mounts, Forall2 (mounted paths) (cr_Mounts r) mounts ∧
      arguments = [operation; "--label"; "io.cpak.owner=" +:+ owner; "--label"; "io.cpak.managed=true"] ++
        creation_words r mounts ∧
      (is_option (cr_Image r) = false →
        parseContainerCommand (operation :: creation_words r mounts) =
          Ok (r{{ cr_Backend := ""; cr_Mounts := mounts }}))
  else if is_one_of operation ["exec"] then
    ∃ resource identifier, cr_Resources r = [resource] ∧ owned_by binary owner resource identifier ∧
      arguments = operation :: exec_words r identifier
  else if is_one_of operation ["start"; "stop"; "restart"; "rm"] then
    ∃ identifiers, Forall2 (owned_by binary owner) (cr_Resources r) identifiers ∧
      arguments = operation :: change_words r identifiers
  else arguments = operation :: read_words r.

(** The cases of [containerArguments]. *)
Lemma arguments_ok owner capabilities paths r arguments owned :
  containerArguments owner capabilities paths r = Ok (arguments, owned) →
  validateContainerRequest r = Ok tt ∧ allows capabilities (capability_of (cr_Operation r)) = true ∧
  let operation := cr_Operation r in
  if is_one_of operation ["run"; "create"] then
    owned = false ∧ ∃ created, containerCreateArguments owner paths r = Ok created ∧ arguments = operation :: created
  else if is_one_of operation ["start"; "stop"; "restart"; "rm"; "exec"] then
    owned = true ∧ arguments = operation ::
      (if is_one_of operation ["exec"] then containerExecArguments r else containerMutationArguments r)
  else owned = false ∧ arguments = operation :: containerReadArguments r.
Proof.
  unfold containerArguments. intros [Hv H]%bind_unit_ok. split; [done|]. cbv zeta in *.
  unfold capability_of.
  destruct (is_one_of _ ["version"; _; _; _; _; _; _]) eqn:E; [|clear E; destruct (is_one_of _ ["run"; _]) eqn:E;
    [|clear E; destruct (is_one_of _ ["start"; _; _; _]) eqn:E; [|clear E; destruct (is_one_of _ ["exec"]) eqn:E; [|done]]]];
    apply bind_unit_ok in H as [Hc%check_that_ok H];
    (split; [each_operation E; rewrite E; exact Hc|]).
  1: assert (is_one_of (cr_Operation r) ["run"; "create"] = false) as -> by (each_operation E; by rewrite E).
  1: assert (is_one_of (cr_Operation r) ["start"; "stop"; "restart"; "rm"; "exec"] = false) as ->
    by (each_operation E; by rewrite E).
  - by injection H as <- <-.
  - apply bind_ok in H as (created & Hc' & [= <- <-]). split; [done|]. by exists created.
  - injection H as <- <-. each_operation E; rewrite E; split; reflexivity.
  - injection H as <- <-. each_operation E; rewrite E; split; reflexivity.
Qed.

Lemma exec_resource r :
  cr_Operation r = "exec" → validateContainerShape r = Ok tt → ∃ resource, cr_Resources r = [resource].
Proof.
  intros E Hs. unfold validateContainerShape in Hs. cbv zeta in Hs. rewrite E in Hs. decide_operation Hs. take_shape Hs.
  destruct (cr_Resources r) as [|resource [|]] eqn:Hr; try done. by exists resource.
Qed.

(** A request for containers of the owner is executed on the identifiers the backend
    gives for them. *)
Lemma owned_arguments owner capabilities paths r binary arguments :
  is_one_of (cr_Operation r) ["start"; "stop"; "restart"; "rm"; "exec"] = true →
  validateContainerShape r = Ok tt →
  (resolved ← ownedContainerRequest binary owner r;
   '(arguments, _) ← containerArguments owner capabilities paths resolved; Ok (binary, arguments)) = Ok (binary, arguments) →
  confined_arguments owner paths binary r arguments.
Proof.
  intros E Hs (q & (ids & Hids%owned_identifiers_ok & Hqr%(inj Ok))%bind_ok & H)%bind_ok.
  assert (cr_Operation q = cr_Operation r) as Ho by (rewrite <-Hqr; by destruct r).
  apply bind_ok in H as ([arguments'' owned] & (_ & _ & Hq)%arguments_ok & [= <-]). cbv zeta in Hq. rewrite Ho, <-Hqr in Hq.
  unfold confined_arguments. cbv zeta. each_operation E; rewrite E in Hq |- *; decide_operation Hq; destruct Hq as [_ ->].
  1-4: exists ids; split; [done|]; by rewrite <-change_words_eq.
  destruct (exec_resource r E Hs) as [resource Hr]. rewrite Hr in Hids.
  apply Forall2_cons_inv_l in Hids as (i & ids' & Hi & Hnil%Forall2_nil_inv_l & ->). subst ids'.
  exists resource, i. split; [done|]. split; [done|]. by rewrite <-exec_words_eq.
Qed.

(** C9: what an application gets of the container backend.  A request that is
    executed was validated, needs a capability the policy grants, and runs a binary
    that belongs to root and that no one else can write.  A container it creates
    carries the label of its owner, and the options it is created with mount the
    resolved paths inside what the policy grants, writable only where the grant is, and
    nothing else; when the image is not written like an option, the arguments have no
    other reading.  The containers it starts, stops, restarts, removes or enters are
    named by identifiers that the backend reported as its own.  What only reads -
    [version], [info], [ps], [images], [inspect], [logs], [stats] - needs the capability
    to read and is asked of any container, whoever owns it. *)
Theorem broker_confined owner capabilities paths r binary arguments :
  executeContainer owner capabilities paths r = Ok (binary, arguments) →
  validateContainerRequest r = Ok tt ∧
  allows capabilities (capability_of (cr_Operation r)) = true ∧
  (∃ mode data, StatFile binary = Some (File 0 mode data) ∧ private_mode mode = true) ∧
  confined_arguments owner paths binary r arguments.
Proof.
  unfold executeContainer. intros ([arguments' owned] & Ha & H)%bind_ok.
  apply bind_ok in H as (binary' & Hb%trusted_binary_ok & H).
  pose proof Ha as (Hv & Hc & Hargs)%arguments_ok. split; [done|]. split; [done|].
  assert (binary = binary') as ->.
  { destruct owned; [|by injection H]. apply bind_ok in H as (q & _ & H). by apply bind_ok in H as ([? ?] & _ & [= -> _]). }
  split; [done|]. apply request_facts in Hv as (_ & He & Hp & Hs). cbv zeta in Hargs.
  destruct (is_one_of _ ["run"; _]) eqn:E.
  - unfold confined_arguments. cbv zeta. rewrite E. destruct Hargs as (-> & created & Hc' & ->). injection H as <-.
    destruct (creates_read_back owner paths r created) as (mounts & Hm & -> & Hr); [done..|].
    exists mounts. split; [|done]. eapply Forall2_impl; [exact Hm|]. apply resolved_mount_granted.
  - destruct (is_one_of _ ["start"; _; _; _; _]) eqn:E'.
    + destruct Hargs as [-> _]. by eapply owned_arguments.
    + unfold confined_arguments. cbv zeta. rewrite E. destruct Hargs as [-> ->]. injection H as <-.
      assert (is_one_of (cr_Operation r) ["exec"] = false ∧ is_one_of (cr_Operation r) ["start"; "stop"; "restart"; "rm"] = false)
        as [-> ->] by (unfold is_one_of in *; rewrite bool_decide_eq_false, !elem_of_cons in E'; rewrite !bool_decide_eq_false, !elem_of_cons; naive_solver).
      by rewrite read_words_eq.
Qed.
End Properties.

(** ** Example *)
Section Example_host.
#[local] Open Scope string_scope.

Definition example_identifier : string := "0123456789ab".

(** A host with podman, a data directory behind a link, and a container of [ada]. *)
Definition example_host : ContainerHost := {|
  EvalSymlinks p := if bool_decide (p = "/home/ada/data") then Some "/srv/data"
    else if bool_decide (p = "/usr/bin/podman") then Some p else None;
  OpenPath p := bool_decide (p = "/srv/data");
  LookPath b := if bool_decide (b = "podman") then Some "/usr/bin/podman" else None;
  StatFile p := if bool_decide (p = "/usr/bin/podman") then Some (File 0 493 "") else None;
  InspectOutput _ resource := if bool_decide (resource = "web") then Some (example_identifier +:+ " ada" +:+ String "010" "") else None
|}.
Definition example_capabilities : gmap string bool :=
  {[HostActionContainersManageOwned := true; HostActionContainersRead := true]}.
Definition example_grants : list ContainerPathGrant := [mkPathGrant "/srv" true].

Definition example_run : ContainerRequest := (request_of "run"){{
  cr_Image := "docker.io/library/alpine:3.20"; cr_Name := "web"; cr_Remove := true;
  cr_Environment := ["LANG=C"]; cr_Ports := ["8080:80"];
  cr_Mounts := [mkMount "/home/ada/data" "/data" true]; cr_Command := ["sh"; "-c"; "--volume=x"] }}.
Definition example_stop : ContainerRequest :=
  (request_of "stop"){{ cr_Resources := ["web"]; cr_Timeout := 5%Z }}.

Example run_arguments :
  executeContainer (containers := example_host) "ada" example_capabilities example_grants example_run =
    Ok ("/usr/bin/podman", ["run"; "--label"; "io.cpak.owner=ada"; "--label"; "io.cpak.managed=true"; "--name"; "web";
      "--rm"; "--env"; "LANG=C"; "--publish"; "8080:80"; "--volume"; "/srv/data:/data:ro";
      "docker.io/library/alpine:3.20"; "sh"; "-c"; "--volume=x"]).
Proof. vm_compute. reflexivity. Qed.

(** A container of someone else is not stopped. *)
Example stop_arguments :
  executeContainer (containers := example_host) "ada" example_capabilities example_grants example_stop =
    Ok ("/usr/bin/podman", ["stop"; "--time"; "5"; example_identifier]) ∧
  executeContainer (containers := example_host) "eve" example_capabilities example_grants example_stop =
    Err ContainerNotOwned.
Proof. vm_compute. done. Qed.

(** A container mounted for writing where the grant is read only. *)
Example write_refused :
  executeContainer (containers := example_host) "ada" example_capabilities example_grants
    (example_run{{ cr_Mounts := [mkMount "/home/ada/data" "/data" false] }}) = Err MountExceedsAccess.
Proof. vm_compute. reflexivity. Qed.

Lemma arguments_read_back_witness :
  ∃ mounts, Forall2 (resolved_mount (containers := example_host) example_grants) (cr_Mounts example_run) mounts ∧
    parseContainerCommand (unlabelled ["run"; "--label"; "io.cpak.owner=ada"; "--label"; "io.cpak.managed=true";
      "--name"; "web"; "--rm"; "--env"; "LANG=C"; "--publish"; "8080:80"; "--volume"; "/srv/data:/data:ro";
      "docker.io/library/alpine:3.20"; "sh"; "-c"; "--volume=x"]) =
    Ok (example_run{{ cr_Backend := ""; cr_Mounts := mounts }}).
Proof.
  apply (arguments_read_back (containers := example_host) "ada" example_capabilities example_grants example_run _ false).
  - vm_compute. reflexivity.
  - by split.
  - intros t Ht. discriminate.
  - reflexivity.
Defined.

Lemma broker_confined_witness :
  confined_arguments (containers := example_host) "ada" example_grants "/usr/bin/podman" example_stop
    ["stop"; "--time"; "5"; example_identifier] ∧
  confined_arguments (containers := example_host) "ada" example_grants "/usr/bin/podman" example_run
    ["run"; "--label"; "io.cpak.owner=ada"; "--label"; "io.cpak.managed=true"; "--name"; "web";
      "--rm"; "--env"; "LANG=C"; "--publish"; "8080:80"; "--volume"; "/srv/data:/data:ro";
      "docker.io/library/alpine:3.20"; "sh"; "-c"; "--volume=x"].
Proof.
  split.
  - apply (broker_confined (containers := example_host) "ada" example_capabilities example_grants example_stop).
    vm_compute. reflexivity.
  - apply (broker_confined (containers := example_host) "ada" example_capabilities example_grants example_run).
    vm_compute. reflexivity.
Defined.

(** *** What the validation lets through *)

(** The image is only read as a reference to a registry, of which the host name is
    any text without a slash or a space: the backend reads this one as an option
    that mounts a directory the policy does not grant, and takes its image from the
    command. *)
Lemma image_read_as_option :
  let request := (request_of "run"){{ cr_Image := "--volume=..:/x"; cr_Command := ["alpine"] }} in
  executeContainer (containers := example_host) "ada" example_capabilities [] request =
    Ok ("/usr/bin/podman", ["run"; "--label"; "io.cpak.owner=ada"; "--label"; "io.cpak.managed=true";
      "--volume=..:/x"; "alpine"]) ∧
  parseContainerCommand ["run"; "--volume=..:/x"; "alpine"] = Ok ((request_of "run"){{
    cr_Mounts := [mkMount ".." "/x" false]; cr_Image := "alpine" }}).
Proof. vm_compute. done. Qed.

(** The bounds on a timeout and a tail are those of the shim alone. *)
Lemma bounds_unchecked :
  executeContainer (containers := example_host) "ada" example_capabilities []
    (example_stop{{ cr_Timeout := 86400%Z }}) = Ok ("/usr/bin/podman", ["stop"; "--time"; "86400"; example_identifier]) ∧
  parseContainerCommand ["stop"; "--time"; "86400"; "web"] = Err InvalidTimeout ∧
  executeContainer (containers := example_host) "ada" example_capabilities []
    ((request_of "logs"){{ cr_Tail := Some (-1)%Z; cr_Resources := ["web"] }}) =
    Ok ("/usr/bin/podman", ["logs"; "--tail"; "-1"; "web"]) ∧
  parseContainerCommand ["logs"; "--tail"; "-1"; "web"] = Err InvalidTail.
Proof. vm_compute. done. Qed.
End Example_host.
