(* ===== verification/BusWire.v ===== *)
(** * Messages on the wire ([pkg/desktopbus/wire.go])

    Framing of D-Bus messages, the canonical packet the proxy forwards, and the
    file descriptors that travel with a message.  A byte slice is a string, a
    [uint32] an [N] below [2^32] whose arithmetic wraps.  The encoder and the
    decoder of godbus are parameters. *)
From Stdlib Require Import Ascii.
From stdpp Require Import base strings list numbers.
From S2P Require Import Prelude.
From S2P Require Import GoStrings.
From S2P Require Import Utf8.
From S2P Require Import Hex.
From stdpp Require Import options.

Definition maxMessageSize : N := N.shiftl 16 20.
Definition maxMessageFDs : nat := 64.

Inductive wire_error : Type :=
  | Truncated | InvalidByteOrder | InvalidLength | TooLarge | TooManyFDs
  | ConnectionFailed | UnexpectedEnd | InvalidControl | EncodeFailed | DecodeFailed | ShortWrite.

(** ** [binary.ByteOrder] *)
Inductive byte_order : Type := LittleEndian | BigEndian.

Definition order_of (c : ascii) : option byte_order :=
  if bool_decide (c = "l"%char) then Some LittleEndian
  else if bool_decide (c = "B"%char) then Some BigEndian
  else None.

(** The big-endian value of a byte slice. *)
Fixpoint value_be (acc : N) (s : string) : N :=
  match s with "" => acc | String c s => value_be (256 * acc + byte c) s end.
Fixpoint value_le (s : string) : N :=
  match s with "" => 0 | String c s => byte c + 256 * value_le s end.

(** [s[from:to]]. *)
Definition slice (from to : nat) (s : string) : string := str_take (to - from) (str_drop from s).

Definition Uint32 (order : byte_order) (s : string) : N :=
  match order with LittleEndian => value_le s | BigEndian => value_be 0 s end.

(** [PutUint32] writes the four bytes of a value. *)
Definition put_le (n : N) : string :=
  bytes [n mod 256; n / 256 mod 256; n / 65536 mod 256; n / 16777216 mod 256]%N.
Definition put_be (n : N) : string :=
  bytes [n / 16777216 mod 256; n / 65536 mod 256; n / 256 mod 256; n mod 256]%N.
Definition PutUint32 (order : byte_order) (n : N) : string :=
  match order with LittleEndian => put_le n | BigEndian => put_be n end.

Definition wrap32 (n : N) : N := n mod 2 ^ 32.

(** [n &^ 7]. *)
Definition clear7 (n : N) : N := N.ldiff n 7.

(** ** [messageLayout]: the byte order, and the offset and length of the body.
    [int] is 64 bits wide, so nothing wraps. *)
Definition messageLayout (data : string) : result wire_error (byte_order * N * N) :=
  if slen data <? 16 then Err Truncated
  else match data with
  | "" => Err Truncated
  | String c _ =>
      match order_of c with
      | None => Err InvalidByteOrder
      | Some order =>
          let bodyLength := Uint32 order (slice 4 8 data) in
          let headerLength := Uint32 order (slice 12 16 data) in
          let bodyOffset := (16 + clear7 (headerLength + 7))%N in
          let size := N.of_nat (slen data) in
          if (size <? bodyOffset)%N || (size - bodyOffset <? bodyLength)%N
          then Err InvalidLength else Ok (order, bodyOffset, bodyLength)
      end
  end.

(** ** [canonicalPacketData]: the header is encoded again from the message whose
    fields the decision was made on, the body is the client's. *)
Section Canonical.
Context {message : Type}.
Context (encodeMessage : message → byte_order → option string).

Definition canonicalPacketData (m : message) (data : string) : result wire_error string :=
  '(order, originalBodyOffset, originalBodyLength) ← messageLayout data;
  match encodeMessage m order with
  | None => Err EncodeFailed
  | Some encoded =>
      '(_, canonicalBodyOffset, _) ← messageLayout encoded;
      let canonical :=
        str_take (N.to_nat canonicalBodyOffset) encoded +:+
        slice (N.to_nat originalBodyOffset) (N.to_nat (originalBodyOffset + originalBodyLength)) data in
      Ok (str_take 4 canonical +:+ PutUint32 order originalBodyLength +:+ str_drop 8 canonical)
  end.
End Canonical.

(** ** Reading from the socket *)

(** What one [recvmsg] finds: bytes, with the control messages sent with the
    first of them - each carries descriptors unless it is not [SCM_RIGHTS] -
    and whether the kernel cut the control data short or it does not parse. *)
Record chunk : Type := Chunk {
  payload : string; controls : list (option (list Z)); cut_short : bool; malformed : bool }.
Inductive event : Type :=
  | Received (c : chunk)
  | Broken.

(** The descriptors the process was given and those it closed. *)
Record ledger : Type := Ledger { received : list Z; closed : list Z }.
Definition receive (fds : list Z) (l : ledger) : ledger := Ledger (received l ++ fds) (closed l).
Definition closeFDs (fds : list Z) (l : ledger) : ledger := Ledger (received l) (closed l ++ fds).

(** The descriptors the kernel installs for a chunk. *)
Definition installed (c : chunk) : list Z := concat (default [] <$> controls c).

(** What is left of the chunk after reading [n] of its bytes. *)
Definition after (n : nat) (c : chunk) (input : list event) : list event :=
  if slen (payload c) <=? n then input
  else Received (Chunk (str_drop n (payload c)) [] false false) :: input.

(** The loop over the control messages. *)
Fixpoint collect_rights (fds : list Z) (l : ledger) (messages : list (option (list Z))) :
    list Z * option wire_error * ledger :=
  match messages with
  | [] => (fds, None, l)
  | None :: _ => (fds, Some InvalidControl, l)
  | Some rights :: messages =>
      if maxMessageFDs - length fds <? length rights
      then (fds, Some TooManyFDs, closeFDs rights l)
      else collect_rights (fds ++ rights) l messages
  end.

(** [readMessageBytes]: the bytes read, the descriptors, the error, and what is
    left to read.  Every round reads at least a byte, so [wanted] rounds do. *)
Fixpoint read_bytes (rounds wanted : nat) (fds : list Z) (l : ledger) (input : list event) :
    string * list Z * option wire_error * ledger * list event :=
  match rounds, wanted with
  | _, 0 => ("", fds, None, l, input)
  | 0, _ => ("", fds, Some UnexpectedEnd, l, input)
  | S rounds, _ =>
      match input with
      | [] => ("", fds, Some UnexpectedEnd, l, input)
      | Broken :: input => ("", fds, Some ConnectionFailed, l, input)
      | Received c :: input =>
          let n := min wanted (slen (payload c)) in
          let l := receive (installed c) l in
          let input := after n c input in
          if n =? 0 then ("", fds, Some UnexpectedEnd, l, input)
          else if cut_short c then ("", fds, Some TooManyFDs, l, input)
          else if malformed c then ("", fds, Some InvalidControl, l, input)
          else
            let '(fds, failure, l) := collect_rights fds l (controls c) in
            match failure with
            | Some e => ("", fds, Some e, l, input)
            | None =>
                let '(rest, fds, failure, l, input) := read_bytes rounds (wanted - n) fds l input in
                (str_take n (payload c) +:+ rest, fds, failure, l, input)
            end
      end
  end.
Definition readMessageBytes (wanted : nat) (l : ledger) (input : list event) :
    string * list Z * option wire_error * ledger * list event :=
  read_bytes wanted wanted [] l input.

(** ** [readMessage] *)
Definition aligned (headerLength : N) : N := clear7 (wrap32 (headerLength + 7)).
Definition remaining (order : byte_order) (header : string) : N :=
  aligned (Uint32 order (slice 12 16 header)) + Uint32 order (slice 4 8 header).

Section Read.
Context {message : Type}.
Context (DecodeMessageWithFDs : string → list Z → option message).

Record messagePacket : Type := Packet { decoded : message; data : string; fds : list Z }.

Definition readMessage (input : list event) : result wire_error messagePacket * ledger * list event :=
  let l := Ledger [] [] in
  let '(header, fds, failure, l, input) := readMessageBytes 16 l input in
  match failure with
  | Some e => (Err e, l, input)
  | None =>
      match String.get 0 header ≫= order_of with
      | None => (Err InvalidByteOrder, closeFDs fds l, input)
      | Some order =>
          let remaining := remaining order header in
          if (maxMessageSize - 16 <? remaining)%N then (Err TooLarge, closeFDs fds l, input)
          else
            let '(body, moreFDs, failure, l, input) := readMessageBytes (N.to_nat remaining) l input in
            match failure with
            | Some e => (Err e, closeFDs fds (closeFDs moreFDs l), input)
            | None =>
                if maxMessageFDs - length fds <? length moreFDs
                then (Err TooManyFDs, closeFDs fds (closeFDs moreFDs l), input)
                else
                  let fds := fds ++ moreFDs in
                  let data := header +:+ body in
                  match DecodeMessageWithFDs data fds with
                  | None => (Err DecodeFailed, closeFDs fds l, input)
                  | Some m => (Ok (Packet m data fds), l, input)
                  end
            end
      end
  end.
End Read.

(** ** [writeAll]: [write k data] is how many bytes the [k]-th write accepts. *)
Fixpoint write_all (rounds k : nat) (write : nat → string → option nat) (data : string) :
    string * option wire_error :=
  match data with
  | "" => ("", None)
  | _ =>
      match rounds with
      | 0 => ("", Some ShortWrite)
      | S rounds =>
          match write k data with
          | None => ("", Some ConnectionFailed)
          | Some n =>
              if n =? 0 then ("", Some ShortWrite)
              else
                let '(written, failure) := write_all rounds (S k) write (str_drop n data) in
                (str_take n data +:+ written, failure)
          end
      end
  end.
Definition writeAll (write : nat → string → option nat) (data : string) : string * option wire_error :=
  write_all (slen data) 0 write data.

(** ** Integers in a message *)

Lemma value_le_bound s : (value_le s < 256 ^ N.of_nat (slen s))%N.
Proof.
  induction s as [|c s IH]; [done|]. cbn [value_le]. rewrite slen_cons, Nat2N.inj_succ, N.pow_succ_r'.
  pose proof (byte_bound c). lia.
Qed.

Lemma value_be_bound acc s : (value_be acc s < (acc + 1) * 256 ^ N.of_nat (slen s))%N.
Proof.
  revert acc. induction s as [|c s IH]; intros acc; cbn [value_be]; [simpl; lia|].
  rewrite slen_cons, Nat2N.inj_succ, N.pow_succ_r'. pose proof (byte_bound c). specialize (IH (256 * acc + byte c)%N).
  nia.
Qed.

Lemma slen_slice from to s : slen (slice from to s) ≤ to - from.
Proof. unfold slice. rewrite slen_take. lia. Qed.

Lemma uint32_bound order from s : (Uint32 order (slice from (from + 4) s) < 2 ^ 32)%N.
Proof.
  assert (slen (slice from (from + 4) s) ≤ 4) as Hs by (pose proof (slen_slice from (from + 4) s); lia).
  assert (256 ^ N.of_nat (slen (slice from (from + 4) s)) ≤ 256 ^ 4)%N as Hp by (apply N.pow_le_mono_r; lia).
  change (256 ^ 4)%N with (2 ^ 32)%N in Hp.
  destruct order; cbn [Uint32]; [eapply N.lt_le_trans; [apply value_le_bound|done]|].
  eapply N.lt_le_trans; [apply value_be_bound|]. lia.
Qed.

Lemma put_uint32 order n : (n < 2 ^ 32)%N → Uint32 order (PutUint32 order n) = n.
Proof.
  intros Hn.
  assert ((n / 16777216 mod 256 = n / 16777216)%N) as Htop.
  { apply N.mod_small. apply N.Div0.div_lt_upper_bound. lia. }
  assert (n = n mod 256 + 256 * (n / 256 mod 256 + 256 * (n / 65536 mod 256 + 256 * (n / 16777216))))%N as Hv.
  { change 16777216%N with (256 * 256 * 256)%N. change 65536%N with (256 * 256)%N.
    rewrite <-!N.Div0.div_div. set (a := (n / 256)%N). set (b := (a / 256)%N).
    pose proof (N.div_mod n 256 ltac:(done)) as H1. pose proof (N.div_mod a 256 ltac:(done)) as H2.
    pose proof (N.div_mod b 256 ltac:(done)) as H3. fold a in H1. fold b in H2. lia. }
  destruct order; cbn [Uint32 PutUint32]; unfold put_le, put_be, bytes; cbn [foldr value_le value_be];
    rewrite !byte_of_N by (by apply N.mod_lt); rewrite Htop; lia.
Qed.

Lemma slen_put order n : slen (PutUint32 order n) = 4.
Proof. by destruct order. Qed.

(** ** Alignment *)
Lemma clear7_spec n : clear7 n = (8 * (n / 8))%N.
Proof.
  unfold clear7. change 7%N with (N.ones 3). rewrite N.ldiff_ones_r, N.shiftl_mul_pow2, N.shiftr_div_pow2.
  change (2 ^ 3)%N with 8%N. lia.
Qed.

Lemma aligned_small h : (h + 7 < 2 ^ 32)%N → aligned h = clear7 (h + 7).
Proof. intros Hh. unfold aligned, wrap32. by rewrite N.mod_small. Qed.

(** ** Slices *)
Lemma str_take_app_le n s t : n ≤ slen s → str_take n (s +:+ t) = str_take n s.
Proof.
  revert n. induction s as [|c s IH]; intros [|n] Hn; [done|simpl in Hn; lia|done|].
  rewrite slen_cons in Hn. cbn. f_equal. apply IH. lia.
Qed.

Lemma str_drop_app_le n s t : n ≤ slen s → str_drop n (s +:+ t) = str_drop n s +:+ t.
Proof.
  revert n. induction s as [|c s IH]; intros [|n] Hn; [done| |done|].
  - simpl in Hn. lia.
  - rewrite slen_cons in Hn. cbn. apply IH. lia.
Qed.

Lemma slen_drop n s : slen (str_drop n s) = slen s - n.
Proof. revert s. induction n as [|n IH]; intros [|c s]; [done..|]. apply IH. Qed.

Lemma str_drop_drop n m s : str_drop n (str_drop m s) = str_drop (m + n) s.
Proof. revert s. induction m as [|m IH]; intros [|c s]; [done..|by destruct n|apply IH]. Qed.

Lemma slice_app_l from to s t : to ≤ slen s → slice from to (s +:+ t) = slice from to s.
Proof.
  intros Hto. unfold slice. destruct (decide (from ≤ slen s)).
  - rewrite str_drop_app_le by done. apply str_take_app_le. rewrite slen_drop. lia.
  - replace (to - from) with 0 by lia. by destruct (str_drop from (s +:+ t)), (str_drop from s).
Qed.

Lemma slice_app_r from to s t :
  slen s ≤ from → slice from to (s +:+ t) = slice (from - slen s) (to - slen s) t.
Proof.
  intros Hf. unfold slice. replace (to - slen s - (from - slen s)) with (to - from) by lia. f_equal.
  replace from with (slen s + (from - slen s)) at 1 by lia. by rewrite <-str_drop_drop, str_drop_app.
Qed.

Lemma str_take_take n m s : str_take n (str_take m s) = str_take (min n m) s.
Proof. revert m s. induction n as [|n IH]; intros [|m] [|c s]; [done..|]. cbn. f_equal. apply IH. Qed.

Lemma str_drop_take n m s : str_drop n (str_take m s) = slice n m s.
Proof.
  unfold slice. revert m s. induction n as [|n IH]; intros [|m] s; cbn [Nat.sub]; [done..| |].
  - by destruct (str_drop _ s).
  - destruct s as [|c s]; [by destruct (m - n)|]. apply IH.
Qed.

Lemma slice_slice from to a b s :
  a + to ≤ b → slice from to (slice a b s) = slice (a + from) (a + to) s.
Proof.
  intros Hb. unfold slice at 1 2. rewrite str_drop_take. unfold slice.
  rewrite str_take_take, str_drop_drop. f_equal. lia.
Qed.

Lemma slice_all s : slice 0 (slen s) s = s.
Proof.
  unfold slice. rewrite Nat.sub_0_r. rewrite <-(app_nil_str s) at 2. cbn. by rewrite str_take_app.
Qed.

(** ** What reading takes from the socket *)

(** The bytes still to be read. *)
Definition stream (input : list event) : string :=
  concat_strings ((λ e, match e with Received c => payload c | Broken => "" end) <$> input).

(** Control data as Linux delivers it when it fits: at most one message, which
    carries descriptors. *)
Definition orderly (e : event) : Prop :=
  match e with
  | Received c => cut_short c = false ∧ malformed c = false ∧
      (payload c = "" → controls c = []) ∧
      (controls c = [] ∨ ∃ rights, controls c = [Some rights])
  | Broken => True
  end.

Lemma stream_after n c input :
  n ≤ slen (payload c) →
  payload c +:+ stream input = str_take n (payload c) +:+ stream (after n c input).
Proof.
  intros Hn. unfold after. case_if; bools_all.
  - assert (n = slen (payload c)) as -> by lia. f_equal.
    rewrite <-(app_nil_str (payload c)) at 3. by rewrite str_take_app.
  - change (stream (Received ?c :: ?l)) with (payload c +:+ stream l). cbn [payload].
    by rewrite <-app_assoc_str, str_take_drop.
Qed.

Lemma orderly_after n c input :
  Forall orderly input → Forall orderly (after n c input).
Proof. intros Hi. unfold after. case_if; [done|]. constructor; [|done]. cbn. auto. Qed.

Lemma collect_rights_spec fds l messages fds' failure l' :
  collect_rights fds l messages = (fds', failure, l') → length fds ≤ maxMessageFDs →
  length fds' ≤ maxMessageFDs ∧ received l' = received l ∧
  (failure = None → fds' = fds ++ concat (default [] <$> messages) ∧ l' = l).
Proof.
  revert fds l. induction messages as [|[rights|] messages IH]; intros fds l; cbn [collect_rights].
  - intros [= <- <- <-] ?. by rewrite app_nil_r.
  - case_if; bools_all; [by intros [= <- <- <-]|]. intros Hc Hl. apply IH in Hc as (? & ? & Hn).
    + split_and!; [done..|]. intros Hf. destruct (Hn Hf) as [-> ->]. by rewrite <-app_assoc.
    + rewrite length_app. lia.
  - by intros [= <- <- <-].
Qed.

Lemma collect_rights_orderly fds l messages fds' e l' :
  collect_rights fds l messages = (fds', Some e, l') →
  messages = [] ∨ (∃ rights, messages = [Some rights]) →
  fds' = fds ∧ l' = closeFDs (concat (default [] <$> messages)) l.
Proof.
  intros Hc [->|(rights & ->)]; [done|]. cbn [collect_rights] in Hc.
  destruct (_ <? _); [|done].
  injection Hc as <- <- <-. cbn. by rewrite app_nil_r.
Qed.

Lemma read_bytes_ok rounds wanted fds l input s fds' l' input' :
  read_bytes rounds wanted fds l input = (s, fds', None, l', input') →
  length fds ≤ maxMessageFDs →
  slen s = wanted ∧ stream input = s +:+ stream input' ∧ length fds' ≤ maxMessageFDs ∧
  ∃ got, fds' = fds ++ got ∧ l' = receive got l.
Proof.
  assert (∀ l, l = receive [] l) as Hr0 by (intros []; unfold receive; by rewrite app_nil_r).
  revert wanted fds l input s. induction rounds as [|rounds IH]; intros [|wanted] fds l input s;
    cbn [read_bytes]; [|done| |].
  1,2: intros [= <- <- <- <-] ?; split_and!; [done..|]; exists []; by rewrite app_nil_r.
  destruct input as [|[c|] input]; [done| |done].
  set (n := min (S wanted) (slen (payload c))).
  destruct (n =? 0); [done|]. destruct (cut_short c), (malformed c); try done.
  destruct (collect_rights _ _ _) as [[fds1 [e|]] l1] eqn:Hc; [done|].
  destruct (read_bytes _ _ _ _ _) as [[[[s1 fds2] failure] l2] input2] eqn:Hrec.
  intros [= <- <- -> <- <-] Hl. apply collect_rights_spec in Hc as (Hl1 & _ & Hc); [|done].
  destruct (Hc eq_refl) as [-> ->].
  apply IH in Hrec as (Hs1 & Hst & Hl2 & got & -> & ->); [|done]. split_and!.
  - rewrite slen_app, slen_take, Hs1. lia.
  - rewrite app_assoc_str, <-Hst. apply stream_after. lia.
  - done.
  - exists (installed c ++ got). unfold receive, installed. cbn [received closed]. by rewrite !app_assoc.
Qed.

Lemma read_bytes_failed rounds wanted fds l input s fds' e l' input' :
  read_bytes rounds wanted fds l input = (s, fds', Some e, l', input') →
  Forall orderly input → length fds ≤ maxMessageFDs →
  ∃ got refused, fds' = fds ++ got ∧ l' = closeFDs refused (receive (got ++ refused) l).
Proof.
  assert (∀ fds l, ∃ got refused, fds = fds ++ got ∧ l = closeFDs refused (receive (got ++ refused) l)) as Hr0.
  { intros f [r cl]. exists [], []. unfold closeFDs, receive. cbn. by rewrite !app_nil_r. }
  revert wanted fds l input s. induction rounds as [|rounds IH]; intros [|wanted] fds l input s;
    cbn [read_bytes]; [done|by intros [= <- <- <- <- <-]|done|].
  destruct input as [|[c|] input]; [by intros [= <- <- <- <- <-]| |by intros [= <- <- <- <- <-]].
  set (n := min (S wanted) (slen (payload c))). intros Hread Ho Hlen.
  apply Forall_cons_1 in Ho as [(Hcut & Hmal & Hempty & Hctl) Ho].
  destruct (n =? 0) eqn:Hn.
  { injection Hread as <- <- <- <- <-. bools_in Hn. unfold installed. rewrite Hempty; [|by destruct (payload c)].
    exists [], []. unfold closeFDs, receive. cbn. by rewrite !app_nil_r. }
  rewrite Hcut, Hmal in Hread. destruct (collect_rights _ _ _) as [[fds1 [e1|]] l1] eqn:Hc.
  { injection Hread as <- <- <- <- <-. apply collect_rights_orderly in Hc as [-> ->]; [|done].
    exists [], (installed c). by rewrite app_nil_r. }
  destruct (read_bytes _ _ _ _ _) as [[[[s1 fds2] failure] l2] input2] eqn:Hrec.
  injection Hread as <- <- -> <- <-.
  apply collect_rights_spec in Hc as (Hl1 & _ & Hc); [|done]. destruct (Hc eq_refl) as [-> ->].
  apply IH in Hrec as (got & refused & -> & ->); [|by apply orderly_after|done].
  exists (installed c ++ got), refused. unfold installed, closeFDs, receive. cbn. by rewrite !app_assoc.
Qed.

(** Success leaves orderly events behind. *)
Lemma read_bytes_orderly rounds wanted fds l input s fds' f l' input' :
  read_bytes rounds wanted fds l input = (s, fds', f, l', input') →
  Forall orderly input → Forall orderly input'.
Proof.
  revert wanted fds l input s. induction rounds as [|rounds IH]; intros [|wanted] fds l input s;
    cbn [read_bytes]; [naive_solver..|].
  destruct input as [|[c|] input]; [naive_solver| |intros [= <- <- <- <- <-] Ho; by inversion Ho].
  intros Hread Ho. apply Forall_cons_1 in Ho as [_ Ho].
  pose proof (orderly_after (min (S wanted) (slen (payload c))) c _ Ho).
  repeat case_match; simplify_eq; eauto.
Qed.

(** ** Properties *)

Lemma layout_exact order data :
  16 ≤ slen data → String.get 0 data ≫= order_of = Some order →
  N.of_nat (slen data) = (16 + remaining order data)%N →
  (Uint32 order (slice 12 16 data) + 7 < 2 ^ 32)%N →
  ∃ bodyOffset bodyLength, messageLayout data = Ok (order, bodyOffset, bodyLength) ∧
    (bodyOffset + bodyLength = N.of_nat (slen data))%N.
Proof.
  intros Hl Ho Hsize Hwrap. unfold remaining in Hsize. rewrite aligned_small in Hsize by done.
  unfold messageLayout. rewrite (proj2 (Nat.ltb_ge _ _)) by done.
  destruct data as [|c s]; [done|]. cbn in Ho. rewrite Ho.
  rewrite Hsize. rewrite !(proj2 (N.ltb_ge _ _)) by lia. cbn [orb]. do 2 eexists. split; [done|lia].
Qed.

Section ReadProperties.
Context {message : Type} (Decode : string → list Z → option message).

(** C38: A message the proxy reads is one frame of the connection: its bytes are
    the next ones of the stream and the rest is left for the next message, it
    is at most 16 MiB long and as long as its header says, it carries at most
    64 descriptors which are exactly those received, none of them closed, and
    it is what the decoder makes of those.  [messageLayout] then finds the
    body at its end, whenever the header length does not wrap a [uint32]. *)
Theorem read_message_framed input p l input' :
  readMessage Decode input = (Ok p, l, input') →
  ∃ order,
    stream input = data p +:+ stream input' ∧
    String.get 0 (data p) ≫= order_of = Some order ∧
    N.of_nat (slen (data p)) = (16 + remaining order (data p))%N ∧
    (N.of_nat (slen (data p)) <= maxMessageSize)%N ∧
    l = Ledger (fds p) [] ∧ length (fds p) ≤ maxMessageFDs ∧
    Decode (data p) (fds p) = Some (decoded p) ∧
    ((Uint32 order (slice 12 16 (data p)) + 7 < 2 ^ 32)%N →
     ∃ bodyOffset bodyLength, messageLayout (data p) = Ok (order, bodyOffset, bodyLength) ∧
       (bodyOffset + bodyLength = N.of_nat (slen (data p)))%N).
Proof.
  unfold readMessage, readMessageBytes.
  destruct (read_bytes 16 _ _ _ _) as [[[[header fds1] [e|]] l1] input1] eqn:Hh; [done|].
  apply read_bytes_ok in Hh as (Hlen & Hst1 & Hfds1 & got1 & -> & ->); [|apply Nat.le_0_l].
  destruct (String.get 0 header ≫= order_of) as [order|] eqn:Ho; [|done].
  case_if; [done|]. bools_all.
  destruct (read_bytes (N.to_nat _) _ _ _ _) as [[[[body fds2] [e|]] l2] input2] eqn:Hb; [done|].
  apply read_bytes_ok in Hb as (Hblen & Hst2 & Hfds2 & got2 & -> & ->); [|apply Nat.le_0_l].
  case_if; [done|]. bools_all. destruct (Decode _ _) as [m|] eqn:Hd; [|done].
  intros [= <- <- <-]. exists order. cbn [data fds decoded].
  assert (remaining order (header +:+ body) = remaining order header) as Hrem.
  { unfold remaining. by rewrite !slice_app_l by lia. }
  assert (String.get 0 (header +:+ body) ≫= order_of = Some order) as Hget.
  { destruct header; [done|]. exact Ho. }
  rewrite Hrem. assert (N.of_nat (slen (header +:+ body)) = 16 + remaining order header)%N as Hsize.
  { rewrite slen_app, Hlen, Hblen. lia. }
  split_and!; [by rewrite app_assoc_str, <-Hst2|done|done|change maxMessageSize with 16777216%N in *; lia|
    unfold receive; cbn; by rewrite ?app_nil_l|rewrite length_app; simpl app in *; lia|done|].
  intros Hwrap. apply layout_exact; [rewrite slen_app; lia|done|by rewrite Hrem|done].
Qed.

(** Of the descriptors a client sends with a message that is refused after
    its sixteen first bytes were read, none stays open: those the process was
    given are those it closed. *)
Theorem read_message_accounts input header got l1 input1 e l input' :
  Forall orderly input →
  readMessageBytes 16 (Ledger [] []) input = (header, got, None, l1, input1) →
  readMessage Decode input = (Err e, l, input') →
  received l ≡ₚ closed l.
Proof.
  intros Hi Hh. unfold readMessage. rewrite Hh. unfold readMessageBytes in Hh.
  pose proof (read_bytes_orderly _ _ _ _ _ _ _ _ _ _ Hh Hi) as Hi1.
  apply read_bytes_ok in Hh as (_ & _ & _ & got1 & -> & ->); [|apply Nat.le_0_l].
  destruct (String.get 0 header ≫= order_of) as [order|]; [|by intros [= <- <- <-]].
  case_if; [by intros [= <- <- <-]|].
  destruct (readMessageBytes _ _ input1) as [[[[body fds2] [e2|]] l2] input2] eqn:Hb.
  - unfold readMessageBytes in Hb.
    apply read_bytes_failed in Hb as (got2 & refused & -> & ->); [|done|apply Nat.le_0_l].
    intros [= <- <- <-]. cbn. solve_Permutation.
  - apply read_bytes_ok in Hb as (_ & _ & _ & got2 & -> & ->); [|apply Nat.le_0_l].
    case_if; [intros [= <- <- <-]; cbn; solve_Permutation|].
    destruct (Decode _ _); [done|]. intros [= <- <- <-]. done.
Qed.
End ReadProperties.

(** A 16-byte method call of an empty header, in two pieces with a descriptor each. *)
Definition sample : string :=
  bytes [108; 1; 0; 1; 0; 0; 0; 0; 1; 0; 0; 0; 0; 0; 0; 0]%N.
Definition sample_input : list event :=
  [Received (Chunk (str_take 9 sample) [Some [7%Z]] false false);
   Received (Chunk (str_drop 9 sample) [Some [8%Z]] false false)].

Lemma read_message_framed_witness :
  let Decode := λ (_ : string) (_ : list Z), Some () in
  readMessage Decode sample_input = (Ok (Packet () sample [7; 8]%Z), Ledger [7; 8]%Z [], []) ∧
  ∃ order, String.get 0 sample ≫= order_of = Some order.
Proof.
  intros Decode.
  assert (readMessage Decode sample_input = (Ok (Packet () sample [7; 8]%Z), Ledger [7; 8]%Z [], [])) as H
    by (vm_compute; reflexivity).
  split; [exact H|].
  destruct (read_message_framed Decode _ _ _ _ H) as (order & _ & Ho & _). exists order. exact Ho.
Defined.

Lemma read_message_accounts_witness :
  Forall orderly sample_input ∧ [7; 8]%Z ≡ₚ [7; 8]%Z.
Proof.
  assert (Forall orderly sample_input) as Ho by (repeat constructor; cbn; eauto; done).
  split; [exact Ho|].
  exact (read_message_accounts (λ (_ : string) (_ : list Z), @None ()) sample_input sample [7; 8]%Z
    (Ledger [7; 8]%Z []) [] DecodeFailed (Ledger [7; 8]%Z [7; 8]%Z) [] Ho
    ltac:(vm_compute; reflexivity) ltac:(vm_compute; reflexivity)).
Defined.

(** Descriptors that arrive with a header cut short are never closed. *)
Lemma header_failure_leaks :
  readMessage (λ _ _, Some ()) [Received (Chunk "l" [Some [7%Z]] false false)] =
    (Err UnexpectedEnd, Ledger [7%Z] [], []).
Proof. reflexivity. Qed.

(** A header length within eight of [2^32] wraps to an empty header: the size
    limit is not applied to it, and only [messageLayout] refuses the packet. *)
Definition wrapping : string :=
  bytes [108; 1; 0; 1; 0; 0; 0; 0; 1; 0; 0; 0; 255; 255; 255; 255]%N.
Lemma header_length_wraps :
  readMessage (λ _ _, Some ()) [Received (Chunk wrapping [] false false)] =
    (Ok (Packet () wrapping []), Ledger [] [], []) ∧
  messageLayout wrapping = Err InvalidLength.
Proof. split; vm_compute; reflexivity. Qed.

(** ** The canonical packet *)

Lemma layout_inv data order off len :
  messageLayout data = Ok (order, off, len) →
  16 ≤ slen data ∧ String.get 0 data ≫= order_of = Some order ∧
  len = Uint32 order (slice 4 8 data) ∧ off = (16 + clear7 (Uint32 order (slice 12 16 data) + 7))%N ∧
  (off + len <= N.of_nat (slen data))%N.
Proof.
  unfold messageLayout. destruct (slen data <? 16) eqn:Hl; [done|]. bools_in Hl.
  destruct data as [|c s] eqn:Hd; [done|]. rewrite <-Hd in *. cbn [String.get].
  assert (String.get 0 data = Some c) as -> by by rewrite Hd.
  destruct (order_of c) as [o|] eqn:Ho; [|done]. case_if; [done|]. bools_all.
  destruct Heqb as [H1 H2]. intros [= <- <- <-]. split_and!; [done|exact Ho|done|done|lia].
Qed.

Lemma layout_make data order :
  16 ≤ slen data → String.get 0 data ≫= order_of = Some order →
  let off := (16 + clear7 (Uint32 order (slice 12 16 data) + 7))%N in
  let len := Uint32 order (slice 4 8 data) in
  (off + len <= N.of_nat (slen data))%N → messageLayout data = Ok (order, off, len).
Proof.
  intros Hl Ho off len Hsize. unfold messageLayout. rewrite (proj2 (Nat.ltb_ge _ _)) by done.
  destruct data as [|c s]; [done|]. cbn in Ho. rewrite Ho.
  fold off len. cbv zeta. destruct (_ || _)%N eqn:E; [|done].
  apply orb_true_iff in E as [E|E]; apply N.ltb_lt in E; lia.
Qed.

(** The packet the proxy forwards pairs the header encoded from the message
    it decided on with the client's own body, byte for byte: every byte before
    the body but the body length is the encoder's, the body and its length are
    the client's, and the packet is well formed, the body being at its end. *)
Theorem canonical_packet {message} (encode : message → byte_order → option string) m data order off len
    encoded order' off' len' canonical :
  messageLayout data = Ok (order, off, len) →
  encode m order = Some encoded → messageLayout encoded = Ok (order', off', len') → order' = order →
  canonicalPacketData encode m data = Ok canonical →
  let body := slice (N.to_nat off) (N.to_nat (off + len)) data in
  canonical = str_take 4 encoded +:+ PutUint32 order len +:+ slice 8 (N.to_nat off') encoded +:+ body ∧
  N.of_nat (slen body) = len ∧
  messageLayout canonical = Ok (order, off', len) ∧
  str_drop (N.to_nat off') canonical = body.
Proof.
  intros Hd He Hle -> Hc body. pose proof (layout_inv _ _ _ _ Hd) as (Hl1 & Ho1 & Hlen & Hoff & Hsize).
  pose proof (layout_inv _ _ _ _ Hle) as (Hl2 & Ho2 & Hlen2 & Hoff2 & Hsize2).
  assert (len < 2 ^ 32)%N as Hw by (rewrite Hlen; apply uint32_bound).
  unfold canonicalPacketData in Hc. rewrite Hd in Hc.
  cbn -[str_take str_drop] in Hc. rewrite He, Hle in Hc. cbn -[str_take str_drop] in Hc.
  fold body in Hc. apply (inj Ok) in Hc.
  assert (slen body = N.to_nat len) as Hbody.
  { unfold body, slice. rewrite slen_take, slen_drop. lia. }
  assert (16 ≤ N.to_nat off') as H16 by lia.
  set (head := str_take (N.to_nat off') encoded) in *.
  assert (slen head = N.to_nat off') as Hhead by (unfold head; rewrite slen_take; lia).
  assert (canonical = str_take 4 encoded +:+ PutUint32 order len +:+ slice 8 (N.to_nat off') encoded +:+ body) as Hcan.
  { rewrite <-Hc, str_take_app_le, str_drop_app_le by lia. unfold head.
    rewrite str_take_take, str_drop_take, Nat.min_l by lia. done. }
  assert (slen (str_take 4 encoded) = 4) as H4 by (rewrite slen_take; lia).
  assert (slen (slice 8 (N.to_nat off') encoded) = N.to_nat off' - 8) as HS.
  { unfold slice. rewrite slen_take, slen_drop. lia. }
  split_and!; [done|rewrite Hbody; lia| |].
  - rewrite Hcan. set (t := slice 8 _ _ +:+ body).
    assert (slice 4 8 (str_take 4 encoded +:+ PutUint32 order len +:+ t) = PutUint32 order len) as Hs1.
    { rewrite slice_app_r, H4, slice_app_l by (rewrite ?slen_put; lia).
      pose proof (slice_all (PutUint32 order len)) as Hall. by rewrite slen_put in Hall. }
    assert (slice 12 16 (str_take 4 encoded +:+ PutUint32 order len +:+ t) = slice 12 16 encoded) as Hs2.
    { unfold t. rewrite slice_app_r, slice_app_r, H4, slen_put, slice_app_l by (rewrite ?slen_put; lia).
      apply (slice_slice 4 8). lia. }
    rewrite (layout_make _ order); [rewrite Hs1, Hs2, put_uint32 by done; by rewrite <-Hoff2|..].
    + rewrite !slen_app, H4, slen_put. unfold t. rewrite slen_app, HS. lia.
    + destruct encoded; [done|]. exact Ho2.
    + rewrite Hs1, Hs2, put_uint32, <-Hoff2 by done. rewrite !slen_app, H4, slen_put. unfold t.
      rewrite slen_app, HS, Hbody. lia.
  - rewrite Hcan, <-!app_assoc_str. rewrite <-(str_drop_app (str_take 4 encoded +:+ PutUint32 order len +:+ slice 8 (N.to_nat off') encoded) body) at 2.
    rewrite !app_assoc_str. f_equal. rewrite !slen_app, H4, slen_put, HS. lia.
Qed.

Lemma canonical_packet_witness :
  let encode := λ (_ : ()) (_ : byte_order), Some (str_take 8 sample +:+ str_drop 8 sample) in
  ∃ canonical, canonicalPacketData encode () sample = Ok canonical ∧
    messageLayout canonical = Ok (LittleEndian, 16%N, 0%N).
Proof.
  intros encode. exists sample. split; [vm_compute; reflexivity|].
  destruct (canonical_packet encode () sample LittleEndian 16 0 sample LittleEndian 16 0 sample
    ltac:(vm_compute; reflexivity) ltac:(vm_compute; reflexivity) ltac:(vm_compute; reflexivity)
    ltac:(reflexivity) ltac:(vm_compute; reflexivity)) as (_ & _ & H & _). exact H.
Defined.

(** ** Writing *)

(** [writeAll] puts the whole of its data on the connection or fails, having
    written a prefix of it, whatever part of it each [Write] accepts; and it
    succeeds whenever every [Write] accepts at least a byte. *)
Theorem write_all_total write data :
  let '(written, failure) := writeAll write data in
  (∃ rest, data = written +:+ rest ∧ (failure = None ↔ rest = "")) ∧
  ((∀ k s, s ≠ "" → ∃ n, write k s = Some (S n)) → failure = None).
Proof.
  unfold writeAll. generalize 0 as k.
  assert (∀ rounds k data, slen data ≤ rounds →
    let '(written, failure) := write_all rounds k write data in
    (∃ rest, data = written +:+ rest ∧ (failure = None ↔ rest = "")) ∧
    ((∀ k s, s ≠ "" → ∃ n, write k s = Some (S n)) → failure = None)) as H; [|intros k; by apply H].
  clear data. intros rounds. induction rounds as [|rounds IH]; intros k [|c s] Hl; cbn [write_all];
    [split; [by exists ""|done]|simpl in Hl; lia|split; [by exists ""|done]|].
  destruct (write k (String c s)) as [n|] eqn:Hw.
  2:{ split; [by exists (String c s)|]. intros Hk. destruct (Hk k (String c s)) as [n Hn]; [done|]. congruence. }
  destruct n as [|n]; cbn [Nat.eqb].
  { split; [by exists (String c s)|]. intros Hk. destruct (Hk k (String c s)) as [n Hn]; [done|]. congruence. }
  specialize (IH (S k) (str_drop (S n) (String c s))).
  destruct (write_all _ _ _ _) as [written failure].
  destruct IH as [(rest & Hrest & Hf) Hk]; [rewrite slen_drop; lia|].
  split; [|done]. exists rest. split; [|done].
  by rewrite app_assoc_str, <-Hrest, str_take_drop.
Qed.
