(* ===== verification/BusMessages.v ===== *)
(** * Messages of the desktop bus ([pkg/desktopbus/proxy.go])

    A decoded [dbus.Message] and what the proxy reads from one and builds: header
    fields, calls of the file chooser, object paths of requests, replies, errors
    and signals, [file:] addresses.  A [dbus.Variant] is the value it holds. *)
From Stdlib Require Import Ascii.
From stdpp Require Import base strings list gmap.
From S2P Require Import Prelude.
From S2P Require Import GoStrings.
From S2P Require Import Regex.
From S2P Require Import Utf8.
From S2P Require Import GoPath.
From S2P Require Import Hex.
From stdpp Require Import options.

(** ** Values and messages *)
Inductive value : Type :=
  | VString (s : string)
  | VPath (s : string)
  | VSignature (s : string)
  | VUint32 (n : N)
  | VBool (b : bool)
  | VBytes (s : string)
  | VStrings (l : list string)
  | VDict (d : list (string * value))
  | VOther (tag : nat).

Inductive message_type : Type :=
  | TypeMethodCall | TypeMethodReply | TypeError | TypeSignal | TypeOther (n : N).
#[export] Instance message_type_eq_dec : EqDecision message_type.
Proof. solve_decision. Defined.

Inductive field : Type :=
  | FieldPath | FieldInterface | FieldMember | FieldErrorName | FieldReplySerial
  | FieldDestination | FieldSender | FieldSignature.
#[export] Instance field_eq_dec : EqDecision field.
Proof. solve_decision. Defined.
#[export] Instance field_countable : Countable field.
Proof.
  refine (inj_countable'
    (λ f, match f with
      | FieldPath => 1 | FieldInterface => 2 | FieldMember => 3 | FieldErrorName => 4
      | FieldReplySerial => 5 | FieldDestination => 6 | FieldSender => 7 | FieldSignature => 8 end)
    (λ n, match n with
      | 1 => FieldPath | 2 => FieldInterface | 3 => FieldMember | 4 => FieldErrorName
      | 5 => FieldReplySerial | 6 => FieldDestination | 7 => FieldSender | _ => FieldSignature end) _).
  by intros [].
Defined.

Record message : Type := Message {
  Type_ : message_type; Serial : N; Headers : gmap field value; Body : list value }.

(** [headerValue[T]]: the zero value of [T] when the field is missing or holds
    something else. *)
Definition header_string (m : message) (f : field) : string :=
  match Headers m !! f with Some (VString s) => s | _ => "" end.
Definition header_path (m : message) : string :=
  match Headers m !! FieldPath with Some (VPath s) => s | _ => "" end.
Definition header_serial (m : message) : N :=
  match Headers m !! FieldReplySerial with Some (VUint32 n) => n | _ => 0%N end.

Definition interfaceName (m : message) : string := header_string m FieldInterface.
Definition member (m : message) : string := header_string m FieldMember.
Definition destination (m : message) : string := header_string m FieldDestination.
Definition sender (m : message) : string := header_string m FieldSender.

(** [body[0] == name] on [any] values, and [body[0].(string)]. *)
Definition first_is (name : string) (body : list value) : bool :=
  match body with VString s :: _ => bool_decide (s = name) | _ => false end.
Definition first_string (body : list value) : option string :=
  match body with VString s :: _ => Some s | _ => None end.

(** ** Options of a request ([map[string]dbus.Variant]) *)
Fixpoint lookup_option (key : string) (d : list (string * value)) : option value :=
  match d with
  | [] => None
  | (k, v) :: d => if bool_decide (k = key) then Some v else lookup_option key d
  end.

(** [variantValue[T]]. *)
Definition option_string (key : string) (d : list (string * value)) : string :=
  match lookup_option key d with Some (VString s) => s | _ => "" end.
Definition option_bool (key : string) (d : list (string * value)) : bool :=
  match lookup_option key d with Some (VBool b) => b | _ => false end.

(** ** Calls of the file chooser *)
Definition PickerOpenFile : string := "open-file".
Definition PickerOpenFolder : string := "open-folder".
Definition PickerSaveFile : string := "save-file".

Record FilePickerFilter : Type := mkFilter {
  fp_name : string; fp_patterns : list string; fp_mime_types : list string }.
Record FilePickerRequest : Type := mkRequest {
  fp_mode : string; fp_parent_window : string; fp_title : string; fp_accept_label : string;
  fp_suggested_name : string; fp_current_folder : string; fp_multiple : bool;
  fp_filters : list FilePickerFilter }.
Record FilePickerResult : Type := mkResult { fp_path : string; fp_paths : list string; fp_access : string }.

Record decodedFilterRule : Type := mkRule { rule_kind : N; rule_pattern : string }.
Record decodedFilter : Type := mkDecoded { filter_name : string; filter_rules : list decodedFilterRule }.

Inductive chooser_error : Type :=
  | WrongArity | InvalidParent | InvalidTitle | InvalidOptions | TooManyFilters.
Definition chooser_text (e : chooser_error) : string :=
  match e with
  | WrongArity => "file chooser expects parent, title and options"
  | InvalidParent => "file chooser parent is invalid"
  | InvalidTitle => "file chooser title is invalid"
  | InvalidOptions => "file chooser options are invalid"
  | TooManyFilters => "file chooser has too many filters"
  end.

Definition decodePortalPath (v : value) : string :=
  match v with
  | VBytes encoded =>
      if bool_decide (encoded = "") || negb (has_suffix nul encoded) then ""
      else
        let path := str_take (slen encoded - 1) encoded in
        if negb (is_abs path) || negb (bool_decide (clean path = path)) || has_byte "000" path
        then "" else path
  | _ => ""
  end.

(** The two lists the rules of a filter are sorted into. *)
Definition patterns_of (kind : N) (rules : list decodedFilterRule) : list string :=
  rule_pattern <$> filter (λ r, rule_kind r = kind) rules.
Definition decode_filter (f : decodedFilter) : FilePickerFilter :=
  mkFilter (filter_name f) (patterns_of 0 (filter_rules f)) (patterns_of 1 (filter_rules f)).
Definition filter_used (f : FilePickerFilter) : bool :=
  0 <? length (fp_patterns f) + length (fp_mime_types f).

Section Chooser.
(** [dbus.Store] of a value into a list of filters. *)
Context (Store : value → option (list decodedFilter)).

Definition decodeFilters (v : value) : list FilePickerFilter :=
  match Store v with
  | None => []
  | Some decoded => List.filter filter_used (decode_filter <$> decoded)
  end.

Definition decodeFileChooserCall (member : string) (body : list value) :
    result chooser_error FilePickerRequest :=
  match body with
  | [parent; title; options] =>
      match parent with
      | VString parent =>
          match title with
          | VString title =>
              match options with
              | VDict options =>
                  let directory := option_bool "directory" options in
                  let request := mkRequest
                    (if directory then PickerOpenFolder
                     else if bool_decide (member = "SaveFile") then PickerSaveFile else PickerOpenFile)
                    parent title
                    (option_string "accept_label" options)
                    (option_string "current_name" options)
                    (match lookup_option "current_folder" options with
                     | Some v => decodePortalPath v | None => "" end)
                    (if directory then false else option_bool "multiple" options)
                    (match lookup_option "filters" options with
                     | Some v => decodeFilters v | None => [] end) in
                  refuse_if (32 <? length (fp_filters request)) TooManyFilters ;;;
                  Ok request
              | _ => Err InvalidOptions
              end
          | _ => Err InvalidTitle
          end
      | _ => Err InvalidParent
      end
  | _ => Err WrongArity
  end.
End Chooser.

(** ** Object paths of requests *)
Definition requestPathPrefix : string := "/org/freedesktop/portal/desktop/request/cpak/".
Definition maxPortalSelections : nat := 128.

Definition handle_char (c : N) : bool :=
  bool_decide (c = 95%N) || within 97 122 c || within 65 90 c || within 48 57 c.
Definition validHandlePart (value : string) : bool :=
  if bool_decide (value = "") || (128 <? slen value) then false
  else forallb (λ x, handle_char x.1) (runes value).

(** [strings.NewReplacer(":", "", ".", "_").Replace]. *)
Fixpoint replace_name (s : string) : string :=
  match s with
  | "" => ""
  | String c s =>
      if bool_decide (c = ":"%char) then replace_name s
      else if bool_decide (c = "."%char) then String "_" (replace_name s)
      else String c (replace_name s)
  end.

(** [%x] of an unsigned integer: a [uint32] has at most eight digits. *)
Fixpoint hex_digits (fuel : nat) (n : N) (acc : string) : string :=
  match fuel with
  | 0 => acc
  | S fuel =>
      let acc := String (hex_digit (n mod 16)) acc in
      if (n / 16 =? 0)%N then acc else hex_digits fuel (n / 16) acc
  end.
Definition hex_number (n : N) : string := hex_digits 16 n "".

Definition handle_token (m : message) : string :=
  match Body m with
  | [_; _; VDict options] => option_string "handle_token" options
  | _ => ""
  end.

(** [requestPath], for the unique name of the client. *)
Definition request_path (name : string) (m : message) : string :=
  let token := handle_token m in
  let fallback := requestPathPrefix +:+ hex_number (Serial m) in
  if validHandlePart token && has_prefix ":" name then
    let sender := replace_name name in
    if validHandlePart sender
    then "/org/freedesktop/portal/desktop/request/" +:+ sender +:+ "/" +:+ token
    else fallback
  else fallback.

(** ** [file:] addresses *)

(** [url.URL.String] of a [file] address without a host. *)
Definition unescaped (c : ascii) : bool :=
  let n := byte c in
  within 97 122 n || within 65 90 n || within 48 57 n ||
  existsb (λ d, bool_decide (c = d)) ["-"; "_"; "."; "~"; "$"; "&"; "+"; ","; "/"; ":"; ";"; "="; "@"]%char.
Definition upper_digit (n : N) : ascii := ascii_of_N (if (n <? 10)%N then 48 + n else 55 + n).
Fixpoint escape_path (s : string) : string :=
  match s with
  | "" => ""
  | String c s =>
      if unescaped c then String c (escape_path s)
      else String "%" (String (upper_digit (byte c / 16)) (String (upper_digit (byte c mod 16)) (escape_path s)))
  end.
Definition file_uri (path : string) : string :=
  if bool_decide (path = "") then "file:"
  else "file://" +:+ (if bool_decide (path = "*") then "*" else escape_path path).

Definition unhex (c : ascii) : option N :=
  let n := byte c in
  if within 48 57 n then Some (n - 48)%N
  else if within 97 102 n then Some (n - 87)%N
  else if within 65 70 n then Some (n - 55)%N
  else None.

(** [url.PathUnescape]. *)
Fixpoint PathUnescape (s : string) : option string :=
  match s with
  | "" => Some ""
  | String c t =>
      if bool_decide (c = "%"%char) then
        match t with
        | String a (String b t) =>
            x ← unhex a; y ← unhex b; rest ← PathUnescape t;
            Some (String (ascii_of_N (16 * x + y)) rest)
        | _ => None
        end
      else rest ← PathUnescape t; Some (String c rest)
  end.

(** ** Messages the proxy makes *)
Definition requestInterface : string := "org.freedesktop.portal.Request".

Section Make.
Context (SignatureOf : list value → string).

Definition methodReply (call : message) (body : list value) : message :=
  let headers := {[ FieldReplySerial := VUint32 (Serial call) ]} in
  Message TypeMethodReply 0
    (match body with [] => headers | _ => <[ FieldSignature := VSignature (SignatureOf body) ]> headers end)
    body.

Definition methodError (call : message) (name detail : string) : message :=
  Message TypeError 0
    (<[ FieldErrorName := VString name ]>
     (<[ FieldSignature := VSignature (SignatureOf [VString detail]) ]>
      {[ FieldReplySerial := VUint32 (Serial call) ]}))
    [VString detail].

Definition responseSignal (path sender destination : string) (response : N)
    (values : list (string * value)) : message :=
  let body := [VUint32 response; VDict values] in
  Message TypeSignal 0
    (<[ FieldPath := VPath path ]> (<[ FieldInterface := VString requestInterface ]>
     (<[ FieldMember := VString "Response" ]> (<[ FieldSender := VString sender ]>
      (<[ FieldDestination := VString destination ]>
       {[ FieldSignature := VSignature (SignatureOf body) ]})))))
    body.

(** The signal [pick] sends when the picker is done: its result, or the text of
    its error and whether the request was cancelled. *)

Definition selected (r : FilePickerResult) : list string :=
  if bool_decide (fp_paths r = []) && negb (bool_decide (fp_path r = "")) then [fp_path r] else fp_paths r.

Definition pick_outcome (outcome : FilePickerResult + string * bool) : N * list (string * value) :=
  match outcome with
  | inr (text, cancelled) => (if cancelled || contains "cancel" (lower text) then 1%N else 2%N, [])
  | inl result =>
      let paths := selected result in
      let refused := bool_decide (paths = []) || (maxPortalSelections <? length paths) in
      let paths := if refused then [] else paths in
      (if refused then 2%N else 0%N,
       [("uris", VStrings (file_uri <$> paths));
        ("writable", VBool (bool_decide (fp_access result = "read-write")))])
  end.

Definition pick_signal (portalSender handle destination : string)
    (outcome : FilePickerResult + string * bool) : message :=
  let '(response, values) := pick_outcome outcome in
  responseSignal handle portalSender destination response values.
End Make.

(** ** Handles *)

Definition handle_byte (c : ascii) : bool := handle_char (byte c).

Lemma handle_byte_ascii c : handle_byte c = true → ascii_byte c = true.
Proof. revert c. by_bytes. Qed.

(** A test that holds of ASCII runes only is a test on bytes. *)
Lemma all_runes_bytes f s :
  (∀ r, f r = true → r < 0x80)%N →
  forallb (λ x, f x.1) (runes s) = str_forall (λ c, f (byte c)) s.
Proof.
  intros Hf.
  apply (runes_ind (λ s l, forallb (λ x, f x.1) l = str_forall (λ c, f (byte c)) s)); [done|].
  intros [|a t] r w Hne Hd _ IH; [done|]. cbn [forallb fst]. rewrite IH.
  destruct (ascii_byte a) eqn:Ha.
  - rewrite decode_low in Hd by done. by injection Hd as <- <-.
  - apply decode_high in Hd as [Hr _]; [|done].
    assert (∀ n, (0x80 <= n)%N → f n = false) as Hhigh.
    { intros n Hn. apply not_true_iff_false. intros ?%Hf. lia. }
    cbn [str_forall]. unfold ascii_byte in Ha. bools_in Ha.
    by rewrite (Hhigh r Hr), (Hhigh (byte a) Ha).
Qed.

Lemma validHandlePart_iff s :
  validHandlePart s = true ↔ s ≠ "" ∧ slen s ≤ 128 ∧ str_forall handle_byte s = true.
Proof.
  unfold validHandlePart. rewrite all_runes_bytes.
  2:{ intros r. unfold handle_char, within. bools. lia. }
  destruct (bool_decide (s = "")) eqn:He, (128 <? slen s) eqn:Hl; bools_in He; bools_in Hl; cbn [orb];
    unfold handle_byte; split; intros; destruct_and?; split_and?; try done; try lia.
Qed.

Lemma handle_part_char c s : validHandlePart s = true → handle_byte c = false → has_byte c s = false.
Proof.
  intros (_ & _ & Hs)%validHandlePart_iff Hc. apply not_true_iff_false. intros Hb.
  induction s as [|a s IH]; [done|]. rewrite has_byte_cons in Hb. cbn in Hs. bools_in Hs. bools_in Hb.
  destruct Hs, Hb as [->|Hb]; [congruence|auto].
Qed.

Lemma hex_digits_spec fuel n acc :
  (n < 16 ^ N.of_nat fuel)%N → 0 < fuel →
  ∃ s, hex_digits fuel n acc = s +:+ acc ∧ s ≠ "" ∧ slen s ≤ fuel ∧ str_forall handle_byte s = true ∧
    foldl (λ v c, 16 * v + hex_value c)%N 0%N (String.list_ascii_of_string s) = n.
Proof.
  revert n acc. induction fuel as [|fuel IH]; intros n acc Hn Hf; [lia|]. cbn [hex_digits].
  assert (n mod 16 < 16)%N as Hm by (by apply N.mod_lt).
  assert (handle_byte (hex_digit (n mod 16)) = true) as Hd.
  { revert Hm. apply (nibbles (λ n, handle_byte (hex_digit n) = true)). repeat constructor. }
  case_if; bools_all.
  - exists (String (hex_digit (n mod 16)) ""). split_and!; [done|done|cbn; lia|by cbn; rewrite Hd|].
    cbn. rewrite hex_value_digit by done. pose proof (N.div_mod n 16 ltac:(done)). lia.
  - destruct fuel as [|fuel].
    { simpl in Hn. rewrite N.div_small in * by lia. done. }
    destruct (IH (n / 16)%N (String (hex_digit (n mod 16)) acc)) as (s & -> & Hne & Hl & Hs & Hv); [|lia|].
    { apply N.Div0.div_lt_upper_bound. rewrite Nat2N.inj_succ, N.pow_succ_r' in Hn. lia. }
    exists (s +:+ String (hex_digit (n mod 16)) ""). split_and!.
    + by rewrite app_assoc_str.
    + by destruct s.
    + rewrite slen_app, slen_cons. change (slen "") with 0. lia.
    + rewrite str_forall_app, Hs. cbn. by rewrite Hd.
    + assert (∀ a b, String.list_ascii_of_string (a +:+ b) =
        String.list_ascii_of_string a ++ String.list_ascii_of_string b) as Happ.
      { intros a b. induction a; cbn; congruence. }
      rewrite Happ, foldl_app, Hv. cbn. rewrite hex_value_digit by done.
      pose proof (N.div_mod n 16 ltac:(done)). lia.
Qed.

Lemma hex_number_part n : (n < 2 ^ 32)%N → validHandlePart (hex_number n) = true.
Proof.
  intros Hn. unfold hex_number. destruct (hex_digits_spec 16 n "") as (s & -> & Hne & Hl & Hs & _); [|lia|].
  { by eapply N.lt_trans. }
  rewrite app_nil_str. apply validHandlePart_iff. split_and!; [done|lia|done].
Qed.

Lemma hex_number_inj m n :
  (m < 2 ^ 32)%N → (n < 2 ^ 32)%N → hex_number m = hex_number n → m = n.
Proof.
  intros Hm Hn. unfold hex_number.
  destruct (hex_digits_spec 16 m "") as (s & -> & _ & _ & _ & <-); [|lia|].
  { by eapply N.lt_trans. }
  destruct (hex_digits_spec 16 n "") as (t & -> & _ & _ & _ & <-); [|lia|].
  { by eapply N.lt_trans. }
  rewrite !app_nil_str. by intros ->.
Qed.

(** ** Properties *)

Definition request_base : string := "/org/freedesktop/portal/desktop/request/".

Lemma request_path_cases name m :
  (request_path name m = request_base +:+ "cpak" +:+ "/" +:+ hex_number (Serial m)) ∨
  (request_path name m = request_base +:+ replace_name name +:+ "/" +:+ handle_token m ∧
     validHandlePart (replace_name name) = true ∧ validHandlePart (handle_token m) = true).
Proof. unfold request_path. repeat case_if; bools_all; destruct_and?; auto. Qed.

Lemma app_sep_inj c a b x y :
  has_byte c a = false → has_byte c b = false → a +:+ String c x = b +:+ String c y → a = b ∧ x = y.
Proof.
  revert b. induction a as [|d a IH]; intros [|e b] Ha Hb; rewrite ?has_byte_cons in *; cbn;
    bools_in Ha; bools_in Hb; [by intros [= ->]|by intros [= -> _]; destruct Hb|by intros [= -> _]; destruct Ha|].
  intros [= -> [-> ->]%IH]; [done|naive_solver..].
Qed.

Lemma replace_name_dot name : has_byte "." name = true → has_byte "_" (replace_name name) = true.
Proof.
  induction name as [|c name IH]; [done|]. rewrite has_byte_cons. cbn [replace_name].
  repeat case_bool_decide; subst; cbn [orb]; rewrite ?has_byte_cons; intros Hd; bools; naive_solver.
Qed.

(** Every file chooser call gets the object path of a request of its own:
    two words of letters, digits and [_] below the portal's request path, so no
    client-chosen token can climb out of it; and two calls of one connection
    share a path only if they carry the same serial or the same token. *)
Theorem request_paths name m :
  (Serial m < 2 ^ 32)%N →
  (∃ sender token, request_path name m = request_base +:+ sender +:+ "/" +:+ token ∧
     validHandlePart sender = true ∧ validHandlePart token = true) ∧
  (∀ m', (Serial m' < 2 ^ 32)%N → has_byte "." name = true →
     request_path name m = request_path name m' →
     Serial m = Serial m' ∨ handle_token m = handle_token m').
Proof.
  intros Hm. split.
  - destruct (request_path_cases name m) as [->|(-> & ? & ?)]; [|eauto].
    exists "cpak", (hex_number (Serial m)). split_and!; [done|done|by apply hex_number_part].
  - intros m' Hm' Hdot%replace_name_dot.
    assert (∀ t, validHandlePart (replace_name name) = true →
      "cpak" +:+ "/" +:+ t ≠ replace_name name +:+ "/" +:+ handle_token m ∧
      "cpak" +:+ "/" +:+ t ≠ replace_name name +:+ "/" +:+ handle_token m') as Hne.
    { intros t Hv. assert (has_byte slash (replace_name name) = false) as Hs by by apply (handle_part_char slash).
      split; intros E; apply app_sep_inj in E as [E _]; try done; by rewrite <-E in Hdot. }
    destruct (request_path_cases name m) as [->|(-> & Hs & _)], (request_path_cases name m') as [->|(-> & Hs' & _)];
      intros E%app_inv_head_str; [|by apply (Hne _ Hs') in E|by symmetry in E; apply (Hne _ Hs) in E|].
    + left. do 2 apply app_inv_head_str in E. by apply hex_number_inj.
    + right. by do 2 apply app_inv_head_str in E.
Qed.

Lemma request_paths_witness :
  let m := Message TypeMethodCall 7 ∅ [VString ""; VString ""; VDict [("handle_token", VString "t1")]] in
  (Serial m < 2 ^ 32)%N ∧ request_path ":1.42" m = request_base +:+ "1_42/t1" ∧
  ∃ sender token, request_path ":1.42" m = request_base +:+ sender +:+ "/" +:+ token ∧
     validHandlePart sender = true ∧ validHandlePart token = true.
Proof.
  intros m. split; [by vm_compute|]. split; [vm_compute; reflexivity|].
  exact (proj1 (request_paths ":1.42" m ltac:(by vm_compute))).
Defined.

(** A call that reuses the token of a pending one gets its object path. *)
Lemma reused_token name m m' :
  validHandlePart (handle_token m) = true → handle_token m = handle_token m' →
  has_prefix ":" name = true → validHandlePart (replace_name name) = true →
  request_path name m = request_path name m'.
Proof. intros Ht E Hn Hv. unfold request_path. by rewrite <-E, Ht, Hn, Hv. Qed.

(** ** Addresses *)

Lemma unhex_upper n : (n < 16)%N → unhex (upper_digit n) = Some n.
Proof. apply (nibbles (λ n, unhex (upper_digit n) = Some n)). repeat constructor. Qed.

Definition uri_byte (c : ascii) : bool := unescaped c || bool_decide (c = "%"%char).

Lemma upper_digit_uri n : (n < 16)%N → uri_byte (upper_digit n) = true.
Proof. apply (nibbles (λ n, uri_byte (upper_digit n) = true)). repeat constructor. Qed.

Lemma unescaped_percent c : unescaped c = true → c ≠ "%"%char.
Proof. by intros Hc ->. Qed.

Lemma escape_round_trip s :
  PathUnescape (escape_path s) = Some s ∧ str_forall uri_byte (escape_path s) = true.
Proof.
  induction s as [|c s [IH1 IH2]]; [done|]. cbn [escape_path]. case_if.
  - cbn [PathUnescape str_forall]. rewrite bool_decide_eq_false_2 by by apply unescaped_percent.
    rewrite IH1, IH2. split; [done|]. unfold uri_byte. by rewrite Heqb.
  - cbn [PathUnescape str_forall]. rewrite bool_decide_eq_true_2 by done.
    rewrite !unhex_upper, !upper_digit_uri, IH1, IH2 by done. split; [|done]. cbn.
    rewrite <-N.div_mod by done. unfold byte. by rewrite ascii_N_embedding.
Qed.

(** The portal answers with exactly the files that were picked: the answer is a success when
    the picker returned between one and 128 paths, and then lists one [file:]
    address per path, in order, of bytes that mean nothing else in an address
    and that decode to the path; a failed, cancelled or oversized pick never
    carries an address. *)
Theorem pick_outcome_sound outcome :
  let '(response, values) := pick_outcome outcome in
  (response = 0%N ∨ response = 1%N ∨ response = 2%N) ∧
  (response = 0%N ↔ ∃ result, outcome = inl result ∧
     1 ≤ length (selected result) ≤ maxPortalSelections) ∧
  (∀ uris, lookup_option "uris" values = Some (VStrings uris) →
     (response ≠ 0%N → uris = []) ∧
     (response = 0%N → ∃ result, outcome = inl result ∧
        Forall2 (λ uri path, is_abs path = true → ∃ rest, uri = "file://" +:+ rest ∧
          str_forall uri_byte rest = true ∧ PathUnescape rest = Some path) uris (selected result))).
Proof.
  destruct outcome as [result|[text cancelled]]; cbn [pick_outcome].
  2:{ destruct (cancelled || _); split_and!; try auto; naive_solver. }
  set (refused := _ || _). destruct refused eqn:Hr; split_and!; [auto|..|auto| |].
  - split; [done|]. intros (r & [= <-] & H1 & H2). apply orb_true_iff in Hr as [Hr|Hr]; bools_in Hr; [rewrite Hr in H1; simpl in H1; lia|lia].
  - intros uris [= <-]. split; [done|]. done.
  - split; [intros _|done]. apply orb_false_iff in Hr as [Hr1 Hr2]. bools_in Hr1. bools_in Hr2.
    exists result. split; [done|]. destruct (selected result); [done|]. simpl in *. lia.
  - intros uris [= <-]. split; [done|]. intros _. exists result. split; [done|].
    apply Forall2_fmap_l, Forall2_same_length_lookup_2; [done|].
    intros i x y Hx Hy Habs. simplify_eq. unfold file_uri.
    rewrite !bool_decide_eq_false_2 by (intros ->; discriminate Habs).
    eexists. split; [done|]. split; apply escape_round_trip.
Qed.

(** ** The request to the picker *)

Lemma decodePortalPath_spec v :
  decodePortalPath v = "" ∨
  ∃ path, decodePortalPath v = path ∧ v = VBytes (path +:+ nul) ∧
    is_abs path = true ∧ clean path = path ∧ has_byte "000" path = false.
Proof.
  destruct v as [| | | | |encoded| | |]; try by left. cbn [decodePortalPath].
  case_if; [by left|]. case_if; [by left|]. bools_all. destruct_and?. right. eexists. split; [done|].
  match goal with H : has_suffix nul _ = true |- _ => apply has_suffix_iff in H as (t & ->) end.
  assert (str_take (slen (t +:+ nul) - 1) (t +:+ nul) = t) as Ht.
  { rewrite slen_app. change (slen nul) with 1. rewrite Nat.add_sub. apply str_take_app. }
  rewrite Ht in *. split_and!; congruence.
Qed.

(** A file chooser call that is accepted has a parent, a title and options,
    and asks the picker for what they say: the folder to start in is empty or a
    clean absolute path without a null byte, [directory] turns the request into
    one for a single folder, and at most 32 filters are kept, none of them
    empty.  Every other body is refused. *)
Theorem file_chooser_request Store member body :
  match decodeFileChooserCall Store member body with
  | Ok r =>
      ∃ parent title options, body = [VString parent; VString title; VDict options] ∧
      fp_parent_window r = parent ∧ fp_title r = title ∧
      (fp_current_folder r = "" ∨ is_abs (fp_current_folder r) = true ∧
         clean (fp_current_folder r) = fp_current_folder r ∧ has_byte "000" (fp_current_folder r) = false) ∧
      (if option_bool "directory" options then fp_mode r = PickerOpenFolder ∧ fp_multiple r = false
       else fp_multiple r = option_bool "multiple" options ∧
         fp_mode r = if bool_decide (member = "SaveFile") then PickerSaveFile else PickerOpenFile) ∧
      length (fp_filters r) ≤ 32 ∧ ∀ f, f ∈ fp_filters r → filter_used f = true
  | Err e =>
      e = TooManyFilters ∨
      ¬ ∃ parent title options, body = [VString parent; VString title; VDict options]
  end.
Proof.
  unfold decodeFileChooserCall.
  destruct body as [|parent [|title [|options [|]]]]; [right; naive_solver..| |right; naive_solver].
  destruct parent as [parent| | | | | | | |]; try (right; naive_solver).
  destruct title as [title| | | | | | | |]; try (right; naive_solver).
  destruct options as [| | | | | | |options|]; try (right; naive_solver). cbv zeta.
  match goal with |- context [refuse_if ?b _] => destruct b eqn:Hf end; cbn [refuse_if mbind result_bind]; [by left|].
  bools_in Hf. exists parent, title, options. cbn [fp_parent_window fp_title fp_current_folder fp_mode fp_multiple fp_filters] in *.
  split_and!; [done..| | |done|].
  - destruct (lookup_option "current_folder" options) as [v|]; [|by left].
    destruct (decodePortalPath_spec v) as [->|(path & -> & _ & ?)]; auto.
  - by destruct (option_bool "directory" options).
  - intros f. destruct (lookup_option "filters" _) as [v|]; [|by intros ?%elem_of_nil].
    unfold decodeFilters. destruct (Store v); [|by intros ?%elem_of_nil].
    intros Hin. apply list_elem_of_In, filter_In in Hin. tauto.
Qed.
