(* ===== verification/BusProxy.v ===== *)
(** * The desktop bus proxy ([pkg/desktopbus/proxy.go])

    What the proxy does with every message a client or the bus sends: the
    decisions on calls, replies and signals, the state of a connection and the
    state the connections share.  A handler returns the new state, the message
    it forwards and the effects on the client; [step] runs one handler, and a
    run is a sequence of steps of any number of connections in any order.  The
    locks of the source make the reads and writes of a handler atomic. *)
From Stdlib Require Import Ascii.
From stdpp Require Import base strings list gmap.
From S2P Require Import Prelude.
From S2P Require Import GoStrings.
From S2P Require Import GoPath.
From S2P Require Import DBusPolicy.
From S2P Require Import BusMessages.
From stdpp Require Import options.

Definition portalDestination_name : string := "org.freedesktop.portal.Desktop".
Definition bluezDestination : string := "org.bluez".
Definition fileChooserInterface : string := "org.freedesktop.portal.FileChooser".
Definition portalObjectPath : string := "/org/freedesktop/portal/desktop".
Definition bus_name : string := "org.freedesktop.DBus".
Definition bus_path : string := "/org/freedesktop/DBus".

Definition same (a b : string) : bool := bool_decide (a = b).

(** ** Configuration *)

(** [PickFile] says whether the hook is set. *)
Record Options : Type := mkOptions {
  SocketPath : string; UpstreamAddress : string; BrokerSocketPath : string; BrokerToken : string;
  FilePicker : bool; Bluetooth : bool; Policy : DBusPolicy; PickFile : bool }.

Inductive options_error : Type :=
  | MissingAddress | InvalidPolicy (e : dbus_error) | MixedBluetooth | InvalidBroker.

Definition validateOptions (o : Options) : result options_error unit :=
  refuse_if (negb (is_abs (SocketPath o)) || same (UpstreamAddress o) "") MissingAddress ;;;
  wrap InvalidPolicy (ValidateDBusPolicy (Policy o)) ;;;
  refuse_if (Bluetooth o && (FilePicker o || Enabled (Policy o))) MixedBluetooth ;;;
  refuse_if (FilePicker o && negb (PickFile o) &&
    (negb (is_abs (BrokerSocketPath o)) || (slen (BrokerToken o) <? 32))) InvalidBroker.

(** ** [dialUpstream]: the first Unix address that answers *)
Inductive dial_error : Type := UndecodableAddress | CannotConnect | UnsupportedAddress.

(** [strings.SplitN(s, "=", 2)] when it has two parts. *)
Fixpoint split_pair (s : string) : option (string * string) :=
  match s with
  | "" => None
  | String c s =>
      if bool_decide (c = "="%char) then Some ("", s)
      else '(k, v) ← split_pair s; Some (String c k, v)
  end.

Section Dial.
Context (dial : string → bool).

(** The loop over the parameters of a candidate: it returns, or goes on knowing
    whether an address refused the connection. *)
Fixpoint dial_parameters (failed : bool) (parameters : list string) : result dial_error string + bool :=
  match parameters with
  | [] => inr failed
  | parameter :: parameters =>
      match split_pair parameter with
      | Some (key, v) =>
          if same key "path" || same key "abstract" then
            match PathUnescape v with
            | None => inl (Err UndecodableAddress)
            | Some name =>
                let name := if same key "abstract" then "@" +:+ name else name in
                if dial name then inl (Ok name) else dial_parameters true parameters
            end
          else dial_parameters failed parameters
      | None => dial_parameters failed parameters
      end
  end.

Fixpoint dial_candidates (failed : bool) (candidates : list string) : result dial_error string :=
  match candidates with
  | [] => Err (if failed then CannotConnect else UnsupportedAddress)
  | candidate :: candidates =>
      if has_prefix "unix:" candidate then
        match dial_parameters failed (split_byte "," (trim_prefix "unix:" candidate)) with
        | inl r => r
        | inr failed => dial_candidates failed candidates
        end
      else dial_candidates failed candidates
  end.
Definition dialUpstream (address : string) : result dial_error string :=
  dial_candidates false (split_byte ";" address).
End Dial.

(** ** State *)
Record shared : Type := mkShared {
  bluezSender : string;
  requests : gmap string nat  (* the cancel function of a request, by its handle *)
}.
Record connectionState : Type := mkConnection {
  uniqueName : string; helloSerial : N; bluetoothReplies : gmap N string }.
Definition new_connection : connectionState := mkConnection "" 0 ∅.

(** What a handler does besides forwarding. *)
Inductive effect : Type :=
  | Answer (m : message)
  | CancelContext (id : nat)
  | StartPick (id : nat) (handle client : string) (request : FilePickerRequest).

(** ** Requests *)
Definition storeRequest (path : string) (cancel : nat) (p : shared) : shared :=
  mkShared (bluezSender p) (<[path := cancel]> (requests p)).
Definition hasRequest (path : string) (p : shared) : bool := bool_decide (is_Some (requests p !! path)).
Definition finishRequest (path : string) (p : shared) : shared :=
  mkShared (bluezSender p) (delete path (requests p)).
Definition cancelRequest (path : string) (p : shared) : shared * list effect :=
  (finishRequest path p,
   match requests p !! path with Some id => [CancelContext id] | None => [] end).

(** ** Observed messages *)
Definition observeClient (m : message) (s : connectionState) : connectionState :=
  if bool_decide (Type_ m = TypeMethodCall) && same (destination m) bus_name &&
     same (interfaceName m) bus_name && same (member m) "Hello"
  then mkConnection (uniqueName s) (Serial m) (bluetoothReplies s) else s.

Definition observeUpstream (m : message) (s : connectionState) : connectionState :=
  if negb (bool_decide (Type_ m = TypeMethodReply)) then s
  else match Body m with
  | [VString name] =>
      if (header_serial m =? helloSerial s)%N && has_prefix ":" name
      then mkConnection name (helloSerial s) (bluetoothReplies s) else s
  | _ => s
  end.

Definition allowBluetoothReply (serial : N) (sender : string) (s : connectionState) : connectionState :=
  mkConnection (uniqueName s) (helloSerial s) (<[serial := sender]> (bluetoothReplies s)).

Definition takeBluetoothReply (serial : N) (destination : string) (s : connectionState) :
    bool * connectionState :=
  let expected := default "" (bluetoothReplies s !! serial) in
  (negb (same expected "") && same destination expected,
   mkConnection (uniqueName s) (helloSerial s) (delete serial (bluetoothReplies s))).

(** ** Decisions on calls *)
Definition to_bus (destination path interfaceName : string) : bool :=
  same destination bus_name && same path bus_path && same interfaceName bus_name.

Definition bluetoothBusCallAllowed (destination path interfaceName member : string)
    (body : list value) (bluezSender : string) : bool :=
  if same destination bluezDestination || (negb (same bluezSender "") && same destination bluezSender)
  then true
  else if negb (to_bus destination path interfaceName) then false
  else if same member "Hello" || same member "GetId" || same member "AddMatch" || same member "RemoveMatch"
  then true
  else if same member "GetNameOwner" || same member "NameHasOwner"
  then (length body =? 1) && first_is bluezDestination body
  else if same member "StartServiceByName"
  then (length body =? 2) && first_is bluezDestination body
  else false.

Definition restrictedBusMatchCall (destination path interfaceName member : string) : bool :=
  to_bus destination path interfaceName && (same member "AddMatch" || same member "RemoveMatch").

(** The calls on the portal that need no permission. *)
Definition portal_call (interfaceName member : string) : bool :=
  if same interfaceName "org.freedesktop.DBus.Properties" then same member "Get" || same member "GetAll"
  else if same interfaceName "org.freedesktop.DBus.Introspectable" then same member "Introspect"
  else if same interfaceName "org.freedesktop.DBus.Peer" then same member "Ping" || same member "GetMachineId"
  else false.

Definition restrictedBusCallAllowed (destination portalSender path interfaceName member : string)
    (body : list value) : bool :=
  let portal :=
    if (negb (same destination portalDestination_name) && negb (same destination portalSender))
       || negb (same path portalObjectPath)
    then false else portal_call interfaceName member in
  if to_bus destination path interfaceName then
    if same member "Hello" || same member "GetId" then true
    else if same member "GetNameOwner" || same member "NameHasOwner"
    then (length body =? 1) && first_is portalDestination_name body
    else portal
  else portal.

Definition policyBusCallAllowed (policy : DBusPolicy) (destination path interfaceName member : string)
    (body : list value) : bool :=
  let own := match first_string body with Some name => AllowsOwn policy name | None => false end in
  if to_bus destination path interfaceName && same member "RequestName" && (length body =? 2) then own
  else if to_bus destination path interfaceName &&
    (same member "ReleaseName" || same member "GetNameOwner" || same member "NameHasOwner") &&
    (length body =? 1) then own
  else AllowsCall policy destination path interfaceName member.

(** ** Decisions on what the bus sends *)
Definition is_reply (m : message) : bool :=
  bool_decide (Type_ m = TypeMethodReply) || bool_decide (Type_ m = TypeError).

Definition restrictedUpstreamMessage (m : message) (policy : DBusPolicy) : bool :=
  if is_reply m then true
  else if negb (bool_decide (Type_ m = TypeSignal)) then false
  else if negb (same (interfaceName m) bus_name) ||
    (negb (same (member m) "NameAcquired") && negb (same (member m) "NameLost")) ||
    negb (length (Body m) =? 1) then false
  else match first_string (Body m) with
  | Some name => has_prefix ":" name || AllowsOwn policy name
  | None => false
  end.

(** [isBluezSender]: [resolved] is the owner the bus names when it is asked. *)
Definition isBluezSender (sender : string) (resolved : option string) (p : shared) : bool * shared :=
  if negb (same (bluezSender p) "") && same sender (bluezSender p) then (true, p)
  else if negb (has_prefix ":" sender) then (false, p)
  else match resolved with
  | Some owner =>
      if has_prefix ":" owner && same sender owner then (true, mkShared owner (requests p)) else (false, p)
  | None => (false, p)
  end.

(** The messages of the bus itself a Bluetooth client sees. *)
Definition bus_signal (m : message) : bool :=
  if negb (bool_decide (Type_ m = TypeSignal)) || negb (same (sender m) bus_name) then false
  else if negb (same (interfaceName m) bus_name) then false
  else if same (member m) "NameAcquired" || same (member m) "NameLost" then true
  else same (member m) "NameOwnerChanged" && (length (Body m) =? 3) && first_is bluezDestination (Body m).

Definition upstreamMessageAllowed (o : Options) (m : message) (resolved : option string)
    (p : shared) (s : connectionState) : bool * shared * connectionState :=
  if negb (Bluetooth o) then (restrictedUpstreamMessage m (Policy o), p, s)
  else if is_reply m then
    if same (sender m) bus_name then (true, p, s)
    else let '(known, p) := isBluezSender (sender m) resolved p in (known, p, s)
  else
    let '(known, p) := isBluezSender (sender m) resolved p in
    if negb known then (bus_signal m, p, s)
    else if bool_decide (Type_ m = TypeSignal) then (true, p, s)
    else if negb (bool_decide (Type_ m = TypeMethodCall)) then (false, p, s)
    else if negb (same (destination m) (uniqueName s)) then (false, p, s)
    else (true, p, allowBluetoothReply (Serial m) (sender m) s).

(** [watchBluezOwner]: one signal. *)
Definition watchBluezOwner (body : list value) (p : shared) : shared :=
  match body with
  | [VString name; _; VString owner] =>
      if same name bluezDestination then mkShared owner (requests p) else p
  | _ => p
  end.

(** ** Calls of the client *)
Definition denied (name : string) : string := name +:+ " bus access is not permitted".

Section Intercept.
Context (SignatureOf : list value → string) (Store : value → option (list decodedFilter)).
Context (o : Options) (portalSender : string).

Definition portalDestination (destination : string) : bool :=
  same destination portalDestination_name || same destination portalSender.

(** A handler's result: what it forwards, the states, and its effects. *)
Definition handled : Type := option message * shared * connectionState * list effect.

Definition interceptBluetooth (m : message) (p : shared) (s : connectionState) : handled :=
  if is_reply m then
    let '(taken, s) := takeBluetoothReply (header_serial m) (destination m) s in
    (if taken then Some m else None, p, s, [])
  else if bool_decide (Type_ m = TypeSignal) then
    if negb (same (interfaceName m) "org.freedesktop.DBus.Properties") &&
       negb (same (interfaceName m) "org.freedesktop.DBus.ObjectManager") &&
       negb (has_prefix "org.bluez." (interfaceName m)) then (None, p, s, [])
    else if same (bluezSender p) "" then (None, p, s, [])
    else (Some (Message (Type_ m) (Serial m)
            (<[FieldDestination := VString (bluezSender p)]> (Headers m)) (Body m)), p, s, [])
  else if negb (bool_decide (Type_ m = TypeMethodCall)) then (None, p, s, [])
  else if bluetoothBusCallAllowed (destination m) (header_path m) (interfaceName m) (member m) (Body m)
    (bluezSender p) then (Some m, p, s, [])
  else (None, p, s, [Answer (methodError SignatureOf m "org.freedesktop.DBus.Error.AccessDenied"
    (denied "Bluetooth"))]).

(** A call of the file chooser: [fresh] names its cancel function, and [written]
    says whether the handle could be sent to the client. *)
Definition intercept_picker (m : message) (fresh : nat) (written : bool) (p : shared) (s : connectionState) :
    handled :=
  match decodeFileChooserCall Store (member m) (Body m) with
  | Err e => (None, p, s, [Answer (methodError SignatureOf m "org.freedesktop.DBus.Error.InvalidArgs" (chooser_text e))])
  | Ok request =>
      let handle := request_path (uniqueName s) m in
      let p := storeRequest handle fresh p in
      let answer := Answer (methodReply SignatureOf m [VPath handle]) in
      if negb written then
        let '(p, cancelled) := cancelRequest handle p in (None, p, s, answer :: cancelled)
      else (None, p, s, [answer; StartPick fresh handle (uniqueName s) request])
  end.

Definition intercept (m : message) (fresh : nat) (written : bool) (p : shared) (s : connectionState) : handled :=
  if Bluetooth o then interceptBluetooth m p s
  else if negb (bool_decide (Type_ m = TypeMethodCall)) then (None, p, s, [])
  else
    let path := header_path m in
    if same (interfaceName m) requestInterface && same (member m) "Close" && hasRequest path p then
      let '(p, cancelled) := cancelRequest path p in
      (None, p, s, cancelled ++ [Answer (methodReply SignatureOf m [])])
    else if FilePicker o && portalDestination (destination m) && same path portalObjectPath &&
      same (interfaceName m) fileChooserInterface && (same (member m) "OpenFile" || same (member m) "SaveFile")
    then intercept_picker m fresh written p s
    else if restrictedBusMatchCall (destination m) path (interfaceName m) (member m)
    then (None, p, s, [Answer (methodReply SignatureOf m [])])
    else if restrictedBusCallAllowed (destination m) portalSender path (interfaceName m) (member m) (Body m)
    then (Some m, p, s, [])
    else if policyBusCallAllowed (Policy o) (destination m) path (interfaceName m) (member m) (Body m)
    then (Some m, p, s, [])
    else (None, p, s, [Answer (methodError SignatureOf m "org.freedesktop.DBus.Error.AccessDenied"
      (denied "session"))]).
End Intercept.

(** ** Runs *)

(** What happens to the proxy: a message of client or bus on connection [c], the
    end of a picker, a change of BlueZ's owner. *)
Inductive input : Type :=
  | FromClient (c : nat) (m : message) (written : bool)
  | FromUpstream (c : nat) (m : message) (resolved : option string)
  | PickDone (c : nat) (handle client : string) (outcome : FilePickerResult + string * bool)
  | OwnerSignal (body : list value).

(** What the proxy puts out: a message forwarded to the bus or to the client of
    a connection, or an effect on the latter. *)
Inductive output : Type :=
  | ToBus (c : nat) (m : message)
  | ToClient (c : nat) (m : message)
  | Effect (c : nat) (e : effect).

Record world : Type := mkWorld {
  proxy : shared; connections : gmap nat connectionState; next : nat }.
Definition initial (bluezSender : string) : world := mkWorld (mkShared bluezSender ∅) ∅ 0.
Definition connection (w : world) (c : nat) : connectionState := default new_connection (connections w !! c).

Definition optional (f : message → output) (m : option message) : list output :=
  match m with Some m => [f m] | None => [] end.

Section Step.
Context (SignatureOf : list value → string) (Store : value → option (list decodedFilter)).
Context (o : Options) (portalSender : string).

Definition step (w : world) (i : input) : world * list output :=
  match i with
  | FromClient c m written =>
      let s := observeClient m (connection w c) in
      let '(forwarded, p, s, effects) := intercept SignatureOf Store o portalSender m (next w) written (proxy w) s in
      (mkWorld p (<[c := s]> (connections w)) (S (next w)), optional (ToBus c) forwarded ++ (Effect c <$> effects))
  | FromUpstream c m resolved =>
      let s := observeUpstream m (connection w c) in
      let '(allowed, p, s) := upstreamMessageAllowed o m resolved (proxy w) s in
      (mkWorld p (<[c := s]> (connections w)) (next w), optional (ToClient c) (if allowed then Some m else None))
  | PickDone c handle client outcome =>
      (mkWorld (finishRequest handle (proxy w)) (connections w) (next w),
       [Effect c (Answer (pick_signal SignatureOf portalSender handle client outcome))])
  | OwnerSignal body => (mkWorld (watchBluezOwner body (proxy w)) (connections w) (next w), [])
  end.

(** Every output of the run, in order. *)
Fixpoint run (w : world) (inputs : list input) : world * list output :=
  match inputs with
  | [] => (w, [])
  | i :: inputs =>
      let '(w, out) := step w i in
      let '(w, outs) := run w inputs in (w, out ++ outs)
  end.

(** The states a proxy can be in, with what it has put out. *)
Inductive reachable (bluezSender : string) : world → list output → Prop :=
  | reachable_initial : reachable bluezSender (initial bluezSender) []
  | reachable_step w outs i w' out :
      reachable bluezSender w outs → step w i = (w', out) → reachable bluezSender w' (outs ++ out).

Lemma run_reachable_from bluezSender w outs inputs w' outs' :
  reachable bluezSender w outs → run w inputs = (w', outs') → reachable bluezSender w' (outs ++ outs').
Proof.
  revert w outs outs'. induction inputs as [|i inputs IH]; intros w outs outs' Hw; cbn [run].
  - intros [= <- <-]. by rewrite app_nil_r.
  - destruct (step w i) as [w1 out] eqn:Hs. destruct (run w1 inputs) as [w2 outs2] eqn:Hr.
    intros [= <- <-]. rewrite app_assoc. eapply IH; [|done]. by eapply reachable_step.
Qed.
End Step.

(** ** Calls of a session client *)

(** What needs no permission, written out. *)
Definition always_permitted (portalSender : string) (m : message) : Prop :=
  (destination m = bus_name ∧ header_path m = bus_path ∧ interfaceName m = bus_name ∧
    (member m = "Hello" ∨ member m = "GetId" ∨
     (member m = "GetNameOwner" ∨ member m = "NameHasOwner") ∧ Body m = [VString portalDestination_name])) ∨
  ((destination m = portalDestination_name ∨ destination m = portalSender) ∧ header_path m = portalObjectPath ∧
    (interfaceName m, member m) ∈
      [("org.freedesktop.DBus.Properties", "Get"); ("org.freedesktop.DBus.Properties", "GetAll");
       ("org.freedesktop.DBus.Introspectable", "Introspect");
       ("org.freedesktop.DBus.Peer", "Ping"); ("org.freedesktop.DBus.Peer", "GetMachineId")]).

(** What the policy of the application grants. *)
Definition granted (policy : DBusPolicy) (m : message) : Prop :=
  AllowsCall policy (destination m) (header_path m) (interfaceName m) (member m) = true ∨
  (destination m = bus_name ∧ header_path m = bus_path ∧ interfaceName m = bus_name ∧
    ∃ name, first_string (Body m) = Some name ∧ AllowsOwn policy name = true ∧
      (member m = "RequestName" ∨ member m = "ReleaseName" ∨ member m = "GetNameOwner" ∨ member m = "NameHasOwner")).

Lemma same_iff a b : same a b = true ↔ a = b.
Proof. apply bool_decide_eq_true. Qed.
Lemma same_false a b : same a b = false ↔ a ≠ b.
Proof. apply bool_decide_eq_false. Qed.
#[export] Hint Rewrite same_iff same_false : bools.

Lemma first_is_iff name body : first_is name body = true ↔ first_string body = Some name.
Proof. destruct body as [|[] body]; cbn; bools; naive_solver. Qed.
#[export] Hint Rewrite first_is_iff : bools.

Lemma to_bus_iff d pa i : to_bus d pa i = true ↔ d = bus_name ∧ pa = bus_path ∧ i = bus_name.
Proof. unfold to_bus. bools. tauto. Qed.
#[export] Hint Rewrite to_bus_iff : bools.

Lemma portal_call_iff i me :
  portal_call i me = true ↔
  (i, me) ∈ [("org.freedesktop.DBus.Properties", "Get"); ("org.freedesktop.DBus.Properties", "GetAll");
             ("org.freedesktop.DBus.Introspectable", "Introspect");
             ("org.freedesktop.DBus.Peer", "Ping"); ("org.freedesktop.DBus.Peer", "GetMachineId")].
Proof.
  unfold portal_call. rewrite !elem_of_cons, elem_of_nil.
  repeat case_if; bools_all; subst; bools; naive_solver.
Qed.

Lemma single_body name body :
  length body = 1 → first_string body = Some name → body = [VString name].
Proof. destruct body as [|[] []]; naive_solver. Qed.

Lemma one_string name body :
  (length body =? 1) && first_is name body = true ↔ body = [VString name].
Proof.
  bools. split; [intros [? ?]; by apply single_body|by intros ->].
Qed.
#[export] Hint Rewrite one_string : bools.

Lemma always_permitted_iff portalSender m :
  restrictedBusCallAllowed (destination m) portalSender (header_path m) (interfaceName m) (member m) (Body m) = true
  ↔ always_permitted portalSender m.
Proof.
  unfold restrictedBusCallAllowed, always_permitted. rewrite <-portal_call_iff. set (portal := if _ || _ then false else _).
  assert (portal = true ↔ (destination m = portalDestination_name ∨ destination m = portalSender) ∧
    header_path m = portalObjectPath ∧ portal_call (interfaceName m) (member m) = true) as Hp.
  { unfold portal. rewrite <-!same_iff. destruct (same _ portalDestination_name), (same _ portalSender),
      (same _ portalObjectPath), (portal_call _ _); cbn; naive_solver. }
  clearbody portal. rewrite <-Hp. destruct (to_bus _ _ _) eqn:Hb.
  - apply to_bus_iff in Hb as (Hd & Hpa & Hi).
    assert (portal = false) as ->.
    { apply not_true_iff_false. intros (_ & Hpa' & _)%Hp. rewrite Hpa in Hpa'; discriminate. }
    repeat case_if; bools_all; naive_solver.
  - apply not_true_iff_false in Hb. rewrite to_bus_iff in Hb. naive_solver.
Qed.

Lemma policy_granted policy m :
  policyBusCallAllowed policy (destination m) (header_path m) (interfaceName m) (member m) (Body m) = true →
  granted policy m.
Proof.
  unfold policyBusCallAllowed, granted. cbv zeta. repeat case_if; bools_all; [..|by left];
    destruct_and!; (destruct (first_string (Body m)) as [name|]; [|done]); right; naive_solver.
Qed.

(** ** The messages of a client of the session proxy *)
Section Session.
Context (SignatureOf : list value → string) (Store : value → option (list decodedFilter)).

(** The serial a message answers. *)
Definition answers (call : message) (e : effect) : bool :=
  match e with Answer m => (header_serial m =? Serial call)%N | _ => false end.

Lemma reply_serial call body : header_serial (methodReply SignatureOf call body) = Serial call.
Proof.
  unfold header_serial, methodReply. cbn [Headers].
  destruct body; rewrite ?lookup_insert_ne by done; by rewrite lookup_singleton_eq.
Qed.
Lemma error_serial call name detail : header_serial (methodError SignatureOf call name detail) = Serial call.
Proof.
  unfold header_serial, methodError. cbn [Headers]. rewrite !lookup_insert_ne by done.
  by rewrite lookup_singleton_eq.
Qed.

Lemma answered_once call m : header_serial m = Serial call → answers call (Answer m) = true.
Proof. intros E. cbn. by apply N.eqb_eq. Qed.

Lemma reply_answers call body : answers call (Answer (methodReply SignatureOf call body)) = true.
Proof. apply answered_once, reply_serial. Qed.
Lemma error_answers call name detail : answers call (Answer (methodError SignatureOf call name detail)) = true.
Proof. apply answered_once, error_serial. Qed.

Lemma cancelRequest_silent path p p' effects call :
  cancelRequest path p = (p', effects) →
  List.filter (answers call) effects = [] ∧ bluezSender p' = bluezSender p.
Proof. intros [= <- <-]. split; [by case_match|done]. Qed.

Lemma picker_answers_once m fresh written p s forwarded p' s' effects :
  intercept_picker SignatureOf Store m fresh written p s = (forwarded, p', s', effects) →
  forwarded = None ∧ length (List.filter (answers m) effects) = 1 ∧ s' = s ∧ bluezSender p' = bluezSender p.
Proof.
  unfold intercept_picker. destruct (decodeFileChooserCall _ _ _) as [request|e].
  - cbv zeta. destruct written; cbn [negb].
    + intros [= <- <- <- <-]. cbn [List.filter]. rewrite reply_answers. done.
    + destruct (cancelRequest _ _) as [p1 cancelled] eqn:Hc. intros [= <- <- <- <-].
      apply (cancelRequest_silent _ _ _ _ m) in Hc as [Hc Hbl]. cbn [List.filter]. by rewrite reply_answers, Hc.
  - intros [= <- <- <- <-]. cbn [List.filter]. by rewrite error_answers.
Qed.

(** C6: The proxy denies by default: a message of a session client is forwarded
    only if it is a method call, unchanged, and either one of the calls that need no
    permission or one the policy grants; and a call is either forwarded or
    answered exactly once, never both, while a signal, a reply or an error of
    the client is dropped without a word. *)
Theorem session_default_deny o portalSender m fresh written p s forwarded p' s' effects :
  Bluetooth o = false →
  intercept SignatureOf Store o portalSender m fresh written p s = (forwarded, p', s', effects) →
  (∀ m', forwarded = Some m' →
     m' = m ∧ Type_ m = TypeMethodCall ∧ effects = [] ∧
     (always_permitted portalSender m ∨ granted (Policy o) m)) ∧
  (forwarded = None → Type_ m = TypeMethodCall → length (List.filter (answers m) effects) = 1) ∧
  (Type_ m ≠ TypeMethodCall → forwarded = None ∧ effects = [] ∧ p' = p) ∧
  s' = s ∧ bluezSender p' = bluezSender p.
Proof.
  intros Hb. unfold intercept. rewrite Hb. destruct (bool_decide (Type_ m = TypeMethodCall)) eqn:Ht; cbn [negb].
  2:{ bools_in Ht. intros [= <- <- <- <-]. naive_solver. }
  bools_in Ht. cbv zeta.
  case_if.
  { destruct (cancelRequest _ _) as [p1 cancelled] eqn:Hc. intros [= <- <- <- <-].
    apply (cancelRequest_silent _ _ _ _ m) in Hc as [Hc Hbl].
    rewrite List.filter_app, Hc. cbn [List.filter app]. rewrite reply_answers. naive_solver. }
  case_if; [intros (-> & ? & -> & ?)%picker_answers_once; naive_solver|].
  case_if; [intros [= <- <- <- <-]; cbn [List.filter]; rewrite reply_answers; naive_solver|].
  case_if; [intros [= <- <- <- <-]; rewrite always_permitted_iff in *; naive_solver|].
  case_if; intros [= <- <- <- <-].
  - match goal with H : policyBusCallAllowed _ _ _ _ _ _ = true |- _ => apply policy_granted in H end. naive_solver.
  - cbn [List.filter]. rewrite error_answers. naive_solver.
Qed.
End Session.

(** ** Policies compared by what they let through *)
Definition with_policy (policy : DBusPolicy) (o : Options) : Options :=
  mkOptions (SocketPath o) (UpstreamAddress o) (BrokerSocketPath o) (BrokerToken o)
    (FilePicker o) (Bluetooth o) policy (PickFile o).

Lemma policy_call_narrower current candidate m :
  narrower current candidate →
  policyBusCallAllowed candidate (destination m) (header_path m) (interfaceName m) (member m) (Body m) = true →
  policyBusCallAllowed current (destination m) (header_path m) (interfaceName m) (member m) (Body m) = true.
Proof.
  intros [Hcall Hown]. unfold policyBusCallAllowed. cbv zeta.
  destruct (first_string (Body m)); repeat case_if; auto.
Qed.

Lemma policy_call_meet p q m :
  policyBusCallAllowed (IntersectDBusPolicies p q) (destination m) (header_path m) (interfaceName m) (member m) (Body m) =
  policyBusCallAllowed p (destination m) (header_path m) (interfaceName m) (member m) (Body m) &&
  policyBusCallAllowed q (destination m) (header_path m) (interfaceName m) (member m) (Body m).
Proof.
  unfold policyBusCallAllowed. cbv zeta.
  destruct (first_string (Body m)); repeat case_if; rewrite ?intersect_own, ?intersect_call; done.
Qed.

Section Order.
Context (SignatureOf : list value → string) (Store : value → option (list decodedFilter)).
Context (o : Options) (portalSender : string).

(** What the proxy forwards of a client's message under a policy. *)
Definition forwards (policy : DBusPolicy) (m : message) (p : shared) (s : connectionState) : option message :=
  (intercept SignatureOf Store (with_policy policy o) portalSender m 0 true p s).1.1.1.

Lemma forwards_policy m p s :
  Bluetooth o = false →
  ∃ reached fixed, ∀ policy, forwards policy m p s =
    if reached && (fixed ||
      policyBusCallAllowed policy (destination m) (header_path m) (interfaceName m) (member m) (Body m))
    then Some m else None.
Proof.
  intros Hb. unfold forwards, intercept. cbn [Bluetooth with_policy FilePicker Policy]. rewrite Hb. cbv zeta.
  destruct (negb _); [by exists false, false|].
  destruct (_ && hasRequest _ _); [by exists false, false|].
  destruct (FilePicker o && _ && _ && _ && _).
  { exists false, false. intros policy. cbn [andb].
    destruct (intercept_picker _ _ _ _ _ _ _) as [[[f p1] s1] e] eqn:Hp.
    by apply picker_answers_once in Hp as (-> & _). }
  destruct (restrictedBusMatchCall _ _ _ _); [by exists false, false|].
  destruct (restrictedBusCallAllowed _ _ _ _ _ _); [by exists true, true|].
  exists true, false. intros policy. cbn [andb orb]. by case_if.
Qed.

Lemma upstream_meet m p q :
  restrictedUpstreamMessage m (IntersectDBusPolicies p q) =
  restrictedUpstreamMessage m p && restrictedUpstreamMessage m q.
Proof.
  unfold restrictedUpstreamMessage. repeat case_if; try done. destruct (first_string _) as [name|]; [|done].
  rewrite intersect_own. by destruct (has_prefix ":" name).
Qed.

(** C39: the order on policies is the order on what the proxy lets through: a
    policy another restricts forwards no call of the client and delivers no
    message of the bus that the other does not, and the intersection of two
    policies lets through exactly what both do. *)
Theorem session_policy_order m p s :
  Bluetooth o = false →
  (∀ current candidate, DBusPolicyRestricts current candidate = true →
     (is_Some (forwards candidate m p s) → is_Some (forwards current m p s)) ∧
     (restrictedUpstreamMessage m candidate = true → restrictedUpstreamMessage m current = true)) ∧
  (∀ policy policy',
     (is_Some (forwards (IntersectDBusPolicies policy policy') m p s) ↔
        is_Some (forwards policy m p s) ∧ is_Some (forwards policy' m p s)) ∧
     restrictedUpstreamMessage m (IntersectDBusPolicies policy policy') =
       restrictedUpstreamMessage m policy && restrictedUpstreamMessage m policy').
Proof.
  intros Hb. destruct (forwards_policy m p s Hb) as (reached & fixed & Hf).
  assert (∀ policy, is_Some (forwards policy m p s) ↔ reached = true ∧ (fixed = true ∨
    policyBusCallAllowed policy (destination m) (header_path m) (interfaceName m) (member m) (Body m) = true)) as Hs.
  { intros policy. rewrite Hf. rewrite <-orb_true_iff, <-andb_true_iff.
    case_if; split; try done; try (by eexists); by intros [? [=]]. }
  setoid_rewrite Hs. split.
  - intros current candidate Hr%restricts_narrower. split.
    + pose proof (policy_call_narrower _ _ m Hr). naive_solver.
    + unfold restrictedUpstreamMessage. repeat case_if; try done.
      destruct (first_string _) as [name|]; [|done]. bools. destruct Hr as [Hown _]. naive_solver.
  - intros policy policy'. split; [|apply upstream_meet].
    rewrite policy_call_meet, andb_true_iff. tauto.
Qed.
End Order.

(** ** Replies of a Bluetooth client *)
Section Bluetooth.
Context (SignatureOf : list value → string) (Store : value → option (list decodedFilter)).
Context (o : Options) (portalSender owner : string).
Context (HBluetooth : Bluetooth o = true).

Notation step := (step SignatureOf Store o portalSender).
Notation reachable := (reachable SignatureOf Store o portalSender owner).

Definition replies (w : world) (c : nat) : gmap N string := bluetoothReplies (connection w c).

(** The reply of connection [c] to the call with serial [n]. *)
Definition reply_of (c : nat) (n : N) (x : output) : bool :=
  match x with
  | ToBus c' m => bool_decide (c' = c) && is_reply m && (header_serial m =? n)%N
  | _ => false
  end.

(** The call with serial [n] that [d] made to connection [c] has no reply yet. *)
Definition outstanding (c : nat) (n : N) (d : string) (outs : list output) : Prop :=
  ∃ pre m post, outs = pre ++ ToClient c m :: post ∧ Type_ m = TypeMethodCall ∧ Serial m = n ∧
    sender m = d ∧ existsb (reply_of c n) post = false.

Lemma connection_insert p cs k c c' s :
  connection (mkWorld p (<[c := s]> cs) k) c' = if decide (c = c') then s else connection (mkWorld p cs k) c'.
Proof.
  unfold connection. cbn [connections]. case_decide; subst; [by rewrite lookup_insert_eq|by rewrite lookup_insert_ne].
Qed.

Lemma observe_replies m s :
  bluetoothReplies (observeClient m s) = bluetoothReplies s ∧ bluetoothReplies (observeUpstream m s) = bluetoothReplies s.
Proof. unfold observeClient, observeUpstream. split; repeat case_match; done. Qed.

(** What a message of the client does to the calls it may reply to. *)
Lemma bluetooth_client m fresh written p s forwarded p' s' effects :
  intercept SignatureOf Store o portalSender m fresh written p s = (forwarded, p', s', effects) →
  if is_reply m then
    bluetoothReplies s' = delete (header_serial m) (bluetoothReplies s) ∧
    (∀ m', forwarded = Some m' → m' = m ∧ destination m ≠ "" ∧
       bluetoothReplies s !! header_serial m = Some (destination m))
  else s' = s ∧ ∀ m', forwarded = Some m' → is_reply m' = false.
Proof using HBluetooth.
  unfold intercept. rewrite HBluetooth. unfold interceptBluetooth. destruct (is_reply m) eqn:Hr.
  - unfold takeBluetoothReply. cbv zeta. intros [= <- _ <- _]. split; [done|]. intros m'. case_if; [|done].
    intros [= <-]. bools_all. destruct_and?. split; [done|].
    destruct (bluetoothReplies s !! header_serial m); simpl in *; [|done]. by subst.
  - repeat case_if; intros [= <- _ <- _]; split; try done; intros m' [= <-]; done.
Qed.

(** What a message of the bus does to them. *)
Lemma bluetooth_upstream m resolved p s allowed p' s' :
  upstreamMessageAllowed o m resolved p s = (allowed, p', s') →
  s' = s ∨ allowed = true ∧ Type_ m = TypeMethodCall ∧ s' = allowBluetoothReply (Serial m) (sender m) s.
Proof using HBluetooth.
  unfold upstreamMessageAllowed. rewrite HBluetooth. cbn [negb].
  repeat (case_if || destruct (isBluezSender _ _ _)); intros [= <- _ <-]; auto.
  right. apply negb_false_iff, bool_decide_eq_true in Heqb1. done.
Qed.

Lemma step_replies w i w' out :
  step w i = (w', out) →
  (∀ c n d, replies w' c !! n = Some d →
     (replies w c !! n = Some d ∧ existsb (reply_of c n) out = false) ∨
     ∃ m, out = [ToClient c m] ∧ Type_ m = TypeMethodCall ∧ Serial m = n ∧ sender m = d) ∧
  (∀ pre c r post, out = pre ++ ToBus c r :: post → is_reply r = true →
     pre = [] ∧ destination r ≠ "" ∧ replies w c !! header_serial r = Some (destination r)).
Proof using HBluetooth.
  assert (∀ c (effects : list effect) pre c' r post, (Effect c <$> effects) ≠ pre ++ ToBus c' r :: post) as Hno.
  { intros c effects pre c' r post E. assert (ToBus c' r ∈ Effect c <$> effects) as Hin by (rewrite E; set_solver).
    apply list_elem_of_fmap in Hin as (? & ? & _). done. }
  destruct i as [c0 m written|c0 m resolved|c0 handle client outcome|body]; cbn [step].
  - destruct (intercept _ _ _ _ _ _ _ _ _) as [[[forwarded p] s] effects] eqn:Hi. intros [= <- <-].
    apply bluetooth_client in Hi. pose proof (proj1 (observe_replies m (connection w c0))) as Hobs.
    assert (∀ c n, existsb (reply_of c n) (Effect c0 <$> effects) = false) as Heff.
    { intros c n. by induction effects. }
    split.
    + intros c n d. unfold replies. rewrite connection_insert. intros Hd. left.
      rewrite existsb_app, Heff, orb_false_r. case_decide as Hc.
      * subst c0. destruct (is_reply m) eqn:Hr.
        -- destruct Hi as [Hi Hf]. rewrite Hi, Hobs in Hd. apply lookup_delete_Some in Hd as [Hn Hd].
           split; [done|]. destruct forwarded as [m'|]; [|done]. destruct (Hf m' eq_refl) as [-> _].
           cbn. rewrite Hr, orb_false_r. bools. right. done.
        -- destruct Hi as [-> Hf]. rewrite Hobs in Hd. split; [done|]. destruct forwarded as [m'|]; [|done].
           cbn. by rewrite (Hf m'), andb_false_r.
      * split; [done|]. destruct forwarded as [m'|]; [|done]. cbn. by rewrite bool_decide_eq_false_2.
    + intros pre c r post E Hr. destruct forwarded as [m'|]; [|by apply Hno in E].
      destruct pre as [|x pre]; [|by injection E as _ E; apply Hno in E].
      injection E as -> -> _. destruct (is_reply m) eqn:Hm; [|destruct Hi as [_ Hf]; by rewrite Hf in Hr].
      destruct Hi as [_ Hf]. destruct (Hf r eq_refl) as (-> & ? & Hl). rewrite Hobs in Hl. done.
  - pose proof (proj2 (observe_replies m (connection w c0))) as Hobs.
    destruct (upstreamMessageAllowed _ _ _ _ _) as [[allowed p] s] eqn:Hu. intros [= <- <-].
    apply bluetooth_upstream in Hu. split.
    + intros c n d. unfold replies. rewrite connection_insert. intros Hd. case_decide as Hc.
      2:{ left. split; [done|]. by destruct allowed. }
      subst c0. destruct Hu as [->|(-> & Ht & ->)].
      { left. rewrite Hobs in Hd. split; [done|]. by destruct allowed. }
      cbn in Hd. rewrite Hobs in Hd. apply lookup_insert_Some in Hd as [[<- <-]|[? ?]]; [right; by exists m|by left].
    + intros [|x pre] c r post; destruct allowed; cbn; intros [=]. by destruct pre.
  - intros [= <- <-]. split; [by left|]. intros [|x pre] c r post [=]. by destruct pre.
  - intros [= <- <-]. split; [by left|]. by intros [|x pre] c r post [=].
Qed.

Lemma outstanding_app c n d outs out :
  outstanding c n d outs → existsb (reply_of c n) out = false → outstanding c n d (outs ++ out).
Proof.
  intros (pre & m & post & -> & ? & ? & ? & Hp) Ho. exists pre, m, (post ++ out).
  rewrite <-app_assoc, existsb_app, Hp. done.
Qed.

(** The map of a connection holds the calls without a reply. *)
Lemma replies_outstanding w outs :
  reachable w outs → ∀ c n d, replies w c !! n = Some d → outstanding c n d outs.
Proof using HBluetooth.
  induction 1 as [|w outs i w' out Hw IH Hs]; intros c n d Hd.
  { unfold replies, connection in Hd. cbn in Hd. by rewrite lookup_empty in Hd. }
  apply step_replies in Hs as [Hs _]. destruct (Hs c n d Hd) as [[Ho Hn]|(m & -> & ? & ? & ?)].
  - apply outstanding_app; auto.
  - by exists outs, m, [].
Qed.

(** C12: A Bluetooth client answers only what it was asked, once: at any moment
    of any run, with any number of connections, a reply or an error the proxy
    forwards to the bus answers a method call delivered before to the same connection, with
    that serial, by the very sender the reply is addressed to, and no reply of
    that serial was forwarded since. *)
Theorem bluetooth_replies_once w outs pre c r post :
  reachable w outs → outs = pre ++ ToBus c r :: post → is_reply r = true →
  destination r ≠ "" ∧ outstanding c (header_serial r) (destination r) pre.
Proof using HBluetooth.
  intros Hw. revert pre post. induction Hw as [|w outs i w' out Hw IH Hs]; intros pre post E Hr.
  { by destruct pre. }
  assert (∀ pre', out = pre' ++ ToBus c r :: post → destination r ≠ "" ∧
    outstanding c (header_serial r) (destination r) (outs ++ pre')) as Hnew.
  { intros pre' Eo. pose proof (step_replies _ _ _ _ Hs) as [_ Hs'].
    destruct (Hs' _ _ _ _ Eo Hr) as (-> & Hne & Hd). rewrite app_nil_r. split; [done|].
    by eapply replies_outstanding. }
  apply app_eq_inv in E as [(k & -> & E)|(k & -> & E)]; [|by apply Hnew].
  destruct k as [|x k]; cbn in E; [|injection E as <- ->; by eapply IH].
  rewrite <-(app_nil_r pre). specialize (Hnew []). rewrite app_nil_r in Hnew. apply Hnew. done.
Qed.
End Bluetooth.

(** ** Examples *)
Definition no_signature (_ : list value) : string := "".
Definition no_filters (_ : value) : option (list decodedFilter) := None.
Definition bluetooth_options : Options := mkOptions "/run/bus" "unix:path=/bus" "" "" false true no_policy false.
Definition session_options : Options :=
  mkOptions "/run/bus" "unix:path=/bus" "" "" true false (mkPolicy [mkCall "org.app" "/org/app" "org.app.Api" ["Get"]] []) true.

Definition bus_call (serial : N) (destination path interface member : string) (body : list value) : message :=
  Message TypeMethodCall serial
    (<[FieldDestination := VString destination]> (<[FieldPath := VPath path]>
      (<[FieldInterface := VString interface]> {[FieldMember := VString member]}))) body.
Definition bus_reply (n : N) (destination : string) (body : list value) : message :=
  Message TypeMethodReply 77 (<[FieldDestination := VString destination]> {[FieldReplySerial := VUint32 n]}) body.
Definition from (sender : string) (m : message) : message :=
  Message (Type_ m) (Serial m) (<[FieldSender := VString sender]> (Headers m)) (Body m).

(** BlueZ calls an agent of the client, which answers once too often. *)
Definition agent_inputs : list input :=
  [FromClient 0 (bus_call 1 bus_name bus_path bus_name "Hello" []) true;
   FromUpstream 0 (from bus_name (bus_reply 1 ":1.9" [VString ":1.9"])) None;
   FromUpstream 0 (from ":1.5" (bus_call 9 ":1.9" "/agent" "org.bluez.Agent1" "RequestPinCode" [])) None;
   FromClient 0 (bus_reply 9 ":1.5" [VString "0000"]) true;
   FromClient 0 (bus_reply 9 ":1.5" [VString "0000"]) true].
Definition agent_run : world * list output :=
  run no_signature no_filters bluetooth_options portalDestination_name (initial ":1.5") agent_inputs.

Lemma agent_reachable :
  reachable no_signature no_filters bluetooth_options portalDestination_name ":1.5" agent_run.1 agent_run.2.
Proof.
  apply (run_reachable_from _ _ _ _ ":1.5" (initial ":1.5") [] agent_inputs); [constructor|].
  apply surjective_pairing.
Qed.

Lemma bluetooth_replies_once_witness :
  let r := bus_reply 9 ":1.5" [VString "0000"] in
  length agent_run.2 = 4 ∧ agent_run.2 = take 3 agent_run.2 ++ [ToBus 0 r] ∧
  destination r ≠ "" ∧ outstanding 0 (header_serial r) (destination r) (take 3 agent_run.2).
Proof.
  intros r.
  assert (agent_run.2 = take 3 agent_run.2 ++ [ToBus 0 r]) as E by (vm_compute; reflexivity).
  split; [vm_compute; reflexivity|]. split; [exact E|].
  apply (bluetooth_replies_once no_signature no_filters bluetooth_options portalDestination_name ":1.5"
    ltac:(reflexivity) agent_run.1 agent_run.2 (take 3 agent_run.2) 0 r [] agent_reachable E). reflexivity.
Defined.

Lemma session_default_deny_witness :
  let m := bus_call 5 "org.app" "/org/app" "org.app.Api" "Get" [] in
  intercept no_signature no_filters session_options portalDestination_name m 0 true (mkShared "" ∅) new_connection =
    (Some m, mkShared "" ∅, new_connection, []) ∧
  (always_permitted portalDestination_name m ∨ granted (Policy session_options) m).
Proof.
  intros m.
  assert (intercept no_signature no_filters session_options portalDestination_name m 0 true (mkShared "" ∅) new_connection =
    (Some m, mkShared "" ∅, new_connection, [])) as E by (vm_compute; reflexivity).
  split; [exact E|].
  destruct (session_default_deny no_signature no_filters session_options portalDestination_name m 0 true _ _ _ _ _ _
    ltac:(reflexivity) E) as (H & _).
  destruct (H m eq_refl) as (_ & _ & _ & Hg). exact Hg.
Defined.

Lemma session_policy_order_witness :
  let m := bus_call 5 "org.app" "/org/app" "org.app.Api" "Get" [] in
  Bluetooth session_options = false ∧
  DBusPolicyRestricts (Policy session_options) no_policy = true ∧
  (is_Some (forwards no_signature no_filters session_options portalDestination_name no_policy m (mkShared "" ∅) new_connection) →
   is_Some (forwards no_signature no_filters session_options portalDestination_name (Policy session_options) m (mkShared "" ∅) new_connection)).
Proof.
  intros m. split; [reflexivity|]. split; [reflexivity|].
  exact (proj1 (proj1 (session_policy_order no_signature no_filters session_options portalDestination_name m
    (mkShared "" ∅) new_connection ltac:(reflexivity)) (Policy session_options) no_policy ltac:(reflexivity))).
Defined.

(** ** What reaches a client *)

(** Nothing reaches a client that it is not meant to see.  A session client
    gets replies, errors and the two signals about its unique name or a name its
    policy lets it own.  A Bluetooth client gets messages of the bus itself or
    of BlueZ's current owner only - from the bus no other than
    replies, its own name's signals and those about BlueZ's owner - and a call
    only when it is addressed to the name the bus gave the client. *)
Theorem upstream_filtered o m resolved p s allowed p' s' :
  upstreamMessageAllowed o m resolved p s = (allowed, p', s') → allowed = true →
  if Bluetooth o then
    (sender m = bus_name ∧ (is_reply m = true ∨ Type_ m = TypeSignal ∧ interfaceName m = bus_name ∧
       (member m = "NameAcquired" ∨ member m = "NameLost" ∨
        member m = "NameOwnerChanged" ∧ first_string (Body m) = Some bluezDestination))) ∨
    (sender m = bluezSender p' ∧ sender m ≠ "" ∧
      (Type_ m = TypeMethodCall → destination m = uniqueName s ∧
         bluetoothReplies s' !! Serial m = Some (sender m)))
  else
    is_reply m = true ∨
    Type_ m = TypeSignal ∧ interfaceName m = bus_name ∧ (member m = "NameAcquired" ∨ member m = "NameLost") ∧
    ∃ name, Body m = [VString name] ∧ (has_prefix ":" name = true ∨ AllowsOwn (Policy o) name = true).
Proof.
  unfold upstreamMessageAllowed.
  assert (∀ known p1, isBluezSender (sender m) resolved p = (known, p1) → known = true →
    sender m = bluezSender p1 ∧ sender m ≠ "") as Hbluez.
  { unfold isBluezSender. intros known p1. case_if.
    { intros [= <- <-] _. bools_all. destruct_and!. split; congruence. }
    case_if; [by intros [= <- <-]|]. destruct resolved as [owner|]; [|by intros [= <- <-]].
    case_if; [|by intros [= <- <-]]. intros [= <- <-] _. bools_all. destruct_and!. subst. cbn. split; [done|].
    intros E. by rewrite E in *. }
  destruct (Bluetooth o); cbn [negb].
  - destruct (is_reply m) eqn:Hr.
    + case_if; [intros _ _; left; bools_all; auto|].
      destruct (isBluezSender _ _ _) as [known p1] eqn:Hi. intros [= <- <- <-] ->.
      destruct (Hbluez _ _ eq_refl eq_refl) as [? ?]. right. split_and!; [done..|]. intros Ht.
      unfold is_reply in Hr. by rewrite Ht in Hr.
    + destruct (isBluezSender _ _ _) as [known p1] eqn:Hi. destruct known; cbn [negb].
      * destruct (Hbluez _ _ eq_refl eq_refl) as [? ?]. repeat case_if; intros [= <- <- <-] Ha; try done.
        -- right. split_and!; [done..|]. intros Ht. bools_all. congruence.
        -- right. split_and!; [done..|]. bools_all. intros _. split; [done|]. cbn. by rewrite lookup_insert_eq.
      * intros [= <- <- <-] Hs. left. unfold bus_signal in Hs. revert Hs.
        repeat case_if; try done; bools_all; intros Hs; bools_in Hs; naive_solver.
  - intros [= <- <- <-] Ha. unfold restrictedUpstreamMessage in Ha. revert Ha.
    case_if; [by left|]. case_if; [done|]. case_if; [done|]. intros Ha. right.
    destruct (Body m) as [|[name| | | | | | | |] [|? ?]]; cbn in *; try done; bools_all; [naive_solver|..];
      destruct_and?; done.
Qed.

Lemma upstream_filtered_witness :
  let m := from ":1.5" (bus_call 9 "" "/agent" "org.bluez.Agent1" "RequestPinCode" []) in
  upstreamMessageAllowed bluetooth_options m (Some ":1.5") (mkShared "" ∅) new_connection =
    (true, mkShared ":1.5" ∅, allowBluetoothReply 9 ":1.5" new_connection) ∧
  (sender m = ":1.5" ∧ sender m ≠ "").
Proof.
  intros m.
  assert (upstreamMessageAllowed bluetooth_options m (Some ":1.5") (mkShared "" ∅) new_connection =
    (true, mkShared ":1.5" ∅, allowBluetoothReply 9 ":1.5" new_connection)) as E by (vm_compute; reflexivity).
  split; [exact E|].
  destruct (upstream_filtered bluetooth_options _ _ _ _ _ _ _ E eq_refl) as [[H _]|(H1 & H2 & _)].
  - exfalso. vm_compute in H. discriminate H.
  - split; [exact H1|exact H2].
Defined.

(** ** The life of a request *)
Section Requests.
Context (SignatureOf : list value → string) (Store : value → option (list decodedFilter)).
Context (o : Options) (portalSender owner : string).

(** The requests whose context was cancelled, and those handed to the picker. *)
Definition cancelled (outs : list output) : list nat :=
  omap (λ x, match x with Effect _ (CancelContext id) => Some id | _ => None end) outs.
Definition started (outs : list output) : list nat :=
  omap (λ x, match x with Effect _ (StartPick id _ _ _) => Some id | _ => None end) outs.

Lemma cancel_effects path p p' effects :
  cancelRequest path p = (p', effects) →
  requests p' = delete path (requests p) ∧
  ∀ c, started (Effect c <$> effects) = [] ∧
    cancelled (Effect c <$> effects) = match requests p !! path with Some id => [id] | None => [] end.
Proof. intros [= <- <-]. split; [done|]. intros c. by destruct (requests p !! path). Qed.

(** What one message does to the requests. *)
Inductive request_change (fresh : nat) (r r' : gmap string nat) : list nat → list nat → Prop :=
  | request_kept : r' = r → request_change fresh r r' [] []
  | request_cancelled path id :
      r !! path = Some id → r' = delete path r → request_change fresh r r' [id] []
  | request_started path : r' = <[path := fresh]> r → request_change fresh r r' [] [fresh]
  | request_failed path : r' = delete path (<[path := fresh]> r) → request_change fresh r r' [fresh] []
  | request_finished path : r' = delete path r → request_change fresh r r' [] [].

Lemma answers_change fresh r c (e : message) : request_change fresh r r (cancelled [Effect c (Answer e)]) (started [Effect c (Answer e)]).
Proof. by constructor. Qed.

Lemma intercept_requests m fresh written p s forwarded p' s' effects c :
  intercept SignatureOf Store o portalSender m fresh written p s = (forwarded, p', s', effects) →
  request_change fresh (requests p) (requests p')
    (cancelled (Effect c <$> effects)) (started (Effect c <$> effects)).
Proof.
  unfold intercept, interceptBluetooth, intercept_picker. cbv zeta.
  destruct (Bluetooth o).
  { repeat (case_if || destruct (takeBluetoothReply _ _ _)); intros [= <- <- <- <-]; by constructor. }
  case_if; [intros [= <- <- <- <-]; by constructor|].
  case_if.
  { destruct (cancelRequest _ _) as [p1 cs] eqn:Hc. intros [= <- <- <- <-].
    apply cancel_effects in Hc as [Hp Hc]. destruct (Hc c) as [Hst Hca].
    unfold cancelled, started in *. rewrite fmap_app, !omap_app, Hst, Hca. bools_all. destruct_and!.
    match goal with H : hasRequest _ _ = true |- _ => unfold hasRequest in H; bools_in H; destruct H as [id Hid] end.
    rewrite Hid. by eapply request_cancelled. }
  case_if.
  { destruct (decodeFileChooserCall _ _ _) as [request|e]; [|intros [= <- <- <- <-]; by constructor].
    destruct written; cbn [negb]; [intros [= <- <- <- <-]; by eapply request_started|].
    destruct (cancelRequest _ _) as [p1 cs] eqn:Hc. intros [= <- <- <- <-].
    apply cancel_effects in Hc as [Hp Hc]. destruct (Hc c) as [Hst Hca].
    cbn [storeRequest requests] in Hca. rewrite lookup_insert_eq in Hca.
    unfold cancelled, started in *. cbn. rewrite Hst, Hca. eapply request_failed, Hp. }
  repeat case_if; intros [= <- <- <- <-]; by constructor.
Qed.

Lemma isBluezSender_requests sd resolved p known p' :
  isBluezSender sd resolved p = (known, p') → requests p' = requests p.
Proof. unfold isBluezSender. repeat case_match; intros; simplify_eq; done. Qed.

Lemma upstream_requests m resolved p s allowed p' s' :
  upstreamMessageAllowed o m resolved p s = (allowed, p', s') → requests p' = requests p.
Proof.
  unfold upstreamMessageAllowed. repeat (case_if || destruct (isBluezSender _ _ _) as [? ?] eqn:Hi);
    intros [= <- <- <-]; try done; by eapply isBluezSender_requests.
Qed.

Lemma step_requests w i w' out :
  step SignatureOf Store o portalSender w i = (w', out) →
  request_change (next w) (requests (proxy w)) (requests (proxy w')) (cancelled out) (started out) ∧
  (next w' = S (next w) ∨ next w' = next w ∧ cancelled out = [] ∧ started out = []).
Proof.
  destruct i as [c m written|c m resolved|c handle client outcome|body]; cbn [step].
  - destruct (intercept _ _ _ _ _ _ _ _ _) as [[[forwarded p] s] effects] eqn:Hi. intros [= <- <-].
    split; [|by left]. apply (intercept_requests _ _ _ _ _ _ _ _ _ c) in Hi.
    destruct forwarded; exact Hi.
  - destruct (upstreamMessageAllowed _ _ _ _ _) as [[allowed p] s] eqn:Hu. intros [= <- <-].
    apply upstream_requests in Hu. destruct allowed; (split; [by constructor|by right]).
  - intros [= <- <-]. split; [by eapply request_finished|by right].
  - intros [= <- <-]. split; [|by right]. constructor. cbn. unfold watchBluezOwner. by repeat case_match.
Qed.

(** The pending requests were never cancelled, are distinct, and are older than
    the next one, as is all that was started or cancelled. *)
Record request_invariant (r : gmap string nat) (n : nat) (cs ss : list nat) : Prop := {
  ri_fresh : ∀ path id, r !! path = Some id → id < n ∧ id ∉ cs;
  ri_inj : ∀ path path' id, r !! path = Some id → r !! path' = Some id → path = path';
  ri_cancelled : NoDup cs ∧ ∀ id, id ∈ cs → id < n;
  ri_started : NoDup ss ∧ ∀ id, id ∈ ss → id < n }.

Lemma request_invariant_step r r' n n' cs ss cs1 ss1 :
  request_invariant r n cs ss → request_change n r r' cs1 ss1 →
  (n' = S n ∨ n' = n ∧ cs1 = [] ∧ ss1 = []) →
  request_invariant r' n' (cs ++ cs1) (ss ++ ss1).
Proof.
  intros [Hf Hi [Hc1 Hc2] [Hs1 Hs2]] Hch Hn.
  assert (n ≤ n') as Hle by (destruct Hn; lia).
  assert (∀ l, (∀ id, id ∈ l → id < n) → NoDup l → n' = S n →
    NoDup (l ++ [n]) ∧ ∀ id, id ∈ l ++ [n] → id < n') as Hsnoc.
  { intros l Hl Hd ->. split.
    - apply NoDup_app. split_and!; [done| |apply NoDup_singleton]. intros id Hid ->%list_elem_of_singleton.
      specialize (Hl _ Hid). lia.
    - intros id [Hid| ->%list_elem_of_singleton]%elem_of_app; [specialize (Hl _ Hid)|]; lia. }
  assert (∀ l : list nat, (∀ id : nat, id ∈ l → id < n) → ∀ id, id ∈ l → id < n') as Hweak.
  { intros l Hl id Hid. specialize (Hl _ Hid). lia. }
  assert (∀ path path' id, delete path r !! path' = Some id → r !! path' = Some id) as Hdel.
  { intros path path' id Hd. by apply lookup_delete_Some in Hd as [_ ?]. }
  destruct Hch as [->|path id Hid ->|path ->|path ->|path ->]; rewrite ?app_nil_r.
  - split; [|done|by eauto..]. intros path id Hid. destruct (Hf _ _ Hid). split; [lia|done].
  - destruct Hn as [Hn|(_ & [=] & _)]. destruct (Hf _ _ Hid) as [Hlt Hnew]. split; [..|by eauto].
    + intros path' id' Hd. apply lookup_delete_Some in Hd as [Hne Hd]. destruct (Hf _ _ Hd) as [? Hnc].
      split; [lia|]. rewrite not_elem_of_app. split; [done|]. intros ->%list_elem_of_singleton. by apply Hne, (Hi path path' id).
    + intros path1 path2 id' H1%Hdel H2%Hdel. eauto.
    + split.
      * apply NoDup_app. split_and!; [done| |apply NoDup_singleton]. by intros id' ? ->%list_elem_of_singleton.
      * intros id' [?| ->%list_elem_of_singleton]%elem_of_app; [eauto|lia].
  - destruct Hn as [Hn|(_ & _ & [=])]. split; [..|by eauto|by auto].
    + intros path' id Hid. apply lookup_insert_Some in Hid as [[<- <-]|[Hne Hid]].
      * split; [lia|]. intros Hc. specialize (Hc2 _ Hc). lia.
      * destruct (Hf _ _ Hid). split; [lia|done].
    + intros path1 path2 id H1 H2. apply lookup_insert_Some in H1, H2.
      destruct H1 as [[<- <-]|[? H1]], H2 as [[<- ?]|[? H2]]; [done|..|by eauto].
      * apply Hf in H2. lia.
      * apply Hf in H1. subst. lia.
  - destruct Hn as [Hn|(_ & [=] & _)]. rewrite delete_insert_eq.
    split; [..|by auto|by eauto].
    + intros path' id Hd. apply lookup_delete_Some in Hd as [Hne Hd]. destruct (Hf _ _ Hd). split; [lia|].
      rewrite not_elem_of_app. split; [done|]. intros ->%list_elem_of_singleton. lia.
    + intros path1 path2 id' H1%Hdel H2%Hdel. eauto.
  - split; [..|by eauto|by eauto].
    + intros path' id Hd%Hdel. destruct (Hf _ _ Hd). split; [lia|done].
    + intros path1 path2 id' H1%Hdel H2%Hdel. eauto.
Qed.

(** A request is opened and cancelled at most once.  In any run, whatever
    the handles the clients choose and whichever connection closes them, every
    picker is started with a context of its own, no context is cancelled twice,
    and the contexts the proxy still holds are pending ones, each under one
    handle. *)
Theorem request_contexts w outs :
  reachable SignatureOf Store o portalSender owner w outs →
  NoDup (started outs) ∧ NoDup (cancelled outs) ∧
  (∀ path id, requests (proxy w) !! path = Some id → id ∉ cancelled outs) ∧
  (∀ path path' id, requests (proxy w) !! path = Some id → requests (proxy w) !! path' = Some id → path = path').
Proof.
  intros Hw. assert (request_invariant (requests (proxy w)) (next w) (cancelled outs) (started outs)) as [Hf Hi [? _] [? _]].
  { induction Hw as [|w outs i w' out Hw IH Hs].
    - assert (∀ path, requests (proxy (initial owner)) !! path = None) as Hnone by (intros; apply lookup_empty).
      split; [intros ??; by rewrite Hnone|intros ???; by rewrite Hnone|..];
        (split; [constructor|by intros ? ?%elem_of_nil]).
    - apply step_requests in Hs as [Hch Hn]. unfold cancelled, started. rewrite !omap_app.
      by eapply request_invariant_step. }
  split_and!; [done..| |done]. intros path id Hid. by destruct (Hf _ _ Hid).
Qed.
End Requests.

Lemma request_contexts_witness :
  let r := agent_run in
  reachable no_signature no_filters bluetooth_options portalDestination_name ":1.5" r.1 r.2 ∧ NoDup (started r.2).
Proof.
  intros r. split; [exact agent_reachable|].
  exact (proj1 (request_contexts no_signature no_filters bluetooth_options portalDestination_name ":1.5" _ _ agent_reachable)).
Defined.

(** Two pending requests of one token share a handle: when the first picker is
    done the second request can no longer be closed, its [Close] is denied. *)
Definition open_file (serial : N) : message :=
  bus_call serial portalDestination_name portalObjectPath fileChooserInterface "OpenFile"
    [VString ""; VString "Open"; VDict [("handle_token", VString "t")]].
Definition reused_handle : string := "/org/freedesktop/portal/desktop/request/1_9/t".
Definition reuse_inputs : list input :=
  [FromClient 0 (bus_call 1 bus_name bus_path bus_name "Hello" []) true;
   FromUpstream 0 (from bus_name (bus_reply 1 ":1.9" [VString ":1.9"])) None;
   FromClient 0 (open_file 2) true; FromClient 0 (open_file 3) true;
   PickDone 0 reused_handle ":1.9" (inl (mkResult "/f" [] "read-only"));
   FromClient 0 (bus_call 4 portalDestination_name reused_handle requestInterface "Close" []) true].
Lemma reused_handle_stays_open :
  let outs := (run no_signature no_filters session_options portalDestination_name (initial "") reuse_inputs).2 in
  started outs = [1; 2] ∧ cancelled outs = [] ∧
  last outs = Some (Effect 0 (Answer (methodError no_signature
    (bus_call 4 portalDestination_name reused_handle requestInterface "Close" [])
    "org.freedesktop.DBus.Error.AccessDenied" (denied "session")))).
Proof. vm_compute. split_and!; reflexivity. Qed.
